(* ===== verification/_CoqProject ===== *)
-Q . S2P
Prelude.v
Transfers.v
Wire.v
HostValues.v
HostChannel.v
HostInvariant.v
HostRecords.v
PortChannel.v
PortPair.v
PortMove.v
Base64.v
ChannelHost.v
ChannelTable.v
WorkerPool.v
WorkerPoolInvariant.v
WorkerPoolRun.v
PoolChannels.v
WorkerPoolResults.v
EffectCodec.v
EffectLeases.v
EffectFiles.v
EffectFilesSpec.v
EffectHttp.v
EffectHttpSpec.v
EffectFrame.v
FrameHost.v
EffectGpu.v
EffectGpuSpec.v
EffectCrypto.v
Guest.v
GuestSpec.v
AppLimits.v
AppRun.v
AppRunSpec.v
VmWorker.v
VmWorkerSpec.v
GuestVm.v
GuestVmSpec.v
Lane.v
LaneSpec.v
PoolLanes.v
PoolLanesSpec.v
PoolLanesDemo.v
Assets.v
Native.v
Aot.v
AotSpec.v
BrowserApp.v
BrowserAppSpec.v
ArtifactViews.v
TestReports.v
Audio.v
Compiler.v
CompilerSpec.v
Packaged.v
Percent.v
PlaygroundOptions.v
PlaygroundPage.v
PlaygroundPageSpec.v
PlaygroundPanes.v
NodePath.v
StaticServe.v
Packaging.v
PackagingSpec.v
PackagingAppSpec.v
ExtensionSettings.v
ExtensionClients.v
ExtensionCommands.v
ExtensionArtifacts.v
DocCompiler.v
DocWidget.v
TestCoverage.v
LuaOutput.v
NuppLang.v
ExtensionSession.v
