(* ===== verification/Prelude.v ===== *)
(** * The browser runtime of Nupp, and its editors: a verification library

    Nupp programs run in a browser inside a guest: a small Linux with LuaJIT on an emulated
    machine in a Web Worker.  A guest has no operating system to call.  It yields a frame of
    effects (files, HTTP, GPU, random bytes, timers, workers, channels, calls of the page's
    own code), the JavaScript around it performs them and answers the frame.  That JavaScript,
    [src/runtime/luajit] and [src/runtime/wasm], is what this library models, with the logic of
    the editors that is written in the same language ([src/editors]) and the scripts that package and
    serve applications.

    ** How the code is read

    JavaScript runs one turn at a time.  A synchronous function is a computation of the monad
    [js] of this file over the component's state, a record with one field per variable the code
    closes over; an exception is [Throw] and what was written before it stays written.  An
    [async] function is cut at its [await]s: each part is an operation, and the part after an
    [await] is run by an event when the promise settles.  A component's life is a list of such
    events in any order, and its theorems quantify over the list, so every interleaving of
    turns is covered.  Objects that several tables refer to live in a store by number and the
    tables hold the numbers.  [Map] and [Set] keep insertion order and are [jmap] and lists.
    Unchecked values of the guest or the page are [jsval]; numbers are [Z] where the code has
    checked [Number.isSafeInteger] and [jsnum] before it has.  What is posted, called or
    terminated is recorded in order in a log field of the state.  Platform code (Web Crypto,
    [fetch], the file system, the GPU device, the emulator, [JSON], VS Code) is an argument or
    a class of operations, each of which may fail.

    ** Files and sources

    Lease table of a frame: [Transfers] (luajit/transfers.mjs: createTransfers, lease, release,
    response).
    Host channel (wasm/host-channel.mjs): [Wire] (text, Reader, Writer), [HostValues] (kinds,
    handlers, values), [HostChannel] (createHostChannel to performHostEffect), [HostInvariant],
    [HostRecords].
    Channels between guests: [PortChannel] (wasm/channel.mjs: createPortChannel,
    adoptPortEndpoint and the endpoint), [PortPair] (two endpoints and their wires), [PortMove] (endpoints that move),
    [Base64], [ChannelHost] and [ChannelTable] (wasm/channel-host.mjs: createChannelHost).
    Workers: [WorkerPool], [WorkerPoolInvariant], [WorkerPoolRun], [WorkerPoolResults]
    (wasm/worker-pool.mjs: createWorkerPool) over the class [ChannelService], which
    [PoolChannels] implements with [ChannelHost]; [Lane], [LaneSpec] (luajit/worker-lane.mjs);
    [PoolLanes], [PoolLanesSpec], [PoolLanesDemo] (the pool and its lanes, over the messages they post to each other).
    Effects (wasm/app-runtime.mjs): [EffectCodec] (base64, hexadecimal, limits, digests, random
    bytes, sleep), [EffectLeases], [EffectFiles] and its Spec, [EffectHttp] and its Spec,
    [EffectGpu] and its Spec, [EffectCrypto] (Web Crypto, the shared GPU device), [EffectFrame] (handleBrowserEffects) over the class [HostFrames],
    which [FrameHost] implements with [HostChannel].
    Guest: [Guest], [GuestSpec] (luajit/host.mjs: createGuest), [VmWorker], [VmWorkerSpec]
    (luajit/vm-worker.mjs), [GuestVm], [GuestVmSpec] (the owner and the workers it starts, over the messages they post to each other).
    Application: [AppLimits], [AppRun], [AppRunSpec] (luajit/app-runtime.mjs: resolveLimits,
    applicationPayload, runNuppLuaJITApp), [Assets] (luajit/assets.mjs), [Native]
    (luajit/native.mjs), [Aot], [AotSpec] (luajit/aot.mjs: createKernels, perform), [Packaged]
    (luajit/app-runtime.mjs: runPackagedNuppLuaJITApp), [BrowserApp], [BrowserAppSpec]
    (wasm/browser-entry.mjs with luajit/browser-worker.mjs), [Audio] (wasm/audio.mjs with
    wasm/audio-worklet.mjs).
    Editors: [Compiler], [CompilerSpec] (luajit/host.mjs: createCompiler, and the playground's
    luajit-worker.js), [Percent] and [PlaygroundOptions] (playground/src/options.js and fragmentParams
    of app.js), [PlaygroundPage], [PlaygroundPageSpec] (playground/src/app.js: requests, checks, runs),
    [PlaygroundPanes] (app.js: panes, output panel, options menu, diagnostics list, Open and Share),
    [DocCompiler] and [DocWidget] (playground/src/doc-app.js: CompilerClient, NuppDocPlayground,
    runGenerated), [LuaOutput] (lua-output.js), [NuppLang] (nupp-lang.js).
    The VS Code extension (vscode/extension.js): [ArtifactViews] (panes), [ExtensionArtifacts]
    (generated documents), [TestReports] and [TestCoverage] (tests), [ExtensionSettings] (settings,
    launch, commands' registration), [ExtensionClients] (language servers), [ExtensionCommands] (trace
    check, migration), [ExtensionSession] (test controllers, the code action, diagnostics while documents change).
    Packaging and serving: [NodePath] (the functions of node:path the scripts use), [Packaging],
    [PackagingSpec], [PackagingAppSpec] (luajit/package-assets.mjs, luajit/package-browser-app.mjs),
    [StaticServe] (scripts/docs-serve.mjs and the other servers of files).

    ** What is shown

    Memory that crosses: the leases of a frame tile its payload for as long as the frame lives
    and a write touches its own lease only; kernels free what they allocate and convert spans
    between layouts without loss as long as the fields the guest names do not overlap; buffers of the device are never used after they are
    destroyed.
    Protocols: a pair of endpoints conserves credits, is first in first out and loses nothing but
    what reaches a port that was moved and neither posted nor adopted yet (an example in
    [PortMove] loses a packet so), never closes by itself and closes in order; a guest's frames and the host's answers keep
    step; calls between page and Worker refine a table of remote calls; pushes arrive in order.
    Accounting: no task of a pool is lost or run twice and results are final, a lane starts and
    answers a task once, every effect is answered once, every request of the playground is
    answered once, an application runs once.
    Compositions: a pool and its lanes agree on the task each lane has, wherever the task, its reply or its cancellation is, and
    a reply settles the task it is of; the frame a guest waits for is in one place, on the way, with the owner or answered, so
    that no response is stale as long as each directly follows the frame it answers (an example in [GuestVmSpec] shows one that
    comes after a relaunch).
    Bounds: budgets of a run, retained HTTP bodies, uploads and queues of the host channel.
    Ends: a watchdog, an abort and a limit each end a run, and the end of a run gives back
    the workers, timers, files, bodies, buffers and channels there are at that moment (a file that is still being opened then is
    kept, an example in [AppRunSpec]); a pool's close settles everything.
    Authenticity: what starts is what the manifest's digests name; the program that installs
    native libraries installs exactly their bytes.
    Editors: the lines shown side by side are those of a reference definition by minimum, panes
    do not push each other, a suite's verdict is that of its tests when the record can be read, a coverage run replaces what the
    gutter shows, a shared link reopens the program and the options it was made with, a pane
    of the page keeps its minimum and its neighbour's, a closed panel is only its bar, the page settles
    every request once, and Stop ends whatever Run began.  The client of a documentation page uses its
    Worker as a specification of that Worker asks, settles its requests in order, and an open Lua tab is
    of the text in the editor as long as nothing is run (running is how it can go wrong: the
    examples at the end of [DocWidget]).  A line is tokenized to its end and its operators are read whole.
    Every language server of the extension is its folder's entry, stopped, failed, or displaced by
    an older one that failed; a folder's controller that cannot be made keeps no other folder from its tests at activation, but settings that cannot be
    read reject the activation; a migration edits files only when everything agrees.
    Packages: a guest that was copied loads with the bytes of its source when its names are ones a URL has as they are, every file an application's
    manifest names is as recorded, and a server that looks at the separator serves only what is
    below its directory.

    ** Fuel and bounds

    [dispatch] of the pool recurses through failed assignments; every round takes a task off
    the queue, so the length of the queue is enough.  [readRecords] and the readers of [Wire]
    are given the length of their input, and each record consumes at least a byte
    ([readRecords_total]).  An asset asks for at most one other, its packed form, so two levels
    of [verified] are enough ([verified_fuel]).  The chunk loops of [EffectCodec] get the length of
    their bytes, of which each round passes many.  [decode_from] of [Percent] gets the length of its text, and a line
    of [NuppLang] as many tokens as it has characters ([line_tokenized]).  Other loops are structural on the list they walk.

    ** Not modelled

    The compiler and the standard library (Nupp and Lua), the native runtime (Rust and C) and
    the Lua side of the guest are in other languages.  Of the JavaScript: the themes and the creation of editors and
    rows in the playground and the documentation, the calls that hand the extension's providers to VS Code, build scripts that
    run other programs, benchmarks, tests and the bundle
    [src/editors/vscode/dist], which the build makes from [extension.js].  The contents of Web
    Crypto, [fetch], WebGPU, the file system and the emulator are the platform's. *)

From Stdlib Require Export ZArith Lia.
From Stdlib Require Export Strings.Byte.
From stdpp Require Export base tactics numbers list strings gmap pretty.

#[global] Open Scope Z_scope.
#[global] Set Default Goal Selector "!".

(** ** Results and the state-and-exception monad *)

(** A JavaScript call returns a value or throws an [Error] with a message. *)
Inductive res (A : Type) : Type :=
| Ok (a : A)
| Throw (e : string).
Arguments Ok {A} a.
Arguments Throw {A} e.

Definition is_ok {A} (r : res A) : bool :=
  match r with Ok _ => true | Throw _ => false end.

#[export] Instance res_ret : MRet res := λ A a, Ok a.
#[export] Instance res_bind : MBind res := λ A B k m,
  match m with Ok a => k a | Throw e => Throw e end.

(** Code that mutates a store [S]: what was written before a [throw] stays
    written, as in JavaScript. *)
Definition js (S A : Type) : Type := S → res A * S.

#[export] Instance js_ret {S} : MRet (js S) := λ A a s, (Ok a, s).
#[export] Instance js_bind {S} : MBind (js S) := λ A B k m s,
  match m s with
  | (Ok a, s') => k a s'
  | (Throw e, s') => (Throw e, s')
  end.

Definition throw {S A} (e : string) : js S A := λ s, (Throw e, s).
Definition gets {S A} (f : S → A) : js S A := λ s, (Ok (f s), s).
Definition modify {S} (f : S → S) : js S () := λ s, (Ok tt, f s).
Definition lift {S A} (r : res A) : js S A := λ s, (r, s).
Definition when {S} (b : bool) (m : js S ()) : js S () :=
  if b then m else mret tt.
Definition guard_js {S} (b : bool) (e : string) : js S () :=
  if b then throw e else mret tt.

(** [try { m } catch (error) { h(error.message) }]. *)
Definition try_catch {S A} (m : js S A) (h : string → js S A) : js S A := λ s,
  match m s with
  | (Ok a, s') => (Ok a, s')
  | (Throw e, s') => h e s'
  end.

(** [try { m } finally { f }]; a throw of [f] replaces the outcome of [m]. *)
Definition try_finally {S A} (m : js S A) (f : js S ()) : js S A := λ s,
  let '(r, s') := m s in
  match f s' with
  | (Ok _, s'') => (r, s'')
  | (Throw e, s'') => (Throw e, s'')
  end.

(** [for (const x of xs) f(x)]. *)
Fixpoint for_each {S A} (xs : list A) (f : A → js S ()) : js S () :=
  match xs with
  | [] => mret tt
  | x :: xs' => f x ;; for_each xs' f
  end.

(** Runs code of a component whose store is part of a larger one. *)
Definition zoom {S T A} (get : S → T) (put : T → S → S) (m : js T A) : js S A := λ s,
  let '(r, t) := m (get s) in (r, put t s).

(** How a sequence of two computations returns or throws. *)
Lemma bind_Ok {S A B} (m : js S A) (k : A → js S B) s b s'' :
  (m ≫= k) s = (Ok b, s'') → ∃ a s', m s = (Ok a, s') ∧ k a s' = (Ok b, s'').
Proof.
  unfold mbind, js_bind. destruct (m s) as [[a|e] s']; [|done]. intros H. by exists a, s'.
Qed.

Lemma bind_run {S A B} (m : js S A) (k : A → js S B) s a s' :
  m s = (Ok a, s') → (m ≫= k) s = k a s'.
Proof. unfold mbind, js_bind. by intros ->. Qed.

Lemma guard_Ok {S} b e (s : S) u s' : guard_js b e s = (Ok u, s') → b = false ∧ s' = s.
Proof. destruct b; [done|]. by intros [= _ ->]. Qed.

Lemma guard_run {S} b e (s : S) : b = false → guard_js b e s = (Ok tt, s).
Proof. by intros ->. Qed.

Lemma finally_Ok {S A} (m : js S A) f s a s'' :
  try_finally m f s = (Ok a, s'') → ∃ s', m s = (Ok a, s') ∧ f s' = (Ok tt, s'').
Proof.
  unfold try_finally. destruct (m s) as [r s'] eqn:E. destruct (f s') as [[[]|e] s1] eqn:F; [|done].
  intros [= -> ->]. by exists s'.
Qed.

Lemma finally_run {S A} (m : js S A) f s r s' s'' :
  m s = (r, s') → f s' = (Ok tt, s'') → try_finally m f s = (r, s'').
Proof. intros E1 E2. unfold try_finally. by rewrite E1, E2. Qed.

(** Weakest precondition: [Q] on normal return, [E] on a throw. *)
Definition wp {S A} (m : js S A) (Q : A → S → Prop) (E : string → S → Prop) (s : S) : Prop :=
  match m s with
  | (Ok a, s') => Q a s'
  | (Throw e, s') => E e s'
  end.

(** Every run of [m] from a state of [I] ends in a state of [I], also when it throws. *)
Definition preserves {S A} (I : S → Prop) (m : js S A) : Prop :=
  ∀ s, I s → I (m s).2.

Create HintDb jsinv.

Section Preserves.
Context {S : Type}.
Implicit Types I : S → Prop.

Lemma preserves_ret {A} I (a : A) : preserves I (mret a).
Proof. by intros s Hs. Qed.

Lemma preserves_throw {A} I e : preserves I (@throw S A e).
Proof. by intros s Hs. Qed.

Lemma preserves_gets {A} I (f : S → A) : preserves I (gets f).
Proof. by intros s Hs. Qed.

Lemma preserves_lift {A} I (r : res A) : preserves I (lift r).
Proof. by intros s Hs. Qed.

Lemma preserves_modify I f : (∀ s, I s → I (f s)) → preserves I (modify f).
Proof. intros H s Hs. by apply H. Qed.

Lemma preserves_bind {A B} I (m : js S A) (k : A → js S B) :
  preserves I m → (∀ a, preserves I (k a)) → preserves I (m ≫= k).
Proof.
  intros Hm Hk s Hs. specialize (Hm s Hs).
  unfold mbind, js_bind. destruct (m s) as [[a|e] s']; [by apply Hk|done].
Qed.

Lemma preserves_if {A} I (b : bool) (m1 m2 : js S A) :
  preserves I m1 → preserves I m2 → preserves I (if b then m1 else m2).
Proof. by destruct b. Qed.

Lemma preserves_when I b m : preserves I m → preserves I (when b m).
Proof. destruct b; [done|]. intros _. apply preserves_ret. Qed.

Lemma preserves_guard I b e : preserves I (guard_js b e).
Proof. by destruct b; intros s Hs. Qed.

Lemma preserves_try_catch {A} I (m : js S A) h :
  preserves I m → (∀ e, preserves I (h e)) → preserves I (try_catch m h).
Proof.
  intros Hm Hh s Hs. specialize (Hm s Hs). unfold try_catch.
  destruct (m s) as [[a|e] s']; [done|by apply Hh].
Qed.

Lemma preserves_try_finally {A} I (m : js S A) f :
  preserves I m → preserves I f → preserves I (try_finally m f).
Proof.
  intros Hm Hf s Hs. specialize (Hm s Hs). unfold try_finally.
  destruct (m s) as [r s']. specialize (Hf s' Hm).
  by destruct (f s') as [[[]|e] s''].
Qed.

Lemma preserves_for_each {A} I (xs : list A) f :
  (∀ x, x ∈ xs → preserves I (f x)) → preserves I (for_each xs f).
Proof.
  induction xs as [|x xs IH]; intros Hf; simpl; [apply preserves_ret|].
  apply preserves_bind; [apply Hf; left|]. intros _. apply IH.
  intros y Hy. apply Hf. by right.
Qed.

Lemma preserves_and I1 I2 {A} (m : js S A) :
  preserves I1 m → preserves I2 m → preserves (λ s, I1 s ∧ I2 s) m.
Proof. intros H1 H2 s [Hs1 Hs2]. split; [by apply H1|by apply H2]. Qed.
End Preserves.

#[export] Hint Resolve preserves_ret preserves_throw preserves_gets preserves_lift
  preserves_guard : jsinv.

(** Walks the monadic structure of a program and leaves its [modify]s. *)
Ltac preserve :=
  repeat first
    [ progress intros
    | solve [eauto with jsinv nocore]
    | apply preserves_bind
    | apply preserves_when
    | apply preserves_try_catch
    | apply preserves_try_finally
    | apply preserves_for_each
    | apply preserves_if
    | match goal with
      | |- preserves _ (match ?x with _ => _ end) => destruct x
      end ].

(** ** Numbers and values *)

(** A JavaScript number: a double with an integral value, another finite
    double (its bit pattern), a NaN or an infinity. *)
Inductive jsnum : Type :=
| NInt (z : Z)
| NFrac (bits : Z)
| NNaN
| NInf (negative : bool).

#[export] Instance jsnum_eq_dec : EqDecision jsnum.
Proof. solve_decision. Defined.

Definition MAX_SAFE_INTEGER : Z := 2 ^ 53 - 1.

(** A JavaScript value, as far as the runtime tells values apart. Text is held
    as its UTF-8 bytes (a lone surrogate as its three-byte form). *)
Inductive jsval : Type :=
| VUndef
| VNull
| VBool (b : bool)
| VNum (n : jsnum)
| VStr (s : string)
| VObj.

#[export] Instance jsval_eq_dec : EqDecision jsval.
Proof. solve_decision. Defined.

(** [Number.isInteger(v)] and [Number.isSafeInteger(v)], with the integer. *)
Definition to_integer (v : jsval) : option Z :=
  match v with VNum (NInt z) => Some z | _ => None end.

Definition to_safe (v : jsval) : option Z :=
  match v with
  | VNum (NInt z) => if Z.abs z <=? MAX_SAFE_INTEGER then Some z else None
  | _ => None
  end.

Definition is_string (v : jsval) : bool :=
  match v with VStr _ => true | _ => false end.

Definition is_finite_num (n : jsnum) : bool :=
  match n with NInt _ | NFrac _ => true | NNaN | NInf _ => false end.

Lemma to_safe_Some v z :
  to_safe v = Some z → v = VNum (NInt z) ∧ - MAX_SAFE_INTEGER <= z <= MAX_SAFE_INTEGER.
Proof.
  unfold to_safe. destruct v as [| | |[]| |]; try done.
  destruct (Z.leb_spec (Z.abs z0) MAX_SAFE_INTEGER); [|done].
  intros [= ->]. split; [done|lia].
Qed.

(** ** Bytes *)

Definition byte_of_Z (z : Z) : byte :=
  match Byte.of_N (Z.to_N (z mod 256)) with Some b => b | None => x00 end.
Definition Z_of_byte (b : byte) : Z := Z.of_N (Byte.to_N b).

#[export] Instance byte_eq_dec : EqDecision byte := Byte.byte_eq_dec.
#[export] Instance byte_inhabited : Inhabited byte := populate x00.

Lemma Z_of_byte_range b : 0 <= Z_of_byte b < 256.
Proof.
  unfold Z_of_byte. pose proof (Byte.to_N_bounded b). lia.
Qed.

Lemma byte_of_Z_of_byte b : byte_of_Z (Z_of_byte b) = b.
Proof.
  unfold byte_of_Z. rewrite Z.mod_small by apply Z_of_byte_range.
  unfold Z_of_byte. by rewrite N2Z.id, Byte.of_to_N.
Qed.

Lemma Z_of_byte_of_Z z : Z_of_byte (byte_of_Z z) = z mod 256.
Proof.
  unfold byte_of_Z, Z_of_byte. pose proof (Z.mod_pos_bound z 256 ltac:(lia)) as Hb.
  destruct (Byte.of_N (Z.to_N (z mod 256))) as [b|] eqn:E.
  - apply Byte.to_of_N in E. rewrite E. lia.
  - apply Byte.of_N_None_iff in E. lia.
Qed.

(** [n] little-endian bytes of [z], and the number [n] bytes hold. *)
Fixpoint le_split (n : nat) (z : Z) : list byte :=
  match n with
  | O => []
  | S n' => byte_of_Z z :: le_split n' (z / 256)
  end.

Fixpoint le_combine (bs : list byte) : Z :=
  match bs with
  | [] => 0
  | b :: bs' => Z_of_byte b + 256 * le_combine bs'
  end.

Lemma length_le_split n z : length (le_split n z) = n.
Proof. revert z. induction n as [|n IH]; intros z; simpl; [done|by rewrite IH]. Qed.

Lemma le_combine_split n z : le_combine (le_split n z) = z mod 256 ^ Z.of_nat n.
Proof.
  revert z. induction n as [|n IH]; intros z.
  - simpl. by rewrite Z.mod_1_r.
  - cbn [le_split le_combine]. rewrite IH, Z_of_byte_of_Z.
    rewrite Nat2Z.inj_succ, Z.pow_succ_r by lia.
    rewrite (Z.rem_mul_r z 256) by lia. lia.
Qed.

Lemma le_combine_bound bs : 0 <= le_combine bs < 256 ^ Z.of_nat (length bs).
Proof.
  induction bs as [|b bs IH]; cbn [le_combine length]; [lia|].
  rewrite Nat2Z.inj_succ, Z.pow_succ_r by lia.
  pose proof (Z_of_byte_range b). nia.
Qed.

(** ** Lists *)

Definition zlen {A} (l : list A) : Z := Z.of_nat (length l).

Lemma zlen_nonneg {A} (l : list A) : 0 <= zlen l.
Proof. unfold zlen. lia. Qed.

Lemma zlen_app {A} (l1 l2 : list A) : zlen (l1 ++ l2) = zlen l1 + zlen l2.
Proof. unfold zlen. rewrite length_app. lia. Qed.

Lemma zlen_nil {A} : zlen (@nil A) = 0.
Proof. done. Qed.

Lemma zlen_cons {A} (x : A) l : zlen (x :: l) = 1 + zlen l.
Proof. unfold zlen. cbn [length]. lia. Qed.

(** [bytes.subarray(from, from + count)] for a range inside the array. *)
Definition slice {A} (from count : Z) (l : list A) : list A :=
  take (Z.to_nat count) (drop (Z.to_nat from) l).

(** [target.set(source, at)] for a range inside the target. *)
Definition splice {A} (at_ : Z) (src l : list A) : list A :=
  take (Z.to_nat at_) l ++ src ++ drop (Z.to_nat at_ + length src) l.

Lemma zlen_slice {A} from count (l : list A) :
  0 <= from → 0 <= count → from + count <= zlen l → zlen (slice from count l) = count.
Proof.
  intros. unfold slice, zlen in *. rewrite length_take, length_drop. lia.
Qed.

Lemma zlen_splice {A} at_ (src l : list A) :
  0 <= at_ → at_ + zlen src <= zlen l → zlen (splice at_ src l) = zlen l.
Proof.
  intros. unfold splice, zlen in *. rewrite !length_app, length_take, length_drop. lia.
Qed.

Lemma slice_splice_same {A} at_ (src l : list A) :
  0 <= at_ → at_ + zlen src <= zlen l → slice at_ (zlen src) (splice at_ src l) = src.
Proof.
  intros. unfold slice, splice, zlen in *.
  rewrite drop_app_ge by (rewrite length_take; lia).
  rewrite length_take, Nat.min_l, Nat.sub_diag, drop_0 by lia.
  rewrite Nat2Z.id. apply take_app_length.
Qed.

Lemma slice_splice_below {A} from count at_ (src l : list A) :
  0 <= from → 0 <= count → from + count <= at_ → at_ + zlen src <= zlen l →
  slice from count (splice at_ src l) = slice from count l.
Proof.
  intros. unfold slice, splice, zlen in *.
  rewrite !take_drop_commute. f_equal.
  rewrite take_app_le by (rewrite length_take; lia).
  rewrite take_take. f_equal. lia.
Qed.

Lemma slice_splice_above {A} from count at_ (src l : list A) :
  0 <= at_ → at_ + zlen src <= from → 0 <= count → at_ + zlen src <= zlen l →
  slice from count (splice at_ src l) = slice from count l.
Proof.
  intros. unfold slice, splice, zlen in *. f_equal.
  rewrite drop_app_ge by (rewrite length_take; lia).
  rewrite length_take, Nat.min_l by lia.
  rewrite drop_app_ge by lia. rewrite drop_drop. f_equal. lia.
Qed.

Lemma slice_app_exact {A} (l1 l2 l3 : list A) :
  slice (zlen l1) (zlen l2) (l1 ++ l2 ++ l3) = l2.
Proof.
  unfold slice, zlen. rewrite !Nat2Z.id, drop_app_length. apply take_app_length.
Qed.

Lemma splice_middle {A} at_ (src a b c : list A) :
  0 <= at_ → at_ + zlen src <= zlen b →
  splice (zlen a + at_) src (a ++ b ++ c) = a ++ splice at_ src b ++ c.
Proof.
  intros. unfold splice, zlen in *.
  replace (Z.to_nat (Z.of_nat (length a) + at_)) with (length a + Z.to_nat at_)%nat by lia.
  rewrite take_app_add, <- Nat.add_assoc, drop_app_add.
  rewrite take_app_le, drop_app_le by lia. by rewrite <- !app_assoc.
Qed.

Lemma slice_splice_inside {A} from count at_ (src l : list A) :
  0 <= from → 0 <= at_ → at_ + zlen src <= count → from + count <= zlen l →
  slice from count (splice (from + at_) src l) = splice at_ src (slice from count l).
Proof.
  intros. pose proof (zlen_nonneg src).
  set (a := slice 0 from l). set (b := slice from count l).
  set (c := slice (from + count) (zlen l - (from + count)) l).
  assert (l = a ++ b ++ c) as Hl.
  { unfold a, b, c, slice, zlen in *. simpl.
    rewrite (take_ge (drop (Z.to_nat (from + count)) l)) by (rewrite length_drop; lia).
    replace (Z.to_nat (from + count)) with (Z.to_nat from + Z.to_nat count)%nat by lia.
    by rewrite <- drop_drop, take_drop, take_drop. }
  assert (zlen a = from) as Ha by (apply zlen_slice; lia).
  assert (zlen b = count) as Hb by (apply zlen_slice; lia).
  rewrite Hl. rewrite <- Ha at 2. rewrite splice_middle by lia.
  rewrite <- Ha. rewrite <- Hb, <- (zlen_splice at_ src b) by lia. apply slice_app_exact.
Qed.

Lemma slice_whole {A} (l : list A) : slice 0 (zlen l) l = l.
Proof. unfold slice, zlen. rewrite Nat2Z.id. simpl. by apply take_ge. Qed.

Definition sumZ {A} (f : A → Z) (l : list A) : Z := foldr (λ x acc, f x + acc) 0 l.

Lemma sumZ_app {A} (f : A → Z) l1 l2 : sumZ f (l1 ++ l2) = sumZ f l1 + sumZ f l2.
Proof. induction l1 as [|x l1 IH]; simpl; lia. Qed.

Lemma sumZ_nonneg {A} (f : A → Z) l : (∀ x, x ∈ l → 0 <= f x) → 0 <= sumZ f l.
Proof.
  induction l as [|x l IH]; intros H; simpl; [lia|].
  pose proof (H x ltac:(left)). assert (0 <= sumZ f l); [|lia].
  apply IH. intros y Hy. apply H. by right.
Qed.

Lemma sumZ_ext {A} (f g : A → Z) l : (∀ x, x ∈ l → f x = g x) → sumZ f l = sumZ g l.
Proof.
  induction l as [|x l IH]; intros H; simpl; [done|].
  rewrite (H x), IH; [done| |left]. intros y Hy. apply H. by right.
Qed.

(** Removes the first member equal to [x]. *)
Fixpoint remove_one {A} `{EqDecision A} (x : A) (l : list A) : list A :=
  match l with
  | [] => []
  | y :: l' => if decide (x = y) then l' else y :: remove_one x l'
  end.

Lemma remove_one_perm {A} `{EqDecision A} (x : A) l : x ∈ l → l ≡ₚ x :: remove_one x l.
Proof.
  induction l as [|y l IH]; intros Hx; [by apply elem_of_nil in Hx|]. simpl.
  case_decide as E; [by subst|]. apply elem_of_cons in Hx as [->|Hx]; [done|].
  rewrite (IH Hx) at 1. apply Permutation_swap.
Qed.

(** [text.split(c)] of a one-byte separator. *)
Definition split_on {A} `{EqDecision A} (sep : A) (text : list A) : list (list A) :=
  foldr (λ b acc, if bool_decide (b = sep) then [] :: acc else match acc with l :: ls => (b :: l) :: ls | [] => [[b]] end) [[]] text.

Lemma split_on_whole {A} `{EqDecision A} (sep : A) l : sep ∉ l → split_on sep l = [l].
Proof.
  induction l as [|b l IH]; [done|]. intros Hn. cbn [split_on foldr]. fold (split_on sep l).
  rewrite bool_decide_false by set_solver. by rewrite IH by set_solver.
Qed.

Lemma split_on_sep {A} `{EqDecision A} (sep : A) l r : sep ∉ l → split_on sep (l ++ sep :: r) = l :: split_on sep r.
Proof.
  induction l as [|b l IH]; intros Hn; cbn [app split_on foldr].
  - by rewrite bool_decide_true.
  - fold (split_on sep (l ++ sep :: r)). rewrite bool_decide_false by set_solver. by rewrite IH by set_solver.
Qed.

(** ** Insertion-ordered maps *)

(** A JavaScript [Map]: lookups by key, iteration in insertion order, and
    [set] of a present key keeps its place. *)
Abbreviation jmap K V := (list (K * V)).

Section JMap.
Context {K V : Type} `{EqDecision K}.
Implicit Types (k : K) (v : V) (m : jmap K V).

Fixpoint mget k m : option V :=
  match m with
  | [] => None
  | (k', v) :: m' => if decide (k = k') then Some v else mget k m'
  end.

Fixpoint mset k v m : jmap K V :=
  match m with
  | [] => [(k, v)]
  | (k', v') :: m' => if decide (k = k') then (k, v) :: m' else (k', v') :: mset k v m'
  end.

Fixpoint mdelete k m : jmap K V :=
  match m with
  | [] => []
  | (k', v') :: m' => if decide (k = k') then mdelete k m' else (k', v') :: mdelete k m'
  end.

Definition mhas k m : bool := match mget k m with Some _ => true | None => false end.

Lemma mget_mset_eq k v m : mget k (mset k v m) = Some v.
Proof.
  induction m as [|[k' v'] m IH]; simpl; [by rewrite decide_True|].
  case_decide as E; simpl; [by rewrite decide_True|by rewrite decide_False].
Qed.

Lemma mget_mset_ne k k' v m : k ≠ k' → mget k' (mset k v m) = mget k' m.
Proof.
  intros Hne. induction m as [|[k'' v''] m IH]; simpl; [by rewrite decide_False|].
  case_decide as E; simpl; [subst|]; repeat case_decide; congruence.
Qed.

Lemma mget_mset_Some k k' v v' m :
  mget k' (mset k v m) = Some v' → k' = k ∧ v' = v ∨ k' ≠ k ∧ mget k' m = Some v'.
Proof.
  destruct (decide (k = k')) as [->|Hne].
  - rewrite mget_mset_eq. intros [= <-]. by left.
  - rewrite mget_mset_ne by done. by right.
Qed.

Lemma is_Some_mget_mset k k' v m : is_Some (mget k' m) → is_Some (mget k' (mset k v m)).
Proof.
  destruct (decide (k = k')) as [->|Hne]; [rewrite mget_mset_eq; eauto|by rewrite mget_mset_ne].
Qed.

Lemma mset_mset k v v' m : mset k v' (mset k v m) = mset k v' m.
Proof.
  induction m as [|[k' w] m IH]; simpl; [by rewrite decide_True|].
  case_decide; simpl; [by rewrite decide_True|]. rewrite decide_False by done. by rewrite IH.
Qed.

Lemma mget_app k m1 m2 : mget k (m1 ++ m2) = match mget k m1 with Some v => Some v | None => mget k m2 end.
Proof. induction m1 as [|[k' v] m1 IH]; simpl; [done|]. by case_decide. Qed.

Lemma mget_mdelete_eq k m : mget k (mdelete k m) = None.
Proof.
  induction m as [|[k' v'] m IH]; simpl; [done|].
  case_decide as E; simpl; [done|by rewrite decide_False].
Qed.

Lemma mget_mdelete_ne k k' m : k ≠ k' → mget k' (mdelete k m) = mget k' m.
Proof.
  intros Hne. induction m as [|[k'' v''] m IH]; simpl; [done|].
  case_decide as E; simpl; repeat case_decide; congruence.
Qed.

Lemma mget_None_keys k m : mget k m = None ↔ k ∉ m.*1.
Proof.
  induction m as [|[k' v'] m IH]; simpl; [split; [set_solver|done]|].
  case_decide as E; [split; [done|set_solver]|]. rewrite IH. set_solver.
Qed.

Lemma mget_elem k v m : mget k m = Some v → (k, v) ∈ m.
Proof.
  induction m as [|[k' v'] m IH]; simpl; [done|].
  case_decide as E; [intros [= ->]; subst; left|intros H; right; auto].
Qed.

Lemma elem_mget k v m : NoDup m.*1 → (k, v) ∈ m → mget k m = Some v.
Proof.
  induction m as [|[k' v'] m IH]; simpl; [set_solver|].
  intros Hnd Hin. apply NoDup_cons in Hnd as [Hni Hnd].
  apply elem_of_cons in Hin as [Heq|Hin].
  - simplify_eq. by rewrite decide_True.
  - rewrite decide_False; [auto|]. intros ->. apply Hni.
    apply list_elem_of_fmap. by exists (k', v).
Qed.

Lemma mset_keys_elem k v m k' : k' ∈ (mset k v m).*1 ↔ k' = k ∨ k' ∈ m.*1.
Proof.
  induction m as [|[k'' v''] m IH]; simpl; [set_solver|].
  case_decide as E; simpl; set_solver.
Qed.

Lemma mdelete_keys_elem k m k' : k' ∈ (mdelete k m).*1 ↔ k' ≠ k ∧ k' ∈ m.*1.
Proof.
  induction m as [|[k'' v''] m IH]; simpl; [set_solver|].
  case_decide as E; simpl; set_solver.
Qed.

Lemma NoDup_mset k v m : NoDup m.*1 → NoDup (mset k v m).*1.
Proof.
  induction m as [|[k' v'] m IH]; simpl; intros Hnd; [repeat constructor; set_solver|].
  apply NoDup_cons in Hnd as [Hni Hnd]. case_decide as E; simpl.
  - subst. by constructor.
  - constructor; [|auto]. rewrite mset_keys_elem. naive_solver.
Qed.

Lemma NoDup_mdelete k m : NoDup m.*1 → NoDup (mdelete k m).*1.
Proof.
  induction m as [|[k' v'] m IH]; simpl; intros Hnd; [done|].
  apply NoDup_cons in Hnd as [Hni Hnd]. case_decide as E; simpl; [auto|].
  constructor; [|auto]. rewrite mdelete_keys_elem. naive_solver.
Qed.

Lemma mdelete_absent k m : mget k m = None → mdelete k m = m.
Proof.
  induction m as [|[k' v'] m IH]; simpl; [done|].
  case_decide as E; [done|]. intros H. by rewrite IH.
Qed.

Lemma mset_absent k v m : mget k m = None → mset k v m = m ++ [(k, v)].
Proof.
  induction m as [|[k' v'] m IH]; simpl; [done|].
  case_decide as E; [done|]. intros H. by rewrite IH.
Qed.

Lemma mget_permutation k v m : NoDup m.*1 → mget k m = Some v → m ≡ₚ (k, v) :: mdelete k m.
Proof.
  induction m as [|[k' w] m IH]; simpl; [done|]. intros [Hni Hnd]%NoDup_cons.
  case_decide as Hk; [intros [= ->]; subst|intros Hg].
  - by rewrite mdelete_absent by (by apply mget_None_keys).
  - rewrite (IH Hnd Hg) at 1. apply perm_swap.
Qed.

Lemma elem_mdelete p k m : p ∈ mdelete k m ↔ p ∈ m ∧ p.1 ≠ k.
Proof.
  induction m as [|[k' v'] m IH]; simpl; [set_solver|].
  case_decide as E; [subst; rewrite IH; destruct p; set_solver|].
  rewrite !elem_of_cons, IH. destruct p; naive_solver.
Qed.

Lemma elem_mset p k v m : p ∈ mset k v m → p = (k, v) ∨ p ∈ m.
Proof.
  induction m as [|[k' v'] m IH]; simpl; [set_solver|].
  case_decide as E; set_solver.
Qed.

Lemma sumZ_mdelete (f : K * V → Z) k v m :
  NoDup m.*1 → mget k m = Some v → sumZ f (mdelete k m) = sumZ f m - f (k, v).
Proof.
  induction m as [|[k' v'] m IH]; simpl; [done|]. intros Hnd Hg.
  apply NoDup_cons in Hnd as [Hni Hnd]. case_decide as E; simpl.
  - subst. simplify_eq. rewrite mdelete_absent by (by apply mget_None_keys). lia.
  - rewrite IH by done. lia.
Qed.

Lemma sumZ_mset_absent (f : K * V → Z) k v m :
  mget k m = None → sumZ f (mset k v m) = sumZ f m + f (k, v).
Proof. intros H. rewrite mset_absent by done. rewrite sumZ_app. simpl. lia. Qed.

Lemma sumZ_mset_present (f : K * V → Z) k v v' m :
  mget k m = Some v' → sumZ f (mset k v m) = sumZ f m - f (k, v') + f (k, v).
Proof.
  induction m as [|[k' w] m IH]; simpl; [done|]. intros Hg.
  case_decide as E; simpl; [subst; simplify_eq; lia|]. rewrite IH by done. lia.
Qed.
End JMap.

#[export] Hint Resolve NoDup_mset NoDup_mdelete : jsinv.
