(* ===== verification/Transfers.v ===== *)
(** The lease table of one guest frame, [src/runtime/luajit/transfers.mjs].

    A frame carries one payload and descriptors that cut it into leases.
    Effects borrow a lease's view of the payload, write through it when it is
    writable, and release it; the response returns the writable views.  All the
    views alias the one payload buffer, so the table keeps the buffer and each
    lease its extent in it. *)

From S2P Require Import Prelude.

(** ** Data *)

(** A descriptor as it arrives from the guest: nothing about it is checked yet. *)
Record descriptor := Descriptor {
  d_id : jsval;
  d_offset : jsval;
  d_bytes : jsval;
  d_writable : jsval
}.

(** An entry of [leases]; its view is the range [l_offset, l_offset + l_bytes)
    of the payload. *)
Record lease := Lease {
  l_id : Z;
  l_offset : Z;
  l_bytes : Z;
  l_writable : bool;
  l_released : bool
}.

Record transfers := Transfers {
  t_buffer : list byte;
  t_leases : jmap Z lease
}.

(** What the response says of a lease: its id, and the range of the returned
    payload that holds its bytes when it was writable. *)
Record returned := Returned {
  r_id : Z;
  r_range : option (Z * Z)
}.

(** ** Operations *)

Definition MAX_LEASES : Z := 256.
Definition MAX_PAYLOAD : Z := 2 * 1024 * 1024.

(** The descriptor checks of the loop, in the code's order of evaluation. *)
Definition checked_descriptor (item : descriptor) (leases : jmap Z lease)
    (end_ total : Z) : option lease :=
  match to_safe (d_id item), to_safe (d_offset item), to_safe (d_bytes item),
        d_writable item with
  | Some id, Some offset, Some bytes, VBool writable =>
      if (id <=? 0) || mhas id leases || negb (offset =? end_) || (bytes <? 0)
         || (total - end_ <? bytes)
      then None
      else Some (Lease id end_ bytes writable false)
  | _, _, _, _ => None
  end.

Fixpoint add_leases (items : list descriptor) (leases : jmap Z lease)
    (end_ total : Z) : res (jmap Z lease * Z) :=
  match items with
  | [] => Ok (leases, end_)
  | item :: items' =>
      match checked_descriptor item leases end_ total with
      | None => Throw "Invalid guest transfer descriptor"
      | Some l => add_leases items' (mset (l_id l) l leases) (end_ + l_bytes l) total
      end
  end.

(** [descriptors] is [None] when the guest sent something that is no array;
    an absent list or payload is the empty one. *)
Definition createTransfers (descriptors : option (list descriptor))
    (payload : list byte) : res transfers :=
  match descriptors with
  | None => Throw "Invalid guest transfer batch"
  | Some items =>
      if (MAX_LEASES <? zlen items) || (MAX_PAYLOAD <? zlen payload)
      then Throw "Invalid guest transfer batch"
      else
        match add_leases items [] 0 (zlen payload) with
        | Throw e => Throw e
        | Ok (leases, end_) =>
            if end_ =? zlen payload then Ok (Transfers payload leases)
            else Throw "Unclaimed guest transfer bytes"
        end
  end.

(** [leases.get(id)]: the keys are integers, so no other value finds one. *)
Definition get_lease (id : jsval) (t : transfers) : option lease :=
  match id with VNum (NInt z) => mget z (t_leases t) | _ => None end.

(** [expectedBytes !== undefined && entry.bytes !== expectedBytes]. *)
Definition extent_differs (expectedBytes : jsval) (bytes : Z) : bool :=
  match expectedBytes with
  | VUndef => false
  | VNum (NInt n) => negb (bytes =? n)
  | _ => true
  end.

(** [lease(id, expectedBytes, writable)]. *)
Definition lease_of (id : jsval) (expectedBytes : jsval) (writable : bool)
    (t : transfers) : res lease :=
  match get_lease id t with
  | Some entry =>
      if l_released entry || extent_differs expectedBytes (l_bytes entry)
         || (writable && negb (l_writable entry))
      then Throw "Guest transfer lease is stale or has the wrong extent or access"
      else Ok entry
  | None => Throw "Guest transfer lease is stale or has the wrong extent or access"
  end.

Definition set_released (l : lease) : lease :=
  Lease (l_id l) (l_offset l) (l_bytes l) (l_writable l) true.

(** [release(id)]. *)
Definition release_lease (id : jsval) (t : transfers) : transfers :=
  match id, get_lease id t with
  | VNum (NInt z), Some entry =>
      Transfers (t_buffer t) (mset z (set_released entry) (t_leases t))
  | _, _ => t
  end.

(** The bytes of an entry's view, and [entry.view.set(bytes, at)]. *)
Definition view (l : lease) (t : transfers) : list byte :=
  slice (l_offset l) (l_bytes l) (t_buffer t).

Definition view_set (l : lease) (at_ : Z) (bytes : list byte) (t : transfers) : res transfers :=
  if (at_ <? 0) || (l_bytes l <? at_ + zlen bytes)
  then Throw "offset is out of bounds"
  else Ok (Transfers (splice (l_offset l + at_) bytes (t_buffer t)) (t_leases t)).

(** The loop of [response()]: the descriptors it returns, the pieces it pushes
    and the running offset. *)
Fixpoint response_loop (entries : jmap Z lease) (offset : Z) (t : transfers)
    : res (list returned * list (list byte)) :=
  match entries with
  | [] => Ok ([], [])
  | (_, entry) :: entries' =>
      if negb (l_released entry)
      then Throw "Browser operation retained a guest transfer lease"
      else
        let next := if l_writable entry then offset + l_bytes entry else offset in
        match response_loop entries' next t with
        | Throw e => Throw e
        | Ok (items, pieces) =>
            if l_writable entry
            then Ok (Returned (l_id entry) (Some (offset, l_bytes entry)) :: items,
                     view entry t :: pieces)
            else Ok (Returned (l_id entry) None :: items, pieces)
        end
  end.

Definition response (t : transfers) : res (list returned * list byte) :=
  match response_loop (t_leases t) 0 t with
  | Throw e => Throw e
  | Ok (items, pieces) => Ok (items, concat pieces)
  end.

(** ** Well-formed tables *)

(** The extents of the leases, in order, tile [from, to) of the payload. *)
Inductive tiles : jmap Z lease → Z → Z → Prop :=
| tiles_nil at_ : tiles [] at_ at_
| tiles_cons k l ls at_ to :
    l_id l = k → l_offset l = at_ → 0 <= l_bytes l →
    tiles ls (at_ + l_bytes l) to → tiles ((k, l) :: ls) at_ to.

Definition transfers_wf (t : transfers) : Prop :=
  NoDup (t_leases t).*1 ∧ tiles (t_leases t) 0 (zlen (t_buffer t)).

(** What the runtime may do with a table between two frames. *)
Inductive transfers_step : transfers → transfers → Prop :=
| step_release id t : transfers_step t (release_lease id t)
| step_write id n l at_ bytes t t' :
    lease_of id n true t = Ok l → view_set l at_ bytes t = Ok t' → transfers_step t t'.

(** A returned descriptor against the entry it stands for. *)
Definition returned_for (t : transfers) (payload : list byte) (p : Z * lease) (r : returned) : Prop :=
  r_id r = l_id p.2 ∧
  match r_range r with
  | Some (o, n) => l_writable p.2 = true ∧ n = l_bytes p.2 ∧ slice o n payload = view p.2 t
  | None => l_writable p.2 = false
  end.

(** ** Lemmas *)

Lemma tiles_app ls1 ls2 a b c : tiles ls1 a b → tiles ls2 b c → tiles (ls1 ++ ls2) a c.
Proof. induction 1; simpl; [done|]. intros. constructor; auto. Qed.

Lemma tiles_snoc ls a b l :
  tiles ls a b → l_offset l = b → 0 <= l_bytes l →
  tiles (ls ++ [(l_id l, l)]) a (b + l_bytes l).
Proof. intros H Ho Hb. eapply tiles_app; [done|]. repeat constructor; auto. Qed.

Lemma tiles_le ls a b : tiles ls a b → a <= b.
Proof. induction 1; lia. Qed.

Lemma tiles_in ls a b k l :
  tiles ls a b → (k, l) ∈ ls →
  l_id l = k ∧ 0 <= l_bytes l ∧ a <= l_offset l ∧ l_offset l + l_bytes l <= b.
Proof.
  induction 1 as [|k' l' ls at_ to Hid Ho Hb Ht IH]; [set_solver|].
  apply tiles_le in Ht. intros [[= -> ->]|Hin]%elem_of_cons; [lia|].
  specialize (IH Hin). lia.
Qed.

Lemma tiles_disjoint ls a b k1 l1 k2 l2 :
  NoDup ls.*1 → tiles ls a b → (k1, l1) ∈ ls → (k2, l2) ∈ ls → k1 ≠ k2 →
  l_offset l1 + l_bytes l1 <= l_offset l2 ∨ l_offset l2 + l_bytes l2 <= l_offset l1.
Proof.
  intros Hnd Ht. induction Ht as [|k l ls at_ to Hid Ho Hb Ht IH]; [set_solver|].
  simpl in Hnd. apply NoDup_cons in Hnd as [_ Hnd].
  intros [[= -> ->]|H1]%elem_of_cons [[= -> ->]|H2]%elem_of_cons Hne; [done|..|auto];
    eapply tiles_in in Ht; eauto; lia.
Qed.

(** Releasing keeps extents, so it keeps the tiling. *)
Lemma tiles_release ls a b k l :
  tiles ls a b → mget k ls = Some l → tiles (mset k (set_released l) ls) a b.
Proof.
  induction 1 as [|k' l' ls at_ to Hid Ho Hb Ht IH]; simpl; [done|].
  case_decide as E; intros Hg; [|constructor; auto].
  simplify_eq. by constructor.
Qed.

Lemma tiles_views ls a b t :
  tiles ls a b → 0 <= a → b <= zlen (t_buffer t) →
  concat ((λ p, view p.2 t) <$> ls) = slice a (b - a) (t_buffer t).
Proof.
  intros H. induction H as [|k l ls at_ to Hid Ho Hb Ht IH]; intros Ha Hle.
  - unfold slice. by rewrite Z.sub_diag.
  - cbn. rewrite IH by lia. apply tiles_le in Ht. unfold view, slice. rewrite Ho.
    replace (Z.to_nat (at_ + l_bytes l)) with (Z.to_nat at_ + Z.to_nat (l_bytes l))%nat by lia.
    rewrite <- drop_drop.
    replace (Z.to_nat (to - at_))
      with (Z.to_nat (l_bytes l) + Z.to_nat (to - (at_ + l_bytes l)))%nat by lia.
    by rewrite take_take_drop.
Qed.

Lemma checked_descriptor_Some item leases end_ total l :
  checked_descriptor item leases end_ total = Some l →
  mget (l_id l) leases = None ∧ 0 < l_id l ∧ l_offset l = end_ ∧
  0 <= l_bytes l <= total - end_ ∧ l_released l = false.
Proof.
  unfold checked_descriptor. intros H. repeat case_match; simplify_eq/=.
  rewrite !orb_false_iff in *. unfold mhas in *. destruct (mget _ _); naive_solver lia.
Qed.

Lemma add_leases_ok items leases end_ total leases' end' :
  NoDup leases.*1 → tiles leases 0 end_ → 0 <= end_ <= total →
  Forall (λ p, l_released p.2 = false) leases →
  add_leases items leases end_ total = Ok (leases', end') →
  NoDup leases'.*1 ∧ tiles leases' 0 end' ∧ 0 <= end' <= total ∧
  Forall (λ p, l_released p.2 = false) leases' ∧
  length leases' = (length leases + length items)%nat.
Proof.
  revert leases end_. induction items as [|item items IH]; intros leases end_ Hnd Ht He Hr H; simpl in H.
  - simplify_eq. by rewrite Nat.add_0_r.
  - destruct (checked_descriptor item leases end_ total) as [l|] eqn:E; [|done].
    apply checked_descriptor_Some in E as (Hg & Hpos & Ho & Hb & Hrel).
    apply IH in H as (?&?&?&?&Hlen).
    + rewrite mset_absent, length_app in Hlen by done. simpl in *.
      split_and!; try done; lia.
    + by apply NoDup_mset.
    + rewrite mset_absent by done. apply tiles_snoc; [done|done|lia].
    + lia.
    + rewrite mset_absent by done. apply Forall_app. by repeat constructor.
Qed.

Lemma create_wf ds payload t :
  createTransfers ds payload = Ok t →
  transfers_wf t ∧ t_buffer t = payload ∧
  Forall (λ p, l_released p.2 = false) (t_leases t).
Proof.
  unfold createTransfers. intros H. repeat case_match; simplify_eq/=.
  match goal with Ha : add_leases _ _ _ _ = _ |- _ =>
    apply add_leases_ok in Ha as (?&?&?&?&?) end.
  - match goal with He : (_ =? _) = true |- _ => apply Z.eqb_eq in He; subst end. done.
  - constructor.
  - constructor.
  - pose proof (zlen_nonneg payload). lia.
  - constructor.
Qed.

(** An entry is the one of a descriptor: its key and id, and the extent and the access the descriptor asks for. *)
Definition describes (item : descriptor) (p : Z * lease) : Prop :=
  d_id item = VNum (NInt p.1) ∧ l_id p.2 = p.1 ∧ d_offset item = VNum (NInt (l_offset p.2)) ∧
  d_bytes item = VNum (NInt (l_bytes p.2)) ∧ d_writable item = VBool (l_writable p.2).

Lemma checked_descriptor_describes item leases end_ total l :
  checked_descriptor item leases end_ total = Some l → describes item (l_id l, l).
Proof.
  unfold checked_descriptor. intros H. repeat case_match; simplify_eq/=. rewrite !orb_false_iff, negb_false_iff in *.
  repeat match goal with H : to_safe _ = Some _ |- _ => apply to_safe_Some in H as [H _] end.
  destruct_and?. repeat match goal with H : (_ =? _) = true |- _ => apply Z.eqb_eq in H end. by subst.
Qed.

Lemma add_leases_describes items seen leases end_ total leases' end' :
  Forall2 describes seen leases → add_leases items leases end_ total = Ok (leases', end') → Forall2 describes (seen ++ items) leases'.
Proof.
  revert seen leases end_. induction items as [|item items IH]; intros seen leases end_ Hs H; simpl in H.
  - simplify_eq. by rewrite app_nil_r.
  - destruct (checked_descriptor item leases end_ total) as [l|] eqn:E; [|done].
    pose proof (checked_descriptor_Some _ _ _ _ _ E) as (Hg & _). apply checked_descriptor_describes in E.
    rewrite mset_absent in H by done. rewrite (cons_middle item seen items), app_assoc. eapply IH; [|exact H]. apply Forall2_app; [done|].
    by apply Forall2_cons.
Qed.

Lemma create_describes ds payload t :
  createTransfers ds payload = Ok t → ∃ items, ds = Some items ∧ Forall2 describes items (t_leases t).
Proof.
  unfold createTransfers. intros H. destruct ds as [items|]; [|done]. exists items. split; [done|]. repeat case_match; simplify_eq/=.
  by eapply (add_leases_describes items []).
Qed.

Lemma describes_release items k l ls :
  Forall2 describes items ls → mget k ls = Some l → Forall2 describes items (mset k (set_released l) ls).
Proof.
  induction 1 as [|item [k' l'] items ls Hd Hr IH]; simpl; [done|]. case_decide as E; intros Hg; [|constructor; auto].
  simplify_eq. by constructor.
Qed.

Lemma get_lease_elem id t l :
  get_lease id t = Some l → ∃ z, id = VNum (NInt z) ∧ mget z (t_leases t) = Some l.
Proof. destruct id as [| | |[]| |]; try done. simpl. eauto. Qed.

Lemma lease_of_Ok id n w t l :
  lease_of id n w t = Ok l →
  ∃ z, id = VNum (NInt z) ∧ mget z (t_leases t) = Some l ∧ l_released l = false ∧
       (w = true → l_writable l = true) ∧ (∀ m, n = VNum (NInt m) → l_bytes l = m).
Proof.
  unfold lease_of. destruct (get_lease id t) as [entry|] eqn:Hg; [|done].
  apply get_lease_elem in Hg as (z & -> & Hg). case_match eqn:E; [done|].
  intros [= ->]. rewrite !orb_false_iff, andb_false_iff, negb_false_iff in E.
  destruct E as [[E1 E2] E3]. exists z. split_and!; [done..|naive_solver|].
  intros m ->. simpl in E2. lia.
Qed.

Lemma wf_release id t : transfers_wf t → transfers_wf (release_lease id t).
Proof.
  intros [Hnd Ht]. unfold release_lease.
  destruct id as [| | |[]| |]; try done. destruct (get_lease _ t) as [l|] eqn:E; [|done].
  split; simpl; [by apply NoDup_mset|by apply tiles_release].
Qed.

Lemma wf_extent z l t :
  transfers_wf t → mget z (t_leases t) = Some l →
  l_id l = z ∧ 0 <= l_bytes l ∧ 0 <= l_offset l ∧
  l_offset l + l_bytes l <= zlen (t_buffer t).
Proof. intros [Hnd Ht] Hg%mget_elem. by eapply tiles_in. Qed.

Lemma view_set_Ok l at_ bytes t t' :
  view_set l at_ bytes t = Ok t' →
  0 <= at_ ∧ at_ + zlen bytes <= l_bytes l ∧
  t' = Transfers (splice (l_offset l + at_) bytes (t_buffer t)) (t_leases t).
Proof.
  unfold view_set. case_match eqn:E; [done|]. intros [= <-].
  rewrite orb_false_iff in E. naive_solver lia.
Qed.

Lemma wf_view_set z l at_ bytes t t' :
  transfers_wf t → mget z (t_leases t) = Some l → view_set l at_ bytes t = Ok t' →
  transfers_wf t'.
Proof.
  intros Hwf Hg H. destruct (wf_extent _ _ _ Hwf Hg) as (_&?&?&?).
  apply view_set_Ok in H as (?&?&->). destruct Hwf as [Hnd Ht]. split; [done|].
  simpl. by rewrite zlen_splice by lia.
Qed.

Lemma wf_step t t' : transfers_wf t → transfers_step t t' → transfers_wf t'.
Proof.
  intros Hwf Hs. revert Hwf. destruct Hs as [id t1|id n l at_ bytes t1 t2 Hl Hv]; intros Hwf.
  { by apply wf_release. }
  apply lease_of_Ok in Hl as (z & _ & Hg & _). by eapply wf_view_set.
Qed.

(** ** Properties *)

Lemma step_describes items t t' :
  Forall2 describes items (t_leases t) → transfers_step t t' → Forall2 describes items (t_leases t').
Proof.
  intros Hd Hs. revert Hd. destruct Hs as [id t1|id n l at_ bytes t1 t2 _ Hv]; intros Hd.
  - unfold release_lease. destruct id as [| | |[]| |]; try done. destruct (get_lease _ t1) as [l|] eqn:E; [|done].
    simpl. by apply describes_release.
  - by apply view_set_Ok in Hv as (_ & _ & ->).
Qed.

Lemma step_length t t' : transfers_wf t → transfers_step t t' → zlen (t_buffer t') = zlen (t_buffer t).
Proof.
  intros Hwf Hs. revert Hwf. destruct Hs as [id t1|id n l at_ bytes t1 t2 Hl Hv]; intros Hwf.
  - unfold release_lease. by repeat case_match.
  - apply lease_of_Ok in Hl as (z & _ & Hg & _).
    destruct (wf_extent _ _ _ Hwf Hg) as (_&?&?&?).
    apply view_set_Ok in Hv as (?&?&->). simpl. by rewrite zlen_splice by lia.
Qed.

(** C8 A table the runtime reaches from a frame, whatever was released and written: it has one lease for each descriptor, in their
    order, with the id, the extent and the access that descriptor asks for, also where it asks for no bytes; the ids differ; and the
    views of the leases, one after the other, are the whole payload, each as long as its descriptor says. *)
Theorem transfers_partition ds payload t t' :
  createTransfers ds payload = Ok t → rtc transfers_step t t' →
  (∃ items, ds = Some items ∧ Forall2 describes items (t_leases t')) ∧
  NoDup (t_leases t').*1 ∧ zlen (t_buffer t') = zlen payload ∧
  concat ((λ p, view p.2 t') <$> t_leases t') = t_buffer t' ∧
  Forall (λ p, zlen (view p.2 t') = l_bytes p.2) (t_leases t').
Proof.
  intros Hc Hs. pose proof (create_describes _ _ _ Hc) as (items & Hds & Hd). apply create_wf in Hc as (Hwf & Hb & _). subst payload.
  assert (transfers_wf t' ∧ Forall2 describes items (t_leases t') ∧ zlen (t_buffer t') = zlen (t_buffer t)) as ([Hnd Ht] & Hd' & Hlen).
  { clear Hds. induction Hs as [t|t1 t2 t3 Hstep _ IH]; [done|].
    destruct IH as (Hw & Hd2 & ->); [by eapply wf_step|by eapply step_describes|]. split_and!; [done..|]. by apply step_length. }
  split; [by exists items|]. split_and!; [done|done| |].
  - erewrite tiles_views by (done || lia). rewrite Z.sub_0_r. apply slice_whole.
  - apply Forall_forall. intros [k l] Hin. destruct (tiles_in _ _ _ _ _ Ht Hin) as (_ & ? & ? & ?). simpl. unfold view. by rewrite zlen_slice by lia.
Qed.

Lemma transfers_partition_witness :
  let ds := Some [Descriptor (VNum (NInt 7)) (VNum (NInt 0)) (VNum (NInt 1)) (VBool true);
                  Descriptor (VNum (NInt 3)) (VNum (NInt 1)) (VNum (NInt 2)) (VBool false)] in
  ∃ t t', createTransfers ds [x01; x02; x03] = Ok t ∧ rtc transfers_step t t' ∧
          t_buffer t' = [xff; x02; x03] ∧
          concat ((λ p, view p.2 t') <$> t_leases t') = t_buffer t'.
Proof.
  eexists _, _. split; [reflexivity|].
  match goal with |- rtc _ ?t _ ∧ _ =>
    assert (transfers_step t (Transfers [xff; x02; x03] (t_leases t))) as Hs end.
  { by eapply (step_write (VNum (NInt 7)) VUndef _ 0 [xff]). }
  split; [by apply rtc_once|]. split; [done|].
  refine (proj1 (proj2 (proj2 (proj2 (transfers_partition
    (Some [Descriptor (VNum (NInt 7)) (VNum (NInt 0)) (VNum (NInt 1)) (VBool true);
           Descriptor (VNum (NInt 3)) (VNum (NInt 1)) (VNum (NInt 2)) (VBool false)])
    [x01; x02; x03] _ _ eq_refl (rtc_once _ _ Hs)))))).
Defined.

(** A write through a writable lease is read back from that lease, and no
    other lease of the frame sees it: the views alias one buffer and never overlap. *)
Theorem lease_write_isolated id n l at_ bytes z' l' t t' :
  transfers_wf t → lease_of id n true t = Ok l → view_set l at_ bytes t = Ok t' →
  mget z' (t_leases t) = Some l' →
  view l' t' = if decide (l_id l = z') then splice at_ bytes (view l t) else view l' t.
Proof.
  intros Hwf Hl Hv Hg'. apply lease_of_Ok in Hl as (z & -> & Hg & _).
  destruct (wf_extent _ _ _ Hwf Hg) as (Hid&?&?&?).
  destruct (wf_extent _ _ _ Hwf Hg') as (Hid'&?&?&?).
  apply view_set_Ok in Hv as (?&?&->). destruct Hwf as [Hnd Ht]. unfold view; simpl.
  case_decide as E.
  - assert (l' = l) as -> by congruence. by apply slice_splice_inside.
  - assert (z ≠ z') as Hne by congruence.
    destruct (tiles_disjoint _ _ _ _ _ _ _ Hnd Ht (mget_elem _ _ _ Hg) (mget_elem _ _ _ Hg') Hne).
    + by rewrite slice_splice_above by lia.
    + by rewrite slice_splice_below by lia.
Qed.

Lemma lease_write_isolated_witness :
  let t := Transfers [x01; x02; x03; x04]
             [(7, Lease 7 0 2 true false); (3, Lease 3 2 2 true false)] in
  ∃ t', view_set (Lease 7 0 2 true false) 1 [xff] t = Ok t' ∧
        view (Lease 7 0 2 true false) t' = [x01; xff] ∧
        view (Lease 3 2 2 true false) t' = view (Lease 3 2 2 true false) t.
Proof.
  intros t. assert (transfers_wf t) as Hwf.
  { split; [by apply (bool_decide_unpack _)|].
    repeat (constructor; [done|done|done|]). constructor. }
  eexists. split; [reflexivity|]. split; [done|].
  exact (lease_write_isolated (VNum (NInt 7)) (VNum (NInt 2)) _ 1 [xff] 3 _ t _ Hwf eq_refl eq_refl eq_refl).
Defined.

Lemma response_loop_ok_iff ls offset t :
  is_ok (response_loop ls offset t) = true ↔ Forall (λ p, l_released p.2 = true) ls.
Proof.
  revert offset. induction ls as [|[k l] ls IH]; intros offset; cbn; [done|].
  rewrite Forall_cons; simpl. destruct (l_released l); simpl; [|naive_solver].
  rewrite <- (IH (if l_writable l then offset + l_bytes l else offset)).
  destruct (response_loop ls _ t) as [[items pieces]|]; [|naive_solver].
  destruct (l_writable l); naive_solver.
Qed.

Lemma response_loop_spec ls from to t items pieces before :
  tiles ls from to → 0 <= from → to <= zlen (t_buffer t) →
  response_loop ls (zlen before) t = Ok (items, pieces) →
  ∀ after, Forall2 (returned_for t (before ++ concat pieces ++ after)) ls items.
Proof.
  intros Ht. revert before items pieces.
  induction Ht as [|k l ls at_ to Hid Ho Hb Ht IH];
    intros before items pieces Hfrom Hto H after; cbn in H; [simplify_eq; constructor|].
  destruct (l_released l); [|done]. simpl in H.
  assert (zlen (view l t) = l_bytes l) as Hv.
  { apply tiles_le in Ht. apply zlen_slice; lia. }
  destruct (l_writable l) eqn:Hw.
  - destruct (response_loop ls _ t) as [[items' pieces']|] eqn:E; [|done]. simplify_eq/=.
    rewrite <- Hv, <- zlen_app in E. constructor.
    + split; [done|]. simpl. split_and!; [done|done|].
      rewrite <- Hv. rewrite <- app_assoc. apply slice_app_exact.
    + specialize (IH _ _ _ ltac:(lia) Hto E after). by rewrite <- !app_assoc in IH |- *.
  - destruct (response_loop ls _ t) as [[items' pieces']|] eqn:E; [|done]. simplify_eq/=.
    constructor; [done|]. eapply IH; [lia|done|done].
Qed.

(** The response of a frame: it throws exactly while some lease is still
    borrowed; once all are released it returns one descriptor per lease in
    order, and every writable lease's range of the returned payload holds the
    bytes the page left in that lease's view. *)
Theorem response_returns_views t :
  transfers_wf t →
  (is_ok (response t) = true ↔ Forall (λ p, l_released p.2 = true) (t_leases t)) ∧
  (∀ items payload, response t = Ok (items, payload) →
     Forall2 (returned_for t payload) (t_leases t) items).
Proof.
  intros [Hnd Ht]. unfold response. split.
  - rewrite <- (response_loop_ok_iff (t_leases t) 0 t).
    by destruct (response_loop _ _ _) as [[]|].
  - intros items payload H. destruct (response_loop _ _ _) as [[items' pieces]|] eqn:E; [|done].
    simplify_eq. rewrite <- (app_nil_r (concat pieces)).
    by eapply (response_loop_spec _ _ _ t _ _ []) in E.
Qed.

Lemma response_returns_views_witness :
  let t := Transfers [x01; x02; x03]
             [(7, Lease 7 0 2 true true); (3, Lease 3 2 1 false true)] in
  response t = Ok ([Returned 7 (Some (0, 2)); Returned 3 None], [x01; x02]) ∧
  Forall2 (returned_for t [x01; x02]) (t_leases t) [Returned 7 (Some (0, 2)); Returned 3 None].
Proof.
  intros t. assert (transfers_wf t) as Hwf.
  { split; [by apply (bool_decide_unpack _)|].
    repeat (constructor; [done|done|done|]). constructor. }
  split; [reflexivity|]. exact (proj2 (response_returns_views t Hwf) _ _ eq_refl).
Defined.
