(* ===== verification/Wire.v ===== *)
(** The binary records of [os.host], [src/runtime/wasm/host-channel.mjs]: the
    text codec, the [Reader] and [Writer] classes and the tagged values.

    Text is held as its UTF-8 bytes, so [TextEncoder.encode] of well-formed text
    is the identity on bytes and the fatal [TextDecoder.decode] is a validity
    check; a number that crosses is held as its 64-bit pattern. *)

From S2P Require Import Prelude.

(** ** Text *)

Definition in_range (lo hi : Z) (b : byte) : bool := (lo <=? Z_of_byte b) && (Z_of_byte b <=? hi).

(** Well-formed UTF-8, by the table of the Encoding standard's decoder. *)
Fixpoint valid_utf8 (bs : list byte) : bool :=
  match bs with
  | [] => true
  | b :: r =>
      if in_range 0 0x7F b then valid_utf8 r
      else if in_range 0xC2 0xDF b then
        match r with
        | c1 :: r' => in_range 0x80 0xBF c1 && valid_utf8 r'
        | _ => false
        end
      else if in_range 0xE0 0xEF b then
        match r with
        | c1 :: c2 :: r' =>
            in_range (if Z_of_byte b =? 0xE0 then 0xA0 else 0x80)
                     (if Z_of_byte b =? 0xED then 0x9F else 0xBF) c1
            && in_range 0x80 0xBF c2 && valid_utf8 r'
        | _ => false
        end
      else if in_range 0xF0 0xF4 b then
        match r with
        | c1 :: c2 :: c3 :: r' =>
            in_range (if Z_of_byte b =? 0xF0 then 0x90 else 0x80)
                     (if Z_of_byte b =? 0xF4 then 0x8F else 0xBF) c1
            && in_range 0x80 0xBF c2 && in_range 0x80 0xBF c3 && valid_utf8 r'
        | _ => false
        end
      else false
  end.

(** Replaces each lone surrogate by U+FFFD, as [encode] does. *)
Fixpoint replace_surrogates (bs : list byte) : list byte :=
  match bs with
  | a :: ((b :: c :: r) as rest) =>
      if (Z_of_byte a =? 0xED) && in_range 0xA0 0xBF b
      then xef :: xbf :: xbd :: replace_surrogates r
      else a :: replace_surrogates rest
  | _ => bs
  end.

Definition text_bytes (s : string) : list byte := String.list_byte_of_string s.
Definition bytes_text (bs : list byte) : string := String.string_of_list_byte bs.

Lemma text_bytes_text bs : text_bytes (bytes_text bs) = bs.
Proof. apply String.list_byte_of_string_of_list_byte. Qed.

Lemma bytes_text_bytes s : bytes_text (text_bytes s) = s.
Proof. apply String.string_of_list_byte_of_string. Qed.

(** [value.isWellFormed()]. *)
Definition isWellFormed (s : string) : bool := valid_utf8 (text_bytes s).

(** [new TextEncoder().encode(s)]. *)
Definition encode (s : string) : list byte := replace_surrogates (text_bytes s).

(** [new TextDecoder("utf-8", {fatal: true}).decode(bytes)]: a leading byte
    order mark is dropped. *)
Definition strip_bom (bs : list byte) : list byte :=
  match bs with xef :: xbb :: xbf :: r => r | _ => bs end.

Definition decode (bs : list byte) : res string :=
  if valid_utf8 bs then Ok (bytes_text (strip_bom bs))
  else Throw "The encoded data was not valid.".

(** ** Reader *)

Record reader := Reader { rd_buffer : list byte; rd_at : Z }.

Definition remaining (r : reader) : Z := zlen (rd_buffer r) - rd_at r.

Definition take_bytes (count : Z) : js reader Z := λ r,
  let at_ := rd_at r in
  if zlen (rd_buffer r) <? at_ + count
  then (Throw "a host frame's records ended inside a record", r)
  else (Ok at_, Reader (rd_buffer r) (at_ + count)).

(** [view.getUintN(take(n), true)] and [view.getFloat64]. *)
Definition read_le (n : Z) : js reader Z :=
  at_ ← take_bytes n;
  gets (λ r, le_combine (slice at_ n (rd_buffer r))).

Definition rd_u8 : js reader Z := read_le 1.
Definition rd_u16 : js reader Z := read_le 2.
Definition rd_u32 : js reader Z := read_le 4.
Definition rd_f64 : js reader Z := read_le 8.

Definition rd_bytes (count : Z) : js reader (list byte) :=
  at_ ← take_bytes count;
  gets (λ r, slice at_ count (rd_buffer r)).

Definition rd_text (count : Z) : js reader string :=
  at_ ← take_bytes count;
  bs ← gets (λ r, slice at_ count (rd_buffer r));
  lift (decode bs).

(** ** Writer *)

Record writer := Writer { wr_buffer : list byte; wr_length : Z }.

Definition new_Writer (capacity : Z) : writer := Writer (replicate (Z.to_nat capacity) x00) 0.

Definition reserve (count : Z) (w : writer) : Z * writer :=
  let needed := wr_length w + count in
  let buffer :=
    if zlen (wr_buffer w) <? needed then
      let grown := replicate (Z.to_nat (Z.max needed (zlen (wr_buffer w) * 2))) x00 in
      splice 0 (slice 0 (wr_length w) (wr_buffer w)) grown
    else wr_buffer w in
  (wr_length w, Writer buffer needed).

(** Reserves [bs] bytes and stores them there. *)
Definition store (bs : list byte) (w : writer) : writer :=
  let '(at_, w') := reserve (zlen bs) w in
  Writer (splice at_ bs (wr_buffer w')) (wr_length w').

Definition wr_u8 (value : Z) (w : writer) : writer := store (le_split 1 value) w.
Definition wr_u16 (value : Z) (w : writer) : writer := store (le_split 2 value) w.
Definition wr_u32 (value : Z) (w : writer) : writer := store (le_split 4 value) w.
Definition wr_f64 (value : Z) (w : writer) : writer := store (le_split 8 value) w.
Definition wr_raw (bytes : list byte) (w : writer) : writer := store bytes w.
Definition wr_sized (bytes : list byte) (w : writer) : writer :=
  wr_raw bytes (wr_u32 (zlen bytes) w).
Definition result (w : writer) : list byte := slice 0 (wr_length w) (wr_buffer w).

(** ** Tagged values *)

(** The value model, as both directions tag it ([TAG]); a [TFetch] announces
    bytes that stay with the page. *)
Inductive tagged :=
| TNil
| TFalse
| TTrue
| TNumber (bits : Z)
| TString (bytes : list byte)
| TBytes (bytes : list byte)
| TFetch (size : Z).

Definition tag_of (v : tagged) : Z :=
  match v with
  | TNil => 0 | TFalse => 1 | TTrue => 2 | TNumber _ => 3
  | TString _ => 4 | TBytes _ => 5 | TFetch _ => 7
  end.

Definition writeValue (value : tagged) (w : writer) : writer :=
  let w := wr_u8 (tag_of value) w in
  match value with
  | TNumber bits => wr_f64 bits w
  | TString bytes | TBytes bytes => wr_sized bytes w
  | TFetch size => wr_u32 size w
  | _ => w
  end.

Fixpoint writeValues (values : list tagged) (w : writer) : writer :=
  match values with
  | [] => w
  | v :: values' => writeValues values' (writeValue v w)
  end.

(** ** Abstract encodings *)

(** What a value's record is, with no buffer in sight. *)
Definition enc_sized (bytes : list byte) : list byte := le_split 4 (zlen bytes) ++ bytes.

Definition enc_value (v : tagged) : list byte :=
  le_split 1 (tag_of v) ++
  match v with
  | TNumber bits => le_split 8 bits
  | TString bytes | TBytes bytes => enc_sized bytes
  | TFetch size => le_split 4 size
  | _ => []
  end.

Definition enc_values (vs : list tagged) : list byte := concat (enc_value <$> vs).

(** A writer whose contents are [bs]. *)
Definition writes (w : writer) (bs : list byte) : Prop :=
  0 <= wr_length w <= zlen (wr_buffer w) ∧ result w = bs.

Definition reader_wf (r : reader) : Prop := 0 <= rd_at r <= zlen (rd_buffer r).

(** ** Writer lemmas *)

Create HintDb wire.

Lemma writes_new capacity : 0 <= capacity → writes (new_Writer capacity) [].
Proof.
  intros. split; simpl; [|done]. unfold zlen. rewrite length_replicate. lia.
Qed.

Lemma writes_store w bs c : writes w c → writes (store bs w) (c ++ bs).
Proof.
  intros [Hl Hr]. unfold store, reserve. pose proof (zlen_nonneg bs) as Hbs. simpl.
  set (buffer := if zlen (wr_buffer w) <? wr_length w + zlen bs then _ else _).
  assert (wr_length w + zlen bs <= zlen buffer ∧ slice 0 (wr_length w) buffer = c) as [Hcap Hpre].
  { unfold result in Hr. unfold buffer. case_match eqn:E; [|split; [lia|done]].
    set (g := replicate _ x00).
    assert (zlen g = Z.max (wr_length w + zlen bs) (zlen (wr_buffer w) * 2)) as Hg.
    { unfold g, zlen at 1. rewrite length_replicate. lia. }
    assert (zlen c = wr_length w) as Hc by (rewrite <- Hr; apply zlen_slice; lia).
    rewrite Hr. split; [rewrite zlen_splice by lia; lia|].
    rewrite <- Hc. apply slice_splice_same; lia. }
  clearbody buffer. split; simpl; [rewrite zlen_splice by lia; lia|].
  unfold result; simpl. rewrite <- Hpre.
  replace (slice 0 (wr_length w + zlen bs) (splice (wr_length w) bs buffer))
    with (slice 0 (wr_length w) (splice (wr_length w) bs buffer) ++
          slice (wr_length w) (zlen bs) (splice (wr_length w) bs buffer)).
  - rewrite slice_splice_below, slice_splice_same by lia. done.
  - unfold slice, zlen in *. simpl.
    replace (Z.to_nat (wr_length w + Z.of_nat (length bs)))
      with (Z.to_nat (wr_length w) + Z.to_nat (Z.of_nat (length bs)))%nat by lia.
    by rewrite take_take_drop.
Qed.

Lemma writes_u8 w v c : writes w c → writes (wr_u8 v w) (c ++ le_split 1 v).
Proof. apply writes_store. Qed.
Lemma writes_u16 w v c : writes w c → writes (wr_u16 v w) (c ++ le_split 2 v).
Proof. apply writes_store. Qed.
Lemma writes_u32 w v c : writes w c → writes (wr_u32 v w) (c ++ le_split 4 v).
Proof. apply writes_store. Qed.
Lemma writes_f64 w v c : writes w c → writes (wr_f64 v w) (c ++ le_split 8 v).
Proof. apply writes_store. Qed.
Lemma writes_raw w bs c : writes w c → writes (wr_raw bs w) (c ++ bs).
Proof. apply writes_store. Qed.

Lemma writes_sized w bs c : writes w c → writes (wr_sized bs w) (c ++ enc_sized bs).
Proof. intros H. unfold enc_sized. rewrite app_assoc. by apply writes_raw, writes_u32. Qed.

#[export] Hint Resolve writes_u8 writes_u16 writes_u32 writes_f64 writes_raw writes_sized : wire.

Lemma writes_value w v c : writes w c → writes (writeValue v w) (c ++ enc_value v).
Proof.
  intros H. unfold writeValue, enc_value. rewrite app_assoc.
  destruct v; rewrite ?app_nil_r; auto with wire.
Qed.

Lemma writes_values w vs c : writes w c → writes (writeValues vs w) (c ++ enc_values vs).
Proof.
  revert w c. induction vs as [|v vs IH]; intros w c H; simpl.
  - by rewrite app_nil_r.
  - unfold enc_values. rewrite fmap_cons, concat_cons, app_assoc. by apply IH, writes_value.
Qed.

#[export] Hint Resolve writes_value writes_values writes_new : wire.

Lemma writes_result w c : writes w c → result w = c.
Proof. by intros [_ ?]. Qed.

(** ** Reader lemmas *)

(** [r] stands before [bs], with [rest] after it. *)
Definition reads (r : reader) (bs rest : list byte) : Prop :=
  reader_wf r ∧ drop (Z.to_nat (rd_at r)) (rd_buffer r) = bs ++ rest.

Definition advance (n : Z) (r : reader) : reader := Reader (rd_buffer r) (rd_at r + n).

Lemma reads_start bs : reads (Reader bs 0) bs [].
Proof. split; [split; simpl; [lia|apply zlen_nonneg]|]. simpl. by rewrite app_nil_r. Qed.

Lemma reads_app r bs1 bs2 rest :
  reads r (bs1 ++ bs2) rest → reads r bs1 (bs2 ++ rest) ∧ reads (advance (zlen bs1) r) bs2 rest.
Proof.
  intros [[Hlo Hhi] H]. rewrite <- app_assoc in H. split; [done|].
  assert (length (drop (Z.to_nat (rd_at r)) (rd_buffer r)) = length (bs1 ++ bs2 ++ rest)) as Hlen
    by by rewrite H.
  rewrite length_drop, !length_app in Hlen. unfold advance, reads, reader_wf; simpl. unfold zlen in *.
  split; [split; lia|].
  replace (Z.to_nat (rd_at r + Z.of_nat (length bs1)))
    with (Z.to_nat (rd_at r) + length bs1)%nat by lia.
  by rewrite <- drop_drop, H, drop_app_length.
Qed.

Lemma take_bytes_reads r bs rest :
  reads r bs rest → take_bytes (zlen bs) r = (Ok (rd_at r), advance (zlen bs) r).
Proof.
  intros [[Hlo Hhi] H]. unfold take_bytes.
  assert (length (drop (Z.to_nat (rd_at r)) (rd_buffer r)) = length (bs ++ rest)) as Hlen
    by by rewrite H.
  rewrite length_drop, length_app in Hlen. unfold zlen in *.
  rewrite (proj2 (Z.ltb_ge _ _)) by lia. done.
Qed.

Lemma slice_reads r bs rest : reads r bs rest → slice (rd_at r) (zlen bs) (rd_buffer r) = bs.
Proof.
  intros [_ H]. unfold slice, zlen. rewrite H, Nat2Z.id. apply take_app_length.
Qed.

Lemma rd_bytes_reads r bs rest :
  reads r bs rest → rd_bytes (zlen bs) r = (Ok bs, advance (zlen bs) r).
Proof.
  intros H. unfold rd_bytes, mbind, js_bind. erewrite take_bytes_reads by done.
  unfold gets; simpl. by erewrite slice_reads by done.
Qed.

Lemma read_le_reads r n z rest :
  0 <= z < 256 ^ Z.of_nat n → reads r (le_split n z) rest →
  read_le (Z.of_nat n) r = (Ok z, advance (Z.of_nat n) r).
Proof.
  intros Hz H. unfold read_le, mbind, js_bind.
  assert (zlen (le_split n z) = Z.of_nat n) as Hn by (unfold zlen; by rewrite length_le_split).
  rewrite <- Hn. erewrite take_bytes_reads by done. unfold gets; simpl.
  erewrite slice_reads by done. by rewrite le_combine_split, Z.mod_small.
Qed.

Lemma rd_text_reads r bs rest :
  reads r bs rest → rd_text (zlen bs) r = (decode bs, advance (zlen bs) r).
Proof.
  intros H. unfold rd_text, mbind, js_bind. erewrite take_bytes_reads by done.
  unfold gets; simpl. by erewrite slice_reads by done.
Qed.

Lemma take_bytes_wf n r : 0 <= n → reader_wf r → reader_wf (take_bytes n r).2.
Proof.
  unfold reader_wf, take_bytes. intros Hn Hr.
  destruct (Z.ltb_spec (zlen (rd_buffer r)) (rd_at r + n)); simpl; [done|lia].
Qed.

(** ** Properties *)

(** The writer is an appender: whatever its capacity and however often it
    grows its buffer, writing values after earlier contents leaves those
    contents followed by the values' records. *)
Theorem writer_appends capacity prefix vs :
  0 <= capacity →
  result (writeValues vs (wr_raw prefix (new_Writer capacity))) = prefix ++ enc_values vs.
Proof.
  intros H. apply writes_result, writes_values. rewrite <- (app_nil_l prefix) at 2.
  by apply writes_raw, writes_new.
Qed.

Lemma writer_appends_witness :
  result (writeValues [TTrue; TString [x61]] (wr_raw [x09] (new_Writer 1)))
    = [x09; x02; x04; x01; x00; x00; x00; x61] ∧
  result (writeValues [TTrue; TString [x61]] (wr_raw [x09] (new_Writer 1)))
    = [x09] ++ enc_values [TTrue; TString [x61]].
Proof. split; [reflexivity|]. apply (writer_appends 1 [x09] [TTrue; TString [x61]]). lia. Defined.
