(* ===== verification/HostValues.v ===== *)
(** Kinds, handlers and values of the host channel: the checks of
    [src/runtime/wasm/host-channel.mjs] on what crosses between the page and
    the application. *)

From S2P Require Import Prelude Wire.

(** ** Limits *)

Definition MAX_STRING_BYTES : Z := 64 * 1024.
Definition MAX_OUTBOUND_BYTES : Z := 64 * 1024 * 1024.
Definition MAX_INBOUND_BYTES : Z := 8 * 1024 * 1024.
Definition INLINE_BYTES : Z := 16 * 1024.
Definition MAX_VALUES : Z := 255.
Definition DEFAULT_REASSEMBLY_BYTES : Z := 128 * 1024 * 1024.
Definition MAX_INBOUND_MESSAGES : Z := 4096.

(** ** Kinds *)

(** The class [\w-] of the [KIND] expression, on UTF-8 bytes: no byte of a
    non-ASCII character is in it. *)
Definition word_or_dash (b : byte) : bool :=
  in_range 0x30 0x39 b || in_range 0x41 0x5A b || in_range 0x61 0x7A b
  || (Z_of_byte b =? 0x5F) || (Z_of_byte b =? 0x2D).

Definition is_dot (b : byte) : bool := Z_of_byte b =? 0x2E.

(** The text before the first dot, and what follows that dot. *)
Fixpoint split_dot (bs : list byte) : list byte * option (list byte) :=
  match bs with
  | [] => ([], None)
  | b :: r =>
      if is_dot b then ([], Some r)
      else let '(h, t) := split_dot r in (b :: h, t)
  end.

(** [KIND.test(name)] for [/^[\w-]+\.[\w.-]*[\w-]$/]: the first group has no
    dot, so the dot after it is the first one. *)
Definition KIND_test (bs : list byte) : bool :=
  match split_dot bs with
  | (h, Some t) =>
      negb (bool_decide (h = [])) && forallb word_or_dash h
      && forallb (λ b, word_or_dash b || is_dot b) t
      && match last t with Some b => word_or_dash b | None => false end
  | (_, None) => false
  end.

(** [name.includes("..")]. *)
Fixpoint includes_dotdot (bs : list byte) : bool :=
  match bs with
  | a :: ((b :: _) as r) => (is_dot a && is_dot b) || includes_dotdot r
  | _ => false
  end.

Definition reserved_prefix : list byte := text_bytes "nupp.".

Section Kinds.
(** [JSON.stringify], which only shapes an error's text. *)
Variable JSON_stringify : string → string.

(** [checkedKind(name)] of a string. The length is counted in bytes here and in
    UTF-16 units there; they differ only on names [KIND] refuses anyway, with the
    same error. *)
Definition checkedKind (name : string) : res string :=
  let bs := text_bytes name in
  if (128 <? zlen bs) || negb (KIND_test bs) || includes_dotdot bs
  then Throw ("host kind " +:+ JSON_stringify name +:+ " must be dot-separated names")
  else if bool_decide (reserved_prefix `prefix_of` bs)
  then Throw ("host kind " +:+ name +:+ " is reserved for the runtime")
  else Ok name.

(** ** Handlers *)

(** What the page registers under a kind: a function, an object whose [call]
    may be a function and whose [release] may be absent, a function or
    something else, or anything else. *)
Inductive pagehandler :=
| HFunction
| HObject (call_is_function : bool) (release : option bool)
| HOther.

(** The handler table keeps, for a kind, whether its handler has a [release]. *)
Fixpoint normalize_entries (entries : list (string * pagehandler)) (normalized : jmap string bool)
    : res (jmap string bool) :=
  match entries with
  | [] => Ok normalized
  | (name, handler) :: entries' =>
      match checkedKind name with
      | Throw e => Throw e
      | Ok _ =>
          match handler with
          | HFunction => normalize_entries entries' (mset name false normalized)
          | HObject true None => normalize_entries entries' (mset name false normalized)
          | HObject true (Some true) => normalize_entries entries' (mset name true normalized)
          | _ => Throw ("host handler " +:+ name +:+ " must be a function or an object with call")
          end
      end
  end.

(** [normalizedHandlers(handlers)]; [None] is an option that is no plain object. *)
Definition normalizedHandlers (handlers : option (list (string * pagehandler)))
    : res (jmap string bool) :=
  match handlers with
  | None => Throw "host handlers must be an object keyed by kind"
  | Some entries => normalize_entries entries []
  end.
End Kinds.

(** ** Page values *)

(** A value of the page: byte views and buffers are their bytes, a number its
    64-bit pattern, anything else its [typeof]. *)
Inductive pagevalue :=
| PNull
| PUndef
| PBool (b : bool)
| PNumber (bits : Z)
| PString (s : string)
| PBytes (bytes : list byte)
| POther (typeof : string).

(** What a handler answers. *)
Inductive handler_answer :=
| AUndef
| AArray (results : list pagevalue)
| ASingle (value : pagevalue).

#[export] Instance pagevalue_eq_dec : EqDecision pagevalue.
Proof. solve_decision. Defined.
#[export] Instance handler_answer_eq_dec : EqDecision handler_answer.
Proof. solve_decision. Defined.

(** [Number.isFinite] on the bit pattern: the exponent field is not all ones. *)
Definition bits_finite (bits : Z) : bool := negb ((bits / 2 ^ 52) mod 2048 =? 2047).

Definition checkedText (value describe : string) : res (list byte) :=
  if negb (isWellFormed value) then Throw (describe +:+ " is not valid text")
  else
    let bytes := encode value in
    if MAX_STRING_BYTES <? zlen bytes
    then Throw (describe +:+ " is a string longer than 64 KiB; answer bytes")
    else Ok bytes.

(** One result of a handler, against the value model. *)
Definition checked_result (name : string) (index : Z) (value : pagevalue) : res tagged :=
  let describe := "host handler " +:+ name +:+ " result " +:+ pretty (index + 1) in
  match value with
  | PNull | PUndef => Ok TNil
  | PBytes view =>
      if MAX_INBOUND_BYTES <? zlen view
      then Throw (describe +:+ " is more than 8 MiB of bytes") else Ok (TBytes view)
  | PBool b => Ok (if b then TTrue else TFalse)
  | PNumber bits =>
      if bits_finite bits then Ok (TNumber bits)
      else Throw (describe +:+ " is not a finite number")
  | PString s =>
      match checkedText s describe with Ok bytes => Ok (TString bytes) | Throw e => Throw e end
  | POther typeof => Throw (describe +:+ " is a " +:+ typeof +:+ ", which cannot cross")
  end.

Fixpoint map_indexed {A B} (f : Z → A → res B) (index : Z) (l : list A) : res (list B) :=
  match l with
  | [] => Ok []
  | x :: l' =>
      match f index x with
      | Throw e => Throw e
      | Ok y =>
          match map_indexed f (index + 1) l' with
          | Throw e => Throw e
          | Ok ys => Ok (y :: ys)
          end
      end
  end.

Definition answer_list (answer : handler_answer) : list pagevalue :=
  match answer with AUndef => [] | AArray l => l | ASingle v => [v] end.

Definition checkedResults (name : string) (answer : handler_answer) : res (list tagged) :=
  let results := answer_list answer in
  if MAX_VALUES <? zlen results
  then Throw ("host handler " +:+ name +:+ " answered more than 255 values")
  else map_indexed (checked_result name) 0 results.

(** A value of an inbound message. *)
Definition inboundValue (kind : string) (position : Z) (value : pagevalue) : res tagged :=
  let describe := "host push " +:+ kind +:+ " value " +:+ pretty position in
  match value with
  | PNull | PUndef => Ok TNil
  | PBool b => Ok (if b then TTrue else TFalse)
  | PNumber bits =>
      if bits_finite bits then Ok (TNumber bits)
      else Throw (describe +:+ " is not a finite number")
  | PString s =>
      match checkedText s describe with Ok bytes => Ok (TString bytes) | Throw e => Throw e end
  | PBytes _ => Throw (describe +:+ " is a object; an inbound message carries scalars and strings")
  | POther typeof =>
      Throw (describe +:+ " is a " +:+ typeof +:+ "; an inbound message carries scalars and strings")
  end.

(** ** Specification of kinds *)

(** The dot-separated names of a kind. *)
Fixpoint dot_segments (bs : list byte) : list (list byte) :=
  match bs with
  | [] => [[]]
  | b :: r =>
      match dot_segments r with
      | [] => [[b]]
      | s :: ss => if is_dot b then [] :: s :: ss else (b :: s) :: ss
      end
  end.

Definition name_segment (s : list byte) : bool := negb (bool_decide (s = [])) && forallb word_or_dash s.

(** A kind: at least two names, each non-empty and made of word characters or dashes. *)
Definition dot_separated (bs : list byte) : bool :=
  (2 <=? zlen (dot_segments bs)) && forallb name_segment (dot_segments bs).

(** ** Lemmas *)

Lemma dot_segments_cons bs : ∃ s ss, dot_segments bs = s :: ss.
Proof.
  destruct bs as [|b r]; simpl; [by eexists _, _|].
  destruct (dot_segments r); [by eexists _, _|]. destruct (is_dot b); by eexists _, _.
Qed.

Lemma word_not_dot b : word_or_dash b = true → is_dot b = false.
Proof.
  unfold word_or_dash, is_dot, in_range. intros H.
  rewrite !orb_true_iff, !andb_true_iff in H. lia.
Qed.

Lemma split_dot_segments bs :
  dot_segments bs =
  match split_dot bs with
  | (h, Some t) => h :: dot_segments t
  | (h, None) => [h]
  end.
Proof.
  induction bs as [|b r IH]; simpl; [done|].
  destruct (dot_segments_cons r) as (s & ss & Hs). rewrite Hs in *.
  destruct (is_dot b) eqn:Hb; [by rewrite Hs|].
  destruct (split_dot r) as [h [t|]]; simplify_eq/=; [done|]. by simplify_eq.
Qed.

(** The names after a dot ([fresh]) or inside a name, scanned left to right. *)
Fixpoint names_ok (fresh : bool) (t : list byte) : bool :=
  match t with
  | [] => negb fresh
  | b :: r => if is_dot b then negb fresh && names_ok true r else word_or_dash b && names_ok false r
  end.

Definition starts_dot (t : list byte) : bool :=
  match t with b :: _ => is_dot b | [] => false end.

Lemma names_ok_segments t :
  ∃ s ss, dot_segments t = s :: ss ∧
    names_ok true t = forallb name_segment (s :: ss) ∧
    names_ok false t = forallb word_or_dash s && forallb name_segment ss.
Proof.
  induction t as [|b r (s & ss & Hs & Ht & Hf)]; simpl; [by eexists _, _|].
  rewrite Hs. destruct (is_dot b) eqn:Hb.
  - exists [], (s :: ss). by rewrite Ht.
  - exists (b :: s), ss. rewrite Hf. unfold name_segment; simpl.
    by rewrite andb_assoc.
Qed.

(** The regular expression's tail and the ban on two dots are the scan. *)
Lemma names_ok_regexp fresh a t :
  forallb (λ b, word_or_dash b || is_dot b) (a :: t)
    && match last (a :: t) with Some b => word_or_dash b | None => false end
    && negb (includes_dotdot (a :: t)) && negb (fresh && is_dot a) = names_ok fresh (a :: t).
Proof.
  revert fresh a. induction t as [|b t IH]; intros fresh a.
  - cbn. pose proof (word_not_dot a).
    destruct (word_or_dash a), (is_dot a), fresh; naive_solver.
  - pose proof (word_not_dot a). change (last (a :: b :: t)) with (last (b :: t)).
    change (includes_dotdot (a :: b :: t)) with ((is_dot a && is_dot b) || includes_dotdot (b :: t)).
    change (names_ok fresh (a :: b :: t)) with
      (if is_dot a then negb fresh && names_ok true (b :: t)
       else word_or_dash a && names_ok false (b :: t)).
    rewrite <- !IH. cbn [forallb].
    generalize (forallb (λ b0, word_or_dash b0 || is_dot b0) t). intros p.
    generalize (match last (b :: t) with Some b0 => word_or_dash b0 | None => false end). intros q.
    destruct (is_dot a), (word_or_dash a), (is_dot b), (word_or_dash b), fresh,
      (includes_dotdot (b :: t)), p, q; naive_solver.
Qed.

Lemma dotdot_after_name h t :
  forallb word_or_dash h = true →
  includes_dotdot (h ++ x2e :: t) = starts_dot t || includes_dotdot t.
Proof.
  induction h as [|a h IH]; intros Hh; simpl.
  - by destruct t.
  - simpl in Hh. apply andb_true_iff in Hh as [Ha Hh]. rewrite <- IH by done.
    apply word_not_dot in Ha. destruct (h ++ x2e :: t) eqn:E; [by destruct h|].
    by rewrite Ha.
Qed.

Lemma split_dot_app bs h t : split_dot bs = (h, Some t) → bs = h ++ x2e :: t.
Proof.
  revert h. induction bs as [|b r IH]; intros h; simpl; [done|].
  destruct (is_dot b) eqn:Hb.
  - intros [= <- <-]. simpl. f_equal. unfold is_dot in Hb. apply Z.eqb_eq in Hb.
    rewrite <- (byte_of_Z_of_byte b), Hb. done.
  - destruct (split_dot r) as [h' [t'|]] eqn:E; [|done]. intros [= <- <-].
    simpl. by rewrite (IH h').
Qed.

Lemma kind_test_dot_separated bs :
  KIND_test bs && negb (includes_dotdot bs) = dot_separated bs.
Proof.
  unfold KIND_test, dot_separated. rewrite split_dot_segments.
  destruct (split_dot bs) as [h [t|]] eqn:E; [|done].
  apply split_dot_app in E as ->.
  destruct (names_ok_segments t) as (s & ss & Hs & Ht & _). rewrite Hs.
  replace (2 <=? zlen (h :: s :: ss)) with true.
  2: { symmetry. apply Z.leb_le. rewrite !zlen_cons. pose proof (zlen_nonneg ss). lia. }
  cbn [forallb] in *. rewrite <- Ht. unfold name_segment.
  destruct (forallb word_or_dash h) eqn:Hh; [|by rewrite !andb_false_r].
  rewrite dotdot_after_name by done. destruct t as [|a t]; [by rewrite !andb_false_r|].
  rewrite <- names_ok_regexp. change (starts_dot (a :: t)) with (is_dot a).
  destruct (bool_decide (h = [])), (is_dot a), (includes_dotdot (a :: t)),
    (forallb (λ b, word_or_dash b || is_dot b) (a :: t)),
    (match last (a :: t) with Some b => word_or_dash b | None => false end); done.
Qed.

Lemma map_indexed_Forall2 {A B} (f : Z → A → res B) i l ys :
  map_indexed f i l = Ok ys → Forall2 (λ x y, ∃ j, f j x = Ok y) l ys.
Proof.
  revert i ys. induction l as [|x l IH]; intros i ys; simpl; [intros [= <-]; constructor|].
  destruct (f i x) eqn:E; [|done]. destruct (map_indexed f (i + 1) l) eqn:E'; [|done].
  intros [= <-]. constructor; eauto.
Qed.

(** A value that may cross: what the guest's slots and the records can carry. *)
Definition value_ok (v : tagged) : Prop :=
  match v with
  | TNil | TFalse | TTrue => True
  | TNumber bits => bits_finite bits = true
  | TString bytes => valid_utf8 bytes = true ∧ zlen bytes <= MAX_STRING_BYTES
  | TBytes bytes => zlen bytes <= MAX_INBOUND_BYTES
  | TFetch _ => False
  end.

Lemma replace_surrogates_skip b r :
  Z_of_byte b ≠ 0xED → replace_surrogates (b :: r) = b :: replace_surrogates r.
Proof.
  intros Hb. destruct r as [|c [|d r]]; try done. cbn [replace_surrogates].
  by rewrite (proj2 (Z.eqb_neq _ _)).
Qed.

Lemma replace_surrogates_ed b c r :
  in_range 0xA0 0xBF b = false → Z_of_byte b ≠ 0xED → Z_of_byte c ≠ 0xED →
  replace_surrogates (xed :: b :: c :: r) = xed :: b :: c :: replace_surrogates r.
Proof.
  intros H1 H2 H3. cbn [replace_surrogates]. rewrite H1, andb_false_r.
  f_equal. change (replace_surrogates (b :: c :: r) = b :: c :: replace_surrogates r).
  by rewrite !replace_surrogates_skip.
Qed.

(** Encoding well-formed text changes none of its bytes. *)
Lemma replace_surrogates_valid bs : valid_utf8 bs = true → replace_surrogates bs = bs.
Proof.
  remember (length bs) as n eqn:Hn. assert (length bs <= n)%nat as Hle by lia. clear Hn.
  revert bs Hle. induction n as [|n IH]; intros [|a r] Hn Hv; try done; [simpl in Hn; lia|].
  cbn [valid_utf8] in Hv. unfold in_range in Hv. simpl in Hn.
  destruct (Z.eq_dec (Z_of_byte a) 0xED) as [Ha|Ha].
  - rewrite Ha in Hv. simpl in Hv. destruct r as [|b [|c r]]; try done.
    rewrite !andb_true_iff in Hv.
    assert (a = xed) as -> by (rewrite <- (byte_of_Z_of_byte a), Ha; done).
    rewrite replace_surrogates_ed; [|unfold in_range; lia..].
    do 3 f_equal. apply IH; [simpl in *; lia|]. naive_solver.
  - rewrite replace_surrogates_skip by done. f_equal.
    repeat case_match; try done; rewrite ?andb_true_iff in Hv; destruct_and?;
      rewrite ?replace_surrogates_skip by lia; repeat f_equal;
      (apply IH; [simpl in *; lia|done]).
Qed.

Lemma checkedText_ok s d bytes :
  checkedText s d = Ok bytes → valid_utf8 bytes = true ∧ zlen bytes <= MAX_STRING_BYTES.
Proof.
  unfold checkedText, isWellFormed, encode. destruct (valid_utf8 (text_bytes s)) eqn:Hv; [|done].
  simpl. rewrite replace_surrogates_valid by done.
  case_match eqn:E; [done|]. intros [= <-]. split; [done|lia].
Qed.

Lemma checked_result_ok name i v t : checked_result name i v = Ok t → value_ok t.
Proof.
  unfold checked_result. intros H. destruct v; repeat case_match; simplify_eq; simpl; try done.
  - by eapply checkedText_ok.
  - unfold value_ok. lia.
Qed.

Lemma inboundValue_ok kind i v t :
  inboundValue kind i v = Ok t → value_ok t ∧ (∀ bs, t ≠ TBytes bs).
Proof.
  unfold inboundValue. intros H. destruct v; repeat case_match; simplify_eq/=; try done.
  split; [|done]. by eapply checkedText_ok.
Qed.

Lemma checkedResults_ok name answer ts :
  checkedResults name answer = Ok ts →
  length ts = length (answer_list answer) ∧ zlen ts <= MAX_VALUES ∧ Forall value_ok ts.
Proof.
  unfold checkedResults. case_match eqn:E; [done|]. intros H%map_indexed_Forall2.
  pose proof (Forall2_length _ _ _ H) as Hlen. split; [done|]. split; [unfold zlen in *; lia|].
  clear E Hlen. induction H as [|x y l ys [j Hj] _ IH]; constructor; [|done].
  by eapply checked_result_ok.
Qed.

(** ** Properties *)

(** [checkedKind] accepts exactly the kinds its error describes: at most 128
    bytes of dot-separated, non-empty names of word characters and dashes, at
    least two of them, and not under the runtime's own [nupp.] names. *)
Theorem checkedKind_spec JSON_stringify name :
  is_ok (checkedKind JSON_stringify name) = true ↔
  zlen (text_bytes name) <= 128 ∧ dot_separated (text_bytes name) = true ∧
  ¬ reserved_prefix `prefix_of` text_bytes name.
Proof.
  unfold checkedKind. rewrite <- kind_test_dot_separated.
  destruct (Z.ltb_spec 128 (zlen (text_bytes name))); simpl; [split; [done|lia]|].
  destruct (KIND_test _), (includes_dotdot _); simpl; try (split; [done|naive_solver]).
  case_bool_decide; simpl; naive_solver.
Qed.
