(* ===== verification/HostChannel.v ===== *)
(** The page's side of [os.host], [src/runtime/wasm/host-channel.mjs]: the
    channel's state and every operation on it.

    The application's requests arrive as records in a leased buffer, are
    dispatched to the page's handlers, and are answered into that same buffer
    at the end of the frame; large byte arguments arrive in uploaded chunks and
    large byte results leave in fetched ones.  The page's own code (handlers,
    their [release], [end]) is a parameter: what it returns is the environment's
    choice, and every call of it is recorded in the channel's log.  An [async]
    function is cut at its [await]s: the part after one is an operation of its
    own, run when the page settles the promise. *)

From S2P Require Import Prelude Transfers Wire HostValues.

(** ** State *)

(** A value of a request, as the handler receives it. *)
Inductive hostvalue :=
| HNull
| HBool (b : bool)
| HNumber (bits : Z)
| HString (s : string)
| HBytes (bytes : list byte).

Record upload := Upload { u_bytes : list byte; u_total : Z; u_received : Z }.

(** Results whose bytes the application fetches: the byte views by position,
    the bytes still to deliver, and what to release if it never does. *)
Record result_record := ResultRecord {
  rr_views : list (option (list byte));
  rr_remaining : Z;
  rr_release : option string;
  rr_values : handler_answer
}.

Inductive answer_body :=
| Failed (error : string)
| Answered (values : list tagged) (release : option string) (results : handler_answer).

Record answer_item := AnswerItem {
  a_id : Z;
  a_body : answer_body;
  a_encoded : option (list byte)
}.

Record message := Message {
  m_kind : string;
  m_values : list tagged;
  m_encoded : option (list byte)
}.

(** A route: [route.p === "latest"] and [route.l | 0]; a falsy one routes nothing. *)
Inductive route :=
| RFalsy
| RRoute (latest : bool) (limit : Z).

Record frame := Frame {
  f_lease : option lease;
  f_inbox : option jsval;
  f_failure : option string
}.

(** Calls into the page, in order. *)
Inductive event :=
| EvCall (name : string) (args : list hostvalue)
| EvAbort (id : Z) (reason : string)
| EvRelease (kind : string) (values : handler_answer)
| EvReport (error : string)
| EvWake
| EvEnd.

Record channel := Channel {
  c_handlers : jmap string bool;
  c_reassemblyLimit : Z;
  c_reassembled : Z;
  c_uploads : jmap Z upload;
  c_results : jmap Z result_record;
  c_inflight : jmap Z ();
  c_answers : list answer_item;
  c_inbound : list message;
  c_dropped : jmap string Z;
  c_routes : jmap string route;
  c_frames : jmap Z frame;
  c_notify : bool;
  c_wakeScheduled : bool;
  c_nextResult : Z;
  c_closed : bool;
  (* the suspended calls of [dispatchCall] and of [dispatchOneWay] *)
  c_calls : list (Z * string);
  c_oneWays : list (string * bool);
  c_log : list event
}.

(** Field updates. *)
Definition set_uploads (reassembled : Z) (uploads : jmap Z upload) (c : channel) : channel :=
  Channel (c_handlers c) (c_reassemblyLimit c) reassembled uploads (c_results c) (c_inflight c)
    (c_answers c) (c_inbound c) (c_dropped c) (c_routes c) (c_frames c) (c_notify c)
    (c_wakeScheduled c) (c_nextResult c) (c_closed c) (c_calls c) (c_oneWays c) (c_log c).
Definition set_results (nextResult : Z) (results : jmap Z result_record) (c : channel) : channel :=
  Channel (c_handlers c) (c_reassemblyLimit c) (c_reassembled c) (c_uploads c) results (c_inflight c)
    (c_answers c) (c_inbound c) (c_dropped c) (c_routes c) (c_frames c) (c_notify c)
    (c_wakeScheduled c) nextResult (c_closed c) (c_calls c) (c_oneWays c) (c_log c).
Definition set_inflight (inflight : jmap Z ()) (c : channel) : channel :=
  Channel (c_handlers c) (c_reassemblyLimit c) (c_reassembled c) (c_uploads c) (c_results c) inflight
    (c_answers c) (c_inbound c) (c_dropped c) (c_routes c) (c_frames c) (c_notify c)
    (c_wakeScheduled c) (c_nextResult c) (c_closed c) (c_calls c) (c_oneWays c) (c_log c).
Definition set_answers (answers : list answer_item) (c : channel) : channel :=
  Channel (c_handlers c) (c_reassemblyLimit c) (c_reassembled c) (c_uploads c) (c_results c) (c_inflight c)
    answers (c_inbound c) (c_dropped c) (c_routes c) (c_frames c) (c_notify c)
    (c_wakeScheduled c) (c_nextResult c) (c_closed c) (c_calls c) (c_oneWays c) (c_log c).
Definition set_inbound (inbound : list message) (dropped : jmap string Z) (c : channel) : channel :=
  Channel (c_handlers c) (c_reassemblyLimit c) (c_reassembled c) (c_uploads c) (c_results c) (c_inflight c)
    (c_answers c) inbound dropped (c_routes c) (c_frames c) (c_notify c)
    (c_wakeScheduled c) (c_nextResult c) (c_closed c) (c_calls c) (c_oneWays c) (c_log c).
Definition set_routes (routes : jmap string route) (c : channel) : channel :=
  Channel (c_handlers c) (c_reassemblyLimit c) (c_reassembled c) (c_uploads c) (c_results c) (c_inflight c)
    (c_answers c) (c_inbound c) (c_dropped c) routes (c_frames c) (c_notify c)
    (c_wakeScheduled c) (c_nextResult c) (c_closed c) (c_calls c) (c_oneWays c) (c_log c).
Definition set_frames (frames : jmap Z frame) (c : channel) : channel :=
  Channel (c_handlers c) (c_reassemblyLimit c) (c_reassembled c) (c_uploads c) (c_results c) (c_inflight c)
    (c_answers c) (c_inbound c) (c_dropped c) (c_routes c) frames (c_notify c)
    (c_wakeScheduled c) (c_nextResult c) (c_closed c) (c_calls c) (c_oneWays c) (c_log c).
Definition set_notify (notify wakeScheduled : bool) (c : channel) : channel :=
  Channel (c_handlers c) (c_reassemblyLimit c) (c_reassembled c) (c_uploads c) (c_results c) (c_inflight c)
    (c_answers c) (c_inbound c) (c_dropped c) (c_routes c) (c_frames c) notify
    wakeScheduled (c_nextResult c) (c_closed c) (c_calls c) (c_oneWays c) (c_log c).
Definition set_closed (c : channel) : channel :=
  Channel (c_handlers c) (c_reassemblyLimit c) (c_reassembled c) (c_uploads c) (c_results c) (c_inflight c)
    (c_answers c) (c_inbound c) (c_dropped c) (c_routes c) (c_frames c) (c_notify c)
    (c_wakeScheduled c) (c_nextResult c) true (c_calls c) (c_oneWays c) (c_log c).
Definition set_suspended (calls : list (Z * string)) (oneWays : list (string * bool)) (c : channel)
    : channel :=
  Channel (c_handlers c) (c_reassemblyLimit c) (c_reassembled c) (c_uploads c) (c_results c) (c_inflight c)
    (c_answers c) (c_inbound c) (c_dropped c) (c_routes c) (c_frames c) (c_notify c)
    (c_wakeScheduled c) (c_nextResult c) (c_closed c) calls oneWays (c_log c).
Definition emit (e : event) (c : channel) : channel :=
  Channel (c_handlers c) (c_reassemblyLimit c) (c_reassembled c) (c_uploads c) (c_results c) (c_inflight c)
    (c_answers c) (c_inbound c) (c_dropped c) (c_routes c) (c_frames c) (c_notify c)
    (c_wakeScheduled c) (c_nextResult c) (c_closed c) (c_calls c) (c_oneWays c) (c_log c ++ [e]).

(** The channel beside the lease table of the frame at hand. *)
Record hoststate := HostState { h_channel : channel; h_transfers : transfers }.

Definition on_channel {A} (m : js channel A) : js hoststate A :=
  zoom h_channel (λ c h, HostState c (h_transfers h)) m.
Definition on_transfers {A} (m : js transfers A) : js hoststate A :=
  zoom h_transfers (λ t h, HostState (h_channel h) t) m.

(** The store while a frame's records are read. *)
Definition on_reader {A} (m : js reader A) : js (channel * reader) A :=
  zoom snd (λ r s, (s.1, r)) m.
Definition on_host {A} (m : js channel A) : js (channel * reader) A :=
  zoom fst (λ c s, (c, s.2)) m.

(** ** The page and the platform *)

(** What the page's own code does when it is called, and the two platform
    functions whose result shapes the channel: [JSON.stringify] in one error
    and [JSON.parse] of the routes ([None]: no plain object). *)
Record page := Page {
  call_throws : string → list hostvalue → option string;
  release_throws : string → handler_answer → option string;
  end_defined : bool;
  end_throws : option string;
  JSON_stringify : string → string;
  JSON_parse_routes : string → res (option (jmap string route))
}.

Section Channel.
Context (pg : page).

(** ** Creation and end *)

(** The page's [host] option, as far as [createHostChannel] reads it. *)
Record host_option := HostOption {
  o_maxReassemblyBytes : option jsval;
  o_end : option bool;
  o_start : option bool;
  o_handlers : option (list (string * pagehandler))
}.

(** [createHostChannel(host)] up to its call of [host.start]; [end] and [start]
    are [Some false] when they are defined and no function. *)
Definition createHostChannel (host : host_option) : res channel :=
  let limit := default (VNum (NInt DEFAULT_REASSEMBLY_BYTES)) (o_maxReassemblyBytes host) in
  match to_safe limit with
  | Some reassemblyLimit =>
      if reassemblyLimit <? 1 then Throw "host.maxReassemblyBytes must be a positive integer"
      else if bool_decide (o_end host = Some false) then Throw "host.end must be a function"
      else if bool_decide (o_start host = Some false) then Throw "host.start must be a function"
      else
        match normalizedHandlers (JSON_stringify pg) (o_handlers host) with
        | Throw e => Throw e
        | Ok handlers =>
            Ok (Channel handlers reassemblyLimit 0 [] [] [] [] [] [] [] [] false false 1 false [] [] [])
        end
  | None => Throw "host.maxReassemblyBytes must be a positive integer"
  end.

Definition wake : js channel () := λ c,
  (Ok tt, let c' := set_notify false (c_wakeScheduled c) c in
          if c_notify c then emit EvWake c' else c').

Definition report (error : string) : js channel () := modify (emit (EvReport error)).

(** [releaseResult(channel, {release, values})]. *)
Definition releaseResult (release : option string) (values : handler_answer) : js channel () :=
  match release with
  | None => mret tt
  | Some kind =>
      modify (emit (EvRelease kind values)) ;;
      match release_throws pg kind values with
      | Some error => report error
      | None => mret tt
      end
  end.

Definition release_answer (item : answer_item) : js channel () :=
  match a_body item with
  | Answered _ release results => releaseResult release results
  | Failed _ => mret tt
  end.

Definition closeHostChannel : js channel () :=
  closed ← gets c_closed;
  if (closed : bool) then mret tt else
  modify set_closed ;;
  inflight ← gets c_inflight;
  for_each inflight (λ p, modify (emit (EvAbort p.1 "the application finished"))) ;;
  modify (set_inflight []) ;;
  answers ← gets c_answers;
  for_each answers release_answer ;;
  modify (set_answers []) ;;
  results ← gets c_results;
  for_each results (λ p, releaseResult (rr_release p.2) (rr_values p.2)) ;;
  modify (λ c, set_results (c_nextResult c) [] c) ;;
  modify (set_uploads 0 []) ;;
  wake ;;
  if end_defined pg then
    modify (emit EvEnd) ;;
    match end_throws pg with Some error => report error | None => mret tt end
  else mret tt.

(** ** Reading a frame's records *)

(** One value of a request, the branches of the loop of [readArguments]. *)
Definition readArgument (index : Z) : js (channel * reader) hostvalue :=
  tag ← on_reader rd_u8;
  if tag =? 0 then mret HNull
  else if tag =? 1 then mret (HBool false)
  else if tag =? 2 then mret (HBool true)
  else if tag =? 3 then bits ← on_reader rd_f64; mret (HNumber bits)
  else if tag =? 4 then
    n ← on_reader rd_u32; s ← on_reader (rd_text n); mret (HString s)
  else if tag =? 5 then
    n ← on_reader rd_u32; bs ← on_reader (rd_bytes n); mret (HBytes bs)
  else if tag =? 6 then
    transfer ← on_reader rd_u32;
    uploads ← on_host (gets c_uploads);
    match mget transfer uploads with
    | Some up =>
        if u_received up =? u_total up then
          on_host (modify (λ c, set_uploads (c_reassembled c - u_total up)
                                  (mdelete transfer (c_uploads c)) c)) ;;
          mret (HBytes (u_bytes up))
        else throw ("host request value " +:+ pretty (index + 1) +:+ " names an incomplete upload")
    | None => throw ("host request value " +:+ pretty (index + 1) +:+ " names an incomplete upload")
    end
  else throw ("host request value " +:+ pretty (index + 1) +:+ " has an unknown tag " +:+ pretty tag).

Fixpoint readArgument_loop (n : nat) (index : Z) : js (channel * reader) (list hostvalue) :=
  match n with
  | O => mret []
  | S n' =>
      v ← readArgument index;
      vs ← readArgument_loop n' (index + 1);
      mret (v :: vs)
  end.

Definition readArguments : js (channel * reader) (list hostvalue) :=
  count ← on_reader rd_u16;
  if MAX_VALUES <? count then throw "a host request carries more than 255 values"
  else readArgument_loop (Z.to_nat count) 0.

(** [answer(channel, id, record)]. *)
Definition answer (id : Z) (body : answer_body) : js channel () :=
  modify (λ c, set_answers (c_answers c ++ [AnswerItem id body None]) c) ;;
  wake.

(** [dispatchCall] up to its [await]; a handler that throws at once is answered
    at once. *)
Definition dispatchCall (id : Z) (name : string) (args : list hostvalue) : js channel () :=
  handlers ← gets c_handlers;
  if negb (mhas name handlers) then answer id (Failed ("no host answers " +:+ name)) else
  modify (λ c, set_inflight (mset id () (c_inflight c)) c) ;;
  modify (emit (EvCall name args)) ;;
  match call_throws pg name args with
  | Some error =>
      answer id (Failed error) ;;
      modify (λ c, set_inflight (mdelete id (c_inflight c)) c)
  | None => modify (λ c, set_suspended (c_calls c ++ [(id, name)]) (c_oneWays c) c)
  end.

(** What a settled handler answers or throws. *)
Inductive outcome :=
| Resolved (results : handler_answer)
| Rejected (error : string).

(** [handler.release] of a kind's handler. *)
Definition handler_release (name : string) (handlers : jmap string bool) : option string :=
  match mget name handlers with Some true => Some name | _ => None end.

(** The rest of [dispatchCall], once the handler has settled. *)
Definition settle_call (id : Z) (name : string) (o : outcome) : js channel () :=
  release ← gets (λ c, handler_release name (c_handlers c));
  match o with
  | Rejected error =>
      answer id (Failed error) ;;
      modify (λ c, set_inflight (mdelete id (c_inflight c)) c)
  | Resolved results =>
      modify (λ c, set_inflight (mdelete id (c_inflight c)) c) ;;
      match checkedResults name results with
      | Throw error =>
          releaseResult release
            match results with AArray _ => results | AUndef => AArray [PUndef] | ASingle v => AArray [v] end ;;
          answer id (Failed error)
      | Ok values =>
          closed ← gets c_closed;
          if (closed : bool) then releaseResult release results
          else answer id (Answered values release results)
      end
  end.

(** [dispatchOneWay] up to its promise. *)
Definition dispatchOneWay (name : string) (args : list hostvalue) (post : bool) : js channel () :=
  handlers ← gets c_handlers;
  if negb (mhas name handlers) then report ("no host answers " +:+ name) else
  modify (emit (EvCall name args)) ;;
  match call_throws pg name args with
  | Some error => report error
  | None => modify (λ c, set_suspended (c_calls c) (c_oneWays c ++ [(name, post)]) c)
  end.

Definition settle_oneWay (name : string) (post : bool) (o : outcome) : js channel () :=
  release ← gets (λ c, handler_release name (c_handlers c));
  match o with
  | Rejected error => report error
  | Resolved results =>
      if post && negb (bool_decide (results = AUndef)) then releaseResult release results
      else mret tt
  end.

(** One record of a frame, after its operation and its id. *)
Definition record_body (op id : Z) : js (channel * reader) () :=
  if (op =? 1) || (op =? 2) || (op =? 3) then
    n ← on_reader rd_u16;
    name ← on_reader (rd_text n);
    args ← readArguments;
    match checkedKind (JSON_stringify pg) name with
    | Throw error =>
        if op =? 1 then on_host (answer id (Failed error)) else on_host (report error)
    | Ok checked =>
        if op =? 1 then on_host (dispatchCall id checked args)
        else on_host (dispatchOneWay checked args (op =? 2))
    end
  else if op =? 4 then
    inflight ← on_host (gets c_inflight);
    if mhas id inflight then on_host (modify (emit (EvAbort id "the caller stopped waiting"))) else mret tt
  else if op =? 5 then
    result ← on_reader rd_u32;
    results ← on_host (gets c_results);
    match mget result results with
    | Some record =>
        on_host (modify (λ c, set_results (c_nextResult c) (mdelete result (c_results c)) c)) ;;
        on_host (releaseResult (rr_release record) (rr_values record))
    | None => mret tt
    end
  else if op =? 6 then
    transfer ← on_reader rd_u32;
    uploads ← on_host (gets c_uploads);
    match mget transfer uploads with
    | Some up =>
        on_host (modify (λ c, set_uploads (c_reassembled c - u_total up)
                                (mdelete transfer (c_uploads c)) c))
    | None => mret tt
    end
  else if op =? 7 then
    n ← on_reader rd_u32;
    text ← on_reader (rd_text n);
    routes ← lift (JSON_parse_routes pg text);
    on_host (modify (set_routes (default [] routes)))
  else throw ("a host frame carried an unknown record " +:+ pretty op).

Definition readRecord : js (channel * reader) () :=
  op ← on_reader rd_u8;
  id ← on_reader rd_u32;
  record_body op id.

(** [while (reader.remaining > 0)]: a record takes at least five bytes, so as
    many rounds as there are bytes are enough. *)
Fixpoint readRecords_loop (fuel : nat) : js (channel * reader) () :=
  r ← gets snd;
  if 0 <? remaining r then
    match fuel with
    | O => throw "out of fuel"
    | S fuel' => readRecord ;; readRecords_loop fuel'
    end
  else mret tt.

Definition readRecords (bytes : list byte) : js channel () := λ c,
  let '(r, (c', _)) := readRecords_loop (length bytes) (c, Reader bytes 0) in (r, c').

(** ** Frames *)

(** A frame effect: its id, its inbox span if it has one, and [records | 0]. *)
Record frame_effect := FrameEffect {
  e_id : Z;
  e_inbox : option (jsval * jsval);
  e_records : Z
}.

Definition beginHostFrame (effect : frame_effect) : js hoststate () := λ h,
  let put f h' :=
    HostState (set_frames (mset (e_id effect) f (c_frames (h_channel h'))) (h_channel h'))
      (h_transfers h') in
  match e_inbox effect with
  | None => (Ok tt, put (Frame None None None) h)
  | Some (id, bytes) =>
      match lease_of id bytes true (h_transfers h) with
      | Throw e => (Ok tt, put (Frame None (Some id) (Some e)) h)
      | Ok l =>
          let records := e_records effect in
          if (records <? 0) || (l_bytes l <? records)
          then (Ok tt, put (Frame (Some l) (Some id) (Some "a host frame's records overrun its buffer")) h)
          else if 0 <? records then
            match on_channel (readRecords (slice 0 records (view l (h_transfers h)))) h with
            | (Ok _, h') => (Ok tt, put (Frame (Some l) (Some id) None) h')
            | (Throw e, h') => (Ok tt, put (Frame (Some l) (Some id) (Some e)) h')
            end
          else (Ok tt, put (Frame (Some l) (Some id) None) h)
      end
  end.

Definition hostFrameReady (c : channel) : bool :=
  (0 <? zlen (c_answers c)) || (0 <? zlen (c_inbound c)) || (0 <? zlen (c_dropped c)).

Definition hostFrameWaitable (c : channel) : bool :=
  negb (c_closed c) && ((0 <? zlen (c_inflight c)) || (0 <? zlen (c_routes c))).

Definition onHostFrameReady (notify : bool) : js channel () :=
  modify (λ c, set_notify notify (c_wakeScheduled c) c).

(** How many of a kind's messages its route keeps. *)
Definition route_keep (r : option route) : Z :=
  match r with
  | None | Some RFalsy => 0
  | Some (RRoute latest limit) => if latest then 1 else Z.max 1 limit
  end.

Definition routed (r : option route) : bool :=
  match r with Some (RRoute _ _) => true | _ => false end.

Definition count_up (kind : string) (m : jmap string Z) : jmap string Z :=
  mset kind (default 0 (mget kind m) + 1) m.

(** The second loop of [applyPolicies]. *)
Fixpoint policy_loop (routes : jmap string route) (totals : jmap string Z)
    (inbound : list message) (seen : jmap string Z) (kept : list message) (dropped : jmap string Z)
    : list message * jmap string Z :=
  match inbound with
  | [] => (kept, dropped)
  | m :: inbound' =>
      let r := mget (m_kind m) routes in
      let index := default 0 (mget (m_kind m) seen) in
      let seen := mset (m_kind m) (index + 1) seen in
      if default 0 (mget (m_kind m) totals) - route_keep r <=? index
      then policy_loop routes totals inbound' seen (kept ++ [m]) dropped
      else policy_loop routes totals inbound' seen kept
             (if routed r then count_up (m_kind m) dropped else dropped)
  end.

Definition applyPolicies (c : channel) : channel :=
  let totals := foldl (λ t m, count_up (m_kind m) t) [] (c_inbound c) in
  let '(kept, dropped) := policy_loop (c_routes c) totals (c_inbound c) [] [] (c_dropped c) in
  set_inbound kept dropped c.

Definition large (v : tagged) : bool :=
  match v with TBytes bytes => INLINE_BYTES <? zlen bytes | _ => false end.
Definition tagged_bytes (v : tagged) : option (list byte) :=
  match v with TBytes bytes => Some bytes | _ => None end.
Definition tagged_size (v : tagged) : Z :=
  match v with TBytes bytes => zlen bytes | _ => 0 end.
Definition announced (v : tagged) : tagged := if large v then TFetch (tagged_size v) else v.

Definition encodeAnswer (item : answer_item) : js channel (list byte) :=
  let w := wr_u32 (a_id item) (wr_u8 1 (new_Writer 64)) in
  match a_body item with
  | Failed error => mret (result (wr_sized (encode error) (wr_u8 0 w)))
  | Answered values release results =>
      let w := wr_u8 1 w in
      let fetched := List.filter large values in
      nextResult ← gets c_nextResult;
      let id := if 0 <? zlen fetched then nextResult else 0 in
      when (0 <? zlen fetched)
        (modify (λ c, set_results (nextResult + 1)
           (mset id (ResultRecord (tagged_bytes <$> values) (sumZ tagged_size fetched) release results)
              (c_results c)) c)) ;;
      mret (result (writeValues (announced <$> values) (wr_u16 (zlen values) (wr_u32 id w))))
  end.

Definition encodeMessage (m : message) : list byte :=
  let kind := encode (m_kind m) in
  result (writeValues (m_values m)
    (wr_u16 (zlen (m_values m)) (wr_raw kind (wr_u16 (zlen kind) (wr_u8 2 (new_Writer 64)))))).

Definition encodeDropped (kind : string) (count : Z) : list byte :=
  let name := encode kind in
  result (wr_u32 count (wr_raw name (wr_u16 (zlen name) (wr_u8 3 (new_Writer 32))))).

(** [put(bytes)] into the inbox: whether it fitted. *)
Definition put (l : lease) (written : Z) (bytes : list byte) : js hoststate bool :=
  if l_bytes l <? written + zlen bytes then mret false
  else
    on_transfers (λ t, match view_set l written bytes t with
                       | Ok t' => (Ok tt, t') | Throw e => (Throw e, t) end) ;;
    mret true.

(** The three loops of [finishHostFrame]; each returns what is written and, when
    a record did not fit, that record's size. *)
Fixpoint put_answers (n : nat) (l : lease) (written : Z) : js hoststate (Z * Z) :=
  match n with
  | O => mret (written, 0)
  | S n' =>
      answers ← on_channel (gets c_answers);
      match answers with
      | [] => mret (written, 0)
      | item :: rest =>
          bytes ← match a_encoded item with
                  | Some bytes => mret bytes
                  | None =>
                      bytes ← on_channel (encodeAnswer item);
                      on_channel (modify (set_answers (AnswerItem (a_id item) (a_body item) (Some bytes) :: rest))) ;;
                      mret bytes
                  end;
          fits ← put l written bytes;
          if (fits : bool) then
            on_channel (modify (set_answers rest)) ;;
            put_answers n' l (written + zlen bytes)
          else mret (written, zlen bytes)
      end
  end.

Fixpoint put_dropped (entries : jmap string Z) (l : lease) (written : Z) : js hoststate (Z * Z) :=
  match entries with
  | [] => mret (written, 0)
  | (kind, count) :: entries' =>
      let bytes := encodeDropped kind count in
      fits ← put l written bytes;
      if (fits : bool) then
        on_channel (modify (λ c, set_inbound (c_inbound c) (mdelete kind (c_dropped c)) c)) ;;
        put_dropped entries' l (written + zlen bytes)
      else mret (written, zlen bytes)
  end.

Fixpoint put_messages (n : nat) (l : lease) (written : Z) : js hoststate (Z * Z) :=
  match n with
  | O => mret (written, 0)
  | S n' =>
      inbound ← on_channel (gets c_inbound);
      match inbound with
      | [] => mret (written, 0)
      | m :: rest =>
          let bytes := match m_encoded m with Some bytes => bytes | None => encodeMessage m end in
          on_channel (modify (λ c, set_inbound
            (Message (m_kind m) (m_values m) (Some bytes) :: rest) (c_dropped c) c)) ;;
          fits ← put l written bytes;
          if (fits : bool) then
            on_channel (modify (λ c, set_inbound rest (c_dropped c) c)) ;;
            put_messages n' l (written + zlen bytes)
          else mret (written, zlen bytes)
      end
  end.

Definition fill_inbox (l : lease) : js hoststate (Z * Z) :=
  n ← on_channel (gets (λ c, length (c_answers c)));
  '(written, more) ← put_answers n l 0;
  if more =? 0 then
    on_channel (modify applyPolicies) ;;
    dropped ← on_channel (gets c_dropped);
    '(written, more) ← put_dropped dropped l written;
    if more =? 0 then
      k ← on_channel (gets (λ c, length (c_inbound c)));
      put_messages k l written
    else mret (written, more)
  else mret (written, more).

(** [finishHostFrame(effect)]: what is written, and [more] (0 when all fitted). *)
Definition finishHostFrame (effect : frame_effect) : js hoststate (Z * Z) :=
  frames ← on_channel (gets c_frames);
  on_channel (modify (set_frames (mdelete (e_id effect) frames))) ;;
  match mget (e_id effect) frames with
  | None => throw "a host frame was never begun"
  | Some f =>
      let release := match f_inbox f with
                     | Some id => on_transfers (modify (release_lease id))
                     | None => mret tt
                     end in
      match f_failure f with
      | Some e => match f_lease f with Some _ => release | None => mret tt end ;; throw e
      | None =>
          match f_lease f with
          | None => mret (0, 0)
          | Some l => try_finally (fill_inbox l) release
          end
      end
  end.

(** ** Streams in *)

(** Drops the oldest messages past the bound. *)
Fixpoint trim_inbound (inbound : list message) (dropped : jmap string Z)
    : list message * jmap string Z :=
  match inbound with
  | m :: rest =>
      if MAX_INBOUND_MESSAGES <? zlen inbound
      then trim_inbound rest (count_up (m_kind m) dropped)
      else (inbound, dropped)
  | [] => ([], dropped)
  end.

Definition pushMessage (kind : string) (values : list pagevalue) : js channel () :=
  _ ← lift (checkedKind (JSON_stringify pg) kind);
  guard_js (MAX_VALUES <? zlen values) ("host push " +:+ kind +:+ " carries more than 255 values") ;;
  checked ← lift (map_indexed (inboundValue kind) 1 values);
  closed ← gets c_closed;
  if (closed : bool) then mret tt else
  modify (λ c, let '(inbound, dropped) :=
                 trim_inbound (c_inbound c ++ [Message kind checked None]) (c_dropped c) in
               set_inbound inbound dropped c) ;;
  modify (λ c, if c_notify c && negb (c_wakeScheduled c) then set_notify true true c else c).

(** The microtask [pushMessage] queues. *)
Definition wake_task : js channel () :=
  modify (λ c, set_notify (c_notify c) false c) ;; wake.

(** ** Bulk bytes *)

Record fetch_effect := FetchEffect {
  fe_result : jsval;
  fe_span : option jsval;
  fe_index : jsval;
  fe_offset : jsval
}.

Definition get_result (v : jsval) (m : jmap Z result_record) : option (Z * result_record) :=
  match v with VNum (NInt z) => (λ r, (z, r)) <$> mget z m | _ => None end.

(** [record.views[effect.index - 1]], falsy when there is none there. *)
Definition view_at (index : jsval) (views : list (option (list byte))) : option (list byte) :=
  match to_integer index with
  | Some i => if i <? 1 then None else mjoin (views !! Z.to_nat (i - 1))
  | None => None
  end.

Definition release_span (span : option jsval) : js hoststate () :=
  match span with
  | Some id => on_transfers (modify (release_lease id))
  | None => mret tt
  end.

Definition lease_span (span : option jsval) (writable : bool) : js hoststate lease :=
  λ h, (lease_of (default VUndef span) VUndef writable (h_transfers h), h).

Definition fetchResult (effect : fetch_effect) : js hoststate Z :=
  results ← on_channel (gets c_results);
  try_finally
    match get_result (fe_result effect) results with
    | None => throw "host result is unknown or was already released"
    | Some (id, record) =>
        match view_at (fe_index effect) (rr_views record) with
        | None => throw "host result has no such byte value"
        | Some bytes =>
            l ← lease_span (fe_span effect) true;
            length ← on_transfers (gets (λ t, zlen (view l t)));
            match to_integer (fe_offset effect) with
            | None => throw "host result fetch range is invalid"
            | Some offset =>
                if (offset <? 0) || (zlen bytes <? offset + length)
                then throw "host result fetch range is invalid"
                else
                  on_transfers (λ t, match view_set l 0 (slice offset length bytes) t with
                                     | Ok t' => (Ok tt, t') | Throw e => (Throw e, t) end) ;;
                  let left := rr_remaining record - length in
                  on_channel (modify (λ c, set_results (c_nextResult c)
                    (if left =? 0 then mdelete id (c_results c)
                     else mset id (ResultRecord (rr_views record) left (rr_release record) (rr_values record))
                            (c_results c)) c)) ;;
                  mret length
            end
        end
    end
    (release_span (fe_span effect)).

Record upload_effect := UploadEffect {
  ue_transfer : jsval;
  ue_offset : jsval;
  ue_total : jsval;
  ue_span : option jsval
}.

(** The upload a chunk belongs to, registered when the chunk is its first. *)
Definition open_upload (transfer total : Z) (offset : jsval) : js channel upload :=
  uploads ← gets c_uploads;
  match mget transfer uploads with
  | Some up => mret up
  | None =>
      if negb (bool_decide (offset = VNum (NInt 0))) then throw "host upload began past its start" else
      c ← gets id;
      if c_reassemblyLimit c <? c_reassembled c + total
      then throw ("host upload of " +:+ pretty total +:+ " bytes exceeds the page's reassembly bound")
      else
        let up := Upload (replicate (Z.to_nat total) x00) total 0 in
        modify (λ c, set_uploads (c_reassembled c + total) (mset transfer up (c_uploads c)) c) ;;
        mret up
  end.

Definition receiveUpload (effect : upload_effect) : js hoststate Z :=
  try_finally
    match to_integer (ue_transfer effect), to_integer (ue_total effect) with
    | Some transfer, Some total =>
        if (total <? 0) || (MAX_OUTBOUND_BYTES <? total) then throw "host upload is malformed" else
        up ← on_channel (open_upload transfer total (ue_offset effect));
        l ← lease_span (ue_span effect) false;
        chunk ← on_transfers (gets (view l));
        let received := u_received up + zlen chunk in
        if negb (bool_decide (ue_offset effect = VNum (NInt (u_received up)))) || (total <? received)
        then throw "host upload chunk is out of order"
        else if u_total up <? received then throw "offset is out of bounds"
        else
          let up' := Upload (splice (u_received up) chunk (u_bytes up)) (u_total up) received in
          on_channel (modify (λ c, set_uploads (c_reassembled c) (mset transfer up' (c_uploads c)) c)) ;;
          mret received
    | _, _ => throw "host upload is malformed"
    end
    (release_span (ue_span effect)).

(** ** Effects *)

Inductive host_effect :=
| HostFetch (effect : fetch_effect)
| HostUpload (effect : upload_effect)
| HostUnknown (op : string) (spans : list jsval).

(** [performHostEffect(effect)]: an unknown operation returns its leases first. *)
Definition performHostEffect (effect : host_effect) : js hoststate Z :=
  match effect with
  | HostFetch e => fetchResult e
  | HostUpload e => receiveUpload e
  | HostUnknown op spans =>
      for_each spans (λ span, on_transfers (modify (release_lease span))) ;;
      throw ("unknown host operation " +:+ op)
  end.

(** ** Operations *)

(** What can happen to a channel between two turns of the page's event loop:
    a frame arrives (with its own lease table), is begun and finished, a bulk
    effect runs, a suspended handler settles, the page pushes, a queued wake
    runs, a waiting frame (un)subscribes, or the session ends. *)
Inductive host_op :=
| OpFrame (t : transfers)
| OpBegin (effect : frame_effect)
| OpFinish (effect : frame_effect)
| OpEffect (effect : host_effect)
| OpSettleCall (n : nat) (o : outcome)
| OpSettleOneWay (n : nat) (o : outcome)
| OpPush (kind : string) (values : list pagevalue)
| OpWakeTask
| OpNotify (notify : bool)
| OpClose.

Definition run_op (op : host_op) : js hoststate () :=
  match op with
  | OpFrame t => λ h, (Ok tt, HostState (h_channel h) t)
  | OpBegin e => beginHostFrame e
  | OpFinish e => finishHostFrame e ;; mret tt
  | OpEffect e => performHostEffect e ;; mret tt
  | OpSettleCall n o => on_channel (
      calls ← gets c_calls;
      match calls !! n with
      | Some (id, name) =>
          modify (λ c, set_suspended (delete n (c_calls c)) (c_oneWays c) c) ;; settle_call id name o
      | None => mret tt
      end)
  | OpSettleOneWay n o => on_channel (
      oneWays ← gets c_oneWays;
      match oneWays !! n with
      | Some (name, post) =>
          modify (λ c, set_suspended (c_calls c) (delete n (c_oneWays c)) c) ;; settle_oneWay name post o
      | None => mret tt
      end)
  | OpPush kind values => on_channel (pushMessage kind values)
  | OpWakeTask => on_channel wake_task
  | OpNotify notify => on_channel (onHostFrameReady notify)
  | OpClose => on_channel closeHostChannel
  end.

(** A session: operations one after the other; one that throws leaves what it
    had written. *)
Fixpoint run_ops (ops : list host_op) (h : hoststate) : hoststate :=
  match ops with
  | [] => h
  | op :: ops' => run_ops ops' (run_op op h).2
  end.
End Channel.
