(* ===== verification/HostInvariant.v ===== *)
(** The invariant of a host channel's session: upload accounting, bounded
    inbound queue, and that the frame buffer is never overrun. *)

From S2P Require Import Prelude Transfers Wire HostValues HostChannel.

(** ** The invariant *)

Definition upload_ok (p : Z * upload) : Prop :=
  0 <= u_received p.2 <= u_total p.2 ∧ zlen (u_bytes p.2) = u_total p.2.

Definition upload_total (p : Z * upload) : Z := u_total p.2.

(** The page's reassembly budget: [reassembled] is exactly what the live uploads
    reserve, within the bound, and each holds no more than it reserved. *)
Definition uploads_wf (c : channel) : Prop :=
  NoDup (c_uploads c).*1 ∧
  c_reassembled c = sumZ upload_total (c_uploads c) ∧
  c_reassembled c <= c_reassemblyLimit c ∧
  Forall upload_ok (c_uploads c).

Definition inbound_wf (c : channel) : Prop :=
  zlen (c_inbound c) <= MAX_INBOUND_MESSAGES.

Definition results_wf (c : channel) : Prop :=
  NoDup (c_results c).*1 ∧ 1 <= c_nextResult c ∧
  Forall (λ p, 1 <= p.1 < c_nextResult c) (c_results c).

Definition channel_wf (c : channel) : Prop :=
  uploads_wf c ∧ inbound_wf c ∧ results_wf c.

(** Since some moment: the next id has not gone back, and a result there is now was there at that moment or has a later id. *)
Definition kept_since (n0 : Z) (ids0 : list Z) (c : channel) : Prop :=
  n0 <= c_nextResult c ∧ Forall (λ p, p.1 ∈ ids0 ∨ n0 <= p.1) (c_results c).

(** The invariant, with a moment to look back to. *)
Definition session_wf_at (n0 : Z) (ids0 : list Z) (c : channel) : Prop :=
  uploads_wf c ∧ inbound_wf c ∧ results_wf c ∧ kept_since n0 ids0 c.

(** ** Preservation *)

Lemma preserves_on_channel {A} (I : channel → Prop) (m : js channel A) :
  preserves I m → preserves (λ h, I (h_channel h)) (on_channel m).
Proof.
  intros Hm h Hh. unfold on_channel, zoom. specialize (Hm _ Hh).
  by destruct (m (h_channel h)).
Qed.

Lemma preserves_on_transfers {A} (I : channel → Prop) (m : js transfers A) :
  preserves (λ h, I (h_channel h)) (on_transfers m).
Proof. intros h Hh. unfold on_transfers, zoom. by destruct (m (h_transfers h)). Qed.

Lemma preserves_on_reader {A} (I : channel → Prop) (m : js reader A) :
  preserves (λ s, I s.1) (on_reader m).
Proof. intros [c r] Hh. unfold on_reader, zoom. cbn. by destruct (m r). Qed.

Lemma preserves_on_host {A} (I : channel → Prop) (m : js channel A) :
  preserves I m → preserves (λ s, I s.1) (on_host m).
Proof.
  intros Hm [c r] Hh. unfold on_host, zoom. specialize (Hm _ Hh). cbn in *. by destruct (m c).
Qed.

Lemma preserves_lease_span (I : channel → Prop) span w :
  preserves (λ h, I (h_channel h)) (lease_span span w).
Proof. by intros h Hh. Qed.

#[export] Hint Resolve preserves_on_transfers preserves_on_reader preserves_lease_span : jsinv.

(** A property of a channel that its log, its queues of answers and frames, its
    routes and its flags do not touch. *)
Class Framed (I : channel → Prop) : Prop := {
  framed_inflight : ∀ x c, I c → I (set_inflight x c);
  framed_answers : ∀ x c, I c → I (set_answers x c);
  framed_routes : ∀ x c, I c → I (set_routes x c);
  framed_frames : ∀ x c, I c → I (set_frames x c);
  framed_notify : ∀ x y c, I c → I (set_notify x y c);
  framed_closed : ∀ c, I c → I (set_closed c);
  framed_suspended : ∀ x y c, I c → I (set_suspended x y c);
  framed_emit : ∀ e c, I c → I (emit e c)
}.

Ltac framed :=
  repeat first
    [ assumption
    | apply framed_inflight | apply framed_answers | apply framed_routes | apply framed_frames
    | apply framed_notify | apply framed_closed | apply framed_suspended | apply framed_emit
    | match goal with |- _ (if ?b then _ else _) => destruct b end ].

(** Walks a program over the channel; the updates [Framed] covers are closed. *)
Ltac preserve_channel :=
  repeat first
    [ progress intros
    | solve [eauto with jsinv nocore typeclass_instances]
    | apply preserves_modify; intros; solve [framed]
    | apply preserves_on_channel
    | apply preserves_on_host
    | apply preserves_bind
    | apply preserves_when
    | apply preserves_try_finally
    | apply preserves_for_each
    | match goal with
      | |- preserves _ (match ?x with _ => _ end) => destruct x
      end ].

Section Frame.
Context (pg : page) (I : channel → Prop) `{!Framed I}.

Lemma preserves_wake : preserves I wake.
Proof.
  intros c Hc. unfold wake; simpl.
  destruct (c_notify c); [apply framed_emit|]; by apply framed_notify.
Qed.

Lemma preserves_report e : preserves I (report e).
Proof. unfold report. preserve_channel. Qed.

Hint Resolve preserves_wake preserves_report : jsinv.

Lemma preserves_releaseResult r v : preserves I (releaseResult pg r v).
Proof. unfold releaseResult. preserve_channel. Qed.

Lemma preserves_answer id body : preserves I (answer id body).
Proof. unfold answer. preserve_channel. Qed.

Hint Resolve preserves_releaseResult preserves_answer : jsinv.

Lemma preserves_settle_call id name o : preserves I (settle_call pg id name o).
Proof. unfold settle_call. preserve_channel. Qed.

Lemma preserves_settle_oneWay name post o : preserves I (settle_oneWay pg name post o).
Proof. unfold settle_oneWay. preserve_channel. Qed.

Lemma preserves_dispatchCall id name args : preserves I (dispatchCall pg id name args).
Proof. unfold dispatchCall. preserve_channel. Qed.

Lemma preserves_dispatchOneWay name args post : preserves I (dispatchOneWay pg name args post).
Proof. unfold dispatchOneWay. preserve_channel. Qed.

Lemma preserves_release_answer item : preserves I (release_answer pg item).
Proof. unfold release_answer. preserve_channel. Qed.

Lemma preserves_wake_task : preserves I wake_task.
Proof. unfold wake_task. preserve_channel. Qed.

Lemma preserves_onHostFrameReady b : preserves I (onHostFrameReady b).
Proof. unfold onHostFrameReady. preserve_channel. Qed.
End Frame.

#[export] Hint Resolve preserves_wake preserves_report preserves_releaseResult preserves_answer
  preserves_settle_call preserves_settle_oneWay preserves_dispatchCall preserves_dispatchOneWay
  preserves_release_answer preserves_wake_task preserves_onHostFrameReady : jsinv.

(** Reading a field and deciding on it. *)
Lemma preserves_bind_gets {S A B} (I : S → Prop) (f : S → A) (k : A → js S B) :
  (∀ s, I s → I (k (f s) s).2) → preserves I (gets f ≫= k).
Proof. intros H s Hs. by apply H. Qed.

Lemma preserves_bind_gets_host {A B} (I : channel → Prop) (f : channel → A)
    (k : A → js (channel * reader) B) :
  (∀ c r, I c → I (k (f c) (c, r)).2.1) → preserves (λ s, I s.1) (on_host (gets f) ≫= k).
Proof. intros H [c r] Hs. by apply H. Qed.

Lemma preserves_bind_gets_channel {A B} (I : channel → Prop) (f : channel → A)
    (k : A → js hoststate B) :
  (∀ h, I (h_channel h) → I (h_channel (k (f (h_channel h)) h).2)) →
  preserves (λ h, I (h_channel h)) (on_channel (gets f) ≫= k).
Proof. intros H [c t] Hs. by apply H. Qed.

Section Operations.
Context (n0 : Z) (ids0 : list Z).
Local Abbreviation session_wf := (session_wf_at n0 ids0).

#[export] Instance framed_session_wf : Framed session_wf.
Proof. by constructor. Qed.

(** ** What the other updates need *)

Lemma upload_total_pair k up : upload_total (k, up) = u_total up.
Proof. done. Qed.

Lemma wf_delete_upload c k up :
  session_wf c → mget k (c_uploads c) = Some up →
  session_wf (set_uploads (c_reassembled c - u_total up) (mdelete k (c_uploads c)) c).
Proof.
  intros [(Hnd & Hsum & Hle & Hok) Hrest] Hg. split; [|done]. unfold uploads_wf; simpl.
  rewrite (sumZ_mdelete _ _ up) by done. rewrite Forall_forall in Hok.
  pose proof (Hok _ (mget_elem _ _ _ Hg)) as [? _]. simpl in *.
  split_and!; [by apply NoDup_mdelete|change (upload_total (k, up)) with (u_total up); lia|lia|].
  apply Forall_forall. intros p [Hp _]%elem_mdelete. auto.
Qed.

Lemma wf_clear_uploads c : session_wf c → session_wf (set_uploads 0 [] c).
Proof.
  intros [(Hnd & Hsum & Hle & Hok) Hrest]. split; [|done]. unfold uploads_wf; simpl.
  split_and!; [constructor|done| |constructor]. assert (0 <= c_reassembled c); [|lia].
  rewrite Hsum. apply sumZ_nonneg. intros p Hp. rewrite Forall_forall in Hok.
  destruct (Hok p Hp) as [? _]. unfold upload_total. lia.
Qed.

Lemma wf_new_upload c k total :
  session_wf c → mget k (c_uploads c) = None → 0 <= total →
  c_reassembled c + total <= c_reassemblyLimit c →
  session_wf (set_uploads (c_reassembled c + total)
    (mset k (Upload (replicate (Z.to_nat total) x00) total 0) (c_uploads c)) c).
Proof.
  intros [(Hnd & Hsum & Hle & Hok) Hrest] Hg Ht Hl. split; [|done]. unfold uploads_wf; simpl.
  rewrite sumZ_mset_absent by done. rewrite mset_absent by done.
  split_and!; [rewrite <- (mset_absent _ (Upload _ total 0)) by done; by apply NoDup_mset| |lia|].
  - rewrite upload_total_pair. simpl. lia.
  - apply Forall_app. split; [done|]. repeat constructor; simpl; try lia.
    unfold zlen. rewrite length_replicate. lia.
Qed.

Lemma wf_grow_upload c k up chunk :
  session_wf c → mget k (c_uploads c) = Some up →
  u_received up + zlen chunk <= u_total up →
  session_wf (set_uploads (c_reassembled c)
    (mset k (Upload (splice (u_received up) chunk (u_bytes up)) (u_total up)
               (u_received up + zlen chunk)) (c_uploads c)) c).
Proof.
  intros [(Hnd & Hsum & Hle & Hok) Hrest] Hg Hl. split; [|done]. unfold uploads_wf; simpl.
  erewrite sumZ_mset_present by done. rewrite Forall_forall in Hok.
  pose proof (Hok _ (mget_elem _ _ _ Hg)) as [? Hlen]. simpl in *.
  pose proof (zlen_nonneg chunk).
  split_and!; [by apply NoDup_mset|rewrite !upload_total_pair; simpl; lia|lia|].
  apply Forall_forall. intros p [->|Hp]%elem_mset; [|auto]. split; simpl; [lia|].
  by rewrite zlen_splice by lia.
Qed.

Lemma wf_delete_result c k :
  session_wf c → session_wf (set_results (c_nextResult c) (mdelete k (c_results c)) c).
Proof.
  intros (Hu & Hi & (Hnd & H1 & Hf) & Hn & Hk). split_and!; [done|done| |]; unfold results_wf, kept_since; simpl.
  - split_and!; [by apply NoDup_mdelete|done|]. rewrite Forall_forall in *. intros p [Hp _]%elem_mdelete. auto.
  - split; [done|]. rewrite Forall_forall in *. intros p [Hp _]%elem_mdelete. auto.
Qed.

Lemma wf_clear_results c : session_wf c → session_wf (set_results (c_nextResult c) [] c).
Proof.
  intros (Hu & Hi & (Hnd & H1 & Hf) & Hn & Hk). split_and!; [done|done| |].
  - split_and!; [apply NoDup_nil_2|done|apply Forall_nil_2].
  - by split; [|apply Forall_nil_2].
Qed.

Lemma wf_set_result c k r r' :
  session_wf c → mget k (c_results c) = Some r →
  session_wf (set_results (c_nextResult c) (mset k r' (c_results c)) c).
Proof.
  intros (Hu & Hi & (Hnd & H1 & Hf) & Hn & Hk) Hg. split_and!; [done|done| |]; unfold results_wf, kept_since; simpl.
  - split_and!; [by apply NoDup_mset|done|]. rewrite Forall_forall in *.
    intros p [->|Hp]%elem_mset; [|auto]. by apply (Hf (k, r)), mget_elem.
  - split; [done|]. rewrite Forall_forall in *.
    intros p [->|Hp]%elem_mset; [|auto]. by apply (Hk (k, r)), mget_elem.
Qed.

Lemma wf_add_result c r :
  session_wf c →
  session_wf (set_results (c_nextResult c + 1) (mset (c_nextResult c) r (c_results c)) c).
Proof.
  intros (Hu & Hi & (Hnd & H1 & Hf) & Hn & Hk). split_and!; [done|done| |]; unfold results_wf, kept_since; simpl.
  - split_and!; [by apply NoDup_mset|lia|]. rewrite Forall_forall in *.
    intros p [->|Hp]%elem_mset; [simpl; lia|]. specialize (Hf _ Hp). simpl in Hf. lia.
  - split; [lia|]. rewrite Forall_forall in *. intros p [->|Hp]%elem_mset; [by right|auto].
Qed.

Lemma wf_inbound c inbound dropped :
  session_wf c → zlen inbound <= MAX_INBOUND_MESSAGES → session_wf (set_inbound inbound dropped c).
Proof. by intros (Hu & Hi & Hr) Hl. Qed.

Lemma trim_inbound_bound inbound dropped :
  zlen (trim_inbound inbound dropped).1 <= MAX_INBOUND_MESSAGES.
Proof.
  revert dropped. induction inbound as [|m inbound IH]; intros dropped; simpl; [done|].
  case_match eqn:E; [apply IH|]. simpl. apply Z.ltb_ge in E. done.
Qed.

Lemma policy_loop_length routes totals inbound seen kept dropped :
  zlen (policy_loop routes totals inbound seen kept dropped).1 <= zlen kept + zlen inbound.
Proof.
  revert seen kept dropped.
  induction inbound as [|m inbound IH]; intros seen kept dropped; simpl; [rewrite zlen_nil; lia|].
  rewrite zlen_cons. case_match; (etrans; [apply IH|]); rewrite ?zlen_app, ?zlen_cons, ?zlen_nil; lia.
Qed.

Lemma wf_applyPolicies c : session_wf c → session_wf (applyPolicies c).
Proof.
  intros Hwf. unfold applyPolicies. case_match eqn:E. apply wf_inbound; [done|].
  match type of E with ?x = _ => pose proof (policy_loop_length (c_routes c)
    (foldl (λ t m, count_up (m_kind m) t) [] (c_inbound c)) (c_inbound c) [] [] (c_dropped c)) as Hl end.
  rewrite E in Hl. rewrite zlen_nil in Hl. destruct Hwf as (_ & Hi & _). unfold inbound_wf in Hi.
  simpl in Hl. lia.
Qed.

(** ** Every operation preserves the invariant *)

Context (pg : page).

Lemma preserves_readArgument i : preserves (λ s, session_wf s.1) (readArgument i).
Proof.
  unfold readArgument. apply preserves_bind; [preserve_channel|]. intros tag.
  repeat (apply preserves_if; [by preserve_channel|]). apply preserves_if; [|preserve_channel].
  apply preserves_bind; [preserve_channel|]. intros transfer.
  apply preserves_bind_gets_host. intros c r Hc.
  destruct (mget transfer (c_uploads c)) as [up|] eqn:E; [|done].
  destruct (u_received up =? u_total up); [|done]. by apply wf_delete_upload.
Qed.

Lemma preserves_readArguments : preserves (λ s, session_wf s.1) readArguments.
Proof.
  unfold readArguments. apply preserves_bind; [preserve_channel|]. intros count.
  apply preserves_if; [preserve_channel|]. generalize 0 as i.
  induction (Z.to_nat count) as [|n IH]; intros i; simpl; [preserve_channel|].
  apply preserves_bind; [apply preserves_readArgument|]. intros v.
  apply preserves_bind; [apply IH|]. preserve_channel.
Qed.

Lemma preserves_readRecord : preserves (λ s, session_wf s.1) (readRecord pg).
Proof.
  unfold readRecord. apply preserves_bind; [preserve_channel|]. intros op.
  apply preserves_bind; [preserve_channel|]. intros id. unfold record_body.
  apply preserves_if.
  { do 2 (apply preserves_bind; [preserve_channel|intros]).
    apply preserves_bind; [apply preserves_readArguments|]. preserve_channel. }
  apply preserves_if; [by preserve_channel|].
  apply preserves_if.
  { apply preserves_bind; [preserve_channel|]. intros k.
    apply preserves_bind_gets_host. intros c r Hc.
    destruct (mget k (c_results c)) as [rr|]; [|done].
    apply (preserves_on_host session_wf (releaseResult pg _ _)); [preserve_channel|].
    by apply wf_delete_result. }
  apply preserves_if.
  { apply preserves_bind; [preserve_channel|]. intros k.
    apply preserves_bind_gets_host. intros c r Hc.
    destruct (mget k (c_uploads c)) as [up|] eqn:E; [|done]. by apply wf_delete_upload. }
  preserve_channel.
Qed.

Lemma preserves_readRecords bytes : preserves session_wf (readRecords pg bytes).
Proof.
  intros c Hc. unfold readRecords.
  assert (preserves (λ s, session_wf s.1) (readRecords_loop pg (length bytes))) as H.
  { induction (length bytes) as [|n IH]; simpl; (apply preserves_bind; [preserve_channel|]); intros r.
    - preserve_channel.
    - apply preserves_if; [|preserve_channel].
      apply preserves_bind; [apply preserves_readRecord|]. by intros _. }
  specialize (H (c, Reader bytes 0) Hc).
  by destruct (readRecords_loop _ _ _) as [r [c' r']].
Qed.

Lemma preserves_closeHostChannel : preserves session_wf (closeHostChannel pg).
Proof.
  unfold closeHostChannel. preserve_channel; apply preserves_modify; intros.
  - by apply wf_clear_results.
  - by apply wf_clear_uploads.
Qed.

Lemma preserves_beginHostFrame e : preserves (λ h, session_wf (h_channel h)) (beginHostFrame pg e).
Proof.
  intros h Hh. unfold beginHostFrame. destruct (e_inbox e) as [[id bytes]|]; [|done].
  destruct (lease_of _ _ _ _) as [l|]; [|done]. destruct (_ || _); [done|].
  destruct (0 <? e_records e); [|done].
  pose proof (preserves_on_channel _ _ (preserves_readRecords
    (slice 0 (e_records e) (view l (h_transfers h)))) _ Hh) as Hp.
  by destruct (on_channel _ h) as [[] h'].
Qed.

Lemma preserves_encodeAnswer item : preserves session_wf (encodeAnswer item).
Proof.
  unfold encodeAnswer. destruct (a_body item); [preserve_channel|].
  apply preserves_bind_gets. intros c Hc. destruct (0 <? _); [|done].
  unfold when. apply (wf_add_result c). done.
Qed.

Lemma preserves_put l w bs : preserves (λ h, session_wf (h_channel h)) (put l w bs).
Proof. unfold put. preserve_channel. Qed.

Lemma preserves_put_answers n l w : preserves (λ h, session_wf (h_channel h)) (put_answers n l w).
Proof.
  revert w. induction n as [|n IH]; intros w; simpl; [preserve_channel|].
  apply preserves_bind; [preserve_channel|]. intros [|item rest]; [preserve_channel|].
  apply preserves_bind.
  { destruct (a_encoded item); [preserve_channel|].
    apply preserves_bind; [apply preserves_on_channel, preserves_encodeAnswer|]. preserve_channel. }
  intros bs. apply preserves_bind; [apply preserves_put|]. preserve_channel.
Qed.

Lemma preserves_put_dropped es l w : preserves (λ h, session_wf (h_channel h)) (put_dropped es l w).
Proof.
  revert w. induction es as [|[k n] es IH]; intros w; simpl; [preserve_channel|].
  apply preserves_bind; [apply preserves_put|]. intros []; [|preserve_channel].
  apply preserves_bind; [|by intros _]. apply preserves_on_channel, preserves_modify.
  intros c Hc. apply wf_inbound; [done|]. apply Hc.
Qed.

Lemma preserves_put_messages n l w : preserves (λ h, session_wf (h_channel h)) (put_messages n l w).
Proof.
  revert w. induction n as [|n IH]; intros w; simpl; [preserve_channel|].
  apply preserves_bind_gets_channel. intros [c t] Hh. simpl in *.
  destruct (c_inbound c) as [|m rest] eqn:E; [done|].
  assert (zlen rest + 1 <= MAX_INBOUND_MESSAGES) as Hl.
  { destruct Hh as (_ & Hi & _). unfold inbound_wf in Hi. rewrite E, zlen_cons in Hi. lia. }
  eapply (preserves_bind (λ h, session_wf (h_channel h)));
    [apply preserves_on_channel, preserves_modify; intros; apply wf_inbound; [done|]; rewrite zlen_cons; lia
    | |exact Hh].
  intros _. apply preserves_bind; [apply preserves_put|]. intros []; [|preserve_channel].
  apply preserves_bind; [|by intros _]. apply preserves_on_channel, preserves_modify.
  intros c' Hc. apply wf_inbound; [done|]. lia.
Qed.

Lemma preserves_finishHostFrame e : preserves (λ h, session_wf (h_channel h)) (finishHostFrame e).
Proof.
  unfold finishHostFrame. apply preserves_bind; [preserve_channel|]. intros frames.
  apply preserves_bind; [preserve_channel|]. intros _. destruct (mget _ frames) as [f|]; [|preserve_channel].
  destruct (f_failure f); [by preserve_channel|]. destruct (f_lease f) as [l|]; [|preserve_channel].
  apply preserves_try_finally; [|preserve_channel]. unfold fill_inbox.
  apply preserves_bind; [preserve_channel|]. intros n.
  apply preserves_bind; [apply preserves_put_answers|]. intros [w more].
  apply preserves_if; [|preserve_channel].
  apply preserves_bind; [apply preserves_on_channel, preserves_modify, wf_applyPolicies|]. intros _.
  apply preserves_bind; [preserve_channel|]. intros d.
  apply preserves_bind; [apply preserves_put_dropped|]. intros [w' more'].
  apply preserves_if; [|preserve_channel].
  apply preserves_bind; [preserve_channel|]. intros k. apply preserves_put_messages.
Qed.

Lemma preserves_pushMessage kind values : preserves session_wf (pushMessage pg kind values).
Proof.
  unfold pushMessage. preserve_channel; apply preserves_modify; intros c Hc.
  match goal with |- context [trim_inbound ?i ?d] => pose proof (trim_inbound_bound i d) end.
  destruct (trim_inbound _ _). by apply wf_inbound.
Qed.

Lemma preserves_open_upload k total offset :
  0 <= total → preserves session_wf (open_upload k total offset).
Proof.
  intros Ht. unfold open_upload. apply preserves_bind_gets. intros c Hc.
  destruct (mget k (c_uploads c)) as [up|] eqn:E; [done|].
  destruct (negb _); [done|]. unfold mbind, js_bind, gets, id.
  destruct (Z.ltb_spec (c_reassemblyLimit c) (c_reassembled c + total)); [done|].
  by apply wf_new_upload.
Qed.

(** What [open_upload] hands out is in the table. *)
Lemma open_upload_Ok k total offset c c' up :
  open_upload k total offset c = (Ok up, c') → mget k (c_uploads c') = Some up.
Proof.
  unfold open_upload, mbind, js_bind, gets, id.
  destruct (mget k (c_uploads c)) as [up'|] eqn:E; [by intros [= -> ->]|].
  destruct (negb _); [done|]. destruct (_ <? _); [done|].
  unfold modify. intros [= <- <-]. simpl. apply mget_mset_eq.
Qed.

Lemma try_finally_at {A} (I : channel → Prop) (m : js hoststate A) span h :
  I (h_channel (m h).2) → I (h_channel (try_finally m (release_span span) h).2).
Proof.
  intros Hm. unfold try_finally. destruct (m h) as [r h'].
  by destruct span as [v|].
Qed.

Lemma preserves_fetchResult e : preserves (λ h, session_wf (h_channel h)) (fetchResult e).
Proof.
  unfold fetchResult. apply preserves_bind_gets_channel. intros [c t] Hh. simpl in *.
  apply try_finally_at. destruct (get_result _ _) as [[z record]|] eqn:E; [|done].
  destruct (view_at _ _) as [bytes|]; [|done].
  unfold mbind, js_bind, lease_span; simpl. destruct (lease_of _ _ _ t) as [l|]; [|done].
  unfold on_transfers, zoom; simpl.
  destruct (to_integer (fe_offset e)) as [offset|]; [|done]. destruct (_ || _); [done|].
  simpl. destruct (view_set _ _ _ _); [|done]. simpl.
  destruct (_ =? 0); [by apply wf_delete_result|].
  destruct (fe_result e) as [| | |[]| |]; try done. simpl in E.
  apply fmap_Some in E as (r & Hr & [= -> ->]). by eapply wf_set_result.
Qed.

Lemma preserves_receiveUpload e : preserves (λ h, session_wf (h_channel h)) (receiveUpload e).
Proof.
  intros [c t] Hh. unfold receiveUpload. apply try_finally_at.
  destruct (to_integer (ue_transfer e)) as [k|]; [|done].
  destruct (to_integer (ue_total e)) as [total|]; [|done].
  destruct ((total <? 0) || _) eqn:Ht; [done|]. rewrite orb_false_iff in Ht.
  unfold mbind, js_bind, on_channel, zoom; simpl in *.
  pose proof (preserves_open_upload k total (ue_offset e) ltac:(lia) c Hh) as Hw.
  destruct (open_upload _ _ _ c) as [[up|] c'] eqn:E; [|done]. simpl in *.
  apply open_upload_Ok in E.
  unfold lease_span; simpl. destruct (lease_of _ _ _ t) as [l|]; [|done]. simpl.
  destruct (_ || _); [done|].
  destruct (Z.ltb_spec (u_total up) (u_received up + zlen (view l t))); [done|].
  simpl. by apply wf_grow_upload.
Qed.

Lemma preserves_run_op op : preserves (λ h, session_wf (h_channel h)) (run_op pg op).
Proof.
  destruct op as [t|e|e|e|n o|n o|kind values| |b|]; unfold run_op.
  - by intros h Hh.
  - apply preserves_beginHostFrame.
  - apply preserves_bind; [apply preserves_finishHostFrame|]. preserve_channel.
  - apply preserves_bind; [|preserve_channel]. destruct e as [e|e|op spans]; simpl.
    + apply preserves_fetchResult.
    + apply preserves_receiveUpload.
    + preserve_channel.
  - preserve_channel.
  - preserve_channel.
  - apply preserves_on_channel, preserves_pushMessage.
  - preserve_channel.
  - preserve_channel.
  - apply preserves_on_channel, preserves_closeHostChannel.
Qed.

Lemma preserves_run_ops ops h : session_wf (h_channel h) → session_wf (h_channel (run_ops pg ops h)).
Proof.
  revert h. induction ops as [|op ops IH]; intros h Hh; simpl; [done|].
  pose proof (preserves_run_op op h Hh) as Hop. destruct (run_op pg op h) as [r h']. by apply IH.
Qed.

Lemma session_channel c : session_wf c → channel_wf c.
Proof. by intros (? & ? & ? & _). Qed.
End Operations.

Lemma run_ops_app pg ops later h : run_ops pg (ops ++ later) h = run_ops pg later (run_ops pg ops h).
Proof. revert h. induction ops as [|op ops IH]; intros h; [done|]. simpl. apply IH. Qed.

Section Session.
Context (pg : page).

Lemma create_channel_wf host c : createHostChannel pg host = Ok c → channel_wf c.
Proof.
  unfold createHostChannel. intros H. repeat case_match; simplify_eq/=.
  assert (NoDup (@nil Z)) as Hnil by apply NoDup_nil_2.
  split; [|split; [done|]].
  - split_and!; [done|done|simpl; lia|apply Forall_nil_2].
  - split_and!; [done|done|apply Forall_nil_2].
Qed.

(** ** Properties *)

(** C6 Through a whole session of frames, uploads, fetches, settlements, pushes
    and the end, in any order and also when operations throw: what the page
    holds for unfinished uploads is exactly [reassembled] and never exceeds the
    page's bound, no upload received more than it announced, the inbound queue
    never exceeds 4096 messages, the results the guest may fetch have different ids,
    and an id is never used again: of the ids that were given out before some moment, those
    whose result was not there at that moment have none at any later one. *)
Theorem host_session_invariant host c t ops later :
  createHostChannel pg host = Ok c →
  let c1 := h_channel (run_ops pg ops (HostState c t)) in
  let c2 := h_channel (run_ops pg (ops ++ later) (HostState c t)) in
  channel_wf c1 ∧ c_nextResult c1 <= c_nextResult c2 ∧
  ∀ id, id < c_nextResult c1 → id ∉ (c_results c1).*1 → id ∉ (c_results c2).*1.
Proof.
  intros Hc%create_channel_wf. cbn zeta. rewrite run_ops_app. set (h1 := run_ops pg ops (HostState c t)).
  assert (channel_wf (h_channel h1)) as H1.
  { apply (session_channel 1 []). apply preserves_run_ops. destruct Hc as (? & ? & Hr). split_and!; try done.
    destruct Hr as (_ & ? & Hf). split; [done|]. eapply Forall_impl; [exact Hf|]. simpl. intros p ?. right. lia. }
  split; [done|]. pose proof (preserves_run_ops (c_nextResult (h_channel h1)) (c_results (h_channel h1)).*1 pg later h1) as H2.
  destruct H2 as (_ & _ & _ & Hn & Hk).
  { destruct H1 as (? & ? & ?). split_and!; try done. split; [done|]. apply Forall_forall. intros p Hp. left. by apply list_elem_of_fmap_2. }
  split; [done|]. intros id Hid Hout (p & -> & Hp)%list_elem_of_fmap. rewrite Forall_forall in Hk.
  destruct (Hk p Hp) as [?|?]; [done|lia].
Qed.
End Session.

(** A page whose code never throws, for the concrete runs below. *)
Definition quiet_page : page :=
  Page (λ _ _, None) (λ _ _, None) true None id (λ _, Ok None).

Lemma host_session_invariant_witness :
  ∃ c, createHostChannel quiet_page (HostOption None None None (Some [("app.echo", HFunction)])) = Ok c ∧
    let t := Transfers [x01; x02] [(5, Lease 5 0 2 true false)] in
    let up := UploadEffect (VNum (NInt 9)) (VNum (NInt 0)) (VNum (NInt 4)) (Some (VNum (NInt 5))) in
    let h := run_ops quiet_page [OpEffect (HostUpload up); OpPush "app.tick" [PNull]] (HostState c t) in
    c_reassembled (h_channel h) = 4 ∧ zlen (c_inbound (h_channel h)) = 1 ∧ channel_wf (h_channel h).
Proof.
  eexists. split; [reflexivity|]. cbv zeta. split; [reflexivity|]. split; [reflexivity|].
  exact (proj1 (host_session_invariant quiet_page
    (HostOption None None None (Some [("app.echo", HFunction)])) _ _ _ [] eq_refl)).
Defined.
