(* ===== verification/HostRecords.v ===== *)
(** What the page reads: that reading a frame's records always ends, that the
    reader inverts the writer on the values both know, and that an upload's
    chunks come back as one byte value. *)

From S2P Require Import Prelude Transfers Wire HostValues HostChannel HostInvariant.

(** ** Progress of the reader *)

(** The reader has passed [at_] in [buffer]. *)
Definition past (buffer : list byte) (at_ : Z) (s : channel * reader) : Prop :=
  rd_buffer s.2 = buffer ∧ at_ <= rd_at s.2.

Section Progress.
Context (pg : page) (buffer : list byte) (at_ : Z).
Let P := past buffer at_.

Lemma past_on_host {A} (m : js channel A) : preserves P (on_host m).
Proof. intros [c r] H. unfold on_host, zoom. cbn. by destruct (m c). Qed.

Lemma past_take {A} (n : Z) (k : Z → js reader A) :
  0 <= n → (∀ a r, (k a r).2 = r) → preserves P (on_reader (take_bytes n ≫= k)).
Proof.
  intros Hn Hk [c r] [Hb Ha]. unfold on_reader, zoom, mbind, js_bind, take_bytes. cbn in *.
  destruct (_ <? _); [done|]. specialize (Hk (rd_at r) (Reader (rd_buffer r) (rd_at r + n))).
  destruct (k _ _). simpl in Hk. subst. split; simpl; [done|lia].
Qed.

Lemma past_read_le n : 0 <= n → preserves P (on_reader (read_le n)).
Proof. intros. by apply past_take. Qed.

Lemma past_rd_bytes n : 0 <= n → preserves P (on_reader (rd_bytes n)).
Proof. intros. by apply past_take. Qed.

Lemma past_rd_text n : 0 <= n → preserves P (on_reader (rd_text n)).
Proof. intros. by apply past_take. Qed.

(** A number read is not negative. *)
Lemma past_bind_read {A} n (k : Z → js (channel * reader) A) :
  0 <= n → (∀ z, 0 <= z → preserves P (k z)) → preserves P (on_reader (read_le n) ≫= k).
Proof.
  intros Hn Hk [c r] HP. pose proof (past_read_le n Hn (c, r) HP) as Hr.
  unfold mbind at 1, js_bind at 1.
  destruct (on_reader (read_le n) (c, r)) as [[z|e] s] eqn:E; [|done].
  apply (Hk z); [|done]. unfold on_reader, zoom, read_le, mbind, js_bind, gets in E; cbn in E.
  destruct (take_bytes n r) as [[a|] r']; simplify_eq. apply le_combine_bound.
Qed.

Lemma past_readArgument i : preserves P (readArgument i).
Proof.
  unfold readArgument, rd_u8, rd_u32, rd_f64.
  apply past_bind_read; [lia|]. intros tag _.
  do 3 (apply preserves_if; [apply preserves_ret|]).
  apply preserves_if.
  { apply past_bind_read; [lia|]. intros; apply preserves_ret. }
  do 2 (apply preserves_if;
    [apply past_bind_read; [lia|]; intros; apply preserves_bind;
      [by apply past_rd_text || by apply past_rd_bytes|intros; apply preserves_ret]|]).
  apply preserves_if; [|apply preserves_throw].
  apply past_bind_read; [lia|]. intros transfer _.
  apply preserves_bind; [apply past_on_host|]. intros uploads.
  destruct (mget _ _); [|apply preserves_throw]. apply preserves_if; [|apply preserves_throw].
  apply preserves_bind; [apply past_on_host|]. intros; apply preserves_ret.
Qed.

Lemma past_readArguments : preserves P readArguments.
Proof.
  unfold readArguments, rd_u16. apply past_bind_read; [lia|]. intros count _.
  apply preserves_if; [apply preserves_throw|]. generalize 0 as i.
  induction (Z.to_nat count) as [|n IH]; intros i; simpl; [apply preserves_ret|].
  apply preserves_bind; [apply past_readArgument|]. intros.
  apply preserves_bind; [apply IH|]. intros; apply preserves_ret.
Qed.

Lemma past_record_body op id : preserves P (record_body pg op id).
Proof.
  unfold record_body, rd_u16, rd_u32.
  apply preserves_if.
  { apply past_bind_read; [lia|]. intros n Hn.
    apply preserves_bind; [by apply past_rd_text|]. intros name.
    apply preserves_bind; [apply past_readArguments|]. intros args.
    destruct (checkedKind _ _); apply preserves_if; apply past_on_host. }
  apply preserves_if.
  { apply preserves_bind; [apply past_on_host|]. intros.
    apply preserves_if; [apply past_on_host|apply preserves_ret]. }
  apply preserves_if.
  { apply past_bind_read; [lia|]. intros k _. apply preserves_bind; [apply past_on_host|]. intros.
    destruct (mget _ _); [|apply preserves_ret].
    apply preserves_bind; [apply past_on_host|]. intros; apply past_on_host. }
  apply preserves_if.
  { apply past_bind_read; [lia|]. intros k _. apply preserves_bind; [apply past_on_host|]. intros.
    destruct (mget _ _); [apply past_on_host|apply preserves_ret]. }
  apply preserves_if; [|apply preserves_throw].
  apply past_bind_read; [lia|]. intros n Hn.
  apply preserves_bind; [by apply past_rd_text|]. intros text.
  apply preserves_bind; [apply preserves_lift|]. intros; apply past_on_host.
Qed.
End Progress.

(** A record that is read takes its operation byte and its id at least. *)
Lemma readRecord_advances pg c r c' r' :
  readRecord pg (c, r) = (Ok tt, (c', r')) →
  rd_buffer r' = rd_buffer r ∧ rd_at r + 5 <= rd_at r'.
Proof.
  intros H. unfold readRecord, on_reader, zoom, rd_u8, rd_u32, read_le, mbind, js_bind,
    take_bytes, gets in H; cbn in H.
  destruct (_ <? _); [done|]. cbn in H. destruct (_ <? _); [done|]. cbn in H.
  match type of H with record_body _ ?op ?id ?s = _ =>
    pose proof (past_record_body pg (rd_buffer r) (rd_at r + 5) op id s) as Hp end.
  rewrite H in Hp. apply Hp. split; simpl; [done|lia].
Qed.

(** With a round per byte left the loop never runs out, and more rounds change
    nothing. *)
Lemma readRecords_loop_fuel pg n k c r :
  remaining r <= Z.of_nat n →
  readRecords_loop pg (n + k) (c, r) = readRecords_loop pg n (c, r).
Proof.
  revert c r. induction n as [|n IH]; intros c r Hn.
  - destruct k as [|k]; [done|]. simpl. unfold mbind, js_bind, gets. simpl.
    destruct (Z.ltb_spec 0 (remaining r)); [lia|done].
  - simpl. unfold mbind, js_bind, gets. simpl.
    destruct (Z.ltb_spec 0 (remaining r)); [|done].
    destruct (readRecord pg (c, r)) as [[[]|] [c' r']] eqn:E; [|done].
    apply readRecord_advances in E as [Hb Ha]. apply IH.
    unfold remaining in *. rewrite Hb. lia.
Qed.

(** When the loop returns, it has read the whole frame. *)
Lemma readRecords_loop_done pg n c r s :
  readRecords_loop pg n (c, r) = (Ok tt, s) → remaining s.2 <= 0.
Proof.
  revert c r. induction n as [|n IH]; intros c r; simpl; unfold mbind, js_bind, gets; simpl;
    (destruct (Z.ltb_spec 0 (remaining r)) as [|Hle]; [|intros [= <-]; simpl; lia]); [done|].
  destruct (readRecord pg (c, r)) as [[[]|] [c' r']]; [apply IH|done].
Qed.

(** ** Reading back what the writer wrote *)

(** What a handler receives for a value. *)
Definition received (v : tagged) : hostvalue :=
  match v with
  | TNil | TFetch _ => HNull
  | TFalse => HBool false
  | TTrue => HBool true
  | TNumber bits => HNumber bits
  | TString bytes => HString (bytes_text (strip_bom bytes))
  | TBytes bytes => HBytes bytes
  end.

(** A value the request records have a form for. *)
Definition sendable (v : tagged) : Prop :=
  match v with
  | TNil | TFalse | TTrue => True
  | TNumber bits => 0 <= bits < 2 ^ 64
  | TString bytes => valid_utf8 bytes = true ∧ zlen bytes < 2 ^ 32
  | TBytes bytes => zlen bytes < 2 ^ 32
  | TFetch _ => False
  end.

Lemma on_reader_eq {A} (m : js reader A) c r a r' :
  m r = (a, r') → on_reader m (c, r) = (a, (c, r')).
Proof. intros H. unfold on_reader, zoom. cbn. by rewrite H. Qed.

Lemma advance_advance m n r : advance n (advance m r) = advance (m + n) r.
Proof. unfold advance. simpl. f_equal. lia. Qed.

Lemma zlen_le_split n z : zlen (le_split n z) = Z.of_nat n.
Proof. unfold zlen. by rewrite length_le_split. Qed.

Lemma reads_shift r a b t : reads r (a ++ b) t → reads r a (b ++ t).
Proof. unfold reads. by rewrite <- app_assoc. Qed.

Lemma reads_next r a t : reads r a t → reads (advance (zlen a) r) [] t.
Proof. intros H. rewrite <- (app_nil_r a) in H. by apply reads_app in H as [_ H]. Qed.

(** Reads a little-endian field that stands next. *)
Lemma read_field {A} n z (k : Z → js (channel * reader) A) c r tail :
  0 <= z < 256 ^ Z.of_nat n → reads r (le_split n z) tail →
  (on_reader (read_le (Z.of_nat n)) ≫= k) (c, r) = k z (c, advance (Z.of_nat n) r) ∧
  reads (advance (Z.of_nat n) r) [] tail.
Proof.
  intros Hz Hr. split.
  - unfold mbind, js_bind. erewrite on_reader_eq by (by eapply read_le_reads). done.
  - apply reads_next in Hr. by rewrite zlen_le_split in Hr.
Qed.

Lemma readArgument_value i v c r rest :
  sendable v → reads r (enc_value v) rest →
  readArgument i (c, r) = (Ok (received v), (c, advance (zlen (enc_value v)) r)).
Proof.
  intros Hv Hr. unfold readArgument, enc_value, rd_u8, rd_u32, rd_f64 in *.
  rewrite zlen_app, zlen_le_split.
  apply reads_shift in Hr.
  eapply (read_field 1 (tag_of v)) in Hr as [-> Hr]; [|by destruct v].
  destruct v as [| | |bits|bytes|bytes|size]; simpl in Hv; try done;
    cbn [tag_of Z.eqb Pos.eqb]; rewrite ?zlen_app, ?zlen_le_split.
  - (* number *)
    eapply (read_field 8 bits) in Hr as [-> Hr]; [|done].
    by rewrite advance_advance.
  - (* text *)
    apply reads_shift in Hr. destruct Hv as [Hv Hn]. unfold enc_sized. rewrite zlen_app, zlen_le_split.
    eapply (read_field 4 (zlen bytes)) in Hr as [-> Hr]; [|split; [apply zlen_nonneg|done]].
    unfold mbind, js_bind. erewrite on_reader_eq by (by apply (rd_text_reads _ bytes rest)).
    unfold decode. rewrite Hv, !advance_advance. done.
  - (* bytes *)
    apply reads_shift in Hr. unfold enc_sized. rewrite zlen_app, zlen_le_split.
    eapply (read_field 4 (zlen bytes)) in Hr as [-> Hr]; [|split; [apply zlen_nonneg|done]].
    unfold mbind, js_bind. erewrite on_reader_eq by (by apply (rd_bytes_reads _ bytes rest)).
    rewrite !advance_advance. done.
Qed.

Lemma readArgument_loop_values vs i c r rest :
  Forall sendable vs → reads r (enc_values vs) rest →
  readArgument_loop (length vs) i (c, r) =
    (Ok (received <$> vs), (c, advance (zlen (enc_values vs)) r)).
Proof.
  revert i r. induction vs as [|v vs IH]; intros i r Hvs Hr.
  - unfold enc_values. simpl. unfold advance. rewrite Z.add_0_r. by destruct r.
  - apply Forall_cons in Hvs as [Hv Hvs]. unfold enc_values in *. rewrite ?fmap_cons, ?concat_cons in *.
    pose proof (reads_shift _ _ _ _ Hr) as Hv'. cbn [length readArgument_loop].
    unfold mbind at 1, js_bind at 1. erewrite readArgument_value by done.
    apply reads_next in Hv'. unfold mbind at 1, js_bind at 1.
    rewrite IH by done. by rewrite advance_advance, zlen_app.
Qed.

(** ** Properties *)

(** C34 Reading a frame ends: on any bytes, the bound on the loop's rounds is
    never what stops it (any larger bound gives the same outcome and state), and
    a reading that does not throw has consumed the whole frame. *)
Theorem readRecords_total pg bytes c k :
  readRecords_loop pg (length bytes + k) (c, Reader bytes 0) =
    readRecords_loop pg (length bytes) (c, Reader bytes 0) ∧
  (is_ok (readRecords pg bytes c).1 = true →
   remaining (readRecords_loop pg (length bytes) (c, Reader bytes 0)).2.2 <= 0).
Proof.
  split.
  - apply readRecords_loop_fuel. unfold remaining, zlen. simpl. lia.
  - unfold readRecords. destruct (readRecords_loop _ _ _) as [[[]|] [c' r']] eqn:E; [|done].
    intros _. by apply readRecords_loop_done in E.
Qed.

Lemma readRecords_total_witness :
  let bytes := [x04; x07; x00; x00; x00; x06; x07; x00; x00; x00; x02; x00; x00; x00] in
  let c := Channel [] 100 0 [] [] [] [] [] [] [] [] false false 1 false [] [] [] in
  is_ok (readRecords quiet_page bytes c).1 = true ∧
  remaining (readRecords_loop quiet_page (length bytes) (c, Reader bytes 0)).2.2 <= 0.
Proof.
  cbv zeta. split; [vm_compute; reflexivity|].
  apply (readRecords_total quiet_page _ _ 0). vm_compute. reflexivity.
Defined.

(** The argument reader inverts the writer: values written with [u16] and
    [writeValue] are read back by [readArguments] as the values the handler
    gets, leaving the channel untouched; text loses a leading byte order mark,
    which the fatal decoder strips. *)
Theorem readArguments_inverts_writer capacity vs c :
  0 <= capacity → zlen vs <= MAX_VALUES → Forall sendable vs →
  let bytes := result (writeValues vs (wr_u16 (zlen vs) (new_Writer capacity))) in
  readArguments (c, Reader bytes 0) = (Ok (received <$> vs), (c, Reader bytes (zlen bytes))).
Proof.
  intros Hcap Hn Hvs bytes. unfold MAX_VALUES in Hn. pose proof (zlen_nonneg vs).
  assert (bytes = le_split 2 (zlen vs) ++ enc_values vs) as ->.
  { apply writes_result, writes_values. rewrite <- (app_nil_l (le_split 2 _)).
    by apply writes_u16, writes_new. }
  unfold readArguments, rd_u16.
  pose proof (reads_shift _ _ _ _ (reads_start (le_split 2 (zlen vs) ++ enc_values vs))) as Hr.
  eapply (read_field 2 (zlen vs)) in Hr as [-> Hr]; [|lia].
  rewrite (proj2 (Z.ltb_ge _ _)) by (unfold MAX_VALUES; lia).
  unfold zlen at 1. rewrite Nat2Z.id. erewrite readArgument_loop_values by done.
  unfold advance. rewrite zlen_app, zlen_le_split. done.
Qed.

Lemma readArguments_inverts_writer_witness :
  let vs := [TNumber 4607182418800017408; TString (text_bytes "hi"); TBytes [x00; xff]; TNil] in
  let c := Channel [] 100 0 [] [] [] [] [] [] [] [] false false 1 false [] [] [] in
  let bytes := result (writeValues vs (wr_u16 (zlen vs) (new_Writer 8))) in
  readArguments (c, Reader bytes 0) =
    (Ok [HNumber 4607182418800017408; HString "hi"; HBytes [x00; xff]; HNull],
     (c, Reader bytes (zlen bytes))).
Proof.
  cbv zeta. apply (readArguments_inverts_writer 8
    [TNumber 4607182418800017408; TString (text_bytes "hi"); TBytes [x00; xff]; TNil]);
    [lia|done|].
  repeat constructor; done.
Defined.
