(* ===== verification/PortChannel.v ===== *)
(** The credit-controlled channel over a [MessagePort] pair,
    [src/runtime/wasm/channel.mjs].

    An endpoint is the closure state of [endpoint(...)]: the fields the code
    keeps in variables, with the packets it has posted and not yet handed to the
    port ([e_outbox]) and the callbacks it has run ([e_called]) as explicit
    output.  The [identities] table, shared by all endpoints of a thread, is
    threaded through creation, moving and adoption. *)

From S2P Require Import Prelude.

(** ** Data *)

Inductive dir := Sender | Receiver.

#[export] Instance dir_eq_dec : EqDecision dir.
Proof. solve_decision. Defined.

(** What may stand where a payload is expected: a [Uint8Array] over the whole
    of its own [ArrayBuffer], one over a part of it, or anything else. *)
Inductive payload :=
| Owned (bytes : list byte)
| Partial (bytes : list byte)
| Foreign.

(** A message of the port, by its [kind]. *)
Inductive packet :=
| PkValue (p : payload)
| PkCredit (messages bytes : jsval)
| PkEnd
| PkStop
| PkOther.

(** The entry of [identities] for a port. *)
Record identity := Identity { i_generation : jsval; i_claimed : bool }.

Record endpoint := Endpoint {
  e_port : Z;
  e_direction : dir;
  e_messages : Z;
  e_bytes : Z;
  e_live : bool;
  e_closed : bool;
  e_slots : Z;
  e_room : Z;
  e_retained : Z;
  e_queue : list (list byte);
  e_waiters : list Z;
  e_observers : list Z;
  e_listening : bool;
  e_open : bool;
  e_outbox : list packet;
  e_called : list Z
}.

(** [snapshot.queue]: absent, no array, or an array. *)
Inductive savedqueue := QAbsent | QNotArray | QArray (queue : list payload).

(** What [move] hands over and [endpoint] takes back; a snapshot that crossed a
    thread is unchecked. *)
Record snapshot := Snapshot {
  s_port : option Z;
  s_direction : string;
  s_messages : jsval;
  s_bytes : jsval;
  s_closed : jsval;
  s_slots : jsval;
  s_room : jsval;
  s_retained : jsval;
  s_queue : savedqueue;
  s_generation : jsval
}.

(** Field updates. *)
Definition set_flags (live closed listening open : bool) (e : endpoint) : endpoint :=
  Endpoint (e_port e) (e_direction e) (e_messages e) (e_bytes e) live closed (e_slots e) (e_room e)
    (e_retained e) (e_queue e) (e_waiters e) (e_observers e) listening open (e_outbox e) (e_called e).
Definition set_closed (e : endpoint) : endpoint :=
  set_flags (e_live e) true (e_listening e) (e_open e) e.
Definition set_credit (slots room : Z) (e : endpoint) : endpoint :=
  Endpoint (e_port e) (e_direction e) (e_messages e) (e_bytes e) (e_live e) (e_closed e) slots room
    (e_retained e) (e_queue e) (e_waiters e) (e_observers e) (e_listening e) (e_open e) (e_outbox e) (e_called e).
Definition set_queue (retained : Z) (queue : list (list byte)) (e : endpoint) : endpoint :=
  Endpoint (e_port e) (e_direction e) (e_messages e) (e_bytes e) (e_live e) (e_closed e) (e_slots e) (e_room e)
    retained queue (e_waiters e) (e_observers e) (e_listening e) (e_open e) (e_outbox e) (e_called e).
Definition set_callbacks (waiters observers : list Z) (e : endpoint) : endpoint :=
  Endpoint (e_port e) (e_direction e) (e_messages e) (e_bytes e) (e_live e) (e_closed e) (e_slots e) (e_room e)
    (e_retained e) (e_queue e) waiters observers (e_listening e) (e_open e) (e_outbox e) (e_called e).
Definition set_outbox (outbox : list packet) (e : endpoint) : endpoint :=
  Endpoint (e_port e) (e_direction e) (e_messages e) (e_bytes e) (e_live e) (e_closed e) (e_slots e) (e_room e)
    (e_retained e) (e_queue e) (e_waiters e) (e_observers e) (e_listening e) (e_open e) outbox (e_called e).
Definition set_called (called : list Z) (e : endpoint) : endpoint :=
  Endpoint (e_port e) (e_direction e) (e_messages e) (e_bytes e) (e_live e) (e_closed e) (e_slots e) (e_room e)
    (e_retained e) (e_queue e) (e_waiters e) (e_observers e) (e_listening e) (e_open e) (e_outbox e) called.

(** ** Creation *)

(** [limits(messages, bytes)]: both as positive safe integers. *)
Definition limits (messages bytes : jsval) : res (Z * Z) :=
  match to_safe messages, to_safe bytes with
  | Some m, Some b =>
      if (m <=? 0) || (b <=? 0) then Throw "channel limits must be positive safe integers" else Ok (m, b)
  | _, _ => Throw "channel limits must be positive safe integers"
  end.

(** [v ?? fallback]. *)
Definition nullish (v fallback : jsval) : jsval :=
  match v with VUndef | VNull => fallback | _ => v end.

(** [a === b] on values that crossed a port: two objects are never the same one. *)
Definition js_same (a b : jsval) : bool :=
  match a, b with
  | VNum NNaN, _ | VObj, _ => false
  | _, _ => bool_decide (a = b)
  end.

Definition direction_of (text : string) : option dir :=
  if bool_decide (text = "sender") then Some Sender
  else if bool_decide (text = "receiver") then Some Receiver else None.

(** A safe integer between 0 and [top]. *)
Definition within (v : jsval) (top : Z) : option Z :=
  match to_safe v with
  | Some z => if (z <? 0) || (top <? z) then None else Some z
  | None => None
  end.

Fixpoint queued_payloads (queued : list payload) : option (list (list byte)) :=
  match queued with
  | [] => Some []
  | Owned bytes :: queued' => (λ q, bytes :: q) <$> queued_payloads queued'
  | _ :: _ => None
  end.

Definition total_bytes (queue : list (list byte)) : Z := sumZ zlen queue.

(** [saved.queue ?? []], with its length check, and the accounting checks. *)
Definition checked_accounting (saved : snapshot) (messages bytes : Z) : res (list payload * Z * Z * Z) :=
  let queued := match s_queue saved with QAbsent => Some [] | QNotArray => None | QArray q => Some q end in
  match queued, within (nullish (s_slots saved) (VNum (NInt messages))) messages,
        within (nullish (s_room saved) (VNum (NInt bytes))) bytes,
        within (nullish (s_retained saved) (VNum (NInt 0))) bytes with
  | Some q, Some slots, Some room, Some retained =>
      if messages <? zlen q then Throw "invalid channel endpoint accounting" else Ok (q, slots, room, retained)
  | _, _, _, _ => Throw "invalid channel endpoint accounting"
  end.

(** The identity a port keeps or gets; its generation is checked only after a
    new one is recorded. *)
Definition claim (port : Z) (generation : jsval) : js (jmap Z identity) () :=
  ids ← gets id;
  match mget port ids with
  | Some i =>
      match to_safe (i_generation i) with
      | Some g => if g <? 1 then throw "invalid channel endpoint generation"
                  else modify (mset port (Identity (i_generation i) true))
      | None => throw "invalid channel endpoint generation"
      end
  | None =>
      let first := nullish generation (VNum (NInt 1)) in
      modify (mset port (Identity first false)) ;;
      match to_safe first with
      | Some g => if g <? 1 then throw "invalid channel endpoint generation"
                  else modify (mset port (Identity first true))
      | None => throw "invalid channel endpoint generation"
      end
  end.

(** [endpoint(port, direction, messages, bytes, saved)]: all the arguments are
    fields of the snapshot; [None] for the port is no [MessagePort]. *)
Definition create_endpoint (saved : snapshot) : js (jmap Z identity) endpoint :=
  '(messages, bytes) ← lift (limits (s_messages saved) (s_bytes saved));
  match s_port saved with
  | None => throw "a channel endpoint needs a MessagePort"
  | Some port =>
      match direction_of (s_direction saved) with
      | None => throw "invalid channel endpoint direction"
      | Some direction =>
          found ← gets (mget port);
          guard_js match found with
                   | Some i => i_claimed i || negb (js_same (s_generation saved) (i_generation i))
                   | None => false
                   end "invalid or stale channel endpoint transfer" ;;
          '(queued, slots, room, retained) ← lift (checked_accounting saved messages bytes);
          match queued_payloads queued with
          | None => throw "invalid queued channel payload"
          | Some queue =>
              guard_js (negb (total_bytes queue =? retained)
                        || (bool_decide (direction = Sender) && negb (zlen queue =? 0)))
                "invalid retained channel byte count" ;;
              claim port (s_generation saved) ;;
              mret (Endpoint port direction messages bytes true
                      (bool_decide (s_closed saved = VBool true))
                      slots room retained queue [] [] true true [] [])
          end
      end
  end.

(** ** Operations of an endpoint *)

(** [wake()]: the waiters once, then the observers. *)
Definition wake : js endpoint () := modify (λ e,
  set_called (e_called e ++ e_waiters e ++ e_observers e) (set_callbacks [] (e_observers e) e)).

(** [notify(message)]. *)
Definition notify (p : packet) : js endpoint () := modify (λ e, set_outbox (e_outbox e ++ [p]) e).

Definition close : js endpoint () :=
  live ← gets e_live;
  if negb live then mret tt else
  modify (λ e, set_queue 0 [] (set_flags false true (e_listening e) (e_open e) e)) ;;
  direction ← gets e_direction;
  notify (match direction with Sender => PkEnd | Receiver => PkStop end) ;;
  modify (λ e, set_flags false true false false e) ;;
  wake.

(** A credit the sender's accounting accepts, with its bytes. *)
Definition credit_of (messages bytes : jsval) (e : endpoint) : option Z :=
  if negb (bool_decide (messages = VNum (NInt 1))) then None
  else
    match to_safe bytes with
    | Some b =>
        if (b <? 0) || (e_messages e <? e_slots e + 1) || (e_bytes e <? e_room e + b) then None else Some b
    | None => None
    end.

(** A payload the receiver's accounting accepts. *)
Definition value_of (p : packet) (e : endpoint) : option (list byte) :=
  match p with
  | PkValue (Owned v) =>
      if e_closed e || (e_messages e <=? zlen (e_queue e)) || (e_bytes e <? e_retained e + zlen v)
      then None else Some v
  | _ => None
  end.

Definition arrived (p : packet) : js endpoint () :=
  e ← gets id;
  if negb (e_live e) then mret tt else
  match e_direction e with
  | Sender =>
      match p with
      | PkStop => modify set_closed ;; wake
      | PkCredit messages bytes =>
          if e_closed e then mret tt
          else
            match credit_of messages bytes e with
            | None => close
            | Some b => modify (set_credit (e_slots e + 1) (e_room e + b)) ;; wake
            end
      | _ => if e_closed e then mret tt else close
      end
  | Receiver =>
      match p with
      | PkEnd => modify set_closed ;; wake
      | _ =>
          match value_of p e with
          | None => close
          | Some v => modify (set_queue (e_retained e + zlen v) (e_queue e ++ [v])) ;; wake
          end
      end
  end.

Inductive send_status := Sent | SendClosed | SendFull.

(** [trySend] past its checks of the handle and of the payload's type;
    [post_fails] is what [port.postMessage] throws, if it does. *)
Definition send_bytes (v : list byte) (post_fails : option string) : js endpoint send_status :=
  e ← gets id;
  if e_bytes e <? zlen v then throw "channel payload exceeds its byte limit"
  else if e_closed e then mret SendClosed
  else if (e_slots e =? 0) || (e_room e <? zlen v) then mret SendFull
  else
    modify (set_credit (e_slots e - 1) (e_room e - zlen v)) ;;
    match post_fails with
    | Some error =>
        modify (λ e, set_credit (e_slots e + 1) (e_room e + zlen v) e) ;; close ;; throw error
    | None => notify (PkValue (Owned v)) ;; mret Sent
    end.

(** [trySend(payload)]: the copy that is posted owns its buffer. *)
Definition trySend (p : payload) (post_fails : option string) : js endpoint send_status :=
  e ← gets id;
  if bool_decide (e_direction e ≠ Sender) || negb (e_live e) then throw "invalid or moved sender" else
  match p with
  | Foreign => throw "channel payloads must be owned bytes"
  | Owned v | Partial v => send_bytes v post_fails
  end.

Inductive receive_status := Received (v : list byte) | Empty | RecvClosed.

Definition tryReceive : js endpoint receive_status :=
  e ← gets id;
  if bool_decide (e_direction e ≠ Receiver) || negb (e_live e) then throw "invalid or moved receiver" else
  match e_queue e with
  | v :: queue =>
      modify (set_queue (e_retained e - zlen v) queue) ;;
      when (negb (e_closed e)) (notify (PkCredit (VNum (NInt 1)) (VNum (NInt (zlen v))))) ;;
      mret (Received v)
  | [] => mret (if e_closed e then RecvClosed else Empty)
  end.

Definition peek : js endpoint receive_status :=
  e ← gets id;
  if bool_decide (e_direction e ≠ Receiver) || negb (e_live e) then throw "invalid or moved receiver" else
  match e_queue e with
  | v :: _ => mret (Received v)
  | [] => mret (if e_closed e then RecvClosed else Empty)
  end.

Definition add_once (c : Z) (s : list Z) : list Z := if decide (c ∈ s) then s else s ++ [c].
Definition remove_once (c : Z) (s : list Z) : list Z := filter (λ x, x ≠ c) s.

(** [subscribe(resume, requiredBytes)]; [None] is no function. The result says
    whether the callback waits (and so what the returned function removes). *)
Definition subscribe (resume : option Z) (requiredBytes : jsval) : js endpoint bool :=
  match resume with
  | None => throw "channel readiness needs a callback"
  | Some cb =>
      e ← gets id;
      match within (match requiredBytes with VUndef => VNum (NInt 0) | v => v end) (e_bytes e) with
      | None => throw "invalid channel wait size"
      | Some required =>
          let available := negb (e_live e) || e_closed e ||
            match e_direction e with
            | Sender => (0 <? e_slots e) && (required <=? e_room e)
            | Receiver => 0 <? zlen (e_queue e)
            end in
          if available then modify (λ e, set_called (e_called e ++ [cb]) e) ;; mret false
          else modify (λ e, set_callbacks (add_once cb (e_waiters e)) (e_observers e) e) ;; mret true
      end
  end.

Definition unsubscribe (cb : Z) : js endpoint () :=
  modify (λ e, set_callbacks (remove_once cb (e_waiters e)) (e_observers e) e).

Definition observe (callback : option Z) : js endpoint () :=
  match callback with
  | None => throw "channel observation needs a callback"
  | Some cb => modify (λ e, set_callbacks (e_waiters e) (add_once cb (e_observers e)) e)
  end.

Definition unobserve (cb : Z) : js endpoint () :=
  modify (λ e, set_callbacks (e_waiters e) (remove_once cb (e_observers e)) e).

Definition remoteClose : js endpoint () :=
  live ← gets e_live;
  if negb live then mret tt else modify set_closed ;; wake.

Definition direction_text (d : dir) : string := match d with Sender => "sender" | Receiver => "receiver" end.

(** [move()]: the snapshot, with the identity's next generation. *)
Definition move : js (jmap Z identity * endpoint) snapshot := λ s,
  let '(ids, e) := s in
  if negb (e_live e) || negb (zlen (e_waiters e) =? 0) || negb (zlen (e_observers e) =? 0)
  then (Throw "invalid or waiting channel endpoint", s)
  else
    let generation := match mget (e_port e) ids with
                      | Some i => default 0 (to_integer (i_generation i)) | None => 0 end in
    if generation =? MAX_SAFE_INTEGER
    then (Throw "channel endpoint generation exhausted", (ids, (close e).2))
    else
      let next := VNum (NInt (generation + 1)) in
      (Ok (Snapshot (Some (e_port e)) (direction_text (e_direction e)) (VNum (NInt (e_messages e)))
             (VNum (NInt (e_bytes e))) (VBool (e_closed e)) (VNum (NInt (e_slots e)))
             (VNum (NInt (e_room e))) (VNum (NInt (e_retained e))) (QArray (Owned <$> e_queue e)) next),
       (mset (e_port e) (Identity next false) ids,
        set_queue 0 [] (set_flags false (e_closed e) false (e_open e) e))).

Record inspection := Inspection {
  in_live : bool;
  in_closed : bool;
  in_queued : Z;
  in_retainedBytes : Z;
  in_availableMessages : Z;
  in_availableBytes : Z;
  in_waits : Z;
  in_observations : Z;
  in_ready : bool
}.

Definition inspect (e : endpoint) : inspection :=
  Inspection (e_live e) (e_closed e) (zlen (e_queue e)) (e_retained e) (e_slots e) (e_room e)
    (zlen (e_waiters e)) (zlen (e_observers e))
    (negb (e_live e) || e_closed e ||
     match e_direction e with Sender => 0 <? e_slots e | Receiver => 0 <? zlen (e_queue e) end).

(** A snapshot that saves nothing: [endpoint]'s default argument. *)
Definition unsaved (port : Z) (direction : string) (messages bytes : jsval) : snapshot :=
  Snapshot (Some port) direction messages bytes VUndef VUndef VUndef VUndef QAbsent VUndef.

(** [createPortChannel(messages, bytes)] on a fresh pair of ports. *)
Definition createPortChannel (messages bytes : jsval) (port1 port2 : Z)
    : js (jmap Z identity) (endpoint * endpoint) :=
  lift (limits messages bytes) ;;
  sender ← create_endpoint (unsaved port1 "sender" messages bytes);
  receiver ← create_endpoint (unsaved port2 "receiver" messages bytes);
  mret (sender, receiver).

(** [adoptPortEndpoint(snapshot)]; [None] is a falsy one. *)
Definition adoptPortEndpoint (s : option snapshot) : js (jmap Z identity) endpoint :=
  match s with
  | None => throw "invalid channel endpoint transfer"
  | Some s =>
      match s_closed s, s_queue s with
      | VBool _, QArray _ => create_endpoint s
      | _, _ => throw "invalid channel endpoint transfer"
      end
  end.

(** ** Well-formed endpoints *)

Record endpoint_wf (e : endpoint) : Prop := {
  wf_messages : 0 < e_messages e <= MAX_SAFE_INTEGER;
  wf_bytes : 0 < e_bytes e <= MAX_SAFE_INTEGER;
  wf_slots : 0 <= e_slots e <= e_messages e;
  wf_room : 0 <= e_room e <= e_bytes e;
  wf_retained : e_retained e = total_bytes (e_queue e) ∧ e_retained e <= e_bytes e;
  wf_queue : zlen (e_queue e) <= e_messages e;
  wf_sender : e_direction e = Sender → e_queue e = [];
  wf_dead : e_live e = false → e_queue e = []
}.

(** What the guest and the port can make an endpoint do. *)
Inductive endpoint_op :=
| OpArrived (p : packet)
| OpTrySend (p : payload) (post_fails : option string)
| OpTryReceive
| OpPeek
| OpSubscribe (resume : option Z) (requiredBytes : jsval)
| OpUnsubscribe (cb : Z)
| OpObserve (callback : option Z)
| OpUnobserve (cb : Z)
| OpRemoteClose
| OpClose.

Definition run_endpoint (op : endpoint_op) : js endpoint () :=
  match op with
  | OpArrived p => arrived p
  | OpTrySend p f => trySend p f ;; mret tt
  | OpTryReceive => tryReceive ;; mret tt
  | OpPeek => peek ;; mret tt
  | OpSubscribe r n => subscribe r n ;; mret tt
  | OpUnsubscribe cb => unsubscribe cb
  | OpObserve cb => observe cb
  | OpUnobserve cb => unobserve cb
  | OpRemoteClose => remoteClose
  | OpClose => close
  end.

Definition run_endpoint_ops (ops : list endpoint_op) (e : endpoint) : endpoint :=
  foldl (λ e op, (run_endpoint op e).2) e ops.

(** ** Lemmas of the endpoint *)

Lemma total_bytes_nonneg q : 0 <= total_bytes q.
Proof. apply sumZ_nonneg. intros. apply zlen_nonneg. Qed.

Lemma total_bytes_app q1 q2 : total_bytes (q1 ++ q2) = total_bytes q1 + total_bytes q2.
Proof. apply sumZ_app. Qed.

Lemma within_Some v top z : within v top = Some z → v = VNum (NInt z) ∧ 0 <= z <= top.
Proof.
  unfold within. destruct (to_safe v) eqn:E; [|done]. apply to_safe_Some in E as [-> ?].
  destruct (_ || _) eqn:B; [done|]. apply orb_false_iff in B as [?%Z.ltb_ge ?%Z.ltb_ge].
  intros [= ->]. auto.
Qed.

Lemma within_int z top : 0 <= z <= top → top <= MAX_SAFE_INTEGER → within (VNum (NInt z)) top = Some z.
Proof.
  intros. unfold within, to_safe. rewrite (proj2 (Z.leb_le _ _)) by lia.
  by rewrite !(proj2 (Z.ltb_ge _ _)) by lia.
Qed.

Lemma limits_Ok m b p :
  limits m b = Ok p →
  m = VNum (NInt p.1) ∧ b = VNum (NInt p.2) ∧
  0 < p.1 <= MAX_SAFE_INTEGER ∧ 0 < p.2 <= MAX_SAFE_INTEGER.
Proof.
  unfold limits. destruct (to_safe m) eqn:Em; [|done]. destruct (to_safe b) eqn:Eb; [|done].
  destruct (_ || _) eqn:B; [done|]. apply orb_false_iff in B as [?%Z.leb_gt ?%Z.leb_gt].
  intros [= <-]. apply to_safe_Some in Em as [-> ?], Eb as [-> ?]. simpl.
  repeat split; lia.
Qed.

Lemma limits_int m b :
  0 < m <= MAX_SAFE_INTEGER → 0 < b <= MAX_SAFE_INTEGER →
  limits (VNum (NInt m)) (VNum (NInt b)) = Ok (m, b).
Proof.
  intros. unfold limits, to_safe. rewrite !(proj2 (Z.leb_le (Z.abs _) _)) by lia.
  by rewrite !(proj2 (Z.leb_gt _ _)) by lia.
Qed.

(** A change of flags, callbacks or output is none of the accounting's. *)
Lemma wf_accounting e e' :
  e_messages e' = e_messages e → e_bytes e' = e_bytes e → e_slots e' = e_slots e →
  e_room e' = e_room e → e_retained e' = e_retained e → e_queue e' = e_queue e →
  e_direction e' = e_direction e → (e_live e' = false → e_live e = false) →
  endpoint_wf e → endpoint_wf e'.
Proof.
  intros Em Eb Es Er Et Eq Ed El []. split; rewrite ?Em, ?Eb, ?Es, ?Er, ?Et, ?Eq, ?Ed; auto.
Qed.

Ltac same_accounting := eapply wf_accounting; simpl; done.

Lemma wf_wake : preserves endpoint_wf wake.
Proof. intros e H. same_accounting. Qed.

Lemma wf_notify p : preserves endpoint_wf (notify p).
Proof. intros e H. same_accounting. Qed.

Lemma wf_close : preserves endpoint_wf close.
Proof.
  intros e H. unfold close, mbind, js_bind, gets. destruct (e_live e) eqn:E; [|done].
  destruct H. simpl. split; simpl; try done; [|rewrite zlen_nil; lia]. split; [done|lia].
Qed.

Lemma wf_credit e slots room :
  endpoint_wf e → 0 <= slots <= e_messages e → 0 <= room <= e_bytes e →
  endpoint_wf (set_credit slots room e).
Proof. intros [] ??. by split. Qed.

Lemma wf_push e v :
  endpoint_wf e → e_direction e = Receiver → e_live e = true →
  zlen (e_queue e) < e_messages e → e_retained e + zlen v <= e_bytes e →
  endpoint_wf (set_queue (e_retained e + zlen v) (e_queue e ++ [v]) e).
Proof.
  intros [? ? ? ? [Hr ?] ? ? ?] Hd Hl Hq Hb. split; simpl; try done; try congruence.
  - split; [|done]. rewrite total_bytes_app, Hr. unfold total_bytes at 3. simpl. lia.
  - rewrite zlen_app. unfold zlen in *. simpl. lia.
Qed.

Lemma wf_pop e v queue :
  endpoint_wf e → e_queue e = v :: queue → endpoint_wf (set_queue (e_retained e - zlen v) queue e).
Proof.
  intros [? ? ? ? [Hr ?] Hn Hs Hdd] E. rewrite E in *.
  change (total_bytes (v :: queue)) with (zlen v + total_bytes queue) in Hr.
  rewrite zlen_cons in Hn. pose proof (zlen_nonneg v). split; simpl; try done.
  - lia.
  - lia.
  - intros H'. by specialize (Hs H').
  - intros H'. by specialize (Hdd H').
Qed.

Lemma value_of_Some p e v :
  value_of p e = Some v →
  p = PkValue (Owned v) ∧ e_closed e = false ∧ zlen (e_queue e) < e_messages e ∧
  e_retained e + zlen v <= e_bytes e.
Proof.
  destruct p as [[w| |]| | | |]; simpl; try done. destruct (_ || _) eqn:B; [done|].
  rewrite !orb_false_iff in B. destruct B as [[? ?%Z.leb_gt] ?%Z.ltb_ge].
  intros [= ->]. auto.
Qed.

Lemma credit_of_Some m n e b :
  credit_of m n e = Some b →
  m = VNum (NInt 1) ∧ n = VNum (NInt b) ∧ 0 <= b ∧ e_slots e + 1 <= e_messages e ∧
  e_room e + b <= e_bytes e.
Proof.
  unfold credit_of. destruct (bool_decide_reflect (m = VNum (NInt 1))); [|done]. simpl.
  destruct (to_safe n) eqn:E; [|done]. apply to_safe_Some in E as [-> ?].
  destruct (_ || _) eqn:B; [done|]. rewrite !orb_false_iff in B.
  destruct B as [[?%Z.ltb_ge ?%Z.ltb_ge] ?%Z.ltb_ge]. intros [= ->]. auto.
Qed.

Lemma wf_arrived p : preserves endpoint_wf (arrived p).
Proof.
  intros e H. unfold arrived, mbind at 1, js_bind at 1, gets. simpl.
  destruct (e_live e) eqn:El; simpl; [|done].
  destruct (e_direction e) eqn:Ed.
  - destruct p as [q|m n| | |].
    1, 3, 5: (destruct (e_closed e); [done|by apply wf_close]).
    + destruct (e_closed e); [done|]. destruct (credit_of m n e) as [b|] eqn:Ec; [|by apply wf_close].
      apply credit_of_Some in Ec as (_ & _ & ? & ? & ?). apply wf_wake. destruct H. apply wf_credit; [done|lia..].
    + apply wf_wake. same_accounting.
  - assert (endpoint_wf (match value_of p e with
      | Some v => modify (set_queue (e_retained e + zlen v) (e_queue e ++ [v])) ;; wake
      | None => close end e).2).
    { destruct (value_of p e) as [v|] eqn:Ev; [|by apply wf_close].
      apply value_of_Some in Ev as (_ & _ & ? & ?). apply wf_wake. by apply wf_push. }
    destruct p; try done. apply wf_wake. same_accounting.
Qed.

Lemma wf_send_bytes v f : preserves endpoint_wf (send_bytes v f).
Proof.
  intros e H. unfold send_bytes, mbind at 1, js_bind at 1, gets, id.
  destruct (_ <? _); [done|]. destruct (e_closed e); [done|].
  destruct (_ || _) eqn:B; [done|]. apply orb_false_iff in B as [?%Z.eqb_neq ?%Z.ltb_ge].
  pose proof (zlen_nonneg v).
  assert (endpoint_wf (set_credit (e_slots e - 1) (e_room e - zlen v) e)) as Hc.
  { destruct H. apply wf_credit; [done|lia..]. }
  destruct f as [error|]; [|by apply (wf_notify _ _ Hc)].
  unfold mbind, js_bind, modify, throw. simpl.
  match goal with |- context [close ?e'] => assert (endpoint_wf e') as Hr;
    [|pose proof (wf_close e' Hr); by destruct (close e') as [[]]] end.
  destruct H. apply wf_credit; simpl; [done|lia..].
Qed.

Lemma wf_trySend p f : preserves endpoint_wf (trySend p f).
Proof.
  intros e H. unfold trySend, mbind at 1, js_bind at 1, gets, id.
  destruct (_ || _); [done|]. destruct p; [by apply wf_send_bytes..|done].
Qed.

Lemma wf_tryReceive : preserves endpoint_wf tryReceive.
Proof.
  intros e H. unfold tryReceive, mbind at 1, js_bind at 1, gets. simpl.
  destruct (_ || _); [done|]. destruct (e_queue e) as [|v queue] eqn:E; [done|].
  pose proof (wf_pop e v queue H E) as Hp.
  unfold mbind, js_bind, modify, when. simpl. destruct (e_closed e); simpl; [done|].
  exact (wf_notify _ _ Hp).
Qed.

Lemma wf_peek : preserves endpoint_wf peek.
Proof.
  intros e H. unfold peek, mbind at 1, js_bind at 1, gets. simpl.
  destruct (_ || _); [done|]. by destruct (e_queue e).
Qed.

Lemma wf_subscribe r n : preserves endpoint_wf (subscribe r n).
Proof.
  intros e H. unfold subscribe. destruct r; [|done]. unfold mbind at 1, js_bind at 1, gets. simpl.
  destruct (within _ _); [|done]. destruct (_ || _); same_accounting.
Qed.

Lemma wf_remoteClose : preserves endpoint_wf remoteClose.
Proof.
  intros e H. unfold remoteClose, mbind, js_bind, gets. destruct (e_live e) eqn:E; [|done].
  same_accounting.
Qed.

#[export] Hint Resolve wf_wake wf_notify wf_close wf_arrived wf_trySend wf_tryReceive wf_peek
  wf_subscribe wf_remoteClose : jsinv.

Lemma wf_run_endpoint op : preserves endpoint_wf (run_endpoint op).
Proof.
  destruct op; simpl; preserve.
  - intros e H. same_accounting.
  - destruct callback; [|apply preserves_throw]. intros e H. same_accounting.
  - intros e H. same_accounting.
Qed.

Lemma wf_run_endpoint_ops ops e : endpoint_wf e → endpoint_wf (run_endpoint_ops ops e).
Proof.
  unfold run_endpoint_ops. revert e. induction ops as [|op ops IH]; intros e H; simpl; [done|].
  apply IH. by apply wf_run_endpoint.
Qed.

(** ** Creating, moving and adopting *)

Lemma checked_accounting_Ok saved m b q slots room retained :
  checked_accounting saved m b = Ok (q, slots, room, retained) →
  0 <= slots <= m ∧ 0 <= room <= b ∧ 0 <= retained <= b ∧ zlen q <= m.
Proof.
  unfold checked_accounting. set (queued := match s_queue saved with QAbsent => Some [] | _ => _ end).
  destruct queued; [|done]. destruct (within _ m) eqn:E1; [|done].
  destruct (within (nullish (s_room saved) _) b) eqn:E2; [|done].
  destruct (within (nullish (s_retained saved) _) b) eqn:E3; [|done].
  destruct (Z.ltb_spec m (zlen l)); [done|]. intros [= <- <- <- <-].
  apply within_Some in E1 as [_ ?], E2 as [_ ?], E3 as [_ ?]. auto.
Qed.

Lemma queued_payloads_zlen q queue : queued_payloads q = Some queue → zlen queue = zlen q.
Proof.
  revert queue. induction q as [|p q IH]; simpl; intros queue H; [by injection H as <-|].
  destruct p; [|done..]. destruct (queued_payloads q) as [l|]; [|done].
  injection H as <-. rewrite !zlen_cons. by rewrite (IH l).
Qed.

Lemma queued_payloads_owned queue : queued_payloads (Owned <$> queue) = Some queue.
Proof.
  induction queue as [|v q IH]; [done|]. rewrite fmap_cons. cbn [queued_payloads]. by rewrite IH.
Qed.

Lemma claim_Ok port g ids u ids' :
  claim port g ids = (Ok u, ids') →
  ∃ n, 1 <= n <= MAX_SAFE_INTEGER ∧ mget port ids' = Some (Identity (VNum (NInt n)) true).
Proof.
  unfold claim. intros H. unfold mbind, js_bind, gets, modify, throw in H. simpl in H.
  destruct (mget port ids) as [i|].
  - destruct (to_safe (i_generation i)) as [n|] eqn:E; [|done].
    destruct (Z.ltb_spec n 1); [done|]. simplify_eq. apply to_safe_Some in E as [-> ?].
    exists n. split; [lia|]. apply mget_mset_eq.
  - destruct (to_safe (nullish g _)) as [n|] eqn:E; [|done].
    destruct (Z.ltb_spec n 1); [done|]. simplify_eq. apply to_safe_Some in E as [-> ?].
    exists n. split; [lia|]. apply mget_mset_eq.
Qed.

(** An endpoint that is created is well formed, whatever the snapshot claimed,
    and holds its port. *)
Lemma create_endpoint_Ok saved ids e ids' :
  create_endpoint saved ids = (Ok e, ids') →
  endpoint_wf e ∧ e_live e = true ∧ s_port saved = Some (e_port e) ∧ e_waiters e = [] ∧
  e_observers e = [] ∧ e_outbox e = [] ∧
  (∃ n, 1 <= n <= MAX_SAFE_INTEGER ∧ mget (e_port e) ids' = Some (Identity (VNum (NInt n)) true)) ∧
  limits (s_messages saved) (s_bytes saved) = Ok (e_messages e, e_bytes e) ∧
  direction_of (s_direction saved) = Some (e_direction e) ∧
  ∃ q, checked_accounting saved (e_messages e) (e_bytes e) = Ok (q, e_slots e, e_room e, e_retained e).
Proof.
  unfold create_endpoint. intros H. apply bind_Ok in H as ([m b] & s1 & H1 & H).
  unfold lift in H1. injection H1 as H1 <-. pose proof H1 as (_ & _ & Hm & Hb)%limits_Ok. simpl in Hm, Hb.
  destruct (s_port saved) as [port|]; [|done]. destruct (direction_of _) as [d|]; [|done].
  apply bind_Ok in H as (found & s2 & H2 & H). injection H2 as _ <-.
  apply bind_Ok in H as (? & s3 & H3 & H). apply guard_Ok in H3 as [_ ->].
  apply bind_Ok in H as ([[[q slots] room] retained] & s4 & H4 & H).
  unfold lift in H4. injection H4 as H4 <-. pose proof H4 as (Ha1 & Ha2 & Ha3 & Ha4)%checked_accounting_Ok.
  destruct (queued_payloads q) as [queue|] eqn:Eq; [|done]. apply queued_payloads_zlen in Eq.
  apply bind_Ok in H as (? & s5 & H5 & H). apply guard_Ok in H5 as [H5 ->].
  apply orb_false_iff in H5 as [Ht%negb_false_iff%Z.eqb_eq Hd].
  apply bind_Ok in H as (? & s6 & H6 & H). injection H as <- <-. apply claim_Ok in H6 as (n & ? & ?).
  split; [|repeat (split; [done|]); split; [by exists n|]; repeat (split; [done|]); by exists q].
  split; simpl; try done; try lia.
  intros ->. rewrite bool_decide_true in Hd by done. simpl in Hd.
  apply negb_false_iff, Z.eqb_eq in Hd. by destruct queue.
Qed.

(** A new endpoint on a port never seen. *)
Lemma create_unsaved port d m b ids :
  0 < m <= MAX_SAFE_INTEGER → 0 < b <= MAX_SAFE_INTEGER → mget port ids = None →
  create_endpoint (unsaved port (direction_text d) (VNum (NInt m)) (VNum (NInt b))) ids =
    (Ok (Endpoint port d m b true false m b 0 [] [] [] true true [] []),
     mset port (Identity (VNum (NInt 1)) true) (mset port (Identity (VNum (NInt 1)) false) ids)).
Proof.
  intros Hm Hb Hi. unfold create_endpoint. cbn [s_messages s_bytes unsaved].
  rewrite limits_int by done. erewrite bind_run by done. cbn [s_port s_direction unsaved].
  assert (direction_of (direction_text d) = Some d) as -> by (by destruct d).
  erewrite bind_run by done. rewrite Hi. erewrite bind_run by done.
  unfold checked_accounting. cbn [s_queue s_slots s_room s_retained unsaved nullish].
  rewrite !within_int by lia. rewrite (proj2 (Z.ltb_ge _ _)) by (rewrite zlen_nil; lia).
  erewrite bind_run by done. cbv beta iota. cbn [queued_payloads].
  erewrite bind_run by (apply guard_run; by destruct d).
  unfold claim, mbind, js_bind, gets, modify, id. by rewrite Hi.
Qed.

(** What moving keeps of an endpoint; its callbacks are gone and its log starts
    afresh with the new owner. *)
Definition adopted (e : endpoint) : endpoint :=
  Endpoint (e_port e) (e_direction e) (e_messages e) (e_bytes e) true (e_closed e) (e_slots e) (e_room e)
    (e_retained e) (e_queue e) [] [] true true [] [].

(** An endpoint that may move: live, with nothing waiting on it, and not at its
    last generation. *)
Definition movable (e : endpoint) (g : Z) (ids : jmap Z identity) : Prop :=
  e_live e = true ∧ e_waiters e = [] ∧ e_observers e = [] ∧
  mget (e_port e) ids = Some (Identity (VNum (NInt g)) true) ∧ 1 <= g < MAX_SAFE_INTEGER.

Definition moved_snapshot (e : endpoint) (g : Z) : snapshot :=
  Snapshot (Some (e_port e)) (direction_text (e_direction e)) (VNum (NInt (e_messages e)))
    (VNum (NInt (e_bytes e))) (VBool (e_closed e)) (VNum (NInt (e_slots e)))
    (VNum (NInt (e_room e))) (VNum (NInt (e_retained e))) (QArray (Owned <$> e_queue e))
    (VNum (NInt (g + 1))).

Lemma move_run e g ids :
  movable e g ids →
  move (ids, e) =
    (Ok (moved_snapshot e g),
     (mset (e_port e) (Identity (VNum (NInt (g + 1))) false) ids,
      set_queue 0 [] (set_flags false (e_closed e) false (e_open e) e))).
Proof.
  intros (Hl & Hw & Ho & Hi & Hg). unfold move. rewrite Hl, Hw, Ho, Hi. simpl.
  by rewrite (proj2 (Z.eqb_neq _ _)) by lia.
Qed.

(** The table that adopts: the one the endpoint left, or one of a thread that
    has never seen the port. *)
Definition awaits (port g : Z) (ids : jmap Z identity) : Prop :=
  mget port ids = Some (Identity (VNum (NInt g)) false) ∨ mget port ids = None.

Lemma checked_accounting_moved e g :
  endpoint_wf e →
  checked_accounting (moved_snapshot e g) (e_messages e) (e_bytes e) =
    Ok (Owned <$> e_queue e, e_slots e, e_room e, e_retained e).
Proof.
  intros []. pose proof (total_bytes_nonneg (e_queue e)). unfold checked_accounting. simpl.
  rewrite !within_int by lia. by rewrite (proj2 (Z.ltb_ge _ _)) by (unfold zlen in *; rewrite length_fmap; lia).
Qed.

Lemma claim_awaits port g ids :
  awaits port g ids → 1 <= g <= MAX_SAFE_INTEGER →
  ∃ ids', claim port (VNum (NInt g)) ids = (Ok tt, ids') ∧
          mget port ids' = Some (Identity (VNum (NInt g)) true).
Proof.
  intros Ha Hg. assert (to_safe (VNum (NInt g)) = Some g) as Hs.
  { unfold to_safe. by rewrite (proj2 (Z.leb_le _ _)) by lia. }
  exists (mset port (Identity (VNum (NInt g)) true)
           (match mget port ids with Some _ => ids | None => mset port (Identity (VNum (NInt g)) false) ids end)).
  split; [|apply mget_mset_eq]. unfold claim, mbind, js_bind, gets, modify, id.
  destruct Ha as [->| ->]; cbn [i_generation nullish]; rewrite Hs; by rewrite (proj2 (Z.ltb_ge _ _)) by lia.
Qed.

Lemma adopt_run e g ids :
  endpoint_wf e → 1 <= g < MAX_SAFE_INTEGER → awaits (e_port e) (g + 1) ids →
  ∃ ids', adoptPortEndpoint (Some (moved_snapshot e g)) ids = (Ok (adopted e), ids') ∧
          mget (e_port e) ids' = Some (Identity (VNum (NInt (g + 1))) true).
Proof.
  intros Hwf Hg Ha. pose proof Hwf as [Hm Hb _ _ [Ht _] _ Hs _].
  destruct (claim_awaits (e_port e) (g + 1) ids Ha ltac:(lia)) as (ids' & Hc & Hi).
  exists ids'. split; [|done]. unfold adoptPortEndpoint. simpl. unfold create_endpoint. cbn [s_messages s_bytes moved_snapshot].
  rewrite limits_int by done. erewrite bind_run by done. cbn [s_port s_direction moved_snapshot].
  assert (direction_of (direction_text (e_direction e)) = Some (e_direction e)) as ->.
  { by destruct (e_direction e). }
  erewrite bind_run by done. erewrite bind_run by (apply guard_run; destruct Ha as [->| ->]; simpl; [|done];
    by rewrite bool_decide_true).
  rewrite checked_accounting_moved by done. erewrite bind_run by done.
  cbv beta iota. rewrite queued_payloads_owned. erewrite bind_run.
  2: { apply guard_run. rewrite (proj2 (Z.eqb_eq _ _)) by done. simpl.
       case_bool_decide as Hd; [|done]. by rewrite (Hs Hd). }
  erewrite bind_run by done. unfold adopted. simpl. by destruct (e_closed e).
Qed.

(** A port that is claimed is adopted by nobody else. *)
Lemma adopt_claimed e g i ids :
  endpoint_wf e → mget (e_port e) ids = Some (Identity i true) →
  adoptPortEndpoint (Some (moved_snapshot e g)) ids =
    (Throw "invalid or stale channel endpoint transfer", ids).
Proof.
  intros [Hm Hb _ _ _ _ _ _] Hi. unfold adoptPortEndpoint. simpl. unfold create_endpoint.
  cbn [s_messages s_bytes moved_snapshot]. rewrite limits_int by done. erewrite bind_run by done.
  cbn [s_port s_direction moved_snapshot].
  assert (direction_of (direction_text (e_direction e)) = Some (e_direction e)) as ->.
  { by destruct (e_direction e). }
  erewrite bind_run by done. unfold mbind at 1, js_bind at 1. by rewrite Hi.
Qed.

(** ** Properties *)

(** An endpoint adopted from any snapshot, a forged one included, keeps its
    accounting through any sequence of operations and of packets, whatever the
    peer sends: credits stay between zero and the limits, the queue stays within
    both limits with its bytes counted exactly, a sender and a dead endpoint
    queue nothing. *)
Theorem endpoint_accounting_safe s ids e ids' ops :
  adoptPortEndpoint s ids = (Ok e, ids') → endpoint_wf (run_endpoint_ops ops e).
Proof.
  intros H. apply wf_run_endpoint_ops. unfold adoptPortEndpoint in H.
  destruct s as [s|]; [|done]. destruct (s_closed s); try done. destruct (s_queue s); try done.
  by apply create_endpoint_Ok in H as [? _].
Qed.

Lemma endpoint_accounting_safe_witness :
  let s := Snapshot (Some 5) "receiver" (VNum (NInt 2)) (VNum (NInt 8)) (VBool false) (VNum (NInt 2))
             (VNum (NInt 8)) (VNum (NInt 3)) (QArray [Owned [x01; x02; x03]]) (VNum (NInt 4)) in
  match adoptPortEndpoint (Some s) [] with
  | (Ok e, _) =>
      endpoint_wf (run_endpoint_ops [OpArrived (PkValue (Owned [x00; x00; x00; x00; x00]));
                                     OpTryReceive; OpArrived (PkValue (Partial [x00]))] e)
  | _ => False
  end.
Proof.
  cbv zeta. destruct (adoptPortEndpoint _ _) as [[e|] ids'] eqn:E; [|by vm_compute in E].
  by eapply (endpoint_accounting_safe _ [] e ids').
Defined.

(** Moving an endpoint and adopting its snapshot gives the endpoint back, with
    its queue, credits and closed flag, in the thread it left or in a new one;
    the old handle is dead and empty, and the same snapshot cannot be adopted
    twice. *)
Theorem move_adopt_roundtrip e g ids :
  endpoint_wf e → movable e g ids →
  ∃ snap ids1 old ids2 ids3,
    move (ids, e) = (Ok snap, (ids1, old)) ∧
    e_live old = false ∧ e_queue old = [] ∧ e_listening old = false ∧
    adoptPortEndpoint (Some snap) ids1 = (Ok (adopted e), ids2) ∧
    adoptPortEndpoint (Some snap) [] = (Ok (adopted e), ids3) ∧
    adoptPortEndpoint (Some snap) ids2 = (Throw "invalid or stale channel endpoint transfer", ids2).
Proof.
  intros Hwf Hm. pose proof Hm as (_ & _ & _ & _ & Hg).
  destruct (adopt_run e g (mset (e_port e) (Identity (VNum (NInt (g + 1))) false) ids)) as (ids2 & H2 & H2');
    [done..|left; apply mget_mset_eq|].
  destruct (adopt_run e g []) as (ids3 & H3 & _); [done..|by right|].
  do 5 eexists. split; [by apply move_run|]. do 3 (split; [done|]).
  split; [done|]. split; [done|]. by eapply adopt_claimed.
Qed.

Lemma move_adopt_roundtrip_witness :
  let e := Endpoint 7 Receiver 4 64 true false 4 64 2 [[x01]; [x02]] [] [] true true [] [] in
  let ids := [(7, Identity (VNum (NInt 1)) true)] in
  ∃ snap ids1 old ids2 ids3,
    move (ids, e) = (Ok snap, (ids1, old)) ∧
    e_live old = false ∧ e_queue old = [] ∧ e_listening old = false ∧
    adoptPortEndpoint (Some snap) ids1 = (Ok (adopted e), ids2) ∧
    adoptPortEndpoint (Some snap) [] = (Ok (adopted e), ids3) ∧
    adoptPortEndpoint (Some snap) ids2 = (Throw "invalid or stale channel endpoint transfer", ids2).
Proof.
  cbv zeta. apply (move_adopt_roundtrip _ 1).
  - split; vm_compute; intuition congruence.
  - repeat split; vm_compute; congruence.
Defined.
