(* ===== verification/PortPair.v ===== *)
(** A sender and a receiver joined by a [MessagePort] pair: the protocol that
    [src/runtime/wasm/channel.mjs] runs between two guests.

    Each direction of the pair is a queue of packets that have been posted and
    not delivered.  The guests may send, receive, wait and close their endpoints
    in any order, and the ports deliver in any interleaving; endpoints that move
    are in [PortMove]. *)

From S2P Require Import Prelude PortChannel.

(** ** The pair *)

(** The two endpoints with their threads' identity tables, the two wires, and
    as history the payloads [trySend] accepted and [tryReceive] returned and
    whether the receiver was closed from outside ([remoteClose]). *)
Record pair := Pair {
  y_sender : endpoint;
  y_receiver : endpoint;
  y_sids : jmap Z identity;
  y_rids : jmap Z identity;
  y_s2r : list packet;
  y_r2s : list packet;
  y_accepted : list (list byte);
  y_received : list (list byte);
  y_revoked : bool
}.

(** An endpoint's new state; what it posted goes to its port. *)
Definition upd_sender (e : endpoint) (y : pair) : pair :=
  Pair (set_outbox [] e) (y_receiver y) (y_sids y) (y_rids y) (y_s2r y ++ e_outbox e) (y_r2s y)
    (y_accepted y) (y_received y) (y_revoked y).
Definition upd_receiver (e : endpoint) (y : pair) : pair :=
  Pair (y_sender y) (set_outbox [] e) (y_sids y) (y_rids y) (y_s2r y) (y_r2s y ++ e_outbox e)
    (y_accepted y) (y_received y) (y_revoked y).

Definition on_sender {A} (m : js endpoint A) : js pair A := λ y,
  let '(r, e) := m (y_sender y) in (r, upd_sender e y).
Definition on_receiver {A} (m : js endpoint A) : js pair A := λ y,
  let '(r, e) := m (y_receiver y) in (r, upd_receiver e y).

Definition set_ids (sids rids : jmap Z identity) (y : pair) : pair :=
  Pair (y_sender y) (y_receiver y) sids rids (y_s2r y) (y_r2s y) (y_accepted y) (y_received y) (y_revoked y).
Definition set_wires (s2r r2s : list packet) (y : pair) : pair :=
  Pair (y_sender y) (y_receiver y) (y_sids y) (y_rids y) s2r r2s (y_accepted y) (y_received y) (y_revoked y).
Definition set_history (accepted received : list (list byte)) (revoked : bool) (y : pair) : pair :=
  Pair (y_sender y) (y_receiver y) (y_sids y) (y_rids y) (y_s2r y) (y_r2s y) accepted received revoked.

Definition payload_bytes (p : payload) : list byte :=
  match p with Owned v | Partial v => v | Foreign => [] end.

Definition pair_send (p : payload) (f : option string) : js pair () :=
  r ← on_sender (trySend p f);
  match r with
  | Sent => modify (λ y, set_history (y_accepted y ++ [payload_bytes p]) (y_received y) (y_revoked y) y)
  | _ => mret tt
  end.

Definition pair_receive : js pair () :=
  r ← on_receiver tryReceive;
  match r with
  | Received v => modify (λ y, set_history (y_accepted y) (y_received y ++ [v]) (y_revoked y) y)
  | _ => mret tt
  end.

(** The port delivers its oldest packet. *)
Definition deliver_to_receiver : js pair () := λ y,
  match y_s2r y with
  | [] => (Ok tt, y)
  | p :: s2r => on_receiver (arrived p) (set_wires s2r (y_r2s y) y)
  end.
Definition deliver_to_sender : js pair () := λ y,
  match y_r2s y with
  | [] => (Ok tt, y)
  | p :: r2s => on_sender (arrived p) (set_wires (y_s2r y) r2s y)
  end.

(** Subscriptions and observations. *)
Inductive wait_op :=
| Subscribe (resume : option Z) (requiredBytes : jsval)
| Unsubscribe (cb : Z)
| Observe (callback : option Z)
| Unobserve (cb : Z).

Definition run_wait (w : wait_op) : js endpoint () :=
  match w with
  | Subscribe r n => subscribe r n ;; mret tt
  | Unsubscribe cb => unsubscribe cb
  | Observe cb => observe cb
  | Unobserve cb => unobserve cb
  end.

Inductive pair_op :=
| Send (p : payload) (post_fails : option string)
| Receive
| ToReceiver
| ToSender
| SenderWaits (w : wait_op)
| ReceiverWaits (w : wait_op)
| CloseSender
| CloseReceiver
| RevokeSender
| RevokeReceiver.

Definition run_pair_op (op : pair_op) : js pair () :=
  match op with
  | Send p f => pair_send p f
  | Receive => pair_receive
  | ToReceiver => deliver_to_receiver
  | ToSender => deliver_to_sender
  | SenderWaits w => on_sender (run_wait w)
  | ReceiverWaits w => on_receiver (run_wait w)
  | CloseSender => on_sender close
  | CloseReceiver => on_receiver close
  | RevokeSender => on_sender remoteClose
  | RevokeReceiver =>
      modify (λ y, set_history (y_accepted y) (y_received y) true y) ;; on_receiver remoteClose
  end.

Fixpoint run_pair (ops : list pair_op) (y : pair) : pair :=
  match ops with
  | [] => y
  | op :: ops' => run_pair ops' (run_pair_op op y).2
  end.

(** [createPortChannel] on ports 1 and 2 in one thread. *)
Definition start_pair (messages bytes : jsval) : res pair :=
  match createPortChannel messages bytes 1 2 [] with
  | (Ok (s, r), ids) => Ok (Pair s r ids ids [] [] [] [] false)
  | (Throw e, _) => Throw e
  end.

(** ** The protocol's invariant *)

Definition values (vs : list (list byte)) : list packet := (λ v, PkValue (Owned v)) <$> vs.
Definition credits (cs : list Z) : list packet := (λ n, PkCredit (VNum (NInt 1)) (VNum (NInt n))) <$> cs.
Definition claimed (e : endpoint) (ids : jmap Z identity) : Prop :=
  e_live e = true →
  ∃ n, 1 <= n <= MAX_SAFE_INTEGER ∧ mget (e_port e) ids = Some (Identity (VNum (NInt n)) true).

Record side_ok (d : dir) (m b : Z) (e : endpoint) (ids : jmap Z identity) : Prop := {
  side_wf : endpoint_wf e;
  side_dir : e_direction e = d;
  side_messages : e_messages e = m;
  side_bytes : e_bytes e = b;
  side_outbox : e_outbox e = [];
  side_claimed : claimed e ids
}.

(** Values [vs], then perhaps the end, are on the way to the receiver; credits
    [cs], then perhaps the stop, to the sender. *)
Record wires_ok (m b : Z) (y : pair) (vs : list (list byte)) (ended : bool) (cs : list Z)
    (stopped : bool) : Prop := {
  w_s2r : y_s2r y = values vs ++ (if ended then [PkEnd] else []);
  w_r2s : y_r2s y = credits cs ++ (if stopped then [PkStop] else []);
  w_cs : Forall (λ n, 0 <= n) cs;
  w_sender_live : e_live (y_sender y) = true → ended = false;
  w_receiver_live : e_live (y_receiver y) = true → stopped = false;
  w_end : e_live (y_sender y) = false → e_live (y_receiver y) = true →
    e_closed (y_receiver y) = false → ended = true;
  w_closed : e_live (y_receiver y) = true → e_closed (y_receiver y) = true → y_revoked y = false →
    e_live (y_sender y) = false ∧ vs = [] ∧ ended = false;
  w_fifo : e_live (y_receiver y) = true → y_accepted y = y_received y ++ e_queue (y_receiver y) ++ vs;
  w_prefix : y_received y `prefix_of` y_accepted y;
  w_bound : e_live (y_receiver y) = true →
    zlen (e_queue (y_receiver y)) + zlen vs <= m ∧
    total_bytes (e_queue (y_receiver y)) + total_bytes vs <= b;
  w_le : e_live (y_sender y) = true → e_closed (y_sender y) = false →
    e_slots (y_sender y) + zlen vs + zlen (e_queue (y_receiver y)) + zlen cs <= m ∧
    e_room (y_sender y) + total_bytes vs + total_bytes (e_queue (y_receiver y)) + sumZ id cs <= b;
  w_eq : e_live (y_sender y) = true → e_closed (y_sender y) = false →
    e_live (y_receiver y) = true → e_closed (y_receiver y) = false →
    e_slots (y_sender y) + zlen vs + zlen (e_queue (y_receiver y)) + zlen cs = m ∧
    e_room (y_sender y) + total_bytes vs + total_bytes (e_queue (y_receiver y)) + sumZ id cs = b
}.

Definition pair_inv (m b : Z) (y : pair) : Prop :=
  side_ok Sender m b (y_sender y) (y_sids y) ∧ side_ok Receiver m b (y_receiver y) (y_rids y) ∧
  ∃ vs ended cs stopped, wires_ok m b y vs ended cs stopped.

(** ** Lemmas *)

Lemma total_bytes_cons v q : total_bytes (v :: q) = zlen v + total_bytes q.
Proof. done. Qed.

Lemma total_bytes_nil : total_bytes [] = 0.
Proof. done. Qed.

Lemma values_snoc vs v : values vs ++ [PkValue (Owned v)] = values (vs ++ [v]).
Proof. unfold values. by rewrite fmap_app. Qed.

Lemma credits_snoc cs n : credits cs ++ [PkCredit (VNum (NInt 1)) (VNum (NInt n))] = credits (cs ++ [n]).
Proof. unfold credits. by rewrite fmap_app. Qed.

Lemma sum_snoc cs n : sumZ id (cs ++ [n]) = sumZ id cs + n.
Proof. rewrite sumZ_app. simpl. unfold id. lia. Qed.

Lemma total_snoc vs v : total_bytes (vs ++ [v]) = total_bytes vs + zlen v.
Proof. rewrite total_bytes_app. unfold total_bytes at 2. simpl. lia. Qed.

Lemma zlen_snoc {A} (l : list A) x : zlen (l ++ [x]) = zlen l + 1.
Proof. by rewrite zlen_app. Qed.

Lemma sum_nonneg cs : Forall (λ n, 0 <= n) cs → 0 <= sumZ id cs.
Proof. intros H. apply sumZ_nonneg. intros x Hx. by eapply Forall_forall in H. Qed.

(** Rewrites the sizes of queues that grew or shrank by one. *)
Ltac sizes :=
  repeat (rewrite ?zlen_snoc, ?zlen_cons, ?zlen_nil, ?total_snoc, ?total_bytes_cons, ?total_bytes_nil,
            ?sum_snoc in * ).

(** Side conditions of a step: booleans decided, sizes counted. *)
Ltac wires := simpl in *; intros; simplify_eq; try done; sizes; try lia; try naive_solver lia.

(** A step of one endpoint that keeps its accounting, its flags and its silence. *)
Definition same_side (e e' : endpoint) : Prop :=
  e_port e' = e_port e ∧ e_direction e' = e_direction e ∧ e_messages e' = e_messages e ∧
  e_bytes e' = e_bytes e ∧ e_live e' = e_live e ∧ e_closed e' = e_closed e ∧ e_slots e' = e_slots e ∧
  e_room e' = e_room e ∧ e_retained e' = e_retained e ∧ e_queue e' = e_queue e ∧ e_outbox e' = e_outbox e.

Lemma side_ok_same d m b e e' ids : same_side e e' → side_ok d m b e ids → side_ok d m b e' ids.
Proof.
  intros (Hp & ? & ? & ? & Hl & ? & ? & ? & ? & ? & ?) []. split; try congruence.
  - apply (wf_accounting e); try done. congruence.
  - unfold claimed. by rewrite Hl, Hp.
Qed.

Lemma wait_same w e : same_side e (run_wait w e).2.
Proof.
  destruct w as [r n|cb|cb|cb]; simpl; [|done| |done].
  - unfold subscribe. destruct r as [cb|]; [|done]. unfold mbind, js_bind, gets. simpl.
    destruct (within _ _); [|done]. by destruct (_ || _).
  - by destruct cb.
Qed.

(** [wires_ok] looks at the endpoints' accounting only. *)
Lemma wires_ok_same m b y y' vs ended cs stopped :
  same_side (y_sender y) (y_sender y') → same_side (y_receiver y) (y_receiver y') →
  y_s2r y' = y_s2r y → y_r2s y' = y_r2s y → y_accepted y' = y_accepted y →
  y_received y' = y_received y → y_revoked y' = y_revoked y →
  wires_ok m b y vs ended cs stopped → wires_ok m b y' vs ended cs stopped.
Proof.
  intros (_ & _ & _ & _ & S1 & S2 & S3 & S4 & _ & S5 & _) (_ & _ & _ & _ & R1 & R2 & R3 & R4 & _ & R5 & _)
    E1 E2 E3 E4 E5 [].
  split; rewrite ?S1, ?S2, ?S3, ?S4, ?S5, ?R1, ?R2, ?R3, ?R4, ?R5, ?E1, ?E2, ?E3, ?E4, ?E5; auto.
Qed.

(** Flushing an endpoint that posted nothing. *)
Lemma flush_same e e' :
  same_side e e' → e_outbox e = [] → same_side e (set_outbox [] e') ∧ e_outbox e' = [].
Proof. intros (? & ? & ? & ? & ? & ? & ? & ? & ? & ? & ?) Ho. repeat split; simpl; congruence. Qed.

(** What [close] leaves of a live endpoint. *)
Definition closed_endpoint (e : endpoint) : endpoint :=
  Endpoint (e_port e) (e_direction e) (e_messages e) (e_bytes e) false true (e_slots e) (e_room e) 0 []
    [] (e_observers e) false false
    (e_outbox e ++ [match e_direction e with Sender => PkEnd | Receiver => PkStop end])
    (e_called e ++ e_waiters e ++ e_observers e).

Lemma close_live e : e_live e = true → close e = (Ok tt, closed_endpoint e).
Proof. intros H. unfold close, mbind, js_bind, gets, modify. by rewrite H. Qed.

Lemma close_dead e : e_live e = false → close e = (Ok tt, e).
Proof. intros H. unfold close, mbind, js_bind, gets, modify. by rewrite H. Qed.

Lemma side_closed d m b e ids :
  side_ok d m b e ids → e_live e = true → side_ok d m b (set_outbox [] (closed_endpoint e)) ids.
Proof.
  intros [Hwf] Hl. split; try done. apply (wf_accounting (closed_endpoint e)); try done.
  pose proof (wf_close e Hwf) as Hc. by rewrite close_live in Hc.
Qed.

Section Steps.
Context (m b : Z).

Lemma wires_close_sender y vs cs en st ids :
  side_ok Sender m b (y_sender y) ids → wires_ok m b y vs en cs st → e_live (y_sender y) = true →
  wires_ok m b (upd_sender (closed_endpoint (y_sender y)) y) vs true cs st.
Proof.
  intros [? Hd _ _ Ho _] [] Hl. assert (en = false) as -> by auto.
  split; simpl; try done.
  - rewrite Hd, Ho, w_s2r0, app_nil_r. done.
  - intros H1 H2 H3. specialize (w_closed0 H1 H2 H3). destruct w_closed0. congruence.
Qed.

Lemma wires_close_receiver y vs cs en st ids :
  side_ok Receiver m b (y_receiver y) ids → wires_ok m b y vs en cs st → e_live (y_receiver y) = true →
  wires_ok m b (upd_receiver (closed_endpoint (y_receiver y)) y) vs en cs true.
Proof.
  intros [? Hd _ _ Ho _] [] Hl. assert (st = false) as -> by auto.
  split; simpl; try done.
  - rewrite Hd, Ho, w_r2s0, app_nil_r. done.
  - intros H1 H2. specialize (w_le0 H1 H2). rewrite zlen_nil, ?total_bytes_nil.
    pose proof (zlen_nonneg (e_queue (y_receiver y))).
    pose proof (total_bytes_nonneg (e_queue (y_receiver y))). lia.
Qed.

(** An endpoint that changes nothing the other side can see. *)
Lemma inv_sender_idle y e : pair_inv m b y → same_side (y_sender y) e → pair_inv m b (upd_sender e y).
Proof.
  intros (Hs & Hr & vs & en & cs & st & Hw) He.
  destruct (flush_same _ _ He (side_outbox _ _ _ _ _ Hs)) as [Hm Ho].
  unfold upd_sender. rewrite Ho, app_nil_r. split; [by eapply side_ok_same|]. split; [done|].
  exists vs, en, cs, st. by eapply wires_ok_same, Hw.
Qed.

Lemma inv_receiver_idle y e : pair_inv m b y → same_side (y_receiver y) e → pair_inv m b (upd_receiver e y).
Proof.
  intros (Hs & Hr & vs & en & cs & st & Hw) He.
  destruct (flush_same _ _ He (side_outbox _ _ _ _ _ Hr)) as [Hm Ho].
  unfold upd_receiver. rewrite Ho, app_nil_r. split; [done|]. split; [by eapply side_ok_same|].
  exists vs, en, cs, st. by eapply wires_ok_same, Hw.
Qed.

Lemma inv_sender_closed y :
  pair_inv m b y → e_live (y_sender y) = true →
  pair_inv m b (upd_sender (closed_endpoint (y_sender y)) y).
Proof.
  intros (Hs & Hr & vs & en & cs & st & Hw) El. split; [by apply side_closed|]. split; [done|].
  exists vs, true, cs, st. by eapply wires_close_sender.
Qed.

Lemma inv_receiver_closed y :
  pair_inv m b y → e_live (y_receiver y) = true →
  pair_inv m b (upd_receiver (closed_endpoint (y_receiver y)) y).
Proof.
  intros (Hs & Hr & vs & en & cs & st & Hw) El. split; [done|]. split; [by apply side_closed|].
  exists vs, en, cs, true. by eapply wires_close_receiver.
Qed.

Lemma inv_close_sender : preserves (pair_inv m b) (on_sender close).
Proof.
  intros y H. unfold on_sender. destruct (e_live (y_sender y)) eqn:El.
  - rewrite close_live by done. by apply inv_sender_closed.
  - rewrite close_dead by done. by apply inv_sender_idle.
Qed.

Lemma inv_close_receiver : preserves (pair_inv m b) (on_receiver close).
Proof.
  intros y H. unfold on_receiver. destruct (e_live (y_receiver y)) eqn:El.
  - rewrite close_live by done. by apply inv_receiver_closed.
  - rewrite close_dead by done. by apply inv_receiver_idle.
Qed.

Lemma inv_sender_waits w : preserves (pair_inv m b) (on_sender (run_wait w)).
Proof.
  intros y H. unfold on_sender. pose proof (wait_same w (y_sender y)) as Hm.
  destruct (run_wait w (y_sender y)) as [r e]. by apply inv_sender_idle.
Qed.

Lemma inv_receiver_waits w : preserves (pair_inv m b) (on_receiver (run_wait w)).
Proof.
  intros y H. unfold on_receiver. pose proof (wait_same w (y_receiver y)) as Hm.
  destruct (run_wait w (y_receiver y)) as [r e]. by apply inv_receiver_idle.
Qed.

(** A payload accepted: one credit spent, one value on its way. *)
Definition sent_endpoint (e : endpoint) (v : list byte) : endpoint :=
  set_outbox (e_outbox e ++ [PkValue (Owned v)]) (set_credit (e_slots e - 1) (e_room e - zlen v) e).

(** The outcomes of [trySend]. *)
Lemma send_bytes_cases v f e :
  e_live e = true →
  (∃ r, send_bytes v f e = (r, e) ∧ r ≠ Ok Sent) ∨
  (send_bytes v f e = (Ok Sent, sent_endpoint e v) ∧ true = true ∧ e_closed e = false ∧
   e_slots e ≠ 0 ∧ zlen v <= e_room e ∧ f = None) ∨
  (true = true ∧ ∃ error, send_bytes v f e = (Throw error, closed_endpoint e)).
Proof.
  intros El. destruct (send_bytes v f e) as [r e'] eqn:Hr.
  unfold send_bytes, mbind at 1, js_bind at 1, gets, id in Hr.
  destruct (_ <? _); [left; exists r; by injection Hr as <- <-|].
  destruct (e_closed e); [left; exists r; by injection Hr as <- <-|].
  destruct (Z.eqb_spec (e_slots e) 0); [left; exists r; by injection Hr as <- <-|].
  destruct (Z.ltb_spec (e_room e) (zlen v)); [left; exists r; by injection Hr as <- <-|].
  right. destruct f as [error|]; [right|left; by injection Hr as <- <-].
  split; [done|]. exists error. unfold mbind, js_bind, modify in Hr. cbn [orb] in Hr.
  rewrite close_live in Hr by done. injection Hr as <- <-. f_equal.
  unfold closed_endpoint. simpl. f_equal; lia.
Qed.

Lemma trySend_cases p f e :
  (∃ r, trySend p f e = (r, e) ∧ r ≠ Ok Sent) ∨
  (trySend p f e = (Ok Sent, sent_endpoint e (payload_bytes p)) ∧ e_live e = true ∧ e_closed e = false ∧
   e_slots e ≠ 0 ∧ zlen (payload_bytes p) <= e_room e ∧ f = None) ∨
  (e_live e = true ∧ ∃ error, trySend p f e = (Throw error, closed_endpoint e)).
Proof.
  destruct (trySend p f e) as [r e'] eqn:Hr. unfold trySend, mbind, js_bind, gets, id in Hr.
  destruct (bool_decide (e_direction e ≠ Sender)); [left; exists r; by injection Hr as <- <-|].
  destruct (e_live e) eqn:El; [|left; exists r; by injection Hr as <- <-]. simpl in Hr.
  pose proof (send_bytes_cases (payload_bytes p) f e El) as H.
  destruct p; [by rewrite <- Hr..|left; exists r; by injection Hr as <- <-].
Qed.

Lemma inv_send p f : preserves (pair_inv m b) (pair_send p f).
Proof.
  intros y H. unfold pair_send, on_sender, mbind, js_bind.
  destruct (trySend_cases p f (y_sender y)) as [(r & -> & Hr)|[(-> & Hl & Hc & Hn & Hv & _)|(Hl & err & ->)]].
  - pose proof (inv_sender_idle y (y_sender y) H ltac:(done)) as Hi. by destruct r as [[| |]|].
  - destruct H as (Hs & Hr & vs & en & cs & st & Hw). set (v := payload_bytes p) in *. simpl.
    pose proof Hs as [Hwf Hd Hm Hb Ho Hcl]. pose proof Hw as []. assert (en = false) as -> by auto.
    destruct (w_le0 Hl Hc) as [Hle1 Hle2]. pose proof Hwf as []. pose proof (zlen_nonneg v).
    pose proof (zlen_nonneg cs). pose proof (sum_nonneg cs ltac:(done)).
    split; [|split; [done|]].
    { split; simpl; try done. apply (wf_accounting (set_credit (e_slots (y_sender y) - 1)
        (e_room (y_sender y) - zlen v) (y_sender y))); try done. apply wf_credit; [done|lia..]. }
    exists (vs ++ [v]), false, cs, st. split; simpl; try done; rewrite ?zlen_snoc, ?total_snoc.
    + rewrite Ho, w_s2r0, !app_nil_r. apply values_snoc.
    + intros ? ? ?. destruct w_closed0 as (? & _); congruence.
    + intros. rewrite w_fifo0 by done. by rewrite <- !app_assoc.
    + by apply prefix_app_r.
    + intros ?. destruct w_bound0 as [? ?]; [done|]. lia.
    + intros. lia.
    + intros ? ? ? ?. destruct w_eq0 as [? ?]; [done..|]. lia.
  - by apply inv_sender_closed.
Qed.

(** The outcomes of [tryReceive] on a live receiver with something queued. *)
Lemma tryReceive_cases e :
  (∃ r, tryReceive e = (r, e) ∧ ∀ v, r ≠ Ok (Received v)) ∨
  (∃ v queue, e_queue e = v :: queue ∧ e_live e = true ∧
     tryReceive e = (Ok (Received v),
       set_outbox (e_outbox e ++ if e_closed e then []
                                 else [PkCredit (VNum (NInt 1)) (VNum (NInt (zlen v)))])
         (set_queue (e_retained e - zlen v) queue e))).
Proof.
  destruct (tryReceive e) as [r e'] eqn:Hr. unfold tryReceive, mbind at 1, js_bind at 1, gets, id in Hr.
  destruct (bool_decide (e_direction e ≠ Receiver)); [left; exists r; by injection Hr as <- <-|].
  destruct (e_live e) eqn:El; [|left; exists r; by injection Hr as <- <-]. simpl in Hr.
  destruct (e_queue e) as [|v queue] eqn:Eq.
  - left. exists r. injection Hr as <- <-. by destruct (e_closed e).
  - right. exists v, queue. split; [done|]. split; [done|].
    unfold mbind, js_bind, when, modify, notify in Hr.
    destruct (e_closed e) eqn:Ec; simpl in Hr; injection Hr as <- <-; f_equal; rewrite ?app_nil_r; done.
Qed.

Lemma inv_receive : preserves (pair_inv m b) pair_receive.
Proof.
  intros y H. unfold pair_receive, on_receiver, mbind, js_bind.
  destruct (tryReceive_cases (y_receiver y)) as [(r & -> & Hr)|(v & queue & Eq & Hl & ->)].
  - pose proof (inv_receiver_idle y (y_receiver y) H ltac:(done)) as Hi. destruct r as [[v| |]|]; naive_solver.
  - destruct H as (Hs & Hr & vs & en & cs & st & Hw). simpl.
    pose proof Hr as [Hwf Hd Hm Hb Ho Hcl]. pose proof Hw as []. assert (st = false) as -> by auto.
    pose proof (zlen_nonneg v).
    split; [done|]. split.
    { split; simpl; try done. apply (wf_accounting (set_queue (e_retained (y_receiver y) - zlen v) queue
        (y_receiver y))); try done. by apply wf_pop. }
    rewrite Eq, ?zlen_cons, ?total_bytes_cons in *.
    exists vs, en, (cs ++ if e_closed (y_receiver y) then [] else [zlen v]), false. split; simpl; try done.
    + rewrite Ho, w_r2s0, app_nil_r. destruct (e_closed _); rewrite ?app_nil_r; [done|]. apply credits_snoc.
    + apply Forall_app. split; [done|]. destruct (e_closed _); by repeat constructor.
    + intros. rewrite w_fifo0 by done. by rewrite <- !app_assoc.
    + rewrite w_fifo0 by done. exists (queue ++ vs). by rewrite <- !app_assoc.
    + intros. destruct w_bound0 as [? ?]; [done|]. lia.
    + intros. destruct w_le0 as [? ?]; [done..|]. destruct (e_closed _); rewrite ?app_nil_r, ?zlen_snoc, ?sum_snoc; lia.
    + intros ? ? ? Hc. rewrite Hc. destruct w_eq0 as [? ?]; [done..|]. rewrite ?zlen_snoc, ?sum_snoc. lia.
Qed.

(** What [wake] leaves of an endpoint. *)
Definition woken (e : endpoint) : endpoint :=
  set_called (e_called e ++ e_waiters e ++ e_observers e) (set_callbacks [] (e_observers e) e).

Lemma side_flush d ids e : side_ok d m b e ids → side_ok d m b (set_outbox [] e) ids.
Proof. intros H. by eapply side_ok_same, H; destruct H. Qed.

Lemma side_woken d ids e : side_ok d m b e ids → side_ok d m b (set_outbox [] (woken e)) ids.
Proof. intros H. by eapply side_ok_same, H; destruct H. Qed.

Lemma side_set_closed d ids e : side_ok d m b e ids → side_ok d m b (set_closed e) ids.
Proof. intros []. split; try done. by apply (wf_accounting e). Qed.

Lemma arrived_dead p e : e_live e = false → arrived p e = (Ok tt, e).
Proof. intros H. unfold arrived, mbind, js_bind, gets, id. by rewrite H. Qed.

Lemma arrived_value v e :
  e_live e = true → e_direction e = Receiver →
  arrived (PkValue (Owned v)) e =
    (Ok tt, match value_of (PkValue (Owned v)) e with
            | Some v => woken (set_queue (e_retained e + zlen v) (e_queue e ++ [v]) e)
            | None => closed_endpoint e
            end).
Proof.
  intros Hl Hd. unfold arrived, mbind at 1, js_bind at 1, gets, id. rewrite Hl, Hd. cbn [negb].
  destruct (value_of _ _); [done|]. by apply close_live.
Qed.

Lemma arrived_end e :
  e_live e = true → e_direction e = Receiver → arrived PkEnd e = (Ok tt, woken (set_closed e)).
Proof. intros Hl Hd. unfold arrived, mbind at 1, js_bind at 1, gets, id. by rewrite Hl, Hd. Qed.

Lemma arrived_stop e :
  e_live e = true → e_direction e = Sender → arrived PkStop e = (Ok tt, woken (set_closed e)).
Proof. intros Hl Hd. unfold arrived, mbind at 1, js_bind at 1, gets, id. by rewrite Hl, Hd. Qed.

Lemma arrived_credit n e :
  e_live e = true → e_direction e = Sender →
  arrived (PkCredit (VNum (NInt 1)) (VNum (NInt n))) e =
    (Ok tt, if e_closed e then e
            else match credit_of (VNum (NInt 1)) (VNum (NInt n)) e with
                 | Some b => woken (set_credit (e_slots e + 1) (e_room e + b) e)
                 | None => closed_endpoint e
                 end).
Proof.
  intros Hl Hd. unfold arrived, mbind at 1, js_bind at 1, gets, id. rewrite Hl, Hd. cbn [negb].
  destruct (e_closed e); [done|]. destruct (credit_of _ _ _); [done|]. by apply close_live.
Qed.

(** With room for it, a value that arrives is queued. *)
Lemma value_fits v e ids vs :
  side_ok Receiver m b e ids → e_closed e = false →
  zlen (e_queue e) + zlen (v :: vs) <= m → total_bytes (e_queue e) + total_bytes (v :: vs) <= b →
  value_of (PkValue (Owned v)) e = Some v.
Proof.
  intros [[] _ Hm Hb _ _] Hc H1 H2. simpl. rewrite Hc, zlen_cons, total_bytes_cons in *.
  pose proof (zlen_nonneg vs). pose proof (total_bytes_nonneg vs).
  rewrite (proj2 (Z.leb_gt _ _)), (proj2 (Z.ltb_ge _ _)) by lia. done.
Qed.

Lemma inv_deliver_value y v vs s2r en cs st :
  side_ok Sender m b (y_sender y) (y_sids y) → side_ok Receiver m b (y_receiver y) (y_rids y) →
  wires_ok m b y (v :: vs) en cs st → y_s2r y = PkValue (Owned v) :: s2r →
  pair_inv m b (on_receiver (arrived (PkValue (Owned v))) (set_wires s2r (y_r2s y) y)).2.
Proof.
  intros Hs Hr Hw Hy. pose proof Hr as [Hwf Hd Hm Hb Ho Hcl]. pose proof Hw as [].
  assert (s2r = values vs ++ (if en then [PkEnd] else [])) as Hs2r.
  { rewrite Hy in w_s2r0. by injection w_s2r0. }
  pose proof (zlen_nonneg v). unfold on_receiver. rewrite zlen_cons, total_bytes_cons in *.
  destruct (e_live (y_receiver y)) eqn:El; simpl.
  2: { rewrite arrived_dead by done. split; [done|]. split; [by apply side_flush|].
       exists vs, en, cs, st. split; simpl; try done; rewrite ?El; try done; try by intros.
       - by rewrite Ho, app_nil_r.
       - intros H1 H2. specialize (w_le0 H1 H2). lia. }
  assert (st = false) as -> by auto. rewrite arrived_value by done.
  destruct (e_closed (y_receiver y)) eqn:Ec.
  - (* closed from outside: the value shuts the receiver down *)
    assert (value_of (PkValue (Owned v)) (y_receiver y) = None) as -> by (simpl; by rewrite Ec).
    split; [done|]. split; [by apply side_closed|]. exists vs, en, cs, true.
    split; simpl; try done.
    + by rewrite Ho, w_r2s0, Hd, app_nil_r.
    + intros H1 H2. specialize (w_le0 H1 H2). rewrite zlen_nil, ?total_bytes_nil.
      pose proof (zlen_nonneg (e_queue (y_receiver y))).
      pose proof (total_bytes_nonneg (e_queue (y_receiver y))). lia.
  - destruct (w_bound0 eq_refl) as [B1 B2].
    rewrite (value_fits v (y_receiver y) (y_rids y) vs) by (rewrite ?zlen_cons, ?total_bytes_cons; done).
    pose proof (zlen_nonneg vs). pose proof (total_bytes_nonneg vs). pose proof Hwf as [].
    split; [done|]. split; [apply side_woken; split; simpl; try done; apply wf_push; try done; lia|].
    exists vs, en, cs, false.
    split; simpl; rewrite ?zlen_snoc, ?total_snoc; try done.
    + by rewrite Ho, app_nil_r.
    + intros. by apply w_end0.
    + intros. congruence.
    + intros. rewrite w_fifo0 by done. by rewrite <- !app_assoc.
    + intros. lia.
    + intros Hs1 Hs2. specialize (w_le0 Hs1 Hs2). lia.
    + intros Hs1 Hs2 _ _. specialize (w_eq0 Hs1 Hs2 eq_refl eq_refl). lia.
Qed.

Lemma inv_deliver_end y s2r cs st :
  side_ok Sender m b (y_sender y) (y_sids y) → side_ok Receiver m b (y_receiver y) (y_rids y) →
  wires_ok m b y [] true cs st → y_s2r y = PkEnd :: s2r →
  pair_inv m b (on_receiver (arrived PkEnd) (set_wires s2r (y_r2s y) y)).2.
Proof.
  intros Hs Hr Hw Hy. pose proof Hr as [Hwf Hd Hm Hb Ho Hcl]. pose proof Hw as [].
  assert (s2r = []) as -> by (rewrite Hy in w_s2r0; by injection w_s2r0).
  assert (e_live (y_sender y) = false) as Hsl.
  { destruct (e_live (y_sender y)); [|done]. by specialize (w_sender_live0 eq_refl). }
  unfold on_receiver. destruct (e_live (y_receiver y)) eqn:El; simpl.
  - rewrite arrived_end by done. split; [done|]. split; [by apply side_woken, side_set_closed|].
    exists [], false, cs, st. split; simpl; rewrite ?El; try done; try (intros; congruence).
    by rewrite Ho, app_nil_r.
  - rewrite arrived_dead by done. split; [done|]. split; [by apply side_flush|].
    exists [], false, cs, st. split; simpl; rewrite ?El; try done; try (intros; congruence).
    by rewrite Ho, app_nil_r.
Qed.

Lemma inv_to_receiver : preserves (pair_inv m b) deliver_to_receiver.
Proof.
  intros y H. unfold deliver_to_receiver. destruct (y_s2r y) as [|p s2r] eqn:Ey; [done|].
  destruct H as (Hs & Hr & vs & en & cs & st & Hw). pose proof (w_s2r _ _ _ _ _ _ _ Hw) as Hv. rewrite Ey in Hv.
  destruct vs as [|v vs]; simpl in Hv.
  - destruct en; [|done]. injection Hv as -> ->. by eapply inv_deliver_end.
  - injection Hv as -> Hv. by eapply inv_deliver_value.
Qed.

(** A credit the receiver sent fits the sender's accounting. *)
Lemma credit_fits n e ids k :
  side_ok Sender m b e ids → 0 <= n → 0 <= k → e_slots e + 1 + k <= m → e_room e + n <= b →
  credit_of (VNum (NInt 1)) (VNum (NInt n)) e = Some n.
Proof.
  intros [[] _ Hm Hb _ _] ? ? ? ?. unfold credit_of. rewrite bool_decide_true by done. simpl.
  rewrite (proj2 (Z.leb_le _ _)) by lia. by rewrite !(proj2 (Z.ltb_ge _ _)) by lia.
Qed.

Lemma inv_deliver_credit y n cs r2s vs en st :
  side_ok Sender m b (y_sender y) (y_sids y) → side_ok Receiver m b (y_receiver y) (y_rids y) →
  wires_ok m b y vs en (n :: cs) st → y_r2s y = PkCredit (VNum (NInt 1)) (VNum (NInt n)) :: r2s →
  pair_inv m b (on_sender (arrived (PkCredit (VNum (NInt 1)) (VNum (NInt n)))) (set_wires (y_s2r y) r2s y)).2.
Proof.
  intros Hs Hr Hw Hy. pose proof Hs as [Hwf Hd Hm Hb Ho Hcl]. pose proof Hw as [].
  assert (r2s = credits cs ++ (if st then [PkStop] else [])) as Hr2s.
  { rewrite Hy in w_r2s0. by injection w_r2s0. }
  apply Forall_cons in w_cs0 as [Hn Hcs]. pose proof (sum_nonneg cs Hcs). pose proof (zlen_nonneg cs).
  change (sumZ id (n :: cs)) with (n + sumZ id cs) in *. rewrite zlen_cons in *.
  unfold on_sender. simpl.
  destruct (e_live (y_sender y)) eqn:El; [|rewrite arrived_dead by done].
  1: rewrite arrived_credit by done; destruct (e_closed (y_sender y)) eqn:Ec.
  - split; [by apply side_flush|]. split; [done|]. exists vs, en, cs, st.
    split; simpl; rewrite ?El, ?Ec; try done. by rewrite Ho, app_nil_r.
  - destruct (w_le0 eq_refl eq_refl) as [L1 L2].
    pose proof (zlen_nonneg vs). pose proof (total_bytes_nonneg vs).
    pose proof (zlen_nonneg (e_queue (y_receiver y))).
    pose proof (total_bytes_nonneg (e_queue (y_receiver y))). pose proof Hwf as [].
    rewrite (credit_fits n (y_sender y) (y_sids y) (zlen cs)) by (done || lia).
    split; [apply side_woken; split; simpl; try done; apply wf_credit; done || lia|]. split; [done|].
    exists vs, en, cs, st. split; simpl; rewrite ?El, ?Ec; try done.
    + by rewrite Ho, app_nil_r.
    + intros. lia.
    + intros _ _ Hr1 Hr2. specialize (w_eq0 eq_refl eq_refl Hr1 Hr2). lia.
  - split; [by apply side_flush|]. split; [done|]. exists vs, en, cs, st.
    split; simpl; rewrite ?El; try done. by rewrite Ho, app_nil_r.
Qed.

Lemma inv_deliver_stop y r2s vs en :
  side_ok Sender m b (y_sender y) (y_sids y) → side_ok Receiver m b (y_receiver y) (y_rids y) →
  wires_ok m b y vs en [] true → y_r2s y = PkStop :: r2s →
  pair_inv m b (on_sender (arrived PkStop) (set_wires (y_s2r y) r2s y)).2.
Proof.
  intros Hs Hr Hw Hy. pose proof Hs as [Hwf Hd Hm Hb Ho Hcl]. pose proof Hw as [].
  assert (r2s = []) as -> by (rewrite Hy in w_r2s0; by injection w_r2s0).
  unfold on_sender. destruct (e_live (y_sender y)) eqn:El; simpl.
  - rewrite arrived_stop by done. split; [by apply side_woken, side_set_closed|]. split; [done|].
    exists vs, en, [], false. split; simpl; rewrite ?El; try done; try (intros; congruence).
    by rewrite Ho, app_nil_r.
  - rewrite arrived_dead by done. split; [by apply side_flush|]. split; [done|].
    exists vs, en, [], false. split; simpl; rewrite ?El; try done; try (intros; congruence).
    by rewrite Ho, app_nil_r.
Qed.

Lemma inv_to_sender : preserves (pair_inv m b) deliver_to_sender.
Proof.
  intros y H. unfold deliver_to_sender. destruct (y_r2s y) as [|p r2s] eqn:Ey; [done|].
  destruct H as (Hs & Hr & vs & en & cs & st & Hw). pose proof (w_r2s _ _ _ _ _ _ _ Hw) as Hv. rewrite Ey in Hv.
  destruct cs as [|n cs]; simpl in Hv.
  - destruct st; [|done]. injection Hv as -> ->. by eapply inv_deliver_stop.
  - injection Hv as -> Hv. by eapply inv_deliver_credit.
Qed.

Lemma remoteClose_run e :
  remoteClose e = (Ok tt, if e_live e then woken (set_closed e) else e).
Proof. unfold remoteClose, mbind, js_bind, gets. by destruct (e_live e). Qed.

Lemma inv_revoke_sender : preserves (pair_inv m b) (on_sender remoteClose).
Proof.
  intros y H. unfold on_sender. rewrite remoteClose_run.
  destruct (e_live (y_sender y)) eqn:El; [|by apply inv_sender_idle].
  destruct H as (Hs & Hr & vs & en & cs & st & Hw). pose proof Hs as [_ _ _ _ Ho _]. pose proof Hw as [].
  split; [by apply side_woken, side_set_closed|]. split; [done|].
  exists vs, en, cs, st. split; simpl; try done. by rewrite Ho, app_nil_r.
Qed.

Lemma inv_revoke_receiver : preserves (pair_inv m b) (run_pair_op RevokeReceiver).
Proof.
  intros y (Hs & Hr & vs & en & cs & st & Hw). simpl. unfold mbind, js_bind, modify, on_receiver.
  cbn [y_receiver set_history].
  pose proof Hr as [_ _ _ _ Ho _]. pose proof Hw as [].
  rewrite remoteClose_run. destruct (e_live (y_receiver y)) eqn:El; simpl.
  - split; [done|]. split; [by apply side_woken, side_set_closed|]. exists vs, en, cs, st.
    split; simpl; rewrite ?El; try done. by rewrite Ho, app_nil_r.
  - split; [done|]. split; [by apply side_flush|]. exists vs, en, cs, st.
    split; simpl; rewrite ?El; try done. by rewrite Ho, app_nil_r.
Qed.

Lemma inv_set_ids y sids rids :
  pair_inv m b y → claimed (y_sender y) sids → claimed (y_receiver y) rids → pair_inv m b (set_ids sids rids y).
Proof.
  intros ([] & [] & vs & en & cs & st & Hw) Hs Hr. split; [by split|]. split; [by split|].
  exists vs, en, cs, st. by destruct Hw.
Qed.

Lemma inv_op op : preserves (pair_inv m b) (run_pair_op op).
Proof.
  destruct op; simpl.
  - apply inv_send.
  - apply inv_receive.
  - apply inv_to_receiver.
  - apply inv_to_sender.
  - apply inv_sender_waits.
  - apply inv_receiver_waits.
  - apply inv_close_sender.
  - apply inv_close_receiver.
  - apply inv_revoke_sender.
  - apply inv_revoke_receiver.
Qed.

Lemma inv_run ops y : pair_inv m b y → pair_inv m b (run_pair ops y).
Proof. revert y. induction ops as [|op ops IH]; intros y H; [done|]. by apply IH, inv_op. Qed.
End Steps.

(** A new channel. *)
Lemma start_pair_Ok messages bytes y :
  start_pair messages bytes = Ok y →
  ∃ m b, messages = VNum (NInt m) ∧ bytes = VNum (NInt b) ∧
    0 < m <= MAX_SAFE_INTEGER ∧ 0 < b <= MAX_SAFE_INTEGER ∧
    let ids := [(1, Identity (VNum (NInt 1)) true); (2, Identity (VNum (NInt 1)) true)] in
    y = Pair (Endpoint 1 Sender m b true false m b 0 [] [] [] true true [] [])
             (Endpoint 2 Receiver m b true false m b 0 [] [] [] true true [] []) ids ids [] [] [] [] false.
Proof.
  unfold start_pair, createPortChannel, mbind, js_bind, lift. intros H.
  destruct (limits messages bytes) as [[m b]|] eqn:E; [|done]. pose proof E as E'.
  apply limits_Ok in E' as (-> & -> & Hm & Hb). simpl in Hm, Hb.
  exists m, b. repeat (split; [done|]). cbv zeta. revert H.
  rewrite (create_unsaved 1 Sender), (create_unsaved 2 Receiver) by done. by intros [= <-].
Qed.

Lemma start_inv m b y : start_pair (VNum (NInt m)) (VNum (NInt b)) = Ok y → pair_inv m b y.
Proof.
  intros (? & ? & [= <-] & [= <-] & Hm & Hb & ->)%start_pair_Ok.
  assert (∀ d p ids, mget p ids = Some (Identity (VNum (NInt 1)) true) →
    side_ok d m b (Endpoint p d m b true false m b 0 [] [] [] true true [] []) ids) as Hside.
  { intros d p ids Hi. split; try done; [split; simpl; try done; try lia; rewrite ?zlen_nil; lia|].
    intros _. exists 1. split; [done|by simpl]. }
  split; [by apply Hside|]. split; [by apply Hside|]. exists [], false, [], false.
  split; simpl; try done; intros; unfold zlen; simpl; lia.
Qed.

(** Bytes of the values and credits on a wire, and the values themselves. *)
Definition packet_bytes (p : packet) : Z :=
  match p with
  | PkValue (Owned v) => zlen v
  | PkCredit _ (VNum (NInt n)) => n
  | _ => 0
  end.
Definition wire_bytes (w : list packet) : Z := sumZ packet_bytes w.
Definition wire_values (w : list packet) : list (list byte) :=
  omap (λ p, match p with PkValue (Owned v) => Some v | _ => None end) w.

Lemma wire_bytes_values vs : wire_bytes (values vs) = total_bytes vs.
Proof. induction vs as [|v vs IH]; [done|]. rewrite total_bytes_cons, <- IH. done. Qed.

Lemma wire_bytes_credits cs : wire_bytes (credits cs) = sumZ id cs.
Proof. induction cs as [|n cs IH]; [done|]. simpl. by rewrite <- IH. Qed.

Lemma wire_values_values vs (en : bool) : wire_values (values vs ++ (if en then [PkEnd] else [])) = vs.
Proof. induction vs as [|v vs IH]; [by destruct en|]. simpl. f_equal. apply IH. Qed.

Lemma zlen_fmap {A B} (f : A → B) (l : list A) : zlen (f <$> l) = zlen l.
Proof. unfold zlen. by rewrite length_fmap. Qed.

(** Both endpoints in use. *)
Definition both_open (y : pair) : Prop :=
  e_live (y_sender y) = true ∧ e_closed (y_sender y) = false ∧
  e_live (y_receiver y) = true ∧ e_closed (y_receiver y) = false.

Lemma conservation m b y :
  pair_inv m b y → both_open y →
  e_slots (y_sender y) + zlen (y_s2r y) + zlen (e_queue (y_receiver y)) + zlen (y_r2s y) = m ∧
  e_room (y_sender y) + wire_bytes (y_s2r y) + e_retained (y_receiver y) + wire_bytes (y_r2s y) = b.
Proof.
  intros (_ & [[_ _ _ _ [Hret _] _ _ _] _ _ _ _ _] & vs & en & cs & st & []) (Hs & Hsc & Hr & Hrc).
  assert (en = false) as -> by auto. assert (st = false) as -> by auto.
  destruct (w_eq0 Hs Hsc Hr Hrc) as [E1 E2].
  rewrite w_s2r0, w_r2s0, !app_nil_r, wire_bytes_values, wire_bytes_credits.
  unfold values, credits. rewrite !zlen_fmap. lia.
Qed.

(** Delivering a packet between open endpoints closes neither. *)
Lemma to_receiver_open m b y : pair_inv m b y → both_open y → both_open (deliver_to_receiver y).2.
Proof.
  intros (Hs & Hr & vs & en & cs & st & []) Ho. pose proof Ho as (Hsl & Hsc & Hrl & Hrc).
  unfold deliver_to_receiver. destruct (y_s2r y) as [|p s2r] eqn:Ey; [done|].
  assert (en = false) as -> by auto. rewrite app_nil_r in w_s2r0.
  destruct vs as [|v vs]; [done|]. injection w_s2r0 as -> ->.
  unfold on_receiver. simpl. destruct (w_bound0 Hrl) as [? ?]. rewrite arrived_value by (done || by destruct Hr).
  by erewrite value_fits.
Qed.

Lemma to_sender_open m b y : pair_inv m b y → both_open y → both_open (deliver_to_sender y).2.
Proof.
  intros (Hs & Hr & vs & en & cs & st & []) Ho. pose proof Ho as (Hsl & Hsc & Hrl & Hrc).
  unfold deliver_to_sender. destruct (y_r2s y) as [|p r2s] eqn:Ey; [done|].
  assert (st = false) as -> by auto. rewrite app_nil_r in w_r2s0.
  destruct cs as [|n cs]; [done|]. injection w_r2s0 as -> ->.
  unfold on_sender. simpl. rewrite arrived_credit by (done || by destruct Hs). rewrite Hsc.
  destruct (w_le0 Hsl Hsc) as [L1 L2]. apply Forall_cons in w_cs0 as [Hn Hcs].
  rewrite zlen_cons in L1. change (sumZ id (n :: cs)) with (n + sumZ id cs) in L2.
  pose proof (zlen_nonneg vs). pose proof (total_bytes_nonneg vs).
  pose proof (zlen_nonneg (e_queue (y_receiver y))). pose proof (total_bytes_nonneg (e_queue (y_receiver y))).
  pose proof (sum_nonneg cs Hcs). pose proof (zlen_nonneg cs).
  by erewrite (credit_fits m b n _ _ (zlen cs)) by (done || lia).
Qed.

(** A receiver that has not been closed from outside takes what is on its wire. *)
Lemma to_receiver_drains m b y :
  pair_inv m b y → e_live (y_receiver y) = true → y_revoked y = false →
  let y' := (deliver_to_receiver y).2 in
  e_live (y_receiver y') = true ∧ y_revoked y' = false ∧ y_s2r y' = tail (y_s2r y) ∧
  y_sender y' = y_sender y ∧ y_accepted y' = y_accepted y.
Proof.
  intros (Hs & Hr & vs & en & cs & st & []) Hl Hv. cbv zeta. unfold deliver_to_receiver.
  destruct (y_s2r y) as [|p s2r] eqn:Ey; [done|]. simpl. unfold on_receiver. simpl.
  pose proof (side_dir _ _ _ _ _ Hr) as Hd. destruct vs as [|v vs].
  - destruct en; [|done]. injection w_s2r0 as -> ->. by rewrite arrived_end.
  - injection w_s2r0 as -> ->. rewrite arrived_value by done. destruct (w_bound0 Hl) as [? ?].
    destruct (e_closed (y_receiver y)) eqn:Ec; [by destruct w_closed0 as (_ & ? & _)|].
    by erewrite value_fits.
Qed.

Lemma drain_wire m b n y :
  pair_inv m b y → e_live (y_receiver y) = true → y_revoked y = false → n = length (y_s2r y) →
  let y' := run_pair (replicate n ToReceiver) y in
  pair_inv m b y' ∧ e_live (y_receiver y') = true ∧ y_revoked y' = false ∧ y_s2r y' = [] ∧
  y_sender y' = y_sender y ∧ y_accepted y' = y_accepted y.
Proof.
  revert y. induction n as [|n IH]; intros y Hi Hl Hv Hn.
  - destruct (y_s2r y) eqn:E; [done|]. by simpl in Hn.
  - pose proof (to_receiver_drains m b y Hi Hl Hv) as (Hl' & Hv' & Hw' & Hs' & Ha').
    cbn [replicate run_pair run_pair_op]. pose proof (inv_to_receiver m b y Hi) as Hi'.
    destruct (IH (deliver_to_receiver y).2 Hi' Hl' Hv') as (? & ? & ? & ? & ? & ?).
    { rewrite Hw'. by destruct (y_s2r y); simplify_eq/=. }
    do 4 (split; [done|]). split; congruence.
Qed.

(** A receiver that has been told of the end hands out its queue. *)
Lemma drain_queue n y :
  e_live (y_receiver y) = true → e_closed (y_receiver y) = true → e_direction (y_receiver y) = Receiver →
  (length (e_queue (y_receiver y)) <= n)%nat →
  let y' := run_pair (replicate n Receive) y in
  y_received y' = y_received y ++ e_queue (y_receiver y) ∧
  (tryReceive (y_receiver y')).1 = Ok RecvClosed.
Proof.
  revert y. induction n as [|n IH]; intros y Hl Hc Hd Hn; cbn [replicate run_pair run_pair_op].
  - destruct (e_queue (y_receiver y)) eqn:Eq; [|simpl in Hn; lia]. rewrite app_nil_r. split; [done|].
    unfold tryReceive, mbind, js_bind, gets, id. by rewrite Hl, Hd, Eq, Hc.
  - unfold pair_receive, on_receiver, mbind, js_bind.
    assert (tryReceive (y_receiver y) = match e_queue (y_receiver y) with
      | v :: queue => (Ok (Received v), set_queue (e_retained (y_receiver y) - zlen v) queue (y_receiver y))
      | [] => (Ok RecvClosed, y_receiver y) end) as ->.
    { unfold tryReceive, mbind, js_bind, gets, id. rewrite Hl, Hd. simpl.
      destruct (e_queue (y_receiver y)); by rewrite Hc. }
    destruct (e_queue (y_receiver y)) as [|v queue] eqn:Eq; cbv iota beta.
    + destruct (IH (upd_receiver (y_receiver y) y)) as [IH1 IH2]; simpl; try done; [rewrite Eq; simpl; lia|].
      split; [|done]. rewrite IH1. simpl. by rewrite Eq.
    + match goal with |- context [run_pair _ ?y2] => destruct (IH y2) as [IH1 IH2] end;
        simpl in *; try done; [lia|]. split; [|done]. rewrite IH1. simpl. by rewrite <- app_assoc.
Qed.

(** ** Properties *)

Definition example_ops : list pair_op :=
  [Send (Owned [x01; x02]) None; Send (Partial [x03]) None; ToReceiver; Receive;
   Send (Owned [x04; x05; x06]) None; ToReceiver; ToSender].

Definition example_pair : pair :=
  let ids := [(1, Identity (VNum (NInt 1)) true); (2, Identity (VNum (NInt 1)) true)] in
  Pair (Endpoint 1 Sender 3 8 true false 3 8 0 [] [] [] true true [] [])
       (Endpoint 2 Receiver 3 8 true false 3 8 0 [] [] [] true true [] []) ids ids [] [] [] [] false.

(** No honest packet is taken for a violation: delivering the next packet of
    either wire between open endpoints closes neither of them. *)
Theorem pair_no_spurious_close m b y0 ops :
  start_pair (VNum (NInt m)) (VNum (NInt b)) = Ok y0 →
  both_open (run_pair ops y0) →
  both_open (run_pair (ops ++ [ToReceiver]) y0) ∧ both_open (run_pair (ops ++ [ToSender]) y0).
Proof.
  intros H Ho. apply start_inv, (inv_run _ _ ops) in H.
  assert (∀ op, run_pair (ops ++ [op]) y0 = (run_pair_op op (run_pair ops y0)).2) as Happ.
  { intros op. clear. revert y0. induction ops as [|o ops IH]; intros y0; [done|]. apply IH. }
  rewrite !Happ. split; [by eapply to_receiver_open|by eapply to_sender_open].
Qed.

Lemma pair_no_spurious_close_witness :
  both_open (run_pair example_ops example_pair) ∧
  both_open (run_pair (example_ops ++ [ToReceiver]) example_pair) ∧
  both_open (run_pair (example_ops ++ [ToSender]) example_pair).
Proof.
  split; [by vm_compute|]. apply (pair_no_spurious_close 3 8); by vm_compute.
Defined.

(** An orderly close delivers everything: once the sender has closed, a
    receiver that is live and not revoked gets, by taking what the port still
    delivers and receiving as often as payloads were accepted, every accepted
    payload in order, and is then told that the channel is closed. *)
Theorem pair_orderly_close m b y0 ops :
  start_pair (VNum (NInt m)) (VNum (NInt b)) = Ok y0 →
  let y := run_pair ops y0 in
  e_live (y_sender y) = false → e_live (y_receiver y) = true → y_revoked y = false →
  let y1 := run_pair (replicate (length (y_s2r y)) ToReceiver) y in
  let y2 := run_pair (replicate (length (y_accepted y)) Receive) y1 in
  y_received y2 = y_accepted y ∧ (tryReceive (y_receiver y2)).1 = Ok RecvClosed.
Proof.
  intros H y Hs Hr Hv y1 y2. apply start_inv, (inv_run _ _ ops) in H.
  destruct (drain_wire m b _ y H Hr Hv eq_refl) as (Hi & Hl & Hv' & Hw & Hs' & Ha). fold y1 in Hi, Hl, Hv', Hw, Hs', Ha.
  destruct Hi as (_ & [_ Hd _ _ _ _] & vs & en & cs & st & []).
  rewrite Hw in w_s2r0. destruct vs; [|done]. destruct en; [done|].
  assert (e_closed (y_receiver y1) = true) as Hc.
  { destruct (e_closed _); [done|]. by specialize (w_end0 ltac:(by rewrite Hs') Hl eq_refl). }
  specialize (w_fifo0 Hl). rewrite app_nil_r, Ha in w_fifo0.
  destruct (drain_queue (length (y_accepted y)) y1 Hl Hc Hd) as [E1 E2].
  { rewrite w_fifo0, length_app. lia. }
  split; [|done]. unfold y2. by rewrite E1.
Qed.

Lemma pair_orderly_close_witness :
  let y := run_pair (example_ops ++ [CloseSender]) example_pair in
  let y1 := run_pair (replicate (length (y_s2r y)) ToReceiver) y in
  let y2 := run_pair (replicate (length (y_accepted y)) Receive) y1 in
  y_received y2 = [[x01; x02]; [x03]; [x04; x05; x06]] ∧ (tryReceive (y_receiver y2)).1 = Ok RecvClosed.
Proof.
  cbv zeta. apply (pair_orderly_close 3 8 example_pair (example_ops ++ [CloseSender])); by vm_compute.
Defined.
