(* ===== verification/PortMove.v ===== *)
(** Endpoints that move, [move] and [adoptPortEndpoint] of
    [src/runtime/wasm/channel.mjs], on top of [PortPair].

    An endpoint that is moved is not adopted at once.  Its old handle is dead and
    the port has lost its listeners, but it stays started: a packet it delivers
    before anyone adopts the snapshot is gone ([mo_lost]).  Once the port itself
    is posted to another thread ([endpointTransfers] of
    [src/runtime/wasm/worker-pool.mjs]), its packets travel with it and wait for
    the adoption there. *)

From S2P Require Import Prelude PortChannel PortPair.

(** ** The pair with moving endpoints *)

(** Where an endpoint is: with its handle, or in a snapshot whose port is still
    in the thread or was posted. *)
Inductive transit :=
| Attached
| Detached (s : snapshot)
| Posted (s : snapshot).

Record moving := Moving {
  mo_pair : pair;
  mo_sender : transit;
  mo_receiver : transit;
  mo_lost : list packet
}.

Definition set_pair (y : pair) (z : moving) : moving := Moving y (mo_sender z) (mo_receiver z) (mo_lost z).

(** An endpoint's handle moves; a handle that may not stays where it is. *)
Definition detach (t : transit) (ids : jmap Z identity) (e : endpoint) : transit * (jmap Z identity * endpoint) :=
  match move (ids, e) with
  | (Ok s, moved) => (Detached s, moved)
  | (Throw _, kept) => (t, kept)
  end.

(** The snapshot's port crosses to another thread. *)
Definition post (t : transit) : transit := match t with Detached s => Posted s | _ => t end.

(** The snapshot is adopted, by the thread it is in or by the one it was posted
    to, which has not seen the port. *)
Definition attach (t : transit) (ids : jmap Z identity) (e : endpoint) : transit * (jmap Z identity * endpoint) :=
  let adopt s ids :=
    match adoptPortEndpoint (Some s) ids with
    | (Ok e', ids') => (Attached, (ids', e'))
    | (Throw _, ids') => (t, (ids', e))
    end in
  match t with
  | Attached => (t, (ids, e))
  | Detached s => adopt s ids
  | Posted s => adopt s []
  end.

Definition change_sender (f : transit → jmap Z identity → endpoint → transit * (jmap Z identity * endpoint)) (z : moving) : moving :=
  let y := mo_pair z in
  let '(t, (ids, e)) := f (mo_sender z) (y_sids y) (y_sender y) in
  Moving (upd_sender e (set_ids ids (y_rids y) y)) t (mo_receiver z) (mo_lost z).
Definition change_receiver (f : transit → jmap Z identity → endpoint → transit * (jmap Z identity * endpoint)) (z : moving) : moving :=
  let y := mo_pair z in
  let '(t, (ids, e)) := f (mo_receiver z) (y_rids y) (y_receiver y) in
  Moving (upd_receiver e (set_ids (y_sids y) ids y)) (mo_sender z) t (mo_lost z).

(** A packet reaches its port: the endpoint takes it; with no listener it is
    gone; in a port on its way it waits. *)
Definition reach_receiver (z : moving) : moving :=
  let y := mo_pair z in
  match mo_receiver z with
  | Attached => set_pair (deliver_to_receiver y).2 z
  | Detached _ =>
      match y_s2r y with
      | [] => z
      | p :: s2r => Moving (set_wires s2r (y_r2s y) y) (mo_sender z) (mo_receiver z) (mo_lost z ++ [p])
      end
  | Posted _ => z
  end.
Definition reach_sender (z : moving) : moving :=
  let y := mo_pair z in
  match mo_sender z with
  | Attached => set_pair (deliver_to_sender y).2 z
  | Detached _ =>
      match y_r2s y with
      | [] => z
      | p :: r2s => Moving (set_wires (y_s2r y) r2s y) (mo_sender z) (mo_receiver z) (mo_lost z ++ [p])
      end
  | Posted _ => z
  end.

(** The operations of the handles, dead ones included, and the moves. *)
Inductive move_op :=
| Do (op : pair_op)
| MoveSender
| MoveReceiver
| PostSender
| PostReceiver
| AdoptSender
| AdoptReceiver.

Definition run_move_op (op : move_op) (z : moving) : moving :=
  match op with
  | Do ToReceiver => reach_receiver z
  | Do ToSender => reach_sender z
  | Do op => set_pair (run_pair_op op (mo_pair z)).2 z
  | MoveSender => change_sender detach z
  | MoveReceiver => change_receiver detach z
  | PostSender => Moving (mo_pair z) (post (mo_sender z)) (mo_receiver z) (mo_lost z)
  | PostReceiver => Moving (mo_pair z) (mo_sender z) (post (mo_receiver z)) (mo_lost z)
  | AdoptSender => change_sender attach z
  | AdoptReceiver => change_receiver attach z
  end.

Definition run_moving (ops : list move_op) (z : moving) : moving := foldl (λ z op, run_move_op op z) z ops.

Definition start_moving (messages bytes : jsval) : res moving :=
  match start_pair messages bytes with
  | Ok y => Ok (Moving y Attached Attached [])
  | Throw e => Throw e
  end.

(** What the receiver holds: in its queue, or in the snapshot it moves with. *)
Definition snapshot_queue (s : snapshot) : list (list byte) :=
  match s_queue s with QArray q => default [] (queued_payloads q) | _ => [] end.
Definition held (z : moving) : option (list (list byte)) :=
  match mo_receiver z with
  | Attached => if e_live (y_receiver (mo_pair z)) then Some (e_queue (y_receiver (mo_pair z))) else None
  | Detached s | Posted s => Some (snapshot_queue s)
  end.

(** ** The endpoints as they will be adopted *)

Definition put_sender (e : endpoint) (ids : jmap Z identity) (y : pair) : pair :=
  Pair e (y_receiver y) ids (y_rids y) (y_s2r y) (y_r2s y) (y_accepted y) (y_received y) (y_revoked y).
Definition put_receiver (e : endpoint) (ids : jmap Z identity) (y : pair) : pair :=
  Pair (y_sender y) e (y_sids y) ids (y_s2r y) (y_r2s y) (y_accepted y) (y_received y) (y_revoked y).

(** A dead handle [e] whose endpoint [v] travels in a snapshot. *)
Definition travels (s : snapshot) (g : Z) (e v : endpoint) : Prop :=
  e_live e = false ∧ e_outbox e = [] ∧ s = moved_snapshot v g ∧ 1 <= g < MAX_SAFE_INTEGER ∧ e_live v = true.

Definition view (t : transit) (e : endpoint) (ids : jmap Z identity) (v : endpoint) (vids : jmap Z identity) : Prop :=
  match t with
  | Attached => v = e ∧ vids = ids
  | Detached s => ∃ g, travels s g e v ∧ mget (e_port v) ids = Some (Identity (VNum (NInt (g + 1))) false)
  | Posted s => ∃ g, travels s g e v
  end.

Definition moving_inv (m b : Z) (z : moving) : Prop :=
  mo_lost z = [] → ∃ vs si vr ri,
    view (mo_sender z) (y_sender (mo_pair z)) (y_sids (mo_pair z)) vs si ∧
    view (mo_receiver z) (y_receiver (mo_pair z)) (y_rids (mo_pair z)) vr ri ∧
    pair_inv m b (put_receiver vr ri (put_sender vs si (mo_pair z))).

(** The operations of one endpoint, the packets it gets included. *)
Definition sender_op (op : pair_op) : bool :=
  match op with Send _ _ | SenderWaits _ | CloseSender | RevokeSender | ToSender => true | _ => false end.

(** An operation of one endpoint neither reads nor changes the other. *)
Lemma on_sender_frame {A} (f : js endpoint A) e ids y :
  on_sender f (put_receiver e ids y) = ((on_sender f y).1, put_receiver e ids (on_sender f y).2) ∧
  y_receiver (on_sender f y).2 = y_receiver y ∧ y_rids (on_sender f y).2 = y_rids y.
Proof. unfold on_sender. cbn. by destruct (f (y_sender y)). Qed.
Lemma on_receiver_frame {A} (f : js endpoint A) e ids y :
  on_receiver f (put_sender e ids y) = ((on_receiver f y).1, put_sender e ids (on_receiver f y).2) ∧
  y_sender (on_receiver f y).2 = y_sender y ∧ y_sids (on_receiver f y).2 = y_sids y.
Proof. unfold on_receiver. cbn. by destruct (f (y_receiver y)). Qed.

Lemma sender_frame op e ids y : sender_op op = true →
  let y' := (run_pair_op op y).2 in
  (run_pair_op op (put_receiver e ids y)).2 = put_receiver e ids y' ∧ y_receiver y' = y_receiver y ∧ y_rids y' = y_rids y.
Proof.
  intros H y'. subst y'. destruct op; try done; cbn [run_pair_op].
  - unfold pair_send, mbind, js_bind. destruct (on_sender_frame (trySend p post_fails) e ids y) as (-> & H1 & H2).
    by destruct (on_sender (trySend p post_fails) y) as [[[| |]|] y1].
  - unfold deliver_to_sender. cbn. destruct (y_r2s y) as [|p r2s]; [done|].
    destruct (on_sender_frame (arrived p) e ids (set_wires (y_s2r y) r2s y)) as (E & H1 & H2).
    change (set_wires (y_s2r y) r2s (put_receiver e ids y)) with (put_receiver e ids (set_wires (y_s2r y) r2s y)). by rewrite E.
  - destruct (on_sender_frame (run_wait w) e ids y) as (-> & ? & ?). done.
  - destruct (on_sender_frame close e ids y) as (-> & ? & ?). done.
  - destruct (on_sender_frame remoteClose e ids y) as (-> & ? & ?). done.
Qed.

Lemma receiver_frame op e ids y : sender_op op = false →
  let y' := (run_pair_op op y).2 in
  (run_pair_op op (put_sender e ids y)).2 = put_sender e ids y' ∧ y_sender y' = y_sender y ∧ y_sids y' = y_sids y.
Proof.
  intros H y'. subst y'. destruct op; try done; cbn [run_pair_op].
  - unfold pair_receive, mbind, js_bind. destruct (on_receiver_frame tryReceive e ids y) as (-> & H1 & H2).
    by destruct (on_receiver tryReceive y) as [[[| |]|] y1].
  - unfold deliver_to_receiver. cbn. destruct (y_s2r y) as [|p s2r]; [done|].
    destruct (on_receiver_frame (arrived p) e ids (set_wires s2r (y_r2s y) y)) as (E & H1 & H2).
    change (set_wires s2r (y_r2s y) (put_sender e ids y)) with (put_sender e ids (set_wires s2r (y_r2s y) y)). by rewrite E.
  - destruct (on_receiver_frame (run_wait w) e ids y) as (-> & ? & ?). done.
  - destruct (on_receiver_frame close e ids y) as (-> & ? & ?). done.
  - destruct (on_receiver_frame remoteClose e ids (set_history (y_accepted y) (y_received y) true y)) as (E & ? & ?).
    split; [exact (f_equal snd E)|done].
Qed.

(** A dead handle does nothing but keep and drop callbacks. *)
Definition silent (e : endpoint) : Prop := e_live e = false ∧ e_outbox e = [].

Lemma silent_flush e : silent e → silent (set_outbox [] e).
Proof. by intros []. Qed.

Lemma on_dead_sender {A} (f : js endpoint A) y : silent (f (y_sender y)).2 →
  ∃ e, silent e ∧ (on_sender f y).2 = put_sender e (y_sids y) y.
Proof.
  intros H. exists (set_outbox [] (f (y_sender y)).2). split; [by apply silent_flush|]. unfold on_sender. destruct (f (y_sender y)) as [r e].
  destruct H as [_ Ho]. cbn in *. unfold upd_sender, put_sender. by rewrite Ho, app_nil_r.
Qed.
Lemma on_dead_receiver {A} (f : js endpoint A) y : silent (f (y_receiver y)).2 →
  ∃ e, silent e ∧ (on_receiver f y).2 = put_receiver e (y_rids y) y.
Proof.
  intros H. exists (set_outbox [] (f (y_receiver y)).2). split; [by apply silent_flush|]. unfold on_receiver. destruct (f (y_receiver y)) as [r e].
  destruct H as [_ Ho]. cbn in *. unfold upd_receiver, put_receiver. by rewrite Ho, app_nil_r.
Qed.

Lemma wait_silent w e : silent e → silent (run_wait w e).2.
Proof. intros []. destruct (wait_same w e) as (_ & _ & _ & _ & ? & _ & _ & _ & _ & _ & ?). split; congruence. Qed.
Lemma trySend_dead p f e : e_live e = false → ∃ error, trySend p f e = (Throw error, e).
Proof. intros H. unfold trySend, mbind, js_bind, gets, id. rewrite H, orb_true_r. by eexists. Qed.
Lemma tryReceive_dead e : e_live e = false → ∃ error, tryReceive e = (Throw error, e).
Proof. intros H. unfold tryReceive, mbind, js_bind, gets, id. rewrite H, orb_true_r. by eexists. Qed.

Lemma dead_sender op y : sender_op op = true → op ≠ ToSender → silent (y_sender y) →
  ∃ e, silent e ∧ (run_pair_op op y).2 = put_sender e (y_sids y) y.
Proof.
  intros H Hne Hs. pose proof Hs as [Hl Ho]. destruct op; try done; cbn [run_pair_op].
  - unfold pair_send, mbind, js_bind. destruct (trySend_dead p post_fails _ Hl) as [error E].
    destruct (on_dead_sender (trySend p post_fails) y) as (e & He & Ey); [by rewrite E|]. exists e. split; [done|]. rewrite <- Ey.
    unfold on_sender. by rewrite E.
  - by apply on_dead_sender, wait_silent.
  - apply on_dead_sender. by rewrite close_dead.
  - apply on_dead_sender. by rewrite remoteClose_run, Hl.
Qed.

Lemma dead_receiver op y : sender_op op = false → op ≠ ToReceiver → silent (y_receiver y) →
  ∃ e revoked, silent e ∧ (y_revoked y = true → revoked = true) ∧
    (run_pair_op op y).2 = put_receiver e (y_rids y) (set_history (y_accepted y) (y_received y) revoked y).
Proof.
  intros H Hne Hs. pose proof Hs as [Hl Ho]. assert (∀ A (f : js endpoint A), silent (f (y_receiver y)).2 → ∃ e revoked, silent e ∧
    (y_revoked y = true → revoked = true) ∧ (on_receiver f y).2 = put_receiver e (y_rids y) (set_history (y_accepted y) (y_received y) revoked y)) as Hdead.
  { intros A f Hf. destruct (on_dead_receiver f y Hf) as (e & He & Ey). exists e, (y_revoked y). by split; [|split]. }
  destruct op; try done; cbn [run_pair_op].
  - unfold pair_receive, mbind, js_bind. destruct (tryReceive_dead _ Hl) as [error E].
    destruct (Hdead _ tryReceive) as (e & r & He & Hr & Ey); [by rewrite E|]. exists e, r. split; [done|]. split; [done|]. rewrite <- Ey.
    unfold on_receiver. by rewrite E.
  - by apply Hdead, wait_silent.
  - apply Hdead. by rewrite close_dead.
  - unfold mbind, js_bind, modify. set (y1 := set_history _ _ _ y). destruct (on_dead_receiver remoteClose y1) as (e & He & Ey).
    { rewrite remoteClose_run. cbn. by rewrite Hl. }
    exists e, true. split; [done|]. by split.
Qed.

(** ** Every step keeps the invariant *)

Section Steps.
Context (m b : Z).

Lemma inv_put_sender e ids y : pair_inv m b y → same_side (y_sender y) e → e_outbox e = [] → claimed e ids → pair_inv m b (put_sender e ids y).
Proof.
  intros (Hs & Hr & vs & en & cs & st & Hw) He Ho Hc. split; [|split; [done|exists vs, en, cs, st; by eapply wires_ok_same, Hw]].
  destruct (side_ok_same _ _ _ _ _ _ He Hs). by split.
Qed.
Lemma inv_put_receiver e ids y : pair_inv m b y → same_side (y_receiver y) e → e_outbox e = [] → claimed e ids → pair_inv m b (put_receiver e ids y).
Proof.
  intros (Hs & Hr & vs & en & cs & st & Hw) He Ho Hc. split; [done|]. split; [|exists vs, en, cs, st; by eapply wires_ok_same, Hw].
  destruct (side_ok_same _ _ _ _ _ _ He Hr). by split.
Qed.

Lemma inv_revoked y revoked : pair_inv m b y → (y_revoked y = true → revoked = true) →
  pair_inv m b (set_history (y_accepted y) (y_received y) revoked y).
Proof.
  intros (Hs & Hr & vs & en & cs & st & Hw) Hv. split; [done|]. split; [done|]. exists vs, en, cs, st. split; try by destruct Hw.
  cbn. intros H1 H2 ->. apply (w_closed _ _ _ _ _ _ _ Hw); [done..|]. destruct (y_revoked y); [by discriminate Hv|done].
Qed.

Lemma travels_silent s g e v : travels s g e v → silent e.
Proof. by intros (? & ? & _). Qed.
Lemma travels_dead s g e e' v : travels s g e v → silent e' → travels s g e' v.
Proof. intros (_ & _ & ? & ? & ?) []. by split. Qed.

(** The view of an endpoint that is away does not depend on its dead handle. *)
Lemma view_away t e e' ids v vids : t ≠ Attached → view t e ids v vids → silent e ∧ (silent e' → view t e' ids v vids).
Proof.
  destruct t as [|s|s]; [done|..]; intros _.
  - intros (g & Ht & Hi). split; [by eapply travels_silent|]. intros He. exists g. split; [by eapply travels_dead|done].
  - intros (g & Ht). split; [by eapply travels_silent|]. intros He. exists g. by eapply travels_dead.
Qed.

Lemma put_same_sender y : put_sender (y_sender y) (y_sids y) y = y.
Proof. by destruct y. Qed.
Lemma put_same_receiver y : put_receiver (y_receiver y) (y_rids y) y = y.
Proof. by destruct y. Qed.

Lemma transit_attached t : t = Attached ∨ t ≠ Attached.
Proof. destruct t; [by left|by right..]. Qed.

(** An operation of the sender. *)
Lemma moving_sender_op op z : sender_op op = true → (op = ToSender → mo_sender z = Attached) → moving_inv m b z →
  moving_inv m b (set_pair (run_pair_op op (mo_pair z)).2 z).
Proof.
  intros Hop Hto Hz Hlost. destruct (Hz Hlost) as (vs & si & vr & ri & Vs & Vr & Hi). destruct z as [y ts tr lost]. cbn in *.
  destruct (transit_attached ts) as [->|Ha].
  - destruct Vs as [-> ->]. rewrite put_same_sender in Hi. destruct (sender_frame op vr ri y Hop) as (E & E1 & E2). apply (inv_op m b op) in Hi.
    rewrite E in Hi. exists (y_sender (run_pair_op op y).2), (y_sids (run_pair_op op y).2), vr, ri. rewrite E1, E2, put_same_sender. done.
  - destruct (view_away _ _ (y_sender y) _ _ _ Ha Vs) as [He _].
    destruct (dead_sender op y) as (e & He' & ->); [done|by intros ->; apply Ha, Hto|done|]. exists vs, si, vr, ri. split; [|by split].
    by eapply (view_away _ _ e _ _ _ Ha Vs).
Qed.

Lemma moving_receiver_op op z : sender_op op = false → (op = ToReceiver → mo_receiver z = Attached) → moving_inv m b z →
  moving_inv m b (set_pair (run_pair_op op (mo_pair z)).2 z).
Proof.
  intros Hop Hto Hz Hlost. destruct (Hz Hlost) as (vs & si & vr & ri & Vs & Vr & Hi). destruct z as [y ts tr lost]. cbn in *.
  destruct (transit_attached tr) as [->|Ha].
  - destruct Vr as [-> ->]. change (put_receiver _ _ _) with (put_sender vs si (put_receiver (y_receiver y) (y_rids y) y)) in Hi.
    rewrite put_same_receiver in Hi. destruct (receiver_frame op vs si y Hop) as (E & E1 & E2). apply (inv_op m b op) in Hi.
    rewrite E in Hi. exists vs, si, (y_receiver (run_pair_op op y).2), (y_rids (run_pair_op op y).2). rewrite E1, E2. split; [done|]. split; [done|].
    set (y' := put_sender vs si (run_pair_op op y).2) in *. change (pair_inv m b (put_receiver (y_receiver y') (y_rids y') y')). by rewrite put_same_receiver.
  - destruct (view_away _ _ (y_receiver y) _ _ _ Ha Vr) as [He _].
    destruct (dead_receiver op y) as (e & revoked & He' & Hv & ->); [done|by intros ->; apply Ha, Hto|done|]. exists vs, si, vr, ri. split; [done|].
    split; [by eapply (view_away _ _ e _ _ _ Ha Vr)|]. by apply (inv_revoked _ revoked) in Hi.
Qed.

(** An endpoint that moves: it is kept, closed or in a snapshot. *)
Lemma detach_cases d ids e : side_ok d m b e ids →
  detach Attached ids e = (Attached, (ids, e)) ∨
  (e_live e = true ∧ detach Attached ids e = (Attached, (ids, closed_endpoint e))) ∨
  ∃ s ids' e' g, detach Attached ids e = (Detached s, (ids', e')) ∧ travels s g e' e ∧
    mget (e_port e) ids' = Some (Identity (VNum (NInt (g + 1))) false).
Proof.
  intros [Hwf _ _ _ Ho Hc]. unfold detach.
  destruct (negb (e_live e) || negb (zlen (e_waiters e) =? 0) || negb (zlen (e_observers e) =? 0)) eqn:B.
  { left. unfold move. by rewrite B. }
  rewrite !orb_false_iff, !negb_false_iff in B. destruct B as [[Hl Hw%Z.eqb_eq] Hob%Z.eqb_eq].
  destruct (Hc Hl) as (g & Hg & Hi). right.
  assert (e_waiters e = [] ∧ e_observers e = []) as [Hw' Hob'] by (by destruct (e_waiters e), (e_observers e)).
  destruct (decide (g = MAX_SAFE_INTEGER)) as [->|Hne].
  - left. split; [done|]. unfold move. rewrite Hl, Hi, Hw', Hob'. simpl. by rewrite close_live.
  - right. rewrite (move_run e g ids) by (repeat split; done || lia). do 3 eexists. exists g. split; [done|]. split; [|apply mget_mset_eq].
    split; [done|]. split; [done|]. split; [done|]. split; [lia|done].
Qed.

(** A handle that is away stays so; a snapshot is adopted as the endpoint it was taken from. *)
Lemma detach_dead t ids e : e_live e = false → detach t ids e = (t, (ids, e)).
Proof. intros H. unfold detach, move. by rewrite H. Qed.

Lemma attach_view t ids e v vids : t ≠ Attached → endpoint_wf v → view t e ids v vids →
  ∃ ids' g, attach t ids e = (Attached, (ids', adopted v)) ∧ e_live v = true ∧ 1 <= g <= MAX_SAFE_INTEGER ∧
    mget (e_port v) ids' = Some (Identity (VNum (NInt g)) true).
Proof.
  intros Ha Hwf. destruct t as [|s|s]; [done|..]; cbn [view attach].
  - intros (g & (_ & _ & -> & Hg & Hl) & Hi). destruct (adopt_run v g ids) as (ids' & -> & Hi'); [done|lia|by left|].
    exists ids', (g + 1). split; [done|]. split; [done|]. split; [lia|done].
  - intros (g & _ & _ & -> & Hg & Hl). destruct (adopt_run v g []) as (ids' & -> & Hi'); [done|lia|by right|].
    exists ids', (g + 1). split; [done|]. split; [done|]. split; [lia|done].
Qed.

Lemma adopted_same v : e_live v = true → e_outbox v = [] → same_side v (adopted v).
Proof. by intros H1 H2; repeat split; cbn. Qed.

(** An endpoint put in place with nothing to post. *)
Lemma upd_silent_sender e ids y : e_outbox e = [] → upd_sender e (set_ids ids (y_rids y) y) = put_sender (set_outbox [] e) ids y.
Proof. intros H. unfold upd_sender, put_sender. cbn. by rewrite H, app_nil_r. Qed.
Lemma upd_silent_receiver e ids y : e_outbox e = [] → upd_receiver e (set_ids (y_sids y) ids y) = put_receiver (set_outbox [] e) ids y.
Proof. intros H. unfold upd_receiver, put_receiver. cbn. by rewrite H, app_nil_r. Qed.

Lemma flush_travels s g e v : travels s g e v → travels s g (set_outbox [] e) v.
Proof. by intros (? & ? & ?). Qed.
Lemma view_flush t e ids v vids : t ≠ Attached → view t e ids v vids → view t (set_outbox [] e) ids v vids.
Proof. intros Ha Hv. pose proof (view_away _ _ (set_outbox [] e) _ _ _ Ha Hv) as [He H]. by apply H, silent_flush. Qed.

Lemma moving_detach_sender z : moving_inv m b z → moving_inv m b (change_sender detach z).
Proof.
  intros Hz. destruct z as [y ts tr lost]. unfold change_sender. destruct (detach _ _ _) as [t' [ids e]] eqn:E. intros Hlost. cbn in *.
  destruct (Hz Hlost) as (vs & si & vr & ri & Vs & Vr & Hi). cbn in Vs, Vr, Hi. destruct (transit_attached ts) as [->|Ha].
  - destruct Vs as [-> ->]. pose proof Hi as (Hside & _). cbn in Hside. rewrite put_same_sender in Hi. pose proof (side_outbox _ _ _ _ _ Hside) as Ho.
    destruct (detach_cases _ _ _ Hside) as [D|[[Hl D]|(s & ids' & e' & g & D & Ht & Hg)]]; rewrite D in E; injection E as <- <- <-.
    + apply (inv_sender_idle _ _ _ (y_sender y)) in Hi; [|done]. by eexists _, _, vr, ri; split; [|split; [|exact Hi]].
    + apply inv_sender_closed in Hi; [|done]. by eexists _, _, vr, ri; split; [|split; [|exact Hi]].
    + pose proof (travels_silent _ _ _ _ Ht) as [_ Ho']. exists (y_sender y), (y_sids y), vr, ri. rewrite upd_silent_sender by done.
      split; [exists g; split; [by apply flush_travels|done]|]. split; [done|].
      change (pair_inv m b (put_receiver vr ri (put_sender (y_sender y) (y_sids y) y))). by rewrite put_same_sender.
  - destruct (view_away _ _ (y_sender y) _ _ _ Ha Vs) as [[Hl Ho] _]. rewrite detach_dead in E by done. injection E as <- <- <-.
    exists vs, si, vr, ri. rewrite upd_silent_sender by done. split; [by apply view_flush|]. by split.
Qed.

Lemma moving_detach_receiver z : moving_inv m b z → moving_inv m b (change_receiver detach z).
Proof.
  intros Hz. destruct z as [y ts tr lost]. unfold change_receiver. destruct (detach _ _ _) as [t' [ids e]] eqn:E. intros Hlost. cbn in *.
  destruct (Hz Hlost) as (vs & si & vr & ri & Vs & Vr & Hi). cbn in Vs, Vr, Hi. destruct (transit_attached tr) as [->|Ha].
  - destruct Vr as [-> ->]. pose proof Hi as (_ & Hside & _). cbn in Hside. pose proof (side_outbox _ _ _ _ _ Hside) as Ho.
    set (x := put_sender vs si y) in *. change (pair_inv m b (put_receiver (y_receiver x) (y_rids x) x)) in Hi. rewrite put_same_receiver in Hi.
    destruct (detach_cases _ _ _ Hside) as [D|[[Hl D]|(s & ids' & e' & g & D & Ht & Hg)]]; rewrite D in E; injection E as <- <- <-.
    + apply (inv_receiver_idle _ _ _ (y_receiver y)) in Hi; [|done]. by eexists vs, si, _, _; split; [|split; [|exact Hi]].
    + apply inv_receiver_closed in Hi; [|done]. by eexists vs, si, _, _; split; [|split; [|exact Hi]].
    + pose proof (travels_silent _ _ _ _ Ht) as [_ Ho']. exists vs, si, (y_receiver y), (y_rids y). rewrite upd_silent_receiver by done.
      split; [done|]. split; [exists g; split; [by apply flush_travels|done]|].
      change (pair_inv m b (put_receiver (y_receiver x) (y_rids x) x)). by rewrite put_same_receiver.
  - destruct (view_away _ _ (y_receiver y) _ _ _ Ha Vr) as [[Hl Ho] _]. rewrite detach_dead in E by done. injection E as <- <- <-.
    exists vs, si, vr, ri. rewrite upd_silent_receiver by done. split; [done|]. split; [by apply view_flush|done].
Qed.

Lemma moving_attach_sender z : moving_inv m b z → moving_inv m b (change_sender attach z).
Proof.
  intros Hz. destruct z as [y ts tr lost]. unfold change_sender. destruct (attach _ _ _) as [t' [ids e]] eqn:E. intros Hlost. cbn in *.
  destruct (Hz Hlost) as (vs & si & vr & ri & Vs & Vr & Hi). cbn in Vs, Vr, Hi. pose proof Hi as (Hside & _). cbn in Hside.
  pose proof (side_outbox _ _ _ _ _ Hside) as Ho. destruct (transit_attached ts) as [->|Ha].
  - destruct Vs as [-> ->]. injection E as <- <- <-. rewrite put_same_sender in Hi. apply (inv_sender_idle _ _ _ (y_sender y)) in Hi; [|done].
    by eexists _, _, vr, ri; split; [|split; [|exact Hi]].
  - destruct (attach_view _ _ _ _ _ Ha (side_wf _ _ _ _ _ Hside) Vs) as (ids' & g & D & Hl & Hg & Hm). rewrite D in E. injection E as <- <- <-.
    rewrite upd_silent_sender by done. eexists _, _, vr, ri. split; [done|]. split; [done|].
    apply (inv_put_sender (adopted vs) ids') in Hi; [exact Hi|by apply adopted_same|done|]. intros _. by exists g.
Qed.

Lemma moving_attach_receiver z : moving_inv m b z → moving_inv m b (change_receiver attach z).
Proof.
  intros Hz. destruct z as [y ts tr lost]. unfold change_receiver. destruct (attach _ _ _) as [t' [ids e]] eqn:E. intros Hlost. cbn in *.
  destruct (Hz Hlost) as (vs & si & vr & ri & Vs & Vr & Hi). cbn in Vs, Vr, Hi. pose proof Hi as (_ & Hside & _). cbn in Hside.
  pose proof (side_outbox _ _ _ _ _ Hside) as Ho. destruct (transit_attached tr) as [->|Ha].
  - destruct Vr as [-> ->]. injection E as <- <- <-. set (x := put_sender vs si y) in *.
    change (pair_inv m b (put_receiver (y_receiver x) (y_rids x) x)) in Hi. rewrite put_same_receiver in Hi.
    apply (inv_receiver_idle _ _ _ (y_receiver y)) in Hi; [|done]. by eexists vs, si, _, _; split; [|split; [|exact Hi]].
  - destruct (attach_view _ _ _ _ _ Ha (side_wf _ _ _ _ _ Hside) Vr) as (ids' & g & D & Hl & Hg & Hm). rewrite D in E. injection E as <- <- <-.
    rewrite upd_silent_receiver by done. eexists vs, si, _, _. split; [done|]. split; [done|].
    apply (inv_put_receiver (adopted vr) ids') in Hi; [exact Hi|by apply adopted_same|done|]. intros _. by exists g.
Qed.

Lemma view_post t e ids v vids : view t e ids v vids → view (post t) e ids v vids.
Proof. destruct t as [|s|s]; [done| |done]. intros (g & Ht & _). by exists g. Qed.

Lemma moving_reach_receiver z : moving_inv m b z → moving_inv m b (reach_receiver z).
Proof.
  intros Hz. unfold reach_receiver. destruct (mo_receiver z) as [|s|s] eqn:Et; [|destruct (y_s2r _) as [|p s2r]|done].
  - by apply (moving_receiver_op ToReceiver).
  - done.
  - intros Hlost. by apply app_nil in Hlost as [_ ?].
Qed.
Lemma moving_reach_sender z : moving_inv m b z → moving_inv m b (reach_sender z).
Proof.
  intros Hz. unfold reach_sender. destruct (mo_sender z) as [|s|s] eqn:Et; [|destruct (y_r2s _) as [|p r2s]|done].
  - by apply (moving_sender_op ToSender).
  - done.
  - intros Hlost. by apply app_nil in Hlost as [_ ?].
Qed.

Lemma moving_step op z : moving_inv m b z → moving_inv m b (run_move_op op z).
Proof.
  intros Hz. destruct op as [op| | | | | |]; cbn [run_move_op].
  - destruct op.
    3: by apply moving_reach_receiver.
    3: by apply moving_reach_sender.
    all: match goal with |- moving_inv _ _ (set_pair (run_pair_op ?op _).2 _) =>
      first [refine (moving_sender_op op z eq_refl _ Hz); discriminate | refine (moving_receiver_op op z eq_refl _ Hz); discriminate] end.
  - by apply moving_detach_sender.
  - by apply moving_detach_receiver.
  - intros Hlost. destruct (Hz Hlost) as (vs & si & vr & ri & Vs & Vr & Hi). exists vs, si, vr, ri. split; [by apply view_post|by split].
  - intros Hlost. destruct (Hz Hlost) as (vs & si & vr & ri & Vs & Vr & Hi). exists vs, si, vr, ri. split; [done|]. split; [by apply view_post|done].
  - by apply moving_attach_sender.
  - by apply moving_attach_receiver.
Qed.

Lemma moving_run ops z : moving_inv m b z → moving_inv m b (run_moving ops z).
Proof. revert z. induction ops as [|op ops IH]; intros z Hz; [done|]. by apply IH, moving_step. Qed.

Lemma moving_start z : start_moving (VNum (NInt m)) (VNum (NInt b)) = Ok z → moving_inv m b z.
Proof.
  unfold start_moving. destruct (start_pair _ _) as [y|e] eqn:E; [|done]. intros [= <-] _. eexists _, _, _, _. split; [done|]. split; [done|].
  cbn [mo_pair]. rewrite put_same_sender, put_same_receiver. by apply start_inv.
Qed.
End Steps.

(** ** Properties *)

Lemma snapshot_queue_moved v g : snapshot_queue (moved_snapshot v g) = e_queue v.
Proof. unfold snapshot_queue. cbn. by rewrite queued_payloads_owned. Qed.

Lemma live_attached m b z : moving_inv m b z → mo_lost z = [] →
  both_open (mo_pair z) → pair_inv m b (mo_pair z).
Proof.
  intros Hz Hl (H1 & _ & H2 & _). destruct (Hz Hl) as (vs & si & vr & ri & Vs & Vr & Hi).
  assert (∀ t e ids v vids, view t e ids v vids → e_live e = true → v = e ∧ vids = ids) as Hv.
  { intros [|s|s] e ids v vids; [done|..]; [intros (g & (Hd & _) & _)|intros (g & Hd & _)]; by rewrite Hd. }
  destruct (Hv _ _ _ _ _ Vs H1) as [-> ->]. destruct (Hv _ _ _ _ _ Vr H2) as [-> ->].
  rewrite put_same_sender in Hi. by rewrite put_same_receiver in Hi.
Qed.

Lemma held_view m b z q : moving_inv m b z → mo_lost z = [] → held z = Some q →
  y_accepted (mo_pair z) = y_received (mo_pair z) ++ q ++ wire_values (y_s2r (mo_pair z)).
Proof.
  intros Hz Hl Hq. destruct (Hz Hl) as (vs & si & vr & ri & _ & Vr & Hi). destruct Hi as (_ & _ & ws & en & cs & st & Hw).
  assert (e_live vr = true ∧ e_queue vr = q) as [Hv <-].
  { unfold held in Hq. destruct (mo_receiver z) as [|s|s].
    - destruct Vr as [-> _]. destruct (e_live _); [|done]. by injection Hq.
    - destruct Vr as (g & (_ & _ & -> & _ & Hv) & _). rewrite snapshot_queue_moved in Hq. by injection Hq.
    - destruct Vr as (g & _ & _ & -> & _ & Hv). rewrite snapshot_queue_moved in Hq. by injection Hq. }
  pose proof (w_s2r _ _ _ _ _ _ _ Hw) as Ew. pose proof (w_fifo _ _ _ _ _ _ _ Hw Hv) as Ef. cbn in Ew, Ef. by rewrite Ew, wire_values_values.
Qed.

(** C5 Credits are conserved: between two open endpoints, the sender's free slots,
    the values on the wire, the receiver's queue and the credits on their way
    back add up to the channel's message limit, and their bytes to its byte
    limit, whatever the guests and the ports did and however often either
    endpoint was moved, posted to another thread and adopted, provided no packet
    reached a moved port before it was posted or adopted (see [packet_lost]). *)
Theorem pair_credit_conservation m b z0 ops :
  start_moving (VNum (NInt m)) (VNum (NInt b)) = Ok z0 →
  let z := run_moving ops z0 in let y := mo_pair z in
  mo_lost z = [] → both_open y →
  e_slots (y_sender y) + zlen (y_s2r y) + zlen (e_queue (y_receiver y)) + zlen (y_r2s y) = m ∧
  e_room (y_sender y) + wire_bytes (y_s2r y) + e_retained (y_receiver y) + wire_bytes (y_r2s y) = b.
Proof. intros H z y Hl Ho. apply conservation; [|done]. apply live_attached; [by apply moving_run, moving_start|done..]. Qed.

(** C15 The channel is first in, first out, and loses nothing but what reaches a
    moved port before it was posted or adopted: when nothing did, what the
    receiver returned is a prefix of what the sender accepted, and while the
    receiver lives or moves the rest is, in order, what it holds, in its queue or
    in the snapshot it moves with, and then the wire. *)
Theorem pair_fifo_lossless m b z0 ops :
  start_moving (VNum (NInt m)) (VNum (NInt b)) = Ok z0 →
  let z := run_moving ops z0 in let y := mo_pair z in
  mo_lost z = [] →
  y_received y `prefix_of` y_accepted y ∧
  ∀ q, held z = Some q → y_accepted y = y_received y ++ q ++ wire_values (y_s2r y).
Proof.
  intros H z y Hl. pose proof (moving_run m b ops _ (moving_start m b _ H)) as Hz. split; [|intros q; by eapply held_view].
  destruct (Hz Hl) as (vs & si & vr & ri & _ & _ & _ & _ & ws & en & cs & st & Hw). exact (w_prefix _ _ _ _ _ _ _ Hw).
Qed.

(** Both endpoints move, one to another thread, with packets on their way. *)
Definition move_ops : list move_op :=
  [Do (Send (Owned [x01; x02]) None); Do (Send (Partial [x03]) None); Do ToReceiver; MoveReceiver; PostReceiver; Do ToReceiver;
   Do (Send (Owned [x04]) None); AdoptReceiver; Do Receive; MoveSender; AdoptSender; Do ToReceiver; Do ToSender].
Definition move_start : moving := Moving example_pair Attached Attached [].

Lemma pair_credit_conservation_witness :
  let y := mo_pair (run_moving move_ops move_start) in
  both_open y ∧
  e_slots (y_sender y) + zlen (y_s2r y) + zlen (e_queue (y_receiver y)) + zlen (y_r2s y) = 3 ∧
  e_room (y_sender y) + wire_bytes (y_s2r y) + e_retained (y_receiver y) + wire_bytes (y_r2s y) = 8.
Proof.
  cbv zeta. split; [by vm_compute|]. apply (pair_credit_conservation 3 8 move_start move_ops); by vm_compute.
Defined.

Lemma pair_fifo_lossless_witness :
  let z := run_moving move_ops move_start in
  held z = Some [[x03]] ∧ y_accepted (mo_pair z) = y_received (mo_pair z) ++ [[x03]] ++ wire_values (y_s2r (mo_pair z)).
Proof.
  cbv zeta. split; [by vm_compute|]. destruct (pair_fifo_lossless 3 8 move_start move_ops) as [_ H]; [by vm_compute..|]. apply H. by vm_compute.
Defined.

(** A packet that comes while a receiver is moved and not posted yet is neither
    received nor credited back: the channel stays one slot short. *)
Example packet_lost :
  let z := run_moving [Do (Send (Owned [x01; x02]) None); MoveReceiver; Do ToReceiver; PostReceiver; AdoptReceiver] move_start in
  let y := mo_pair z in
  both_open y ∧ mo_lost z = [PkValue (Owned [x01; x02])] ∧
  y_accepted y = [[x01; x02]] ∧ y_received y = [] ∧ e_queue (y_receiver y) = [] ∧ y_s2r y = [] ∧ y_r2s y = [] ∧
  e_slots (y_sender y) = 2 ∧ e_room (y_sender y) = 6.
Proof. vm_compute. repeat split; reflexivity. Qed.
