(* ===== verification/Base64.v ===== *)
(** [atob] and [btoa], which carry binary payloads through the guest's text
    effects ([src/runtime/wasm/channel-host.mjs], [src/runtime/wasm/app-runtime.mjs]).

    Text is a list of character codes below 256.  [atob] is the forgiving decode
    of the Infra standard: white space is dropped, padding is optional. *)

From S2P Require Import Prelude.

(** ** Alphabet *)

Definition alphabet : list byte := String.list_byte_of_string
  "ABCDEFGHIJKLMNOPQRSTUVWXYZabcdefghijklmnopqrstuvwxyz0123456789+/".

Definition digit_char (z : Z) : byte := default x00 (alphabet !! Z.to_nat z).

Definition char_digit (c : byte) : option Z :=
  let z := Z_of_byte c in
  if (0x41 <=? z) && (z <=? 0x5A) then Some (z - 0x41)
  else if (0x61 <=? z) && (z <=? 0x7A) then Some (z - 0x61 + 26)
  else if (0x30 <=? z) && (z <=? 0x39) then Some (z - 0x30 + 52)
  else if z =? 0x2B then Some 62
  else if z =? 0x2F then Some 63
  else None.

Definition is_pad (c : byte) : bool := Z_of_byte c =? 0x3D.

Definition is_space (c : byte) : bool :=
  let z := Z_of_byte c in (z =? 9) || (z =? 10) || (z =? 12) || (z =? 13) || (z =? 32).

(** ** Encoding *)

Fixpoint btoa (bs : list byte) : list byte :=
  match bs with
  | [] => []
  | [a] =>
      let a := Z_of_byte a in
      [digit_char (a / 4); digit_char (a mod 4 * 16); x3d; x3d]
  | [a; b] =>
      let a := Z_of_byte a in let b := Z_of_byte b in
      [digit_char (a / 4); digit_char (a mod 4 * 16 + b / 16); digit_char (b mod 16 * 4); x3d]
  | a :: b :: c :: bs' =>
      let a := Z_of_byte a in let b := Z_of_byte b in let c := Z_of_byte c in
      digit_char (a / 4) :: digit_char (a mod 4 * 16 + b / 16)
        :: digit_char (b mod 16 * 4 + c / 64) :: digit_char (c mod 64) :: btoa bs'
  end.

(** ** Decoding *)

(** Digits, four at a time; a last group of two or three drops its spare bits. *)
Fixpoint decode_digits (ds : list Z) : option (list byte) :=
  match ds with
  | [] => Some []
  | [_] => None
  | [p; q] => Some [byte_of_Z (p * 4 + q / 16)]
  | [p; q; r] => Some [byte_of_Z (p * 4 + q / 16); byte_of_Z (q mod 16 * 16 + r / 4)]
  | p :: q :: r :: s :: ds' =>
      (λ bs, byte_of_Z (p * 4 + q / 16) :: byte_of_Z (q mod 16 * 16 + r / 4)
               :: byte_of_Z (r mod 4 * 64 + s) :: bs) <$> decode_digits ds'
  end.

(** Drops one or two pads at the end of a text whose length is a multiple of four. *)
Definition strip_pad (text : list byte) : list byte :=
  if zlen text mod 4 =? 0 then
    match reverse text with
    | p :: q :: r =>
        if is_pad p then if is_pad q then reverse r else reverse (q :: r) else text
    | [p] => if is_pad p then [] else text
    | [] => text
    end
  else text.

Definition atob (text : list byte) : res (list byte) :=
  let text := strip_pad (List.filter (λ c, negb (is_space c)) text) in
  match mapM char_digit text with
  | Some ds =>
      match decode_digits ds with
      | Some bs => Ok bs
      | None => Throw "The string to be decoded is not correctly encoded."
      end
  | None => Throw "The string to be decoded is not correctly encoded."
  end.

(** ** Lemmas *)

Lemma Forall_range (P : Z → bool) (n : nat) z :
  forallb P (Z.of_nat <$> seq 0 n) = true → 0 <= z < Z.of_nat n → P z = true.
Proof.
  intros H Hz. rewrite forallb_forall in H. apply H. apply list_elem_of_In, list_elem_of_fmap.
  exists (Z.to_nat z). split; [lia|]. apply elem_of_seq. lia.
Qed.

Definition digit_ok (z : Z) : bool :=
  bool_decide (char_digit (digit_char z) = Some z) && negb (is_space (digit_char z)) && negb (is_pad (digit_char z)).

Lemma digit_char_ok z : 0 <= z < 64 → digit_ok z = true.
Proof. apply (Forall_range digit_ok 64). vm_compute. reflexivity. Qed.

(** The digits [btoa] writes, without its padding. *)
Fixpoint digits (bs : list byte) : list Z :=
  match bs with
  | [] => []
  | [a] => let a := Z_of_byte a in [a / 4; a mod 4 * 16]
  | [a; b] => let a := Z_of_byte a in let b := Z_of_byte b in [a / 4; a mod 4 * 16 + b / 16; b mod 16 * 4]
  | a :: b :: c :: bs' =>
      let a := Z_of_byte a in let b := Z_of_byte b in let c := Z_of_byte c in
      a / 4 :: a mod 4 * 16 + b / 16 :: b mod 16 * 4 + c / 64 :: c mod 64 :: digits bs'
  end.

(** Induction on the groups of three bytes. *)
Lemma group_ind (P : list byte → Prop) :
  P [] → (∀ a, P [a]) → (∀ a b, P [a; b]) → (∀ a b c bs, P bs → P (a :: b :: c :: bs)) → ∀ bs, P bs.
Proof.
  intros H0 H1 H2 H3. fix go 1. intros [|a [|b [|c bs]]]; [done|done|done|]. apply H3, go.
Qed.

Ltac byte_ranges := repeat match goal with
  | b : byte |- _ => lazymatch goal with
                     | H : 0 <= Z_of_byte b < 256 |- _ => fail
                     | _ => pose proof (Z_of_byte_range b) end end.

Lemma digits_range bs : Forall (λ z, 0 <= z < 64) (digits bs).
Proof.
  induction bs as [|a|a b|a b c bs IH] using group_ind; simpl; byte_ranges;
    repeat (constructor; [Z.to_euclidean_division_equations; lia|]); done || constructor.
Qed.

Lemma byte_of_Z_eq z b : z = Z_of_byte b → byte_of_Z z = b.
Proof. intros ->. apply byte_of_Z_of_byte. Qed.

Lemma decode_digits_inv bs : decode_digits (digits bs) = Some bs.
Proof.
  induction bs as [|a|a b|a b c bs IH] using group_ind; simpl; [done| | |]; byte_ranges.
  - repeat f_equal; apply byte_of_Z_eq; Z.to_euclidean_division_equations; lia.
  - repeat f_equal; apply byte_of_Z_eq; Z.to_euclidean_division_equations; lia.
  - rewrite IH. simpl. repeat f_equal; apply byte_of_Z_eq; Z.to_euclidean_division_equations; lia.
Qed.

(** [btoa] is the digits' characters and its padding. *)
Definition padding (n : Z) : list byte :=
  if n mod 3 =? 0 then [] else if n mod 3 =? 1 then [x3d; x3d] else [x3d].

Lemma btoa_digits bs : btoa bs = (digit_char <$> digits bs) ++ padding (zlen bs).
Proof.
  induction bs as [|a|a b|a b c bs IH] using group_ind; simpl; try done.
  rewrite IH. do 4 f_equal. f_equal. unfold padding. rewrite !zlen_cons.
  replace (1 + (1 + (1 + zlen bs))) with (zlen bs + 1 * 3) by lia. by rewrite Z.mod_add by lia.
Qed.

Lemma btoa_length bs : zlen (btoa bs) mod 4 = 0.
Proof.
  induction bs as [|a|a b|a b c bs IH] using group_ind; simpl; try done.
  rewrite !zlen_cons. replace (1 + (1 + (1 + (1 + zlen (btoa bs))))) with (zlen (btoa bs) + 1 * 4) by lia.
  by rewrite Z.mod_add by lia.
Qed.

Lemma digit_chars_ok bs : Forall (λ c, is_space c = false ∧ is_pad c = false) (digit_char <$> digits bs).
Proof.
  apply Forall_fmap. eapply Forall_impl; [apply digits_range|]. intros z Hz. simpl.
  apply digit_char_ok in Hz. unfold digit_ok in Hz. rewrite !andb_true_iff, !negb_true_iff in Hz. naive_solver.
Qed.

Lemma btoa_no_space bs : List.filter (λ c, negb (is_space c)) (btoa bs) = btoa bs.
Proof.
  assert (Forall (λ c, is_space c = false) (btoa bs)) as H.
  { rewrite btoa_digits. apply Forall_app. split.
    - eapply Forall_impl; [apply digit_chars_ok|]. naive_solver.
    - unfold padding. destruct (_ =? 0); [constructor|]. destruct (_ =? 1); repeat constructor. }
  induction H as [|c l Hc _ IH]; simpl; [done|]. by rewrite Hc, IH.
Qed.

(** A text that ends in no pad, and the pads after it. *)
Lemma strip_pad_app text n :
  Forall (λ c, is_space c = false ∧ is_pad c = false) text → (n <= 2)%nat →
  (n = 1%nat → text ≠ []) → zlen (text ++ replicate n x3d) mod 4 = 0 →
  strip_pad (text ++ replicate n x3d) = text.
Proof.
  intros Ht Hn H1 Hm. unfold strip_pad. rewrite Hm. simpl.
  rewrite reverse_app, reverse_replicate. destruct n as [|[|[|n]]]; simpl; [| | |lia].
  - rewrite app_nil_r. destruct (reverse text) as [|p l] eqn:E; [done|].
    assert (is_pad p = false) as ->.
    { rewrite Forall_forall in Ht. apply Ht. apply elem_of_reverse. rewrite E. left. }
    by destruct l.
  - destruct (reverse text) as [|q l] eqn:E.
    { apply (f_equal reverse) in E. rewrite reverse_involutive in E. by destruct (H1 eq_refl). }
    assert (is_pad q = false) as ->.
    { rewrite Forall_forall in Ht. apply Ht. apply elem_of_reverse. rewrite E. left. }
    rewrite <- E. by rewrite reverse_involutive.
  - by rewrite reverse_involutive.
Qed.

Lemma padding_replicate n :
  ∃ k, padding n = replicate k x3d ∧ (k <= 2)%nat ∧ (k = 1%nat → n mod 3 = 2).
Proof.
  unfold padding. pose proof (Z.mod_pos_bound n 3 ltac:(lia)).
  destruct (Z.eqb_spec (n mod 3) 0); [exists 0%nat; split; [done|lia]|].
  destruct (Z.eqb_spec (n mod 3) 1); [exists 2%nat; split; [done|lia]|]. exists 1%nat. split; [done|lia].
Qed.

Lemma mapM_digits bs : mapM char_digit (digit_char <$> digits bs) = Some (digits bs).
Proof.
  induction (digits_range bs) as [|z zs Hz _ IH]; [done|].
  apply digit_char_ok in Hz. unfold digit_ok in Hz. rewrite !andb_true_iff in Hz.
  destruct Hz as [[Hz%bool_decide_eq_true _] _]. rewrite fmap_cons. cbn [mapM]. by rewrite Hz, IH.
Qed.

(** Decoding undoes encoding. *)
Lemma atob_btoa bs : atob (btoa bs) = Ok bs.
Proof.
  unfold atob. rewrite btoa_no_space.
  assert (strip_pad (btoa bs) = digit_char <$> digits bs) as ->.
  { pose proof (btoa_length bs) as Hl. rewrite btoa_digits in *.
    destruct (padding_replicate (zlen bs)) as (k & Hp & Hk & H1). rewrite Hp in *.
    apply strip_pad_app; [apply digit_chars_ok|done| |done].
    intros ->. destruct bs as [|a [|b [|c bs]]]; simpl; [by specialize (H1 eq_refl)|done..]. }
  by rewrite mapM_digits, decode_digits_inv.
Qed.

(** Base64 text of [n] bytes has four characters per group of three. *)
Lemma zlen_btoa bs : zlen (btoa bs) = (zlen bs + 2) / 3 * 4.
Proof.
  induction bs as [|a|a b|a b c bs IH] using group_ind; simpl; try done.
  rewrite !zlen_cons, IH.
  replace (1 + (1 + (1 + zlen bs)) + 2) with (zlen bs + 2 + 1 * 3) by lia. rewrite Z.div_add by lia. lia.
Qed.
