(* ===== verification/ChannelHost.v ===== *)
(** The endpoint table of one guest, [src/runtime/wasm/channel-host.mjs].

    The table's entries are objects that promises and listeners keep referring to
    after the table has dropped them, so the model keeps every entry object in a
    store by its id and the table as the ids it still lists.  Ports are numbers;
    what is posted to control ports, which ports are closed and how watches
    settle is recorded in a log.  An observer that an endpoint runs is the poll
    of a watch and may throw, and that exception leaves through the endpoint's
    operation, as it does in the code. *)

From S2P Require Import Prelude Base64 PortChannel.

(** ** Payloads *)

Definition MAX_WIRE_BYTES : Z := 512 * 1024.

(** [bytes(text)]; [None] is no string. *)
Definition bytes (text : option (list byte)) : res (list byte) :=
  match text with
  | None => Throw "invalid channel payload"
  | Some text =>
      if (MAX_WIRE_BYTES + 2) / 3 * 4 <? zlen text then Throw "browser channel payload exceeds 512 KiB"
      else
        match atob text with
        | Throw e => Throw e
        | Ok value =>
            if MAX_WIRE_BYTES <? zlen value then Throw "browser channel payload exceeds 512 KiB" else Ok value
        end
  end.

(** [encoded(value)]. *)
Definition encoded (value : list byte) : list byte := btoa value.

(** ** State *)

(** A pending watch: its promise and what the guest has seen consumed. *)
Record watching := Watching {
  w_promise : Z;
  w_consumed : jsval;
  w_consumedBytes : jsval
}.

Record entry := Entry {
  n_endpoint : endpoint;
  n_control : Z;
  n_token : Z;
  n_messages : Z;
  n_bytes : Z;
  n_sent : Z;
  n_sentBytes : Z;
  n_watch : option watching;
  n_resource : option Z;
  n_listening : bool
}.

Record supervisor := Supervisor { sv_port : Z; sv_peer : Z; sv_done : bool; sv_resource : Z }.
Record resource := Resource { rs_tokens : list Z; rs_ids : list Z }.

(** What the guest is told of an endpoint. *)
Record description := Description {
  ds_handle : Z;
  ds_direction : dir;
  ds_messages : Z;
  ds_bytes : Z;
  ds_closed : bool;
  ds_sent : Z;
  ds_sentBytes : Z;
  ds_consumed : Z;
  ds_consumedBytes : Z
}.

(** How a watch settles. *)
Inductive watch_value :=
| WState (d : description)
| WPayload (d : description) (payload : list byte)
| WEnded (d : description)
| WClosed
| WMoved
| WCancelled (deadline : bool).

Inductive control := CtlRemoteClose | CtlAbort | CtlClosed.

Inductive host_event :=
| EvPost (port : Z) (message : control)
| EvClosePort (port : Z)
| EvResolve (promise : Z) (value : watch_value)
| EvReject (promise : Z) (error : string).

Record host := Host {
  h_objects : jmap Z entry;
  h_entries : list Z;
  h_supervisors : jmap Z supervisor;
  h_resources : jmap Z resource;
  h_nextId : Z;
  h_nextToken : Z;
  h_nextPort : Z;
  h_nextPromise : Z;
  h_cancelled : bool;
  h_deadline : bool;
  h_closed : bool;
  h_identities : jmap Z identity;
  h_log : list host_event
}.

(** Field updates. *)
Definition set_objects (objects : jmap Z entry) (h : host) : host :=
  Host objects (h_entries h) (h_supervisors h) (h_resources h) (h_nextId h) (h_nextToken h) (h_nextPort h)
    (h_nextPromise h) (h_cancelled h) (h_deadline h) (h_closed h) (h_identities h) (h_log h).
Definition set_entries (entries : list Z) (h : host) : host :=
  Host (h_objects h) entries (h_supervisors h) (h_resources h) (h_nextId h) (h_nextToken h) (h_nextPort h)
    (h_nextPromise h) (h_cancelled h) (h_deadline h) (h_closed h) (h_identities h) (h_log h).
Definition set_supervisors (supervisors : jmap Z supervisor) (h : host) : host :=
  Host (h_objects h) (h_entries h) supervisors (h_resources h) (h_nextId h) (h_nextToken h) (h_nextPort h)
    (h_nextPromise h) (h_cancelled h) (h_deadline h) (h_closed h) (h_identities h) (h_log h).
Definition set_resources (resources : jmap Z resource) (h : host) : host :=
  Host (h_objects h) (h_entries h) (h_supervisors h) resources (h_nextId h) (h_nextToken h) (h_nextPort h)
    (h_nextPromise h) (h_cancelled h) (h_deadline h) (h_closed h) (h_identities h) (h_log h).
Definition set_counters (nextId nextToken nextPort nextPromise : Z) (h : host) : host :=
  Host (h_objects h) (h_entries h) (h_supervisors h) (h_resources h) nextId nextToken nextPort
    nextPromise (h_cancelled h) (h_deadline h) (h_closed h) (h_identities h) (h_log h).
Definition set_flags (cancelled deadline closed : bool) (h : host) : host :=
  Host (h_objects h) (h_entries h) (h_supervisors h) (h_resources h) (h_nextId h) (h_nextToken h) (h_nextPort h)
    (h_nextPromise h) cancelled deadline closed (h_identities h) (h_log h).
Definition set_identities (ids : jmap Z identity) (h : host) : host :=
  Host (h_objects h) (h_entries h) (h_supervisors h) (h_resources h) (h_nextId h) (h_nextToken h) (h_nextPort h)
    (h_nextPromise h) (h_cancelled h) (h_deadline h) (h_closed h) ids (h_log h).
Definition log (ev : host_event) (h : host) : host :=
  Host (h_objects h) (h_entries h) (h_supervisors h) (h_resources h) (h_nextId h) (h_nextToken h) (h_nextPort h)
    (h_nextPromise h) (h_cancelled h) (h_deadline h) (h_closed h) (h_identities h) (h_log h ++ [ev]).

Definition with_endpoint (e : endpoint) (n : entry) : entry :=
  Entry e (n_control n) (n_token n) (n_messages n) (n_bytes n) (n_sent n) (n_sentBytes n) (n_watch n)
    (n_resource n) (n_listening n).
Definition with_watch (w : option watching) (n : entry) : entry :=
  Entry (n_endpoint n) (n_control n) (n_token n) (n_messages n) (n_bytes n) (n_sent n) (n_sentBytes n) w
    (n_resource n) (n_listening n).
Definition with_sent (sent sentBytes : Z) (n : entry) : entry :=
  Entry (n_endpoint n) (n_control n) (n_token n) (n_messages n) (n_bytes n) sent sentBytes (n_watch n)
    (n_resource n) (n_listening n).
Definition with_listening (listening : bool) (n : entry) : entry :=
  Entry (n_endpoint n) (n_control n) (n_token n) (n_messages n) (n_bytes n) (n_sent n) (n_sentBytes n) (n_watch n)
    (n_resource n) listening.

(** [new MessageChannelClass()] hands out two fresh ports; the guest starts with
    an empty table. *)
Definition createChannelHost : host := Host [] [] [] [] 1 1 1 1 false false false [] [].

(** ** Entries and watches *)

Definition describe (id : Z) (n : entry) : description :=
  let state := inspect (n_endpoint n) in
  Description id (e_direction (n_endpoint n)) (n_messages n) (n_bytes n)
    (in_closed state && (bool_decide (e_direction (n_endpoint n) = Sender) || (in_queued state =? 0)))
    (n_sent n) (n_sentBytes n)
    (n_sent n - (n_messages n - in_availableMessages state))
    (n_sentBytes n - (n_bytes n - in_availableBytes state)).

(** The entry object of an id. *)
Definition object (id : Z) : js host entry :=
  objects ← gets h_objects;
  match mget id objects with
  | Some n => mret n
  | None => throw "no such object"
  end.

Definition update (id : Z) (f : entry → entry) : js host () :=
  modify (λ h, match mget id (h_objects h) with
               | Some n => set_objects (mset id (f n) (h_objects h)) h
               | None => h
               end).

(** [entry.watch?.finish(value)]. *)
Definition finish (id : Z) (value : watch_value) : js host () :=
  n ← object id;
  match n_watch n with
  | None => mret tt
  | Some w =>
      update id (λ n, with_watch None (with_endpoint (unobserve (w_promise w) (n_endpoint n)).2 n)) ;;
      modify (log (EvResolve (w_promise w) value))
  end.

(** The [poll] of an entry's watch. *)
Definition poll (id : Z) : js host () :=
  n ← object id;
  match n_watch n with
  | None => mret tt
  | Some w =>
      h ← gets (λ h, h);
      if h_cancelled h then finish id (WCancelled (h_deadline h)) else
      let state := describe id n in
      match e_direction (n_endpoint n) with
      | Sender =>
          if ds_closed state || negb (js_same (w_consumed w) (VNum (NInt (ds_consumed state))))
             || negb (js_same (w_consumedBytes w) (VNum (NInt (ds_consumedBytes state))))
          then finish id (WState state) else mret tt
      | Receiver =>
          packet ← lift (peek (n_endpoint n)).1;
          match packet with
          | Received v => finish id (WPayload state (encoded v))
          | RecvClosed => finish id (WEnded state)
          | Empty => mret tt
          end
      end
  end.

(** Runs an operation of an entry's endpoint, then the observers it called: an
    endpoint calls them last. *)
Definition on_endpoint {A} (id : Z) (m : js endpoint A) : js host A :=
  n ← object id;
  let '(r, e) := m (set_called [] (n_endpoint n)) in
  update id (with_endpoint e) ;;
  for_each (e_called e) (λ _, poll id) ;;
  lift r.

(** ** Supervision *)

Definition finishSupervisor (token : Z) : js host () :=
  supervisors ← gets h_supervisors;
  match mget token supervisors with
  | None => mret tt
  | Some item =>
      let supervisors := mset token (Supervisor (sv_port item) (sv_peer item) true (sv_resource item)) supervisors in
      modify (set_supervisors supervisors) ;;
      let peer := mget (sv_peer item) supervisors in
      if match peer with Some p => sv_done p | None => true end then
        modify (log (EvClosePort (sv_port item))) ;;
        modify (λ h, set_supervisors (mdelete token (h_supervisors h)) h) ;;
        match peer with
        | Some p =>
            modify (log (EvClosePort (sv_port p))) ;;
            modify (λ h, set_supervisors (mdelete (sv_peer item) (h_supervisors h)) h)
        | None => mret tt
        end ;;
        modify (λ h, set_resources (mdelete (sv_resource item) (h_resources h)) h)
      else mret tt
  end.

Definition revoke (token : Z) : js host () :=
  supervisors ← gets h_supervisors;
  match mget token supervisors with
  | None => mret tt
  | Some item =>
      if sv_done item then mret tt else
      match mget (sv_peer item) supervisors with
      | Some peer => modify (log (EvPost (sv_port peer) CtlRemoteClose))
      | None => mret tt
      end ;;
      finishSupervisor token
  end.

(** ** Installing and dropping entries *)

(** [resource?.ids.add(id)] and [delete(id)]; a resource no longer in the table
    is reached by nothing else. *)
Definition resource_ids (f : list Z → list Z) (rid : option Z) (h : host) : host :=
  match rid with
  | None => h
  | Some r =>
      match mget r (h_resources h) with
      | Some res => set_resources (mset r (Resource (rs_tokens res) (f (rs_ids res))) (h_resources h)) h
      | None => h
      end
  end.

Definition install (e : endpoint) (control_ token messages byteLimit sent sentBytes : Z) (rid : option Z)
    : js host Z :=
  h ← gets (λ h, h);
  let id := h_nextId h in
  modify (set_counters (id + 1) (h_nextToken h) (h_nextPort h) (h_nextPromise h)) ;;
  modify (λ h, set_objects (mset id (Entry e control_ token messages byteLimit sent sentBytes None rid false)
                              (h_objects h)) h) ;;
  modify (λ h, set_entries (h_entries h ++ [id]) h) ;;
  modify (resource_ids (add_once id) rid) ;;
  update id (with_listening true) ;;
  mret id.

Definition find (id : Z) : js host entry :=
  entries ← gets h_entries;
  if decide (id ∈ entries) then object id else throw "invalid, closed, or moved channel endpoint".

(** [drop(id)]: when the endpoint's [close] throws, what follows is skipped. *)
Definition drop (id : Z) : js host () :=
  entries ← gets h_entries;
  if decide (id ∈ entries) then
    n ← object id;
    modify (λ h, set_entries (remove_once id (h_entries h)) h) ;;
    modify (resource_ids (remove_once id) (n_resource n)) ;;
    on_endpoint id close ;;
    finish id WClosed ;;
    modify (log (EvPost (n_control n) CtlClosed)) ;;
    modify (log (EvClosePort (n_control n)))
  else mret tt.

(** Runs code on the thread's identity table. *)
Definition on_identities {A} (m : js (jmap Z identity) A) : js host A :=
  zoom h_identities set_identities m.

(** [create(effect)]: the ports are the data pair and the two control pairs. *)
Definition create (messages byteLimit : jsval) : js host (description * description * Z) :=
  h ← gets (λ h, h);
  let p := h_nextPort h in
  modify (set_counters (h_nextId h) (h_nextToken h) (p + 2) (h_nextPromise h)) ;;
  '(s, r) ← on_identities (createPortChannel messages byteLimit p (p + 1));
  let senderToken := h_nextToken h in
  let receiverToken := senderToken + 1 in
  modify (λ h, set_counters (h_nextId h) (senderToken + 2) (p + 6) (h_nextPromise h) h) ;;
  modify (λ h, set_resources (mset senderToken (Resource [senderToken; receiverToken] []) (h_resources h)) h) ;;
  modify (λ h, set_supervisors
    (mset receiverToken (Supervisor (p + 4) senderToken false senderToken)
       (mset senderToken (Supervisor (p + 2) receiverToken false senderToken) (h_supervisors h))) h) ;;
  sender ← install s (p + 3) senderToken (e_messages s) (e_bytes s) 0 0 (Some senderToken);
  receiver ← install r (p + 5) receiverToken (e_messages s) (e_bytes s) 0 0 (Some senderToken);
  sn ← object sender;
  rn ← object receiver;
  mret (describe sender sn, describe receiver rn, senderToken).

(** [release(resourceId)]. *)
Definition release (resourceId : jsval) : js host () :=
  resources ← gets h_resources;
  match resourceId with
  | VNum (NInt rid) =>
      match mget rid resources with
      | None => mret tt
      | Some res =>
          for_each (rs_ids res) drop ;;
          for_each (rs_tokens res) (λ token,
            supervisors ← gets h_supervisors;
            match mget token supervisors with
            | Some item => modify (log (EvPost (sv_port item) CtlAbort))
            | None => mret tt
            end) ;;
          for_each (rs_tokens res) finishSupervisor ;;
          modify (λ h, set_resources (mdelete rid (h_resources h)) h)
      end
  | _ => mret tt
  end.

(** [watch(entry, effect)]: the promise; a throw of the first poll rejects it. *)
Definition watch (id : Z) (consumed consumedBytes : jsval) : js host Z :=
  n ← object id;
  match n_watch n with
  | Some _ => throw "a channel endpoint already has a host watch"
  | None =>
      promise ← gets h_nextPromise;
      modify (λ h, set_counters (h_nextId h) (h_nextToken h) (h_nextPort h) (promise + 1) h) ;;
      update id (with_watch (Some (Watching promise consumed consumedBytes))) ;;
      update id (λ n, with_endpoint (observe (Some promise) (n_endpoint n)).2 n) ;;
      try_catch (poll id) (λ error, modify (log (EvReject promise error))) ;;
      mret promise
  end.

(** A channel effect of the guest, by its operation. *)
Inductive channel_effect :=
| EfCreate (messages bytes : jsval)
| EfRelease (resources : list jsval)
| EfClose (handle : jsval)
| EfSend (handle : jsval) (payload : option (list byte)) (post_fails : option string)
| EfConsume (handle : jsval)
| EfWatch (handle : jsval) (consumed consumedBytes : jsval)
| EfOther (handle : jsval) (operation : string).

Inductive channel_reply :=
| ReCreated (sender receiver : description) (resource : Z)
| ReEmpty
| ReSent (d : description) (closed : bool)
| RePromise (promise : Z).

(** Ids of the table are integers: no other handle names one. *)
Definition find_handle (handle : jsval) : js host Z :=
  match handle with
  | VNum (NInt id) => find id ;; mret id
  | _ => throw "invalid, closed, or moved channel endpoint"
  end.

(** What follows [trySend] in the [send] operation. *)
Definition send_reply (id : Z) (value : list byte) (result : send_status) : js host channel_reply :=
  match result with
  | Sent => update id (λ n, with_sent (n_sent n + 1) (n_sentBytes n + zlen value) n)
  | SendClosed => mret tt
  | SendFull => throw "channel credit accounting disagrees with the guest"
  end ;;
  n ← object id;
  mret (ReSent (describe id n) (match result with SendClosed => true | _ => false end)).

Definition perform_send (id : Z) (payload : option (list byte)) (post_fails : option string)
    : js host channel_reply :=
  value ← lift (bytes payload);
  result ← on_endpoint id (trySend (Owned value) post_fails);
  send_reply id value result.

Definition perform (effect : channel_effect) : js host channel_reply :=
  closed ← gets h_closed;
  if (closed : bool) then throw "the channel host is closed" else
  match effect with
  | EfCreate messages byteLimit =>
      '(s, r, rid) ← create messages byteLimit;
      mret (ReCreated s r rid)
  | EfRelease resources => for_each resources release ;; mret ReEmpty
  | EfClose handle =>
      match handle with VNum (NInt id) => drop id | _ => mret tt end ;; mret ReEmpty
  | EfSend handle payload post_fails => id ← find_handle handle; perform_send id payload post_fails
  | EfConsume handle =>
      id ← find_handle handle;
      packet ← on_endpoint id tryReceive;
      match packet with
      | Received _ => mret ReEmpty
      | _ => throw "a staged channel message is missing"
      end
  | EfWatch handle consumed consumedBytes =>
      id ← find_handle handle;
      promise ← watch id consumed consumedBytes;
      mret (RePromise promise)
  | EfOther handle operation =>
      id ← find_handle handle;
      throw ("unsupported channel operation " +:+ operation)
  end.

(** ** Moving endpoints between guests *)

(** An item of startup framing. *)
Record transfer_item := TransferItem {
  ti_snapshot : snapshot;
  ti_control : Z;
  ti_token : Z;
  ti_sent : Z;
  ti_sentBytes : Z
}.

(** [adoptPortEndpoint(item.snapshot).close()] on an endpoint no table holds: the
    packets it posts go out and it is gone. *)
Definition adopt_and_close (s : snapshot) : js host () :=
  on_identities (adoptPortEndpoint (Some s)) ;; mret tt.

Definition control_closed (item : transfer_item) : js host () :=
  modify (log (EvPost (ti_control item) CtlClosed)) ;;
  modify (log (EvClosePort (ti_control item))).

Fixpoint find_all (ids : list jsval) : js host (list Z) :=
  match ids with
  | [] => mret []
  | handle :: ids' => id ← find_handle handle; rest ← find_all ids'; mret (id :: rest)
  end.

(** [entry.endpoint.move()] on the entry and the identity table. *)
Definition move_entry (id : Z) : js host snapshot := λ h,
  match mget id (h_objects h) with
  | None => (Throw "no such object", h)
  | Some n =>
      let '(r, (ids, e)) := move (h_identities h, set_called [] (n_endpoint n)) in
      (r, set_identities ids (set_objects (mset id (with_endpoint e n) (h_objects h)) h))
  end.

(** The loop of [take]: the snapshots made so far come with either outcome. *)
Fixpoint take_loop (ids : list Z) (snapshots : list transfer_item)
    : js host (list transfer_item * option string) :=
  match ids with
  | [] => mret (snapshots, None)
  | id :: ids' => λ h,
      match (finish id WMoved ;;
             update id (with_listening false) ;;
             s ← move_entry id;
             n ← object id;
             modify (λ h, set_entries (remove_once id (h_entries h)) h) ;;
             modify (resource_ids (remove_once id) (n_resource n)) ;;
             mret (TransferItem s (n_control n) (n_token n) (n_sent n) (n_sentBytes n))) h with
      | (Ok item, h') => take_loop ids' (snapshots ++ [item]) h'
      | (Throw e, h') => (Ok (snapshots, Some e), h')
      end
  end.

(** [take(ids)]; [None] is no array. *)
Definition take (ids : option (list jsval)) : js host (list transfer_item) :=
  match ids with
  | None => throw "invalid endpoint startup list"
  | Some handles =>
      guard_js (negb (bool_decide (NoDup handles))) "invalid endpoint startup list" ;;
      found ← find_all handles;
      '(snapshots, failed) ← take_loop found [];
      match failed with
      | None => mret snapshots
      | Some error =>
          for_each snapshots (λ item, adopt_and_close (ti_snapshot item) ;; control_closed item) ;;
          for_each found drop ;;
          throw error
      end
  end.

(** The loop of [adopt]: the ids installed so far come with either outcome. *)
Fixpoint adopt_loop (items : list transfer_item) (adopted : list Z) : js host (list Z * option string) :=
  match items with
  | [] => mret (adopted, None)
  | item :: items' => λ h,
      match (e ← on_identities (adoptPortEndpoint (Some (ti_snapshot item)));
             install e (ti_control item) (ti_token item) (e_messages e) (e_bytes e)
               (ti_sent item) (ti_sentBytes item) None) h with
      | (Ok id, h') => adopt_loop items' (adopted ++ [id]) h'
      | (Throw e, h') => (Ok (adopted, Some e), h')
      end
  end.

Fixpoint describe_all (ids : list Z) : js host (list description) :=
  match ids with
  | [] => mret []
  | id :: ids' => n ← object id; ds ← describe_all ids'; mret (describe id n :: ds)
  end.

(** [adopt(snapshots)]. *)
Definition adopt (items : list transfer_item) : js host (list description) :=
  '(adopted, failed) ← adopt_loop items [];
  match failed with
  | None => describe_all adopted
  | Some error =>
      for_each adopted drop ;;
      for_each (list.drop (length adopted) items) (λ item,
        try_catch (adopt_and_close (ti_snapshot item)) (λ _, mret tt) ;; control_closed item) ;;
      throw error
  end.

(** [discard(snapshots)]. *)
Definition discard (items : list transfer_item) : js host () :=
  for_each items (λ item,
    try_catch (adopt_and_close (ti_snapshot item)) (λ _, mret tt) ;;
    control_closed item ;;
    revoke (ti_token item)).

(** ** The run's end *)

Definition interrupt (isDeadline : bool) : js host () :=
  modify (λ h, set_flags true isDeadline (h_closed h) h) ;;
  entries ← gets h_entries;
  for_each entries (λ id, finish id (WCancelled isDeadline)).

Definition reset : js host () := modify (λ h, set_flags false false (h_closed h) h).

Definition settle : js host () := entries ← gets h_entries; for_each entries drop.

Definition close_host : js host () :=
  closed ← gets h_closed;
  if (closed : bool) then mret tt else
  modify (λ h, set_flags (h_cancelled h) (h_deadline h) true h) ;;
  entries ← gets h_entries;
  for_each entries drop ;;
  supervisors ← gets h_supervisors;
  for_each supervisors.*1 revoke ;;
  rest ← gets h_supervisors;
  for_each rest (λ p, modify (log (EvClosePort (sv_port p.2)))) ;;
  modify (set_supervisors []) ;;
  modify (set_resources []).

(** Sizes, and the entries that have a watch. *)
Definition inspect_host (h : host) : Z * Z * Z * Z :=
  (zlen (h_entries h), zlen (h_supervisors h), zlen (h_resources h),
   zlen (List.filter (λ id, match mget id (h_objects h) with
                            | Some n => bool_decide (is_Some (n_watch n)) | None => false end) (h_entries h))).

(** ** Messages *)

(** What the control port of an entry and the port of a supervisor receive. *)
Definition controlMessage (id : Z) (message : control) : js host () :=
  n ← object id;
  if negb (n_listening n) then mret tt else
  match message with
  | CtlRemoteClose => on_endpoint id remoteClose
  | CtlAbort => drop id
  | CtlClosed => mret tt
  end.

Definition supervisorMessage (token : Z) (message : control) : js host () :=
  match message with CtlClosed => finishSupervisor token | _ => mret tt end.

(** A packet on the data port of an entry. *)
Definition dataMessage (id : Z) (p : packet) : js host () :=
  n ← object id;
  if e_listening (n_endpoint n) then on_endpoint id (arrived p) else mret tt.
