(* ===== verification/ChannelTable.v ===== *)
(** Invariants of the endpoint table of [src/runtime/wasm/channel-host.mjs]. *)

From S2P Require Import Prelude Base64 PortChannel PortPair ChannelHost.

(** ** The invariant *)

(** An entry object against its endpoint: the limits agree, what is outstanding
    was sent, and the endpoint's only observer is the entry's watch. *)
Record object_ok (n : entry) : Prop := {
  ob_wf : endpoint_wf (n_endpoint n);
  ob_messages : e_messages (n_endpoint n) = n_messages n;
  ob_bytes : e_bytes (n_endpoint n) = n_bytes n;
  ob_sent : e_direction (n_endpoint n) = Sender →
    n_messages n - e_slots (n_endpoint n) <= n_sent n ∧
    n_bytes n - e_room (n_endpoint n) <= n_sentBytes n;
  ob_waiters : e_waiters (n_endpoint n) = [];
  ob_observers : e_observers (n_endpoint n) = match n_watch n with Some w => [w_promise w] | None => [] end
}.

(** The promises resolved so far. *)
Definition resolved (evs : list host_event) : list Z :=
  omap (λ ev, match ev with EvResolve p _ => Some p | _ => None end) evs.

Record table_wf (h : host) : Prop := {
  t_object : ∀ id n, mget id (h_objects h) = Some n → object_ok n;
  t_entries : ∀ id, id ∈ h_entries h → is_Some (mget id (h_objects h));
  t_nodup : NoDup (h_entries h);
  t_fresh : ∀ id n, mget id (h_objects h) = Some n → id < h_nextId h;
  t_pending : ∀ id n w, mget id (h_objects h) = Some n → n_watch n = Some w →
    w_promise w < h_nextPromise h ∧ w_promise w ∉ resolved (h_log h);
  t_unique : ∀ id1 id2 n1 n2 w1 w2, mget id1 (h_objects h) = Some n1 → mget id2 (h_objects h) = Some n2 →
    n_watch n1 = Some w1 → n_watch n2 = Some w2 → w_promise w1 = w_promise w2 → id1 = id2;
  t_resolved : NoDup (resolved (h_log h)) ∧ ∀ p, p ∈ resolved (h_log h) → p < h_nextPromise h
}.

(** ** Frames *)

(** The invariant reads five fields; the log only through its resolutions. *)
Lemma table_frame h h' :
  h_objects h' = h_objects h → h_entries h' = h_entries h → h_nextId h' = h_nextId h →
  h_nextPromise h' = h_nextPromise h → resolved (h_log h') = resolved (h_log h) →
  table_wf h → table_wf h'.
Proof. intros E1 E2 E3 E4 E5 []. split; rewrite ?E1, ?E2, ?E3, ?E4, ?E5; done. Qed.

Lemma table_log ev : (∀ p v, ev ≠ EvResolve p v) → ∀ h, table_wf h → table_wf (log ev h).
Proof.
  intros Hev h. apply table_frame; try done. simpl. unfold resolved. rewrite omap_app.
  destruct ev; simpl; rewrite ?app_nil_r; try done. by destruct (Hev promise value).
Qed.

Lemma table_resource_ids f rid h : table_wf h → table_wf (resource_ids f rid h).
Proof. unfold resource_ids. destruct rid; [|done]. destruct (mget _ _); [|done]. by apply table_frame. Qed.

Lemma table_remove id h : table_wf h → table_wf (set_entries (remove_once id (h_entries h)) h).
Proof.
  intros []. split; try done; simpl; unfold remove_once.
  - intros x [_ Hx]%list_elem_of_filter. auto.
  - by apply NoDup_filter.
Qed.

(** An entry object changed in place, its watch kept. *)
Lemma table_update id f h :
  (∀ n, mget id (h_objects h) = Some n → object_ok n → object_ok (f n) ∧ n_watch (f n) = n_watch n) →
  table_wf h → table_wf (update id f h).2.
Proof.
  intros Hf Hw. pose proof Hw as []. unfold update, modify. simpl.
  destruct (mget id (h_objects h)) as [n|] eqn:E; [|done].
  assert (∀ i n', mget i (mset id (f n) (h_objects h)) = Some n' →
    ∃ n0, mget i (h_objects h) = Some n0 ∧ n_watch n' = n_watch n0 ∧ object_ok n') as Hget.
  { intros i n'. destruct (decide (id = i)) as [->|Hne].
    - rewrite mget_mset_eq. intros [= <-]. destruct (Hf n) as [? ?]; [done|eauto|]. eauto.
    - rewrite mget_mset_ne by done. eauto. }
  split; simpl; try done.
  - intros i n' (n0 & _ & _ & ?)%Hget. done.
  - intros i Hi. apply is_Some_mget_mset. auto.
  - intros i n' (n0 & H0 & _)%Hget. eauto.
  - intros i n' w (n0 & H0 & -> & _)%Hget. eauto.
  - intros i1 i2 n1 n2 w1 w2 (m1 & ? & -> & _)%Hget (m2 & ? & -> & _)%Hget. eauto.
Qed.

Lemma table_object id : preserves table_wf (object id).
Proof. unfold object. preserve. Qed.

#[export] Hint Resolve table_object : jsinv.

(** ** Watches *)

Lemma unobserve_own w n :
  object_ok n → n_watch n = Some w →
  object_ok (with_watch None (with_endpoint (unobserve (w_promise w) (n_endpoint n)).2 n)).
Proof.
  intros [] Hw. split; simpl; try done.
  - by apply (wf_accounting (n_endpoint n)).
  - rewrite ob_observers0, Hw. unfold remove_once. by rewrite filter_cons_False by naive_solver.
Qed.

Lemma table_finish id v : preserves table_wf (finish id v).
Proof.
  intros h Hw. unfold finish, object, mbind, js_bind, gets. simpl.
  destruct (mget id (h_objects h)) as [n|] eqn:E; simpl; [|done].
  destruct (n_watch n) as [w|] eqn:Ew; [|done]. simpl. rewrite E. simpl. pose proof Hw as [].
  destruct (t_pending0 id n w E Ew) as [Hp Hnr].
  set (n' := with_watch None _).
  pose proof (λ i x, mget_mset_Some id i n' x (h_objects h)) as Hget.
  assert (resolved (h_log h ++ [EvResolve (w_promise w) v]) = resolved (h_log h) ++ [w_promise w]) as Hr.
  { unfold resolved. by rewrite omap_app. }
  split; simpl; rewrite ?Hr.
  - intros i x [[-> ->]|[_ Hx]]%Hget; [|eauto]. apply unobserve_own; eauto.
  - intros i Hi. apply is_Some_mget_mset. auto.
  - done.
  - intros i x [[-> ->]|[_ Hx]]%Hget; eauto.
  - intros i x w' [[-> ->]|[Hne Hx]]%Hget Hw'; [done|]. destruct (t_pending0 _ _ _ Hx Hw') as [? Hnot].
    split; [done|]. rewrite elem_of_app, list_elem_of_singleton. intros [?|He]; [done|].
    apply Hne. by eapply t_unique0.
  - intros i1 i2 n1 n2 w1 w2 [[-> ->]|[? ?]]%Hget [[-> ->]|[? ?]]%Hget; try done. eauto.
  - destruct t_resolved0 as [Hnd Hlt]. split.
    + apply NoDup_app. split; [done|]. split; [|apply NoDup_singleton].
      intros x Hx ->%list_elem_of_singleton. done.
    + intros p [?| ->%list_elem_of_singleton]%elem_of_app; auto.
Qed.

#[export] Hint Resolve table_finish : jsinv.

Lemma table_poll id : preserves table_wf (poll id).
Proof. unfold poll. preserve. Qed.

#[export] Hint Resolve table_poll : jsinv.

(** ** Operations of endpoints *)

(** An endpoint operation the table may run: it keeps the endpoint well formed,
    its limits and its observers, and spends no credit. *)
Definition kept (e e' : endpoint) : Prop :=
  endpoint_wf e' ∧ e_messages e' = e_messages e ∧ e_bytes e' = e_bytes e ∧ e_direction e' = e_direction e ∧
  e_waiters e' = [] ∧ e_observers e' = e_observers e ∧ e_slots e <= e_slots e' ∧ e_room e <= e_room e'.

Definition calm {A} (m : js endpoint A) : Prop :=
  ∀ e, endpoint_wf e → e_waiters e = [] → kept e (m e).2.

Lemma kept_closed e : endpoint_wf e → e_live e = true → kept e (closed_endpoint e).
Proof.
  intros Hwf Hl. pose proof (wf_close e Hwf) as Hc. rewrite close_live in Hc by done.
  repeat split; simpl; try done; lia || apply Hc.
Qed.

Lemma kept_refl e : endpoint_wf e → e_waiters e = [] → kept e e.
Proof. intros. split; [done|]. repeat split; done || lia. Qed.

Lemma calm_close : calm close.
Proof.
  intros e Hwf Hw. destruct (e_live e) eqn:El.
  - rewrite close_live by done. by apply kept_closed.
  - rewrite close_dead by done. by apply kept_refl.
Qed.

Lemma kept_woken e e' : endpoint_wf e' → kept e e' → kept e (woken e').
Proof. intros Hwf (? & ? & ? & ? & ? & ? & ? & ?). split; [by apply wf_wake|]. repeat split; done. Qed.

Lemma calm_remoteClose : calm remoteClose.
Proof.
  intros e Hwf Hw. rewrite remoteClose_run. simpl. destruct (e_live e) eqn:El; [|by apply kept_refl].
  assert (endpoint_wf (PortChannel.set_closed e)) by (by apply (wf_accounting e)).
  apply kept_woken; [done|]. split; [done|]. repeat split; done || (simpl; lia).
Qed.

Lemma calm_tryReceive : calm tryReceive.
Proof.
  intros e Hwf Hw. pose proof (wf_tryReceive e Hwf).
  destruct (tryReceive_cases e) as [(r & -> & _)|(v & queue & Eq & Hl & E)]; [by apply kept_refl|].
  rewrite E in *. split; [done|]. repeat split; done || (simpl; lia).
Qed.

(** What an arriving packet can do. *)
Lemma arrived_cases p e :
  (arrived p e).2 = e ∨ (e_live e = true ∧ (arrived p e).2 = closed_endpoint e) ∨
  ∃ e', (arrived p e).2 = woken e' ∧ e_messages e' = e_messages e ∧ e_bytes e' = e_bytes e ∧
    e_direction e' = e_direction e ∧ e_observers e' = e_observers e ∧ e_slots e <= e_slots e' ∧
    e_room e <= e_room e'.
Proof.
  destruct (arrived p e) as [r e1] eqn:Ha. unfold arrived, mbind at 1, js_bind at 1, gets, id in Ha.
  destruct (e_live e) eqn:El; cbn [negb] in Ha; [|left; by injection Ha as <- <-].
  assert (∀ e', woken e' = e1 → e_messages e' = e_messages e → e_bytes e' = e_bytes e →
    e_direction e' = e_direction e → e_observers e' = e_observers e → e_slots e <= e_slots e' →
    e_room e <= e_room e' → ∃ e', e1 = woken e' ∧ e_messages e' = e_messages e ∧ e_bytes e' = e_bytes e ∧
    e_direction e' = e_direction e ∧ e_observers e' = e_observers e ∧ e_slots e <= e_slots e' ∧
    e_room e <= e_room e') as Hk by (intros e' <- ? ? ? ? ? ?; by exists e').
  pose proof (close_live e El) as Hc. simpl. destruct (e_direction e) eqn:Ed.
  - destruct p as [q|ms bs| | |]; [| | |right; right|].
    1, 3, 5: (destruct (e_closed e); rewrite ?Hc in Ha; injection Ha as <- <-; [by left|by right; left]).
    + destruct (e_closed e); [injection Ha as <- <-; by left|].
      destruct (credit_of ms bs e) as [n|] eqn:Ec; [|rewrite Hc in Ha; injection Ha as <- <-; by right; left].
      apply credit_of_Some in Ec as (_ & _ & ? & _). right; right. injection Ha as _ He.
      eapply Hk; [exact He|done..| |]; simpl; lia.
    + injection Ha as _ He. eapply Hk; [exact He|done..| |]; simpl; lia.
  - assert ((match value_of p e with
      | Some v => modify (set_queue (e_retained e + zlen v) (e_queue e ++ [v])) ;; wake
      | None => close end e) = (r, e1) →
      e1 = closed_endpoint e ∨ ∃ e', e1 = woken e' ∧ e_messages e' = e_messages e ∧ e_bytes e' = e_bytes e ∧
      e_direction e' = Receiver ∧ e_observers e' = e_observers e ∧ e_slots e <= e_slots e' ∧
      e_room e <= e_room e') as Hv.
    { destruct (value_of p e); [intros [= <- He]; right|rewrite Hc; intros [= <- He]; by left]. eapply Hk; [exact He|done..| |]; simpl; lia. }
    right. destruct p; try (destruct (Hv Ha) as [?|?]; [by left|by right]).
    right. injection Ha as _ He. eapply Hk; [exact He|done..| |]; simpl; lia.
Qed.

Lemma calm_arrived p : calm (arrived p).
Proof.
  intros e Hwf Hw. pose proof (wf_arrived p e Hwf) as Ha.
  destruct (arrived_cases p e) as [E|[[Hl E]|(e' & E & ? & ? & ? & ? & ? & ?)]]; rewrite E in *.
  - by apply kept_refl.
  - by apply kept_closed.
  - split; [done|]. by repeat split.
Qed.

#[export] Hint Resolve calm_close calm_remoteClose calm_tryReceive calm_arrived : jsinv.

Lemma object_kept e' n : object_ok n → kept (n_endpoint n) e' → object_ok (with_endpoint e' n).
Proof.
  intros [] (? & ? & ? & Hd & ? & ? & ? & ?). split; simpl; try congruence; try done.
  rewrite Hd. intros Hs. destruct (ob_sent0 Hs). lia.
Qed.

(** The endpoint with its record of calls emptied. *)
Lemma calm_recalled {A} (m : js endpoint A) n :
  calm m → object_ok n → kept (n_endpoint n) (m (set_called [] (n_endpoint n))).2.
Proof.
  intros Hm []. apply (Hm (set_called [] (n_endpoint n))); [|done]. by apply (wf_accounting (n_endpoint n)).
Qed.

Lemma object_run id n h : mget id (h_objects h) = Some n → object id h = (Ok n, h).
Proof. intros H. unfold object, mbind, js_bind, gets. by rewrite H. Qed.

Lemma update_run id f n h :
  mget id (h_objects h) = Some n → update id f h = (Ok tt, set_objects (mset id (f n) (h_objects h)) h).
Proof. intros H. unfold update, modify. by rewrite H. Qed.

(** Running an operation on an entry's endpoint, given what it does to this one. *)
Lemma table_on_endpoint_at {A} id (m : js endpoint A) h :
  (∀ n, mget id (h_objects h) = Some n → object_ok n →
        kept (n_endpoint n) (m (set_called [] (n_endpoint n))).2) →
  table_wf h → table_wf (on_endpoint id m h).2.
Proof.
  intros Hm Hw. unfold on_endpoint. destruct (mget id (h_objects h)) as [n|] eqn:E.
  2: { unfold object, mbind, js_bind, gets. by rewrite E. }
  erewrite bind_run by (by apply object_run).
  specialize (Hm n eq_refl (t_object _ Hw _ _ E)).
  destruct (m (set_called [] (n_endpoint n))) as [r e]. simpl in Hm.
  assert (preserves table_wf (for_each (e_called e) (λ _, poll id) ;; lift r)) as Hp by preserve.
  erewrite bind_run by (by apply update_run). apply Hp.
  pose proof (table_update id (with_endpoint e) h) as Hu. rewrite (update_run _ _ n) in Hu by done.
  apply Hu; [|done]. intros n' Hn' Hok. rewrite E in Hn'. injection Hn' as <-.
  split; [by apply object_kept|done].
Qed.

Lemma table_on_endpoint {A} id (m : js endpoint A) : calm m → preserves table_wf (on_endpoint id m).
Proof. intros Hm h Hw. apply table_on_endpoint_at; [|done]. intros. by apply calm_recalled. Qed.

#[export] Hint Resolve table_on_endpoint : jsinv.

(** ** Operations of the table *)

(** Discharges the [modify]s that leave the entries' objects alone. *)
Ltac table := preserve; try (apply preserves_modify; intros ? ?);
  first [ done | by apply table_resource_ids | by apply table_remove
        | by apply table_log | match goal with H : table_wf ?h |- _ => by apply (table_frame h) end | idtac ].

Lemma table_on_identities {A} (m : js (jmap Z identity) A) : preserves table_wf (on_identities m).
Proof. intros h Hw. unfold on_identities, zoom. destruct (m _). by apply (table_frame h). Qed.

Lemma table_finishSupervisor token : preserves table_wf (finishSupervisor token).
Proof. unfold finishSupervisor. table. Qed.

#[export] Hint Resolve table_on_identities table_finishSupervisor : jsinv.

Lemma table_revoke token : preserves table_wf (revoke token).
Proof. unfold revoke. table. Qed.

Lemma table_drop id : preserves table_wf (drop id).
Proof. unfold drop. table. Qed.

#[export] Hint Resolve table_revoke table_drop : jsinv.

Lemma table_find_handle handle : preserves table_wf (find_handle handle).
Proof. unfold find_handle, find. table. Qed.

#[export] Hint Resolve table_find_handle : jsinv.

Lemma table_release rid : preserves table_wf (release rid).
Proof. unfold release. table. Qed.

#[export] Hint Resolve table_release : jsinv.

(** An endpoint fit to become an entry with [sent] messages of [sentBytes] bytes. *)
Definition installable (e : endpoint) (sent sentBytes : Z) : Prop :=
  endpoint_wf e ∧ e_waiters e = [] ∧ e_observers e = [] ∧
  (e_direction e = Sender → e_messages e - e_slots e <= sent ∧ e_bytes e - e_room e <= sentBytes).

Lemma table_install e c t m b sent sentBytes rid :
  installable e sent sentBytes → e_messages e = m → e_bytes e = b →
  preserves table_wf (install e c t m b sent sentBytes rid).
Proof.
  intros (Hwf & Hwt & Hob & Hs) <- <- h Hw. unfold install, mbind, js_bind, gets, modify. simpl.
  set (n := Entry e c t (e_messages e) (e_bytes e) sent sentBytes None rid false).
  apply (table_update _ (with_listening true)).
  { intros n' _ []. by split. }
  apply table_resource_ids. pose proof Hw as []. set (i := h_nextId h).
  assert (mget i (h_objects h) = None) as Hnone.
  { destruct (mget i (h_objects h)) as [x|] eqn:E; [|done]. pose proof (t_fresh0 _ _ E). lia. }
  pose proof (λ j x, mget_mset_Some i j n x (h_objects h)) as Hget.
  split; simpl; try done.
  - intros j x [[-> ->]|[_ ?]]%Hget; [by split|eauto].
  - intros j [Hj| ->%list_elem_of_singleton]%elem_of_app; [|rewrite mget_mset_eq; eauto].
    apply is_Some_mget_mset. auto.
  - apply NoDup_app. split; [done|]. split; [|apply NoDup_singleton].
    intros j Hj ->%list_elem_of_singleton. destruct (t_entries0 _ Hj) as [? ?]. congruence.
  - intros j x [[-> _]|[_ H]]%Hget; [unfold i; lia|]. apply t_fresh0 in H. lia.
  - intros j x w [[-> ->]|[_ ?]]%Hget ?; [done|eauto].
  - intros j1 j2 x1 x2 w1 w2 [[-> ->]|[_ ?]]%Hget [[-> ->]|[_ ?]]%Hget ? ?; [done..|]. eauto.
Qed.

(** The endpoints of a new channel can be installed with nothing sent. *)
Lemma created_installable port d m b ids e ids' :
  create_endpoint (unsaved port d m b) ids = (Ok e, ids') → installable e 0 0.
Proof.
  intros (Hwf & _ & _ & Hw & Ho & _ & _ & _ & _ & q & Ha)%create_endpoint_Ok.
  split; [done|]. split; [done|]. split; [done|]. intros _. pose proof Hwf as [Hm Hb _ _ _ _ _ _].
  unfold checked_accounting in Ha. simpl in Ha. rewrite !within_int in Ha by lia.
  destruct (_ <? _); [done|]. injection Ha as _ <- <- _. lia.
Qed.

Lemma createPortChannel_installable m b p1 p2 ids s r ids' :
  createPortChannel m b p1 p2 ids = (Ok (s, r), ids') →
  installable s 0 0 ∧ installable r 0 0 ∧ e_messages r = e_messages s ∧ e_bytes r = e_bytes s.
Proof.
  unfold createPortChannel. intros (_ & ids1 & _ & H)%bind_Ok.
  apply bind_Ok in H as (s' & ids2 & Hs & H). apply bind_Ok in H as (r' & ids3 & Hr & H).
  injection H as -> -> _. pose proof (created_installable _ _ _ _ _ _ _ Hs).
  pose proof (created_installable _ _ _ _ _ _ _ Hr).
  apply create_endpoint_Ok in Hs as (_ & _ & _ & _ & _ & _ & _ & Ls & _).
  apply create_endpoint_Ok in Hr as (_ & _ & _ & _ & _ & _ & _ & Lr & _).
  simpl in Ls, Lr. rewrite Ls in Lr. injection Lr as -> ->. done.
Qed.

Lemma table_create m b : preserves table_wf (create m b).
Proof.
  intros h Hw. unfold create. unfold mbind at 1, js_bind at 1, gets.
  unfold mbind at 1, js_bind at 1, modify at 1. unfold mbind at 1, js_bind at 1.
  set (h1 := set_counters _ _ _ _ h). assert (table_wf h1) as H1 by (by apply (table_frame h)).
  unfold on_identities, zoom.
  destruct (createPortChannel m b _ _ (h_identities h1)) as [[[s r]|] ids] eqn:E; [|by apply (table_frame h1)].
  apply createPortChannel_installable in E as (Hs & Hr & Em & Eb).
  assert (table_wf (set_identities ids h1)) as H2 by (by apply (table_frame h1)). revert H2.
  generalize (set_identities ids h1). clear - Hs Hr Em Eb. intros h' H2.
  assert (∀ c t rid, preserves table_wf (install s c t (e_messages s) (e_bytes s) 0 0 rid)) as Is
    by (intros; by apply table_install).
  assert (∀ c t rid, preserves table_wf (install r c t (e_messages s) (e_bytes s) 0 0 rid)) as Ir
    by (intros; by apply table_install).
  match goal with |- table_wf (?k h').2 => assert (preserves table_wf k) as Hp; [|by apply Hp] end.
  table.
Qed.

#[export] Hint Resolve table_create : jsinv.

(** A watch begins: its promise is new, and it becomes the endpoint's observer. *)
Lemma table_begin_watch id n w h :
  table_wf h → mget id (h_objects h) = Some n → n_watch n = None → w_promise w = h_nextPromise h →
  table_wf (set_objects
    (mset id (with_endpoint (observe (Some (w_promise w)) (n_endpoint n)).2 (with_watch (Some w) n)) (h_objects h))
    (set_counters (h_nextId h) (h_nextToken h) (h_nextPort h) (w_promise w + 1) h)).
Proof.
  intros Hw E En Ep. pose proof Hw as []. set (n' := with_endpoint _ _).
  pose proof (λ j x, mget_mset_Some id j n' x (h_objects h)) as Hget.
  destruct (t_object0 id n E). split; simpl; try done.
  - intros j x [[-> ->]|[_ ?]]%Hget; [|eauto]. split; simpl; try done.
    + by apply (wf_accounting (n_endpoint n)).
    + by rewrite ob_observers0, En.
  - intros j Hj. apply is_Some_mget_mset. auto.
  - intros j x [[-> _]|[_ ?]]%Hget; eauto.
  - intros j x w' [[-> ->]|[_ Hx]]%Hget; simpl; [intros [= <-]|intros Hx'].
    + split; [lia|]. intros Hin. destruct t_resolved0 as [_ Hlt]. specialize (Hlt _ Hin). lia.
    + destruct (t_pending0 _ _ _ Hx Hx'). split; [lia|done].
  - intros j1 j2 x1 x2 w1 w2 [[-> ->]|[? H1]]%Hget [[-> ->]|[? H2]]%Hget; simpl; try done.
    + intros [= <-] Hw2 ?. destruct (t_pending0 _ _ _ H2 Hw2). lia.
    + intros Hw1 [= <-] ?. destruct (t_pending0 _ _ _ H1 Hw1). lia.
    + eauto.
  - destruct t_resolved0 as [? Hlt]. split; [done|]. intros p Hp%Hlt. lia.
Qed.

Lemma table_watch id consumed consumedBytes : preserves table_wf (watch id consumed consumedBytes).
Proof.
  intros h Hw. unfold watch. destruct (mget id (h_objects h)) as [n|] eqn:E.
  2: { unfold object, mbind, js_bind, gets. by rewrite E. }
  erewrite bind_run by (by apply object_run). destruct (n_watch n) eqn:En; [done|].
  set (p := h_nextPromise h). erewrite bind_run by done. fold p. erewrite bind_run by done.
  erewrite bind_run by (by apply update_run). erewrite bind_run by (by apply update_run, mget_mset_eq).
  cbn [h_objects set_objects]. rewrite mset_mset.
  pose proof (table_begin_watch id n (Watching p consumed consumedBytes) h Hw E En eq_refl) as Hb.
  assert (preserves table_wf (try_catch (poll id) (λ error, modify (log (EvReject p error))) ;; mret p)) as Hp by table.
  apply (Hp _ Hb).
Qed.

#[export] Hint Resolve table_watch : jsinv.

(** A payload sent: the credit it spends is counted as sent at once. *)
Lemma object_sent v n :
  object_ok n → e_slots (n_endpoint n) ≠ 0 → zlen v <= e_room (n_endpoint n) →
  object_ok (with_sent (n_sent n + 1) (n_sentBytes n + zlen v)
    (with_endpoint (sent_endpoint (set_called [] (n_endpoint n)) v) n)).
Proof.
  intros [Hwf] H0 Hv. pose proof (zlen_nonneg v). split; simpl; try done.
  - apply (wf_accounting (set_credit (e_slots (n_endpoint n) - 1) (e_room (n_endpoint n) - zlen v) (n_endpoint n)));
      try done. destruct Hwf. apply wf_credit; [by split|lia..].
  - intros Hs. destruct (ob_sent0 Hs). lia.
Qed.

(** [on_endpoint] when the operation throws, or calls no observer. *)
Lemma on_endpoint_quiet {A} id (m : js endpoint A) n r e h :
  mget id (h_objects h) = Some n → m (set_called [] (n_endpoint n)) = (r, e) → e_called e = [] →
  on_endpoint id m h = (r, set_objects (mset id (with_endpoint e n) (h_objects h)) h).
Proof.
  intros E Em Ec. unfold on_endpoint. erewrite bind_run by (by apply object_run). rewrite Em.
  erewrite bind_run by (by apply update_run). by rewrite Ec.
Qed.

Lemma on_endpoint_throws {A} id (m : js endpoint A) n err e h a h' :
  mget id (h_objects h) = Some n → m (set_called [] (n_endpoint n)) = (Throw err, e) →
  on_endpoint id m h ≠ (Ok a, h').
Proof.
  intros E Em. unfold on_endpoint. erewrite bind_run by (by apply object_run). rewrite Em.
  erewrite bind_run by (by apply update_run). unfold mbind, js_bind. by destruct (for_each _ _ _) as [[]].
Qed.

Lemma table_send_reply id v result : result ≠ Sent → preserves table_wf (send_reply id v result).
Proof. intros H. unfold send_reply. destruct result; [done|table..]. Qed.

Lemma table_send_spent id v n h :
  table_wf h → mget id (h_objects h) = Some n → e_slots (n_endpoint n) ≠ 0 → zlen v <= e_room (n_endpoint n) →
  table_wf (send_reply id v Sent (set_objects
    (mset id (with_endpoint (sent_endpoint (set_called [] (n_endpoint n)) v) n) (h_objects h)) h)).2.
Proof.
  intros Hw E H0 Hv. unfold send_reply. erewrite bind_run by (by apply update_run, mget_mset_eq).
  cbn [h_objects set_objects]. rewrite mset_mset.
  assert (table_wf (update id (λ _, with_sent (n_sent n + 1) (n_sentBytes n + zlen v)
    (with_endpoint (sent_endpoint (set_called [] (n_endpoint n)) v) n)) h).2) as Hu.
  { apply table_update; [|done]. intros n' Hn' Hok. rewrite E in Hn'. injection Hn' as <-.
    split; [by apply object_sent|done]. }
  rewrite (update_run _ _ n) in Hu by done. simpl in Hu.
  match goal with |- table_wf (?k ?h').2 => assert (preserves table_wf k) as Hp by table end. apply (Hp _ Hu).
Qed.

Lemma table_perform_send id payload f : preserves table_wf (perform_send id payload f).
Proof.
  unfold perform_send. apply preserves_bind; [apply preserves_lift|]. intros v h Hw.
  unfold mbind, js_bind. destruct (on_endpoint id (trySend (Owned v) f) h) as [a h'] eqn:Ea.
  destruct (mget id (h_objects h)) as [n|] eqn:E.
  2: { unfold on_endpoint, object, mbind, js_bind, gets in Ea. rewrite E in Ea. by injection Ea as <- <-. }
  assert (∀ r e, trySend (Owned v) f (set_called [] (n_endpoint n)) = (r, e) → kept (n_endpoint n) e → table_wf h') as Hk.
  { intros r e Er Hk. pose proof (table_on_endpoint_at id (trySend (Owned v) f) h) as H. rewrite Ea in H.
    apply H; [|done]. intros n' Hn' _. rewrite E in Hn'. injection Hn' as <-. by rewrite Er. }
  pose proof (t_object _ Hw _ _ E) as [Hwf _ _ _ Hwt _].
  assert (endpoint_wf (set_called [] (n_endpoint n))) as Hwf0 by (by apply (wf_accounting (n_endpoint n))).
  destruct (trySend_cases (Owned v) f (set_called [] (n_endpoint n))) as
    [(r & Er & Hr)|[(Er & Hl & Hc & H0 & Hv & _)|(Hl & err & Er)]].
  - rewrite (on_endpoint_quiet _ _ _ _ _ _ E Er eq_refl) in Ea. injection Ea as <- <-.
    destruct r as [s|]; [|exact (Hk _ _ Er (kept_refl _ Hwf0 Hwt))]. apply table_send_reply; [congruence|].
    exact (Hk _ _ Er (kept_refl _ Hwf0 Hwt)).
  - rewrite (on_endpoint_quiet _ _ _ _ _ _ E Er eq_refl) in Ea. injection Ea as <- <-.
    by apply table_send_spent.
  - destruct a as [s|]; [by destruct (on_endpoint_throws _ _ _ _ _ _ _ _ E Er Ea)|].
    exact (Hk _ _ Er (kept_closed _ Hwf0 Hl)).
Qed.

#[export] Hint Resolve table_perform_send : jsinv.

Lemma table_perform ef : preserves table_wf (perform ef).
Proof. unfold perform. table. Qed.

(** ** Moving between tables *)

Lemma kept_move ids e : endpoint_wf e → e_waiters e = [] → kept e (move (ids, e)).2.2.
Proof.
  intros Hwf Hw. unfold move. destruct (_ || _ || _) eqn:B; [by apply kept_refl|].
  rewrite !orb_false_iff, negb_false_iff in B. destruct B as [[Hl _] _].
  destruct (_ =? _); simpl; [rewrite close_live by done; by apply kept_closed|].
  destruct Hwf as [? ? ? ? [? ?] ? ? ?].
  split; [|repeat split; simpl; done || lia].
  split; simpl; try done; [|rewrite zlen_nil; lia]. split; [done|lia].
Qed.

Lemma table_move_entry id : preserves table_wf (move_entry id).
Proof.
  intros h Hw. unfold move_entry. destruct (mget id (h_objects h)) as [n|] eqn:E; [|done].
  pose proof (t_object _ Hw _ _ E) as [Hwf _ _ _ Hwt _].
  assert (endpoint_wf (set_called [] (n_endpoint n))) as Hwf0 by (by apply (wf_accounting (n_endpoint n))).
  pose proof (kept_move (h_identities h) _ Hwf0 Hwt) as Hk.
  destruct (move _) as [r [ids e]]. simpl in *.
  apply (table_frame (update id (with_endpoint e) h).2); try done; [by rewrite (update_run _ _ n)..|].
  apply table_update; [|done]. intros n' Hn' Hok. rewrite E in Hn'. injection Hn' as <-.
  split; [apply object_kept; [done|exact Hk]|done].
Qed.

#[export] Hint Resolve table_move_entry : jsinv.

Lemma table_listening id b : preserves table_wf (update id (with_listening b)).
Proof. intros h Hw. apply table_update; [|done]. intros n _ []. by split. Qed.

#[export] Hint Resolve table_listening : jsinv.

(** One round of [take]. *)
Lemma table_take_one id :
  preserves table_wf (finish id WMoved ;; update id (with_listening false) ;;
    s ← move_entry id; n ← object id;
    modify (λ h, set_entries (remove_once id (h_entries h)) h) ;;
    modify (resource_ids (remove_once id) (n_resource n)) ;;
    mret (TransferItem s (n_control n) (n_token n) (n_sent n) (n_sentBytes n))).
Proof. table. Qed.

Lemma table_take_loop ids items : preserves table_wf (take_loop ids items).
Proof.
  revert items. induction ids as [|id ids IH]; intros items; cbn [take_loop]; [apply preserves_ret|].
  intros h Hw. pose proof (table_take_one id h Hw) as H1.
  match goal with |- context [match ?p with _ => _ end] => destruct p as [[item|e] h'] end; [by apply IH|done].
Qed.

#[export] Hint Resolve table_take_loop : jsinv.

Lemma table_find_all ids : preserves table_wf (find_all ids).
Proof. induction ids; simpl; table. Qed.

Lemma table_control_closed item : preserves table_wf (control_closed item).
Proof. unfold control_closed. table. Qed.

Lemma table_adopt_and_close s : preserves table_wf (adopt_and_close s).
Proof. unfold adopt_and_close. table. Qed.

#[export] Hint Resolve table_find_all table_control_closed table_adopt_and_close : jsinv.

Lemma table_take ids : preserves table_wf (take ids).
Proof. unfold take. table. Qed.

(** An item of honest framing: what its sender has outstanding was sent. *)
Definition item_ok (it : transfer_item) : Prop :=
  direction_of (s_direction (ti_snapshot it)) = Some Sender →
  ∃ m b slots room,
    s_messages (ti_snapshot it) = VNum (NInt m) ∧ s_bytes (ti_snapshot it) = VNum (NInt b) ∧
    s_slots (ti_snapshot it) = VNum (NInt slots) ∧ s_room (ti_snapshot it) = VNum (NInt room) ∧
    m - slots <= ti_sent it ∧ b - room <= ti_sentBytes it.

Lemma adopted_installable it ids e ids' :
  item_ok it → adoptPortEndpoint (Some (ti_snapshot it)) ids = (Ok e, ids') →
  installable e (ti_sent it) (ti_sentBytes it).
Proof.
  intros Hi H. unfold adoptPortEndpoint in H.
  destruct (s_closed (ti_snapshot it)) as [| |closed| | |]; try done.
  destruct (s_queue (ti_snapshot it)) eqn:Eq; try done.
  apply create_endpoint_Ok in H as (Hwf & _ & _ & Hw & Ho & _ & _ & Hl & Hd & q & Ha).
  split; [done|]. split; [done|]. split; [done|]. intros Es. rewrite Es in Hd.
  destruct (Hi Hd) as (m & b & slots & room & Em & Eb & Esl & Er & H1 & H2).
  apply limits_Ok in Hl as (Lm & Lb & _). rewrite Em in Lm. rewrite Eb in Lb. simpl in Lm, Lb.
  injection Lm as ->. injection Lb as ->.
  unfold checked_accounting in Ha. rewrite Eq, Esl, Er in Ha. cbn [nullish] in Ha.
  destruct (within (VNum (NInt slots)) _) as [sl|] eqn:W1; [|done].
  destruct (within (VNum (NInt room)) _) as [rm|] eqn:W2; [|done].
  destruct (within (nullish _ _) _); [|done]. destruct (_ <? _); [done|].
  injection Ha as _ <- <- _. apply within_Some in W1 as [[= ->] _], W2 as [[= ->] _]. lia.
Qed.

Lemma table_adopt_loop items ids :
  Forall item_ok items → preserves table_wf (adopt_loop items ids).
Proof.
  intros Hi. revert ids. induction Hi as [|it items Hit _ IH]; intros ids; cbn [adopt_loop]; [apply preserves_ret|].
  intros h Hw. unfold on_identities, zoom, mbind, js_bind.
  destruct (adoptPortEndpoint _ _) as [[e|] ids'] eqn:Ea; [|by apply (table_frame h)].
  apply (adopted_installable _ _ _ _ Hit) in Ea.
  assert (table_wf (set_identities ids' h)) as H1 by (by apply (table_frame h)).
  pose proof (table_install e (ti_control it) (ti_token it) _ _ _ _ None Ea eq_refl eq_refl _ H1) as H2.
  destruct (install _ _ _ _ _ _ _ _ _) as [[id|err] h']; [by apply IH|done].
Qed.

Lemma table_describe_all ids : preserves table_wf (describe_all ids).
Proof. induction ids; simpl; table. Qed.

#[export] Hint Resolve table_describe_all table_adopt_loop : jsinv.

Lemma table_adopt items : Forall item_ok items → preserves table_wf (adopt items).
Proof. intros Hi. unfold adopt. table. Qed.

Lemma table_discard items : preserves table_wf (discard items).
Proof. unfold discard. table. Qed.

Lemma table_interrupt d : preserves table_wf (interrupt d).
Proof. unfold interrupt. table. Qed.

Lemma table_close_host : preserves table_wf close_host.
Proof. unfold close_host. table. Qed.

(** ** Sessions *)

(** What can happen to a table: the guest's effects, the runtime's calls, and
    messages on control ports, supervisors' ports and data ports. *)
Inductive table_op :=
| OpPerform (effect : channel_effect)
| OpTake (ids : option (list jsval))
| OpAdopt (items : list transfer_item)
| OpRevoke (token : Z)
| OpDiscard (items : list transfer_item)
| OpInterrupt (deadline : bool)
| OpReset
| OpSettle
| OpCloseHost
| OpControl (id : Z) (message : control)
| OpSupervisor (token : Z) (message : control)
| OpData (id : Z) (p : packet).

Definition run_table_op (op : table_op) : js host () :=
  match op with
  | OpPerform ef => perform ef ;; mret tt
  | OpTake ids => take ids ;; mret tt
  | OpAdopt items => adopt items ;; mret tt
  | OpRevoke token => revoke token
  | OpDiscard items => discard items
  | OpInterrupt d => interrupt d
  | OpReset => reset
  | OpSettle => settle
  | OpCloseHost => close_host
  | OpControl id m => controlMessage id m
  | OpSupervisor t m => supervisorMessage t m
  | OpData id p => dataMessage id p
  end.

Fixpoint run_table (ops : list table_op) (h : host) : host :=
  match ops with
  | [] => h
  | op :: ops' => run_table ops' (run_table_op op h).2
  end.

(** Framing comes from the runtime's own [take]. *)
Definition honest (op : table_op) : Prop :=
  match op with OpAdopt items => Forall item_ok items | _ => True end.

#[export] Hint Resolve table_perform table_take table_adopt table_discard table_interrupt table_close_host : jsinv.

Lemma table_run_op op : honest op → preserves table_wf (run_table_op op).
Proof.
  intros Hh. destruct op; simpl in *; unfold reset, settle, controlMessage, supervisorMessage, dataMessage; table.
Qed.

Lemma table_run ops h : Forall honest ops → table_wf h → table_wf (run_table ops h).
Proof.
  intros Ho. revert h. induction Ho as [|op ops Hop _ IH]; intros h Hw; simpl; [done|].
  apply IH. by apply table_run_op.
Qed.

Lemma table_start : table_wf createChannelHost.
Proof.
  split; simpl; try done; try set_solver. - constructor. - split; [constructor|set_solver].
Qed.

(** ** Lemmas of the properties *)

Definition text_of (s : string) : list byte := String.list_byte_of_string s.

(** What a round of [take] makes of a well-formed entry is honest framing. *)
Lemma move_item_ok id h s h' n :
  table_wf h → move_entry id h = (Ok s, h') → mget id (h_objects h) = Some n →
  item_ok (TransferItem s (n_control n) (n_token n) (n_sent n) (n_sentBytes n)).
Proof.
  intros Hw Hm E. pose proof (t_object _ Hw _ _ E) as []. unfold move_entry in Hm. rewrite E in Hm.
  unfold move in Hm. destruct (_ || _ || _); [done|]. destruct (_ =? _); [done|]. simpl in Hm.
  injection Hm as <- <-. intros Hd. simpl in *.
  assert (e_direction (n_endpoint n) = Sender) as Hs by (by destruct (e_direction (n_endpoint n))).
  destruct (ob_sent0 Hs). do 4 eexists. repeat (split; [done|]). lia.
Qed.

Lemma take_one_item id h item h' :
  table_wf h →
  (finish id WMoved ;; update id (with_listening false) ;;
    s ← move_entry id; n ← object id;
    modify (λ h, set_entries (remove_once id (h_entries h)) h) ;;
    modify (resource_ids (remove_once id) (n_resource n)) ;;
    mret (TransferItem s (n_control n) (n_token n) (n_sent n) (n_sentBytes n))) h = (Ok item, h') →
  item_ok item.
Proof.
  intros Hw H. apply bind_Ok in H as (? & h1 & H1 & H). pose proof (table_finish id WMoved h Hw) as W1. rewrite H1 in W1.
  apply bind_Ok in H as (? & h2 & H2 & H). pose proof (table_listening id false h1 W1) as W2. rewrite H2 in W2.
  apply bind_Ok in H as (s & h3 & H3 & H). apply bind_Ok in H as (n & h4 & H4 & H).
  apply bind_Ok in H as (? & h5 & H5 & H). apply bind_Ok in H as (? & h6 & H6 & H). injection H as <- _.
  simpl in W2. destruct (mget id (h_objects h2)) as [n2|] eqn:E2.
  2: { unfold move_entry in H3. by rewrite E2 in H3. }
  pose proof (move_item_ok id h2 s h3 n2 W2 H3 E2) as Hok.
  unfold move_entry in H3. rewrite E2 in H3. destruct (move _) as [r [ids e]]. injection H3 as -> <-.
  unfold object, mbind, js_bind, gets in H4. simpl in H4. rewrite mget_mset_eq in H4. by injection H4 as <- _.
Qed.

Lemma take_loop_items ids items h items' h' failed :
  table_wf h → Forall item_ok items → take_loop ids items h = (Ok (items', failed), h') → Forall item_ok items'.
Proof.
  revert items h. induction ids as [|id ids IH]; intros items h Hw Hi; cbn [take_loop]; [by intros [= <- _ _]|].
  pose proof (table_take_one id h Hw) as H1. pose proof (take_one_item id h) as H2. revert H1 H2.
  match goal with |- context [match ?p with _ => _ end] => destruct p as [[item|e] h1] end; intros H1 H2.
  - apply IH; [done|]. apply Forall_app. split; [done|]. constructor; [by eapply H2|constructor].
  - by intros [= <- _ _].
Qed.

(** Finishing the watches of some entries. *)
Lemma finish_watch id v h :
  let h' := (finish id v h).2 in
  (∀ n, mget id (h_objects h') = Some n → n_watch n = None) ∧
  (∀ j n, j ≠ id → mget j (h_objects h') = Some n → mget j (h_objects h) = Some n) ∧
  h_entries h' = h_entries h.
Proof.
  unfold finish, object, mbind, js_bind, gets. simpl. destruct (mget id (h_objects h)) as [n|] eqn:E; simpl.
  2: { split; [intros n; by rewrite E|done]. }
  destruct (n_watch n) as [w|] eqn:Ew; simpl.
  2: { split; [|done]. intros n'. rewrite E. by intros [= <-]. }
  rewrite E. simpl. split; [|split; [|done]].
  - intros n'. rewrite mget_mset_eq. by intros [= <-].
  - intros j n' Hj. by rewrite mget_mset_ne.
Qed.

Lemma finish_returns id v h : is_Some (mget id (h_objects h)) → (finish id v h).1 = Ok tt.
Proof.
  intros [n E]. unfold finish. erewrite bind_run by (by apply object_run). by destruct (n_watch n).
Qed.

Lemma finish_all ids v h :
  table_wf h → (∀ id, id ∈ ids → id ∈ h_entries h) →
  let r := for_each ids (λ id, finish id v) h in
  r.1 = Ok tt ∧ table_wf r.2 ∧ h_entries r.2 = h_entries h ∧
  (∀ id n, mget id (h_objects r.2) = Some n → id ∈ ids ∨ n_watch n = None ∨ mget id (h_objects h) = Some n) ∧
  ∀ id n, id ∈ ids → mget id (h_objects r.2) = Some n → n_watch n = None.
Proof.
  revert h. induction ids as [|i ids IH]; intros h Hw Hin; simpl.
  - split; [done|]. split; [done|]. split; [done|]. split; [auto|]. set_solver.
  - pose proof (finish_returns i v h (t_entries _ Hw i (Hin i ltac:(left)))) as Hr.
    pose proof (finish_watch i v h) as (F1 & F2 & F3). pose proof (table_finish i v h Hw) as W1.
    destruct (finish i v h) as [o h1] eqn:Ef. simpl in *. subst o.
    erewrite bind_run by done.
    destruct (IH h1 W1) as (E1 & W2 & E2 & E3 & E4); [intros; rewrite F3; apply Hin; by right|].
    split; [done|]. split; [done|]. split; [congruence|]. split.
    + intros id n Hn. destruct (E3 _ _ Hn) as [?|[?|Hh]]; [left; by right|auto|].
      destruct (decide (id = i)) as [->|Hne]; [left; left|]. right; right. by apply F2.
    + intros id n [->|Hid]%elem_of_cons Hn; [|by eapply E4].
      destruct (E3 _ _ Hn) as [?|[?|Hh]]; [by eapply E4|done|by apply F1].
Qed.

(** ** Properties *)

(** C28 The accounting a guest is told agrees with the endpoints: through any
    session, with framing from other tables, every listed endpoint has an entry,
    every endpoint keeps its limits, and of each sender the messages and bytes
    reported as consumed lie between none and all it sent. *)
Theorem channel_table_accounting ops :
  Forall honest ops →
  let h := run_table ops createChannelHost in
  (∀ id, id ∈ h_entries h → is_Some (mget id (h_objects h))) ∧
  ∀ id n, mget id (h_objects h) = Some n →
    endpoint_wf (n_endpoint n) ∧
    (ds_direction (describe id n) = Sender →
     0 <= ds_consumed (describe id n) <= ds_sent (describe id n) ∧
     0 <= ds_consumedBytes (describe id n) <= ds_sentBytes (describe id n)).
Proof.
  intros Ho h. pose proof (table_run ops _ Ho table_start) as Hw. fold h in Hw.
  split; [apply Hw|]. intros id n Hn. destruct (t_object _ Hw _ _ Hn). split; [done|]. simpl.
  intros Hs. destruct (ob_sent0 Hs). destruct ob_wf0. lia.
Qed.

Definition example_session : list table_op :=
  [OpPerform (EfCreate (VNum (NInt 2)) (VNum (NInt 16)));
   OpPerform (EfSend (VNum (NInt 1)) (Some (encoded [x01; x02])) None);
   OpPerform (EfWatch (VNum (NInt 1)) (VNum (NInt 0)) (VNum (NInt 0)));
   OpPerform (EfWatch (VNum (NInt 2)) VUndef VUndef);
   OpData 2 (PkValue (Owned [x01; x02]));
   OpPerform (EfConsume (VNum (NInt 2)));
   OpData 1 (PkCredit (VNum (NInt 1)) (VNum (NInt 2)))].

Lemma channel_table_accounting_witness :
  let h := run_table example_session createChannelHost in
  h_entries h = [1; 2] ∧
  ((∀ id, id ∈ h_entries h → is_Some (mget id (h_objects h))) ∧
   ∀ id n, mget id (h_objects h) = Some n →
    endpoint_wf (n_endpoint n) ∧
    (ds_direction (describe id n) = Sender →
     0 <= ds_consumed (describe id n) <= ds_sent (describe id n) ∧
     0 <= ds_consumedBytes (describe id n) <= ds_sentBytes (describe id n))).
Proof.
  cbv zeta. split; [by vm_compute|]. apply (channel_table_accounting example_session).
  repeat constructor.
Defined.

(** Watches are answered at most once: no promise is resolved twice, a watch
    still pending has not been resolved, two entries never share one, and an
    endpoint is observed by its entry's watch and by nothing else, so an entry
    without a watch has nothing that would stop it from moving. *)
Theorem watch_answered_once ops :
  Forall honest ops →
  let h := run_table ops createChannelHost in
  NoDup (resolved (h_log h)) ∧
  ∀ id n, mget id (h_objects h) = Some n →
    e_waiters (n_endpoint n) = [] ∧
    e_observers (n_endpoint n) = (match n_watch n with Some w => [w_promise w] | None => [] end) ∧
    ∀ w, n_watch n = Some w →
      (w_promise w ∉ resolved (h_log h)) ∧
      ∀ id' n' w', mget id' (h_objects h) = Some n' → n_watch n' = Some w' →
        w_promise w' = w_promise w → id' = id.
Proof.
  intros Ho h. pose proof (table_run ops _ Ho table_start) as Hw. fold h in Hw.
  pose proof Hw as []. split; [apply t_resolved0|]. intros id n Hn. destruct (t_object0 _ _ Hn).
  split; [done|]. split; [done|]. intros w Hww. split; [by eapply t_pending0|]. eauto.
Qed.

Lemma watch_answered_once_witness :
  let h := run_table example_session createChannelHost in
  resolved (h_log h) = [2; 1] ∧ NoDup (resolved (h_log h)).
Proof.
  cbv zeta. split; [by vm_compute|].
  apply (watch_answered_once example_session). repeat constructor.
Defined.

(** Framing is honest: the items [take] hands to another guest describe its
    endpoints so that adopting them keeps that guest's accounting. *)
Theorem take_frames_honestly ops ids items h' :
  Forall honest ops →
  take ids (run_table ops createChannelHost) = (Ok items, h') → Forall item_ok items.
Proof.
  intros Ho H. pose proof (table_run ops _ Ho table_start) as Hw. unfold take in H.
  destruct ids as [handles|]; [|done]. apply bind_Ok in H as (? & h1 & H1 & H). apply guard_Ok in H1 as [_ ->].
  apply bind_Ok in H as (found & h2 & H2 & H). apply bind_Ok in H as ([snaps failed] & h3 & H3 & H).
  pose proof (table_find_all handles _ Hw) as W2. rewrite H2 in W2. simpl in W2.
  apply take_loop_items in H3; [|done|constructor].
  destruct failed as [err|]; [|by injection H as <- _].
  apply bind_Ok in H as (? & ? & _ & H). by apply bind_Ok in H as (? & ? & _ & H).
Qed.

Lemma take_frames_honestly_witness :
  match take (Some [VNum (NInt 1); VNum (NInt 2)]) (run_table example_session createChannelHost) with
  | (Ok items, _) => length items = 2%nat ∧ Forall item_ok items
  | _ => False
  end.
Proof.
  destruct (take _ _) as [[items|] h'] eqn:E; [|by vm_compute in E].
  split; [|eapply (take_frames_honestly example_session); [repeat constructor|exact E]].
  vm_compute in E. injection E as <- _. reflexivity.
Defined.

(** Interruption answers every watch: afterwards no listed endpoint has a watch
    pending. *)
Theorem interrupt_settles_watches ops deadline :
  Forall honest ops →
  let h := (interrupt deadline (run_table ops createChannelHost)).2 in
  ∀ id n, id ∈ h_entries h → mget id (h_objects h) = Some n → n_watch n = None.
Proof.
  intros Ho h. pose proof (table_run ops _ Ho table_start) as Hw. unfold interrupt in h.
  set (h0 := run_table ops createChannelHost) in *.
  set (h1 := set_flags true deadline (h_closed h0) h0).
  assert (table_wf h1) as W1 by (by apply (table_frame h0)).
  destruct (finish_all (h_entries h1) (WCancelled deadline) h1 W1 ltac:(done)) as (_ & _ & E & _ & Hf).
  intros id n Hid. apply Hf. unfold h in Hid. fold h1 in Hid.
  change (h_entries (for_each (h_entries h1) (λ id, finish id (WCancelled deadline)) h1).2) with (h_entries h) in E.
  unfold h in E. by rewrite E in Hid.
Qed.

Lemma interrupt_settles_watches_witness :
  let ops := [OpPerform (EfCreate (VNum (NInt 2)) (VNum (NInt 16)));
              OpPerform (EfWatch (VNum (NInt 2)) VUndef VUndef)] in
  (inspect_host (run_table ops createChannelHost) = (2, 2, 1, 1)) ∧
  let h := (interrupt true (run_table ops createChannelHost)).2 in
  ∀ id n, id ∈ h_entries h → mget id (h_objects h) = Some n → n_watch n = None.
Proof.
  cbv zeta. split; [by vm_compute|]. apply (interrupt_settles_watches
    [OpPerform (EfCreate (VNum (NInt 2)) (VNum (NInt 16))); OpPerform (EfWatch (VNum (NInt 2)) VUndef VUndef)]).
  repeat constructor.
Defined.

(** Closing a receiver whose guest is waiting on it goes wrong half way: the
    endpoint's [close] wakes the watch, whose poll peeks at the endpoint that is
    no longer live and throws, so [drop] leaves by that exception after the entry
    is delisted; the watch is never answered and neither the supervisor nor the
    control port is told. *)
Theorem drop_watched_receiver_throws h id n w :
  id ∈ h_entries h → mget id (h_objects h) = Some n → h_cancelled h = false →
  e_direction (n_endpoint n) = Receiver → e_live (n_endpoint n) = true →
  e_waiters (n_endpoint n) = [] → e_observers (n_endpoint n) = [w_promise w] → n_watch n = Some w →
  ∃ h', drop id h = (Throw "invalid or moved receiver", h') ∧ (id ∉ h_entries h') ∧ h_log h' = h_log h ∧
    ∃ n', mget id (h_objects h') = Some n' ∧ n_watch n' = Some w ∧ e_live (n_endpoint n') = false.
Proof.
  intros Hin E Hc Hd Hl Hwt Hob Hw. unfold drop. erewrite bind_run by done. rewrite decide_True by done.
  erewrite bind_run by (by apply object_run). erewrite bind_run by done. erewrite bind_run by done.
  set (h1 := resource_ids _ _ _).
  assert (h_objects h1 = h_objects h ∧ h_entries h1 = remove_once id (h_entries h) ∧ h_log h1 = h_log h ∧
          h_cancelled h1 = h_cancelled h) as (Eo & Ee & El & Ec).
  { unfold h1, resource_ids. clear. repeat case_match; done. }
  assert (mget id (h_objects h1) = Some n) as E1 by (by rewrite Eo).
  set (e' := closed_endpoint (set_called [] (n_endpoint n))).
  set (h2 := set_objects (mset id (with_endpoint e' n) (h_objects h1)) h1).
  assert (on_endpoint id close h1 = (Throw "invalid or moved receiver", h2)) as Hon.
  { unfold on_endpoint. erewrite bind_run by (by apply object_run). rewrite close_live by done.
    erewrite bind_run by (by apply update_run). fold e' h2.
    assert (e_called e' = [w_promise w]) as -> by (simpl; by rewrite Hwt, Hob).
    cbn [for_each]. unfold mbind, js_bind, poll. erewrite bind_run by (apply object_run, mget_mset_eq).
    cbn [n_watch with_endpoint]. rewrite Hw. erewrite bind_run by done.
    assert (h_cancelled h2 = false) as -> by (unfold h2; simpl; congruence).
    cbn [n_endpoint with_endpoint]. assert (e_direction e' = Receiver) as -> by done.
    assert ((peek e').1 = Throw "invalid or moved receiver") as Hp.
    { unfold peek, mbind, js_bind, gets. simpl. by rewrite orb_true_r. }
    unfold mbind, js_bind, lift. by rewrite Hp. }
  exists h2. unfold mbind, js_bind. rewrite Hon. split; [done|]. split.
  { unfold h2. simpl. rewrite Ee. unfold remove_once. rewrite list_elem_of_filter. naive_solver. }
  split; [done|]. exists (with_endpoint e' n). split; [apply mget_mset_eq|]. done.
Qed.

Lemma drop_watched_receiver_throws_witness :
  let h := run_table [OpPerform (EfCreate (VNum (NInt 2)) (VNum (NInt 16)));
                      OpPerform (EfWatch (VNum (NInt 2)) VUndef VUndef)] createChannelHost in
  (drop 2 h).1 = Throw "invalid or moved receiver" ∧
  (perform (EfClose (VNum (NInt 2))) h).1 = Throw "invalid or moved receiver".
Proof.
  cbv zeta. set (h := run_table _ _).
  destruct (drop_watched_receiver_throws h 2
    (Entry (Endpoint 2 Receiver 2 16 true false 2 16 0 [] [] [1] true true [] []) 6 2 2 16 0 0
       (Some (Watching 1 VUndef VUndef)) (Some 1) true) (Watching 1 VUndef VUndef)) as (h' & Hd & _);
    [vm_compute; right; left|vm_compute; reflexivity..|].
  split; [by rewrite Hd|by vm_compute].
Defined.

(** A payload survives its text: what one side encodes, the other decodes, up
    to the 512 KiB a message may carry. *)
Theorem payload_roundtrip value :
  zlen value <= MAX_WIRE_BYTES → bytes (Some (encoded value)) = Ok value.
Proof.
  intros H. pose proof (zlen_nonneg value). unfold bytes, encoded. rewrite zlen_btoa.
  rewrite (proj2 (Z.ltb_ge _ _)).
  2: { apply Z.mul_le_mono_nonneg_r; [lia|]. apply Z.div_le_mono; lia. }
  rewrite atob_btoa. by rewrite (proj2 (Z.ltb_ge _ _)) by lia.
Qed.

Lemma payload_roundtrip_witness :
  let value := [x00; xff; x10; x80] in encoded value = text_of "AP8QgA==" ∧ bytes (Some (encoded value)) = Ok value.
Proof. cbv zeta. split; [by vm_compute|]. apply (payload_roundtrip [x00; xff; x10; x80]). by vm_compute. Defined.
