(* ===== verification/WorkerPool.v ===== *)
(** The pool of worker lanes, [src/runtime/wasm/worker-pool.mjs].

    Tasks and lanes are objects the pool's tables, its queue and each other refer
    to, so both live in stores by reference and the tables hold references.  What
    the platform decides (whether a [Worker] starts, whether a message can be
    posted) is a parameter; messages, terminations and resolved promises are
    recorded in a log.  The channel table a pool takes endpoints from is reached
    through an interface. *)

From S2P Require Import Prelude.

(** ** The channel table, as the pool sees it *)

(** Taking endpoints out of the guest's table for a task, giving them up, and
    revoking the peers of tokens already handed over. *)
Class ChannelService (C item : Type) := {
  cs_take : list jsval → js C (list item);
  cs_discard : list item → js C ();
  cs_revoke : Z → js C ();
  cs_token : item → Z
}.

(** What the pool relies on: giving up never throws. *)
Class ChannelLaws (C item : Type) `{!ChannelService C item} := {
  cs_discard_returns : ∀ items c, (cs_discard items c).1 = Ok tt;
  cs_revoke_returns : ∀ token c, (cs_revoke token c).1 = Ok tt
}.

(** ** Data *)

Inductive task_result :=
| TaskDone (payload : string)
| TaskCancelled (deadline : bool)
| TaskFailed (error : string).

Record task (item : Type) := Task {
  k_id : Z;
  k_module : string;
  k_member : string;
  k_payload : string;
  k_settled : bool;
  k_cancelRequested : bool;
  k_deadline : bool;
  k_waiters : list Z;
  k_lane : option Z;
  k_timer : bool;
  k_result : option task_result;
  k_endpoints : list item;
  k_tokens : list Z;
  k_arguments : list jsval
}.
Arguments Task {item}.
Arguments k_id {item}.
Arguments k_module {item}.
Arguments k_member {item}.
Arguments k_payload {item}.
Arguments k_settled {item}.
Arguments k_cancelRequested {item}.
Arguments k_deadline {item}.
Arguments k_waiters {item}.
Arguments k_lane {item}.
Arguments k_timer {item}.
Arguments k_result {item}.
Arguments k_endpoints {item}.
Arguments k_tokens {item}.
Arguments k_arguments {item}.

Record lane := Lane {
  l_task : option Z;
  l_dedicated : bool;
  l_ready : bool;
  l_failed : option string
}.

(** What is posted to a lane. *)
Inductive lane_post (item : Type) :=
| PostBoot
| PostTask (id : Z) (module member payload : string) (arguments : list jsval) (endpoints : list item)
| PostCancel (id : Z) (deadline : bool)
| PostStorage (requestId : jsval) (granted : res bool).
Arguments PostBoot {item}.
Arguments PostTask {item}.
Arguments PostCancel {item}.
Arguments PostStorage {item}.

Inductive pool_event (item : Type) :=
| EvPosted (lane : Z) (message : lane_post item)
| EvTerminated (lane : Z)
| EvResumed (waiter : Z) (result : task_result).
Arguments EvPosted {item}.
Arguments EvTerminated {item}.
Arguments EvResumed {item}.

Record pool (C item : Type) := Pool {
  p_tasks : jmap Z Z;
  p_objects : jmap Z (task item);
  p_laneObjects : jmap Z lane;
  p_lanes : list Z;
  p_dedicated : list Z;
  p_queue : list Z;
  p_started : list Z;
  p_closed : bool;
  p_capacity : Z;
  p_maxDedicated : Z;
  p_nextTask : Z;
  p_nextLane : Z;
  p_channels : C;
  p_log : list (pool_event item)
}.
Arguments Pool {C item}.
Arguments p_tasks {C item}.
Arguments p_objects {C item}.
Arguments p_laneObjects {C item}.
Arguments p_lanes {C item}.
Arguments p_dedicated {C item}.
Arguments p_queue {C item}.
Arguments p_started {C item}.
Arguments p_closed {C item}.
Arguments p_capacity {C item}.
Arguments p_maxDedicated {C item}.
Arguments p_nextTask {C item}.
Arguments p_nextLane {C item}.
Arguments p_channels {C item}.
Arguments p_log {C item}.

(** Field updates. *)
Section Setters.
Context {C item : Type}.
Implicit Types (p : pool C item) (k : task item).

Definition set_tasks (tasks : jmap Z Z) p : pool C item :=
  Pool tasks (p_objects p) (p_laneObjects p) (p_lanes p) (p_dedicated p) (p_queue p) (p_started p) (p_closed p)
    (p_capacity p) (p_maxDedicated p) (p_nextTask p) (p_nextLane p) (p_channels p) (p_log p).
Definition set_objects (objects : jmap Z (task item)) p : pool C item :=
  Pool (p_tasks p) objects (p_laneObjects p) (p_lanes p) (p_dedicated p) (p_queue p) (p_started p) (p_closed p)
    (p_capacity p) (p_maxDedicated p) (p_nextTask p) (p_nextLane p) (p_channels p) (p_log p).
Definition set_laneObjects (objects : jmap Z lane) p : pool C item :=
  Pool (p_tasks p) (p_objects p) objects (p_lanes p) (p_dedicated p) (p_queue p) (p_started p) (p_closed p)
    (p_capacity p) (p_maxDedicated p) (p_nextTask p) (p_nextLane p) (p_channels p) (p_log p).
Definition set_lanes (lanes dedicated : list Z) p : pool C item :=
  Pool (p_tasks p) (p_objects p) (p_laneObjects p) lanes dedicated (p_queue p) (p_started p) (p_closed p)
    (p_capacity p) (p_maxDedicated p) (p_nextTask p) (p_nextLane p) (p_channels p) (p_log p).
Definition set_queue (queue : list Z) p : pool C item :=
  Pool (p_tasks p) (p_objects p) (p_laneObjects p) (p_lanes p) (p_dedicated p) queue (p_started p) (p_closed p)
    (p_capacity p) (p_maxDedicated p) (p_nextTask p) (p_nextLane p) (p_channels p) (p_log p).
Definition set_started (started : list Z) p : pool C item :=
  Pool (p_tasks p) (p_objects p) (p_laneObjects p) (p_lanes p) (p_dedicated p) (p_queue p) started (p_closed p)
    (p_capacity p) (p_maxDedicated p) (p_nextTask p) (p_nextLane p) (p_channels p) (p_log p).
Definition set_closed p : pool C item :=
  Pool (p_tasks p) (p_objects p) (p_laneObjects p) (p_lanes p) (p_dedicated p) (p_queue p) (p_started p) true
    (p_capacity p) (p_maxDedicated p) (p_nextTask p) (p_nextLane p) (p_channels p) (p_log p).
Definition set_next (nextTask nextLane : Z) p : pool C item :=
  Pool (p_tasks p) (p_objects p) (p_laneObjects p) (p_lanes p) (p_dedicated p) (p_queue p) (p_started p) (p_closed p)
    (p_capacity p) (p_maxDedicated p) nextTask nextLane (p_channels p) (p_log p).
Definition set_channels (c : C) p : pool C item :=
  Pool (p_tasks p) (p_objects p) (p_laneObjects p) (p_lanes p) (p_dedicated p) (p_queue p) (p_started p) (p_closed p)
    (p_capacity p) (p_maxDedicated p) (p_nextTask p) (p_nextLane p) c (p_log p).
Definition log (evs : list (pool_event item)) p : pool C item :=
  Pool (p_tasks p) (p_objects p) (p_laneObjects p) (p_lanes p) (p_dedicated p) (p_queue p) (p_started p) (p_closed p)
    (p_capacity p) (p_maxDedicated p) (p_nextTask p) (p_nextLane p) (p_channels p) (p_log p ++ evs).

Definition with_settled (r : task_result) k : task item :=
  Task (k_id k) (k_module k) (k_member k) (k_payload k) true (k_cancelRequested k) (k_deadline k) [] None false
    (Some r) (k_endpoints k) (k_tokens k) (k_arguments k).
Definition with_cancel (deadline : bool) k : task item :=
  Task (k_id k) (k_module k) (k_member k) (k_payload k) (k_settled k) true (k_deadline k || deadline) (k_waiters k)
    (k_lane k) (k_timer k) (k_result k) (k_endpoints k) (k_tokens k) (k_arguments k).
Definition with_waiters (waiters : list Z) k : task item :=
  Task (k_id k) (k_module k) (k_member k) (k_payload k) (k_settled k) (k_cancelRequested k) (k_deadline k) waiters
    (k_lane k) (k_timer k) (k_result k) (k_endpoints k) (k_tokens k) (k_arguments k).
Definition with_lane (l : option Z) k : task item :=
  Task (k_id k) (k_module k) (k_member k) (k_payload k) (k_settled k) (k_cancelRequested k) (k_deadline k) (k_waiters k)
    l (k_timer k) (k_result k) (k_endpoints k) (k_tokens k) (k_arguments k).
Definition with_timer k : task item :=
  Task (k_id k) (k_module k) (k_member k) (k_payload k) (k_settled k) (k_cancelRequested k) (k_deadline k) (k_waiters k)
    (k_lane k) true (k_result k) (k_endpoints k) (k_tokens k) (k_arguments k).
Definition with_endpoints (endpoints : list item) (tokens : list Z) k : task item :=
  Task (k_id k) (k_module k) (k_member k) (k_payload k) (k_settled k) (k_cancelRequested k) (k_deadline k) (k_waiters k)
    (k_lane k) (k_timer k) (k_result k) endpoints tokens (k_arguments k).
End Setters.

Definition lane_task (t : option Z) (l : lane) : lane := Lane t (l_dedicated l) (l_ready l) (l_failed l).
Definition lane_ready (l : lane) : lane := Lane (l_task l) (l_dedicated l) true (l_failed l).
Definition lane_failed (reason : string) (l : lane) : lane := Lane None (l_dedicated l) (l_ready l) (Some reason).

(** ** Creation *)

Definition DEFAULT_MAX_LANES : Z := 8.

(** [laneCount(maxLanes)], given [navigator.hardwareConcurrency]. *)
Definition laneCount (maxLanes hardwareConcurrency : jsval) : Z :=
  let requested := match to_integer maxLanes with
                   | Some n => if 0 <? n then n else DEFAULT_MAX_LANES | None => DEFAULT_MAX_LANES end in
  let available := default 4 (to_integer hardwareConcurrency) in
  Z.max 1 (Z.min (Z.min requested available) 64).

(** [/^[0-9a-f]{64}$/]. *)
Definition is_hex_char (b : byte) : bool :=
  let z := Z_of_byte b in ((0x30 <=? z) && (z <=? 0x39)) || ((0x61 <=? z) && (z <=? 0x66)).

Definition is_digest (v : jsval) : bool :=
  match v with
  | VStr s => (zlen (String.list_byte_of_string s) =? 64) && forallb is_hex_char (String.list_byte_of_string s)
  | _ => false
  end.

(** The options of a pool, as far as they are checked. *)
Record pool_options := PoolOptions {
  po_manifestDigest : jsval;
  po_workerClass : bool;
  po_maxLanes : jsval;
  po_hardwareConcurrency : jsval;
  po_maxDedicated : option jsval
}.

Definition createWorkerPool {C item} (o : pool_options) (channels : C) : res (pool C item) :=
  if negb (is_digest (po_manifestDigest o))
  then Throw "a browser worker pool needs the manifest digest its page verified"
  else if negb (po_workerClass o)
  then Throw "Web Workers are unavailable, so this host cannot run Nupp worker tasks"
  else
    match to_safe (default (VNum (NInt 64)) (po_maxDedicated o)) with
    | Some n =>
        if n <? 1 then Throw "the dedicated worker limit must be a positive safe integer"
        else Ok (Pool [] [] [] [] [] [] [] false
                   (laneCount (po_maxLanes o) (po_hardwareConcurrency o)) n 1 1 channels [])
    | None => Throw "the dedicated worker limit must be a positive safe integer"
    end.

(** ** Operations *)

(** What the platform does: whether the [Worker] of a lane can be started (it is
    constructed and told to boot), and whether a task can be posted to a lane. *)
Record platform := Platform {
  open_fails : Z → option string;
  post_fails : Z → Z → option string
}.

(** What a lane sends. *)
Inductive lane_message :=
| MReady
| MStorage (requestId : jsval)
| MStarted (id : jsval)
| MFailed (error : string) (channelsClosed : bool)
| MReply (id : jsval) (status : jsval) (payload error deadline : jsval)
| MOther.

(** A submission of the guest. *)
Record submission := Submission {
  sb_task : jsval;
  sb_module : jsval;
  sb_member : jsval;
  sb_payload : jsval;
  sb_dedicated : jsval;
  sb_endpoints : list (jsval * jsval);
  sb_deadline : jsval
}.

Section Pool.
Context {C item : Type} `{!ChannelService C item} (has_channels : bool) (pf : platform).

Definition on_channels {A} (m : js C A) : js (pool C item) A := zoom p_channels set_channels m.

Definition get_task (t : Z) : js (pool C item) (task item) :=
  objects ← gets p_objects;
  match mget t objects with Some k => mret k | None => throw "no such object" end.
Definition get_lane (l : Z) : js (pool C item) lane :=
  objects ← gets p_laneObjects;
  match mget l objects with Some x => mret x | None => throw "no such object" end.

Definition upd_task (t : Z) (f : task item → task item) : js (pool C item) () :=
  modify (λ p, match mget t (p_objects p) with
               | Some k => set_objects (mset t (f k) (p_objects p)) p
               | None => p
               end).
Definition upd_lane (l : Z) (f : lane → lane) : js (pool C item) () :=
  modify (λ p, match mget l (p_laneObjects p) with
               | Some x => set_laneObjects (mset l (f x) (p_laneObjects p)) p
               | None => p
               end).

Definition drainStarted : js (pool C item) (list Z) :=
  reported ← gets p_started;
  modify (set_started []) ;;
  mret reported.

Definition settle (t : Z) (result : task_result) : js (pool C item) () :=
  k ← get_task t;
  if k_settled k then mret tt else
  upd_task t (with_settled result) ;;
  modify (log ((λ w, EvResumed w result) <$> k_waiters k)).

Definition revokeEndpoints (t : Z) : js (pool C item) () :=
  k ← get_task t;
  when has_channels (on_channels (cs_discard (k_endpoints k)) ;;
                     for_each (k_tokens k) (λ token, on_channels (cs_revoke token))) ;;
  upd_task t (λ k, with_endpoints [] (k_tokens k) k).

(** [lanes.splice(lanes.indexOf(lane), 1)] and [dedicated.delete(lane)]. *)
Definition remove_ref (l : Z) (s : list Z) : list Z := filter (λ x, x ≠ l) s.

(** [laneFailure(lane, reason, channelsClosed)] of a lane that is not opening;
    [dispatch] is the call at its end. *)
Definition lane_failure (dispatch : js (pool C item) ()) (l : Z) (reason : string) (channelsClosed : bool)
    : js (pool C item) () :=
  x ← get_lane l;
  match l_failed x with
  | Some _ => mret tt
  | None =>
      match l_task x with
      | Some t => when (negb channelsClosed) (revokeEndpoints t)
      | None => mret tt
      end ;;
      upd_lane l (lane_failed reason) ;;
      modify (log [EvTerminated l]) ;;
      modify (λ p, if l_dedicated x then set_lanes (p_lanes p) (remove_ref l (p_dedicated p)) p
                   else set_lanes (remove_ref l (p_lanes p)) (p_dedicated p) p) ;;
      match l_task x with
      | Some t => settle t (TaskFailed reason)
      | None => mret tt
      end ;;
      dispatch
  end.

(** [openLane(isDedicated)]: a worker that cannot be started leaves no lane. *)
Definition openLane (isDedicated : bool) : js (pool C item) Z :=
  l ← gets p_nextLane;
  modify (λ p, set_next (p_nextTask p) (l + 1) p) ;;
  match open_fails pf l with
  | Some error => modify (log [EvTerminated l]) ;; throw error
  | None =>
      modify (λ p, set_laneObjects (mset l (Lane None isDedicated false None) (p_laneObjects p)) p) ;;
      modify (log [EvPosted l PostBoot]) ;;
      modify (λ p, if isDedicated then set_lanes (p_lanes p) (p_dedicated p ++ [l]) p
                   else set_lanes (p_lanes p ++ [l]) (p_dedicated p) p) ;;
      mret l
  end.

Definition postAssigned (l t : Z) : js (pool C item) () :=
  k ← get_task t;
  match post_fails pf l t with
  | Some error => throw error
  | None =>
      modify (log [EvPosted l (PostTask (k_id k) (k_module k) (k_member k) (k_payload k) (k_arguments k)
                                 (k_endpoints k))]) ;;
      upd_task t (λ k, with_endpoints [] (cs_token <$> k_endpoints k) k)
  end.

Definition assignLane (l t : Z) : js (pool C item) () :=
  upd_lane l (lane_task (Some t)) ;;
  upd_task t (with_lane (Some l)) ;;
  x ← get_lane l;
  when (l_ready x) (postAssigned l t).

(** [lanes.find((candidate) => candidate.task === undefined)]. *)
Definition idle_lane (p : pool C item) : option Z :=
  List.find (λ l, match mget l (p_laneObjects p) with
                  | Some x => bool_decide (l_task x = None) | None => false end) (p_lanes p).

(** The lane for the next queued task: an idle one, a new one, or none. *)
Definition next_lane : js (pool C item) (option Z) :=
  p ← gets (λ p, p);
  match idle_lane p with
  | Some l => mret (Some l)
  | None => if zlen (p_lanes p) <? p_capacity p then l ← openLane false; mret (Some l) else mret None
  end.

Definition shift_queue : js (pool C item) Z :=
  queue ← gets p_queue;
  match queue with
  | t :: rest => modify (set_queue rest) ;; mret t
  | [] => throw "empty queue"
  end.

(** [dispatch()], at most [n] rounds of its loop deep: a round takes one task off
    the queue, and so does the loop a failed assignment starts again. *)
Fixpoint dispatch_rounds (n : nat) : js (pool C item) () :=
  match n with
  | O => mret tt
  | S n' =>
      p ← gets (λ p, p);
      if (0 <? zlen (p_queue p)) && negb (p_closed p) then
        found ← try_catch (l ← next_lane; mret (inl l))
                          (λ error, t ← shift_queue;
                                    revokeEndpoints t ;; settle t (TaskFailed error) ;; mret (inr tt));
        match found with
        | inr _ => dispatch_rounds n'
        | inl None => mret tt
        | inl (Some l) =>
            t ← shift_queue;
            k ← get_task t;
            if k_settled k then dispatch_rounds n' else
            try_catch (assignLane l t)
              (λ error, lane_failure (dispatch_rounds n') l ("nupp: worker startup failed: " +:+ error) false) ;;
            dispatch_rounds n'
        end
      else mret tt
  end.

Definition dispatch : js (pool C item) () :=
  n ← gets (λ p, length (p_queue p));
  dispatch_rounds n.

Definition laneFailure (l : Z) (reason : string) (channelsClosed : bool) : js (pool C item) () :=
  lane_failure dispatch l reason channelsClosed.

(** The result a reply carries. *)
Definition reply_result (status payload error deadline : jsval) : task_result :=
  match status, payload, error with
  | VStr "done", VStr text, _ => TaskDone text
  | VStr "cancelled", _, _ => TaskCancelled (bool_decide (deadline = VBool true))
  | VStr "failed", _, VStr text => TaskFailed text
  | _, _, _ => TaskFailed "nupp: a worker lane returned an invalid task reply"
  end.

Definition laneMessage (l : Z) (message : lane_message) : js (pool C item) () :=
  x ← get_lane l;
  match l_failed x with
  | Some _ => mret tt
  | None =>
      match message with
      | MReady =>
          upd_lane l lane_ready ;;
          match l_task x with Some t => postAssigned l t | None => mret tt end
      | MStorage _ | MOther => mret tt
      | MStarted id =>
          match l_task x with
          | Some t =>
              k ← get_task t;
              when (bool_decide (id = VNum (NInt (k_id k))))
                (modify (λ p, set_started (p_started p ++ [k_id k]) p))
          | None => mret tt
          end
      | MFailed error channelsClosed =>
          laneFailure l ("nupp: a worker lane could not start: " +:+ error) channelsClosed
      | MReply id status payload error deadline =>
          match to_safe id, l_task x with
          | Some rid, Some t =>
              k ← get_task t;
              if negb (k_id k =? rid) then mret tt else
              upd_lane l (lane_task None) ;;
              settle t (reply_result status payload error deadline) ;;
              when (l_dedicated x)
                (modify (λ p, set_lanes (p_lanes p) (remove_ref l (p_dedicated p)) p) ;;
                 modify (log [EvTerminated l])) ;;
              dispatch
          | _, _ => mret tt
          end
      end
  end.

(** The page's answer to a lane's request for persistent storage. *)
Definition storage_answered (l : Z) (requestId : jsval) (granted : res bool) : js (pool C item) () :=
  modify (log [EvPosted l (PostStorage requestId granted)]).

Definition requestCancel (t : Z) (deadline : bool) : js (pool C item) () :=
  k ← get_task t;
  if k_settled k then mret tt else
  upd_task t (with_cancel deadline) ;;
  let late := k_deadline k || deadline in
  match k_lane k with
  | Some l =>
      x ← get_lane l;
      if negb (l_ready x) then
        upd_lane l (lane_task None) ;;
        when (l_dedicated x)
          (modify (λ p, set_lanes (p_lanes p) (remove_ref l (p_dedicated p)) p) ;;
           modify (log [EvTerminated l])) ;;
        revokeEndpoints t ;;
        settle t (TaskCancelled late) ;;
        dispatch
      else modify (log [EvPosted l (PostCancel (k_id k) late)])
  | None =>
      modify (λ p, set_queue (remove_ref t (p_queue p)) p) ;;
      revokeEndpoints t ;;
      settle t (TaskCancelled late)
  end.

(** The timer of a task's deadline. *)
Definition deadline_timer (t : Z) : js (pool C item) () :=
  k ← get_task t;
  when (k_timer k) (requestCancel t true).

(** The checks of a submission. *)
Definition checked_submission (entry : submission) : res (Z * string * string * string) :=
  match to_safe (sb_task entry), sb_module entry, sb_member entry, sb_payload entry with
  | Some id, VStr module_, VStr member, VStr payload =>
      if id <? 1 then Throw "invalid browser worker submission" else Ok (id, module_, member, payload)
  | _, _, _, _ => Throw "invalid browser worker submission"
  end.

Definition checked_mode (v : jsval) : res bool :=
  match v with
  | VUndef => Ok false
  | VBool b => Ok b
  | _ => Throw "invalid browser worker execution mode"
  end.

(** The endpoints a task takes along. *)
Definition take_endpoints (entry : submission) : js (pool C item) (list item) :=
  match sb_endpoints entry with
  | [] => mret []
  | endpoints =>
      guard_js (negb has_channels) "channel endpoint startup is unavailable" ;;
      on_channels (cs_take endpoints.*1)
  end.

Definition accept (entry : submission) : js (pool C item) () :=
  '(id, module_, member, payload) ← lift (checked_submission entry);
  tasks ← gets p_tasks;
  guard_js (mhas id tasks) "a browser worker task id was reused" ;;
  dedicated ← lift (checked_mode (sb_dedicated entry));
  p ← gets (λ p, p);
  guard_js (dedicated && (p_maxDedicated p <=? zlen (p_dedicated p)))
    ("nupp: dedicated worker admission limit reached (" +:+ pretty (p_maxDedicated p) +:+ ")") ;;
  endpoints ← take_endpoints entry;
  lane ← (if (dedicated : bool) then
            try_catch (l ← openLane true; mret (Some l))
              (λ error, when has_channels (on_channels (cs_discard endpoints)) ;; throw error)
          else mret None);
  t ← gets p_nextTask;
  modify (λ p, set_next (t + 1) (p_nextLane p) p) ;;
  modify (λ p, set_objects
    (mset t (Task id module_ member payload false false false [] None false None endpoints []
               (sb_endpoints entry).*2) (p_objects p)) p) ;;
  modify (λ p, set_tasks (mset id t (p_tasks p)) p) ;;
  match lane with
  | Some l =>
      try_catch (assignLane l t) (λ error,
        modify (λ p, set_tasks (mdelete id (p_tasks p)) p) ;;
        upd_lane l (lane_task None) ;;
        modify (λ p, set_lanes (p_lanes p) (remove_ref l (p_dedicated p)) p) ;;
        modify (log [EvTerminated l]) ;;
        revokeEndpoints t ;;
        throw error)
  | None => modify (λ p, set_queue (p_queue p ++ [t]) p)
  end ;;
  when (match sb_deadline entry with VNum n => is_finite_num n | _ => false end) (upd_task t with_timer).

(** The submissions that failed, by what they named. *)
Fixpoint accept_all (entries : list submission) : js (pool C item) (list (jsval * string)) :=
  match entries with
  | [] => mret []
  | entry :: entries' =>
      rejected ← try_catch (accept entry ;; mret []) (λ error, mret [(sb_task entry, error)]);
      rest ← accept_all entries';
      mret (rejected ++ rest)
  end.

(** [submit(effect)]; [None] is no array of tasks. *)
Definition submit (entries : option (list submission))
    : js (pool C item) (Z * list (jsval * string) * list Z) :=
  closed ← gets p_closed;
  if (closed : bool) then throw "the browser worker pool is closed" else
  match entries with
  | None => throw "invalid browser worker submission"
  | Some entries =>
      rejected ← accept_all entries;
      dispatch ;;
      started ← drainStarted;
      capacity ← gets p_capacity;
      mret (capacity, rejected, started)
  end.

(** [settlement(effect)] up to its [await]: the result of a settled task at once,
    or [None] when the waiter was queued on it. *)
Definition settlement (id waiter : Z) : js (pool C item) (option (task_result * list Z)) :=
  tasks ← gets p_tasks;
  match mget id tasks with
  | None => throw "a browser worker task was awaited twice or never submitted"
  | Some t =>
      k ← get_task t;
      match k_settled k, k_result k with
      | true, Some result =>
          modify (λ p, set_tasks (mdelete (k_id k) (p_tasks p)) p) ;;
          started ← drainStarted;
          mret (Some (result, started))
      | true, None => throw "a settled task has a result"
      | false, _ => upd_task t (λ k, with_waiters (k_waiters k ++ [waiter]) k) ;; mret None
      end
  end.

(** The rest of [settlement], once its task [id] has settled. *)
Definition settlement_resumed (id : Z) : js (pool C item) (list Z) :=
  modify (λ p, set_tasks (mdelete id (p_tasks p)) p) ;;
  drainStarted.

(** The [cancel] operation of [perform]. *)
Definition cancel (id : Z) : js (pool C item) (list Z) :=
  tasks ← gets p_tasks;
  match mget id tasks with
  | Some t => requestCancel t false
  | None => mret tt
  end ;;
  drainStarted.

Definition close : js (pool C item) () :=
  closed ← gets p_closed;
  if (closed : bool) then mret tt else
  modify set_closed ;;
  p ← gets (λ p, p);
  for_each (p_tasks p).*2 (λ t,
    revokeEndpoints t ;; settle t (TaskFailed "nupp: the browser worker pool closed")) ;;
  modify (λ p, log (EvTerminated <$> p_lanes p) p) ;;
  modify (λ p, log (EvTerminated <$> p_dedicated p) p) ;;
  modify (set_lanes [] []).
End Pool.
