(* ===== verification/WorkerPoolInvariant.v ===== *)
(** The invariant of the worker pool of [src/runtime/wasm/worker-pool.mjs]: no
    task is lost, none settles twice, and lanes and tasks agree on who runs what. *)

From S2P Require Import Prelude WorkerPool.

Section Invariant.
Context {C item : Type} `{!ChannelService C item} `{!ChannelLaws C item}
  (has_channels : bool) (pf : platform).
Implicit Types (p : pool C item) (k : task item) (x : lane).

(** ** The invariant *)

Definition listed p : list Z := p_lanes p ++ p_dedicated p.

(** Where an unsettled task is: on its lane, or in the queue. *)
Definition located p (t : Z) k : Prop :=
  match k_lane k with
  | Some l => l ∈ listed p ∧ ∃ x, mget l (p_laneObjects p) = Some x ∧ l_task x = Some t
  | None => t ∈ p_queue p
  end.

(** The invariant, where the task [free] is in the hands of the running code: on
    no lane and not in the queue. *)
Record pool_wf (free : option Z) p : Prop := {
  v_listed : NoDup (listed p);
  v_capacity : zlen (p_lanes p) <= p_capacity p;
  v_maxDedicated : zlen (p_dedicated p) <= p_maxDedicated p;
  v_lane : ∀ l, l ∈ listed p → ∃ x, mget l (p_laneObjects p) = Some x ∧ l_failed x = None ∧
    l_dedicated x = bool_decide (l ∈ p_dedicated p);
  v_laneFresh : ∀ l x, mget l (p_laneObjects p) = Some x → l < p_nextLane p;
  v_busy : ∀ l x t, mget l (p_laneObjects p) = Some x → l_task x = Some t →
    free ≠ Some t ∧ (t ∉ p_queue p) ∧
    ∃ k, mget t (p_objects p) = Some k ∧ (k_settled k = false → k_lane k = Some l) ∧
         (p_closed p = false → k_settled k = false);
  v_single : ∀ l1 l2 x1 x2 t, mget l1 (p_laneObjects p) = Some x1 → mget l2 (p_laneObjects p) = Some x2 →
    l_task x1 = Some t → l_task x2 = Some t → l1 = l2;
  v_fresh : ∀ t k, mget t (p_objects p) = Some k → t < p_nextTask p;
  v_settled : ∀ t k, mget t (p_objects p) = Some k → k_settled k = true →
    is_Some (k_result k) ∧ k_waiters k = [] ∧ k_lane k = None;
  v_pending : ∀ t k, mget t (p_objects p) = Some k → k_settled k = false →
    mget (k_id k) (p_tasks p) = Some t ∧ k_result k = None ∧ (free = Some t ∨ located p t k);
  v_keys : NoDup (p_tasks p).*1;
  v_tasks : ∀ id t, mget id (p_tasks p) = Some t → ∃ k, mget t (p_objects p) = Some k ∧ k_id k = id;
  v_queue : NoDup (p_queue p) ∧ ∀ t, t ∈ p_queue p → free ≠ Some t ∧
    ∃ k, mget t (p_objects p) = Some k ∧ (p_closed p = false → k_settled k = false ∧ k_lane k = None);
  v_free : ∀ t, free = Some t → is_Some (mget t (p_objects p))
}.

(** ** Steps the invariant does not see *)

(** What the invariant reads of a task. *)
Definition core k : Z * bool * option Z * option task_result * list Z :=
  (k_id k, k_settled k, k_lane k, k_result k, k_waiters k).

Record calm p p' : Prop := {
  cm_lanes : p_lanes p' = p_lanes p;
  cm_dedicated : p_dedicated p' = p_dedicated p;
  cm_laneObjects : p_laneObjects p' = p_laneObjects p;
  cm_queue : p_queue p' = p_queue p;
  cm_tasks : p_tasks p' = p_tasks p;
  cm_closed : p_closed p' = p_closed p;
  cm_capacity : p_capacity p' = p_capacity p;
  cm_maxDedicated : p_maxDedicated p' = p_maxDedicated p;
  cm_nextTask : p_nextTask p <= p_nextTask p';
  cm_nextLane : p_nextLane p <= p_nextLane p';
  cm_objects : ∀ t, core <$> mget t (p_objects p') = core <$> mget t (p_objects p)
}.

Lemma calm_refl p : calm p p.
Proof. split; done || lia. Qed.

Lemma calm_trans p1 p2 p3 : calm p1 p2 → calm p2 p3 → calm p1 p3.
Proof. intros [] []. split; congruence || lia. Qed.

Lemma calm_get p p' t k' :
  calm p p' → mget t (p_objects p') = Some k' →
  ∃ k, mget t (p_objects p) = Some k ∧ core k' = core k.
Proof.
  intros [] H. specialize (cm_objects0 t). rewrite H in cm_objects0. simpl in cm_objects0.
  destruct (mget t (p_objects p)) as [k|]; [|done]. apply (inj Some) in cm_objects0. by exists k.
Qed.

Lemma calm_get' p p' t k :
  calm p p' → mget t (p_objects p) = Some k →
  ∃ k', mget t (p_objects p') = Some k' ∧ core k' = core k.
Proof.
  intros [] H. specialize (cm_objects0 t). rewrite H in cm_objects0. simpl in cm_objects0.
  destruct (mget t (p_objects p')) as [k'|]; [|done]. apply (inj Some) in cm_objects0. by exists k'.
Qed.

Lemma wf_calm free p p' : calm p p' → pool_wf free p → pool_wf free p'.
Proof.
  intros Hc []. pose proof Hc as [E1 E2 E3 E4 E5 E6 E7 E8 E9 E10 _].
  assert (listed p' = listed p) as EL by (unfold listed; congruence).
  split; rewrite ?EL, ?E1, ?E2, ?E3, ?E4, ?E5, ?E6, ?E7, ?E8; try done.
  - intros l x Hx. pose proof (v_laneFresh0 l x Hx). lia.
  - intros l x t Hl Ht. destruct (v_busy0 l x t Hl Ht) as (? & ? & k & Hk & H1 & H2).
    destruct (calm_get' p p' t k Hc Hk) as (k' & Hk' & [= Ei Es El Er Ew]).
    split; [done|]. split; [done|]. exists k'. rewrite Es, El. done.
  - intros t k' Hk'. destruct (calm_get p p' t k' Hc Hk') as (k & Hk & _).
    pose proof (v_fresh0 t k Hk). lia.
  - intros t k' Hk'. destruct (calm_get p p' t k' Hc Hk') as (k & Hk & [= Ei Es El Er Ew]).
    rewrite Es, El, Er, Ew. eauto.
  - intros t k' Hk'. destruct (calm_get p p' t k' Hc Hk') as (k & Hk & [= Ei Es El Er Ew]).
    unfold located. rewrite Ei, Es, El, Er, EL, E3, E4. by apply v_pending0.
  - intros id t Ht. destruct (v_tasks0 id t Ht) as (k & Hk & <-).
    destruct (calm_get' p p' t k Hc Hk) as (k' & Hk' & [= Ei Es El Er Ew]). exists k'. by rewrite Ei.
  - destruct v_queue0 as [Hn Hq]. split; [done|]. intros t Ht. destruct (Hq t Ht) as (? & k & Hk & H1).
    destruct (calm_get' p p' t k Hc Hk) as (k' & Hk' & [= Ei Es El Er Ew]).
    split; [done|]. exists k'. by rewrite Es, El.
  - intros t Ht. destruct (v_free0 t Ht) as [k Hk]. destruct (calm_get' p p' t k Hc Hk) as (k' & Hk' & _). by exists k'.
Qed.

Lemma get_task_run t k p : mget t (p_objects p) = Some k → get_task t p = (Ok k, p).
Proof. intros H. unfold get_task, mbind, js_bind, gets. by rewrite H. Qed.

Lemma get_lane_run l x p : mget l (p_laneObjects p) = Some x → get_lane l p = (Ok x, p).
Proof. intros H. unfold get_lane, mbind, js_bind, gets. by rewrite H. Qed.

Lemma upd_task_run t f k p :
  mget t (p_objects p) = Some k → upd_task t f p = (Ok tt, set_objects (mset t (f k) (p_objects p)) p).
Proof. intros H. unfold upd_task, modify. by rewrite H. Qed.

Lemma upd_lane_run l f x p :
  mget l (p_laneObjects p) = Some x →
  upd_lane l f p = (Ok tt, set_laneObjects (mset l (f x) (p_laneObjects p)) p).
Proof. intros H. unfold upd_lane, modify. by rewrite H. Qed.

Lemma calm_upd_task t f k p :
  mget t (p_objects p) = Some k → core (f k) = core k →
  calm p (set_objects (mset t (f k) (p_objects p)) p).
Proof.
  intros H Hf. split; try done. 1: intros t'; simpl. destruct (decide (t = t')) as [->|Hne].
  - by rewrite mget_mset_eq, H; simpl; rewrite Hf.
  - by rewrite mget_mset_ne.
Qed.

(** Returns normally, with no change the invariant sees. *)
Definition quiet {A} (m : js (pool C item) A) p (a : A) : Prop := ∃ p', m p = (Ok a, p') ∧ calm p p'.

Lemma quiet_channels {A} (m : js C A) p a : (m (p_channels p)).1 = Ok a → quiet (on_channels m) p a.
Proof.
  intros H. unfold on_channels, zoom, quiet. destruct (m (p_channels p)) as [r c]. simpl in H. subst.
  eexists. split; [done|]. by split.
Qed.

Lemma quiet_bind {A B} (m : js (pool C item) A) (f : A → js (pool C item) B) p a b :
  quiet m p a → (∀ p', calm p p' → quiet (f a) p' b) → quiet (m ≫= f) p b.
Proof.
  intros (p' & Hm & Hc) Hf. destruct (Hf p' Hc) as (p'' & Hf' & Hc').
  exists p''. erewrite bind_run by done. split; [done|]. by eapply calm_trans.
Qed.

Lemma quiet_for_each {A} (xs : list A) (f : A → js (pool C item) ()) p :
  (∀ y p', quiet (f y) p' tt) → quiet (for_each xs f) p tt.
Proof.
  intros Hf. revert p. induction xs as [|y xs IH]; intros p; simpl.
  - exists p. split; [done|apply calm_refl].
  - eapply quiet_bind; [apply Hf|]. intros; apply IH.
Qed.

Lemma quiet_revokeEndpoints t p :
  is_Some (mget t (p_objects p)) → quiet (revokeEndpoints has_channels t) p tt.
Proof.
  intros [k Hk]. unfold revokeEndpoints. eapply quiet_bind.
  { exists p. split; [by apply get_task_run|apply calm_refl]. }
  intros p1 Hc1. eapply quiet_bind.
  - unfold when. destruct has_channels; [|exists p1; split; [done|apply calm_refl]].
    eapply quiet_bind; [apply quiet_channels, cs_discard_returns|]. intros p2 _.
    apply quiet_for_each. intros token p'. apply quiet_channels, cs_revoke_returns.
  - intros p2 Hc2. destruct (calm_get' p p2 t k) as (k2 & Hk2 & _); [by eapply calm_trans|done|].
    eexists. split; [by apply upd_task_run|]. by apply calm_upd_task.
Qed.

(** ** Settling *)

(** A task in hand settles. *)
Lemma wf_settled t k r p :
  pool_wf (Some t) p → mget t (p_objects p) = Some k →
  pool_wf None (set_objects (mset t (with_settled r k) (p_objects p)) p).
Proof.
  intros [] Hk. pose proof (λ j y, mget_mset_Some t j (with_settled r k) y (p_objects p)) as Hget.
  split; simpl; try done.
  - intros l x t' Hl Ht. destruct (v_busy0 l x t' Hl Ht) as (Hne & ? & k' & Hk' & H1 & H2).
    split; [done|]. split; [done|]. exists k'. rewrite mget_mset_ne by congruence. done.
  - intros t' k' [[-> ->]|[_ H]]%Hget; eauto.
  - intros t' k' [[-> ->]|[_ H]]%Hget; [|eauto]. intros _. simpl. eauto.
  - intros t' k' [[-> ->]|[Hne H]]%Hget; [done|]. intros Hs.
    destruct (v_pending0 t' k' H Hs) as (? & ? & [[= ->]|?]); [done|]. auto.
  - intros id t' Ht. destruct (v_tasks0 id t' Ht) as (k' & Hk' & <-).
    destruct (decide (t = t')) as [->|Hne]; [|exists k'; by rewrite mget_mset_ne].
    rewrite Hk in Hk'. injection Hk' as <-. exists (with_settled r k). by rewrite mget_mset_eq.
  - destruct v_queue0 as [Hn Hq]. split; [done|]. intros t' Ht. destruct (Hq t' Ht) as (Hne & k' & Hk' & H1).
    split; [done|]. exists k'. rewrite mget_mset_ne by congruence. done.
Qed.

(** A task in hand that had settled is nobody's. *)
Lemma wf_done t k p :
  pool_wf (Some t) p → mget t (p_objects p) = Some k → k_settled k = true → pool_wf None p.
Proof.
  intros [] Hk Hs. split; try done.
  - intros l x t' Hl Ht. destruct (v_busy0 l x t' Hl Ht) as (_ & H). done.
  - intros t' k' Hk' Hs'. destruct (v_pending0 t' k' Hk' Hs') as (? & ? & [[= ->]|?]); [congruence|auto].
  - destruct v_queue0 as [Hn Hq]. split; [done|]. intros t' Ht. destruct (Hq t' Ht) as (_ & H). done.
Qed.

(** What settling leaves alone. *)
Definition same_tables p p' : Prop :=
  p_lanes p' = p_lanes p ∧ p_dedicated p' = p_dedicated p ∧ p_laneObjects p' = p_laneObjects p ∧
  p_queue p' = p_queue p ∧ p_closed p' = p_closed p ∧ p_capacity p' = p_capacity p.

Lemma same_tables_refl p : same_tables p p.
Proof. done. Qed.

Lemma same_tables_trans p1 p2 p3 : same_tables p1 p2 → same_tables p2 p3 → same_tables p1 p3.
Proof. intros (? & ? & ? & ? & ? & ?) (? & ? & ? & ? & ? & ?). repeat split; congruence. Qed.

Lemma calm_tables p p' : calm p p' → same_tables p p'.
Proof. by intros []. Qed.

Lemma settle_run t k r p :
  mget t (p_objects p) = Some k →
  settle t r p = (Ok tt, if k_settled k then p
    else log ((λ w, EvResumed w r) <$> k_waiters k) (set_objects (mset t (with_settled r k) (p_objects p)) p)).
Proof.
  intros H. unfold settle. erewrite bind_run by (by apply get_task_run).
  destruct (k_settled k); [done|]. by erewrite bind_run by (by apply upd_task_run).
Qed.

Lemma wf_log free evs p : pool_wf free p → pool_wf free (log evs p).
Proof. apply wf_calm. by split. Qed.

Lemma wf_settle t r p :
  pool_wf (Some t) p → ∃ p', settle t r p = (Ok tt, p') ∧ pool_wf None p' ∧ same_tables p p'.
Proof.
  intros Hw. destruct (v_free _ _ Hw t eq_refl) as [k Hk]. rewrite (settle_run t k) by done.
  eexists. split; [done|]. destruct (k_settled k) eqn:Es.
  - split; [by eapply wf_done|done].
  - split; [by apply wf_log, wf_settled|done].
Qed.

(** ** Lanes *)

(** A lane gives up its task, keeping its place. *)
Lemma wf_clear_lane l x f p :
  pool_wf None p → mget l (p_laneObjects p) = Some x →
  l_task (f x) = None → l_dedicated (f x) = l_dedicated x → l_failed (f x) = l_failed x →
  pool_wf (l_task x) (set_laneObjects (mset l (f x) (p_laneObjects p)) p).
Proof.
  intros [] Hx Ht Hd Hf. pose proof (λ j y, mget_mset_Some l j (f x) y (p_laneObjects p)) as Hget.
  split; simpl; try done.
  - intros l' Hl'. destruct (v_lane0 l' Hl') as (x' & Hx' & H1 & H2).
    destruct (decide (l = l')) as [->|Hne]; [|exists x'; by rewrite mget_mset_ne].
    exists (f x). rewrite mget_mset_eq, Hf, Hd. rewrite Hx in Hx'. by injection Hx' as <-.
  - intros l' x' [[-> ->]|[_ H]]%Hget; eauto.
  - intros l' x' t [[-> ->]|[Hne H]]%Hget Ht'; [congruence|].
    destruct (v_busy0 l' x' t H Ht') as (_ & Hk). split; [|done].
    intros Hxt. apply Hne. by eapply v_single0.
  - intros l1 l2 x1 x2 t [[-> ->]|[? H1]]%Hget [[-> ->]|[? H2]]%Hget ? ?; [done|congruence..|eauto].
  - intros t k Hk Hs. destruct (v_pending0 t k Hk Hs) as (? & ? & [?|Hloc]); [done|].
    split; [done|]. split; [done|]. unfold located in *. simpl. destruct (k_lane k) as [l'|]; [|auto].
    destruct Hloc as (Hin & x' & Hx' & Ht'). destruct (decide (l = l')) as [->|Hne].
    + left. congruence.
    + right. split; [done|]. exists x'. by rewrite mget_mset_ne.
  - destruct v_queue0 as [Hn Hq]. split; [done|]. intros t Hin. destruct (Hq t Hin) as (_ & k & Hk & H1).
    split; [|eauto]. intros Hxt. by destruct (v_busy0 l x t Hx Hxt) as (_ & ? & _).
  - intros t Hxt. destruct (v_busy0 l x t Hx Hxt) as (_ & _ & k & Hk & _). eauto.
Qed.

Lemma NoDup_app_remove l (s1 s2 : list Z) :
  NoDup (s1 ++ s2) → NoDup (remove_ref l s1 ++ s2) ∧ NoDup (s1 ++ remove_ref l s2).
Proof.
  intros (H1 & H2 & H3)%NoDup_app. unfold remove_ref. split; apply NoDup_app.
  - split; [by apply NoDup_filter|]. split; [|done]. intros y [_ Hy]%list_elem_of_filter. auto.
  - split; [done|]. split; [|by apply NoDup_filter]. intros y Hy [_ Hy']%list_elem_of_filter. by apply (H2 y).
Qed.

Lemma zlen_remove l s : zlen (remove_ref l s) <= zlen s.
Proof. unfold zlen, remove_ref. pose proof (length_filter (λ y, y ≠ l) s). lia. Qed.

Lemma elem_remove y l s : y ∈ remove_ref l s ↔ y ≠ l ∧ y ∈ s.
Proof. unfold remove_ref. by rewrite list_elem_of_filter. Qed.

(** A lane is forgotten, its worker gone: it must run no task but the one in hand. *)
Lemma wf_forget_lane l x (dedicated : bool) free p :
  pool_wf free p → mget l (p_laneObjects p) = Some x → l_task x = None →
  pool_wf free (if dedicated then set_lanes (p_lanes p) (remove_ref l (p_dedicated p)) p
                else set_lanes (remove_ref l (p_lanes p)) (p_dedicated p) p).
Proof.
  intros Hw Hx Ht. set (p' := if dedicated then _ else _). pose proof Hw as [].
  assert (∀ y, y ∈ listed p' → y ∈ listed p) as Hsub.
  { unfold p', listed. intros y. destruct dedicated; simpl; rewrite !elem_of_app, elem_remove; naive_solver. }
  assert (∀ y, y ≠ l → y ∈ listed p → y ∈ listed p') as Hkeep.
  { unfold p', listed. intros y ?. destruct dedicated; simpl; rewrite !elem_of_app, elem_remove; naive_solver. }
  assert (p_laneObjects p' = p_laneObjects p ∧ p_objects p' = p_objects p ∧ p_queue p' = p_queue p ∧
    p_tasks p' = p_tasks p ∧ p_closed p' = p_closed p ∧ p_nextLane p' = p_nextLane p ∧
    p_nextTask p' = p_nextTask p ∧ p_capacity p' = p_capacity p ∧ p_maxDedicated p' = p_maxDedicated p)
    as (E1 & E2 & E3 & E4 & E5 & E6 & E7 & E8 & E9) by (unfold p'; by destruct dedicated).
  destruct (NoDup_app_remove l _ _ v_listed0) as [N1 N2].
  pose proof (zlen_remove l (p_lanes p)). pose proof (zlen_remove l (p_dedicated p)).
  split; rewrite ?E1, ?E2, ?E3, ?E4, ?E5, ?E6, ?E7, ?E8, ?E9; try done.
  - unfold p', listed. by destruct dedicated.
  - unfold p'. destruct dedicated; simpl; lia.
  - unfold p'. destruct dedicated; simpl; lia.
  - intros y Hy. destruct (v_lane0 y (Hsub y Hy)) as (x' & Hx' & Hf & Hdd). exists x'. split; [done|]. split; [done|].
    rewrite Hdd. apply bool_decide_ext. unfold p' in *. destruct dedicated; [|done]. simpl. rewrite elem_remove.
    split; [|naive_solver]. intros Hyd. split; [|done]. intros ->. revert Hy. unfold listed. simpl.
    rewrite elem_of_app, elem_remove. intros [Hin|[? _]]; [|done].
    apply NoDup_app in v_listed0 as (_ & Hdis & _). by apply (Hdis l).
  - intros t k Hk Hs. destruct (v_pending0 t k Hk Hs) as (? & ? & [?|Hloc]); [auto|].
    split; [done|]. split; [done|]. right. unfold located in *. rewrite E1, E3.
    destruct (k_lane k) as [l'|]; [|done]. destruct Hloc as (Hin & x' & Hx' & Ht').
    split; [|by exists x']. apply Hkeep; [|done]. intros ->. congruence.
Qed.

(** An idle lane that is listed nowhere may change. *)
Lemma wf_unlisted_lane l x y free p :
  pool_wf free p → (l ∉ listed p) → mget l (p_laneObjects p) = Some x → l_task x = None → l_task y = None →
  pool_wf free (set_laneObjects (mset l y (p_laneObjects p)) p).
Proof.
  intros [] Hl Hx Htx Hty. pose proof (λ j z, mget_mset_Some l j y z (p_laneObjects p)) as Hget.
  split; simpl; try done.
  - intros l' Hl'. destruct (v_lane0 l' Hl') as (x' & Hx' & ?). exists x'. rewrite mget_mset_ne; [done|]. by intros ->.
  - intros l' x' [[-> ->]|[_ H]]%Hget; eauto.
  - intros l' x' t [[-> ->]|[_ H]]%Hget Ht'; [congruence|eauto].
  - intros l1 l2 x1 x2 t [[-> ->]|[? H1]]%Hget [[-> ->]|[? H2]]%Hget ? ?; [done|congruence..|eauto].
  - intros t k Hk Hs. destruct (v_pending0 t k Hk Hs) as (? & ? & [?|Hloc]); [auto|].
    split; [done|]. split; [done|]. right. unfold located in *. simpl. destruct (k_lane k) as [l'|]; [|done].
    destruct Hloc as (Hin & x' & Hx' & Ht'). split; [done|]. exists x'. rewrite mget_mset_ne; [done|]. by intros ->.
Qed.

Lemma forget_unlisted l x p :
  pool_wf None p → mget l (p_laneObjects p) = Some x →
  l ∉ listed (if l_dedicated x then set_lanes (p_lanes p) (remove_ref l (p_dedicated p)) p
              else set_lanes (remove_ref l (p_lanes p)) (p_dedicated p) p).
Proof.
  intros [] Hx Hin. assert (l ∈ listed p) as Hl.
  { revert Hin. unfold listed. destruct (l_dedicated x); simpl; rewrite !elem_of_app, elem_remove; naive_solver. }
  destruct (v_lane0 l Hl) as (x' & Hx' & _ & Hd). rewrite Hx in Hx'. injection Hx' as <-.
  apply NoDup_app in v_listed0 as (_ & Hdis & _). revert Hin. unfold listed. rewrite Hd.
  case_bool_decide as Hb; simpl; rewrite elem_of_app, elem_remove; naive_solver.
Qed.

(** A lane that fails: its task, if any, is in hand. *)
Lemma wf_fail_lane l x reason p :
  pool_wf None p → mget l (p_laneObjects p) = Some x →
  let p1 := log [EvTerminated l] (set_laneObjects (mset l (lane_failed reason x) (p_laneObjects p)) p) in
  pool_wf (l_task x) (if l_dedicated x then set_lanes (p_lanes p1) (remove_ref l (p_dedicated p1)) p1
                      else set_lanes (remove_ref l (p_lanes p1)) (p_dedicated p1) p1).
Proof.
  intros Hw Hx p1.
  pose proof (wf_clear_lane l x (lane_task None) p Hw Hx eq_refl eq_refl eq_refl) as W1.
  set (q := set_laneObjects _ p) in W1.
  assert (mget l (p_laneObjects q) = Some (lane_task None x)) as Hq by apply mget_mset_eq.
  pose proof (wf_forget_lane l _ (l_dedicated x) _ q W1 Hq eq_refl) as W2.
  pose proof (forget_unlisted l x p Hw Hx) as Hun.
  assert (mget l (p_laneObjects (if l_dedicated x then set_lanes (p_lanes q) (remove_ref l (p_dedicated q)) q
    else set_lanes (remove_ref l (p_lanes q)) (p_dedicated q) q)) = Some (lane_task None x)) as Hq2
    by (by destruct (l_dedicated x)).
  pose proof (wf_unlisted_lane l _ (lane_failed reason x) _ _ W2
    ltac:(by destruct (l_dedicated x)) Hq2 eq_refl eq_refl) as W3.
  apply (wf_log _ [EvTerminated l]) in W3. unfold p1. clear -W3.
  destruct (l_dedicated x); unfold q in W3; simpl in *; by rewrite mset_mset in W3.
Qed.

(** ** Assigning *)

(** The queue's first task is taken in hand. *)
Lemma wf_shift t rest p :
  pool_wf None p → p_queue p = t :: rest → pool_wf (Some t) (set_queue rest p).
Proof.
  intros [] Hq. destruct v_queue0 as [Hn Hin]. rewrite Hq in *. apply NoDup_cons in Hn as [Hni Hn].
  split; simpl; try done.
  - intros l x t' Hl Ht. destruct (v_busy0 l x t' Hl Ht) as (_ & Hnq & H). rewrite elem_of_cons in Hnq.
    split; [naive_solver|]. split; [naive_solver|done].
  - intros t' k Hk Hs. destruct (v_pending0 t' k Hk Hs) as (? & ? & [?|Hloc]); [done|].
    split; [done|]. split; [done|]. unfold located in *. simpl. destruct (k_lane k); [by right|].
    rewrite Hq in Hloc. apply elem_of_cons in Hloc as [->|?]; auto.
  - split; [done|]. intros t' Ht'. split; [congruence|]. apply Hin. by right.
  - intros t' [= <-]. destruct (Hin t ltac:(left)) as (_ & k & Hk & _). eauto.
Qed.

(** A task in hand is put on an idle lane. *)
Lemma wf_assign l x t k p :
  pool_wf (Some t) p → l ∈ listed p → mget l (p_laneObjects p) = Some x → l_task x = None →
  mget t (p_objects p) = Some k → k_settled k = false →
  pool_wf None (set_objects (mset t (with_lane (Some l) k) (p_objects p))
                  (set_laneObjects (mset l (lane_task (Some t) x) (p_laneObjects p)) p)).
Proof.
  intros [] Hl Hx Ht Hk Hs.
  pose proof (λ j y, mget_mset_Some l j (lane_task (Some t) x) y (p_laneObjects p)) as HgetL.
  pose proof (λ j y, mget_mset_Some t j (with_lane (Some l) k) y (p_objects p)) as HgetT.
  destruct (v_pending0 t k Hk Hs) as (Hid & Hres & _).
  split; simpl; try done.
  - intros l' Hl'. destruct (v_lane0 l' Hl') as (x' & Hx' & ?).
    destruct (decide (l = l')) as [->|Hne]; [|exists x'; by rewrite mget_mset_ne].
    exists (lane_task (Some t) x). rewrite mget_mset_eq. rewrite Hx in Hx'. by injection Hx' as <-.
  - intros l' x' [[-> ->]|[_ H]]%HgetL; eauto.
  - intros l' x' t' [[-> ->]|[Hne H]]%HgetL Ht'.
    + injection Ht' as <-. split; [done|]. split; [intros Hin; by destruct v_queue0 as [_ Hq]; destruct (Hq t Hin)|].
      exists (with_lane (Some l) k). by rewrite mget_mset_eq.
    + destruct (v_busy0 l' x' t' H Ht') as (Hf & Hnq & k' & Hk' & ?). split; [done|]. split; [done|].
      exists k'. by rewrite mget_mset_ne by congruence.
  - intros l1 l2 x1 x2 t' [[-> ->]|[? H1]]%HgetL [[-> ->]|[? H2]]%HgetL T1 T2; [done| | |eauto].
    + injection T1 as <-. by destruct (v_busy0 l2 x2 t H2 T2) as (Hf & _).
    + injection T2 as <-. by destruct (v_busy0 l1 x1 t H1 T1) as (Hf & _).
  - intros t' k' [[-> ->]|[_ H]]%HgetT; eauto.
  - intros t' k' [[-> ->]|[_ H]]%HgetT; [simpl; congruence|eauto].
  - intros t' k' [[-> ->]|[Hne H]]%HgetT Hs'.
    + split; [done|]. split; [done|]. right. unfold located. simpl. split; [done|].
      exists (lane_task (Some t) x). by rewrite mget_mset_eq.
    + destruct (v_pending0 t' k' H Hs') as (? & ? & [[= ->]|Hloc]); [done|]. split; [done|]. split; [done|]. right.
      unfold located in *. simpl. destruct (k_lane k') as [l'|]; [|done]. destruct Hloc as (Hin & x' & Hx' & Ht').
      split; [done|]. exists x'. rewrite mget_mset_ne; [done|]. intros ->. congruence.
  - intros id t' Hid'. destruct (v_tasks0 id t' Hid') as (k' & Hk' & <-).
    destruct (decide (t = t')) as [->|Hne]; [|exists k'; by rewrite mget_mset_ne].
    rewrite Hk in Hk'. injection Hk' as <-. eexists. by rewrite mget_mset_eq.
  - destruct v_queue0 as [Hn Hq]. split; [done|]. intros t' Ht'. destruct (Hq t' Ht') as (Hne & k' & Hk' & ?).
    split; [done|]. exists k'. by rewrite mget_mset_ne by congruence.
Qed.

(** A new lane, idle and booting, where there is room for one. *)
Lemma wf_open (dedicated : bool) free p :
  pool_wf free p →
  (if dedicated then zlen (p_dedicated p) < p_maxDedicated p else zlen (p_lanes p) < p_capacity p) →
  let l := p_nextLane p in
  let p1 := set_laneObjects (mset l (Lane None dedicated false None) (p_laneObjects p))
              (set_next (p_nextTask p) (l + 1) p) in
  pool_wf free (if dedicated then set_lanes (p_lanes p1) (p_dedicated p1 ++ [l]) p1
                else set_lanes (p_lanes p1 ++ [l]) (p_dedicated p1) p1).
Proof.
  intros Hw Hroom l p1. pose proof Hw as []. set (y := Lane None dedicated false None).
  assert (mget l (p_laneObjects p) = None) as Hnew.
  { destruct (mget l (p_laneObjects p)) as [x|] eqn:E; [|done]. pose proof (v_laneFresh0 l x E). lia. }
  assert (l ∉ listed p) as Hun. { intros Hl. destruct (v_lane0 l Hl) as (? & ? & _). congruence. }
  set (p' := if dedicated then _ else _).
  assert (∀ z, z ∈ listed p' ↔ z = l ∨ z ∈ listed p) as Hlisted.
  { unfold p', p1, listed. intros z. destruct dedicated; simpl; rewrite !elem_of_app, list_elem_of_singleton; tauto. }
  assert (p_laneObjects p' = mset l y (p_laneObjects p) ∧ p_objects p' = p_objects p ∧ p_queue p' = p_queue p ∧
    p_tasks p' = p_tasks p ∧ p_closed p' = p_closed p ∧ p_nextLane p' = l + 1 ∧
    p_nextTask p' = p_nextTask p ∧ p_capacity p' = p_capacity p ∧ p_maxDedicated p' = p_maxDedicated p)
    as (E1 & E2 & E3 & E4 & E5 & E6 & E7 & E8 & E9) by (unfold p'; by destruct dedicated).
  pose proof (λ j z, mget_mset_Some l j y z (p_laneObjects p)) as Hget.
  split; rewrite ?E1, ?E2, ?E3, ?E4, ?E5, ?E6, ?E7, ?E8, ?E9; try done.
  - unfold p', p1, listed in *. destruct dedicated; simpl; [rewrite app_assoc|].
    + apply NoDup_app. split; [done|]. split; [|apply NoDup_singleton].
      intros z Hz ->%list_elem_of_singleton. done.
    + eapply NoDup_Permutation_proper; [|apply NoDup_cons; split; [exact Hun|exact v_listed0]].
      rewrite <- app_assoc. symmetry. apply Permutation_middle.
  - unfold p', p1. destruct dedicated; simpl; rewrite ?zlen_app; unfold zlen in *; simpl; lia.
  - unfold p', p1. destruct dedicated; simpl; rewrite ?zlen_app; unfold zlen in *; simpl; lia.
  - intros z [->|Hz]%Hlisted.
    + exists y. rewrite mget_mset_eq. split; [done|]. split; [done|]. simpl.
      unfold p', p1. destruct dedicated; symmetry; simpl; [apply bool_decide_eq_true|apply bool_decide_eq_false].
      * set_solver.
      * intros ?. apply Hun. unfold listed. set_solver.
    + destruct (v_lane0 z Hz) as (x & Hx & Hf & Hd). exists x. rewrite mget_mset_ne by congruence.
      split; [done|]. split; [done|]. rewrite Hd. apply bool_decide_ext. unfold p', p1.
      destruct dedicated; [|done]. simpl. rewrite elem_of_app, list_elem_of_singleton. naive_solver.
  - intros z x [[-> ->]|[_ H]]%Hget; [lia|]. pose proof (v_laneFresh0 z x H). lia.
  - intros z x t [[-> ->]|[_ H]]%Hget Ht; [done|eauto].
  - intros l1 l2 x1 x2 t [[-> ->]|[? H1]]%Hget [[-> ->]|[? H2]]%Hget ? ?; [done..|eauto].
  - intros t k Hk Hs. destruct (v_pending0 t k Hk Hs) as (? & ? & [?|Hloc]); [auto|].
    split; [done|]. split; [done|]. right. unfold located in *. rewrite E1, E3. destruct (k_lane k) as [l'|]; [|done].
    destruct Hloc as (Hin & x' & Hx' & Ht'). split; [apply Hlisted; auto|].
    exists x'. by rewrite mget_mset_ne by congruence.
Qed.

(** The outcomes of [openLane]. *)
Lemma openLane_spec dedicated free p :
  pool_wf free p →
  (if dedicated : bool then zlen (p_dedicated p) < p_maxDedicated p else zlen (p_lanes p) < p_capacity p) →
  (∃ error p', openLane pf dedicated p = (Throw error, p') ∧ calm p p') ∨
  (∃ l x p', openLane pf dedicated p = (Ok l, p') ∧ pool_wf free p' ∧ l ∈ listed p' ∧
     mget l (p_laneObjects p') = Some x ∧ l_task x = None ∧ l_ready x = false ∧ l_dedicated x = dedicated ∧
     p_queue p' = p_queue p ∧ p_closed p' = p_closed p ∧ p_objects p' = p_objects p ∧
     p_tasks p' = p_tasks p ∧ p_nextTask p' = p_nextTask p).
Proof.
  intros Hw Hroom. unfold openLane. erewrite bind_run by done. erewrite bind_run by done.
  destruct (open_fails pf _) as [error|].
  - left. eexists _, _. erewrite bind_run by done. split; [done|]. split; simpl; done || lia.
  - right. erewrite bind_run by done. erewrite bind_run by done. erewrite bind_run by done.
    pose proof (wf_log _ [EvPosted (p_nextLane p) PostBoot] _ (wf_open dedicated free p Hw Hroom)) as Hw'.
    exists (p_nextLane p), (Lane None dedicated false None). eexists. split; [done|].
    split; [by destruct dedicated|]. split.
    { destruct dedicated; unfold listed; simpl; set_solver. }
    destruct dedicated; simpl; rewrite mget_mset_eq; done.
Qed.

(** ** Dispatching *)

(** Nothing is left to dispatch: the queue is empty, the pool closed, or every
    lane it may have is busy. *)
Definition stopped p : Prop :=
  p_queue p = [] ∨ p_closed p = true ∨ (idle_lane p = None ∧ p_capacity p <= zlen (p_lanes p)).

(** A step of the pool's own code: it returns, keeps the invariant, and queues nothing. *)
Definition steady (m : js (pool C item) ()) p : Prop :=
  ∃ p', m p = (Ok tt, p') ∧ pool_wf None p' ∧ (length (p_queue p') <= length (p_queue p))%nat ∧
        p_closed p' = p_closed p.

Lemma lane_failure_steady disp l x reason cc p :
  (∀ p, pool_wf None p → steady disp p) →
  pool_wf None p → mget l (p_laneObjects p) = Some x →
  steady (lane_failure has_channels disp l reason cc) p.
Proof.
  intros Hdisp Hw Hx. unfold lane_failure, steady. erewrite bind_run by (by apply get_lane_run).
  destruct (l_failed x); [by exists p|].
  assert (quiet (match l_task x with
    | Some t => when (negb cc) (revokeEndpoints has_channels t) | None => mret tt end) p tt) as (p1 & H1 & C1).
  { destruct (l_task x) as [t|] eqn:Ht; [|exists p; split; [done|apply calm_refl]].
    destruct cc; [exists p; split; [done|apply calm_refl]|]. apply quiet_revokeEndpoints.
    destruct (v_busy _ _ Hw l x t Hx Ht) as (_ & _ & k & Hk & _). by exists k. }
  erewrite bind_run by exact H1. pose proof (wf_calm _ _ _ C1 Hw) as W1. pose proof C1 as [_ _ E1 E2 _ E3 _ _ _ _ _].
  rewrite <- E1 in Hx. erewrite bind_run by (by apply upd_lane_run). erewrite bind_run by done. erewrite bind_run by done.
  pose proof (wf_fail_lane l x reason p1 W1 Hx) as W2. cbv zeta in W2. set (p2 := if l_dedicated x then _ else _) in W2.
  assert (p_queue p2 = p_queue p ∧ p_closed p2 = p_closed p) as [Q2 D2]
    by (unfold p2; destruct (l_dedicated x); by split).
  fold p2. clearbody p2. destruct (l_task x) as [t|].
  - destruct (wf_settle t (TaskFailed reason) p2 W2) as (p3 & H3 & W3 & (_ & _ & _ & Q3 & D3 & _)).
    erewrite bind_run by exact H3. destruct (Hdisp p3 W3) as (p4 & H4 & W4 & Q4 & D4). rewrite H4.
    exists p4. split; [done|]. split; [done|]. split; [rewrite Q3, Q2 in Q4; done|congruence].
  - erewrite bind_run by done. destruct (Hdisp p2 W2) as (p4 & H4 & W4 & Q4 & D4). rewrite H4.
    exists p4. split; [done|]. split; [done|]. split; [rewrite Q2 in Q4; done|congruence].
Qed.

(** Posting an assigned task does nothing the invariant sees, or throws. *)
Lemma postAssigned_spec l t p :
  is_Some (mget t (p_objects p)) →
  ∃ r p', postAssigned pf l t p = (r, p') ∧ calm p p'.
Proof.
  intros [k Hk]. unfold postAssigned. erewrite bind_run by (by apply get_task_run).
  destruct (post_fails pf l t) as [error|].
  - eexists _, p. split; [done|apply calm_refl].
  - erewrite bind_run by done. eexists _, _. split; [by eapply upd_task_run|].
    eapply calm_trans; [|by apply calm_upd_task]. by split.
Qed.

Lemma assignLane_spec l x t k p :
  pool_wf (Some t) p → l ∈ listed p → mget l (p_laneObjects p) = Some x → l_task x = None →
  mget t (p_objects p) = Some k → k_settled k = false →
  ∃ r p', assignLane pf l t p = (r, p') ∧ (l_ready x = false → r = Ok tt) ∧ pool_wf None p' ∧
    is_Some (mget l (p_laneObjects p')) ∧ p_queue p' = p_queue p ∧ p_closed p' = p_closed p.
Proof.
  intros Hw Hl Hx Hlt Hk Hs. unfold assignLane.
  erewrite bind_run by (by apply upd_lane_run). erewrite bind_run by (by apply upd_task_run).
  pose proof (wf_assign l x t k p Hw Hl Hx Hlt Hk Hs) as W1. set (p1 := set_objects _ _) in *.
  assert (mget l (p_laneObjects p1) = Some (lane_task (Some t) x)) as Hx1 by apply mget_mset_eq.
  fold p1. erewrite bind_run by (by apply get_lane_run). simpl. unfold when. destruct (l_ready x) eqn:Er.
  - destruct (postAssigned_spec l t p1) as (r & p2 & -> & C2); [exists (with_lane (Some l) k); apply mget_mset_eq|].
    exists r, p2. split; [done|]. split; [done|]. split; [by eapply wf_calm|]. destruct C2 as [_ _ E1 E2 _ E3 _ _ _ _ _].
    rewrite E1, E2, E3, Hx1. by split; [eexists|].
  - exists (Ok tt), p1. split; [done|]. split; [done|]. split; [done|]. rewrite Hx1. by split; [eexists|].
Qed.

Lemma idle_lane_Some p l :
  idle_lane p = Some l →
  l ∈ p_lanes p ∧ ∃ x, mget l (p_laneObjects p) = Some x ∧ l_task x = None.
Proof.
  unfold idle_lane. intros H. apply List.find_some in H as [Hin H]. apply list_elem_of_In in Hin.
  split; [done|]. destruct (mget l (p_laneObjects p)) as [x|]; [|done]. apply bool_decide_eq_true in H. by exists x.
Qed.

(** The outcomes of looking for a lane. *)
Lemma next_lane_spec p :
  pool_wf None p →
  (∃ error p', next_lane pf p = (Throw error, p') ∧ calm p p') ∨
  (next_lane pf p = (Ok None, p) ∧ idle_lane p = None ∧ p_capacity p <= zlen (p_lanes p)) ∨
  (∃ l x p', next_lane pf p = (Ok (Some l), p') ∧ pool_wf None p' ∧ l ∈ listed p' ∧
     mget l (p_laneObjects p') = Some x ∧ l_task x = None ∧
     p_queue p' = p_queue p ∧ p_closed p' = p_closed p).
Proof.
  intros Hw. unfold next_lane. erewrite bind_run by done. destruct (idle_lane p) as [l|] eqn:Ei.
  - apply idle_lane_Some in Ei as (Hin & x & Hx & Ht). right; right. exists l, x, p.
    repeat (split; [done|]). split; [unfold listed; set_solver|done].
  - destruct (Z.ltb_spec (zlen (p_lanes p)) (p_capacity p)).
    + destruct (openLane_spec false None p Hw) as [(err & p' & E & Hc)|(l & x & p' & E & W & Hl & Hx & Ht & _ & _ & Q & D & _)];
        [done| |].
      * left. exists err, p'. unfold mbind, js_bind. by rewrite E.
      * right; right. exists l, x, p'. erewrite bind_run by done. done.
    + right; left. done.
Qed.

Lemma shift_queue_run t rest p : p_queue p = t :: rest → shift_queue p = (Ok t, set_queue rest p).
Proof. intros H. unfold shift_queue. erewrite bind_run by done. by rewrite H. Qed.

(** The head of the queue is an unsettled task while the pool is open. *)
Lemma queue_head t rest p :
  pool_wf None p → p_queue p = t :: rest → p_closed p = false →
  ∃ k, mget t (p_objects p) = Some k ∧ k_settled k = false.
Proof.
  intros [] Q D. destruct v_queue0 as [_ Hq]. rewrite Q in Hq.
  destruct (Hq t ltac:(left)) as (_ & k & Hk & Hs). exists k. by destruct (Hs D).
Qed.

(** When no lane can be opened, the head of the queue fails. *)
Lemma fail_head t rest error p :
  pool_wf None p → p_queue p = t :: rest → p_closed p = false →
  ∃ p', (t ← shift_queue; revokeEndpoints has_channels t ;; settle t (TaskFailed error) ;; mret (inr tt)) p =
          (Ok (inr tt : option Z + ()), p') ∧
        pool_wf None p' ∧ p_queue p' = rest ∧ p_closed p' = false.
Proof.
  intros Hw Q D. pose proof (wf_shift t rest p Hw Q) as W2. destruct (queue_head t rest p Hw Q D) as (k & Hk & _).
  destruct (quiet_revokeEndpoints t (set_queue rest p)) as (p3 & H3 & C3); [by exists k|].
  pose proof (wf_calm _ _ _ C3 W2) as W3. pose proof C3 as [_ _ _ Q3 _ D3 _ _ _ _ _].
  destruct (wf_settle t (TaskFailed error) p3 W3) as (p4 & H4 & W4 & (_ & _ & _ & Q4 & D4 & _)).
  exists p4. erewrite bind_run by (by apply shift_queue_run). erewrite bind_run by exact H3.
  erewrite bind_run by exact H4. rewrite Q4, Q3, D4, D3. done.
Qed.

(** The head of the queue goes to a lane; a lane that cannot take it fails, with
    [disp] run again. *)
Lemma assign_head disp l x t rest k p :
  (∀ p, pool_wf None p → steady disp p) →
  pool_wf None p → p_queue p = t :: rest → p_closed p = false → l ∈ listed p →
  mget l (p_laneObjects p) = Some x → l_task x = None → mget t (p_objects p) = Some k → k_settled k = false →
  ∃ p', try_catch (assignLane pf l t)
          (λ error, lane_failure has_channels disp l ("nupp: worker startup failed: " +:+ error) false)
          (set_queue rest p) = (Ok tt, p') ∧
        pool_wf None p' ∧ (length (p_queue p') <= length rest)%nat ∧ p_closed p' = false.
Proof.
  intros Hdisp Hw Q D Hl Hx Ht Hk Hs. pose proof (wf_shift t rest p Hw Q) as W2.
  destruct (assignLane_spec l x t k (set_queue rest p) W2 Hl Hx Ht Hk Hs)
    as (r & p3 & H3 & _ & W3 & [x3 Hx3] & Q3 & D3).
  unfold try_catch. rewrite H3. destruct r as [[]|error].
  - exists p3. rewrite Q3, D3. simpl. split; [done|]. split; [done|]. split; [lia|]. done.
  - destruct (lane_failure_steady disp l x3 ("nupp: worker startup failed: " +:+ error) false p3 Hdisp W3 Hx3)
      as (p4 & H4 & W4 & Q4 & D4).
    exists p4. rewrite Q3 in Q4. rewrite D4, D3. done.
Qed.

(** Rounds of the dispatch loop: they return, and enough of them leave nothing to
    dispatch. *)
Lemma dispatch_rounds_spec n p :
  pool_wf None p →
  ∃ p', dispatch_rounds has_channels pf n p = (Ok tt, p') ∧ pool_wf None p' ∧
    (length (p_queue p') <= length (p_queue p))%nat ∧ p_closed p' = p_closed p ∧
    ((length (p_queue p) <= n)%nat → stopped p').
Proof.
  revert p. induction n as [|n IH]; intros p Hw; cbn [dispatch_rounds].
  { exists p. split; [done|]. repeat (split; [done|]). intros H. left. by destruct (p_queue p); simpl in H; [|lia]. }
  erewrite bind_run by done.
  destruct (p_queue p) as [|t rest] eqn:Eq; [exists p; rewrite Eq; repeat (split; [done|]); by left|].
  rewrite (proj2 (Z.ltb_lt 0 _)) by (rewrite zlen_cons; pose proof (zlen_nonneg rest); lia).
  destruct (p_closed p) eqn:Ed; simpl.
  { exists p. rewrite Eq. repeat (split; [done|]). intros _. by right; left. }
  assert (∀ q, pool_wf None q → (length (p_queue q) <= length rest)%nat → p_closed q = false →
    ∃ p', dispatch_rounds has_channels pf n q = (Ok tt, p') ∧ pool_wf None p' ∧
      (length (p_queue p') <= S (length rest))%nat ∧ p_closed p' = false ∧
      ((S (length rest) <= S n)%nat → stopped p')) as Hrest.
  { intros q Wq Qq Dq. destruct (IH q Wq) as (p5 & H5 & W5 & Q5 & D5 & S5). exists p5.
    split; [done|]. split; [done|]. split; [lia|]. split; [congruence|]. intros ?. apply S5. lia. }
  destruct (next_lane_spec p Hw) as [(err & p1 & E1 & C1)|[(E1 & Hi & Hc)|(l & x & p1 & E1 & W1 & Hl & Hx & Ht & Q1 & D1)]].
  - pose proof C1 as [_ _ _ Q1 _ D1 _ _ _ _ _].
    destruct (fail_head t rest err p1) as (p2 & H2 & W2 & Q2 & D2); [by eapply wf_calm|congruence..|].
    erewrite bind_run by (unfold try_catch; unfold mbind at 1, js_bind at 1; rewrite E1; exact H2).
    apply Hrest; [done|by rewrite Q2|done].
  - erewrite bind_run by (unfold try_catch, mbind, js_bind; by rewrite E1).
    exists p. rewrite Eq. repeat (split; [done|]). intros _. right; right. done.
  - erewrite bind_run by (unfold try_catch, mbind, js_bind; by rewrite E1).
    rewrite Eq in Q1. cbv beta iota. erewrite bind_run by (by apply shift_queue_run).
    destruct (queue_head t rest p1) as (k & Hk & Hs); [done|congruence..|].
    erewrite bind_run by (by apply get_task_run). rewrite Hs. cbv iota.
    destruct (assign_head (dispatch_rounds has_channels pf n) l x t rest k p1) as (p2 & H2 & W2 & Q2 & D2);
      [|done|congruence..|done|done|done|done|done|].
    { intros q Wq. destruct (IH q Wq) as (q' & Hq' & ? & ? & ? & _). by exists q'. }
    erewrite bind_run by exact H2. by apply Hrest.
Qed.

Lemma dispatch_spec p :
  pool_wf None p →
  ∃ p', dispatch has_channels pf p = (Ok tt, p') ∧ pool_wf None p' ∧
    (length (p_queue p') <= length (p_queue p))%nat ∧ p_closed p' = p_closed p ∧ stopped p'.
Proof.
  intros Hw. unfold dispatch. erewrite bind_run by done.
  destruct (dispatch_rounds_spec (length (p_queue p)) p Hw) as (p' & H & W & Q & D & S).
  exists p'. repeat (split; [done|]). by apply S.
Qed.

Lemma dispatch_steady p : pool_wf None p → steady (dispatch has_channels pf) p.
Proof. intros Hw. destruct (dispatch_spec p Hw) as (p' & H & W & Q & D & _). by exists p'. Qed.

(** ** The other operations *)

(** A lane's flags other than its failure may change. *)
Lemma wf_lane_flags l x y p :
  pool_wf None p → mget l (p_laneObjects p) = Some x →
  l_task y = l_task x → l_dedicated y = l_dedicated x → l_failed y = l_failed x →
  pool_wf None (set_laneObjects (mset l y (p_laneObjects p)) p).
Proof.
  intros [] Hx Et Ed Ef. pose proof (λ j z, mget_mset_Some l j y z (p_laneObjects p)) as Hget.
  split; simpl; try done.
  - intros l' Hl'. destruct (v_lane0 l' Hl') as (x' & Hx' & H1 & H2).
    destruct (decide (l = l')) as [->|Hne]; [|exists x'; by rewrite mget_mset_ne].
    exists y. rewrite mget_mset_eq, Ed, Ef. rewrite Hx in Hx'. by injection Hx' as <-.
  - intros l' x' [[-> ->]|[_ H]]%Hget; eauto.
  - intros l' x' t [[-> ->]|[_ H]]%Hget Ht; [rewrite Et in Ht|]; eauto.
  - intros l1 l2 x1 x2 t [[-> ->]|[? H1]]%Hget [[-> ->]|[? H2]]%Hget; [done|rewrite Et..|]; eauto.
  - intros t k Hk Hs. destruct (v_pending0 t k Hk Hs) as (? & ? & [?|Hloc]); [done|].
    split; [done|]. split; [done|]. right. unfold located in *. simpl. destruct (k_lane k) as [l'|]; [|done].
    destruct Hloc as (Hin & x' & Hx' & Ht'). split; [done|].
    destruct (decide (l = l')) as [->|Hne]; [|exists x'; by rewrite mget_mset_ne].
    exists y. rewrite mget_mset_eq, Et. rewrite Hx in Hx'. by injection Hx' as <-.
Qed.

(** A queued task is taken in hand. *)
Lemma wf_unqueue t p :
  pool_wf None p → t ∈ p_queue p → pool_wf (Some t) (set_queue (remove_ref t (p_queue p)) p).
Proof.
  intros [] Hin. destruct v_queue0 as [Hn Hq]. split; simpl; try done.
  - intros l x t' Hl Ht. destruct (v_busy0 l x t' Hl Ht) as (_ & Hnq & H).
    split; [congruence|]. split; [|done]. rewrite elem_remove. naive_solver.
  - intros t' k Hk Hs. destruct (v_pending0 t' k Hk Hs) as (? & ? & [?|Hloc]); [done|].
    split; [done|]. split; [done|]. unfold located in *. simpl. destruct (k_lane k); [by right|].
    destruct (decide (t' = t)) as [->|Hne]; [by left|right]. by apply elem_remove.
  - split; [by apply NoDup_filter|]. intros t' [Hne Ht']%elem_remove. destruct (Hq t' Ht') as (_ & H).
    split; [congruence|done].
  - intros t' [= <-]. destruct (Hq t Hin) as (_ & k & Hk & _). by exists k.
Qed.

(** A task in hand joins the queue. *)
Lemma wf_enqueue t k p :
  pool_wf (Some t) p → mget t (p_objects p) = Some k → k_settled k = false → k_lane k = None →
  pool_wf None (set_queue (p_queue p ++ [t]) p).
Proof.
  intros [] Hk Hs Hl. destruct v_queue0 as [Hn Hq]. split; simpl; try done.
  - intros l x t' Hx Ht. destruct (v_busy0 l x t' Hx Ht) as (Hne & Hnq & H).
    split; [done|]. split; [|done]. rewrite elem_of_app, list_elem_of_singleton. naive_solver.
  - intros t' k' Hk' Hs'. destruct (v_pending0 t' k' Hk' Hs') as (? & ? & Hloc).
    split; [done|]. split; [done|]. right. unfold located in *. simpl. destruct Hloc as [[= ->]|Hloc].
    + rewrite Hk in Hk'. injection Hk' as <-. rewrite Hl. set_solver.
    + destruct (k_lane k'); [done|]. set_solver.
  - split.
    + apply NoDup_app. split; [done|]. split; [|apply NoDup_singleton].
      intros t' Ht' ->%list_elem_of_singleton. by destruct (Hq t Ht').
    + intros t' [Ht'| ->%list_elem_of_singleton]%elem_of_app; (split; [done|]).
      * by destruct (Hq t' Ht') as (_ & ?).
      * by exists k.
Qed.

(** A new task, in hand, under an id no task has. *)
Lemma wf_new_task k p :
  pool_wf None p → mget (k_id k) (p_tasks p) = None → k_settled k = false → k_result k = None →
  let t := p_nextTask p in
  pool_wf (Some t) (set_tasks (mset (k_id k) t (p_tasks p))
    (set_objects (mset t k (p_objects p)) (set_next (t + 1) (p_nextLane p) p))).
Proof.
  intros [] Hid Hs Hr t. destruct v_queue0 as [Hn Hq].
  assert (∀ t' k', mget t' (p_objects p) = Some k' → t' ≠ t) as Hold.
  { intros t' k' Hk' ->. pose proof (v_fresh0 t k' Hk'). lia. }
  pose proof (λ j z, mget_mset_Some t j k z (p_objects p)) as Hget. split; simpl; try done.
  - intros l x t' Hx Ht. destruct (v_busy0 l x t' Hx Ht) as (_ & Hnq & k' & Hk' & ?). pose proof (Hold _ _ Hk').
    split; [congruence|]. split; [done|]. exists k'. by rewrite mget_mset_ne.
  - intros t' k' [[-> ->]|[_ H]]%Hget; [lia|]. pose proof (v_fresh0 t' k' H). lia.
  - intros t' k' [[-> ->]|[_ H]]%Hget; [congruence|eauto].
  - intros t' k' [[-> ->]|[_ H]]%Hget Hs'; [rewrite mget_mset_eq; auto|].
    destruct (v_pending0 t' k' H Hs') as (Hid' & ? & [?|Hloc]); [done|].
    rewrite mget_mset_ne by congruence. split; [done|]. split; [done|]. by right.
  - by apply NoDup_mset.
  - intros id t' [[-> ->]|[_ H]]%mget_mset_Some; [exists k; by rewrite mget_mset_eq|].
    destruct (v_tasks0 id t' H) as (k' & Hk' & ?). exists k'. rewrite mget_mset_ne; [done|]. by symmetry; eapply Hold.
  - split; [done|]. intros t' Ht'. destruct (Hq t' Ht') as (_ & k' & Hk' & ?). pose proof (Hold _ _ Hk').
    split; [congruence|]. exists k'. by rewrite mget_mset_ne.
  - intros t' [= <-]. rewrite mget_mset_eq. by eexists.
Qed.

(** A settled task leaves the table. *)
Lemma wf_delete_task id p :
  pool_wf None p →
  (∀ t k, mget id (p_tasks p) = Some t → mget t (p_objects p) = Some k → k_settled k = true) →
  pool_wf None (set_tasks (mdelete id (p_tasks p)) p).
Proof.
  intros [] Hs. split; simpl; try done.
  - intros t k Hk Hu. destruct (v_pending0 t k Hk Hu) as (Hid & ? & ?). split; [|done].
    destruct (decide (id = k_id k)) as [->|Hne]; [|by rewrite mget_mdelete_ne].
    specialize (Hs t k Hid Hk). congruence.
  - by apply NoDup_mdelete.
  - intros id' t Ht. destruct (decide (id = id')) as [->|Hne]; [by rewrite mget_mdelete_eq in Ht|].
    rewrite mget_mdelete_ne in Ht by done. eauto.
Qed.

(** A waiter joins an unsettled task. *)
Lemma wf_wait t k ws p :
  pool_wf None p → mget t (p_objects p) = Some k → k_settled k = false →
  pool_wf None (set_objects (mset t (with_waiters ws k) (p_objects p)) p).
Proof.
  intros [] Hk Hs. pose proof (λ j z, mget_mset_Some t j (with_waiters ws k) z (p_objects p)) as Hget.
  assert (∀ t' k', mget t' (p_objects p) = Some k' → ∃ k'',
    mget t' (mset t (with_waiters ws k) (p_objects p)) = Some k'' ∧ k_id k'' = k_id k' ∧
    k_settled k'' = k_settled k' ∧ k_lane k'' = k_lane k') as Hup.
  { intros t' k' Hk'. destruct (decide (t = t')) as [->|Hne]; [|exists k'; by rewrite mget_mset_ne].
    rewrite Hk in Hk'. injection Hk' as <-. eexists. by rewrite mget_mset_eq. }
  split; simpl; try done.
  - intros l x t' Hx Ht. destruct (v_busy0 l x t' Hx Ht) as (? & ? & k' & Hk' & H1 & H2).
    destruct (Hup t' k' Hk') as (k'' & Hk'' & E1 & E2 & E3). split; [done|]. split; [done|]. exists k''. by rewrite E2, E3.
  - intros t' k' [[-> ->]|[_ H]]%Hget; eauto.
  - intros t' k' [[-> ->]|[_ H]]%Hget; [simpl; congruence|eauto].
  - intros t' k' [[-> ->]|[_ H]]%Hget Hs'; [|by apply v_pending0]. apply (v_pending0 t k Hk Hs).
  - intros id t' Ht'. destruct (v_tasks0 id t' Ht') as (k' & Hk' & <-).
    destruct (Hup t' k' Hk') as (k'' & Hk'' & E1 & _). by exists k''.
  - destruct v_queue0 as [Hn Hq]. split; [done|]. intros t' Ht'. destruct (Hq t' Ht') as (? & k' & Hk' & H1).
    destruct (Hup t' k' Hk') as (k'' & Hk'' & _ & E2 & E3). split; [done|]. exists k''. by rewrite E2, E3.
Qed.
End Invariant.
