(* ===== verification/WorkerPoolRun.v ===== *)
(** Runs of the worker pool of [src/runtime/wasm/worker-pool.mjs]: that every
    operation keeps the pool's invariant, and what follows for its tasks. *)

From S2P Require Import Prelude WorkerPool WorkerPoolInvariant.

Section Run.
Context {C item : Type} `{!ChannelService C item} `{!ChannelLaws C item}
  (has_channels : bool) (pf : platform).
Implicit Types (p : pool C item) (k : task item).
Let ok p := pool_wf None p.

(** ** Operations keep the invariant *)

Lemma preserves_steady (m : js (pool C item) ()) : (∀ p, ok p → steady m p) → preserves ok m.
Proof. intros H p Hp. destruct (H p Hp) as (p' & -> & W & _). done. Qed.

Lemma preserves_calm {A} (m : js (pool C item) A) :
  (∀ p, ok p → ∃ r p', m p = (r, p') ∧ calm p p') → preserves ok m.
Proof. intros H p Hp. destruct (H p Hp) as (r & p' & -> & Hc). by eapply wf_calm. Qed.

Lemma preserves_set_started s : preserves ok (modify (set_started s)).
Proof. apply preserves_calm. intros p _. eexists _, _. split; [done|]. by split. Qed.

Lemma preserves_drainStarted : preserves ok (drainStarted (C:=C) (item:=item)).
Proof. unfold drainStarted. preserve. apply preserves_set_started. Qed.

Lemma preserves_get_task t : preserves ok (get_task (C:=C) (item:=item) t).
Proof. unfold get_task. preserve. Qed.

Lemma preserves_on_channels {A} (m : js C A) : preserves ok (on_channels (item:=item) m).
Proof.
  apply preserves_calm. intros p _. unfold on_channels, zoom. destruct (m _) as [r c].
  eexists _, _. split; [done|]. by split.
Qed.

Lemma preserves_upd_task t f : (∀ k, core (f k) = core k) → preserves ok (upd_task (C:=C) (item:=item) t f).
Proof.
  intros Hf. apply preserves_calm. intros p _. unfold upd_task, modify.
  destruct (mget t (p_objects p)) as [k|] eqn:E; eexists _, _; (split; [done|]); [|apply calm_refl].
  by apply calm_upd_task.
Qed.

Lemma preserves_log evs : preserves ok (modify (log evs)).
Proof. apply preserves_calm. intros p _. eexists _, _. split; [done|]. by split. Qed.

#[local] Hint Resolve preserves_drainStarted preserves_get_task preserves_on_channels preserves_log : jsinv.

Lemma preserves_dispatch : preserves ok (dispatch has_channels pf).
Proof. apply preserves_steady. intros p. apply dispatch_steady. Qed.

#[local] Hint Resolve preserves_dispatch : jsinv.

(** A lane that answers: it is idle before its task settles and its successor is found. *)
Lemma reply_run l x t k r p :
  ok p → mget l (p_laneObjects p) = Some x → l_task x = Some t → mget t (p_objects p) = Some k →
  ok ((upd_lane l (lane_task None) ;; settle t r ;;
       when (l_dedicated x)
         (modify (λ p, set_lanes (p_lanes p) (remove_ref l (p_dedicated p)) p) ;; modify (log [EvTerminated l])) ;;
       dispatch has_channels pf) p).2.
Proof.
  intros Hp Hx Ht Hk. erewrite bind_run by (by apply upd_lane_run).
  pose proof (wf_clear_lane l x (lane_task None) p Hp Hx eq_refl eq_refl eq_refl) as W1. rewrite Ht in W1.
  set (p1 := set_laneObjects _ p) in *.
  destruct (wf_settle t r p1 W1) as (p2 & H2 & W2 & (_ & _ & E2 & _)).
  erewrite bind_run by exact H2. unfold when. destruct (l_dedicated x); [|by apply preserves_dispatch].
  assert (mget l (p_laneObjects p2) = Some (lane_task None x)) as Hx2 by (rewrite E2; apply mget_mset_eq).
  pose proof (wf_forget_lane l _ true None p2 W2 Hx2 eq_refl) as W3. simpl in W3.
  apply (wf_log _ [EvTerminated l]) in W3. apply (preserves_dispatch _ W3).
Qed.

Lemma preserves_laneMessage l m : preserves ok (laneMessage has_channels pf l m).
Proof.
  intros p Hp. unfold laneMessage. destruct (mget l (p_laneObjects p)) as [x|] eqn:Hx.
  2: { unfold get_lane, mbind, js_bind, gets. by rewrite Hx. }
  erewrite bind_run by (by apply get_lane_run). destruct (l_failed x) eqn:Hf; [done|].
  destruct m as [|req|id|error cc|id status payload error deadline|]; try done.
  - erewrite bind_run by (by apply upd_lane_run).
    pose proof (wf_lane_flags l x (lane_ready x) p Hp Hx eq_refl eq_refl eq_refl) as W1.
    destruct (l_task x) as [t|] eqn:Ht; [|done].
    destruct (v_busy _ _ Hp l x t Hx Ht) as (_ & _ & k & Hk & _).
    destruct (postAssigned_spec pf l t (set_laneObjects (mset l (lane_ready x) (p_laneObjects p)) p))
      as (r & p' & -> & Hc); [by exists k|]. by eapply wf_calm.
  - destruct (l_task x) as [t|]; [|done]. revert p Hp Hx. clear Hf. intros p Hp _. revert p Hp.
    apply preserves_bind; [apply preserves_get_task|]. intros k. apply preserves_when.
    apply preserves_calm. intros p _. eexists _, _. split; [done|]. by split.
  - destruct (lane_failure_steady has_channels (dispatch has_channels pf) l x
      ("nupp: a worker lane could not start: " +:+ error) cc p) as (p' & E & W & _); [|done|done|].
    + intros q. apply dispatch_steady.
    + unfold laneFailure. by rewrite E.
  - destruct (to_safe id) as [rid|]; [|done]. destruct (l_task x) as [t|] eqn:Ht; [|done].
    destruct (v_busy _ _ Hp l x t Hx Ht) as (_ & _ & k & Hk & _).
    erewrite bind_run by (by apply get_task_run). destruct (negb _); [done|]. by eapply reply_run.
Qed.

Lemma preserves_laneFailure l reason cc : preserves ok (laneFailure has_channels pf l reason cc).
Proof.
  intros p Hp. unfold laneFailure. destruct (mget l (p_laneObjects p)) as [x|] eqn:Hx.
  - destruct (lane_failure_steady has_channels (dispatch has_channels pf) l x reason cc p) as (p' & -> & W & _); try done.
    intros q. apply dispatch_steady.
  - unfold lane_failure, get_lane, mbind, js_bind, gets. by rewrite Hx.
Qed.

(** Giving up a task in hand. *)
Lemma relinquish t r p :
  pool_wf (Some t) p →
  ∃ p', (revokeEndpoints has_channels t ;; settle t r) p = (Ok tt, p') ∧ ok p' ∧ same_tables p p'.
Proof.
  intros Hw. destruct (quiet_revokeEndpoints has_channels t p (v_free _ _ Hw t eq_refl)) as (p1 & H1 & C1).
  destruct (wf_settle t r p1 (wf_calm _ _ _ C1 Hw)) as (p2 & H2 & W2 & T2).
  exists p2. erewrite bind_run by exact H1. rewrite H2. split; [done|]. split; [done|].
  eapply same_tables_trans; [by apply calm_tables|done].
Qed.

Lemma bind_assoc {A B} (m : js (pool C item) A) (k1 : A → js (pool C item) B) (k2 : B → js (pool C item) ()) p :
  (m ≫= λ a, k1 a ≫= k2) p = ((m ≫= k1) ≫= k2) p.
Proof. unfold mbind, js_bind. by destruct (m p) as [[a|e] p']. Qed.

Lemma preserves_requestCancel t d : preserves ok (requestCancel has_channels pf t d).
Proof.
  intros p Hp. unfold requestCancel. destruct (mget t (p_objects p)) as [k|] eqn:Hk.
  2: { unfold get_task, mbind, js_bind, gets. by rewrite Hk. }
  erewrite bind_run by (by apply get_task_run). destruct (k_settled k) eqn:Hs; [done|].
  erewrite bind_run by (by apply upd_task_run).
  set (p1 := set_objects _ p). assert (calm p p1) as C1 by (by apply calm_upd_task).
  pose proof (wf_calm _ _ _ C1 Hp) as W1. assert (mget t (p_objects p1) = Some (with_cancel d k)) as Hk1 by apply mget_mset_eq.
  clearbody p1. destruct (v_pending _ _ W1 t _ Hk1 Hs) as (_ & _ & [?|Hloc]); [done|]. unfold located in Hloc. simpl in Hloc.
  cbv zeta. destruct (k_lane k) as [l|].
  - destruct Hloc as (Hl & x & Hx & Ht). erewrite bind_run by (by apply get_lane_run).
    destruct (l_ready x); simpl; [by apply wf_log|].
    erewrite bind_run by (by apply upd_lane_run).
    pose proof (wf_clear_lane l x (lane_task None) p1 W1 Hx eq_refl eq_refl eq_refl) as W2. rewrite Ht in W2.
    set (p2 := set_laneObjects _ p1) in *.
    assert (∃ p3, when (l_dedicated x) (modify (λ p, set_lanes (p_lanes p) (remove_ref l (p_dedicated p)) p) ;;
      modify (log [EvTerminated l])) p2 = (Ok tt, p3) ∧ pool_wf (Some t) p3) as (p3 & H3 & W3).
    { unfold when. destruct (l_dedicated x); [|by exists p2]. eexists. split; [done|]. apply wf_log.
      apply (wf_forget_lane l (lane_task None x) true (Some t) p2 W2); [apply mget_mset_eq|done]. }
    erewrite bind_run by exact H3. rewrite bind_assoc.
    destruct (relinquish t (TaskCancelled (k_deadline k || d)) p3 W3) as (p4 & H4 & W4 & _).
    erewrite bind_run by exact H4. by apply preserves_dispatch.
  - erewrite bind_run by done.
    destruct (relinquish t (TaskCancelled (k_deadline k || d)) _ (wf_unqueue t p1 W1 Hloc)) as (p2 & H2 & W2 & _).
    by rewrite H2.
Qed.

#[local] Hint Resolve preserves_requestCancel preserves_laneMessage preserves_laneFailure : jsinv.

Lemma preserves_deadline_timer t : preserves ok (deadline_timer has_channels pf t).
Proof. unfold deadline_timer. preserve. Qed.

Lemma preserves_cancel id : preserves ok (cancel has_channels pf id).
Proof. unfold cancel. preserve. Qed.

(** ** Submissions *)

(** The lane a submission opens for itself, if it is dedicated. *)
Lemma dedicated_lane_spec (dedicated : bool) endpoints p :
  ok p → dedicated && (p_maxDedicated p <=? zlen (p_dedicated p)) = false →
  let m := (if dedicated then
              try_catch (l ← openLane pf true; mret (Some l))
                (λ error, when has_channels (on_channels (cs_discard endpoints)) ;; throw error)
            else mret None) in
  (∃ error p', m p = (Throw error, p') ∧ ok p') ∨
  (∃ o p', m p = (Ok o, p') ∧ ok p' ∧ p_tasks p' = p_tasks p ∧
     ∀ l, o = Some l → l ∈ listed p' ∧ ∃ x, mget l (p_laneObjects p') = Some x ∧ l_task x = None ∧ l_ready x = false).
Proof.
  intros Hp Hroom m. unfold m. destruct dedicated; [|right; exists None, p; by repeat (split; [done|])].
  simpl in Hroom. apply Z.leb_gt in Hroom. unfold try_catch.
  destruct (openLane_spec pf true None p Hp Hroom) as
    [(error & p1 & E & C1)|(l & x & p1 & E & W1 & Hl & Hx & Ht & Hr & _ & _ & _ & _ & Htk & _)].
  - left. exists error. pose proof (wf_calm _ _ _ C1 Hp) as W1.
    assert (preserves ok (when has_channels (on_channels (cs_discard endpoints)) ;; @throw _ (option Z) error)) as Hd by preserve.
    specialize (Hd p1 W1). unfold mbind, js_bind, when in *. rewrite E. destruct has_channels; [|by eexists].
    destruct (quiet_channels (cs_discard endpoints) p1 tt (cs_discard_returns _ _)) as (p2 & H2 & _).
    rewrite H2 in *. by eexists.
  - right. exists (Some l), p1. erewrite bind_run by exact E. repeat (split; [done|]). intros l' [= <-]. split; [done|]. by exists x.
Qed.

(** Registering a task and giving it to its lane or to the queue. *)
Lemma register_run id module_ member payload endpoints arguments o (timed : bool) p :
  ok p → mget id (p_tasks p) = None →
  (∀ l, o = Some l → l ∈ listed p ∧ ∃ x, mget l (p_laneObjects p) = Some x ∧ l_task x = None ∧ l_ready x = false) →
  ok ((t ← gets p_nextTask;
       modify (λ p, set_next (t + 1) (p_nextLane p) p) ;;
       modify (λ p, set_objects
         (mset t (Task id module_ member payload false false false [] None false None endpoints [] arguments)
            (p_objects p)) p) ;;
       modify (λ p, set_tasks (mset id t (p_tasks p)) p) ;;
       match o with
       | Some l =>
           try_catch (assignLane pf l t) (λ error,
             modify (λ p, set_tasks (mdelete id (p_tasks p)) p) ;;
             upd_lane l (lane_task None) ;;
             modify (λ p, set_lanes (p_lanes p) (remove_ref l (p_dedicated p)) p) ;;
             modify (log [EvTerminated l]) ;;
             revokeEndpoints has_channels t ;;
             throw error)
       | None => modify (λ p, set_queue (p_queue p ++ [t]) p)
       end ;;
       when timed (upd_task t with_timer)) p).2.
Proof.
  intros Hp Hid Ho. set (k := Task id module_ member payload _ _ _ _ _ _ _ _ _ _).
  pose proof (wf_new_task k p Hp Hid eq_refl eq_refl) as W1. cbv zeta in W1.
  do 4 (erewrite bind_run by done). fold k. set (t := p_nextTask p) in *.
  cbn [p_objects p_tasks p_nextLane set_next set_objects]. set (p1 := set_tasks _ _) in *.
  assert (mget t (p_objects p1) = Some k) as Hk by apply mget_mset_eq.
  assert (listed p1 = listed p ∧ p_laneObjects p1 = p_laneObjects p) as [EL EO] by done.
  assert (preserves ok (when timed (upd_task t with_timer))) as Htimer.
  { apply preserves_when, preserves_upd_task. done. }
  clearbody p1. destruct o as [l|].
  - destruct (Ho l eq_refl) as (Hl & x & Hx & Ht & Hr). rewrite <- EL in Hl. rewrite <- EO in Hx.
    destruct (assignLane_spec pf l x t k p1 W1 Hl Hx Ht Hk eq_refl) as (r & p2 & H2 & Hok & W2 & _).
    erewrite bind_run by (unfold try_catch; rewrite H2, (Hok Hr); done). by apply Htimer.
  - erewrite bind_run by done. apply Htimer. by eapply wf_enqueue.
Qed.

Lemma preserves_take_endpoints entry : preserves ok (take_endpoints has_channels entry).
Proof. unfold take_endpoints. destruct (sb_endpoints entry); preserve. Qed.

(** Taking endpoints changes only the channel table. *)
Lemma take_endpoints_tasks entry p :
  let p' := (take_endpoints has_channels entry p).2 in
  p_tasks p' = p_tasks p ∧ p_dedicated p' = p_dedicated p ∧ p_maxDedicated p' = p_maxDedicated p.
Proof.
  unfold take_endpoints. destruct (sb_endpoints entry); [done|]. destruct has_channels; simpl; [|done].
  unfold mbind, js_bind, on_channels, zoom. simpl. by destruct (cs_take _ _).
Qed.

Lemma preserves_accept entry : preserves ok (accept has_channels pf entry).
Proof.
  unfold accept. intros p Hp. unfold mbind at 1, js_bind at 1, lift.
  destruct (checked_submission entry) as [[[[id module_] member] payload]|]; [|done]. cbv iota beta.
  erewrite bind_run by done. unfold mhas. destruct (mget id (p_tasks p)) eqn:Hid; [done|].
  erewrite bind_run by done. unfold mbind at 1, js_bind at 1.
  destruct (checked_mode (sb_dedicated entry)) as [dedicated|]; [|done]. erewrite bind_run by done.
  destruct (dedicated && _) eqn:Hroom; [done|]. erewrite bind_run by done.
  unfold mbind at 1, js_bind at 1. pose proof (preserves_take_endpoints entry p Hp) as W1.
  pose proof (take_endpoints_tasks entry p) as (T1 & T2 & T3).
  destruct (take_endpoints has_channels entry p) as [[endpoints|] p1]; [|done]. simpl in *.
  rewrite <- T2, <- T3 in Hroom.
  destruct (dedicated_lane_spec dedicated endpoints p1 W1 Hroom) as [(error & p2 & H2 & W2)|(o & p2 & H2 & W2 & T4 & Ho)].
  - unfold mbind at 1, js_bind at 1. by rewrite H2.
  - erewrite bind_run by exact H2. apply register_run; [done|congruence|done].
Qed.

#[local] Hint Resolve preserves_accept : jsinv.

Lemma preserves_accept_all entries : preserves ok (accept_all has_channels pf entries).
Proof. induction entries; simpl; preserve. Qed.

#[local] Hint Resolve preserves_accept_all : jsinv.

Lemma preserves_submit entries : preserves ok (submit has_channels pf entries).
Proof. unfold submit. preserve. Qed.

(** ** Awaiting and closing *)

Lemma preserves_settlement id w : preserves ok (settlement (C:=C) (item:=item) id w).
Proof.
  intros p Hp. unfold settlement. erewrite bind_run by done. destruct (mget id (p_tasks p)) as [t|] eqn:Ht; [|done].
  destruct (v_tasks _ _ Hp id t Ht) as (k & Hk & Hid). erewrite bind_run by (by apply get_task_run).
  destruct (k_settled k) eqn:Hs.
  - destruct (k_result k); [|done]. erewrite bind_run by done.
    assert (preserves ok (started ← drainStarted (C:=C) (item:=item); mret (Some (t0, started)))) as Hd by preserve.
    apply Hd. apply wf_delete_task; [done|]. intros t' k' Ht' Hk'. rewrite Hid in Ht'. congruence.
  - erewrite bind_run by (by apply upd_task_run). by apply wf_wait.
Qed.

(** A waiter resumes once its task has settled. *)
Definition resumable (id : Z) p : Prop :=
  ∀ t k, mget id (p_tasks p) = Some t → mget t (p_objects p) = Some k → k_settled k = true.

Lemma settlement_resumed_ok id p : ok p → resumable id p → ok (settlement_resumed id p).2.
Proof.
  intros Hp Hr. unfold settlement_resumed. erewrite bind_run by done.
  apply preserves_drainStarted. by apply wf_delete_task.
Qed.

(** Settling a task of a closed pool. *)
Lemma wf_settle_closed t r p :
  ok p → p_closed p = true → is_Some (mget t (p_objects p)) →
  ∃ p', settle t r p = (Ok tt, p') ∧ ok p' ∧ p_closed p' = true ∧ p_tasks p' = p_tasks p ∧
    (∀ t' k', mget t' (p_objects p') = Some k' → k_settled k' = false → mget t' (p_objects p) = Some k' ∧ t' ≠ t) ∧
    (∀ t', is_Some (mget t' (p_objects p)) → is_Some (mget t' (p_objects p'))).
Proof.
  intros Hp Hc [k Hk]. rewrite (settle_run t k) by done. eexists. split; [done|].
  destruct (k_settled k) eqn:Hs.
  { split; [done|]. split; [done|]. split; [done|]. split; [|done]. intros t' k' Hk' Hu. split; [done|].
    intros ->. congruence. }
  pose proof (λ j z, mget_mset_Some t j (with_settled r k) z (p_objects p)) as Hget.
  split; [|split; [done|]; split; [done|]; split].
  - apply wf_log. pose proof (Hp : pool_wf None p) as []. split; simpl; try done.
    + intros l x t' Hx Ht. destruct (v_busy l x t' Hx Ht) as (? & ? & k' & Hk' & H1 & H2). split; [done|]. split; [done|].
      destruct (decide (t = t')) as [->|Hne]; [|exists k'; by rewrite mget_mset_ne].
      eexists. rewrite mget_mset_eq. split; [done|]. split; [done|]. congruence.
    + intros t' k' [[-> ->]|[_ H]]%Hget; eauto.
    + intros t' k' [[-> ->]|[_ H]]%Hget; [simpl; eauto|eauto].
    + intros t' k' [[-> ->]|[_ H]]%Hget; [done|eauto].
    + intros id t' Ht'. destruct (v_tasks id t' Ht') as (k' & Hk' & <-).
      destruct (decide (t = t')) as [->|Hne]; [|exists k'; by rewrite mget_mset_ne].
      rewrite Hk in Hk'. injection Hk' as <-. eexists. by rewrite mget_mset_eq.
    + destruct v_queue as [Hn Hq]. split; [done|]. intros t' Ht'. destruct (Hq t' Ht') as (? & k' & Hk' & H1).
      split; [done|]. destruct (decide (t = t')) as [->|Hne]; [|exists k'; by rewrite mget_mset_ne].
      eexists. rewrite mget_mset_eq. split; [done|]. congruence.
  - intros t' k' [[-> ->]|[Hne H]]%Hget; [done|]. auto.
  - intros t' Ht'. by apply is_Some_mget_mset.
Qed.

(** The loop of [close]. *)
Lemma close_loop ts r p :
  ok p → p_closed p = true → (∀ t, t ∈ ts → is_Some (mget t (p_objects p))) →
  ∃ p', for_each ts (λ t, revokeEndpoints has_channels t ;; settle t r) p = (Ok tt, p') ∧ ok p' ∧
    p_closed p' = true ∧ p_tasks p' = p_tasks p ∧
    ∀ t k, mget t (p_objects p') = Some k → k_settled k = false →
      (t ∉ ts) ∧ ∃ k0, mget t (p_objects p) = Some k0 ∧ k_settled k0 = false.
Proof.
  revert p. induction ts as [|t ts IH]; intros p Hp Hc Hin; cbn [for_each].
  { exists p. repeat (split; [done|]). intros t k Hk Hu. split; [set_solver|]. by exists k. }
  destruct (quiet_revokeEndpoints has_channels t p) as (p1 & H1 & C1); [apply Hin; left|].
  pose proof (wf_calm _ _ _ C1 Hp) as W1. pose proof C1 as [_ _ _ _ T1 D1 _ _ _ _ _].
  assert (∀ t', t' ∈ t :: ts → is_Some (mget t' (p_objects p1))) as Hin1.
  { intros t' Ht'. destruct (Hin t' Ht') as [k Hk]. destruct (calm_get' p p1 t' k C1 Hk) as (k' & ? & _). by exists k'. }
  destruct (wf_settle_closed t r p1 W1) as (p2 & H2 & W2 & D2 & T2 & U2 & S2); [congruence|apply Hin1; left|].
  destruct (IH p2 W2 D2) as (p3 & H3 & W3 & D3 & T3 & U3); [intros t' Ht'; apply S2, Hin1; by right|].
  exists p3. erewrite bind_run by (erewrite bind_run by exact H1; exact H2). split; [done|]. split; [done|].
  split; [done|]. split; [congruence|]. intros t' k Hk Hu.
  destruct (U3 t' k Hk Hu) as (Hni & k2 & Hk2 & Hu2). destruct (U2 t' k2 Hk2 Hu2) as [Hk1 Hne].
  destruct (calm_get p p1 t' k2 C1 Hk1) as (k0 & Hk0 & [= _ Es _ _ _]).
  split; [rewrite elem_of_cons; naive_solver|]. exists k0. split; [done|congruence].
Qed.

(** A closed pool with every task settled lets its lanes go. *)
Lemma wf_unlist p :
  ok p → (∀ t k, mget t (p_objects p) = Some k → k_settled k = true) → ok (set_lanes [] [] p).
Proof.
  intros Hp Hall. pose proof (Hp : pool_wf None p) as [].
  split; try done; simpl.
  - constructor.
  - pose proof (zlen_nonneg (p_lanes p)). rewrite zlen_nil. lia.
  - pose proof (zlen_nonneg (p_dedicated p)). rewrite zlen_nil. lia.
  - intros l Hl. by apply elem_of_nil in Hl.
  - intros t k Hk Hu. specialize (Hall t k Hk). congruence.
Qed.

Lemma wf_set_closed p : ok p → ok (set_closed p).
Proof.
  intros Hp. pose proof (Hp : pool_wf None p) as []. split; try done; simpl.
  - intros l x t Hx Ht. destruct (v_busy l x t Hx Ht) as (? & ? & k & Hk & H1 & _). split; [done|]. split; [done|]. by exists k.
  - destruct v_queue as [Hn Hq]. split; [done|]. intros t Ht. destruct (Hq t Ht) as (? & k & Hk & _). split; [done|]. by exists k.
Qed.

(** What [close] leaves: no lanes, and every task settled. *)
Lemma close_spec p :
  ok p → p_closed p = false →
  ∃ p', close has_channels p = (Ok tt, p') ∧ ok p' ∧ p_lanes p' = [] ∧ p_dedicated p' = [] ∧
    p_tasks p' = p_tasks p ∧ p_closed p' = true ∧ ∀ t k, mget t (p_objects p') = Some k → k_settled k = true.
Proof.
  intros Hp Hc. unfold close. erewrite bind_run by done. rewrite Hc. erewrite bind_run by done. erewrite bind_run by done.
  destruct (close_loop (p_tasks (set_closed p)).*2 (TaskFailed "nupp: the browser worker pool closed") (set_closed p))
    as (p1 & H1 & W1 & D1 & T1 & U1); [by apply wf_set_closed|done| |].
  { intros t Ht. apply list_elem_of_fmap in Ht as ([id t'] & -> & Hin). pose proof (Hp : pool_wf None p) as [].
    apply elem_mget in Hin; [|done]. destruct (v_tasks id t' Hin) as (k & Hk & _). by exists k. }
  erewrite bind_run by exact H1. do 2 (erewrite bind_run by done). eexists. split; [done|].
  assert (∀ t k, mget t (p_objects p1) = Some k → k_settled k = true) as Hall.
  { intros t k Hk. destruct (k_settled k) eqn:Hu; [done|]. destruct (U1 t k Hk Hu) as [Hni _]. destruct Hni.
    pose proof (W1 : pool_wf None p1) as []. destruct (v_pending t k Hk Hu) as (Hid & _). rewrite T1 in Hid.
    apply mget_elem in Hid. apply list_elem_of_fmap. by exists (k_id k, t). }
  split; [|by repeat (split; [done|])]. apply wf_unlist; [by apply wf_log, wf_log|done].
Qed.

(** ** Runs *)

(** What can happen to a pool: the guest's effects, messages and failures of
    lanes, deadlines, answers of the page, waiters that resume, and its end. *)
Inductive pool_op :=
| OpSubmit (entries : option (list submission))
| OpAwait (id waiter : Z)
| OpResumed (id : Z)
| OpCancel (id : Z)
| OpMessage (l : Z) (message : lane_message)
| OpError (l : Z) (reason : string)
| OpStorage (l : Z) (requestId : jsval) (granted : res bool)
| OpTimer (t : Z)
| OpClose.

(** Whether the task of an id, if there is one, has settled. *)
Definition settled_id (id : Z) p : bool :=
  match mget id (p_tasks p) with
  | Some t => match mget t (p_objects p) with Some k => k_settled k | None => false end
  | None => true
  end.

Definition run_pool_op (op : pool_op) : js (pool C item) () :=
  match op with
  | OpSubmit entries => submit has_channels pf entries ;; mret tt
  | OpAwait id w => settlement id w ;; mret tt
  | OpResumed id =>
      (* a waiter resumes after its task has settled, never before *)
      ready ← gets (settled_id id);
      when ready (settlement_resumed id ;; mret tt)
  | OpCancel id => cancel has_channels pf id ;; mret tt
  | OpMessage l m => laneMessage has_channels pf l m
  | OpError l reason => laneFailure has_channels pf l reason false
  | OpStorage l req granted => storage_answered l req granted
  | OpTimer t => deadline_timer has_channels pf t
  | OpClose => close has_channels
  end.

Fixpoint run_pool (ops : list pool_op) p : pool C item :=
  match ops with
  | [] => p
  | op :: ops' => run_pool ops' (run_pool_op op p).2
  end.

#[local] Hint Resolve preserves_submit preserves_settlement preserves_cancel preserves_deadline_timer : jsinv.

Lemma preserves_close : preserves ok (close has_channels).
Proof.
  intros p Hp. destruct (p_closed p) eqn:Hc.
  - unfold close. erewrite bind_run by done. by rewrite Hc.
  - destruct (close_spec p Hp Hc) as (p' & -> & W & _). done.
Qed.

Lemma preserves_run_pool_op op : preserves ok (run_pool_op op).
Proof.
  destruct op; simpl; try (by preserve).
  - intros p Hp. erewrite bind_run by done. unfold when. destruct (settled_id id p) eqn:Hs; [|done].
    pose proof (settlement_resumed_ok id p Hp) as Hr. unfold mbind, js_bind.
    destruct (settlement_resumed id p) as [[]]; apply Hr; intros t k Ht Hk; unfold settled_id in Hs;
      by rewrite Ht, Hk in Hs.
  - apply preserves_close.
Qed.

Lemma wf_run ops p : ok p → ok (run_pool ops p).
Proof.
  revert p. induction ops as [|op ops IH]; intros p Hp; simpl; [done|]. apply IH. by apply preserves_run_pool_op.
Qed.

Lemma wf_create o c p : createWorkerPool o c = Ok p → ok p.
Proof.
  unfold createWorkerPool. destruct (negb _); [done|]. destruct (negb _); [done|].
  destruct (to_safe _) as [n|]; [|done]. destruct (Z.ltb_spec n 1); [done|]. intros [= <-].
  split; simpl; try done; try (by constructor).
  - unfold laneCount. rewrite zlen_nil. lia.
  - rewrite zlen_nil. lia.
  - intros l Hl. by apply elem_of_nil in Hl.
  - split; [constructor|]. intros t Ht. by apply elem_of_nil in Ht.
Qed.
End Run.
