(* ===== verification/PoolChannels.v ===== *)
(** The endpoint table of [src/runtime/wasm/channel-host.mjs] as the channel
    service a worker pool uses ([createWorkerPool({channels})], which
    [src/runtime/luajit/app-runtime.mjs] calls with one). *)

From S2P Require Import Prelude PortChannel ChannelHost WorkerPool.

(** [channels.take], [channels.discard] and [channels.revoke], and the token of a
    transfer item. *)
#[export] Instance host_channels : ChannelService host transfer_item := {
  cs_take handles := ChannelHost.take (Some handles);
  cs_discard := discard;
  cs_revoke := revoke;
  cs_token := ti_token
}.

(** A computation that returns from every state. *)
Definition returns {S A} (m : js S A) : Prop := ∀ s, ∃ a s', m s = (Ok a, s').

Lemma returns_bind {S A B} (m : js S A) (k : A → js S B) :
  returns m → (∀ a, returns (k a)) → returns (m ≫= k).
Proof. intros Hm Hk s. destruct (Hm s) as (a & s' & E). erewrite bind_run by exact E. apply Hk. Qed.

Lemma returns_try_catch {S A} (m : js S A) h : (∀ e, returns (h e)) → returns (try_catch m h).
Proof. intros Hh s. unfold try_catch. destruct (m s) as [[a|e] s']; [eauto|apply Hh]. Qed.

Lemma returns_for_each {S A} (xs : list A) (f : A → js S ()) : (∀ x, returns (f x)) → returns (for_each xs f).
Proof. intros Hf. induction xs as [|x xs IH]; simpl; [intros s; eauto|]. by apply returns_bind. Qed.

Lemma returns_unit {S} (m : js S ()) s : returns m → (m s).1 = Ok tt.
Proof. intros H. by destruct (H s) as ([] & s' & ->). Qed.

Lemma returns_ret {S A} (a : A) : returns (S:=S) (mret a).
Proof. intros s. by eexists _, _. Qed.
Lemma returns_gets {S A} (f : S → A) : returns (gets f).
Proof. intros s. by eexists _, _. Qed.
Lemma returns_modify {S} (f : S → S) : returns (modify f).
Proof. intros s. by eexists _, _. Qed.

Create HintDb jsret.
#[export] Hint Resolve returns_ret returns_gets returns_modify : jsret.

(** Walks the monadic structure of a program that never throws. *)
Ltac returning :=
  repeat first
    [ progress intros
    | solve [eauto with jsret nocore]
    | apply returns_bind
    | apply returns_try_catch
    | apply returns_for_each
    | match goal with
      | |- returns (match ?x with _ => _ end) => destruct x
      end ].

Lemma returns_finishSupervisor token : returns (finishSupervisor token).
Proof. unfold finishSupervisor. returning. Qed.
#[export] Hint Resolve returns_finishSupervisor : jsret.

Lemma returns_revoke token : returns (revoke token).
Proof. unfold revoke. returning. Qed.
#[export] Hint Resolve returns_revoke : jsret.

Lemma returns_control_closed item : returns (control_closed item).
Proof. unfold control_closed. returning. Qed.
#[export] Hint Resolve returns_control_closed : jsret.

Lemma returns_discard items : returns (discard items).
Proof. unfold discard. returning. Qed.

(** The table keeps what the pool relies on. *)
#[export] Instance host_channel_laws : ChannelLaws host transfer_item.
Proof.
  split; intros; apply returns_unit; [apply returns_discard|apply returns_revoke].
Qed.
