(* ===== verification/WorkerPoolResults.v ===== *)
(** What a run of the worker pool promises its guest: accounting of tasks, final
    results, work conservation and an orderly close. *)

From S2P Require Import Prelude PortChannel ChannelHost WorkerPool WorkerPoolInvariant WorkerPoolRun PoolChannels.

Section Evolution.
Context {C item : Type} `{!ChannelService C item}.
Implicit Types (p q : pool C item) (k : task item).

(** ** How a pool can change *)

(** Limits stay, task objects stay under their ids, and what has settled stays
    settled with its result. *)
Record evolves p q : Prop := {
  ev_capacity : p_capacity q = p_capacity p;
  ev_maxDedicated : p_maxDedicated q = p_maxDedicated p;
  ev_next : p_nextTask p <= p_nextTask q;
  ev_closed : p_closed p = true → p_closed q = true;
  ev_tasks : ∀ t k, t < p_nextTask p → mget t (p_objects p) = Some k → ∃ k', mget t (p_objects q) = Some k' ∧
    k_id k' = k_id k ∧ (k_settled k = true → k_settled k' = true ∧ k_result k' = k_result k)
}.

Lemma evolves_refl p : evolves p p.
Proof. split; try done. intros t k _ Hk. by exists k. Qed.

Lemma evolves_trans p1 p2 p3 : evolves p1 p2 → evolves p2 p3 → evolves p1 p3.
Proof.
  intros [] []. split; try congruence; try lia; [auto|]. intros t k Ht Hk.
  destruct (ev_tasks0 t k Ht Hk) as (k2 & Hk2 & E2 & S2). destruct (ev_tasks1 t k2 ltac:(lia) Hk2) as (k3 & Hk3 & E3 & S3).
  exists k3. split; [done|]. split; [congruence|]. intros Hs. destruct (S2 Hs) as [Hs2 R2].
  destruct (S3 Hs2). split; [done|congruence].
Qed.

(** Every run of [m] is such a change. *)
Definition evolving {A} (m : js (pool C item) A) : Prop := ∀ p0, preserves (evolves p0) m.

Lemma evolving_step {A} (m : js (pool C item) A) : (∀ p, evolves p (m p).2) → evolving m.
Proof. intros H p0 p Hp. by eapply evolves_trans. Qed.

Lemma evolving_modify f :
  (∀ p, p_capacity (f p) = p_capacity p ∧ p_maxDedicated (f p) = p_maxDedicated p ∧
        p_nextTask p <= p_nextTask (f p) ∧ (p_closed p = true → p_closed (f p) = true) ∧ p_objects (f p) = p_objects p) →
  evolving (modify f).
Proof.
  intros H. apply evolving_step. intros p. destruct (H p) as (? & ? & ? & ? & E). split; try done.
  intros t k _ Hk. exists k. simpl. by rewrite E.
Qed.

Lemma evolving_upd_task t f :
  (∀ k, k_id (f k) = k_id k ∧ k_settled (f k) = k_settled k ∧ k_result (f k) = k_result k) →
  evolving (upd_task t f).
Proof.
  intros Hf. apply evolving_step. intros p. unfold upd_task, modify. simpl.
  destruct (mget t (p_objects p)) as [k|] eqn:Hk; [|apply evolves_refl]. split; try done.
  intros t' k' _ Hk'. simpl. destruct (decide (t = t')) as [->|Hne]; [|exists k'; by rewrite mget_mset_ne].
  destruct (Hf k) as (E1 & E2 & E3). rewrite Hk in Hk'. injection Hk' as <-. exists (f k). rewrite mget_mset_eq, E1, E2, E3. done.
Qed.

Lemma evolving_upd_lane l f : evolving (upd_lane l f).
Proof. apply evolving_modify. intros p. by destruct (mget l (p_laneObjects p)). Qed.

Lemma evolving_on_channels {A} (m : js C A) : evolving (on_channels (item:=item) m).
Proof.
  apply evolving_step. intros p. unfold on_channels, zoom. destruct (m _) as [r c].
  split; try done. intros t k _ Hk. by exists k.
Qed.

Lemma evolving_settle t r : evolving (settle (C:=C) (item:=item) t r).
Proof.
  apply evolving_step. intros p. destruct (mget t (p_objects p)) as [k|] eqn:Hk.
  - rewrite (settle_run t k) by done. simpl. destruct (k_settled k) eqn:Hs; [apply evolves_refl|].
    split; try done. intros t' k' _ Hk'. simpl. destruct (decide (t = t')) as [->|Hne]; [|exists k'; by rewrite mget_mset_ne].
    rewrite Hk in Hk'. injection Hk' as <-. eexists. rewrite mget_mset_eq. split; [done|]. split; [done|]. congruence.
  - unfold settle, get_task, mbind, js_bind, gets. rewrite Hk. apply evolves_refl.
Qed.
End Evolution.

(** One step of the walk below: an update of fields that a pool may change. *)
Ltac evolve_modify :=
  match goal with
  | |- preserves (evolves ?p0) (modify _) =>
      apply (evolving_modify _); intros q; simpl;
      repeat match goal with |- context [if ?b then _ else _] => destruct b; simpl end;
      repeat split; done || lia
  end.

(** Proves that a program is [evolving] by its structure. *)
Ltac evolve := intros ?p0; preserve; try evolve_modify.

Section Results.
Context {C item : Type} `{!ChannelService C item} (has_channels : bool) (pf : platform).
Implicit Types (p : pool C item) (k : task item).

#[local] Hint Extern 2 (preserves (evolves _) _) => apply evolving_settle : jsinv.
#[local] Hint Extern 2 (preserves (evolves _) _) => apply evolving_upd_lane : jsinv.
#[local] Hint Extern 2 (preserves (evolves _) _) => apply evolving_on_channels : jsinv.
#[local] Hint Extern 2 (preserves (evolves _) (upd_task _ _)) => apply evolving_upd_task; done : jsinv.

Lemma evolving_get_task t : evolving (get_task (C:=C) (item:=item) t).
Proof. unfold get_task. evolve. Qed.
Lemma evolving_get_lane l : evolving (get_lane (C:=C) (item:=item) l).
Proof. unfold get_lane. evolve. Qed.
#[local] Hint Extern 2 (preserves (evolves _) _) => apply evolving_get_task : jsinv.
#[local] Hint Extern 2 (preserves (evolves _) _) => apply evolving_get_lane : jsinv.

Lemma evolving_drainStarted : evolving (drainStarted (C:=C) (item:=item)).
Proof. unfold drainStarted. evolve. Qed.

Lemma evolving_revokeEndpoints t : evolving (revokeEndpoints (C:=C) (item:=item) has_channels t).
Proof. unfold revokeEndpoints. evolve. Qed.
#[local] Hint Extern 2 (preserves (evolves _) _) => apply evolving_drainStarted : jsinv.
#[local] Hint Extern 2 (preserves (evolves _) _) => apply evolving_revokeEndpoints : jsinv.

Lemma evolving_lane_failure disp l reason cc :
  evolving disp → evolving (lane_failure (C:=C) (item:=item) has_channels disp l reason cc).
Proof. intros Hd p0. specialize (Hd p0). unfold lane_failure. preserve; evolve_modify. Qed.

Lemma evolving_openLane dedicated : evolving (openLane (C:=C) (item:=item) pf dedicated).
Proof. unfold openLane. evolve. Qed.
#[local] Hint Extern 2 (preserves (evolves _) _) => apply evolving_openLane : jsinv.

Lemma evolving_postAssigned l t : evolving (postAssigned (C:=C) (item:=item) pf l t).
Proof. unfold postAssigned. evolve. Qed.
#[local] Hint Extern 2 (preserves (evolves _) _) => apply evolving_postAssigned : jsinv.

Lemma evolving_assignLane l t : evolving (assignLane (C:=C) (item:=item) pf l t).
Proof. unfold assignLane. evolve. Qed.
#[local] Hint Extern 2 (preserves (evolves _) _) => apply evolving_assignLane : jsinv.

Lemma evolving_next_lane : evolving (next_lane (C:=C) (item:=item) pf).
Proof. unfold next_lane. evolve. Qed.
Lemma evolving_shift_queue : evolving (shift_queue (C:=C) (item:=item)).
Proof. unfold shift_queue. evolve. Qed.
#[local] Hint Extern 2 (preserves (evolves _) _) => apply evolving_next_lane : jsinv.
#[local] Hint Extern 2 (preserves (evolves _) _) => apply evolving_shift_queue : jsinv.
#[local] Hint Extern 2 (preserves (evolves _) _) => apply evolving_lane_failure : jsinv.

Lemma evolving_dispatch_rounds n : evolving (dispatch_rounds (C:=C) (item:=item) has_channels pf n).
Proof.
  induction n as [|n IH]; simpl; intros p0; [preserve|]. pose proof (IH p0).
  preserve.
Qed.

Lemma evolving_dispatch : evolving (dispatch (C:=C) (item:=item) has_channels pf).
Proof. unfold dispatch. intros p0. preserve. apply evolving_dispatch_rounds. Qed.
#[local] Hint Extern 2 (preserves (evolves _) _) => apply evolving_dispatch : jsinv.

Lemma evolving_laneFailure l reason cc : evolving (laneFailure (C:=C) (item:=item) has_channels pf l reason cc).
Proof. apply evolving_lane_failure, evolving_dispatch. Qed.
#[local] Hint Extern 2 (preserves (evolves _) _) => apply evolving_laneFailure : jsinv.

Lemma evolving_laneMessage l m : evolving (laneMessage (C:=C) (item:=item) has_channels pf l m).
Proof. unfold laneMessage. evolve. Qed.

Lemma evolving_requestCancel t d : evolving (requestCancel (C:=C) (item:=item) has_channels pf t d).
Proof. unfold requestCancel. evolve. Qed.
#[local] Hint Extern 2 (preserves (evolves _) _) => apply evolving_requestCancel : jsinv.
#[local] Hint Extern 2 (preserves (evolves _) _) => apply evolving_laneMessage : jsinv.

(** A new task object is written under a reference nothing names yet. *)
Lemma evolving_new_task {A} p0 k (f : Z → js (pool C item) A) :
  (∀ t, preserves (evolves p0) (f t)) →
  preserves (evolves p0) (t ← gets p_nextTask;
    modify (λ p, set_next (t + 1) (p_nextLane p) p) ;;
    modify (λ p, set_objects (mset t k (p_objects p)) p) ;;
    f t).
Proof.
  intros Hf p Hp. do 3 (erewrite bind_run by done). apply Hf. eapply evolves_trans; [exact Hp|].
  split; simpl; try done; [lia|]. intros t' k' Ht Hk'. exists k'. by rewrite mget_mset_ne by lia.
Qed.

Lemma evolving_accept entry : evolving (accept (C:=C) (item:=item) has_channels pf entry).
Proof.
  intros p0. unfold accept. apply preserves_bind; [preserve|]. intros [[[id module_] member] payload].
  do 7 (apply preserves_bind; [unfold take_endpoints; preserve|intros ?]).
  apply evolving_new_task. intros t. preserve; evolve_modify.
Qed.

#[local] Hint Extern 2 (preserves (evolves _) _) => apply evolving_accept : jsinv.

Lemma evolving_accept_all entries : evolving (accept_all (C:=C) (item:=item) has_channels pf entries).
Proof. intros p0. induction entries; simpl; preserve. Qed.
#[local] Hint Extern 2 (preserves (evolves _) _) => apply evolving_accept_all : jsinv.

Lemma evolving_run_op op : evolving (run_pool_op (C:=C) (item:=item) has_channels pf op).
Proof.
  destruct op; simpl; unfold submit, settlement, settlement_resumed, cancel, storage_answered, deadline_timer, close; evolve.
Qed.

Lemma evolves_run ops p : evolves p (run_pool has_channels pf ops p).
Proof.
  revert p. induction ops as [|op ops IH]; intros p; simpl; [apply evolves_refl|].
  eapply evolves_trans; [|apply IH]. apply evolving_run_op, evolves_refl.
Qed.
End Results.

(** ** Submissions are registered or rejected *)

(** The pool is open, if [open], and a task is in the table under [id], if one is named. *)
Definition registered {C item} (open : bool) (id : option Z) (p : pool C item) : Prop :=
  (open = true → p_closed p = false) ∧ ∀ i, id = Some i → is_Some (mget i (p_tasks p)).

Lemma registering_modify {C item} open id (f : pool C item → pool C item) :
  (∀ p, p_tasks (f p) = p_tasks p ∧ p_closed (f p) = p_closed p) → preserves (registered open id) (modify f).
Proof. intros H p. unfold registered. simpl. destruct (H p) as [-> ->]. done. Qed.

(** One step of the walk below: an update of fields other than the table. *)
Ltac register_modify :=
  match goal with
  | |- preserves (registered _ _) (modify _) =>
      apply registering_modify; intros q; simpl;
      repeat match goal with |- context [match ?b with _ => _ end] => destruct b; simpl end; done
  end.

Section Registered.
Context {C item : Type} `{!ChannelService C item} (has_channels : bool) (pf : platform) (open : bool) (id : option Z).
Implicit Types (p : pool C item).

Lemma registering_upd_task t f : preserves (registered open id) (upd_task (C:=C) (item:=item) t f).
Proof. unfold upd_task. register_modify. Qed.
Lemma registering_upd_lane l f : preserves (registered open id) (upd_lane (C:=C) (item:=item) l f).
Proof. unfold upd_lane. register_modify. Qed.
Lemma registering_get_task t : preserves (registered open id) (get_task (C:=C) (item:=item) t).
Proof. unfold get_task. preserve. Qed.
Lemma registering_get_lane l : preserves (registered open id) (get_lane (C:=C) (item:=item) l).
Proof. unfold get_lane. preserve. Qed.
Lemma registering_on_channels {A} (m : js C A) : preserves (registered open id) (on_channels (item:=item) m).
Proof. intros p. unfold on_channels, zoom. by destruct (m _). Qed.
#[local] Hint Resolve registering_upd_task registering_upd_lane registering_get_task registering_get_lane
  registering_on_channels : jsinv.

Lemma registering_settle t r : preserves (registered open id) (settle (C:=C) (item:=item) t r).
Proof. unfold settle. preserve; register_modify. Qed.
Lemma registering_revokeEndpoints t : preserves (registered open id) (revokeEndpoints (C:=C) (item:=item) has_channels t).
Proof. unfold revokeEndpoints. preserve. Qed.
#[local] Hint Resolve registering_settle registering_revokeEndpoints : jsinv.

Lemma registering_lane_failure disp l reason cc :
  preserves (registered open id) disp → preserves (registered open id) (lane_failure (C:=C) (item:=item) has_channels disp l reason cc).
Proof. intros Hd. unfold lane_failure. preserve; register_modify. Qed.
Lemma registering_openLane d : preserves (registered open id) (openLane (C:=C) (item:=item) pf d).
Proof. unfold openLane. preserve; register_modify. Qed.
Lemma registering_assignLane l t : preserves (registered open id) (assignLane (C:=C) (item:=item) pf l t).
Proof. unfold assignLane, postAssigned. preserve; register_modify. Qed.
#[local] Hint Resolve registering_lane_failure registering_openLane registering_assignLane : jsinv.

Lemma registering_dispatch : preserves (registered open id) (dispatch (C:=C) (item:=item) has_channels pf).
Proof.
  unfold dispatch. apply preserves_bind; [preserve|]. intros n. induction n as [|n IH]; simpl; [preserve|].
  unfold next_lane, shift_queue. preserve; register_modify.
Qed.

(** Another submission's rejection takes only its own id back. *)
Lemma registering_accept entry : preserves (registered open id) (accept (C:=C) (item:=item) has_channels pf entry).
Proof.
  unfold accept. apply preserves_bind; [preserve|]. intros [[[id' module_] member] payload] p Hp.
  erewrite bind_run by done. unfold mhas. destruct (mget id' (p_tasks p)) eqn:E; [done|].
  assert (id ≠ Some id') as Hne by (intros ->; destruct Hp as [_ Hp]; destruct (Hp id' eq_refl); congruence).
  revert p Hp E. intros p Hp _. revert p Hp.
  match goal with |- ∀ p, registered open id p → registered open id (?m p).2 => change (preserves (registered open id) m) end.
  unfold take_endpoints. preserve; try register_modify; intros p [Hp Hid]; (split; [done|]); intros i Hi; simpl.
  - by apply is_Some_mget_mset, Hid.
  - rewrite mget_mdelete_ne by congruence. by apply Hid.
Qed.
#[local] Hint Resolve registering_accept registering_dispatch : jsinv.

Lemma registering_accept_all entries : preserves (registered open id) (accept_all (C:=C) (item:=item) has_channels pf entries).
Proof. induction entries; simpl; preserve. Qed.
End Registered.

Section Submitted.
Context {C item : Type} `{!ChannelService C item} (has_channels : bool) (pf : platform).
Implicit Types (p : pool C item).

Lemma accept_registers entry p u p' :
  accept has_channels pf entry p = (Ok u, p') →
  ∃ id, to_safe (sb_task entry) = Some id ∧ 1 <= id ∧ registered false (Some id) p'.
Proof.
  unfold accept. intros H. apply bind_Ok in H as ([[[id module_] member] payload] & p1 & H1 & H).
  exists id. assert (to_safe (sb_task entry) = Some id ∧ 1 <= id) as [Hid Hpos].
  { unfold lift, checked_submission in H1. destruct (to_safe _) as [n|]; [|done].
    destruct (sb_module entry), (sb_member entry), (sb_payload entry); try done.
    destruct (Z.ltb_spec n 1); [done|]. injection H1 as -> _ _ _ _. done. }
  split; [done|]. split; [done|]. clear H1.
  do 10 (apply bind_Ok in H as (? & ? & _ & H)). apply bind_Ok in H as (? & p2 & [= <- <-] & H).
  match type of H with _ ?q = _ => assert (registered false (Some id) q) as Hr
    by (split; [done|]; intros i [= <-]; simpl; rewrite mget_mset_eq; by eexists); revert H Hr; generalize q end.
  intros p2 H Hr. apply bind_Ok in H as (u' & p3 & H3 & H4).
  assert (registered false (Some id) p3) as Hr3.
  { destruct x11 as [l|]; [|by injection H3 as <- <-]. unfold try_catch in H3.
    pose proof (registering_assignLane pf false (Some id) l x13 p2 Hr) as Ha.
    destruct (assignLane pf l x13 p2) as [[[]|e] q]; [by injection H3 as <- <-|].
    do 5 (apply bind_Ok in H3 as (? & ? & _ & H3)). done. }
  assert (preserves (registered false (Some id)) (when (match sb_deadline entry with VNum n => is_finite_num n | _ => false end)
    (upd_task (C:=C) (item:=item) x13 with_timer))) as Hw by (apply preserves_when, registering_upd_task).
  specialize (Hw p3 Hr3). by rewrite H4 in Hw.
Qed.

Lemma accept_all_spec entries p :
  ∃ rejected p', accept_all has_channels pf entries p = (Ok rejected, p') ∧
    ∀ entry, entry ∈ entries → (∃ error, (sb_task entry, error) ∈ rejected) ∨
      ∃ id, to_safe (sb_task entry) = Some id ∧ 1 <= id ∧ registered false (Some id) p'.
Proof.
  revert p. induction entries as [|entry entries IH]; intros p; cbn [accept_all].
  { exists [], p. split; [done|]. intros entry H. by apply elem_of_nil in H. }
  destruct (accept has_channels pf entry p) as [[[]|e] p1] eqn:E;
    destruct (IH p1) as (rejected & p2 & H2 & Hin);
    eexists _, p2; (erewrite bind_run by (unfold try_catch, mbind, js_bind; by rewrite E));
    (erewrite bind_run by exact H2); (split; [done|]); intros x [->|Hx]%elem_of_cons; simpl.
  - right. destruct (accept_registers entry p () p1 E) as (id & ? & ? & Hr). exists id. split; [done|]. split; [done|].
    pose proof (registering_accept_all has_channels pf false (Some id) entries p1 Hr) as Hr2. by rewrite H2 in Hr2.
  - by apply Hin.
  - left. exists e. left.
  - destruct (Hin x Hx) as [(error & ?)|?]; [left; exists error; by right|by right].
Qed.
End Submitted.

(** ** Properties *)

Section Properties.
Context {C item : Type} `{!ChannelService C item} `{!ChannelLaws C item} (has_channels : bool) (pf : platform).
Implicit Types (p : pool C item) (k : task item).


(** C19 A task that has settled keeps its result: whatever happens to the pool
    afterwards (late replies, failures, cancellations, deadlines, close), the task object
    still holds the same result under the same id. *)
Theorem settled_result_final o c p0 ops later t k :
  createWorkerPool o c = Ok p0 →
  let p := run_pool has_channels pf ops p0 in
  mget t (p_objects p) = Some k → k_settled k = true →
  ∃ k', mget t (p_objects (run_pool has_channels pf later p)) = Some k' ∧
    k_id k' = k_id k ∧ k_settled k' = true ∧ k_result k' = k_result k ∧ is_Some (k_result k').
Proof.
  intros Hc p Hk Hs. pose proof (wf_run has_channels pf ops p0 (wf_create o c p0 Hc)) as Hw. fold p in Hw.
  destruct (ev_tasks _ _ (evolves_run has_channels pf later p) t k (v_fresh _ _ Hw t k Hk) Hk) as (k' & Hk' & E & S).
  destruct (S Hs) as [Hs' Er]. exists k'. repeat (split; [done|]). rewrite Er. by destruct (v_settled _ _ Hw t k Hk Hs).
Qed.

(** A submission to an open pool returns, whatever the lanes do while they start:
    every entry is reported rejected or is registered under its own positive id, and the
    pool has left no work waiting that it could start: the queue is empty, or all its lanes
    are busy and there are as many as its capacity. *)
Theorem submit_work_conserving o c p0 ops entries :
  createWorkerPool o c = Ok p0 →
  let p := run_pool has_channels pf ops p0 in
  p_closed p = false →
  ∃ rejected started p', submit has_channels pf (Some entries) p = (Ok (p_capacity p, rejected, started), p') ∧
    (∀ entry, entry ∈ entries → (∃ error, (sb_task entry, error) ∈ rejected) ∨
       ∃ id, to_safe (sb_task entry) = Some id ∧ 1 <= id ∧ is_Some (mget id (p_tasks p'))) ∧
    (p_queue p' = [] ∨ (idle_lane p' = None ∧ zlen (p_lanes p') = p_capacity p')).
Proof.
  intros Hc p Ho. pose proof (wf_run has_channels pf ops p0 (wf_create o c p0 Hc)) as Hw. fold p in Hw.
  unfold submit. erewrite bind_run by done. rewrite Ho.
  destruct (accept_all_spec has_channels pf entries p) as (rejected & p1 & H1 & Hin). erewrite bind_run by exact H1.
  pose proof (preserves_accept_all has_channels pf entries p Hw) as W1.
  pose proof (evolving_accept_all has_channels pf entries p p (evolves_refl p)) as E1. rewrite H1 in W1, E1. simpl in W1, E1.
  destruct (dispatch_spec has_channels pf p1 W1) as (p2 & H2 & W2 & _ & D2 & S2). erewrite bind_run by exact H2.
  pose proof (evolving_dispatch has_channels pf p p1 E1) as E2. rewrite H2 in E2. simpl in E2.
  erewrite bind_run by done. erewrite bind_run by done. eexists rejected, _, _. split.
  { simpl. by rewrite (ev_capacity _ _ E2). }
  split.
  - intros entry Hen. destruct (Hin entry Hen) as [?|(id & ? & ? & Hr)]; [by left|right]. exists id. split; [done|]. split; [done|].
    pose proof (registering_dispatch has_channels pf false (Some id) p1 Hr) as [_ Hr2].
    rewrite H2 in Hr2. by apply Hr2.
  - destruct S2 as [?|[Hcl|[Hi Hcap]]]; [by left| |].
    + pose proof (registering_accept_all has_channels pf true None entries p) as [Ho1 _]; [by split|].
      rewrite H1 in Ho1. specialize (Ho1 eq_refl). simpl in Ho1. congruence.
    + right. pose proof (v_capacity _ _ W2). split; [done|]. simpl. lia.
Qed.

(** Closing an open pool returns and leaves nothing behind: every task object is
    settled with a result and has no waiter, and no lane is listed. *)
Theorem close_settles_everything o c p0 ops :
  createWorkerPool o c = Ok p0 →
  let p := run_pool has_channels pf ops p0 in
  p_closed p = false →
  ∃ p', close has_channels p = (Ok tt, p') ∧ p_closed p' = true ∧ p_lanes p' = [] ∧ p_dedicated p' = [] ∧
    ∀ t k, mget t (p_objects p) = Some k → ∃ k', mget t (p_objects p') = Some k' ∧
      k_settled k' = true ∧ is_Some (k_result k') ∧ k_waiters k' = [] ∧
      (k_settled k = true → k_result k' = k_result k).
Proof.
  intros Hc p Ho. pose proof (wf_run has_channels pf ops p0 (wf_create o c p0 Hc)) as Hw. fold p in Hw.
  destruct (close_spec has_channels p Hw Ho) as (p' & H & W & L & D & _ & Hcl & Hall).
  pose proof (evolving_run_op has_channels pf OpClose p p (evolves_refl p)) as E. simpl in E. rewrite H in E. simpl in E.
  exists p'. repeat (split; [done|]). intros t k Hk.
  destruct (ev_tasks _ _ E t k (v_fresh _ _ Hw t k Hk) Hk) as (k' & Hk' & _ & S). exists k'. split; [done|].
  pose proof (Hall t k' Hk') as Hs. destruct (v_settled _ _ W t k' Hk' Hs) as (? & ? & _).
  repeat (split; [done|]). intros Hks. by destruct (S Hks).
Qed.
End Properties.

(** ** Witnesses *)

(** A pool of two lanes and one dedicated lane over an endpoint table. *)
Definition demo_options : pool_options :=
  PoolOptions (VStr "0123456789abcdef0123456789abcdef0123456789abcdef0123456789abcdef") true
    (VNum (NInt 2)) (VNum (NInt 16)) (Some (VNum (NInt 1))).
Definition demo_platform : platform := Platform (λ _, None) (λ _ _, None).
Definition demo_pool : pool host transfer_item :=
  match createWorkerPool demo_options createChannelHost with Ok p => p | Throw _ => Pool [] [] [] [] [] [] [] true 0 0 0 0 createChannelHost [] end.
Definition demo_task (id : Z) (dedicated : bool) : submission :=
  Submission (VNum (NInt id)) (VStr "m") (VStr "f") (VStr "p") (VBool dedicated) [] VUndef.

(** Three shared tasks on two lanes and a dedicated one: the third shared one waits
    until the first replies; a reply that repeats a settled id is ignored. *)
Definition demo_ops : list pool_op :=
  [ OpSubmit (Some [demo_task 1 false; demo_task 2 false; demo_task 3 false; demo_task 4 true]);
    OpMessage 2 MReady; OpMessage 1 MReady; OpAwait 2 7;
    OpMessage 2 (MReply (VNum (NInt 1)) (VStr "done") (VStr "r1") VUndef VUndef) ].

Definition demo_later : list pool_op :=
  [ OpMessage 2 (MReply (VNum (NInt 1)) (VStr "done") (VStr "again") VUndef VUndef);
    OpCancel 1; OpCancel 3; OpError 3 "gone"; OpAwait 1 8; OpClose ].


Lemma settled_result_final_witness :
  ∃ k', mget 1 (p_objects (run_pool true demo_platform demo_later (run_pool true demo_platform demo_ops demo_pool))) = Some k' ∧
    k_result k' = Some (TaskDone "r1").
Proof.
  destruct (mget 1 (p_objects (run_pool true demo_platform demo_ops demo_pool))) as [k|] eqn:E; [|by vm_compute in E].
  destruct (settled_result_final true demo_platform demo_options createChannelHost demo_pool demo_ops demo_later 1 k)
    as (k' & Hk' & _ & _ & Hr & _); [by vm_compute|done| |].
  - vm_compute in E. injection E as <-. done.
  - exists k'. split; [done|]. rewrite Hr. vm_compute in E. injection E as <-. done.
Defined.

Lemma submit_work_conserving_witness :
  ∃ rejected started p', submit true demo_platform (Some [demo_task 5 true; demo_task 6 false])
    (run_pool true demo_platform demo_ops demo_pool) = (Ok (2, rejected, started), p').
Proof.
  destruct (submit_work_conserving true demo_platform demo_options createChannelHost demo_pool demo_ops
    [demo_task 5 true; demo_task 6 false]) as (rejected & started & p' & H & _); [by vm_compute|by vm_compute|].
  exists rejected, started, p'. exact H.
Defined.

Lemma close_settles_everything_witness :
  ∃ p', close true (run_pool true demo_platform demo_ops demo_pool) = (Ok tt, p') ∧ p_lanes p' = [].
Proof.
  destruct (close_settles_everything true demo_platform demo_options createChannelHost demo_pool demo_ops)
    as (p' & H & _ & L & _); [by vm_compute|by vm_compute|]. exists p'. split; [exact H|exact L].
Defined.
