(* ===== verification/EffectCodec.v ===== *)
(** The small parts of [src/runtime/wasm/app-runtime.mjs]: base64 and hexadecimal
    text, limits, random bytes, clocks and sleeping. *)

From S2P Require Import Prelude Base64 Wire WorkerPool.

(** ** Base64 *)

(** The loop of [bytesToBase64]: the binary string, 0x8000 characters at a time. *)
Fixpoint binary_chunks (fuel : nat) (offset : Z) (bytes : list byte) : list byte :=
  match fuel with
  | O => []
  | S fuel' =>
      if offset <? zlen bytes
      then slice offset 0x8000 bytes ++ binary_chunks fuel' (offset + 0x8000) bytes
      else []
  end.

Definition bytesToBase64 (bytes : list byte) : list byte := btoa (binary_chunks (length bytes) 0 bytes).

Definition is_digit_char (c : byte) : bool := bool_decide (is_Some (char_digit c)).

(** The regular expression of [base64ToBytes]. *)
Fixpoint base64_shape (text : list byte) : bool :=
  match text with
  | [] => true
  | [a; b; c; d] =>
      is_digit_char a && is_digit_char b &&
      ((is_digit_char c && is_digit_char d) || (is_pad c && is_pad d) || (is_digit_char c && is_pad d))
  | a :: b :: c :: d :: rest =>
      is_digit_char a && is_digit_char b && is_digit_char c && is_digit_char d && base64_shape rest
  | _ => false
  end.

Definition base64ToBytes (text : jsval) (label : string) : res (list byte) :=
  match text with
  | VStr s =>
      let text := text_bytes s in
      if negb (zlen text mod 4 =? 0) || negb (base64_shape text)
      then Throw (label +:+ " must be canonical base64")
      else atob text
  | _ => Throw (label +:+ " must be canonical base64")
  end.

(** ** Hexadecimal *)

(** [byte.toString(16)], of one or two digits, and [padStart(2, "0")]. *)
Definition hex_digit (z : Z) : byte := default x00 (text_bytes "0123456789abcdef" !! Z.to_nat z).

Definition to_string_16 (b : byte) : list byte :=
  let z := Z_of_byte b in
  if z <? 16 then [hex_digit z] else [hex_digit (z / 16); hex_digit (z mod 16)].

Definition padStart2 (text : list byte) : list byte := replicate (2 - length text) x30 ++ text.

Definition hex (bytes : list byte) : list byte := concat ((λ b, padStart2 (to_string_16 b)) <$> bytes).

(** ** Limits *)

Record effect_limits := Limits { lm_maxEffects : Z; lm_maxEffectBytes : Z; lm_maxResponseBytes : Z }.

Definition DEFAULT_LIMITS : effect_limits := Limits 256 (4 * 1024 * 1024) (8 * 1024 * 1024).

Definition checked_limit (name : string) (override : jsval) (value : Z) : res Z :=
  match override with
  | VUndef => Ok value
  | _ =>
      match to_integer override with
      | Some n =>
          if n <? 1 then Throw ("browser application limit " +:+ name +:+ " must be a positive integer") else Ok n
      | None => Throw ("browser application limit " +:+ name +:+ " must be a positive integer")
      end
  end.

Definition checkedLimits (maxEffects maxEffectBytes maxResponseBytes : jsval) : res effect_limits :=
  effects ← checked_limit "maxEffects" maxEffects (lm_maxEffects DEFAULT_LIMITS);
  effectBytes ← checked_limit "maxEffectBytes" maxEffectBytes (lm_maxEffectBytes DEFAULT_LIMITS);
  responseBytes ← checked_limit "maxResponseBytes" maxResponseBytes (lm_maxResponseBytes DEFAULT_LIMITS);
  mret (Limits effects effectBytes responseBytes).

(** ** Random bytes *)

(** The ranges [performRandomEffect] asks the platform to fill. *)
Fixpoint random_ranges (fuel : nat) (at_ count : Z) : list (Z * Z) :=
  match fuel with
  | O => []
  | S fuel' =>
      if at_ <? count
      then (at_, Z.min (at_ + 65536) count) :: random_ranges fuel' (at_ + 65536) count
      else []
  end.

(** [performRandomEffect], where the platform fills range [i] with [source i] and
    the clock, asked only if [wallTime], shows [now]. *)
Definition performRandomEffect (available : bool) (source : Z * Z → list byte) (count : jsval)
    (wallTime : bool) (now : jsnum) : res (list byte * option jsnum) :=
  match to_integer count with
  | Some n =>
      if (n <? 0) || (1024 * 1024 <? n) then Throw "browser random byte count must be between 0 and 1048576"
      else if negb available then Throw "Web Crypto is unavailable in this host"
      else Ok (bytesToBase64
             (foldl (λ bytes range, splice range.1 (source range) bytes) (replicate (Z.to_nat n) x00)
                (random_ranges (Z.to_nat n) 0 n)),
             if wallTime then Some now else None)
  | None => Throw "browser random byte count must be between 0 and 1048576"
  end.

(** ** Sleeping *)

(** A double that is finite and not negative. *)
Definition finite_nonneg (v : jsval) : option jsnum :=
  match v with
  | VNum (NInt z) => if 0 <=? z then Some (NInt z) else None
  | VNum (NFrac bits) => if bits <? 2 ^ 63 then Some (NFrac bits) else None
  | _ => None
  end.

Inductive time_operation := TimeNow | TimeWall | TimeUntil (deadline : jsval) | TimeSleep (milliseconds : jsval) | TimeOther.

(** What a time effect comes to: a clock's value at once, or a sleep. *)
Inductive time_plan := ReadNow | ReadWall | SleepFor (milliseconds : jsnum).

(** [performTimeEffect] up to the sleep; [until_now d] is
    [Math.max(0, d - performance.now())]. *)
Definition plan_time (until_now : jsnum → jsnum) (operation : time_operation) : res time_plan :=
  match operation with
  | TimeNow => Ok ReadNow
  | TimeWall => Ok ReadWall
  | TimeUntil deadline =>
      match finite_nonneg deadline with
      | Some d =>
          match finite_nonneg (VNum (until_now d)) with
          | Some ms => Ok (SleepFor ms)
          | None => Throw "invalid browser time operation"
          end
      | None => Throw "invalid browser time operation"
      end
  | TimeSleep milliseconds =>
      match finite_nonneg milliseconds with
      | Some ms => Ok (SleepFor ms)
      | None => Throw "invalid browser time operation"
      end
  | TimeOther => Throw "invalid browser time operation"
  end.

(** The promise of a sleep or of [abortable]: whether its timer (or the value it
    waits for) and its abort listener are still registered, and how it settled. *)
Inductive settled_as := Fulfilled | Rejected (reason : string).

Record waiting := Waiting {
  wt_timer : bool;
  wt_listener : bool;
  wt_settled : option settled_as
}.

(** What the platform does to it. *)
Inductive wait_event := TimerFires | ValueFails (error : string) | SignalAborts (reason : string).

(** A promise settles once. *)
Definition settle_promise (s : settled_as) (w : waiting) : waiting :=
  Waiting (wt_timer w) (wt_listener w) (Some (default s (wt_settled w))).

(** The promise of a sleep, for a signal that may be absent or already aborted. *)
Definition start_sleep (signal : bool) (aborted : option string) : waiting :=
  match aborted with
  | Some reason => Waiting false false (Some (Rejected reason))
  | None => Waiting true signal None
  end.

(** [finish] and [cancel] of a sleep: a cleared timer does not fire, and a removed
    or spent listener does not run. *)
Definition sleep_event (e : wait_event) (w : waiting) : waiting :=
  match e with
  | TimerFires =>
      if wt_timer w then settle_promise Fulfilled (Waiting false false (wt_settled w)) else w
  | SignalAborts reason =>
      if wt_listener w then settle_promise (Rejected reason) (Waiting false false (wt_settled w)) else w
  | ValueFails _ => w
  end.

(** [abortable(value, signal)]: the value keeps running after an abort, so its
    handlers stay registered. *)
Definition abortable_event (e : wait_event) (w : waiting) : waiting :=
  match e with
  | TimerFires =>
      if wt_timer w then settle_promise Fulfilled (Waiting false false (wt_settled w)) else w
  | ValueFails error =>
      if wt_timer w then settle_promise (Rejected error) (Waiting false false (wt_settled w)) else w
  | SignalAborts reason =>
      if wt_listener w then settle_promise (Rejected reason) (Waiting (wt_timer w) false (wt_settled w)) else w
  end.

(** ** Base64 text is read back *)

Lemma binary_chunks_drop fuel offset bytes :
  0 <= offset → zlen bytes - offset <= 0x8000 * Z.of_nat fuel →
  binary_chunks fuel offset bytes = drop (Z.to_nat offset) bytes.
Proof.
  revert offset. induction fuel as [|fuel IH]; intros offset H0 Hf; simpl.
  { rewrite drop_ge; [done|]. unfold zlen in *. lia. }
  destruct (Z.ltb_spec offset (zlen bytes)); [|by rewrite drop_ge by (unfold zlen in *; lia)].
  rewrite IH by lia. unfold slice. rewrite <- (take_drop (Z.to_nat 0x8000) (drop (Z.to_nat offset) bytes)) at 2.
  f_equal. rewrite drop_drop. f_equal. lia.
Qed.

Lemma bytesToBase64_btoa bytes : bytesToBase64 bytes = btoa bytes.
Proof. unfold bytesToBase64. rewrite binary_chunks_drop; [done|lia|unfold zlen; lia]. Qed.

Lemma is_digit_digit_char z : 0 <= z < 64 → is_digit_char (digit_char z) = true.
Proof.
  intros Hz%digit_char_ok. unfold digit_ok, is_digit_char in *. rewrite !andb_true_iff in Hz.
  destruct Hz as [[Hz%bool_decide_eq_true _] _]. rewrite Hz. by apply bool_decide_eq_true.
Qed.

(** A group of four in front. *)
Lemma base64_shape_group a b c d rest :
  is_digit_char a = true → is_digit_char b = true → is_digit_char c = true → is_digit_char d = true →
  base64_shape (a :: b :: c :: d :: rest) = base64_shape rest.
Proof. intros Ha Hb Hc Hd. destruct rest; simpl; by rewrite Ha, Hb, Hc, Hd. Qed.

Lemma base64_shape_btoa bytes : base64_shape (btoa bytes) = true.
Proof.
  induction bytes as [|a|a b|a b c bytes IH] using group_ind; [done|..]; byte_ranges; cbn [btoa].
  1,2: cbn [base64_shape]; rewrite !is_digit_digit_char by (Z.to_euclidean_division_equations; lia).
  1: by vm_compute.
  1: apply orb_true_iff; by right.
  rewrite base64_shape_group; [done|apply is_digit_digit_char; Z.to_euclidean_division_equations; lia..].
Qed.

(** Induction on the groups of four characters. *)
Lemma shape_ind (P : list byte → Prop) :
  P [] → (∀ a b c d, base64_shape [a; b; c; d] = true → P [a; b; c; d]) →
  (∀ a b c d rest, rest ≠ [] → is_digit_char a = true → is_digit_char b = true → is_digit_char c = true →
     is_digit_char d = true → P rest → P (a :: b :: c :: d :: rest)) →
  ∀ text, base64_shape text = true → P text.
Proof.
  intros H0 H1 H2 text. remember (length text) as n eqn:Hn. revert text Hn.
  induction n as [n IH] using lt_wf_ind. intros [|a [|b [|c [|d rest]]]] -> H; [done|done|done|done|].
  destruct rest as [|e rest]; [by apply H1|]. cbn [base64_shape] in H. rewrite !andb_true_iff in H.
  destruct H as [[[[? ?] ?] ?] Hr]. apply H2; [done..|]. eapply IH; [|done|done]. simpl. lia.
Qed.

Lemma char_digit_pad : char_digit x3d = None.
Proof. by vm_compute. Qed.

Lemma char_digit_space c : is_digit_char c = true ∨ is_pad c = true → is_space c = false.
Proof. unfold is_digit_char. destruct c; vm_compute; naive_solver. Qed.

(** What the expression accepts, [atob] decodes. *)
Lemma shape_parts text :
  base64_shape text = true →
  ∃ ds n, text = ds ++ replicate n x3d ∧ Forall (λ c, is_digit_char c = true) ds ∧ (n <= 2)%nat ∧
    (n = 1%nat → ds ≠ []) ∧ zlen text mod 4 = 0 ∧ zlen ds mod 4 ≠ 1.
Proof.
  assert (∀ c, is_pad c = true → c = x3d) as Hpad.
  { intros c H. apply Z.eqb_eq in H. rewrite <- (byte_of_Z_of_byte c), H. done. }
  revert text. apply shape_ind.
  - exists [], 0%nat. repeat (split; [done || lia|]). done.
  - intros a b c d H. cbn [base64_shape] in H. rewrite !andb_true_iff, !orb_true_iff, !andb_true_iff in H.
    destruct H as [[Ha Hb] [[[Hc Hd]|[Hc%Hpad Hd%Hpad]]|[Hc Hd%Hpad]]]; subst.
    + exists [a; b; c; d], 0%nat. repeat (split; [done || lia || (by repeat constructor)|]). done.
    + exists [a; b], 2%nat. repeat (split; [done || lia || (by repeat constructor)|]). done.
    + exists [a; b; c], 1%nat. repeat (split; [done || lia || (by repeat constructor)|]). done.
  - intros a b c d rest _ Ha Hb Hc Hd (ds & n & -> & Hds & Hn & _ & Hm & Hm').
    exists (a :: b :: c :: d :: ds), n. split; [done|]. split; [by repeat constructor|]. split; [done|]. split; [done|].
    rewrite !zlen_cons. replace (1 + (1 + (1 + (1 + zlen (ds ++ replicate n x3d))))) with (zlen (ds ++ replicate n x3d) + 1 * 4) by lia.
    replace (1 + (1 + (1 + (1 + zlen ds)))) with (zlen ds + 1 * 4) by lia. rewrite !Z.mod_add by lia. done.
Qed.

Lemma filter_true {A} (f : A → bool) l : Forall (λ x, f x = true) l → List.filter f l = l.
Proof. induction 1 as [|x l Hx _ IH]; simpl; [done|]. by rewrite Hx, IH. Qed.

Lemma decode_digits_Some ds : zlen ds mod 4 ≠ 1 → is_Some (decode_digits ds).
Proof.
  revert ds. fix go 1. intros [|p [|q [|r [|s ds]]]] H; [by eexists|done|by eexists|by eexists|].
  cbn [decode_digits]. apply fmap_is_Some, go. rewrite !zlen_cons in H.
  replace (1 + (1 + (1 + (1 + zlen ds)))) with (zlen ds + 1 * 4) in H by lia. by rewrite Z.mod_add in H by lia.
Qed.

Lemma atob_shape text : base64_shape text = true → ∃ bytes, atob text = Ok bytes.
Proof.
  intros (ds & n & -> & Hds & Hn & H1 & Hm & Hm')%shape_parts. unfold atob.
  assert (Forall (λ c, is_space c = false ∧ is_pad c = false) ds) as Hd.
  { eapply Forall_impl; [exact Hds|]. intros c Hc. split; [by apply char_digit_space; left|].
    revert Hc. unfold is_digit_char. by destruct c; vm_compute. }
  rewrite filter_true.
  2: { apply Forall_app. split; [eapply Forall_impl; [exact Hd|]; by intros c [-> _]|]. by apply Forall_replicate. }
  rewrite strip_pad_app by done.
  assert (∃ zs, mapM char_digit ds = Some zs ∧ length zs = length ds) as (zs & E & Hl).
  { destruct (mapM char_digit ds) as [zs|] eqn:E; [exists zs; split; [done|]; symmetry; by eapply length_mapM|].
    exfalso. apply mapM_None, Exists_exists in E as (c & Hin & Hc). rewrite Forall_forall in Hds.
    specialize (Hds c Hin). unfold is_digit_char in Hds. rewrite Hc in Hds. done. }
  rewrite E. destruct (decode_digits_Some zs) as [bytes ->]; [|by exists bytes]. unfold zlen in *. by rewrite Hl.
Qed.

(** What an accepted text decodes to, and what any other text gets. *)
Lemma base64ToBytes_cases text label :
  (∃ bytes, base64ToBytes text label = Ok bytes) ∨
  base64ToBytes text label = Throw (label +:+ " must be canonical base64").
Proof.
  unfold base64ToBytes. destruct text as [| | | |s|]; auto. destruct (negb _); simpl; [by right|].
  destruct (base64_shape _) eqn:E; simpl; [left; by apply atob_shape|by right].
Qed.

Lemma base64_read_back bytes label : base64ToBytes (VStr (bytes_text (bytesToBase64 bytes))) label = Ok bytes.
Proof.
  unfold base64ToBytes. rewrite text_bytes_text, bytesToBase64_btoa, btoa_length, base64_shape_btoa. apply atob_btoa.
Qed.

(** Bytes survive their base64 text, whatever their length and however the text is
    built in chunks, and a text that is not accepted is refused with the caller's label:
    the decoder behind the check never throws an error of its own. *)
Theorem base64_roundtrip bytes text label :
  base64ToBytes (VStr (bytes_text (bytesToBase64 bytes))) label = Ok bytes ∧
  ((∃ decoded, base64ToBytes text label = Ok decoded) ∨
   base64ToBytes text label = Throw (label +:+ " must be canonical base64")).
Proof.
  split; [apply base64_read_back|apply base64ToBytes_cases].
Qed.

(** The check of [base64ToBytes] is weaker than its message: for every byte there
    is a text other than its encoding that is accepted as canonical and decodes to it. *)
Theorem base64_accepts_noncanonical b label :
  ∃ text, text ≠ bytes_text (bytesToBase64 [b]) ∧ base64ToBytes (VStr text) label = Ok [b].
Proof.
  exists (bytes_text [digit_char (Z_of_byte b / 4); digit_char (Z_of_byte b mod 4 * 16 + 1); x3d; x3d]).
  split.
  - intros H. apply (f_equal text_bytes) in H. rewrite !text_bytes_text, bytesToBase64_btoa in H. revert H. destruct b; vm_compute; done.
  - unfold base64ToBytes. rewrite text_bytes_text. destruct b; vm_compute; done.
Qed.

(** ** Random bytes *)

Lemma splice_after_prefix (pre src zeros : list byte) :
  splice (zlen pre) src (pre ++ zeros) = (pre ++ src) ++ drop (length src) zeros.
Proof.
  unfold splice, zlen. rewrite Nat2Z.id, take_app_length, drop_app_add, <- app_assoc. done.
Qed.

Lemma random_fill source fuel at_ n (pre : list byte) :
  (∀ a b, a <= b → zlen (source (a, b)) = b - a) → 0 <= at_ <= n → n - at_ <= Z.of_nat fuel → zlen pre = at_ →
  foldl (λ bytes range, splice range.1 (source range) bytes) (pre ++ replicate (Z.to_nat (n - at_)) x00)
    (random_ranges fuel at_ n) = pre ++ concat (source <$> random_ranges fuel at_ n) ∧
  zlen (concat (source <$> random_ranges fuel at_ n)) = n - at_.
Proof.
  intros Hs. revert at_ pre. induction fuel as [|fuel IH]; intros at_ pre Ha Hf Hp; cbn [random_ranges].
  { replace (n - at_) with 0 by lia. done. }
  destruct (Z.ltb_spec at_ n).
  2: { replace (n - at_) with 0 by lia. done. }
  pose proof (Hs at_ (Z.min (at_ + 65536) n) ltac:(lia)) as Hl.
  cbn [foldl fst]. rewrite <- Hp at 1. rewrite splice_after_prefix, drop_replicate, fmap_cons. cbn [concat].
  destruct (Z.le_gt_cases (at_ + 65536) n) as [Hle|Hgt].
  - destruct (IH (at_ + 65536) (pre ++ source (at_, Z.min (at_ + 65536) n))) as [E1 E2]; [lia|lia|rewrite zlen_app; lia|].
    replace (Z.to_nat (n - at_) - length (source (at_, Z.min (at_ + 65536) n)))%nat with (Z.to_nat (n - (at_ + 65536))) by (unfold zlen in Hl; lia).
    rewrite E1, zlen_app, E2, <- app_assoc. split; [done|lia].
  - assert (random_ranges fuel (at_ + 65536) n = []) as ->.
    { destruct fuel; simpl; [done|]. by rewrite (proj2 (Z.ltb_ge _ _)) by lia. }
    replace (Z.to_nat (n - at_) - length (source (at_, Z.min (at_ + 65536) n)))%nat with 0%nat by (unfold zlen in Hl; lia).
    rewrite zlen_app. simpl. rewrite !app_nil_r. split; [done|]. rewrite zlen_nil. lia.
Qed.

Lemma random_ranges_small fuel at_ n :
  Forall (λ r, 0 < r.2 - r.1 <= 65536) (random_ranges fuel at_ n).
Proof.
  revert at_. induction fuel as [|fuel IH]; intros at_; cbn [random_ranges]; [constructor|].
  destruct (Z.ltb_spec at_ n); constructor; [simpl; lia|apply IH].
Qed.

(** A random effect of a valid count returns exactly that many bytes, all of them from
    the platform: the ranges it asks for are each within the 65536 bytes the platform fills
    at once and follow each other without gap or overlap, and the text it answers with
    decodes to them. *)
Theorem random_fills_all source n wallTime now :
  (∀ a b, a <= b → zlen (source (a, b)) = b - a) → 0 <= n <= 1024 * 1024 →
  let ranges := random_ranges (Z.to_nat n) 0 n in
  let bytes := concat (source <$> ranges) in
  performRandomEffect true source (VNum (NInt n)) wallTime now =
    Ok (bytesToBase64 bytes, if wallTime then Some now else None) ∧
  zlen bytes = n ∧ Forall (λ r, 0 < r.2 - r.1 <= 65536) ranges ∧
  base64ToBytes (VStr (bytes_text (bytesToBase64 bytes))) "" = Ok bytes.
Proof.
  intros Hs Hn ranges bytes. destruct (random_fill source (Z.to_nat n) 0 n []) as [E1 E2]; [done|lia..|done|].
  rewrite Z.sub_0_r in *. simpl in E1. split; [|split; [done|]; split; [apply random_ranges_small|]].
  - unfold performRandomEffect. cbn [to_integer]. rewrite (proj2 (Z.ltb_ge n 0)), (proj2 (Z.ltb_ge (1024 * 1024) n)) by lia.
    simpl. by rewrite E1.
  - apply base64_read_back.
Qed.

Lemma random_fills_all_witness :
  ∃ bytes, performRandomEffect true (λ r, replicate (Z.to_nat (r.2 - r.1)) x07) (VNum (NInt 70000)) true (NInt 9) =
    Ok (bytesToBase64 bytes, Some (NInt 9)) ∧ zlen bytes = 70000.
Proof.
  destruct (random_fills_all (λ r, replicate (Z.to_nat (r.2 - r.1)) x07) 70000 true (NInt 9)) as (H1 & H2 & _).
  - intros a b H. unfold zlen. rewrite length_replicate. simpl. lia.
  - lia.
  - exists (concat ((λ r : Z * Z, replicate (Z.to_nat (r.2 - r.1)) x07) <$> random_ranges (Z.to_nat 70000) 0 70000)).
    split; [exact H1|exact H2].
Defined.

(** ** Hexadecimal text *)

Definition hex_value (c : byte) : Z :=
  let z := Z_of_byte c in if z <=? 0x39 then z - 0x30 else z - 0x61 + 10.

Lemma hex_byte b :
  ∃ h l, padStart2 (to_string_16 b) = [h; l] ∧ byte_of_Z (16 * hex_value h + hex_value l) = b ∧
    forallb is_hex_char [h; l] = true.
Proof. destruct b; eexists _, _; (split; [by vm_compute|]); split; by vm_compute. Qed.

(** The hexadecimal text of a digest is what the worker pool takes for one: 64 lower
    case digits for 32 bytes, and two digests with one text are one digest. *)
Theorem hex_is_digest bytes :
  zlen bytes = 32 →
  is_digest (VStr (bytes_text (hex bytes))) = true ∧ ∀ bytes', hex bytes' = hex bytes → bytes' = bytes.
Proof.
  intros Hn. split.
  - unfold is_digest. rewrite String.list_byte_of_string_of_list_byte.
    assert (zlen (hex bytes) = 2 * zlen bytes ∧ forallb is_hex_char (hex bytes) = true) as [-> ->]; [|by rewrite Hn].
    clear Hn. unfold hex. induction bytes as [|b bytes [IH1 IH2]]; [done|]. rewrite fmap_cons. cbn [concat].
    destruct (hex_byte b) as (h & l & -> & _ & Hf). rewrite zlen_app, forallb_app, IH1, IH2, Hf, zlen_cons. split; [|done].
    rewrite !zlen_cons, zlen_nil. lia.
  - clear Hn. induction bytes as [|b bytes IH]; intros [|b' bytes']; [done|..]; unfold hex; rewrite ?fmap_cons; cbn [concat].
    1,2: destruct (hex_byte b) as (h & l & -> & _ & _) || destruct (hex_byte b') as (h & l & -> & _ & _); done.
    destruct (hex_byte b) as (h & l & -> & Hb & _), (hex_byte b') as (h' & l' & -> & Hb' & _).
    intros [= -> -> E]. f_equal; [congruence|by apply IH].
Qed.

Lemma hex_is_digest_witness : is_digest (VStr (bytes_text (hex (replicate 32 xab)))) = true.
Proof. apply (hex_is_digest (replicate 32 xab)). reflexivity. Defined.

(** ** Sleeping *)

Definition run_sleep (events : list wait_event) (w : waiting) : waiting := foldl (λ w e, sleep_event e w) w events.

Lemma sleep_done w s : wt_timer w = false → wt_listener w = false → wt_settled w = Some s →
  ∀ events, run_sleep events w = w.
Proof.
  intros Ht Hl Hs events. induction events as [|e events IH]; [done|]. simpl.
  assert (sleep_event e w = w) as ->; [|done]. destruct e; simpl; by rewrite ?Ht, ?Hl.
Qed.

(** A sleep settles once and leaves nothing behind: until its timer fires or its
    signal aborts it is pending with its timer set, and from then on, whatever fires later,
    it stays as it settled, with neither timer nor listener registered. *)
Theorem sleep_settles_once signal aborted events later :
  let w := run_sleep events (start_sleep signal aborted) in
  match wt_settled w with
  | None => wt_timer w = true ∧ wt_listener w = signal
  | Some _ => wt_timer w = false ∧ wt_listener w = false ∧ run_sleep later w = w
  end.
Proof.
  intros w. assert (match wt_settled w with
    | None => wt_timer w = true ∧ wt_listener w = signal
    | Some _ => wt_timer w = false ∧ wt_listener w = false end) as Hw.
  { unfold w, run_sleep. induction events as [|e events IH] using rev_ind; [by destruct aborted|].
    rewrite foldl_app. simpl. destruct (foldl _ _ events) as [t l [s|]]; simpl in *; destruct IH as [-> ->];
      destruct e; simpl; try done. by destruct signal. }
  destruct (wt_settled w) as [s|] eqn:Hs; [|done]. destruct Hw. split; [done|]. split; [done|]. by eapply sleep_done.
Qed.
