(* ===== verification/EffectLeases.v ===== *)
(** The frame's leases as the effects of [src/runtime/wasm/app-runtime.mjs] use them.

    A run's options hold the transfer table of the frame being answered, if there is
    one; each component of effects keeps its own part of the options, so the lease
    operations are stated for any state that has such a table. *)

From S2P Require Import Prelude Transfers.

Class HasTransfers (S : Type) := {
  get_transfers : S → option transfers;
  put_transfers : option transfers → S → S
}.

Section Leases.
Context {S : Type} `{!HasTransfers S}.

Definition memoryLease (id expectedBytes : jsval) (writable : bool) : js S lease :=
  t ← gets get_transfers;
  match t with
  | None => throw "browser operation has no transfer lease table"
  | Some t => lift (lease_of id expectedBytes writable t)
  end.

Definition releaseEffectLease (id : jsval) : js S () :=
  modify (λ s, put_transfers (release_lease id <$> get_transfers s) s).

(** [lease.view], and [lease.view.set(bytes, at)]. *)
Definition lease_view (l : lease) : js S (list byte) :=
  t ← gets get_transfers;
  match t with Some t => mret (view l t) | None => mret [] end.

Definition lease_set (l : lease) (at_ : Z) (bytes : list byte) : js S () :=
  t ← gets get_transfers;
  match t with
  | Some t => t' ← lift (view_set l at_ bytes t); modify (put_transfers (Some t'))
  | None => mret tt
  end.
End Leases.

(** ** Leases that were given back *)

Lemma lease_released id n w t : is_ok (lease_of id n w (release_lease id t)) = false.
Proof.
  unfold lease_of, release_lease. destruct id as [| | |[z| | |]| |]; try done.
  destruct (get_lease (VNum (NInt z)) t) as [e|] eqn:E; simpl in *; [by rewrite mget_mset_eq|]. by rewrite E.
Qed.

Lemma lease_stays_released id id' n w t :
  is_ok (lease_of id n w t) = false → is_ok (lease_of id n w (release_lease id' t)) = false.
Proof.
  unfold lease_of, release_lease. destruct id' as [| | |[z'| | |]| |]; try done.
  destruct (get_lease (VNum (NInt z')) t) as [e|] eqn:E; [|done]. destruct id as [| | |[z| | |]| |]; try done. simpl in *.
  destruct (decide (z' = z)) as [->|Hne]; [by rewrite mget_mset_eq|by rewrite mget_mset_ne].
Qed.

Lemma view_release l id t : view l (release_lease id t) = view l t.
Proof. unfold release_lease. destruct id as [| | |[z| | |]| |]; try done. by destruct (get_lease _ t). Qed.

Lemma view_length lid n w l t : transfers_wf t → lease_of lid (VNum (NInt n)) w t = Ok l → zlen (view l t) = n.
Proof.
  intros Ht (z & -> & Hz & _ & _ & Hn)%lease_of_Ok. destruct (wf_extent _ _ _ Ht Hz) as (_ & ? & ? & ?).
  rewrite <- (Hn n eq_refl). by apply zlen_slice.
Qed.

Lemma view_set_whole id n l bytes t t' :
  transfers_wf t → lease_of id n true t = Ok l → view_set l 0 bytes t = Ok t' → zlen bytes = l_bytes l →
  view l t' = bytes ∧ t_leases t' = t_leases t.
Proof.
  intros Hwf (z & -> & Hz & _)%lease_of_Ok Hv Hb. destruct (wf_extent _ _ _ Hwf Hz) as (_ & ? & ? & ?).
  apply view_set_Ok in Hv as (_ & _ & ->). split; [|done]. unfold view. simpl. rewrite Z.add_0_r, <- Hb.
  apply slice_splice_same; lia.
Qed.

(** A frame with a lease still held is not answered. *)
Lemma response_retained ls offset t z l :
  mget z ls = Some l → l_released l = false →
  response_loop ls offset t = Throw "Browser operation retained a guest transfer lease".
Proof.
  revert offset. induction ls as [|[k e] ls IH]; intros offset Hz Hr; [done|]. cbn in *.
  case_decide; simplify_eq; [by rewrite Hr|]. destruct (l_released e); simpl; [|done]. by rewrite IH.
Qed.

(** A write inside a lease. *)
Lemma view_set_run z l at_ bytes t :
  transfers_wf t → mget z (t_leases t) = Some l → 0 <= at_ → at_ + zlen bytes <= l_bytes l →
  ∃ t', view_set l at_ bytes t = Ok t' ∧ view l t' = splice at_ bytes (view l t) ∧ transfers_wf t' ∧
        t_leases t' = t_leases t.
Proof.
  intros Hwf Hz Ha Hb. destruct (wf_extent _ _ _ Hwf Hz) as (_ & ? & ? & ?).
  assert (view_set l at_ bytes t = Ok (Transfers (splice (l_offset l + at_) bytes (t_buffer t)) (t_leases t))) as E.
  { unfold view_set. by rewrite (proj2 (Z.ltb_ge at_ 0)), (proj2 (Z.ltb_ge (l_bytes l) _)) by lia. }
  eexists. split; [exact E|]. split; [|split; [by eapply wf_view_set|done]].
  unfold view. simpl. by apply slice_splice_inside.
Qed.
