(* ===== verification/EffectFiles.v ===== *)
(** File effects of [src/runtime/wasm/app-runtime.mjs] over the Origin Private File
    System.

    The file system is the platform's: its calls are the operations of a class over
    an abstract platform state, and a call may fail with a named error.  File effects
    of one run are chained on one promise, so each runs to its end before the next
    begins and is one computation here. *)

From S2P Require Import Prelude Transfers EffectLeases.
From Stdlib Require Import QArith.
#[local] Open Scope Z_scope.

(** ** The platform *)

(** A call of the platform: a [DOMException] with its name and message, or a value. *)
Definition fs (P A : Type) : Type := P → (string * string + A) * P.

Class Opfs (P : Type) := {
  fs_getDirectory : fs P Z;
  fs_getDirectoryHandle : Z → string → bool → fs P Z;
  fs_getFileHandle : Z → string → bool → fs P Z;
  fs_syncAccess : bool;
  fs_createSyncAccessHandle : Z → fs P Z;
  fs_getFile : Z → fs P (Z * Z);
  fs_removeEntry : Z → string → bool → fs P ();
  fs_entries : Z → fs P (list (string * string));
  fs_truncate : Z → Z → fs P ();
  fs_close : Z → fs P ();
  fs_flush : Z → fs P ();
  fs_getSize : Z → fs P jsval;
  fs_read : Z → Z → Z → fs P (jsval * list byte);
  fs_write : Z → list byte → Z → fs P jsval;
  fs_persist : fs P jsval
}.

(** ** State *)

Record file_mode := FileMode {
  md_mustExist : bool;
  md_readable : bool;
  md_writable : bool;
  md_truncate : bool;
  md_appending : bool
}.

Record open_file := OpenFile {
  f_access : Z;
  f_cursor : Z;
  f_mode : file_mode
}.

Record files (P : Type) := Files {
  fl_platform : P;
  fl_available : bool;
  fl_persistentAvailable : bool;
  fl_relay : bool;
  fl_handles : jmap Z open_file;
  fl_nextHandle : Z;
  fl_root : option Z;
  fl_transfers : option transfers
}.
Arguments Files {P}.
Arguments fl_platform {P}.
Arguments fl_available {P}.
Arguments fl_persistentAvailable {P}.
Arguments fl_relay {P}.
Arguments fl_handles {P}.
Arguments fl_nextHandle {P}.
Arguments fl_root {P}.
Arguments fl_transfers {P}.

(** [filesState(options)] when there is no state yet: what the storage object and the
    caller offer. *)
Definition filesState {P} (platform : P) (getDirectory persist requestPersistentStorage : bool)
    (t : option transfers) : files P :=
  Files platform getDirectory (requestPersistentStorage || persist) (requestPersistentStorage || persist) [] 1 None t.

(** An operation of a file effect, with the fields it reads. *)
Inductive path_operation :=
| OpCreateDirectory | OpExists | OpOpen (mode : jsval) | OpInfo | OpRemove (recursive : bool) | OpList
| OpUnknown (operation : string).

Inductive files_effect :=
| FCapabilities
| FPersist
| FClose (handle : jsval)
| FSize (handle : jsval)
| FSeek (handle offset origin : jsval)
| FRead (handle count lease : jsval)
| FWrite (handle count lease : jsval)
| FFlush (handle : jsval)
| FPath (root : jsval) (parts : option (list jsval)) (operation : path_operation).

(** The [modified] time of an entry is the platform's milliseconds over a thousand. *)
Inductive files_reply :=
| RCapabilities (available persistentAvailable : bool)
| RGranted (granted : bool)
| RClosed
| RSize (size : Z)
| RPosition (position : Z)
| RBytes (bytes : Z)
| RFlushed
| RCreated
| RExists (exists_ : bool)
| RHandle (handle : Z)
| RInfo (directory : bool) (size : Z) (modified : Q)
| RRemoved
| RList (entries : list (string * bool)).

Section Files.
Context {P : Type} `{!Opfs P}.
Implicit Types (s : files P).

Definition set_platform (p : P) s : files P :=
  Files p (fl_available s) (fl_persistentAvailable s) (fl_relay s) (fl_handles s) (fl_nextHandle s) (fl_root s)
    (fl_transfers s).
Definition set_handles (handles : jmap Z open_file) s : files P :=
  Files (fl_platform s) (fl_available s) (fl_persistentAvailable s) (fl_relay s) handles (fl_nextHandle s) (fl_root s)
    (fl_transfers s).
Definition set_nextHandle (next : Z) s : files P :=
  Files (fl_platform s) (fl_available s) (fl_persistentAvailable s) (fl_relay s) (fl_handles s) next (fl_root s)
    (fl_transfers s).
Definition set_root (root : option Z) s : files P :=
  Files (fl_platform s) (fl_available s) (fl_persistentAvailable s) (fl_relay s) (fl_handles s) (fl_nextHandle s) root
    (fl_transfers s).
Definition set_transfers (t : option transfers) s : files P :=
  Files (fl_platform s) (fl_available s) (fl_persistentAvailable s) (fl_relay s) (fl_handles s) (fl_nextHandle s)
    (fl_root s) t.

(** A platform call whose error is looked at, and one whose error leaves with its message. *)
Definition call {A} (m : fs P A) : js (files P) (string * string + A) := λ s,
  let '(r, p) := m (fl_platform s) in (Ok r, set_platform p s).
Definition must {A} (m : fs P A) : js (files P) A :=
  r ← call m;
  match r with inl (_, message) => throw message | inr a => mret a end.

#[export] Instance files_transfers : HasTransfers (files P) :=
  {| get_transfers := fl_transfers; put_transfers := set_transfers |}.

(** ** Handles and paths *)

Definition openFile (value : jsval) : js (files P) (Z * open_file) :=
  match to_safe value with
  | Some id =>
      if id <? 1 then throw "browser file handle is invalid" else
      handles ← gets fl_handles;
      match mget id handles with
      | Some file => mret (id, file)
      | None => throw "browser file handle is closed or unknown"
      end
  | None => throw "browser file handle is invalid"
  end.

Definition set_cursor (id cursor : Z) : js (files P) () :=
  modify (λ s, match mget id (fl_handles s) with
               | Some f => set_handles (mset id (OpenFile (f_access f) cursor (f_mode f)) (fl_handles s)) s
               | None => s
               end).
Definition get_cursor (id : Z) : js (files P) Z :=
  handles ← gets fl_handles;
  mret (match mget id handles with Some f => f_cursor f | None => 0 end).

Fixpoint has_char (c : Ascii.ascii) (s : string) : bool :=
  match s with
  | EmptyString => false
  | String c' s' => bool_decide (c' = c) || has_char c s'
  end.

Definition SLASH : Ascii.ascii := Ascii.ascii_of_nat 47.
Definition BACKSLASH : Ascii.ascii := Ascii.ascii_of_nat 92.

Definition part_ok (part : jsval) : option string :=
  match part with
  | VStr s =>
      if bool_decide (s = "" ∨ s = "." ∨ s = "..") || has_char SLASH s || has_char BACKSLASH s then None else Some s
  | _ => None
  end.

Definition fileParts (root : jsval) (parts : option (list jsval)) : res (list string) :=
  match parts with
  | None => Throw "browser file path is invalid"
  | Some parts =>
      match mapM part_ok parts with
      | None => Throw "browser file path is invalid"
      | Some names =>
          if zlen parts <? 3 then Throw "browser file path is invalid"
          else
            match names, root with
            | first :: _, VStr r =>
                if bool_decide (first = r) && bool_decide (r ∈ ["configuration"; "data"; "cache"])
                then Ok names else Throw "browser file root is invalid"
            | _, _ => Throw "browser file root is invalid"
            end
      end
  end.

(** [filesRoot(state)]: the directory is memoized, a failure is not. *)
Definition filesRoot : js (files P) (string * string + Z) :=
  root ← gets fl_root;
  match root with
  | Some d => mret (inr d)
  | None =>
      r ← call fs_getDirectory;
      match r with
      | inl e => mret (inl e)
      | inr d => modify (set_root (Some d)) ;; mret (inr d)
      end
  end.

Fixpoint descend (directory : Z) (names : list string) (create : bool) : js (files P) (string * string + Z) :=
  match names with
  | [] => mret (inr directory)
  | name :: names' =>
      r ← call (fs_getDirectoryHandle directory name create);
      match r with
      | inl e => mret (inl e)
      | inr d => descend d names' create
      end
  end.

Definition directoryAt (parts : list string) (create : bool) (through : nat) : js (files P) (string * string + Z) :=
  r ← filesRoot;
  match r with
  | inl e => mret (inl e)
  | inr d => descend d (take through parts) create
  end.

Definition must_directoryAt (parts : list string) (create : bool) (through : nat) : js (files P) Z :=
  r ← directoryAt parts create through;
  match r with inl (_, message) => throw message | inr d => mret d end.

Definition modes (mode : jsval) : option file_mode :=
  match mode with
  | VStr "r" => Some (FileMode true true false false false)
  | VStr "w" => Some (FileMode false false true true false)
  | VStr "a" => Some (FileMode false false true false true)
  | VStr "r+" => Some (FileMode true true true false false)
  | VStr "w+" => Some (FileMode false true true true false)
  | VStr "a+" => Some (FileMode false true true false true)
  | _ => None
  end.

(** [let handle = state.nextHandle++; while (handle === 0 || state.handles.has(handle)) ...]. *)
Fixpoint next_handle (fuel : nat) : js (files P) Z :=
  s ← gets (λ s, s);
  let handle := fl_nextHandle s in
  modify (set_nextHandle (handle + 1)) ;;
  if (handle =? 0) || mhas handle (fl_handles s) then
    match fuel with O => throw "no free handle" | S fuel' => next_handle fuel' end
  else mret handle.

(** ** Operations *)

(** The loop of a write: what is left of the view, and what was written before. *)
Fixpoint write_loop (fuel : nat) (id access : Z) (data : list byte) (bytes count : Z) : js (files P) Z :=
  if bytes <? count then
    match fuel with
    | O => throw "the loop has ended"
    | S fuel' =>
        cursor ← get_cursor id;
        wrote ← must (fs_write access data cursor);
        match to_safe wrote with
        | Some w =>
            if (w <? 1) || (count - bytes <? w) then throw "browser file write returned an invalid byte count" else
            set_cursor id (cursor + w) ;;
            write_loop fuel' id access (drop (Z.to_nat w) data) (bytes + w) count
        | None => throw "browser file write returned an invalid byte count"
        end
    end
  else mret bytes.

Definition file_read (handle count lease_ : jsval) : js (files P) files_reply :=
  '(id, file) ← openFile handle;
  guard_js (negb (md_readable (f_mode file))) "file is not open for reading" ;;
  match to_safe count with
  | Some n =>
      guard_js (n <? 1) "browser file read count is invalid" ;;
      l ← memoryLease lease_ count true;
      try_finally
        (cursor ← get_cursor id;
         '(bytes, filled) ← must (fs_read (f_access file) (l_bytes l) cursor);
         lease_set l 0 filled ;;
         match to_safe bytes with
         | Some got =>
             if (got <? 0) || (n <? got) then throw "browser file read returned an invalid byte count" else
             set_cursor id (cursor + got) ;; mret (RBytes got)
         | None => throw "browser file read returned an invalid byte count"
         end)
        (releaseEffectLease lease_)
  | None => throw "browser file read count is invalid"
  end.

Definition file_write (handle count lease_ : jsval) : js (files P) files_reply :=
  '(id, file) ← openFile handle;
  guard_js (negb (md_writable (f_mode file))) "file is not open for writing" ;;
  match to_safe count with
  | Some n =>
      guard_js (n <? 0) "browser file write count is invalid" ;;
      l ← memoryLease lease_ count false;
      try_finally
        (when (md_appending (f_mode file))
           (size ← must (fs_getSize (f_access file));
            set_cursor id (default 0 (to_integer size))) ;;
         data ← lease_view l;
         written ← write_loop (Z.to_nat n) id (f_access file) data 0 n;
         mret (RBytes written))
        (releaseEffectLease lease_)
  | None => throw "browser file write count is invalid"
  end.

Definition file_seek (handle offset origin : jsval) : js (files P) files_reply :=
  '(id, file) ← openFile handle;
  match to_safe offset, origin with
  | Some o, VNum (NInt from) =>
      if negb ((from =? 0) || (from =? 1) || (from =? 2)) then throw "browser file seek is invalid" else
      base ← (if from =? 0 then mret 0 else if from =? 1 then mret (f_cursor file)
              else size ← must (fs_getSize (f_access file)); mret (default 0 (to_integer size)));
      let position := Z.max 0 (base + o) in
      if MAX_SAFE_INTEGER <? position then throw "browser file position exceeds the exact integer range" else
      set_cursor id position ;; mret (RPosition position)
  | _, _ => throw "browser file seek is invalid"
  end.

Definition file_open (parent : Z) (name : string) (mode : jsval) : js (files P) files_reply :=
  match modes mode with
  | None => throw "unknown browser file mode"
  | Some m =>
      file ← must (fs_getFileHandle parent name (negb (md_mustExist m)));
      if negb fs_syncAccess then throw "synchronous OPFS file handles are unavailable" else
      access ← must (fs_createSyncAccessHandle file);
      try_catch
        (when (md_truncate m) (must (fs_truncate access 0)) ;;
         n ← gets (λ s, length (fl_handles s));
         handle ← next_handle (S n);
         modify (λ s, set_handles (mset handle (OpenFile access 0 m) (fl_handles s)) s) ;;
         mret (RHandle handle))
        (λ error, must (fs_close access) ;; throw error)
  end.

(** A failed look-up of a file is replaced by a directory of that name, if there is one. *)
Definition file_info (parent : Z) (name : string) : js (files P) files_reply :=
  f ← call (fs_getFileHandle parent name false);
  found ← (match f with
           | inr file => r ← call (fs_getFile file); mret r
           | inl e => mret (inl e)
           end);
  match found with
  | inr (size, lastModified) => mret (RInfo false size (lastModified # 1000))
  | inl (_, message) =>
      d ← call (fs_getDirectoryHandle parent name false);
      match d with
      | inr _ => mret (RInfo true 0 (0 # 1))
      | inl _ => throw message
      end
  end.

(** Only a missing name is an answer; any other failure stays a failure. *)
Definition file_exists (parts : list string) : js (files P) files_reply :=
  let missing := λ e : string * string,
    if bool_decide (e.1 = "NotFoundError") then mret (RExists false) else throw e.2 in
  d ← directoryAt parts false (length parts - 1);
  match d with
  | inl e => missing e
  | inr directory =>
      f ← call (fs_getFileHandle directory (default "" (last parts)) false);
      match f with
      | inr _ => mret (RExists true)
      | inl e => if bool_decide (e.1 = "TypeMismatchError") then mret (RExists true) else missing e
      end
  end.

Definition path_effect (parts : list string) (operation : path_operation) : js (files P) files_reply :=
  match operation with
  | OpCreateDirectory => must_directoryAt parts true (length parts) ;; mret RCreated
  | OpExists => file_exists parts
  | _ =>
      parent ← must_directoryAt parts false (length parts - 1);
      let name := default "" (last parts) in
      match operation with
      | OpOpen mode => file_open parent name mode
      | OpInfo => file_info parent name
      | OpRemove recursive => must (fs_removeEntry parent name recursive) ;; mret RRemoved
      | OpList =>
          directory ← must (fs_getDirectoryHandle parent name false);
          entries ← must (fs_entries directory);
          mret (RList ((λ e, (e.1, bool_decide (e.2 = "directory"))) <$> entries))
      | OpUnknown operation => throw ("unsupported browser file operation " +:+ operation)
      | OpCreateDirectory | OpExists => throw "unreachable"
      end
  end.

Definition performFilesEffectNow (effect : files_effect) : js (files P) files_reply :=
  s ← gets (λ s, s);
  match effect with
  | FCapabilities => mret (RCapabilities (fl_available s) (fl_persistentAvailable s))
  | _ =>
      if negb (fl_available s) then throw "Origin Private File System is unavailable" else
      match effect with
      | FCapabilities => throw "unreachable"
      | FPersist =>
          if negb (fl_relay s) then throw "the browser host has no main-thread persistence relay" else
          granted ← must fs_persist;
          mret (RGranted (bool_decide (granted = VBool true)))
      | FClose handle =>
          '(id, file) ← openFile handle;
          modify (λ s, set_handles (mdelete id (fl_handles s)) s) ;;
          must (fs_close (f_access file)) ;;
          mret RClosed
      | FSize handle =>
          '(_, file) ← openFile handle;
          size ← must (fs_getSize (f_access file));
          match to_safe size with
          | Some n => if n <? 0 then throw "browser file size is invalid" else mret (RSize n)
          | None => throw "browser file size is invalid"
          end
      | FSeek handle offset origin => file_seek handle offset origin
      | FRead handle count lease_ => file_read handle count lease_
      | FWrite handle count lease_ => file_write handle count lease_
      | FFlush handle =>
          '(_, file) ← openFile handle;
          must (fs_flush (f_access file)) ;; mret RFlushed
      | FPath root parts operation =>
          names ← lift (fileParts root parts);
          path_effect names operation
      end
  end.

(** [performFilesEffect]: effects in the order they were asked for, each after the one
    before it whether that succeeded or not. *)
Fixpoint performFilesEffects (effects : list files_effect) : js (files P) (list (res files_reply)) :=
  match effects with
  | [] => mret []
  | effect :: effects' =>
      r ← (λ s, let '(r, s') := performFilesEffectNow effect s in (Ok r, s'));
      rest ← performFilesEffects effects';
      mret (r :: rest)
  end.
End Files.
