(* ===== verification/EffectFilesSpec.v ===== *)
(** Properties of the file effects: the handle table, what reads and writes move
    between a guest's lease and a file, and the leases of effects that fail. *)

From S2P Require Import Prelude Transfers EffectLeases EffectFiles.

(** ** What the platform promises *)

(** [src] written at [at_] over [l]; a write past the end leaves zeros between. *)
Definition overwrite (at_ : Z) (src l : list byte) : list byte :=
  take (Z.to_nat at_) (l ++ replicate (Z.to_nat at_ - length l) x00) ++ src ++ drop (Z.to_nat at_ + length src) l.

(** What the platform documents of a call that succeeds; any call may fail instead, in any state (no room, a handle in
    use or closed), and a write that fails may have changed the file.  Sizes are sizes, a write stores as many
    bytes as it says, reads return what the file holds. *)
Class OpfsLaws (P : Type) `{!Opfs P} (contents : P → Z → list byte) := {
  law_getSize : ∀ a p v p', fs_getSize a p = (inr v, p') → v = VNum (NInt (zlen (contents p a))) ∧ contents p' = contents p;
  law_write : ∀ a data at_ p v p', data ≠ [] → 0 <= at_ → fs_write a data at_ p = (inr v, p') →
    ∃ w, v = VNum (NInt w) ∧ 0 <= w <= zlen data ∧ contents p' a = overwrite at_ (take (Z.to_nat w) data) (contents p a);
  law_read : ∀ a n at_ p v filled p', 0 <= n → 0 <= at_ → fs_read a n at_ p = (inr (v, filled), p') →
    filled = take (Z.to_nat n) (drop (Z.to_nat at_) (contents p a)) ∧ v = VNum (NInt (zlen filled))
}.

Section Handles.
Context {P : Type} `{!Opfs P} (contents : P → Z → list byte) `{!OpfsLaws P contents}.
Implicit Types (s : files P) (f : open_file).

(** ** The handle table *)

Record files_wf s : Prop := {
  fw_keys : NoDup (fl_handles s).*1;
  fw_next : 1 <= fl_nextHandle s;
  fw_handles : ∀ id f, mget id (fl_handles s) = Some f → 1 <= id < fl_nextHandle s ∧ 0 <= f_cursor f
}.

(** States that differ elsewhere. *)
Lemma wf_same s s' :
  fl_handles s' = fl_handles s → fl_nextHandle s' = fl_nextHandle s → files_wf s → files_wf s'.
Proof. intros E1 E2 []. split; rewrite ?E1, ?E2; auto. Qed.

Lemma preserves_call {A} (m : fs P A) : preserves files_wf (call m).
Proof. intros s. unfold call. destruct (m _) as [r p]. by apply wf_same. Qed.
#[local] Hint Resolve preserves_call : jsinv.

Lemma preserves_must {A} (m : fs P A) : preserves files_wf (must m).
Proof. unfold must. preserve. Qed.
#[local] Hint Resolve preserves_must : jsinv.

Lemma preserves_set_transfers g : preserves files_wf (modify (λ s, set_transfers (g s) s)).
Proof. apply preserves_modify. intros s. by apply wf_same. Qed.
#[local] Hint Resolve preserves_set_transfers : jsinv.

Lemma preserves_memoryLease id n w : preserves files_wf (memoryLease id n w).
Proof. unfold memoryLease. preserve. Qed.
Lemma preserves_releaseEffectLease id : preserves files_wf (releaseEffectLease (S:=files P) id).
Proof. apply preserves_set_transfers. Qed.
Lemma preserves_lease_view l : preserves files_wf (lease_view (S:=files P) l).
Proof. unfold lease_view. preserve. Qed.
Lemma preserves_lease_set l n bs : preserves files_wf (lease_set (S:=files P) l n bs).
Proof. unfold lease_set. preserve. Qed.
#[local] Hint Resolve preserves_memoryLease preserves_releaseEffectLease preserves_lease_view preserves_lease_set : jsinv.

Lemma preserves_set_cursor id c : 0 <= c → preserves files_wf (set_cursor (P:=P) id c).
Proof.
  intros Hc. apply preserves_modify. intros s Hs. destruct (mget id (fl_handles s)) as [f|] eqn:E; [|done].
  destruct Hs. split; simpl; [by apply NoDup_mset|done|].
  intros id' f' [[-> ->]|[_ H]]%mget_mset_Some; [|auto]. split; [by eapply fw_handles0|done].
Qed.

(** Reads of the table give handles and cursors in range. *)
Lemma preserves_openFile {A} v (k : Z * open_file → js (files P) A) :
  (∀ id f, 0 <= f_cursor f → preserves files_wf (k (id, f))) → preserves files_wf (openFile v ≫= k).
Proof.
  intros Hk s Hs. unfold openFile, mbind, js_bind. destruct (to_safe v) as [id|]; [|done].
  destruct (id <? 1); [done|]. unfold gets. destruct (mget id (fl_handles s)) as [f|] eqn:E; [|done].
  apply Hk; [|done]. by destruct (fw_handles _ Hs _ _ E).
Qed.

Lemma preserves_get_cursor {A} id (k : Z → js (files P) A) :
  (∀ c, 0 <= c → preserves files_wf (k c)) → preserves files_wf (get_cursor id ≫= k).
Proof.
  intros Hk s Hs. unfold get_cursor. erewrite bind_run by done. apply Hk; [|done].
  destruct (mget id (fl_handles s)) as [f|] eqn:E; [|done]. by destruct (fw_handles _ Hs _ _ E).
Qed.

Lemma preserves_getSize {A} a (k : jsval → js (files P) A) :
  (∀ n, 0 <= n → preserves files_wf (k (VNum (NInt n)))) → preserves files_wf (must (fs_getSize a) ≫= k).
Proof.
  intros Hk s Hs. unfold must, call, mbind, js_bind. destruct (fs_getSize a (fl_platform s)) as [[[e m]|v] p'] eqn:E; [by apply (wf_same s)|].
  apply (law_getSize (contents:=contents)) in E as [-> _]. apply Hk; [apply zlen_nonneg|]. by apply (wf_same s).
Qed.

Lemma preserves_write_loop fuel id a data bytes count :
  preserves files_wf (write_loop (P:=P) fuel id a data bytes count).
Proof.
  revert data bytes. induction fuel as [|fuel IH]; intros data bytes; simpl; [preserve|].
  apply preserves_if; [|preserve]. apply preserves_get_cursor. intros c Hc.
  apply preserves_bind; [preserve|]. intros v. destruct (to_safe v) as [w|]; [|preserve].
  destruct (Z.ltb_spec w 1); simpl; [preserve|]. apply preserves_if; [preserve|].
  apply preserves_bind; [apply preserves_set_cursor; lia|]. intros _. apply IH.
Qed.
#[local] Hint Resolve preserves_write_loop : jsinv.

Lemma preserves_file_read h n l : preserves files_wf (file_read (P:=P) h n l).
Proof.
  unfold file_read. apply preserves_openFile. intros id f Hf. apply preserves_bind; [preserve|]. intros _.
  destruct (to_safe n) as [m|]; [|preserve]. apply preserves_bind; [preserve|]. intros _.
  apply preserves_bind; [preserve|]. intros l'. apply preserves_try_finally; [|preserve].
  apply preserves_get_cursor. intros c Hc. apply preserves_bind; [preserve|]. intros [v filled].
  apply preserves_bind; [preserve|]. intros _. destruct (to_safe v) as [got|]; [|preserve].
  destruct (Z.ltb_spec got 0); simpl; [preserve|]. apply preserves_if; [preserve|].
  apply preserves_bind; [apply preserves_set_cursor; lia|preserve].
Qed.

Lemma preserves_file_write h n l : preserves files_wf (file_write (P:=P) h n l).
Proof.
  unfold file_write. apply preserves_openFile. intros id f Hf. apply preserves_bind; [preserve|]. intros _.
  destruct (to_safe n) as [m|]; [|preserve]. apply preserves_bind; [preserve|]. intros _.
  apply preserves_bind; [preserve|]. intros l'. apply preserves_try_finally; [|preserve].
  apply preserves_bind; [|preserve]. apply preserves_when, preserves_getSize. intros k Hk.
  by apply preserves_set_cursor.
Qed.

Lemma preserves_file_seek h o w : preserves files_wf (file_seek (P:=P) h o w).
Proof.
  unfold file_seek. apply preserves_openFile. intros id f Hf.
  destruct (to_safe o) as [n|]; [|preserve]. destruct w as [| | |[from| | |]| |]; try preserve.
  all: apply preserves_set_cursor; lia.
Qed.

(** A new handle is the next number, and no handle before it was. *)
Lemma next_handle_run n s :
  files_wf s → next_handle n s = (Ok (fl_nextHandle s), set_nextHandle (fl_nextHandle s + 1) s).
Proof.
  intros [_ Hn Hh]. destruct n; cbn [next_handle]; erewrite bind_run by done; erewrite bind_run by done;
    (rewrite (proj2 (Z.eqb_neq _ 0)) by lia); unfold mhas; simpl;
    (destruct (mget (fl_nextHandle s) (fl_handles s)) as [f|] eqn:E; [destruct (Hh _ _ E); lia|done]).
Qed.

Lemma wf_add_handle a m s :
  files_wf s → files_wf (set_handles (mset (fl_nextHandle s) (OpenFile a 0 m) (fl_handles s))
                           (set_nextHandle (fl_nextHandle s + 1) s)).
Proof.
  intros []. split; simpl; [by apply NoDup_mset|lia|]. intros id f [[-> ->]|[_ H]]%mget_mset_Some; [simpl; lia|].
  destruct (fw_handles0 id f H). lia.
Qed.

Lemma preserves_file_open parent name mode : preserves files_wf (file_open (P:=P) parent name mode).
Proof.
  unfold file_open. destruct (modes mode) as [m|]; [|preserve]. apply preserves_bind; [preserve|]. intros file.
  apply preserves_if; [preserve|]. apply preserves_bind; [preserve|]. intros a.
  apply preserves_try_catch; [|preserve]. do 2 (apply preserves_bind; [preserve|intros ?]).
  intros s Hs. erewrite bind_run by (by apply next_handle_run). exact (wf_add_handle a m s Hs).
Qed.
#[local] Hint Resolve preserves_file_read preserves_file_write preserves_file_seek preserves_file_open : jsinv.

Lemma preserves_directoryAt parts create n : preserves files_wf (directoryAt (P:=P) parts create n).
Proof.
  unfold directoryAt, filesRoot. apply preserves_bind; [preserve; apply preserves_modify; intros s; by apply wf_same|].
  intros [e|d]; [preserve|]. generalize (take n parts) as names. intros names. revert d.
  induction names as [|name names IH]; intros d; simpl; preserve.
Qed.
#[local] Hint Resolve preserves_directoryAt : jsinv.

Lemma preserves_files_effect effect : preserves files_wf (performFilesEffectNow (P:=P) effect).
Proof.
  unfold performFilesEffectNow, path_effect, must_directoryAt, file_exists, file_info, openFile. preserve.
  apply preserves_modify. intros s []. split; simpl; [by apply NoDup_mdelete|done|].
  intros id f H. apply fw_handles0. destruct (decide (z = id)) as [->|Hne].
  - by rewrite mget_mdelete_eq in H.
  - by rewrite mget_mdelete_ne in H.
Qed.

Lemma preserves_files_effects effects : preserves files_wf (performFilesEffects (P:=P) effects).
Proof.
  induction effects as [|e effects IH]; simpl; [preserve|]. apply preserves_bind; [|preserve].
  intros s Hs. pose proof (preserves_files_effect e s Hs) as H. by destruct (performFilesEffectNow e s).
Qed.
End Handles.

(** ** What moves between a lease and a file *)

Lemma overwrite_app at_ d1 d2 l :
  0 <= at_ → overwrite (at_ + zlen d1) d2 (overwrite at_ d1 l) = overwrite at_ (d1 ++ d2) l.
Proof.
  intros Ha. unfold overwrite. set (X := take (Z.to_nat at_) _).
  assert (length X = Z.to_nat at_) as HX.
  { unfold X. rewrite length_take, length_app, length_replicate. lia. }
  replace (Z.to_nat (at_ + zlen d1)) with (length (X ++ d1)) by (rewrite length_app; unfold zlen; lia).
  rewrite (app_assoc X d1), <- (app_assoc (X ++ d1)), take_app_length, drop_app_add, drop_drop.
  rewrite <- !app_assoc, length_app.
  by rewrite Nat.add_assoc.
Qed.

Lemma drop_overwrite at_ src l :
  0 <= at_ → take (length src) (drop (Z.to_nat at_) (overwrite at_ src l)) = src.
Proof.
  intros Ha. unfold overwrite. set (X := take (Z.to_nat at_) _).
  assert (length X = Z.to_nat at_) as <-.
  { unfold X. rewrite length_take, length_app, length_replicate. lia. }
  rewrite drop_app_length. apply take_app_length.
Qed.

Section Moves.
Context {P : Type} `{!Opfs P} (contents : P → Z → list byte) `{!OpfsLaws P contents}.
Implicit Types (s : files P) (f : open_file).

Definition at_cursor f (c : Z) : open_file := OpenFile (f_access f) c (f_mode f).

(** A state with other platform state, handles and leases. *)
Definition moved (p : P) handles (t : option transfers) s : files P :=
  set_platform p (set_handles handles (set_transfers t s)).

Lemma moved_eq s : s = moved (fl_platform s) (fl_handles s) (fl_transfers s) s.
Proof. by destruct s. Qed.

Lemma openFile_run id f s :
  1 <= id <= MAX_SAFE_INTEGER → mget id (fl_handles s) = Some f → openFile (VNum (NInt id)) s = (Ok (id, f), s).
Proof.
  intros Hid Hf. unfold openFile. cbn [to_safe]. rewrite (proj2 (Z.leb_le _ _)) by lia.
  rewrite (proj2 (Z.ltb_ge id 1)) by lia. erewrite bind_run by done. by rewrite Hf.
Qed.

Lemma to_safe_int n : 0 <= n <= MAX_SAFE_INTEGER → to_safe (VNum (NInt n)) = Some n.
Proof. intros. cbn [to_safe]. by rewrite (proj2 (Z.leb_le _ _)) by lia. Qed.

Lemma set_cursor_run id c f s :
  mget id (fl_handles s) = Some f →
  set_cursor id c s = (Ok tt, set_handles (mset id (at_cursor f c) (fl_handles s)) s).
Proof. intros Hf. unfold set_cursor, modify. by rewrite Hf. Qed.

Lemma get_cursor_run id f s : mget id (fl_handles s) = Some f → get_cursor id s = (Ok (f_cursor f), s).
Proof. intros Hf. unfold get_cursor. erewrite bind_run by done. by rewrite Hf. Qed.

(** The write loop ends: the handle stays, and when it does not throw everything is written. *)
Lemma write_loop_run fuel id data bytes count f s :
  mget id (fl_handles s) = Some f → 0 <= f_cursor f → zlen data = count - bytes → count <= MAX_SAFE_INTEGER →
  0 <= bytes <= count → count - bytes <= Z.of_nat fuel →
  ∃ r p' hs, write_loop fuel id (f_access f) data bytes count s = (r, moved p' hs (fl_transfers s) s) ∧
    (∃ c, mget id hs = Some (at_cursor f c)) ∧
    ∀ v, r = Ok v → v = count ∧
      hs = (if bytes <? count then mset id (at_cursor f (f_cursor f + zlen data)) (fl_handles s) else fl_handles s) ∧
      contents p' (f_access f) =
        (if bytes <? count then overwrite (f_cursor f) data (contents (fl_platform s) (f_access f))
         else contents (fl_platform s) (f_access f)).
Proof.
  revert data bytes f s. induction fuel as [|fuel IH]; intros data bytes f s Hf Hc Hd Hm Hb Hfuel; cbn [write_loop].
  { destruct (Z.ltb_spec bytes count); [lia|]. exists (Ok bytes), (fl_platform s), (fl_handles s). rewrite <- moved_eq. split; [done|].
    split; [exists (f_cursor f); by destruct f|]. intros v [= <-]. by assert (bytes = count) as -> by lia. }
  destruct (Z.ltb_spec bytes count) as [Hlt|Hge].
  2: { exists (Ok bytes), (fl_platform s), (fl_handles s). rewrite <- moved_eq. split; [done|].
       split; [exists (f_cursor f); by destruct f|]. intros v [= <-]. by assert (bytes = count) as -> by lia. }
  erewrite bind_run by (by apply get_cursor_run).
  destruct (fs_write (f_access f) data (f_cursor f) (fl_platform s)) as [[[e m]|v] p1] eqn:E.
  { exists (Throw m), p1, (fl_handles s). split; [|split; [exists (f_cursor f); by destruct f|done]].
    unfold must, call, mbind, js_bind. rewrite E. simpl. unfold throw, moved. by destruct s. }
  pose proof E as (w & -> & Hw & Hcont)%(law_write (contents:=contents)); [|intros ->; rewrite zlen_nil in Hd; lia|done].
  erewrite bind_run by (unfold must, call, mbind, js_bind; by rewrite E).
  rewrite to_safe_int by lia. destruct (Z.ltb_spec w 1) as [Hw1|Hw1].
  { exists (Throw "browser file write returned an invalid byte count"), p1, (fl_handles s).
    split; [unfold throw, moved; simpl; by destruct s|split; [exists (f_cursor f); by destruct f|done]]. }
  rewrite (proj2 (Z.ltb_ge (count - bytes) w)) by lia. cbn [orb].
  set (s1 := set_platform p1 s). erewrite bind_run by (by apply (set_cursor_run id _ f s1)).
  set (f1 := at_cursor f (f_cursor f + w)). set (s2 := set_handles _ s1).
  destruct (IH (drop (Z.to_nat w) data) (bytes + w) f1 s2) as (r & p' & hs & E' & (c & Hcur) & Hok); try (simpl; lia).
  { apply mget_mset_eq. } { unfold zlen in *. rewrite length_drop. lia. }
  exists r, p', hs. change (f_access f1) with (f_access f) in *. rewrite E'. split; [unfold moved, s2, s1; by destruct s|].
  split; [by exists c|]. intros v Hv. destruct (Hok v Hv) as (-> & -> & Hp'). split; [done|].
  assert (zlen (drop (Z.to_nat w) data) = zlen data - w) as Hdrop by (unfold zlen in *; rewrite length_drop; lia).
  assert (zlen (take (Z.to_nat w) data) = w) as Htake by (unfold zlen in *; rewrite length_take; lia). split.
  - unfold s2, s1. simpl. destruct (Z.ltb_spec (bytes + w) count); simpl.
    + rewrite mset_mset, Hdrop. unfold f1, at_cursor. simpl.
      by replace (f_cursor f + w + (zlen data - w)) with (f_cursor f + zlen data) by lia.
    + unfold f1. by replace (zlen data) with w by lia.
  - rewrite Hp'. change (contents (fl_platform s2) (f_access f)) with (contents p1 (f_access f)). rewrite Hcont.
    destruct (Z.ltb_spec (bytes + w) count).
    + cbn [f1 at_cursor f_cursor]. rewrite <- Htake at 1. rewrite overwrite_app by done. by rewrite take_drop.
    + rewrite take_ge; [done|]. unfold zlen in *. lia.
Qed.

(** Where a write starts. *)
Definition write_start f (p : P) : Z := if md_appending (f_mode f) then zlen (contents p (f_access f)) else f_cursor f.

(** An appending handle looks for the end first. *)
Lemma find_end_run s id f :
  mget id (fl_handles s) = Some f →
  let start := write_start f (fl_platform s) in
  ∃ r p1 hs, (when (md_appending (f_mode f)) (size ← must (fs_getSize (f_access f)); set_cursor id (default 0 (to_integer size)))) s =
    (r, moved p1 hs (fl_transfers s) s) ∧ (∃ c, mget id hs = Some (at_cursor f c)) ∧
    ∀ v, r = Ok v → contents p1 = contents (fl_platform s) ∧ mget id hs = Some (at_cursor f start) ∧
      hs = (if md_appending (f_mode f) then mset id (at_cursor f start) (fl_handles s) else fl_handles s).
Proof.
  intros Hf start. unfold start, write_start, when. destruct (md_appending (f_mode f)).
  - unfold must, call, mbind, js_bind. destruct (fs_getSize (f_access f) (fl_platform s)) as [[[e m]|v] p1] eqn:E; simpl.
    { exists (Throw m), p1, (fl_handles s). split; [unfold throw, moved; by destruct s|]. split; [exists (f_cursor f); by destruct f|done]. }
    apply (law_getSize (contents:=contents)) in E as [-> Ep]. simpl. rewrite (set_cursor_run id _ f) by done.
    eexists (Ok tt), p1, _. split; [unfold moved; by destruct s|]. split; [eexists; apply mget_mset_eq|]. intros v _. split; [done|].
    split; [apply mget_mset_eq|done].
  - exists (Ok tt), (fl_platform s), (fl_handles s). rewrite <- moved_eq. split; [done|].
    assert (mget id (fl_handles s) = Some (at_cursor f (f_cursor f))) as Hc by (by destruct f). split; [by eexists|]. done.
Qed.

(** A write of a whole lease: it throws or writes everything, and gives the lease back. *)
Lemma file_write_run s id f n lid l t :
  1 <= id <= MAX_SAFE_INTEGER → mget id (fl_handles s) = Some f → 0 <= f_cursor f → md_writable (f_mode f) = true →
  1 <= n <= MAX_SAFE_INTEGER → fl_transfers s = Some t → transfers_wf t → lease_of lid (VNum (NInt n)) false t = Ok l →
  let start := write_start f (fl_platform s) in
  ∃ r p' hs, file_write (VNum (NInt id)) (VNum (NInt n)) lid s = (r, moved p' hs (Some (release_lease lid t)) s) ∧
    (∃ c, mget id hs = Some (at_cursor f c)) ∧
    ∀ v, r = Ok v → v = RBytes n ∧ mget id hs = Some (at_cursor f (start + n)) ∧
      contents p' (f_access f) = overwrite start (view l t) (contents (fl_platform s) (f_access f)).
Proof.
  intros Hid Hf Hc Hw Hn Ht Hwf Hl start. unfold file_write. erewrite bind_run by (by apply openFile_run).
  cbv beta iota. rewrite Hw. erewrite bind_run by done. rewrite to_safe_int by lia.
  rewrite (proj2 (Z.ltb_ge n 0)) by lia. erewrite bind_run by done.
  erewrite bind_run by (unfold memoryLease; erewrite bind_run by done; cbn [get_transfers files_transfers]; rewrite Ht; unfold lift; by rewrite Hl).
  unfold try_finally. destruct (find_end_run s id f Hf) as (r1 & p1 & hs1 & E1 & Hcur & Hok). fold start in Hok.
  destruct r1 as [[]|e].
  2: { unfold mbind at 1, js_bind at 1. rewrite E1. exists (Throw e), p1, hs1. split; [|done].
       unfold releaseEffectLease, modify, moved. simpl. rewrite Ht. done. }
  erewrite bind_run by exact E1. destruct (Hok tt eq_refl) as (Ec & Hf1 & ->). clear Hok Hcur. rewrite Ht in *.
  match goal with |- context [moved p1 ?hs (Some t) s] => set (hs1 := hs) in * end. set (s1 := moved p1 hs1 (Some t) s) in *. set (f1 := at_cursor f start) in *.
  assert (0 <= start) as Hstart.
  { unfold start, write_start. destruct (md_appending _); [apply zlen_nonneg|done]. }
  pose proof (view_length _ _ _ _ _ Hwf Hl) as Hv.
  destruct (write_loop_run (Z.to_nat n) id (view l t) 0 n f1 s1) as (r2 & p2 & hs2 & E2 & (c & Hc2) & Hok2); [done|done|lia..|].
  erewrite bind_run by (unfold lease_view; by erewrite bind_run by done). change (f_access f1) with (f_access f) in *.
  exists (match r2 with Ok v => Ok (RBytes v) | Throw e => Throw e end), p2, hs2. split; [|split; [by exists c|]].
  - unfold mbind at 1, js_bind at 1. rewrite E2. destruct r2; unfold mret, js_ret, releaseEffectLease, modify, moved, s1; simpl; done.
  - intros v. destruct r2 as [w|]; [|done]. intros [= <-]. destruct (Hok2 w eq_refl) as (-> & -> & Hp2). split; [done|].
    rewrite (proj2 (Z.ltb_lt 0 n)) in * by lia. split; [rewrite mget_mset_eq, Hv; done|]. rewrite Hp2. unfold s1. simpl. by rewrite Ec.
Qed.

Lemma file_seek_run s id f c :
  1 <= id <= MAX_SAFE_INTEGER → mget id (fl_handles s) = Some f → 0 <= c <= MAX_SAFE_INTEGER →
  file_seek (VNum (NInt id)) (VNum (NInt c)) (VNum (NInt 0)) s =
    (Ok (RPosition c), set_handles (mset id (at_cursor f c) (fl_handles s)) s).
Proof.
  intros Hid Hf Hc. unfold file_seek. erewrite bind_run by (by apply openFile_run). cbv beta iota.
  rewrite to_safe_int by done. cbn [Z.eqb negb orb]. erewrite bind_run by done. cbv zeta.
  rewrite Z.add_0_l, Z.max_r, (proj2 (Z.ltb_ge _ c)) by lia. by erewrite bind_run by (by apply set_cursor_run).
Qed.

(** A read into a whole lease: it throws or fills the lease with what the file holds, and gives it back. *)
Lemma file_read_run s id f n lid l t :
  1 <= id <= MAX_SAFE_INTEGER → mget id (fl_handles s) = Some f → 0 <= f_cursor f → md_readable (f_mode f) = true →
  1 <= n <= MAX_SAFE_INTEGER → fl_transfers s = Some t → transfers_wf t → lease_of lid (VNum (NInt n)) true t = Ok l →
  let filled := take (Z.to_nat n) (drop (Z.to_nat (f_cursor f)) (contents (fl_platform s) (f_access f))) in
  ∃ r p' hs t', file_read (VNum (NInt id)) (VNum (NInt n)) lid s = (r, moved p' hs (Some (release_lease lid t')) s) ∧
    t_leases t' = t_leases t ∧ ∀ v, r = Ok v → v = RBytes (zlen filled) ∧ view_set l 0 filled t = Ok t'.
Proof.
  intros Hid Hf Hc Hr Hn Ht Hwf Hl filled. unfold file_read. erewrite bind_run by (by apply openFile_run).
  cbv beta iota. rewrite Hr. erewrite bind_run by done. rewrite to_safe_int by lia.
  rewrite (proj2 (Z.ltb_ge n 1)) by lia. erewrite bind_run by done.
  erewrite bind_run by (unfold memoryLease; erewrite bind_run by done; cbn [get_transfers files_transfers]; rewrite Ht; unfold lift; by rewrite Hl).
  assert (l_bytes l = n) as Hb by (apply lease_of_Ok in Hl as (? & _ & _ & _ & _ & H); auto).
  assert (0 <= zlen filled <= n) as Hlen.
  { unfold filled, zlen. rewrite length_take. lia. }
  unfold try_finally. erewrite bind_run by (by apply get_cursor_run). rewrite Hb.
  destruct (fs_read (f_access f) n (f_cursor f) (fl_platform s)) as [[[e m]|[v got]] p1] eqn:E.
  { exists (Throw m), p1, (fl_handles s), t. split; [|done]. unfold must, call, mbind, js_bind. rewrite E. simpl.
    unfold throw, releaseEffectLease, modify, moved. simpl. by rewrite Ht. }
  pose proof E as [Hgot ->]%(law_read (contents:=contents)); [|lia|done]. fold filled in Hgot. subst got.
  assert (∃ t', view_set l 0 filled t = Ok t' ∧ t_leases t' = t_leases t) as (t' & Et & Hls).
  { unfold view_set. rewrite (proj2 (Z.ltb_ge (l_bytes l) _)) by lia. by eexists. }
  exists (Ok (RBytes (zlen filled))), p1, (mset id (at_cursor f (f_cursor f + zlen filled)) (fl_handles s)), t'. split; [|split; [done|by intros v [= <-]]].
  erewrite bind_run by (unfold must, call, mbind, js_bind; by rewrite E). cbv beta iota.
  erewrite bind_run.
  2: { unfold lease_set. erewrite bind_run by done. cbn [get_transfers files_transfers set_platform fl_transfers]. rewrite Ht.
       erewrite bind_run by (unfold lift; by rewrite Et). done. }
  rewrite to_safe_int by lia. rewrite (proj2 (Z.ltb_ge _ 0)), (proj2 (Z.ltb_ge n _)) by lia. cbn [orb].
  by erewrite bind_run by (by apply (set_cursor_run id _ f)).
Qed.
End Moves.

(** ** Properties *)

Lemma perform_cons {P} `{!Opfs P} e es (s : files P) r rs s1 s2 :
  performFilesEffectNow e s = (r, s1) → performFilesEffects es s1 = (Ok rs, s2) →
  performFilesEffects (e :: es) s = (Ok (r :: rs), s2).
Proof. intros E1 E2. cbn [performFilesEffects]. unfold mbind, js_bind. by rewrite E1, E2. Qed.

(** A platform for witnesses: files in memory, at most two bytes a write. *)
Definition memory_fs : Type := jmap Z (list byte).
Definition memory_contents (p : memory_fs) (a : Z) : list byte := default [] (mget a p).
#[export] Instance memory_opfs : Opfs memory_fs := {
  fs_getDirectory p := (inr 0, p);
  fs_getDirectoryHandle d _ _ p := (inr (d + 1), p);
  fs_getFileHandle d _ _ p := (inr (10 + d), p);
  fs_syncAccess := true;
  fs_createSyncAccessHandle f p := (inr f, p);
  fs_getFile f p := (inr (zlen (memory_contents p f), 0), p);
  fs_removeEntry _ _ _ p := (inr tt, p);
  fs_entries _ p := (inr [], p);
  fs_truncate a _ p := (inr tt, mset a [] p);
  fs_close _ p := (inr tt, p);
  fs_flush _ p := (inr tt, p);
  fs_getSize a p := (inr (VNum (NInt (zlen (memory_contents p a)))), p);
  fs_read a n at_ p :=
    let filled := take (Z.to_nat n) (drop (Z.to_nat at_) (memory_contents p a)) in
    (inr (VNum (NInt (zlen filled)), filled), p);
  fs_write a data at_ p :=
    let piece := take 2 data in
    (inr (VNum (NInt (zlen piece))), mset a (overwrite at_ piece (memory_contents p a)) p);
  fs_persist p := (inr (VBool true), p)
}.

#[export] Instance memory_laws : OpfsLaws memory_fs memory_contents.
Proof.
  split.
  - by intros a p v p' [= <- <-].
  - intros a data at_ p v p' Hd _ [= <- <-]. exists (zlen (take 2 data)). split; [done|].
    assert (1 <= zlen (take 2 data) <= zlen data) as Hl.
    { unfold zlen. rewrite length_take. destruct data; [done|]. cbn [length]. lia. }
    split; [lia|]. unfold memory_contents. rewrite mget_mset_eq.
    assert (take (Z.to_nat (zlen (take 2 data))) data = take 2 data) as ->; [|done].
    unfold zlen. rewrite Nat2Z.id, length_take. destruct (Nat.le_ge_cases 2 (length data)).
    + by rewrite Nat.min_l.
    + by rewrite Nat.min_r, !take_ge.
  - by intros a n at_ p v filled p' _ _ [= <- <- <-].
Qed.

Definition start_files {P} (p : P) (t : option transfers) : files P := filesState p true true false t.

Section Properties.
Context {P : Type} `{!Opfs P} (contents : P → Z → list byte) `{!OpfsLaws P contents}.
Implicit Types (s : files P).

(** Whatever file effects a run performs, in order and with any of them failing, all
    of them are answered and the handle table stays sound: handles are distinct positive
    numbers below the next one to be given, and no cursor is negative. *)
Theorem file_handles_invariant (p : P) t effects :
  ∃ replies s, performFilesEffects effects (start_files p t) = (Ok replies, s) ∧ length replies = length effects ∧
    NoDup (fl_handles s).*1 ∧
    ∀ id f, mget id (fl_handles s) = Some f → 1 <= id < fl_nextHandle s ∧ 0 <= f_cursor f.
Proof.
  assert (files_wf (start_files p t)) as Hw by (split; [constructor|done|done]).
  pose proof (preserves_files_effects contents effects _ Hw) as H.
  assert (∀ s, ∃ replies s', performFilesEffects effects s = (Ok replies, s') ∧ length replies = length effects) as Hrun.
  { clear. induction effects as [|e effects IH]; intros s; simpl; [by eexists [], s|].
    unfold mbind, js_bind. destruct (performFilesEffectNow e s) as [r s1].
    destruct (IH s1) as (replies & s2 & -> & Hl). eexists _, _. split; [done|]. simpl. by rewrite Hl. }
  destruct (Hrun (start_files p t)) as (replies & s & E & Hl). rewrite E in H. destruct H.
  exists replies, s. repeat (split; [done|]). auto.
Qed.

(** A write effect moves the guest's bytes into the file: however few bytes each platform write takes, when it
    does not throw it returns the whole count, the file holds the lease's bytes at the cursor (at the file's end for an
    appending handle) and the cursor stands after them; and the lease is given back either way. *)
Theorem file_write_stores s id f n lid l t :
  fl_available s = true → 1 <= id <= MAX_SAFE_INTEGER → mget id (fl_handles s) = Some f → 0 <= f_cursor f →
  md_writable (f_mode f) = true → 1 <= n <= MAX_SAFE_INTEGER → fl_transfers s = Some t → transfers_wf t →
  lease_of lid (VNum (NInt n)) false t = Ok l →
  let old := contents (fl_platform s) (f_access f) in
  let start := if md_appending (f_mode f) then zlen old else f_cursor f in
  ∃ r s', performFilesEffectNow (FWrite (VNum (NInt id)) (VNum (NInt n)) lid) s = (r, s') ∧
    fl_transfers s' = Some (release_lease lid t) ∧
    ∀ v, r = Ok v → v = RBytes n ∧ contents (fl_platform s') (f_access f) = overwrite start (view l t) old ∧
      mget id (fl_handles s') = Some (OpenFile (f_access f) (start + n) (f_mode f)).
Proof.
  intros Ha Hid Hf Hc Hw Hn Ht Hwf Hl old start.
  destruct (file_write_run contents s id f n lid l t) as (r & p' & hs & E & _ & Hok); [done|done|done|done|lia|done|done|done|].
  eexists r, _. unfold performFilesEffectNow. erewrite bind_run by done. rewrite Ha. split; [exact E|]. split; [done|].
  intros v Hv. destruct (Hok v Hv) as (-> & Hm & Hcont). done.
Qed.

(** C36 What is written is read back, for a handle that is open for reading and writing and does not append (modes [r+] and [w+]).  A guest
    writes a lease at the handle's cursor, seeks back to where it was and reads as many bytes into another lease.  Any call of
    the platform may fail.  Whatever fails, all three effects are answered, the seek succeeds, and both leases are given back; and when
    neither the write nor the read throws, each reports the whole count, however few bytes a platform write takes, and the second lease
    has the bytes of the first.  Of platform calls that succeed it is supposed that sizes, counts and bytes are what they say. *)
Theorem file_write_read_roundtrip s id f n lid1 l1 z2 l2 t :
  fl_available s = true → 1 <= id <= MAX_SAFE_INTEGER → mget id (fl_handles s) = Some f →
  0 <= f_cursor f <= MAX_SAFE_INTEGER → f_mode f = FileMode false true true true false ∨ f_mode f = FileMode true true true false false →
  1 <= n <= MAX_SAFE_INTEGER → fl_transfers s = Some t → transfers_wf t →
  lease_of lid1 (VNum (NInt n)) false t = Ok l1 → lease_of (VNum (NInt z2)) (VNum (NInt n)) true t = Ok l2 →
  lid1 ≠ VNum (NInt z2) →
  ∃ written read s' t', performFilesEffects
      [FWrite (VNum (NInt id)) (VNum (NInt n)) lid1; FSeek (VNum (NInt id)) (VNum (NInt (f_cursor f))) (VNum (NInt 0));
       FRead (VNum (NInt id)) (VNum (NInt n)) (VNum (NInt z2))] s =
      (Ok [written; Ok (RPosition (f_cursor f)); read], s') ∧
    fl_transfers s' = Some t' ∧
    is_ok (lease_of lid1 VUndef false t') = false ∧ is_ok (lease_of (VNum (NInt z2)) VUndef true t') = false ∧
    (is_ok written = true → is_ok read = true → written = Ok (RBytes n) ∧ read = Ok (RBytes n) ∧ view l2 t' = view l1 t).
Proof.
  intros Ha Hid Hf Hc Hm Hn Ht Hwf Hl1 Hl2 Hne.
  assert (md_writable (f_mode f) = true ∧ md_readable (f_mode f) = true ∧ md_appending (f_mode f) = false) as (Hw & Hr & Hap)
    by (by destruct Hm as [-> | ->]).
  destruct (file_write_run contents s id f n lid1 l1 t) as (r1 & p1 & hs1 & E1 & (c & Hf1) & Hok1); [done|done|lia|done|lia|done|done|done|].
  set (s1 := moved p1 hs1 _ s) in E1. set (f1 := at_cursor f c) in *. change (mget id (fl_handles s1) = Some f1) in Hf1.
  pose proof (file_seek_run s1 id f1 (f_cursor f) Hid Hf1 Hc) as E2. set (s2 := set_handles _ s1) in E2.
  set (f2 := at_cursor f1 (f_cursor f)) in *. assert (mget id (fl_handles s2) = Some f2) as Hf2 by apply mget_mset_eq.
  set (t1 := release_lease lid1 t) in *. assert (transfers_wf t1) as Hwf1 by (by apply wf_release).
  assert (lease_of (VNum (NInt z2)) (VNum (NInt n)) true t1 = Ok l2) as Hl2'.
  { unfold t1, release_lease, lease_of in *. destruct lid1 as [| | |[z1| | |]| |]; try done.
    destruct (get_lease (VNum (NInt z1)) t) as [e|]; [|done]. simpl. rewrite mget_mset_ne by congruence. done. }
  destruct (file_read_run contents s2 id f2 n (VNum (NInt z2)) l2 t1) as (r3 & p3 & hs3 & t3 & E3 & Hleases & Hok3);
    [done|done|simpl; lia|done|lia|done|done|done|].
  assert (∀ e s0 r s', fl_available s0 = true →
    match e with FWrite h n l => file_write h n l | FSeek h o w => file_seek h o w
               | FRead h n l => file_read h n l | _ => throw "" end s0 = (r, s') →
    match e with FWrite _ _ _ | FSeek _ _ _ | FRead _ _ _ => True | _ => False end → performFilesEffectNow e s0 = (r, s')) as Hnow.
  { intros e s0 r s' Ha0 H He. unfold performFilesEffectNow. erewrite bind_run by done. rewrite Ha0. by destruct e. }
  eexists r1, r3, _, (release_lease (VNum (NInt z2)) t3). split.
  { eapply perform_cons; [by apply Hnow|]. eapply perform_cons; [by apply Hnow|]. by eapply perform_cons; [by apply Hnow|]. }
  split; [done|]. split.
  { apply lease_stays_released. unfold lease_of, get_lease. rewrite Hleases. apply (lease_released lid1 VUndef false t). }
  split; [apply lease_released|].
  destruct r1 as [v1|]; [|done]. destruct r3 as [v3|]; [|done]. intros _ _.
  destruct (Hok1 v1 eq_refl) as (-> & _ & Hp1). destruct (Hok3 v3 eq_refl) as (-> & Hv).
  assert (view l1 t = take (Z.to_nat n) (drop (Z.to_nat (f_cursor f2)) (contents (fl_platform s2) (f_access f2)))) as Hfill.
  { simpl. change (f_access f2) with (f_access f). rewrite Hp1. unfold write_start. rewrite Hap.
    pose proof (view_length _ _ _ _ _ Hwf Hl1) as Hlen. replace (Z.to_nat n) with (length (view l1 t)) by (unfold zlen in Hlen; lia).
    by rewrite drop_overwrite by lia. }
  rewrite <- Hfill in *. pose proof (view_length _ _ _ _ _ Hwf Hl1) as Hlen. rewrite Hlen.
  assert (l_bytes l2 = n) as Hb by (apply lease_of_Ok in Hl2 as (? & _ & _ & _ & _ & H); auto).
  destruct (view_set_whole _ _ _ _ _ _ Hwf1 Hl2' Hv) as [Hview _]; [lia|].
  split; [done|]. split; [done|]. by rewrite view_release.
Qed.
End Properties.

(** A file effect that fails before it borrows its lease strands it: reading through a
    handle that is not open for reading throws with the lease still held, and the frame's
    transfer table then refuses to answer at all, so the run ends instead of the guest being
    told why its read failed. *)
Theorem failed_read_strands_lease {P} `{!Opfs P} (s : files P) id f count z l t :
  fl_available s = true → 1 <= id <= MAX_SAFE_INTEGER → mget id (fl_handles s) = Some f →
  md_readable (f_mode f) = false → fl_transfers s = Some t → mget z (t_leases t) = Some l → l_released l = false →
  performFilesEffectNow (FRead (VNum (NInt id)) count (VNum (NInt z))) s = (Throw "file is not open for reading", s) ∧
  response t = Throw "Browser operation retained a guest transfer lease".
Proof.
  intros Ha Hid Hf Hr Ht Hz Hl. split.
  - unfold performFilesEffectNow. erewrite bind_run by done. rewrite Ha. cbn [negb]. unfold file_read.
    erewrite bind_run by (by apply openFile_run). cbv beta iota. by rewrite Hr.
  - unfold response. by rewrite (response_retained _ _ _ z l).
Qed.

(** ** Witnesses *)

Definition demo_transfers : transfers :=
  Transfers [x61; x62; x63; x00; x00; x00] [(1, Lease 1 0 3 false false); (2, Lease 2 3 3 true false)].
Lemma demo_transfers_wf : transfers_wf demo_transfers.
Proof.
  split; [by apply (bool_decide_unpack _); vm_compute|]. unfold demo_transfers. simpl.
  repeat (econstructor; [done|done|done|]). constructor.
Qed.

(** A file opened for reading and writing, and one for writing only. *)
Definition demo_files : files memory_fs :=
  (performFilesEffects [FPath (VStr "data") (Some [VStr "data"; VStr "app"; VStr "f"]) (OpOpen (VStr "w+"));
                        FPath (VStr "data") (Some [VStr "data"; VStr "app"; VStr "g"]) (OpOpen (VStr "w"))]
     (start_files (P:=memory_fs) [] (Some demo_transfers))).2.

Lemma file_write_stores_witness :
  ∃ s', performFilesEffectNow (FWrite (VNum (NInt 2)) (VNum (NInt 3)) (VNum (NInt 1))) demo_files = (Ok (RBytes 3), s') ∧
    memory_contents (fl_platform s') 12 = [x61; x62; x63].
Proof.
  destruct (file_write_stores memory_contents demo_files 2 (OpenFile 12 0 (FileMode false false true true false)) 3
    (VNum (NInt 1)) (Lease 1 0 3 false false) demo_transfers) as (r & s' & H1 & _ & H2);
    [reflexivity|by vm_compute|reflexivity|by vm_compute|reflexivity|by vm_compute|reflexivity|apply demo_transfers_wf|reflexivity|].
  assert (r = Ok (RBytes 3)) as -> by (apply (f_equal fst) in H1; vm_compute in H1; by symmetry).
  exists s'. split; [exact H1|exact (proj1 (proj2 (H2 _ eq_refl)))].
Defined.

Lemma file_write_read_roundtrip_witness :
  ∃ s' t', fl_transfers (P:=memory_fs) s' = Some t' ∧ view (Lease 2 3 3 true false) t' = [x61; x62; x63].
Proof.
  destruct (file_write_read_roundtrip memory_contents demo_files 1 (OpenFile 12 0 (FileMode false true true true false)) 3
    (VNum (NInt 1)) (Lease 1 0 3 false false) 2 (Lease 2 3 3 true false) demo_transfers) as (w & r & s' & t' & H0 & H1 & _ & _ & H2);
    [reflexivity|by vm_compute|reflexivity|by vm_compute|by left|by vm_compute|reflexivity|apply demo_transfers_wf|
     reflexivity|reflexivity|by intros [=]|].
  exists s', t'. split; [exact H1|].
  assert (w = Ok (RBytes 3) ∧ r = Ok (RBytes 3)) as [-> ->] by (apply (f_equal fst) in H0; vm_compute in H0; by injection H0).
  exact (proj2 (proj2 (H2 eq_refl eq_refl))).
Defined.

(** A platform with no room left. *)
Definition full_opfs : Opfs memory_fs := {|
  fs_getDirectory := fs_getDirectory; fs_getDirectoryHandle := fs_getDirectoryHandle; fs_getFileHandle := fs_getFileHandle;
  fs_syncAccess := true; fs_createSyncAccessHandle := fs_createSyncAccessHandle; fs_getFile := fs_getFile; fs_removeEntry := fs_removeEntry;
  fs_entries := fs_entries; fs_truncate := fs_truncate; fs_close := fs_close; fs_flush := fs_flush; fs_getSize := fs_getSize; fs_read := fs_read;
  fs_write _ _ _ p := (inl ("QuotaExceededError", "no space"), p); fs_persist := fs_persist |}.
Lemma full_laws : @OpfsLaws memory_fs full_opfs memory_contents.
Proof.
  split; [exact (@law_getSize memory_fs memory_opfs memory_contents memory_laws)|done|].
  exact (@law_read memory_fs memory_opfs memory_contents memory_laws).
Qed.

Example write_without_room :
  (performFilesEffects (Opfs0:=full_opfs) [FWrite (VNum (NInt 1)) (VNum (NInt 3)) (VNum (NInt 1)); FSeek (VNum (NInt 1)) (VNum (NInt 0)) (VNum (NInt 0));
     FRead (VNum (NInt 1)) (VNum (NInt 3)) (VNum (NInt 2))] demo_files).1 = Ok [Throw "no space"; Ok (RPosition 0); Ok (RBytes 0)].
Proof. vm_compute. reflexivity. Qed.

Lemma failed_read_strands_lease_witness :
  performFilesEffectNow (FRead (VNum (NInt 2)) (VNum (NInt 3)) (VNum (NInt 2))) demo_files =
    (Throw "file is not open for reading", demo_files).
Proof.
  apply (failed_read_strands_lease demo_files 2 (OpenFile 12 0 (FileMode false false true true false)) (VNum (NInt 3)) 2
    (Lease 2 3 3 true false) demo_transfers);
    [reflexivity|by vm_compute|reflexivity|reflexivity|reflexivity|reflexivity|reflexivity].
Defined.

Lemma file_handles_invariant_witness :
  ∃ replies s, performFilesEffects [FPath (VStr "data") (Some [VStr "data"; VStr "app"; VStr "f"]) (OpOpen (VStr "w+"));
      FSeek (VNum (NInt 1)) (VNum (NInt (-5))) (VNum (NInt 1)); FClose (VNum (NInt 1)); FClose (VNum (NInt 1))]
    (start_files (P:=memory_fs) [] None) = (Ok replies, s) ∧ length replies = 4%nat.
Proof.
  destruct (file_handles_invariant (P:=memory_fs) memory_contents [] None
    [FPath (VStr "data") (Some [VStr "data"; VStr "app"; VStr "f"]) (OpOpen (VStr "w+"));
     FSeek (VNum (NInt 1)) (VNum (NInt (-5))) (VNum (NInt 1)); FClose (VNum (NInt 1)); FClose (VNum (NInt 1))])
    as (replies & s & H1 & H2 & _).
  exists replies, s. split; [exact H1|exact H2].
Defined.
