(* ===== verification/EffectHttp.v ===== *)
(** HTTP effects of [performHttpEffect] in [src/runtime/wasm/app-runtime.mjs].

    A request runs in two parts that touch the run's state: what comes before
    [fetch] is called, and what follows the last chunk of the response; other
    effects run in between.  What the network answers, and whether the run has
    been aborted by then, are arguments of the second part. *)

From S2P Require Import Prelude Transfers EffectLeases Base64 Wire EffectCodec.

(** ** State *)

Record saved_body := SavedBody { sb_chunks : list (list byte); sb_length : Z }.

Record http := Http {
  ht_bodies : jmap Z saved_body;
  ht_next : Z;
  ht_limits : effect_limits;
  ht_transfers : option transfers
}.

Definition set_bodies (bodies : jmap Z saved_body) (next : Z) (h : http) : http :=
  Http bodies next (ht_limits h) (ht_transfers h).
#[export] Instance http_transfers : HasTransfers http :=
  {| get_transfers := ht_transfers;
     put_transfers t h := Http (ht_bodies h) (ht_next h) (ht_limits h) t |}.

(** The fields of a request; a header is [None] when it is no array of two. *)
Record http_effect := HttpEffect {
  he_url : jsval;
  he_method : option string;
  he_headers : list (option (string * string));
  he_bodyLease : option jsval;
  he_bodyBase64 : option jsval;
  he_maxBytes : jsval;
  he_memoryResponse : bool
}.

(** What is handed to [fetch]. *)
Record http_request := HttpRequest {
  rq_url : string;
  rq_method : string;
  rq_headers : list (string * string);
  rq_body : option (list byte)
}.

(** What the network answers: a stream of chunks, whose [cancel] may fail, or one array. *)
Inductive http_content :=
| Stream (chunks : list (list byte)) (broken : option string) (cancel_fails : option string)
| Whole (bytes : list byte).

Record http_response := HttpResponse {
  rs_status : Z;
  rs_url : string;
  rs_headers : list (string * string);
  rs_contentLength : jsnum;
  rs_content : http_content
}.

Inductive http_reply :=
| HReleased (released : bool)
| HRead (bytes : Z)
| HSaved (status : Z) (url : string) (headers : list (string * string)) (body bodyBytes : Z)
| HBody (status : Z) (url : string) (headers : list (string * string)) (bodyBase64 : list byte).

(** ** Requests *)

Definition lower (b : byte) : byte :=
  let z := Z_of_byte b in if (0x41 <=? z) && (z <=? 0x5A) then byte_of_Z (z + 32) else b.

(** [/^https?:\/\//i]. *)
Definition is_http (url : string) : bool :=
  let text := lower <$> text_bytes url in
  bool_decide (take 7 text = text_bytes "http://") || bool_decide (take 8 text = text_bytes "https://").

(** The integer below a double that is none; for a negative one, a negative number. *)
Definition frac_floor (bits : Z) : Z :=
  let exponent := (bits / 2 ^ 52) mod 2048 in
  if 2 ^ 63 <=? bits then -1
  else if exponent =? 0 then 0
  else (2 ^ 52 + bits mod 2 ^ 52) / 2 ^ (1075 - exponent).

(** [Number.isFinite(declared) && declared > max]; [Headers.get] of no header counts as 0. *)
Definition declared_above (declared : jsnum) (max : Z) : bool :=
  match declared with
  | NInt z => max <? z
  | NFrac bits => max <=? frac_floor bits
  | NNaN | NInf _ => false
  end.

Section Http.
(** Whether the platform refuses a header, and the reason of an aborted run. *)
Context (append_fails : string * string → option string).

Fixpoint append_headers (headers : list (option (string * string))) : res (list (string * string)) :=
  match headers with
  | [] => Ok []
  | None :: _ => Throw "invalid browser HTTP header"
  | Some header :: headers' =>
      match append_fails header with
      | Some error => Throw error
      | None => rest ← append_headers headers'; mret (header :: rest)
      end
  end.

(** The request up to the call of [fetch]; a throw runs the [finally]. *)
Definition http_finally (effect : http_effect) : js http () :=
  match he_bodyLease effect with Some id => releaseEffectLease id | None => mret tt end.

Definition request_body (effect : http_effect) : js http (option (list byte)) :=
  match he_bodyLease effect with
  | Some id =>
      input ← memoryLease id VUndef false;
      limits ← gets ht_limits;
      guard_js (lm_maxEffectBytes limits <? l_bytes input) "browser HTTP request body exceeded the effect byte limit" ;;
      bytes ← lease_view input;
      mret (Some bytes)
  | None =>
      match he_bodyBase64 effect with
      | Some text => bytes ← lift (base64ToBytes text "HTTP request body"); mret (Some bytes)
      | None => mret None
      end
  end.

Definition http_begin (aborted : option string) (effect : http_effect) : js http http_request :=
  match he_url effect with
  | VStr url =>
      if negb (is_http url) then throw "browser HTTP effects require an absolute http or https URL" else
      match aborted with
      | Some reason => throw reason
      | None =>
          try_catch
            (headers ← lift (append_headers (he_headers effect));
             body ← request_body effect;
             mret (HttpRequest url (match he_method effect with None | Some "" => "GET" | Some m => m end) headers body))
            (λ error, http_finally effect ;; throw error)
      end
  | _ => throw "browser HTTP effects require an absolute http or https URL"
  end.

(** ** Responses *)

Definition max_bytes (effect : http_effect) (limits : effect_limits) : Z :=
  let protocolLimit := if he_memoryResponse effect then lm_maxResponseBytes limits
                       else lm_maxResponseBytes limits * 3 / 4 in
  match to_integer (he_maxBytes effect) with
  | Some n => if 0 <? n then Z.min n protocolLimit else protocolLimit
  | None => protocolLimit
  end.

Definition exceeded (maxBytes : Z) : string := "HTTP response exceeded maxBytes (" +:+ pretty maxBytes +:+ ")".

(** The loop over a stream: the chunks and their length. *)
Fixpoint read_stream (chunks : list (list byte)) (broken cancel_fails : option string) (maxBytes length : Z)
    : res (list (list byte) * Z) :=
  match chunks with
  | [] => match broken with Some error => Throw error | None => Ok ([], length) end
  | value :: chunks' =>
      let length := length + zlen value in
      if maxBytes <? length then Throw (default (exceeded maxBytes) cancel_fails)
      else '(rest, total) ← read_stream chunks' broken cancel_fails maxBytes length; mret (value :: rest, total)
  end.

Definition read_content (content : http_content) (maxBytes : Z) : res (list (list byte) * Z) :=
  match content with
  | Stream chunks broken cancel_fails => read_stream chunks broken cancel_fails maxBytes 0
  | Whole value => if maxBytes <? zlen value then Throw (exceeded maxBytes) else Ok ([value], zlen value)
  end.

(** The bytes that [options.httpBodies] retains. *)
Definition retained (bodies : jmap Z saved_body) : Z := sumZ (λ p, sb_length p.2) bodies.

(** [bytes.set(chunk, at); at += chunk.length] over the chunks. *)
Fixpoint set_chunks (chunks : list (list byte)) (at_ : Z) (bytes : list byte) : list byte * Z :=
  match chunks with
  | [] => (bytes, at_)
  | chunk :: chunks' => set_chunks chunks' (at_ + zlen chunk) (splice at_ chunk bytes)
  end.

(** The answer, once the response is read. *)
Definition http_answer (effect : http_effect) (request : http_request) (response : http_response)
    (chunks : list (list byte)) (length : Z) : js http http_reply :=
  let url := if bool_decide (rs_url response = "") then rq_url request else rs_url response in
  h ← gets (λ h, h);
  if he_memoryResponse effect then
    guard_js (lm_maxResponseBytes (ht_limits h) <? retained (ht_bodies h) + length)
      "browser HTTP retained bodies exceeded the byte limit" ;;
    let body := ht_next h + 1 in
    modify (set_bodies (mset body (SavedBody chunks length) (ht_bodies h)) body) ;;
    mret (HSaved (rs_status response) url (rs_headers response) body length)
  else
    mret (HBody (rs_status response) url (rs_headers response)
            (bytesToBase64 (set_chunks chunks 0 (replicate (Z.to_nat length) x00)).1)).

(** What follows [fetch]: [answer] is what the network gave, [aborted] the signal at the end. *)
Definition http_finish (effect : http_effect) (request : http_request) (answer : res http_response)
    (aborted : option string) : js http http_reply :=
  try_finally
    (response ← lift answer;
     limits ← gets ht_limits;
     let maxBytes := max_bytes effect limits in
     guard_js (declared_above (rs_contentLength response) maxBytes) (exceeded maxBytes) ;;
     '(chunks, length) ← lift (read_content (rs_content response) maxBytes);
     match aborted with
     | Some reason => throw reason
     | None => http_answer effect request response chunks length
     end)
    (http_finally effect).

(** ** Saved bodies *)

Definition get_body (body : jsval) (bodies : jmap Z saved_body) : option (Z * saved_body) :=
  match body with VNum (NInt z) => (λ b, (z, b)) <$> mget z bodies | _ => None end.

Definition release_body (body : jsval) : js http http_reply :=
  h ← gets (λ h, h);
  match get_body body (ht_bodies h) with
  | Some (z, _) => modify (set_bodies (mdelete z (ht_bodies h)) (ht_next h)) ;; mret (HReleased true)
  | None => mret (HReleased false)
  end.

Fixpoint write_chunks (chunks : list (list byte)) (l : lease) (at_ : Z) : js http Z :=
  match chunks with
  | [] => mret at_
  | chunk :: chunks' => lease_set l at_ chunk ;; write_chunks chunks' l (at_ + zlen chunk)
  end.

Definition read_body (body lease_ : jsval) (aborted : option string) : js http http_reply :=
  h ← gets (λ h, h);
  match get_body body (ht_bodies h) with
  | None => throw "browser HTTP body was released"
  | Some (z, saved) =>
      try_finally
        (match aborted with Some reason => throw reason | None => mret tt end ;;
         destination ← memoryLease lease_ (VNum (NInt (sb_length saved))) true;
         guard_js (negb (l_bytes destination =? sb_length saved)) "browser HTTP body lease has the wrong length" ;;
         at_ ← write_chunks (sb_chunks saved) destination 0;
         mret (HRead at_))
        (modify (λ h, set_bodies (mdelete z (ht_bodies h)) (ht_next h) h) ;;
         releaseEffectLease lease_)
  end.

(** ** Runs *)

(** The steps of HTTP effects, in any order: a request's first part, what follows its
    answer, and the two operations on bodies. *)
Inductive http_step :=
| StBegin (aborted : option string) (effect : http_effect)
| StFinish (effect : http_effect) (request : http_request) (answer : res http_response) (aborted : option string)
| StRelease (body : jsval)
| StRead (body lease_ : jsval) (aborted : option string).

Definition run_http_step (step : http_step) : js http () :=
  match step with
  | StBegin aborted effect => http_begin aborted effect ;; mret tt
  | StFinish effect request answer aborted => http_finish effect request answer aborted ;; mret tt
  | StRelease body => release_body body ;; mret tt
  | StRead body lease_ aborted => read_body body lease_ aborted ;; mret tt
  end.

Fixpoint run_http (steps : list http_step) (h : http) : http :=
  match steps with
  | [] => h
  | step :: steps' => run_http steps' (run_http_step step h).2
  end.
End Http.
