(* ===== verification/EffectHttpSpec.v ===== *)
(** Properties of HTTP effects: what a run retains, what a guest receives, and the
    leases of effects that fail. *)

From S2P Require Import Prelude Transfers EffectLeases Base64 Wire EffectCodec EffectHttp.

(** The bytes a response carries. *)
Definition content_bytes (content : http_content) : list byte :=
  match content with Stream chunks _ _ => concat chunks | Whole bytes => bytes end.

(** ** Reading a response *)

Lemma read_stream_ok chunks broken cancel m n chunks' n' :
  read_stream chunks broken cancel m n = Ok (chunks', n') →
  chunks' = chunks ∧ n' = n + zlen (concat chunks) ∧ (n <= m → n' <= m).
Proof.
  revert n chunks' n'. induction chunks as [|c chunks IH]; intros n chunks' n'; simpl.
  - destruct broken; [done|]. intros [= <- <-]. rewrite zlen_nil. split; [done|]. lia.
  - destruct (Z.ltb_spec m (n + zlen c)); [done|].
    destruct (read_stream _ _ _ _ _) as [[rest total]|] eqn:E; [|done]. intros [= <- <-].
    destruct (IH _ _ _ E) as (-> & -> & H'). rewrite zlen_app. split; [done|]. lia.
Qed.

Lemma read_content_ok content m chunks n :
  0 <= m → read_content content m = Ok (chunks, n) →
  concat chunks = content_bytes content ∧ n = zlen (content_bytes content) ∧ n <= m.
Proof.
  intros Hm. destruct content as [cs broken cancel|value]; simpl.
  - intros (-> & -> & H)%read_stream_ok. split; [done|]. lia.
  - destruct (Z.ltb_spec m (zlen value)); [done|]. intros [= <- <-]. simpl. rewrite app_nil_r. done.
Qed.

Lemma set_chunks_fill chunks at_ (pre rest : list byte) :
  zlen pre = at_ → zlen (concat chunks) <= zlen rest →
  set_chunks chunks at_ (pre ++ rest) = (pre ++ concat chunks ++ drop (length (concat chunks)) rest, at_ + zlen (concat chunks)).
Proof.
  revert at_ pre rest. induction chunks as [|c chunks IH]; intros at_ pre rest Hp Hl; simpl in *.
  { rewrite zlen_nil, Z.add_0_r. done. }
  rewrite zlen_app in Hl. rewrite <- Hp at 2. rewrite splice_after_prefix. rewrite IH.
  - rewrite <- !app_assoc, zlen_app, drop_drop, length_app. f_equal. lia.
  - rewrite zlen_app. lia.
  - unfold zlen in *. rewrite length_drop. lia.
Qed.

Lemma max_bytes_bound effect limits :
  0 <= lm_maxResponseBytes limits → 0 <= max_bytes effect limits <= lm_maxResponseBytes limits.
Proof.
  intros H. unfold max_bytes. assert (0 <= lm_maxResponseBytes limits * 3 / 4 <= lm_maxResponseBytes limits) as H'.
  { split; [apply Z.div_pos; lia|]. apply Z.div_le_upper_bound; lia. }
  destruct (he_memoryResponse effect), (to_integer (he_maxBytes effect)) as [n|];
    try destruct (Z.ltb_spec 0 n); lia.
Qed.

(** ** What a run retains *)

Record http_wf (h : http) : Prop := {
  hw_keys : NoDup (ht_bodies h).*1;
  hw_bodies : ∀ id b, mget id (ht_bodies h) = Some b → id <= ht_next h ∧ sb_length b = zlen (concat (sb_chunks b));
  hw_limit : 0 <= lm_maxResponseBytes (ht_limits h);
  hw_retained : retained (ht_bodies h) <= lm_maxResponseBytes (ht_limits h)
}.

Lemma wf_transfers t h : http_wf h → http_wf (put_transfers t h).
Proof. by intros []. Qed.

Lemma wf_delete_body z h : http_wf h → http_wf (set_bodies (mdelete z (ht_bodies h)) (ht_next h) h).
Proof.
  intros []. split; simpl; [by apply NoDup_mdelete| |done|].
  - intros id b H. apply hw_bodies0. destruct (decide (z = id)) as [->|Hne].
    + by rewrite mget_mdelete_eq in H.
    + by rewrite mget_mdelete_ne in H.
  - destruct (mget z (ht_bodies h)) as [b|] eqn:E.
    + unfold retained in *. rewrite (sumZ_mdelete _ z b) by done. destruct (hw_bodies0 z b E) as [_ Hl].
      simpl. pose proof (zlen_nonneg (concat (sb_chunks b))). lia.
    + by rewrite mdelete_absent.
Qed.

Lemma wf_save_body chunks n h :
  http_wf h → n = zlen (concat chunks) → retained (ht_bodies h) + n <= lm_maxResponseBytes (ht_limits h) →
  http_wf (set_bodies (mset (ht_next h + 1) (SavedBody chunks n) (ht_bodies h)) (ht_next h + 1) h).
Proof.
  intros [] Hn Hr. assert (mget (ht_next h + 1) (ht_bodies h) = None) as Hnew.
  { destruct (mget _ _) as [b|] eqn:E; [|done]. destruct (hw_bodies0 _ _ E). lia. }
  split; simpl; [by apply NoDup_mset| |done|].
  - intros id b [[-> ->]|[_ H]]%mget_mset_Some; [simpl; split; [lia|done]|]. destruct (hw_bodies0 _ _ H). split; [lia|done].
  - unfold retained in *. rewrite sumZ_mset_absent by done. simpl. lia.
Qed.

Section Invariant.
Context (append_fails : string * string → option string).

Lemma preserves_release id : preserves http_wf (releaseEffectLease (S:=http) id).
Proof. apply preserves_modify. intros h. apply wf_transfers. Qed.
Lemma preserves_lease id n w : preserves http_wf (memoryLease (S:=http) id n w).
Proof. unfold memoryLease. preserve. Qed.
Lemma preserves_view l : preserves http_wf (lease_view (S:=http) l).
Proof. unfold lease_view. preserve. Qed.
Lemma preserves_lease_write l n bs : preserves http_wf (lease_set (S:=http) l n bs).
Proof. unfold lease_set. preserve. apply preserves_modify. intros h. apply wf_transfers. Qed.
#[local] Hint Resolve preserves_release preserves_lease preserves_view preserves_lease_write : jsinv.

Lemma preserves_finally effect : preserves http_wf (http_finally effect).
Proof. unfold http_finally. preserve. Qed.
#[local] Hint Resolve preserves_finally : jsinv.

Lemma preserves_begin aborted effect : preserves http_wf (http_begin append_fails aborted effect).
Proof. unfold http_begin, request_body. preserve. Qed.

Lemma preserves_finish effect request answer aborted : preserves http_wf (http_finish effect request answer aborted).
Proof.
  unfold http_finish. apply preserves_try_finally; [|preserve]. apply preserves_bind; [preserve|]. intros response h Hh.
  erewrite bind_run by done. set (m := max_bytes effect (ht_limits h)).
  pose proof (max_bytes_bound effect (ht_limits h) (hw_limit _ Hh)) as Hm. fold m in Hm.
  destruct (declared_above _ m); [done|]. erewrite bind_run by done.
  destruct (read_content (rs_content response) m) as [[chunks n]|] eqn:E; [|done].
  apply read_content_ok in E as (Hc & Hn & Hle); [|lia]. erewrite bind_run by done. cbv beta iota.
  destruct aborted; [done|]. unfold http_answer. erewrite bind_run by done. destruct (he_memoryResponse effect); [|done].
  destruct (Z.ltb_spec (lm_maxResponseBytes (ht_limits h)) (retained (ht_bodies h) + n)); [done|].
  erewrite bind_run by done. erewrite bind_run by done. apply wf_save_body; [done|by rewrite Hc|done].
Qed.

Lemma preserves_body_ops body lid aborted :
  preserves http_wf (release_body body) ∧ preserves http_wf (read_body body lid aborted).
Proof.
  split.
  - intros h Hh. unfold release_body. erewrite bind_run by done. destruct (get_body _ _) as [[z b]|]; [|done].
    erewrite bind_run by done. by apply wf_delete_body.
  - unfold read_body. apply preserves_bind; [preserve|]. intros h. destruct (get_body _ _) as [[z b]|]; [|preserve].
    apply preserves_try_finally.
    + do 3 (apply preserves_bind; [preserve|intros ?]). apply preserves_bind; [|preserve].
      generalize 0. induction (sb_chunks b) as [|c cs IH]; intros n; simpl; preserve.
    + apply preserves_bind; [|preserve]. apply preserves_modify. intros h'. apply wf_delete_body.
Qed.

Lemma preserves_http_step step : preserves http_wf (run_http_step append_fails step).
Proof.
  destruct step; simpl; (apply preserves_bind; [|preserve]).
  - apply preserves_begin.
  - apply preserves_finish.
  - by apply (preserves_body_ops _ VUndef None).
  - by apply preserves_body_ops.
Qed.

Lemma wf_run_http steps h : http_wf h → http_wf (run_http append_fails steps h).
Proof.
  revert h. induction steps as [|step steps IH]; intros h Hh; simpl; [done|]. by apply IH, preserves_http_step.
Qed.
End Invariant.

(** ** What a guest receives *)

Lemma write_chunks_run chunks l z at_ (pre rest : list byte) t h :
  ht_transfers h = Some t → transfers_wf t → mget z (t_leases t) = Some l → view l t = pre ++ rest → zlen pre = at_ →
  zlen (concat chunks) = zlen rest → zlen (view l t) = l_bytes l →
  ∃ t', write_chunks chunks l at_ h = (Ok (at_ + zlen rest), put_transfers (Some t') h) ∧
    view l t' = pre ++ concat chunks ∧ t_leases t' = t_leases t.
Proof.
  revert at_ pre rest t h. induction chunks as [|c chunks IH]; intros at_ pre rest t h Ht Hwf Hz Hv Hp Hl Hb; simpl in *.
  { exists t. destruct rest; [|unfold zlen in Hl; simpl in Hl; lia]. split; [|done].
    rewrite zlen_nil, Z.add_0_r. destruct h; simpl in *. by subst. }
  rewrite zlen_app in Hl. pose proof (zlen_nonneg c). pose proof (zlen_nonneg (concat chunks)). pose proof (zlen_nonneg pre).
  assert (zlen (view l t) = zlen pre + zlen rest) as Hvl by (by rewrite Hv, zlen_app).
  destruct (view_set_run z l at_ c t) as (t1 & E1 & Hv1 & Hwf1 & Hl1); [done|done|lia|lia|].
  erewrite bind_run.
  2: { unfold lease_set. erewrite bind_run by done. cbn [get_transfers http_transfers]. rewrite Ht.
       by erewrite bind_run by (unfold lift; by rewrite E1). }
  rewrite Hv in Hv1. rewrite <- Hp, splice_after_prefix in Hv1.
  destruct (IH (at_ + zlen c) (pre ++ c) (drop (length c) rest) t1 (put_transfers (Some t1) h)) as (t' & E & Hv' & Hl');
    [done|done|congruence|done|rewrite zlen_app; lia| | |].
  - unfold zlen in *. rewrite length_drop. lia.
  - rewrite Hv1, !zlen_app. unfold zlen in *. rewrite length_drop. lia.
  - exists t'. split; [|split; [by rewrite Hv', app_assoc|congruence]].
    cbn [put_transfers http_transfers] in *. rewrite E. f_equal. f_equal. unfold zlen in *. rewrite length_drop. lia.
Qed.

(** Reading a kept body into a lease of its length. *)
Lemma read_body_run body z l chunks n t h :
  ht_transfers h = Some t → transfers_wf t → mget body (ht_bodies h) = Some (SavedBody chunks n) →
  n = zlen (concat chunks) → lease_of (VNum (NInt z)) (VNum (NInt n)) true t = Ok l →
  ∃ t2, read_body (VNum (NInt body)) (VNum (NInt z)) None h =
      (Ok (HRead n), put_transfers (Some (release_lease (VNum (NInt z)) t2))
                       (set_bodies (mdelete body (ht_bodies h)) (ht_next h) h)) ∧
    view l t2 = concat chunks ∧ t_leases t2 = t_leases t.
Proof.
  intros Ht Hwf Hg Hn Hl. pose proof (view_length _ _ _ _ _ Hwf Hl) as Hv.
  pose proof Hl as (z' & [= <-] & Hz & _ & _ & Hb)%lease_of_Ok. specialize (Hb n eq_refl).
  destruct (write_chunks_run chunks l z 0 [] (view l t) t h) as (t2 & E & Hv2 & Hl2); [done..|lia|lia|].
  exists t2. split; [|done]. unfold read_body. erewrite bind_run by done.
  cbn [get_body]. rewrite Hg. cbn [fmap option_fmap option_map sb_length sb_chunks].
  eapply finally_run.
  - erewrite bind_run by done.
    erewrite bind_run by (unfold memoryLease; erewrite bind_run by done; cbn [get_transfers http_transfers]; rewrite Ht; unfold lift; by rewrite Hl).
    rewrite Hb, Z.eqb_refl. erewrite bind_run by done. erewrite bind_run by exact E. by rewrite Z.add_0_l, Hv.
  - by erewrite bind_run by done.
Qed.

(** A finished request that is kept or inlined. *)
Lemma http_finish_ok effect request response aborted h reply h1 :
  0 <= lm_maxResponseBytes (ht_limits h) →
  http_finish effect request (Ok response) aborted h = (Ok reply, h1) →
  let m := max_bytes effect (ht_limits h) in
  ∃ chunks n, concat chunks = content_bytes (rs_content response) ∧ n = zlen (concat chunks) ∧ n <= m ∧
    ∃ h0, http_answer effect request response chunks n h = (Ok reply, h0) ∧ h1 = (http_finally effect h0).2.
Proof.
  intros Hm H m. apply finally_Ok in H as (h0 & E & Ef).
  apply bind_Ok in E as (response' & ? & [= <- <-] & E). apply bind_Ok in E as (limits & ? & [= <- <-] & E). fold m in E.
  apply bind_Ok in E as (? & ? & (_ & ->)%guard_Ok & E). apply bind_Ok in E as ([chunks n] & ? & Hr & E).
  unfold lift in Hr. injection Hr as Hr <-. pose proof (max_bytes_bound effect (ht_limits h) Hm).
  apply read_content_ok in Hr as (Hc & Hn & Hle); [|unfold m; lia]. destruct aborted; [done|].
  exists chunks, n. split; [done|]. split; [by rewrite Hc|]. split; [done|]. exists h0. split; [done|]. by rewrite Ef.
Qed.

(** ** Properties *)

(** However requests, answers, reads and releases interleave, and whatever the network
    sends, the response bodies a run keeps for its guest never hold more bytes together than
    the response limit, and each is kept under its own number with its exact length. *)
Theorem http_retention_bounded append_fails steps limits t :
  0 <= lm_maxResponseBytes limits →
  let h := run_http append_fails steps (Http [] 0 limits t) in
  retained (ht_bodies h) <= lm_maxResponseBytes (ht_limits h) ∧ NoDup (ht_bodies h).*1 ∧
  ∀ id b, mget id (ht_bodies h) = Some b → id <= ht_next h ∧ sb_length b = zlen (concat (sb_chunks b)).
Proof.
  intros Hl h. assert (http_wf h) as []; [|done]. apply wf_run_http. split; simpl; [constructor|done|done|].
  unfold retained. simpl. lia.
Qed.

(** A response within its limit reaches the guest whole: inline, its text decodes to
    exactly the bytes the network sent; kept, its number holds them, and reading it into a
    writable lease of the announced length fills that lease with them, frees the body and
    gives the lease back. *)
Theorem http_delivers_response effect request response h reply h1 :
  http_wf h → http_finish effect request (Ok response) None h = (Ok reply, h1) →
  let sent := content_bytes (rs_content response) in
  zlen sent <= max_bytes effect (ht_limits h) ∧
  match reply with
  | HBody _ _ _ text => base64ToBytes (VStr (bytes_text text)) "" = Ok sent
  | HSaved _ _ _ body n =>
      n = zlen sent ∧
      ∀ t z l, transfers_wf t → lease_of (VNum (NInt z)) (VNum (NInt n)) true t = Ok l →
      ∃ h2 t2, read_body (VNum (NInt body)) (VNum (NInt z)) None (put_transfers (Some t) h1) = (Ok (HRead n), h2) ∧
        ht_transfers h2 = Some t2 ∧ view l t2 = sent ∧ is_ok (lease_of (VNum (NInt z)) VUndef true t2) = false ∧
        mget body (ht_bodies h2) = None
  | _ => False
  end.
Proof.
  intros Hw H sent. pose proof (hw_limit _ Hw) as Hlim.
  destruct (http_finish_ok _ _ _ _ _ _ _ Hlim H) as (chunks & n & Hc & Hn & Hle & h0 & Ha & ->).
  fold sent in Hc. rewrite Hc in Hn. split; [lia|]. unfold http_answer in Ha. erewrite bind_run in Ha by done.
  destruct (he_memoryResponse effect).
  - apply bind_Ok in Ha as (? & ? & (_ & ->)%guard_Ok & Ha). erewrite bind_run in Ha by done. injection Ha as <- <-.
    split; [done|]. intros t z l Hwf Hl. set (body := ht_next h + 1).
    match goal with |- context [put_transfers (Some t) (http_finally effect ?q).2] => set (h0 := q) end.
    set (h1 := put_transfers (Some t) (http_finally effect h0).2).
    assert (ht_bodies h1 = ht_bodies h0) as Eb by (unfold h1, http_finally; by destruct (he_bodyLease effect)).
    destruct (read_body_run body z l chunks n t h1) as (t2 & E & Hv & Hls); [done|done| |by rewrite Hc|done|].
    { rewrite Eb. apply mget_mset_eq. }
    eexists _, _. split; [exact E|]. split; [done|]. split; [by rewrite view_release, Hv|].
    split; [apply lease_released|]. simpl. apply mget_mdelete_eq.
  - injection Ha as <- <-. rewrite <- (app_nil_l (replicate _ _)), set_chunks_fill; [|done|].
    + simpl. rewrite Hc, drop_ge, app_nil_r by (rewrite length_replicate; unfold zlen in *; lia).
      apply (base64_read_back sent "").
    + unfold zlen in *. rewrite length_replicate, Hc. lia.
Qed.

(** Reading a body the run no longer keeps strands the lease of the read: the effect
    throws before anything gives the lease back, and the frame's transfer table then refuses
    to answer at all; the same holds of a request with a body lease and no usable URL. *)
Theorem http_failure_strands_lease append_fails effect url aborted body z l t h :
  ht_transfers h = Some t → mget z (t_leases t) = Some l → l_released l = false →
  get_body body (ht_bodies h) = None →
  he_bodyLease effect = Some (VNum (NInt z)) → he_url effect = VStr url → is_http url = false →
  read_body body (VNum (NInt z)) aborted h = (Throw "browser HTTP body was released", h) ∧
  http_begin append_fails aborted effect h =
    (Throw "browser HTTP effects require an absolute http or https URL", h) ∧
  response t = Throw "Browser operation retained a guest transfer lease".
Proof.
  intros Ht Hz Hl Hb _ Hu Hhttp. split; [|split].
  - unfold read_body. erewrite bind_run by done. by rewrite Hb.
  - unfold http_begin. by rewrite Hu, Hhttp.
  - unfold response. by rewrite (response_retained _ _ _ z l).
Qed.

(** ** Witnesses *)

Definition demo_http : http := Http [] 0 (Limits 4 64 8) None.
Definition demo_get (memory : bool) : http_effect := HttpEffect (VStr "HTTPS://h/") None [] None None VUndef memory.
Definition demo_request : http_request := HttpRequest "HTTPS://h/" "GET" [] None.
Definition demo_response : http_response := HttpResponse 200 "" [] (NInt 0) (Stream [[x01; x02]; []; [x03]] None None).

Lemma http_retention_bounded_witness :
  let h := run_http (λ _, None) [StFinish (demo_get true) demo_request (Ok demo_response) None;
    StFinish (demo_get true) demo_request (Ok demo_response) None;
    StFinish (demo_get true) demo_request (Ok demo_response) None] demo_http in
  retained (ht_bodies h) = 6 ∧ retained (ht_bodies h) <= 8.
Proof.
  split; [by vm_compute|].
  destruct (http_retention_bounded (λ _, None) [StFinish (demo_get true) demo_request (Ok demo_response) None;
    StFinish (demo_get true) demo_request (Ok demo_response) None;
    StFinish (demo_get true) demo_request (Ok demo_response) None] (Limits 4 64 8) None) as [H _]; [by vm_compute|].
  exact H.
Defined.

Lemma demo_http_wf : http_wf demo_http.
Proof. split; [constructor|done|by vm_compute|by vm_compute]. Qed.

Lemma http_delivers_response_witness :
  zlen (content_bytes (rs_content demo_response)) <= max_bytes (demo_get true) (ht_limits demo_http).
Proof.
  apply (http_delivers_response (demo_get true) demo_request demo_response demo_http
    (HSaved 200 "HTTPS://h/" [] 1 3) (http_finish (demo_get true) demo_request (Ok demo_response) None demo_http).2 demo_http_wf).
  reflexivity.
Defined.

Lemma http_failure_strands_lease_witness :
  read_body (VNum (NInt 1)) (VNum (NInt 2)) None
    (put_transfers (Some (Transfers [x00] [(2, Lease 2 0 1 true false)])) demo_http) =
  (Throw "browser HTTP body was released", put_transfers (Some (Transfers [x00] [(2, Lease 2 0 1 true false)])) demo_http).
Proof.
  apply (http_failure_strands_lease (λ _, None) (HttpEffect (VStr "ftp://x") None [] (Some (VNum (NInt 2))) None VUndef false)
    "ftp://x" None (VNum (NInt 1)) 2 (Lease 2 0 1 true false) (Transfers [x00] [(2, Lease 2 0 1 true false)])
    (put_transfers (Some (Transfers [x00] [(2, Lease 2 0 1 true false)])) demo_http)); reflexivity.
Defined.
