(* ===== verification/EffectFrame.v ===== *)
(** Frames of effects: [handleBrowserEffects] of [src/runtime/wasm/app-runtime.mjs].

    A guest yields one frame at a time and waits for its answer.  The effects a frame
    carries settle in their own time; those bound to the frame hold its answer, the
    others are detached and answered with the frame they have settled by.  The model
    gives every effect it starts a number, so that an answer can be traced to it, and
    is driven by events: a frame arrives, an effect settles, the waiting code resumes,
    a turn of the event loop passes, the host channel reports. *)

From S2P Require Import Prelude.

(** ** Effects and responses *)

(** The fields of an effect that say what it is and whether it lends the frame's bytes. *)
Record effect := Effect {
  ef_id : jsval;
  ef_kind : string;
  ef_op : string;
  ef_lease : bool;
  ef_bodyLease : bool;
  ef_resultLease : bool;
  ef_spans : bool
}.

Record response := Response { rp_id : jsval; rp_result : res string }.

Definition isHostFrame (e : effect) : bool := bool_decide (ef_kind e = "host") && bool_decide (ef_op e = "x").

Definition hostEffectBoundToFrame (e : effect) : bool :=
  bool_decide (ef_op e = "fetch") || bool_decide (ef_op e = "upload").

Definition boundToFrame (e : effect) : bool :=
  if bool_decide (ef_kind e = "host") then hostEffectBoundToFrame e
  else ef_lease e || ef_bodyLease e || ef_resultLease e || ef_spans e.

Definition KINDS : list string :=
  ["http"; "files"; "time"; "random"; "system"; "sha256"; "hmac-sha256"; "gpu"; "host"].

(** [performEffect]: what its promise resolves to, where [outcome] is what the handler of
    the effect's kind came to; it never rejects. *)
Definition performEffect (supplied : string → bool) (e : effect) (outcome : res string) : response :=
  match to_integer (ef_id e) with
  | Some id =>
      if id <? 1 then Response (ef_id e) (Throw "browser effect id is invalid")
      else if supplied (ef_kind e) || bool_decide (ef_kind e ∈ KINDS) then Response (ef_id e) outcome
      else Response (ef_id e) (Throw ("unsupported browser effect " +:+ ef_kind e))
  | None => Response (ef_id e) (Throw "browser effect id is invalid")
  end.

(** ** Packing an answer *)

Definition RESPONSE_TEXT_BUDGET : Z := 896 * 1024.

Section Packing.
(** [JSON.stringify(response).length]. *)
Context {A : Type} (json : A → Z).

(** The loop of [packedResponses]: how many settled responses it takes. *)
Fixpoint pack_count (any_held : bool) (settled : list A) (used : Z) : nat :=
  match settled with
  | [] => 0%nat
  | r :: settled' =>
      let size := json r + 1 in
      if (RESPONSE_TEXT_BUDGET <? used + size) && any_held then 0%nat
      else S (pack_count any_held settled' (used + size))
  end.

(** The answer and what stays settled. *)
Definition packedResponses (held settled : list A) : list A * list A :=
  let used := foldl (λ total r, total + json r + 1) 64 held in
  let taken := pack_count (negb (bool_decide (held = []))) settled used in
  (held ++ take taken settled, drop taken settled).
End Packing.

(** ** The host channel, as frames see it *)

(** A host frame is read when its frame begins and answered when its frame is. *)
Class HostFrames (H E : Type) := {
  hf_begin : E → js H ();
  hf_finish : E → js H string;
  hf_ready : H → bool;
  hf_waitable : H → bool;
  hf_notify : bool → H → H
}.

(** ** State *)

Inductive wake_mode := WakeAny | WakeTurn.
#[export] Instance wake_mode_eq_dec : EqDecision wake_mode.
Proof. solve_decision. Defined.

(** What the code of a frame waits for: its held effects, a wake (of the host channel
    too, if it may report), or a turn of the event loop. *)
Inductive phase := PHeld | PWake (host : bool) | PTurn.

Record frame (E : Type) := Frame {
  fr_wake : option wake_mode;
  fr_poll : bool;
  fr_held : list (Z * effect * option response);
  fr_hosts : list (Z * jsval * E);
  fr_phase : phase
}.
Arguments Frame {E}.
Arguments fr_wake {E}.
Arguments fr_poll {E}.
Arguments fr_held {E}.
Arguments fr_hosts {E}.
Arguments fr_phase {E}.

Record frames (H E : Type) := Frames {
  fm_pending : jmap Z effect;
  fm_settled : list (Z * response);
  fm_wake : bool;
  fm_next : Z;
  fm_current : option (frame E);
  fm_failed : bool;
  fm_host : H;
  fm_answers : list (list (Z * response));
  fm_started : list (Z * jsval)
}.
Arguments Frames {H E}.
Arguments fm_pending {H E}.
Arguments fm_settled {H E}.
Arguments fm_wake {H E}.
Arguments fm_next {H E}.
Arguments fm_current {H E}.
Arguments fm_failed {H E}.
Arguments fm_host {H E}.
Arguments fm_answers {H E}.
Arguments fm_started {H E}.

(** A message of the guest; each request with what the host channel reads of it, if it is a host frame. *)
Record message (E : Type) := Message {
  ms_wake : jsval;
  ms_kind : jsval;
  ms_requests : option (list (effect * E))
}.
Arguments Message {E}.
Arguments ms_wake {E}.
Arguments ms_kind {E}.
Arguments ms_requests {E}.

Section Frames.
Context {H E : Type} `{!HostFrames H E} (json : Z * response → Z) (supplied : string → bool) (maxEffects : Z).
Implicit Types (s : frames H E) (f : frame E).

Definition set_effects (pending : jmap Z effect) (settled : list (Z * response)) s : frames H E :=
  Frames pending settled (fm_wake s) (fm_next s) (fm_current s) (fm_failed s) (fm_host s) (fm_answers s) (fm_started s).
Definition start_effect (e : effect) s : frames H E :=
  Frames (fm_pending s) (fm_settled s) (fm_wake s) (fm_next s + 1) (fm_current s) (fm_failed s) (fm_host s) (fm_answers s)
    (fm_started s ++ [(fm_next s, ef_id e)]).
Definition set_wake (wake : bool) s : frames H E :=
  Frames (fm_pending s) (fm_settled s) wake (fm_next s) (fm_current s) (fm_failed s) (fm_host s) (fm_answers s) (fm_started s).
Definition set_current (current : option (frame E)) s : frames H E :=
  Frames (fm_pending s) (fm_settled s) (fm_wake s) (fm_next s) current (fm_failed s) (fm_host s) (fm_answers s) (fm_started s).
Definition set_failed s : frames H E :=
  Frames (fm_pending s) (fm_settled s) (fm_wake s) (fm_next s) (fm_current s) true (fm_host s) (fm_answers s) (fm_started s).
Definition set_host (h : H) s : frames H E :=
  Frames (fm_pending s) (fm_settled s) (fm_wake s) (fm_next s) (fm_current s) (fm_failed s) h (fm_answers s) (fm_started s).
Definition add_answer (a : list (Z * response)) s : frames H E :=
  Frames (fm_pending s) (fm_settled s) (fm_wake s) (fm_next s) (fm_current s) (fm_failed s) (fm_host s)
    (fm_answers s ++ [a]) (fm_started s).

Definition on_host {A} (m : js H A) : js (frames H E) A := zoom fm_host set_host m.

Definition with_phase (p : phase) f : frame E := Frame (fr_wake f) (fr_poll f) (fr_held f) (fr_hosts f) p.
Definition with_held (held : list (Z * effect * option response)) f : frame E :=
  Frame (fr_wake f) (fr_poll f) held (fr_hosts f) (fr_phase f).

(** ** A frame arrives *)

Definition parse_wake (v : jsval) : res (option wake_mode) :=
  match v with
  | VUndef => Ok None
  | VStr "any" => Ok (Some WakeAny)
  | VStr "turn" => Ok (Some WakeTurn)
  | _ => Throw "the Nupp app yielded an unknown browser effect wake mode"
  end.

(** [None] for a poll, else the requests. *)
Definition parse_kind (m : message E) : res (option (list (effect * E))) :=
  match ms_kind m, ms_requests m with
  | VStr "poll", _ => Ok None
  | VStr "effects", Some requests => Ok (Some requests)
  | _, _ => Throw "the Nupp app yielded an unknown browser effect message"
  end.

(** The loop over the requests: host frames, held and detached effects, each with a number. *)
Fixpoint start_requests (wake : option wake_mode) (requests : list (effect * E)) f : js (frames H E) (frame E) :=
  match requests with
  | [] => mret f
  | (e, host) :: requests' =>
      s ← gets (λ s, s);
      let n := fm_next s in
      modify (start_effect e) ;;
      if isHostFrame e then
        start_requests wake requests' (Frame (fr_wake f) (fr_poll f) (fr_held f) (fr_hosts f ++ [(n, ef_id e, host)]) (fr_phase f))
      else if match wake with None => true | Some _ => boundToFrame e end then
        start_requests wake requests' (with_held (fr_held f ++ [(n, e, None)]) f)
      else
        modify (set_effects (fm_pending s ++ [(n, e)]) (fm_settled s)) ;;
        start_requests wake requests' f
  end.

(** [handleBrowserEffects] up to its first [await]. *)
Definition begin_frame (m : message E) : js (frames H E) () :=
  wake ← lift (parse_wake (ms_wake m));
  kind ← lift (parse_kind m);
  let f := Frame wake (match kind with None => true | Some _ => false end) [] [] PHeld in
  f ← (match kind with
       | None => mret f
       | Some requests =>
           guard_js (maxEffects <? zlen requests)
             ("browser application yielded more than " +:+ pretty maxEffects +:+ " effects") ;;
           start_requests wake requests f
       end);
  modify (set_current (Some f)) ;;
  try_catch (for_each (fr_hosts f) (λ h, on_host (hf_begin h.2)))
    (λ error, modify set_failed ;; throw error).

(** ** A frame is answered *)

(** The responses of the held effects, once all have settled. *)
Fixpoint held_responses (held : list (Z * effect * option response)) : option (list (Z * response)) :=
  match held with
  | [] => Some []
  | (n, _, Some r) :: held' => (λ rest, (n, r) :: rest) <$> held_responses held'
  | (_, _, None) :: _ => None
  end.

Fixpoint finish_hosts (hosts : list (Z * jsval * E)) : js (frames H E) (list (Z * response)) :=
  match hosts with
  | [] => mret []
  | (n, id, h) :: hosts' =>
      r ← try_catch (v ← on_host (hf_finish h); mret (Response id (Ok v)))
                    (λ error, mret (Response id (Throw error)));
      rest ← finish_hosts hosts';
      mret ((n, r) :: rest)
  end.

Definition answer_frame (f : frame E) (responses : list (Z * response)) : js (frames H E) () :=
  s ← gets (λ s, s);
  let '(answered, rest) := packedResponses json responses (fm_settled s) in
  modify (set_effects (fm_pending s) rest) ;;
  hosts ← finish_hosts (fr_hosts f);
  modify (add_answer (answered ++ hosts)) ;;
  modify (set_current None).

Definition has_hosts (f : frame E) : bool := negb (bool_decide (length (fr_hosts f) = 0%nat)).

(** What follows [await Promise.all(held)]. *)
Definition after_held (f : frame E) (responses : list (Z * response)) : js (frames H E) () :=
  s ← gets (λ s, s);
  match fr_wake f with
  | Some WakeAny =>
      let hostReady := has_hosts f && hf_ready (E:=E) (fm_host s) in
      if bool_decide (responses = []) && bool_decide (fm_settled s = []) && negb hostReady then
        let hostWaits := has_hosts f && hf_waitable (E:=E) (fm_host s) in
        if (0 <? zlen (fm_pending s)) || hostWaits then
          modify (set_wake true) ;;
          when hostWaits (modify (λ s, set_host (hf_notify (E:=E) true (fm_host s)) s)) ;;
          modify (set_current (Some (with_phase (PWake hostWaits) f)))
        else modify (set_current (Some (with_phase PTurn f)))
      else answer_frame f responses
  | _ =>
      if fr_poll f || bool_decide (fr_wake f = Some WakeTurn)
      then modify (set_current (Some (with_phase PTurn f)))
      else answer_frame f responses
  end.

(** The waiting code resumes, if what it waits for is there. *)
Definition resume_frame : js (frames H E) () :=
  s ← gets (λ s, s);
  match fm_current s with
  | None => mret tt
  | Some f =>
      if fm_failed s then mret tt else
      match held_responses (fr_held f) with
      | None => mret tt
      | Some responses =>
          match fr_phase f with
          | PHeld => after_held f responses
          | PWake _ =>
              if fm_wake s then mret tt else
              modify (λ s, set_host (hf_notify (E:=E) false (fm_host s)) s) ;; answer_frame f responses
          | PTurn => mret tt
          end
      end
  end.

Definition turn_frame : js (frames H E) () :=
  s ← gets (λ s, s);
  match fm_current s with
  | Some f =>
      if fm_failed s then mret tt else
      match fr_phase f, held_responses (fr_held f) with
      | PTurn, Some responses => answer_frame f responses
      | _, _ => mret tt
      end
  | None => mret tt
  end.

(** The host channel calls back: a frame waiting for a wake goes on. *)
Definition host_reported : js (frames H E) () :=
  s ← gets (λ s, s);
  match fm_current s with
  | Some f =>
      match fr_phase f with
      | PWake host => when host (modify (set_wake false))
      | _ => mret tt
      end
  | None => mret tt
  end.

(** ** An effect settles *)

Fixpoint settle_held (n : Z) (outcome : res string) (held : list (Z * effect * option response))
    : list (Z * effect * option response) :=
  match held with
  | [] => []
  | (n', e, None) :: held' =>
      if decide (n = n') then (n', e, Some (performEffect supplied e outcome)) :: held'
      else (n', e, None) :: settle_held n outcome held'
  | item :: held' => item :: settle_held n outcome held'
  end.

Definition settle_effect (n : Z) (outcome : res string) : js (frames H E) () :=
  s ← gets (λ s, s);
  match mget n (fm_pending s) with
  | Some e =>
      modify (set_effects (mdelete n (fm_pending s)) (fm_settled s ++ [(n, performEffect supplied e outcome)])) ;;
      modify (set_wake false)
  | None =>
      match fm_current s with
      | Some f => modify (set_current (Some (with_held (settle_held n outcome (fr_held f)) f)))
      | None => mret tt
      end
  end.

(** ** Runs *)

Inductive frame_event :=
| EvFrame (m : message E)
| EvSettle (n : Z) (outcome : res string)
| EvResume
| EvTurn
| EvHost.

Definition run_event (ev : frame_event) : js (frames H E) () :=
  match ev with
  | EvFrame m =>
      (* a guest waits for its answer, and a failed run is over *)
      s ← gets (λ s, s);
      if fm_failed s || bool_decide (is_Some (fm_current s)) then mret tt else begin_frame m
  | EvSettle n outcome => settle_effect n outcome
  | EvResume => resume_frame
  | EvTurn => turn_frame
  | EvHost => host_reported
  end.

Fixpoint run_frames (evs : list frame_event) s : frames H E :=
  match evs with
  | [] => s
  | ev :: evs' => run_frames evs' (run_event ev s).2
  end.

Definition start_frames (h : H) : frames H E := Frames [] [] false 1 None false h [] [].
End Frames.

(** ** Every effect is answered once *)

Section Accounting.
Context {H E : Type} `{!HostFrames H E} (json : Z * response → Z) (supplied : string → bool) (maxEffects : Z).
Implicit Types (s : frames H E) (f : frame E).

(** The effects a state knows of, by number and id. *)
Definition settled_ids (l : list (Z * response)) : list (Z * jsval) := (λ p, (p.1, rp_id p.2)) <$> l.
Definition answered s : list (Z * jsval) := settled_ids (concat (fm_answers s)).
Definition pending_ids (l : jmap Z effect) : list (Z * jsval) := (λ p, (p.1, ef_id p.2)) <$> l.
Definition held_ids (l : list (Z * effect * option response)) : list (Z * jsval) := (λ x, (x.1.1, ef_id x.1.2)) <$> l.

Definition host_ids (l : list (Z * jsval * E)) : list (Z * jsval) := l.*1.

Definition current_held s : list (Z * effect * option response) :=
  match fm_current s with Some f => fr_held f | None => [] end.
Definition current_hosts s : list (Z * jsval * E) :=
  match fm_current s with Some f => fr_hosts f | None => [] end.

Definition held_ok (l : list (Z * effect * option response)) : Prop :=
  Forall (λ x, match x.2 with Some r => rp_id r = ef_id x.1.2 | None => True end) l.

(** With the effects [held] and the host frames [hosts] in hand. *)
Record accounts (held : list (Z * effect * option response)) (hosts : list (Z * jsval * E)) s : Prop := {
  ac_all : answered s ++ settled_ids (fm_settled s) ++ pending_ids (fm_pending s) ++ held_ids held ++ host_ids hosts ≡ₚ fm_started s;
  ac_fresh : ∀ p, p ∈ fm_started s → p.1 < fm_next s;
  ac_started : NoDup (fm_started s).*1;
  ac_held : held_ok held
}.
Definition accounts_of f s : Prop := accounts (fr_held f) (fr_hosts f) s.

Definition frames_wf s : Prop := accounts (current_held s) (current_hosts s) s.

Lemma wf_current f s : frames_wf s → fm_current s = Some f → accounts_of f s.
Proof. unfold frames_wf, current_held, current_hosts. intros Hw Hc. by rewrite Hc in Hw. Qed.

(** States that differ elsewhere. *)
Lemma accounts_same held hosts s s' :
  fm_answers s' = fm_answers s → fm_settled s' = fm_settled s → fm_pending s' = fm_pending s →
  fm_started s' = fm_started s → fm_next s' = fm_next s → accounts held hosts s → accounts held hosts s'.
Proof. intros E1 E2 E3 E4 E5 []. split; unfold answered; rewrite ?E1, ?E2, ?E3, ?E4, ?E5; done. Qed.

Lemma performEffect_id e outcome : rp_id (performEffect supplied e outcome) = ef_id e.
Proof.
  unfold performEffect. destruct (to_integer _) as [id|]; [|done]. destruct (id <? 1); [done|].
  by destruct (_ || _).
Qed.

(** A new number, for an effect that is held for now. *)
Lemma accounts_start_held held hosts e s :
  accounts held hosts s → accounts (held ++ [(fm_next s, e, None)]) hosts (start_effect e s).
Proof.
  intros []. split; simpl.
  - unfold held_ids in *. rewrite fmap_app. simpl. rewrite <- ac_all0, <- !app_assoc. do 4 apply Permutation_app_head. apply Permutation_app_comm.
  - intros p [Hp|Hp%list_elem_of_singleton]%elem_of_app; [|subst; simpl; lia]. specialize (ac_fresh0 p Hp). lia.
  - rewrite fmap_app. apply NoDup_app. split; [done|]. split; [|apply NoDup_singleton].
    intros n (p & -> & Hp)%list_elem_of_fmap Hn. apply list_elem_of_singleton in Hn. specialize (ac_fresh0 p Hp). simpl in Hn. lia.
  - apply Forall_app. split; [done|]. by repeat constructor.
Qed.

Lemma accounts_detach held hosts e s :
  accounts (held ++ [(fm_next s, e, None)]) hosts (start_effect e s) →
  accounts held hosts (set_effects (fm_pending s ++ [(fm_next s, e)]) (fm_settled s) (start_effect e s)).
Proof.
  intros []. split; simpl in *; [|done|done|by apply Forall_app in ac_held0 as [? _]].
  etransitivity; [|exact ac_all0]. unfold held_ids, pending_ids. rewrite !fmap_app. simpl.
  rewrite <- !app_assoc. do 3 apply Permutation_app_head. rewrite !app_assoc. apply Permutation_app_tail, Permutation_app_comm.
Qed.

Lemma accounts_host held hosts e (h : E) s :
  accounts (held ++ [(fm_next s, e, None)]) hosts (start_effect e s) →
  accounts held (hosts ++ [(fm_next s, ef_id e, h)]) (start_effect e s).
Proof.
  intros []. split; simpl in *; [|done|done|by apply Forall_app in ac_held0 as [? _]].
  etransitivity; [|exact ac_all0]. unfold held_ids, host_ids. rewrite !fmap_app. simpl.
  rewrite <- !app_assoc. do 4 apply Permutation_app_head. apply Permutation_app_comm.
Qed.

Lemma start_requests_run wake requests f s :
  accounts_of f s →
  ∃ f' s', start_requests wake requests f s = (Ok f', s') ∧ accounts_of f' s' ∧
    fm_current s' = fm_current s ∧ fm_failed s' = fm_failed s ∧ fr_phase f' = fr_phase f.
Proof.
  revert f s. induction requests as [|[e host] requests IH]; intros f s Ha; simpl; [by exists f, s|].
  do 2 (erewrite bind_run by done). pose proof (accounts_start_held _ _ e s Ha) as H1. destruct (isHostFrame e).
  { destruct (IH (Frame (fr_wake f) (fr_poll f) (fr_held f) (fr_hosts f ++ [(fm_next s, ef_id e, host)]) (fr_phase f)) _
      (accounts_host _ _ _ host _ H1)) as (f' & s' & ? & ? & ? & ? & ?). by exists f', s'. }
  destruct (match wake with None => true | Some _ => boundToFrame e end).
  - destruct (IH (with_held (fr_held f ++ [(fm_next s, e, None)]) f) _ H1) as (f' & s' & ? & ? & ? & ? & ?). by exists f', s'.
  - erewrite bind_run by done. destruct (IH f _ (accounts_detach _ _ _ _ H1)) as (f' & s' & ? & ? & ? & ? & ?).
    by exists f', s'.
Qed.

Lemma held_responses_ids held responses :
  held_ok held → held_responses held = Some responses → settled_ids responses = held_ids held.
Proof.
  intros Hok. revert responses. induction Hok as [|[[n e] [r|]] held Hr _ IH]; intros responses; simpl; [by intros [= <-]| |done].
  destruct (held_responses held) as [rest|]; [|done]. intros [= <-]. simpl in *. by rewrite (IH rest), Hr.
Qed.

Lemma finish_hosts_run hosts s :
  ∃ rs h, finish_hosts hosts s = (Ok rs, set_host h s) ∧ settled_ids rs = host_ids hosts.
Proof.
  revert s. induction hosts as [|[[n id] x] hosts IH]; intros s; simpl.
  { exists [], (fm_host s). split; [|done]. by destruct s. }
  assert (∃ r h, try_catch (v ← on_host (hf_finish x); mret (Response id (Ok v)))
    (λ error, mret (Response id (Throw error))) s = (Ok r, set_host h s) ∧ rp_id r = id) as (r & h & Er & Hid).
  { unfold try_catch, on_host, zoom, mbind, js_bind. destruct (hf_finish x (fm_host s)) as [[v|e] h]; by eexists _, _. }
  destruct (IH (set_host h s)) as (rs & h' & Ehs & Hrs).
  eexists _, h'. erewrite bind_run by exact Er. erewrite bind_run by exact Ehs. split; [done|]. simpl. by rewrite Hid, Hrs.
Qed.

Lemma answer_frame_run f responses s :
  accounts_of f s → held_responses (fr_held f) = Some responses →
  ∃ s', answer_frame json f responses s = (Ok tt, s') ∧ frames_wf s' ∧ fm_current s' = None ∧ fm_failed s' = fm_failed s.
Proof.
  intros [] Hr. unfold answer_frame. erewrite bind_run by done.
  unfold packedResponses. set (k := pack_count _ _ _ _).
  erewrite bind_run by done.
  destruct (finish_hosts_run (fr_hosts f) (set_effects (fm_pending s) (drop k (fm_settled s)) s)) as (rs & h & Eh & Hrs).
  erewrite bind_run by exact Eh. erewrite bind_run by done. eexists. split; [done|]. split; [|done].
  split; simpl; [|done|done|constructor].
  etransitivity; [|exact ac_all0]. unfold answered. simpl. rewrite concat_app. simpl. rewrite !app_nil_r.
  rewrite <- (take_drop k (fm_settled s)) at 3. unfold settled_ids. rewrite !fmap_app, <- !app_assoc. apply Permutation_app_head.
  fold (settled_ids responses) (settled_ids rs). rewrite (held_responses_ids _ _ ac_held0 Hr), Hrs. unfold pending_ids.
  set (X := held_ids _). set (Y := host_ids _). set (A := _ <$> take k _). set (B := _ <$> drop k _). set (C := _ <$> fm_pending s).
  rewrite (Permutation_app_comm X). rewrite <- !app_assoc. apply Permutation_app_head.
  by rewrite (Permutation_app_comm Y), <- !app_assoc.
Qed.

Lemma on_host_same {A} (m : js H A) s : ∃ r h, on_host m s = (r, set_host h s).
Proof. unfold on_host, zoom. destruct (m (fm_host s)) as [r h]. by exists r, h. Qed.

Lemma for_each_host hosts s :
  ∃ r h, for_each hosts (λ x : Z * jsval * E, on_host (hf_begin x.2)) s = (r, set_host h s).
Proof.
  revert s. induction hosts as [|x hosts IH]; intros s; simpl.
  { exists (Ok tt), (fm_host s). by destruct s. }
  destruct (on_host_same (hf_begin x.2) s) as ([[]|e] & h & Eh).
  - destruct (IH (set_host h s)) as (r & h' & E'). exists r, h'. by erewrite bind_run by exact Eh.
  - exists (Throw e), h. unfold mbind, js_bind. by rewrite Eh.
Qed.

(** What waits for a wake has something that can wake it. *)
Definition wakeable s : Prop :=
  ∀ f host, fm_current s = Some f → fr_phase f = PWake host → fm_wake s = true → fm_pending s ≠ [] ∨ host = true.

Definition frames_ok s : Prop := frames_wf s ∧ wakeable s.

Lemma ok_begin m s : frames_ok s → fm_current s = None → frames_ok (begin_frame maxEffects m s).2.
Proof.
  intros Hs Hc. unfold begin_frame, lift. unfold mbind at 1, js_bind at 1. destruct (parse_wake _) as [wake|]; [|done].
  unfold mbind at 1, js_bind at 1. destruct (parse_kind m) as [kind|]; [|done]. cbv zeta.
  set (f0 := Frame wake _ [] [] PHeld).
  assert (accounts_of f0 s) as Ha.
  { destruct Hs as [Hw _]. unfold frames_wf, current_held, current_hosts in Hw. by rewrite Hc in Hw. }
  assert (∃ r s', (match kind with
       | None => mret f0
       | Some requests =>
           guard_js (maxEffects <? zlen requests)
             ("browser application yielded more than " +:+ pretty maxEffects +:+ " effects") ;;
           start_requests wake requests f0
       end) s = (r, s') ∧ match r with Ok f => accounts_of f s' ∧ fr_phase f = PHeld | Throw _ => s' = s end) as (r & s1 & E1 & Hr).
  { destruct kind as [requests|]; [|by exists (Ok f0), s]. destruct (maxEffects <? _); [by eexists (Throw _), s|].
    destruct (start_requests_run wake requests f0 s Ha) as (f & s' & Ef & ? & _ & _ & ?). by exists (Ok f), s'. }
  unfold mbind at 1, js_bind at 1. rewrite E1. destruct r as [f|e]; [|by subst]. destruct Hr as [Ha1 Hp].
  erewrite bind_run by done. set (s2 := set_current (Some f) s1).
  assert (∀ h, frames_ok (set_host h s2)) as Hok.
  { intros h. split; [by apply (accounts_same _ _ s1)|]. intros f' host [= <-] Hph. simpl in Hph. congruence. }
  unfold try_catch. destruct (for_each_host (fr_hosts f) s2) as (r & h & Eh). rewrite Eh. destruct r as [[]|e]; [apply Hok|].
  destruct (Hok h) as [Hw Hk]. split; [by apply (accounts_same _ _ (set_host h s2))|exact Hk].
Qed.

Lemma ok_idle s : frames_wf s → fm_current s = None → frames_ok s.
Proof. intros Hw Hc. split; [done|]. intros f host Hf. congruence. Qed.

Lemma ok_after_held f responses s :
  frames_ok s → fm_current s = Some f → held_responses (fr_held f) = Some responses →
  frames_ok (after_held json f responses s).2.
Proof.
  intros [Hw Hk] Hc Hr. assert (accounts_of f s) as Ha by (by apply wf_current).
  assert (frames_ok (answer_frame json f responses s).2) as Hans.
  { destruct (answer_frame_run f responses s Ha Hr) as (s' & -> & ? & ? & _). by apply ok_idle. }
  assert (∀ s', accounts_of f s' → frames_ok (set_current (Some (with_phase PTurn f)) s')) as Hturn.
  { intros s' Ha'. split; [by apply (accounts_same _ _ s')|]. intros f' host [= <-]. done. }
  unfold after_held. erewrite bind_run by done. destruct (fr_wake f) as [[]|]; [|by destruct (_ || _); [apply Hturn|]..].
  destruct (bool_decide (responses = []) && _ && _); [|done]. set (hostWaits := has_hosts f && _).
  destruct ((0 <? zlen (fm_pending s)) || hostWaits) eqn:Ew; [|by apply Hturn].
  assert (fm_pending s ≠ [] ∨ hostWaits = true) as Hwait.
  { destruct (fm_pending s); [by right|by left]. }
  erewrite bind_run by done. unfold when. destruct hostWaits; (erewrite bind_run by done);
    (split; [by apply (accounts_same _ _ s)|]); intros f' host [= <-] [= <-] _; simpl; naive_solver.
Qed.

Lemma ok_resume : preserves frames_ok (resume_frame json).
Proof.
  intros s Hs. unfold resume_frame. erewrite bind_run by done. destruct (fm_current s) as [f|] eqn:Hc; [|done].
  destruct (fm_failed s); [done|]. destruct (held_responses (fr_held f)) as [responses|] eqn:Hr; [|done].
  destruct (fr_phase f); [by apply ok_after_held| |done]. destruct (fm_wake s); [done|]. erewrite bind_run by done.
  match goal with |- frames_ok (answer_frame _ _ _ ?q).2 => destruct (answer_frame_run f responses q) as (s' & -> & ? & ? & _) end;
    [|done|by apply ok_idle].
  destruct Hs as [Hw _]. apply (wf_current f) in Hw; [|done]. by apply (accounts_same _ _ s).
Qed.

Lemma ok_turn : preserves frames_ok (turn_frame json).
Proof.
  intros s Hs. unfold turn_frame. erewrite bind_run by done. destruct (fm_current s) as [f|] eqn:Hc; [|done].
  destruct (fm_failed s); [done|]. destruct (fr_phase f); [done|done|].
  destruct (held_responses (fr_held f)) as [responses|] eqn:Hr; [|done].
  destruct (answer_frame_run f responses s) as (s' & -> & ? & ? & _); [|done|by apply ok_idle].
  destruct Hs as [Hw _]. by apply wf_current.
Qed.

Lemma ok_set_wake_false s : frames_wf s → frames_ok (set_wake false s).
Proof. intros Hw. split; [by apply (accounts_same _ _ s)|]. intros f host _ _ H0. done. Qed.

Lemma ok_host : preserves frames_ok (host_reported (H:=H) (E:=E)).
Proof.
  intros s Hs. unfold host_reported. erewrite bind_run by done. destruct (fm_current s) as [f|]; [|done].
  destruct (fr_phase f) as [|[]|]; try done. apply ok_set_wake_false, Hs.
Qed.

Lemma settle_held_ids n outcome held :
  held_ids (settle_held supplied n outcome held) = held_ids held ∧
  (held_ok held → held_ok (settle_held supplied n outcome held)).
Proof.
  induction held as [|[[n' e] [r|]] held [IH1 IH2]]; simpl; [done|..].
  - rewrite IH1. split; [done|]. intros [? ?]%Forall_cons. constructor; [done|by apply IH2].
  - case_decide; simpl.
    + split; [done|]. intros [_ ?]%Forall_cons. constructor; [simpl; apply performEffect_id|done].
    + rewrite IH1. split; [done|]. intros [? ?]%Forall_cons. constructor; [done|by apply IH2].
Qed.

Lemma ok_settle n outcome : preserves frames_ok (settle_effect (H:=H) (E:=E) supplied n outcome).
Proof.
  intros s [Hw Hk]. unfold settle_effect. erewrite bind_run by done. pose proof Hw as [].
  destruct (mget n (fm_pending s)) as [e|] eqn:Hn.
  - erewrite bind_run by done. apply ok_set_wake_false. split; simpl; [|done|done|done].
    etransitivity; [|exact ac_all0]. apply Permutation_app_head. unfold settled_ids. rewrite fmap_app. simpl.
    rewrite performEffect_id, <- !app_assoc. apply Permutation_app_head.
    assert (NoDup (fm_pending s).*1) as Hnd.
    { apply (fmap_Permutation fst) in ac_all0. rewrite <- ac_all0 in ac_started0. rewrite !fmap_app in ac_started0.
      apply NoDup_app in ac_started0 as (_ & _ & Hx). apply NoDup_app in Hx as (_ & _ & Hx). apply NoDup_app in Hx as (Hx & _).
      unfold pending_ids in Hx. rewrite <- list_fmap_compose in Hx. exact Hx. }
    symmetry. etransitivity; [apply Permutation_app_tail, fmap_Permutation, (mget_permutation n e _ Hnd Hn)|]. done.
  - destruct (fm_current s) as [f|] eqn:Hc; [|done].
    destruct (settle_held_ids n outcome (fr_held f)) as [Hids Hok].
    assert (current_held s = fr_held f) as Hh by (unfold current_held; by rewrite Hc).
    assert (current_hosts s = fr_hosts f) as Hh' by (unfold current_hosts; by rewrite Hc). rewrite Hh, Hh' in *. split.
    + split; simpl; [|done|done|by apply Hok]. unfold current_held, current_hosts. simpl. by rewrite Hids.
    + intros f' host [= <-] Hp Hwk. by apply (Hk f).
Qed.

Lemma ok_run evs s : frames_ok s → frames_ok (run_frames json supplied maxEffects evs s).
Proof.
  revert s. induction evs as [|ev evs IH]; intros s Hs; simpl; [done|]. apply IH.
  destruct ev; simpl; [|by apply ok_settle|by apply ok_resume|by apply ok_turn|by apply ok_host].
  erewrite bind_run by done. destruct (fm_failed s); [done|]. simpl.
  destruct (fm_current s) as [f|] eqn:Hc; [by rewrite bool_decide_true|]. rewrite bool_decide_false by (by intros [? ?]).
  by apply ok_begin.
Qed.

Lemma ok_start h : frames_ok (start_frames h).
Proof. apply ok_idle; [|done]. split; simpl; [done|by intros p Hp%elem_of_nil|constructor|constructor]. Qed.

(** What the waiting code and a turn leave. *)
Definition waits f s : Prop :=
  fm_failed s = true ∨ held_responses (fr_held f) = None ∨
  ∃ host, fr_phase f = PWake host ∧ fm_wake s = true ∧ (fm_pending s ≠ [] ∨ host = true).

Lemma turn_idle s : fm_current s = None → (turn_frame json s).2 = s.
Proof. intros Hc. unfold turn_frame. erewrite bind_run by done. by rewrite Hc. Qed.

Lemma turn_other f s : fm_current s = Some f → fr_phase f ≠ PTurn → (turn_frame json s).2 = s.
Proof.
  intros Hc Hp. unfold turn_frame. erewrite bind_run by done. rewrite Hc. destruct (fm_failed s); [done|].
  by destruct (fr_phase f).
Qed.

Lemma turn_answers f responses s :
  frames_ok s → fm_current s = Some f → fm_failed s = false → fr_phase f = PTurn →
  held_responses (fr_held f) = Some responses → fm_current (turn_frame json s).2 = None.
Proof.
  intros [Hw _] Hc Hf Hp Hr. unfold turn_frame. erewrite bind_run by done. rewrite Hc, Hf, Hp, Hr.
  destruct (answer_frame_run f responses s) as (s' & -> & _ & ? & _); [|done|done].
  by apply wf_current.
Qed.

(** After the held effects, a frame is answered or has somewhere to wait. *)
Lemma after_held_cases f responses s :
  accounts_of f s → held_responses (fr_held f) = Some responses → fm_failed s = false →
  let s' := (after_held json f responses s).2 in
  fm_failed s' = false ∧
  (fm_current s' = None ∨ fm_current s' = Some (with_phase PTurn f) ∨
   ∃ host, fm_current s' = Some (with_phase (PWake host) f) ∧ fm_wake s' = true).
Proof.
  intros Ha Hr Hf. assert (∃ s', answer_frame json f responses s = (Ok tt, s') ∧ fm_current s' = None ∧ fm_failed s' = false)
    as (s' & Es & Hn & Hf').
  { destruct (answer_frame_run f responses s Ha Hr) as (s' & ? & _ & ? & ?). exists s'. repeat (split; [done|]). congruence. }
  unfold after_held. erewrite bind_run by done.
  destruct (fr_wake f) as [[]|]; [|destruct (_ || _); [by simpl; auto|rewrite Es; by auto]..].
  destruct (bool_decide (responses = []) && _ && _); [|rewrite Es; by auto].
  destruct ((0 <? _) || _); [|by simpl; auto]. erewrite bind_run by done. unfold when.
  destruct (has_hosts f && _); (erewrite bind_run by done); (split; [done|]); right; right; by eexists.
Qed.

Lemma resume_then_turn s f :
  frames_ok s → let s' := (turn_frame json (resume_frame json s).2).2 in fm_current s' = Some f → waits f s'.
Proof.
  intros Hs s'. unfold s', waits. pose proof (ok_resume s Hs) as Hs1. revert Hs1. unfold resume_frame.
  erewrite bind_run by done. destruct (fm_current s) as [g|] eqn:Hc; [|simpl; intros _; by rewrite turn_idle, Hc].
  assert (accounts_of g s) as Ha.
  { destruct Hs as [Hw _]. by apply wf_current. }
  destruct (fm_failed s) eqn:Hf.
  { intros _. simpl. unfold turn_frame. erewrite bind_run by done. rewrite Hc, Hf. by left. }
  destruct (held_responses (fr_held g)) as [responses|] eqn:Hr.
  2: { intros _. simpl. unfold turn_frame. erewrite bind_run by done. rewrite Hc, Hf, Hr.
       destruct (fr_phase g); simpl; rewrite Hc; intros [= <-]; auto. }
  destruct (fr_phase g) eqn:Hp.
  - intros Hs1. destruct (after_held_cases g responses s Ha Hr Hf) as (Hf1 & [Hc1|[Hc1|(host & Hc1 & Hwk)]]).
    + by rewrite turn_idle, Hc1.
    + by rewrite (turn_answers _ responses _ Hs1 Hc1).
    + rewrite (turn_other _ _ Hc1) by done. rewrite Hc1. intros [= <-]. right; right. exists host. split; [done|].
      split; [done|]. destruct Hs1 as [_ Hk]. by apply (Hk _ host Hc1).
  - destruct (fm_wake s) eqn:Hw.
    + intros _. simpl. rewrite (turn_other g) by congruence. rewrite Hc. intros [= <-]. right; right. exists host.
      split; [done|]. split; [done|]. destruct Hs as [_ Hk]. by apply (Hk g).
    + intros Hs1. erewrite bind_run in * by done.
      match goal with |- context [answer_frame _ _ _ ?q] => destruct (answer_frame_run g responses q) as (s2 & E2 & _ & Hc2 & _) end;
        [by apply (accounts_same _ _ s)|done|]. rewrite E2. simpl. by rewrite turn_idle, Hc2.
  - intros _. simpl. by rewrite (turn_answers g responses s Hs Hc Hf Hp Hr).
Qed.

(** C7 Every effect a guest starts, host frames among them, is answered at most once and never lost: whatever the
    order in which frames arrive, effects settle, turns pass and the host channel reports, the
    effects already answered, those settled and waiting for a frame, those still running
    detached, those held by the frame being answered and the host frames it will answer are together exactly the effects
    that were started, each once, and every answer carries the id of its request. *)
Theorem effects_answered_once h evs :
  let s := run_frames json supplied maxEffects evs (start_frames h) in
  answered s ++ settled_ids (fm_settled s) ++ pending_ids (fm_pending s) ++ held_ids (current_held s) ++ host_ids (current_hosts s)
    ≡ₚ fm_started s ∧
  NoDup (fm_started s).*1.
Proof. intros s. destruct (ok_run evs _ (ok_start h)) as [[] _]. done. Qed.

(** A frame never waits for nothing: once its code has resumed and a turn of the event
    loop has passed, a frame that is still unanswered is one the host channel refused, or
    holds an effect that has not settled, or waits for a wake while a detached effect is
    running or the host channel has been asked to report. *)
Theorem frame_waits_for_something h evs f :
  let s := run_frames json supplied maxEffects (evs ++ [EvResume; EvTurn]) (start_frames h) in
  fm_current s = Some f →
  fm_failed s = true ∨ held_responses (fr_held f) = None ∨
  ∃ host, fr_phase f = PWake host ∧ fm_wake s = true ∧ (fm_pending s ≠ [] ∨ host = true).
Proof.
  assert (∀ evs1 evs2 s, run_frames json supplied maxEffects (evs1 ++ evs2) s =
    run_frames json supplied maxEffects evs2 (run_frames json supplied maxEffects evs1 s)) as Happ.
  { intros evs1. induction evs1; intros evs2 s; simpl; auto. }
  intros s. unfold s. rewrite Happ. clear s. set (s := run_frames json supplied maxEffects evs _).
  pose proof (ok_run evs _ (ok_start h)) as Hs. fold s in Hs. clearbody s. simpl.
  by apply (resume_then_turn s f Hs).
Qed.
End Accounting.

(** ** What an answer may hold *)

Section Packed.
Context {A : Type} (json : A → Z).

Definition text_size (l : list A) : Z := sumZ (λ r, json r + 1) l.

Lemma pack_count_budget settled used :
  let k := pack_count json true settled used in
  k = 0%nat ∨ used + text_size (take k settled) <= RESPONSE_TEXT_BUDGET.
Proof.
  revert used. induction settled as [|r settled IH]; intros used; cbn [pack_count]; [by left|].
  destruct (Z.ltb_spec RESPONSE_TEXT_BUDGET (used + (json r + 1))); [by left|]. right.
  cbn [take]. unfold text_size in *. simpl. destruct (IH (used + (json r + 1))) as [-> | H0]; [simpl; lia|]. lia.
Qed.

Lemma pack_count_all settled used : pack_count json false settled used = length settled.
Proof. revert used. induction settled as [|r settled IH]; intros used; simpl; [done|]. rewrite andb_false_r. f_equal. apply IH. Qed.

Lemma held_size held used : foldl (λ total r, total + json r + 1) used held = used + text_size held.
Proof. revert used. induction held as [|r held IH]; intros used; simpl; [lia|]. rewrite IH. unfold text_size. simpl. lia. Qed.

(** An answer loses no response and keeps their order: it is the held responses
    followed by a prefix of the settled ones, the rest stay settled in order; and beside
    held responses the settled ones it takes keep the answer within its text budget. *)
Theorem packed_in_order held settled :
  let '(answer, rest) := packedResponses json held settled in
  answer ++ rest = held ++ settled ∧ held `prefix_of` answer ∧
  (held ≠ [] → answer = held ∨ 64 + text_size answer <= RESPONSE_TEXT_BUDGET).
Proof.
  unfold packedResponses. set (k := pack_count _ _ _ _). split; [|split].
  - by rewrite <- app_assoc, take_drop.
  - by exists (take k settled).
  - intros Hne. unfold k. rewrite bool_decide_false by done. simpl. rewrite held_size.
    destruct (pack_count_budget settled (64 + text_size held)) as [-> | H0]; [left; by rewrite app_nil_r|].
    right. unfold text_size in *. rewrite sumZ_app. lia.
Qed.

(** Without held responses the budget is not applied: the test that makes room for one
    response looks at a list that the loop does not extend, so a frame that holds nothing
    takes every settled response, however large they are together. *)
Theorem packed_overflows_alone settled : packedResponses json [] settled = (settled, []).
Proof.
  unfold packedResponses. rewrite bool_decide_true by done. simpl. rewrite pack_count_all.
  by rewrite take_ge, drop_ge by done.
Qed.
End Packed.
