(* ===== verification/FrameHost.v ===== *)
(** The host channel of [src/runtime/wasm/host-channel.mjs] behind the frames of
    [src/runtime/wasm/app-runtime.mjs]: the interface the frames are proved against,
    implemented by the channel's own operations. *)

From S2P Require Import Prelude Transfers HostChannel EffectFrame.

(** A frame's host effect reads the frame's records and fills its inbox. *)
#[export] Instance channel_frames (pg : page) : HostFrames hoststate frame_effect := {
  hf_begin := beginHostFrame pg;
  hf_finish e := '(written, more) ← finishHostFrame e; mret (pretty written +:+ " " +:+ pretty more);
  hf_ready h := hostFrameReady (h_channel h);
  hf_waitable h := hostFrameWaitable (h_channel h);
  hf_notify notify h := (on_channel (onHostFrameReady notify) h).2
}.

(** Reading a host frame never throws: what is wrong with it is answered when the
    frame is, so a frame of effects never fails for it. *)
Lemma begin_host_frame_returns pg e h : ∃ h', hf_begin (HostFrames:=channel_frames pg) e h = (Ok tt, h').
Proof.
  cbn [hf_begin channel_frames]. unfold beginHostFrame. destruct (e_inbox e) as [[id bytes]|]; [|by eexists].
  destruct (lease_of id bytes true _) as [l|]; [|by eexists]. destruct (_ || _); [by eexists|].
  destruct (0 <? _); [|by eexists]. destruct (on_channel _ h) as [[]]; by eexists.
Qed.

(** ** Witnesses *)

(** A page without handlers, an idle channel and a frame with one detached timer. *)
Definition demo_page : page := Page (λ _ _, None) (λ _ _, None) false None (λ s, s) (λ _, Ok None).
Definition demo_channel : hoststate :=
  HostState (match createHostChannel demo_page (HostOption None None None None) with
             | Ok c => c
             | Throw _ => Channel [] 0 0 [] [] [] [] [] [] [] [] false false 1 false [] [] []
             end) (Transfers [] []).
Definition demo_message : message frame_effect :=
  Message (VStr "any") (VStr "effects") (Some [(Effect (VNum (NInt 5)) "time" "" false false false false, FrameEffect 0 None 0)]).
Definition demo_frame : frame frame_effect := Frame (Some WakeAny) false [] [] (PWake false).

#[local] Existing Instance channel_frames.

Lemma frame_waits_for_something_witness :
  let s := run_frames (HostFrames0:=channel_frames demo_page) (λ _, 10) (λ _, false) 256
             ([EvFrame demo_message] ++ [EvResume; EvTurn]) (start_frames demo_channel) in
  fm_current s = Some demo_frame ∧
  (fm_failed s = true ∨ held_responses (fr_held demo_frame) = None ∨
   ∃ host, fr_phase demo_frame = PWake host ∧ fm_wake s = true ∧ (fm_pending s ≠ [] ∨ host = true)).
Proof.
  split; [by vm_compute|].
  apply (frame_waits_for_something (HostFrames0:=channel_frames demo_page) (λ _, 10) (λ _, false) 256 demo_channel
    [EvFrame demo_message] demo_frame). by vm_compute.
Defined.
