(* ===== verification/EffectGpu.v ===== *)
(** GPU effects of [src/runtime/wasm/app-runtime.mjs].

    An operation runs in segments between its [await]s: what runs at once when it
    starts (after the device is there), and what runs each time a promise it waits
    for settles; other operations run in between.  Buffers of the device are numbers;
    the device keeps the ones that exist and marks a fault when one is used or
    destroyed that does not.  Resources of the runtime are objects that a waiting
    operation may still hold when the table has dropped them, so they stay in the
    store under the handle they had, with a mark whether the table lists them. *)

From S2P Require Import Prelude Transfers EffectLeases.

(** ** State *)

Record download := Download {
  d_bytes : Z;
  d_promise : bool;
  d_ready : bool;
  d_synchronized : bool;
  d_error : option string
}.

Record resource := Resource {
  r_bytes : Z;
  r_buffer : Z;
  r_listed : bool;
  r_download : option Z
}.

Record kernel := Kernel {
  k_readonly : Z;
  k_writable : Z;
  k_uniformBytes : Z;
  k_threads : Z
}.

(** Effects, by operation and the fields it reads. *)
Inductive gpu_effect :=
| GOpen
| GClose (buffers kernels : option (list jsval))
| GCreateBuffer (bytes : jsval)
| GDestroyBuffer (buffer : jsval)
| GCompile (wgsl entrypoint readonly writable uniformBytes threads : jsval)
| GDestroyKernel (kernel : jsval)
| GUpload (buffer offset bytes lease : jsval)
| GDispatch (kernel : jsval) (read write : option (list jsval)) (count lease : jsval)
| GEnqueueDownload (buffer offset bytes : jsval)
| GReadDownload (buffer lease : jsval)
| GDownload (buffer offset bytes lease : jsval)
| GSynchronize
| GUnsupported.

(** What an operation waits for, with the locals that follow it. *)
Inductive gpu_wait :=
| WCreateBuffer (bytes buffer : Z)
| WCompile (k : kernel)
| WUpload
| WDispatch (uniform : option Z)
| WEnqueue (handle bytes : Z) (readback : option Z)
| WCopied (bytes : Z) (lease : jsval) (readback : option Z)
| WMapped (bytes : Z) (lease : jsval) (readback : Z)
| WQueueDone
| WDownload (handle : Z) (download : option Z).

Inductive gpu_reply := GNull | GDriver | GBuffer (handle : Z) | GKernel (handle : Z).

Record gpu := Gpu {
  g_failure : option string;
  g_uncaptured : option string;
  g_resources : jmap Z resource;
  g_kernels : jmap Z kernel;
  g_nextBuffer : Z;
  g_nextKernel : Z;
  g_downloads : jmap Z download;
  g_waits : jmap Z (gpu_effect * gpu_wait);
  g_transfers : option transfers;
  g_live : list Z;
  g_nextObject : Z;
  g_fault : bool
}.

(** Field updates. *)
Definition set_device (failure uncaptured : option string) (g : gpu) : gpu :=
  Gpu failure uncaptured (g_resources g) (g_kernels g) (g_nextBuffer g) (g_nextKernel g) (g_downloads g) (g_waits g)
    (g_transfers g) (g_live g) (g_nextObject g) (g_fault g).
Definition set_resources (resources : jmap Z resource) (next : Z) (g : gpu) : gpu :=
  Gpu (g_failure g) (g_uncaptured g) resources (g_kernels g) next (g_nextKernel g) (g_downloads g) (g_waits g)
    (g_transfers g) (g_live g) (g_nextObject g) (g_fault g).
Definition set_kernels (kernels : jmap Z kernel) (next : Z) (g : gpu) : gpu :=
  Gpu (g_failure g) (g_uncaptured g) (g_resources g) kernels (g_nextBuffer g) next (g_downloads g) (g_waits g)
    (g_transfers g) (g_live g) (g_nextObject g) (g_fault g).
Definition set_downloads (downloads : jmap Z download) (g : gpu) : gpu :=
  Gpu (g_failure g) (g_uncaptured g) (g_resources g) (g_kernels g) (g_nextBuffer g) (g_nextKernel g) downloads
    (g_waits g) (g_transfers g) (g_live g) (g_nextObject g) (g_fault g).
Definition set_waits (waits : jmap Z (gpu_effect * gpu_wait)) (g : gpu) : gpu :=
  Gpu (g_failure g) (g_uncaptured g) (g_resources g) (g_kernels g) (g_nextBuffer g) (g_nextKernel g) (g_downloads g)
    waits (g_transfers g) (g_live g) (g_nextObject g) (g_fault g).
Definition set_objects (live : list Z) (next : Z) (fault : bool) (g : gpu) : gpu :=
  Gpu (g_failure g) (g_uncaptured g) (g_resources g) (g_kernels g) (g_nextBuffer g) (g_nextKernel g) (g_downloads g)
    (g_waits g) (g_transfers g) live next fault.
#[export] Instance gpu_transfers : HasTransfers gpu :=
  {| get_transfers := g_transfers;
     put_transfers t g :=
       Gpu (g_failure g) (g_uncaptured g) (g_resources g) (g_kernels g) (g_nextBuffer g) (g_nextKernel g)
         (g_downloads g) (g_waits g) t (g_live g) (g_nextObject g) (g_fault g) |}.

(** ** The device *)

Definition dev_create : js gpu Z :=
  b ← gets g_nextObject;
  modify (λ g, set_objects (g_live g ++ [b]) (b + 1) (g_fault g) g) ;;
  mret b.

Definition dev_use (b : Z) : js gpu () :=
  modify (λ g, if decide (b ∈ g_live g) then g else set_objects (g_live g) (g_nextObject g) true g).

Definition dev_destroy (b : Z) : js gpu () :=
  modify (λ g, if decide (b ∈ g_live g)
               then set_objects (filter (λ x, x ≠ b) (g_live g)) (g_nextObject g) (g_fault g) g
               else set_objects (g_live g) (g_nextObject g) true g).

Definition dev_destroy_all (b : option Z) : js gpu () :=
  match b with Some b => dev_destroy b | None => mret tt end.

(** ** Checks *)

Definition uint32 (value : jsval) (name : string) : res Z :=
  match to_integer value with
  | Some n => if (n <? 0) || (0xffffffff <? n) then Throw ("browser GPU " +:+ name +:+ " must be a uint32") else Ok n
  | None => Throw ("browser GPU " +:+ name +:+ " must be a uint32")
  end.

Fixpoint uint32s (values : list jsval) (name : string) : res (list Z) :=
  match values with
  | [] => Ok []
  | v :: values' => n ← uint32 v name; rest ← uint32s values' name; mret (n :: rest)
  end.

Definition listed (handle : Z) (g : gpu) : option resource :=
  match mget handle (g_resources g) with
  | Some r => if r_listed r then Some r else None
  | None => None
  end.

Definition gpuBuffer (handle : jsval) (name : string) : js gpu (Z * resource) :=
  id ← lift (uint32 handle name);
  g ← gets (λ g, g);
  match listed id g with
  | Some r => mret (id, r)
  | None => throw "browser GPU buffer handle is unknown"
  end.

Definition gpuBufferRange (offset bytes : jsval) (r : resource) : res (Z * Z) :=
  o ← (match offset with VUndef => Ok 0 | _ => uint32 offset "buffer byte offset" end);
  n ← (match bytes with VUndef => Ok (r_bytes r) | _ => uint32 bytes "buffer byte length" end);
  if negb (o mod 4 =? 0) || (n =? 0) || negb (n mod 4 =? 0) || (r_bytes r <? o) || (r_bytes r - o <? n)
  then Throw "browser GPU transfer range is invalid" else Ok (o, n).

Definition set_resource (handle : Z) (r : resource) : js gpu () :=
  modify (λ g, set_resources (mset handle r (g_resources g)) (g_nextBuffer g) g).

(** [destroyGpuDownload(resource)], on the object of a handle. *)
Definition destroyGpuDownload (handle : Z) : js gpu () :=
  g ← gets (λ g, g);
  match mget handle (g_resources g) with
  | Some r =>
      set_resource handle (Resource (r_bytes r) (r_buffer r) (r_listed r) None) ;;
      match r_download r with
      | Some b => dev_use b ;; dev_destroy b
      | None => mret tt
      end
  | None => mret tt
  end.

(** [resource.buffer.destroy(); runtime.buffers.delete(id)]. *)
Definition drop_resource (handle : Z) : js gpu () :=
  destroyGpuDownload handle ;;
  g ← gets (λ g, g);
  match mget handle (g_resources g) with
  | Some r =>
      dev_destroy (r_buffer r) ;;
      set_resource handle (Resource (r_bytes r) (r_buffer r) false (r_download r))
  | None => mret tt
  end.

(** The workgroups of a dispatch: columns and rows within the device's limit. *)
Definition ceil_div (a b : Z) : Z := (a + b - 1) / b.
Definition dispatch_shape (count threads limit : Z) : res (Z * Z) :=
  let groups := ceil_div count threads in
  let columns := Z.min groups limit in
  let rows := if limit <? groups then ceil_div groups limit else 1 in
  if limit <? rows
  then Throw ("GPU dispatch workgroup count [" +:+ pretty columns +:+ ", " +:+ pretty rows +:+
              ", 1] exceeds the per-dimension limit " +:+ pretty limit)
  else Ok (columns, rows).

Definition checked_kernel (wgsl entrypoint readonly writable uniformBytes threads : jsval) : res kernel :=
  match wgsl, entrypoint, to_integer readonly, to_integer writable, to_integer uniformBytes, to_integer threads with
  | VStr w, VStr e, Some r, Some wr, Some u, Some t =>
      if bool_decide (w = "") || bool_decide (e = "") || (r <? 0) || (wr <? 1) || (8 <? r + wr) ||
         (u <? 4 * (1 + 2 * (r + wr))) || (128 <? u) || negb (u mod 4 =? 0) || (t <? 1) || (256 <? t)
      then Throw "browser GPU kernel descriptor is invalid" else Ok (Kernel r wr u t)
  | _, _, _, _, _, _ => Throw "browser GPU kernel descriptor is invalid"
  end.

(** ** Operations *)

(** What the device does in one segment: its limit of workgroups per dimension; whether
    a checked run of calls throws, before or ([true]) after it made its buffer; whether the
    map mode constants are there; and what a mapped range holds. *)
Record device_run := DeviceRun {
  dr_limit : Z;
  dr_throws : option (bool * string);
  dr_mapMode : bool;
  dr_mapped : list byte
}.

(** [gpuChecked] up to its [await], where the run makes a buffer and uses others; how the
    run and its error scopes came out is known when the [await] settles. *)
Definition checked_run (d : device_run) (uses : list Z) : js gpu (option Z) :=
  match dr_throws d with
  | Some (false, _) => mret None
  | _ => b ← dev_create; for_each uses dev_use ;; mret (Some b)
  end.

Fixpoint bound_buffers (handles : list jsval) (name : string) : js gpu (list Z) :=
  match handles with
  | [] => mret []
  | h :: handles' =>
      '(_, r) ← gpuBuffer h name;
      rest ← bound_buffers handles' name;
      mret (r_buffer r :: rest)
  end.

(** The next download [runtime-synchronize] looks at: a [Map] is walked in insertion
    order, which is the order of the handles. *)
Fixpoint next_download (after : Z) (resources : jmap Z resource) : option (Z * option Z) :=
  match resources with
  | [] => None
  | (h, r) :: rest =>
      if (after <? h) && r_listed r && bool_decide (is_Some (r_download r)) then Some (h, r_download r)
      else next_download after rest
  end.

(** From one [await] of a synchronize to the next. *)
Definition synchronize_from (after : Z) : js gpu (gpu_reply + gpu_wait) :=
  g ← gets (λ g, g);
  match next_download after (g_resources g) with
  | Some (h, b) => mret (inr (WDownload h b))
  | None => mret (inl GNull)
  end.

(** [performGpuOperation] once the device is there, up to its next [await]. *)
Definition gpu_operation (d : device_run) (effect : gpu_effect) : js gpu (gpu_reply + gpu_wait) :=
  g ← gets (λ g, g);
  match g_failure g with
  | Some failure => throw failure
  | None =>
  match g_uncaptured g with
  | Some message => modify (set_device None None) ;; throw ("WebGPU device error: " +:+ message)
  | None =>
  match effect with
  | GOpen => mret (inl GDriver)
  | GClose (Some buffers) (Some kernels) =>
      buffers ← lift (uint32s buffers "buffer handle");
      kernels ← lift (uint32s kernels "kernel handle");
      for_each buffers (λ id, g ← gets (λ g, g);
                              match listed id g with Some _ => drop_resource id | None => mret tt end) ;;
      for_each kernels (λ id, modify (λ g, set_kernels (mdelete id (g_kernels g)) (g_nextKernel g) g)) ;;
      mret (inl GNull)
  | GClose _ _ => throw "browser GPU context resource lists are invalid"
  | GCreateBuffer bytes =>
      n ← lift (uint32 bytes "buffer byte length");
      guard_js ((n =? 0) || negb (n mod 4 =? 0)) "browser GPU buffers need a positive four-byte size" ;;
      match dr_throws d with
      | Some (_, e) => throw e
      | None => b ← dev_create; mret (inr (WCreateBuffer n b))
      end
  | GDestroyBuffer buffer =>
      '(id, _) ← gpuBuffer buffer "buffer handle";
      drop_resource id ;; mret (inl GNull)
  | GCompile wgsl entrypoint readonly writable uniformBytes threads =>
      k ← lift (checked_kernel wgsl entrypoint readonly writable uniformBytes threads);
      mret (inr (WCompile k))
  | GDestroyKernel k =>
      id ← lift (uint32 k "kernel handle");
      modify (λ g, set_kernels (mdelete id (g_kernels g)) (g_nextKernel g) g) ;; mret (inl GNull)
  | GUpload buffer offset bytes lease_ =>
      '(_, r) ← gpuBuffer buffer "buffer handle";
      '(_, n) ← lift (gpuBufferRange offset bytes r);
      memoryLease lease_ (VNum (NInt n)) false ;;
      dev_use (r_buffer r) ;;
      mret (inr WUpload)
  | GDispatch kernel_ read write count lease_ =>
      id ← lift (uint32 kernel_ "kernel handle");
      match mget id (g_kernels g), read, write with
      | Some k, Some read, Some write =>
          guard_js (negb (zlen read =? k_readonly k) || negb (zlen write =? k_writable k))
            "browser GPU dispatch has the wrong binding count" ;;
          n ← lift (uint32 count "dispatch count");
          lift (dispatch_shape n (k_threads k) (dr_limit d)) ;;
          memoryLease lease_ (VNum (NInt (k_uniformBytes k))) false ;;
          reads ← bound_buffers read "read buffer";
          writes ← bound_buffers write "write buffer";
          uniform ← checked_run d (reads ++ writes);
          mret (inr (WDispatch uniform))
      | _, _, _ => throw "browser GPU dispatch names an unknown kernel or buffers"
      end
  | GEnqueueDownload buffer offset bytes =>
      '(id, r) ← gpuBuffer buffer "buffer handle";
      '(_, n) ← lift (gpuBufferRange offset bytes r);
      guard_js (bool_decide (is_Some (r_download r))) "browser GPU buffer already has a queued download" ;;
      readback ← checked_run d [r_buffer r];
      mret (inr (WEnqueue id n readback))
  | GReadDownload buffer lease_ =>
      '(id, r) ← gpuBuffer buffer "buffer handle";
      match r_download r with
      | Some b =>
          match mget b (g_downloads g) with
          | Some dl =>
              guard_js (negb (d_synchronized dl && d_ready dl && negb (bool_decide (is_Some (d_error dl)))))
                "browser GPU download is not synchronized" ;;
              try_finally
                (l ← memoryLease lease_ (VNum (NInt (d_bytes dl))) true;
                 dev_use b ;;
                 lease_set l 0 (dr_mapped d) ;; mret (inl GNull))
                (destroyGpuDownload id)
          | None => throw "browser GPU download is not synchronized"
          end
      | None => throw "browser GPU download is not synchronized"
      end
  | GDownload buffer offset bytes lease_ =>
      '(_, r) ← gpuBuffer buffer "buffer handle";
      '(_, n) ← lift (gpuBufferRange offset bytes r);
      memoryLease lease_ (VNum (NInt n)) true ;;
      readback ← checked_run d [r_buffer r];
      mret (inr (WCopied n lease_ readback))
  | GSynchronize => mret (inr WQueueDone)
  | GUnsupported => throw "unsupported browser GPU runtime operation"
  end end end.

(** What follows an [await]: [outcome] is how it settled. *)
Definition gpu_resume (d : device_run) (w : gpu_wait) (outcome : res ()) : js gpu (gpu_reply + gpu_wait) :=
  match w with
  | WCreateBuffer bytes b =>
      lift outcome ;;
      id ← gets g_nextBuffer;
      modify (λ g, set_resources (mset id (Resource bytes b true None) (g_resources g)) (id + 1) g) ;;
      mret (inl (GBuffer id))
  | WCompile k =>
      lift outcome ;;
      id ← gets g_nextKernel;
      modify (λ g, set_kernels (mset id k (g_kernels g)) (id + 1) g) ;;
      mret (inl (GKernel id))
  | WUpload => lift outcome ;; mret (inl GNull)
  | WDispatch uniform =>
      try_finally (lift outcome ;; mret (inl GNull)) (dev_destroy_all uniform)
  | WEnqueue handle bytes readback =>
      match outcome, readback with
      | Ok _, Some b =>
          g ← gets (λ g, g);
          match mget handle (g_resources g) with
          | Some r =>
              match r_download r with
              | Some _ => dev_destroy b ;; throw "browser GPU buffer already has a queued download"
              | None =>
                  modify (λ g, set_downloads (mset b (Download bytes (dr_mapMode d) false false None) (g_downloads g)) g) ;;
                  set_resource handle (Resource (r_bytes r) (r_buffer r) (r_listed r) (Some b)) ;;
                  if dr_mapMode d then dev_use b ;; mret (inl GNull)
                  else throw "WebGPU map mode constants are unavailable"
              end
          | None => throw "no such object"
          end
      | Ok _, None => throw "the run made no buffer"
      | Throw e, _ => dev_destroy_all readback ;; throw e
      end
  | WCopied bytes lease_ readback =>
      match outcome, readback with
      | Ok _, Some b =>
          if dr_mapMode d then dev_use b ;; mret (inr (WMapped bytes lease_ b))
          else dev_destroy b ;; throw "WebGPU map mode constants are unavailable"
      | Ok _, None => throw "the run made no buffer"
      | Throw e, _ => dev_destroy_all readback ;; throw e
      end
  | WMapped bytes lease_ b =>
      try_finally
        (lift outcome ;;
         l ← memoryLease lease_ (VNum (NInt bytes)) true;
         dev_use b ;;
         lease_set l 0 (dr_mapped d) ;;
         dev_use b ;; mret (inl GNull))
        (dev_destroy b)
  | WQueueDone => lift outcome ;; synchronize_from 0
  | WDownload handle b =>
      g ← gets (λ g, g);
      match b with
      | Some b =>
          match mget b (g_downloads g) with
          | Some dl =>
              match d_error dl with
              | Some e => destroyGpuDownload handle ;; throw e
              | None =>
                  modify (λ g, set_downloads (mset b (Download (d_bytes dl) (d_promise dl) (d_ready dl) true None)
                                                (g_downloads g)) g) ;;
                  synchronize_from handle
              end
          | None => throw "no such object"
          end
      | None => throw "no such object"
      end
  end.

(** The mapping of a queued download settles. *)
Definition download_mapped (b : Z) (outcome : res ()) : js gpu () :=
  modify (λ g, match mget b (g_downloads g) with
               | Some dl =>
                   set_downloads (mset b (match outcome with
                     | Ok _ => Download (d_bytes dl) (d_promise dl) true (d_synchronized dl) (d_error dl)
                     | Throw e => Download (d_bytes dl) (d_promise dl) (d_ready dl) (d_synchronized dl) (Some e)
                     end) (g_downloads g)) g
               | None => g
               end).

(** The lease of the operations that borrow one. *)
Definition effect_lease (effect : gpu_effect) : option jsval :=
  match effect with
  | GUpload _ _ _ l | GDispatch _ _ _ _ l | GDownload _ _ _ l | GReadDownload _ l => Some l
  | _ => None
  end.

(** [performGpuRuntimeEffect]: the [finally] runs when the operation is over. *)
Definition settle_operation (op : Z) (effect : gpu_effect) (m : js gpu (gpu_reply + gpu_wait)) : js gpu () := λ g,
  let release := match effect_lease effect with Some l => releaseEffectLease l | None => mret tt end in
  match m g with
  | (Ok (inr w), g') => (modify (λ g, set_waits (mset op (effect, w) (g_waits g)) g)) g'
  | (Ok (inl _), g') => release g'
  | (Throw _, g') => release g'
  end.

(** ** Runs *)

Inductive gpu_event :=
| EvStart (op : Z) (d : device_run) (effect : gpu_effect)
| EvSettled (op : Z) (d : device_run) (outcome : res ())
| EvMapped (b : Z) (outcome : res ())
| EvUncaptured (message : string)
| EvLost (message : string).

(** An operation starts under a number of its own; a settled promise belongs to an
    operation that waits, which then waits for it no longer. *)
Definition run_gpu_event (ev : gpu_event) : js gpu () :=
  g ← gets (λ g, g);
  match ev with
  | EvStart op d effect =>
      match mget op (g_waits g) with
      | None => settle_operation op effect (gpu_operation d effect)
      | Some _ => mret tt
      end
  | EvSettled op d outcome =>
      match mget op (g_waits g) with
      | Some (effect, w) =>
          modify (set_waits (mdelete op (g_waits g))) ;;
          settle_operation op effect (gpu_resume d w outcome)
      | None => mret tt
      end
  | EvMapped b outcome => download_mapped b outcome
  | EvUncaptured message =>
      modify (set_device (g_failure g) (Some (default message (g_uncaptured g))))
  | EvLost message => modify (set_device (Some ("WebGPU device was lost: " +:+ message)) (g_uncaptured g))
  end.

Fixpoint run_gpu (evs : list gpu_event) (g : gpu) : gpu :=
  match evs with
  | [] => g
  | ev :: evs' => run_gpu evs' (run_gpu_event ev g).2
  end.

Definition gpuRuntime (t : option transfers) : gpu := Gpu None None [] [] 1 1 [] [] t [] 1 false.
