(* ===== verification/EffectGpuSpec.v ===== *)
(** Properties of GPU effects: buffers of the device are used only while they exist,
    dispatches cover their count, and borrowed leases come back. *)

From S2P Require Import Prelude Transfers EffectLeases EffectGpu.

(** ** Who owns a buffer of the device *)

Definition res_bufs (r : resource) : list Z := (if r_listed r then [r_buffer r] else []) ++ option_list (r_download r).

Definition wait_bufs (w : gpu_wait) : list Z :=
  match w with
  | WCreateBuffer _ b | WMapped _ _ b => [b]
  | WDispatch b | WEnqueue _ _ b | WCopied _ _ b => option_list b
  | _ => []
  end.

(** The values of a table, flattened. *)
Definition flat {K V} (f : V → list Z) (m : jmap K V) : list Z := concat ((λ p, f p.2) <$> m).

Lemma flat_mset_absent {K V} `{EqDecision K} (f : V → list Z) (k : K) v m :
  mget k m = None → flat f (mset k v m) = flat f m ++ f v.
Proof. intros H. rewrite mset_absent by done. unfold flat. rewrite fmap_app, concat_app. simpl. by rewrite app_nil_r. Qed.

Lemma flat_mset_present {K V} `{EqDecision K} (f : V → list Z) (k : K) v v' m :
  mget k m = Some v → f v ++ flat f (mset k v' m) ≡ₚ f v' ++ flat f m.
Proof.
  unfold flat. induction m as [|[k' w] m IH]; simpl; [done|]. case_decide as Hk.
  - intros [= ->]. simpl. rewrite !app_assoc, (Permutation_app_comm (f v)). done.
  - intros H. simpl. rewrite !(app_assoc _ (f w)), !(Permutation_app_comm _ (f w)), <- !app_assoc.
    apply Permutation_app_head, IH, H.
Qed.

Lemma flat_mdelete {K V} `{EqDecision K} (f : V → list Z) (k : K) v m :
  NoDup m.*1 → mget k m = Some v → flat f m ≡ₚ f v ++ flat f (mdelete k m).
Proof.
  unfold flat. induction m as [|[k' w] m IH]; simpl; [done|]. intros [Hni Hnd]%NoDup_cons. case_decide as Hk.
  - intros [= ->]. subst. by rewrite mdelete_absent by (by apply mget_None_keys).
  - intros H. simpl. rewrite (IH Hnd H). rewrite !app_assoc. apply Permutation_app_tail, Permutation_app_comm.
Qed.

Lemma elem_flat {K V} `{EqDecision K} (f : V → list Z) (k : K) v m b :
  mget k m = Some v → b ∈ f v → b ∈ flat f m.
Proof.
  unfold flat. induction m as [|[k' w] m IH]; simpl; [done|]. rewrite elem_of_app. case_decide; [intros [= ->]; by left|].
  intros Hg Hb. right. auto.
Qed.

Definition owned (extra : list Z) (g : gpu) : list Z :=
  extra ++ flat res_bufs (g_resources g) ++ flat (λ p, wait_bufs p.2) (g_waits g).

(** The invariant, where the running code holds the buffers [extra]. *)
Record gpu_wf (extra : list Z) (g : gpu) : Prop := {
  gw_owned : NoDup (owned extra g);
  gw_live : ∀ b, b ∈ owned extra g → b ∈ g_live g;
  gw_fresh : ∀ b, b ∈ g_live g → b < g_nextObject g;
  gw_fault : g_fault g = false;
  gw_waits : NoDup (g_waits g).*1;
  gw_handles : ∀ h r, mget h (g_resources g) = Some r → h < g_nextBuffer g
}.

(** Code may let go of what it holds. *)
Lemma wf_forget x extra g : gpu_wf (x ++ extra) g → gpu_wf extra g.
Proof.
  intros []. unfold owned in *. rewrite <- app_assoc in *. apply NoDup_app in gw_owned0 as (_ & _ & ?).
  split; try done. intros b Hb. apply gw_live0. apply elem_of_app. by right.
Qed.

Lemma wf_nil extra g : gpu_wf extra g → gpu_wf [] g.
Proof. rewrite <- (app_nil_r extra). apply wf_forget. Qed.

(** States that differ elsewhere. *)
Lemma wf_frame extra g g' :
  g_resources g' = g_resources g → g_waits g' = g_waits g → g_live g' = g_live g → g_nextObject g' = g_nextObject g →
  g_fault g' = g_fault g → g_nextBuffer g' = g_nextBuffer g → gpu_wf extra g → gpu_wf extra g'.
Proof. intros E1 E2 E3 E4 E5 E6 []. split; unfold owned in *; rewrite ?E1, ?E2, ?E3, ?E4, ?E5, ?E6; done. Qed.

(** ** Steps of the running code *)

Definition post {A} (Q : A → gpu → Prop) (m : js gpu A) (g : gpu) : Prop :=
  match m g with (Ok a, g') => Q a g' | (Throw _, g') => gpu_wf [] g' end.

(** Code that changes nothing. *)
Definition pure {A} (m : js gpu A) : Prop := ∀ g, (m g).2 = g.

Lemma post_pure {A B} Q (m : js gpu A) (k : A → js gpu B) extra g :
  pure m → gpu_wf extra g → (∀ a, m g = (Ok a, g) → post Q (k a) g) → post Q (m ≫= k) g.
Proof.
  intros Hm Hw Hk. unfold post, mbind, js_bind in *. specialize (Hm g). destruct (m g) as [[a|e] g']; simpl in Hm; subst.
  - by apply Hk.
  - by eapply wf_nil.
Qed.

Lemma pure_lift {A} (r : res A) : pure (lift r).
Proof. done. Qed.
Lemma pure_gets {A} (f : gpu → A) : pure (gets f).
Proof. done. Qed.
Lemma pure_guard b e : pure (guard_js b e).
Proof. by destruct b. Qed.
Lemma pure_bind {A B} (m : js gpu A) (k : A → js gpu B) : pure m → (∀ a, pure (k a)) → pure (m ≫= k).
Proof.
  intros Hm Hk g. specialize (Hm g). unfold mbind, js_bind. destruct (m g) as [[a|e] g']; simpl in Hm; subst; [apply Hk|done].
Qed.
Lemma pure_memoryLease id n w : pure (memoryLease id n w).
Proof. unfold memoryLease. apply pure_bind; [done|]. by intros []. Qed.
Lemma pure_gpuBuffer h name : pure (gpuBuffer h name).
Proof. unfold gpuBuffer. do 2 (apply pure_bind; [done|intros ?]). by destruct (listed _ _). Qed.
Lemma pure_bound hs name : pure (bound_buffers hs name).
Proof.
  induction hs as [|h hs IH]; simpl; [done|]. apply pure_bind; [apply pure_gpuBuffer|]. intros [].
  by apply pure_bind.
Qed.

(** The device. *)
Lemma create_run extra g :
  gpu_wf extra g → ∃ b g', dev_create g = (Ok b, g') ∧ gpu_wf (b :: extra) g' ∧ g_live g ⊆ g_live g'.
Proof.
  intros []. eexists _, _. split; [done|]. split; [|simpl; set_solver]. split; simpl; try done.
  - unfold owned in *. simpl. constructor; [|done]. intros Hb. specialize (gw_fresh0 _ (gw_live0 _ Hb)). lia.
  - intros b [->|Hb]%elem_of_cons; [set_solver|]. apply elem_of_app. left. by apply gw_live0.
  - intros b [Hb|Hb]%elem_of_app; [specialize (gw_fresh0 b Hb); lia|]. apply list_elem_of_singleton in Hb. lia.
Qed.

Lemma use_live b g : b ∈ g_live g → dev_use b g = (Ok tt, g).
Proof. intros Hb. unfold dev_use, modify. by rewrite decide_True. Qed.

Lemma post_use {B} Q (k : () → js gpu B) b g : b ∈ g_live g → post Q (k tt) g → post Q (dev_use b ≫= k) g.
Proof. intros Hb Hk. unfold post. by erewrite bind_run by (by apply use_live). Qed.

Lemma uses_live bs g : (∀ b, b ∈ bs → b ∈ g_live g) → for_each bs dev_use g = (Ok tt, g).
Proof.
  induction bs as [|b bs IH]; intros H; simpl; [done|].
  erewrite bind_run by (apply use_live, H; by left). apply IH. intros b' Hb'. apply H. by right.
Qed.

Definition destroyed (b : Z) (g : gpu) : gpu :=
  set_objects (filter (λ x, x ≠ b) (g_live g)) (g_nextObject g) (g_fault g) g.

Lemma destroy_live b g : b ∈ g_live g → dev_destroy b g = (Ok tt, destroyed b g).
Proof. intros Hb. unfold dev_destroy, modify. by rewrite decide_True. Qed.

Lemma wf_destroyed b extra g : gpu_wf (b :: extra) g → b ∈ g_live g ∧ gpu_wf extra (destroyed b g).
Proof.
  intros []. unfold owned in *. simpl in *. apply NoDup_cons in gw_owned0 as [Hni Hnd].
  split; [apply gw_live0; left|]. split; simpl; try done.
  - intros b' Hb'. apply list_elem_of_filter. split; [intros ->; done|]. apply gw_live0. by right.
  - intros b' Hb'. apply list_elem_of_filter in Hb' as [_ Hb']. auto.
Qed.

(** ** Resources *)

Lemma wf_update_resource h r r' extra extra' g :
  gpu_wf extra g → mget h (g_resources g) = Some r → extra ++ res_bufs r ≡ₚ extra' ++ res_bufs r' →
  gpu_wf extra' (set_resources (mset h r' (g_resources g)) (g_nextBuffer g) g).
Proof.
  intros [] Hr He.
  assert (owned extra' (set_resources (mset h r' (g_resources g)) (g_nextBuffer g) g) ≡ₚ owned extra g) as Ho.
  { unfold owned. simpl. rewrite !app_assoc. apply Permutation_app_tail. apply (Permutation_app_inv_l (res_bufs r)).
    rewrite !app_assoc, !(Permutation_app_comm (res_bufs r)), <- !app_assoc, (flat_mset_present _ _ _ _ _ Hr).
    rewrite !app_assoc. apply Permutation_app_tail. by rewrite He. }
  split; simpl; try done.
  - by rewrite Ho.
  - intros b. rewrite Ho. auto.
  - intros h' r1 [[-> ->]|[_ H]]%mget_mset_Some; eauto.
Qed.

Definition undownloaded (r : resource) : resource := Resource (r_bytes r) (r_buffer r) (r_listed r) None.

Lemma destroyGpuDownload_run h extra g :
  gpu_wf extra g →
  ∃ g', destroyGpuDownload h g = (Ok tt, g') ∧ gpu_wf extra g' ∧ g_waits g' = g_waits g ∧
    ∀ r, mget h (g_resources g) = Some r → mget h (g_resources g') = Some (undownloaded r).
Proof.
  intros Hw. unfold destroyGpuDownload. erewrite bind_run by done.
  destruct (mget h (g_resources g)) as [r|] eqn:Hr; [|by exists g]. erewrite bind_run by done.
  assert (∀ r0, Some r = Some r0 → mget h (mset h (undownloaded r) (g_resources g)) = Some (undownloaded r0)) as Hget.
  { intros r0 [= <-]. apply mget_mset_eq. }
  destruct (r_download r) as [b|] eqn:Hd.
  - assert (gpu_wf (b :: extra) (set_resources (mset h (undownloaded r) (g_resources g)) (g_nextBuffer g) g)) as W1.
    { eapply wf_update_resource; [done|done|]. unfold res_bufs. rewrite Hd. simpl.
      rewrite app_nil_r, app_assoc. symmetry. apply Permutation_cons_append. }
    destruct (wf_destroyed _ _ _ W1) as [Hl W2]. erewrite bind_run by (by apply use_live). rewrite destroy_live by done.
    eexists. split; [done|]. split; [done|]. split; [done|]. exact Hget.
  - eexists. split; [done|]. split; [|by split]. eapply wf_update_resource; [done|done|].
    unfold res_bufs. by rewrite Hd.
Qed.

Lemma drop_resource_run h r extra g :
  gpu_wf extra g → mget h (g_resources g) = Some r → r_listed r = true →
  ∃ g', drop_resource h g = (Ok tt, g') ∧ gpu_wf extra g'.
Proof.
  intros Hw Hr Hl. unfold drop_resource. destruct (destroyGpuDownload_run h extra g Hw) as (g1 & E1 & W1 & _ & Hg1).
  erewrite bind_run by exact E1. specialize (Hg1 r Hr). erewrite bind_run by done. rewrite Hg1. simpl.
  set (r' := Resource (r_bytes r) (r_buffer r) false None).
  assert (gpu_wf (r_buffer r :: extra) (set_resources (mset h r' (g_resources g1)) (g_nextBuffer g1) g1)) as W2.
  { eapply wf_update_resource; [done|done|]. unfold res_bufs. simpl. rewrite Hl. simpl. rewrite app_nil_r.
    symmetry. apply Permutation_cons_append. }
  destruct (wf_destroyed _ _ _ W2) as [Hlive W3]. simpl in Hlive. erewrite bind_run by (by apply destroy_live).
  eexists. split; [done|]. exact W3.
Qed.

Lemma listed_Some h r g : listed h g = Some r → mget h (g_resources g) = Some r ∧ r_listed r = true.
Proof. unfold listed. destruct (mget h _) as [r0|]; [|done]. destruct (r_listed r0) eqn:E; [|done]. by intros [= ->]. Qed.

Lemma gpuBuffer_Ok h name g id r : gpuBuffer h name g = (Ok (id, r), g) → listed id g = Some r.
Proof.
  unfold gpuBuffer. intros H. apply bind_Ok in H as (n & g1 & [= _ <-] & H). erewrite bind_run in H by done.
  destruct (listed n g) eqn:E; [|done]. by injection H as <- <-.
Qed.

Lemma listed_live id r extra g : gpu_wf extra g → listed id g = Some r → r_buffer r ∈ g_live g.
Proof.
  intros [] (Hr & Hl)%listed_Some. apply gw_live0. unfold owned. rewrite !elem_of_app. right; left.
  eapply elem_flat; [done|]. unfold res_bufs. rewrite Hl. simpl. left.
Qed.

Lemma download_live id r b extra g : gpu_wf extra g → mget id (g_resources g) = Some r → r_download r = Some b → b ∈ g_live g.
Proof.
  intros [] Hr Hd. apply gw_live0. unfold owned. rewrite !elem_of_app. right; left.
  eapply elem_flat; [done|]. unfold res_bufs. rewrite Hd. apply elem_of_app. right. simpl. left.
Qed.

Lemma bound_live hs name g bs extra :
  gpu_wf extra g → bound_buffers hs name g = (Ok bs, g) → ∀ b, b ∈ bs → b ∈ g_live g.
Proof.
  intros Hw. revert bs. induction hs as [|h hs IH]; intros bs; simpl.
  { intros [= <-] b Hb. by apply elem_of_nil in Hb. }
  intros H. apply bind_Ok in H as ([id r] & g1 & H1 & H). pose proof (pure_gpuBuffer h name g) as Hp. rewrite H1 in Hp.
  simpl in Hp. subst g1. apply bind_Ok in H as (rest & g2 & H2 & [= <- E2]).
  pose proof (pure_bound hs name g) as Hp. rewrite H2 in Hp. simpl in Hp. subst g2.
  intros b [->|Hb]%elem_of_cons; [|by eapply IH]. eapply listed_live; [done|]. by eapply gpuBuffer_Ok.
Qed.

(** ** Operations *)

(** What a segment leaves: what it waits with is its own. *)
Definition segment (r : gpu_reply + gpu_wait) (g : gpu) : Prop :=
  gpu_wf (match r with inr w => wait_bufs w | inl _ => [] end) g.

(** A checked run: its buffer, if it made one, is the running code's. *)
Lemma post_checked_run {B} Q d uses (k : option Z → js gpu B) extra g :
  gpu_wf extra g → (∀ b, b ∈ uses → b ∈ g_live g) →
  (∀ o g', gpu_wf (option_list o ++ extra) g' → post Q (k o) g') → post Q (checked_run d uses ≫= k) g.
Proof.
  intros Hw Hu Hk. unfold checked_run, post. destruct (create_run extra g Hw) as (b & g1 & E & W & Hsub).
  assert ((b ← dev_create; for_each uses dev_use ;; mret (Some b)) g = (Ok (Some b), g1)) as Hmade.
  { erewrite bind_run by exact E. erewrite bind_run; [done|]. apply uses_live. auto. }
  destruct (dr_throws d) as [[[] e]|]; erewrite bind_run by (done || exact Hmade); by apply Hk.
Qed.

Lemma lease_set_frame l n bs extra g : gpu_wf extra g → gpu_wf extra (lease_set l n bs g).2 ∧ g_live (lease_set l n bs g).2 = g_live g.
Proof.
  intros Hw. unfold lease_set, mbind, js_bind, gets, lift. cbn [get_transfers gpu_transfers].
  destruct (g_transfers g) as [t|]; [|done]. destruct (view_set l n bs t); [|done]. simpl. split; [|done]. by apply (wf_frame _ g).
Qed.

Lemma post_lease_set {B} Q l n bs (k : () → js gpu B) extra g :
  gpu_wf extra g → (∀ g', gpu_wf extra g' → g_live g' = g_live g → post Q (k tt) g') → post Q (lease_set l n bs ≫= k) g.
Proof.
  intros Hw Hk. unfold post, mbind, js_bind. destruct (lease_set_frame l n bs extra g Hw) as [W E].
  destruct (lease_set l n bs g) as [[[]|e] g1]; simpl in *; [by apply Hk|by eapply wf_nil].
Qed.

(** A [finally] that returns. *)
Lemma post_finally {A} (Q : A → gpu → Prop) m f g :
  (∃ r g1 g2, m g = (r, g1) ∧ f g1 = (Ok tt, g2) ∧ match r with Ok a => Q a g2 | Throw _ => gpu_wf [] g2 end) →
  post Q (try_finally m f) g.
Proof. intros (r & g1 & g2 & E1 & E2 & H). unfold post. rewrite (finally_run _ _ _ _ _ _ E1 E2). by destruct r. Qed.

Lemma close_buffers ids extra g :
  gpu_wf extra g →
  ∃ g', for_each ids (λ id, g ← gets (λ g, g); match listed id g with Some _ => drop_resource id | None => mret tt end) g =
    (Ok tt, g') ∧ gpu_wf extra g'.
Proof.
  revert g. induction ids as [|id ids IH]; intros g Hw; cbn [for_each]; [by exists g|].
  destruct (listed id g) as [r|] eqn:El.
  - pose proof El as [Hr Hl]%listed_Some. destruct (drop_resource_run id r extra g Hw Hr Hl) as (g1 & E1 & W1).
    destruct (IH g1 W1) as (g2 & E2 & W2). exists g2. split; [|done].
    erewrite bind_run; [exact E2|]. erewrite bind_run by done. by rewrite El.
  - destruct (IH g Hw) as (g2 & E2 & W2). exists g2. split; [|done].
    erewrite bind_run; [exact E2|]. erewrite bind_run by done. by rewrite El.
Qed.

Lemma close_kernels ids extra g :
  gpu_wf extra g →
  ∃ g', for_each ids (λ id, modify (λ g, set_kernels (mdelete id (g_kernels g)) (g_nextKernel g) g)) g = (Ok tt, g') ∧ gpu_wf extra g'.
Proof.
  revert g. induction ids as [|id ids IH]; intros g Hw; cbn [for_each]; [by exists g|].
  erewrite bind_run by done. apply IH. by apply (wf_frame _ g).
Qed.

(** Reading a download that is there: the mapped buffer is copied, then freed. *)
Lemma read_download_safe d id r b dl lease_ g :
  gpu_wf [] g → mget id (g_resources g) = Some r → r_download r = Some b →
  post segment (try_finally (l ← memoryLease lease_ (VNum (NInt (d_bytes dl))) true;
                             dev_use b ;; lease_set l 0 (dr_mapped d) ;; mret (inl GNull))
                            (destroyGpuDownload id)) g.
Proof.
  intros Hw Hr Hd. apply post_finally. pose proof (download_live _ _ _ _ _ Hw Hr Hd) as Hlive.
  match goal with |- ∃ r g1 g2, ?m g = _ ∧ _ => set (M := m) end.
  assert (post (λ a g', a = inl GNull ∧ gpu_wf [] g') M g) as Hp.
  { eapply post_pure; [apply pure_memoryLease|exact Hw|]. intros l _. apply post_use; [done|].
    eapply post_lease_set; [exact Hw|]. intros g' W' _. by split. }
  unfold post in Hp. destruct (M g) as [res g1].
  assert (gpu_wf [] g1) as W1 by (destruct res; [by destruct Hp|done]).
  destruct (destroyGpuDownload_run id [] g1 W1) as (g2 & E2 & W2 & _). exists res, g1, g2. split; [done|]. split; [done|].
  destruct res as [a|]; [|done]. by destruct Hp as [-> _].
Qed.

Lemma gpu_operation_safe d effect g : gpu_wf [] g → post segment (gpu_operation d effect) g.
Proof.
  intros Hw. unfold gpu_operation. unfold post at 1. erewrite bind_run by done. fold (post segment).
  destruct (g_failure g); [exact Hw|].
  destruct (g_uncaptured g). { erewrite bind_run by done. by apply (wf_frame _ g). }
  destruct effect as [|[bs|] [ks|]|n|h|? ? ? ? ? ?|k|h o n l|k rd wr n l|h o n|h l|h o n l| |]; try (exact Hw).
  - eapply (post_pure segment); [apply pure_lift|exact Hw|]. intros ids _. eapply post_pure; [apply pure_lift|exact Hw|].
    intros ks' _. destruct (close_buffers ids [] g Hw) as (g1 & E1 & W1). destruct (close_kernels ks' [] g1 W1) as (g2 & E2 & W2).
    unfold post. erewrite bind_run by exact E1. by erewrite bind_run by exact E2.
  - eapply (post_pure segment); [apply pure_lift|exact Hw|]. intros m _. eapply post_pure; [apply pure_guard|exact Hw|]. intros _ _.
    destruct (dr_throws d) as [[? e]|]; [exact Hw|].
    destruct (create_run [] g Hw) as (b & g1 & E1 & W1 & _). unfold post. by erewrite bind_run by exact E1.
  - eapply (post_pure segment); [apply pure_gpuBuffer|exact Hw|]. intros [id r] [Hr Hl]%gpuBuffer_Ok%listed_Some.
    destruct (drop_resource_run id r [] g Hw Hr Hl) as (g1 & E1 & W1). unfold post. by erewrite bind_run by exact E1.
  - eapply (post_pure segment); [apply pure_lift|exact Hw|]. by intros k _.
  - eapply (post_pure segment); [apply pure_lift|exact Hw|]. intros id _. unfold post. erewrite bind_run by done.
    by apply (wf_frame _ g).
  - eapply (post_pure segment); [apply pure_gpuBuffer|exact Hw|]. intros [id r] Hb%gpuBuffer_Ok.
    eapply post_pure; [apply pure_lift|exact Hw|]. intros [? m] _. eapply post_pure; [apply pure_memoryLease|exact Hw|].
    intros _ _. apply post_use; [by eapply listed_live|]. done.
  - eapply (post_pure segment); [apply pure_lift|exact Hw|]. intros id _.
    destruct (mget id (g_kernels g)) as [kn|]; [|exact Hw].
    destruct rd as [rd|]; [|exact Hw]. destruct wr as [wr|]; [|exact Hw].
    eapply post_pure; [apply pure_guard|exact Hw|]. intros _ _. do 2 (eapply post_pure; [apply pure_lift|exact Hw|]; intros ? _).
    eapply post_pure; [apply pure_memoryLease|exact Hw|]. intros _ _.
    eapply post_pure; [apply pure_bound|exact Hw|]. intros rs Hrs. eapply post_pure; [apply pure_bound|exact Hw|]. intros ws Hws.
    eapply post_checked_run; [exact Hw| |].
    { intros b [Hb|Hb]%elem_of_app; [exact (bound_live _ _ _ _ _ Hw Hrs b Hb)|exact (bound_live _ _ _ _ _ Hw Hws b Hb)]. }
    intros u g' W'. rewrite app_nil_r in W'. exact W'.
  - eapply (post_pure segment); [apply pure_gpuBuffer|exact Hw|]. intros [id r] Hb%gpuBuffer_Ok.
    eapply post_pure; [apply pure_lift|exact Hw|]. intros [? m] _. eapply post_pure; [apply pure_guard|exact Hw|]. intros _ _.
    eapply post_checked_run; [exact Hw| |].
    { intros b ->%list_elem_of_singleton. by eapply listed_live. }
    intros u g' W'. rewrite app_nil_r in W'. exact W'.
  - eapply (post_pure segment); [apply pure_gpuBuffer|exact Hw|]. intros [id r] [Hr Hl]%gpuBuffer_Ok%listed_Some.
    destruct (r_download r) as [b|] eqn:Hd; [|exact Hw].
    destruct (mget b (g_downloads g)) as [dl|]; [|exact Hw].
    eapply post_pure; [apply pure_guard|exact Hw|]. intros _ _. by eapply read_download_safe.
  - eapply (post_pure segment); [apply pure_gpuBuffer|exact Hw|]. intros [id r] Hb%gpuBuffer_Ok.
    eapply post_pure; [apply pure_lift|exact Hw|]. intros [? m] _. eapply post_pure; [apply pure_memoryLease|exact Hw|]. intros _ _.
    eapply post_checked_run; [exact Hw| |].
    { intros b ->%list_elem_of_singleton. by eapply listed_live. }
    intros u g' W'. rewrite app_nil_r in W'. exact W'.
Qed.

Lemma wf_add_resource bytes b g :
  gpu_wf [b] g →
  gpu_wf [] (set_resources (mset (g_nextBuffer g) (Resource bytes b true None) (g_resources g)) (g_nextBuffer g + 1) g).
Proof.
  intros []. assert (mget (g_nextBuffer g) (g_resources g) = None) as Hn.
  { destruct (mget _ _) as [r|] eqn:E; [|done]. specialize (gw_handles0 _ _ E). lia. }
  assert (owned [] (set_resources (mset (g_nextBuffer g) (Resource bytes b true None) (g_resources g)) (g_nextBuffer g + 1) g)
          ≡ₚ owned [b] g) as Ho.
  { unfold owned. simpl. rewrite (flat_mset_absent _ _ _ _ Hn). unfold res_bufs at 2. simpl.
    rewrite <- app_assoc. simpl. symmetry. apply Permutation_middle. }
  split; simpl; try done.
  - by rewrite Ho.
  - intros x. rewrite Ho. auto.
  - intros h r [[-> _]|[_ H]]%mget_mset_Some; [lia|]. specialize (gw_handles0 _ _ H). lia.
Qed.

Lemma destroy_all_run o extra g :
  gpu_wf (option_list o ++ extra) g → ∃ g', dev_destroy_all o g = (Ok tt, g') ∧ gpu_wf extra g'.
Proof.
  destruct o as [b|]; simpl; [|by exists g]. intros [Hl W]%wf_destroyed. exists (destroyed b g).
  split; [by apply destroy_live|done].
Qed.

(** The copy of a download is not used after the [await] in which it was mapped. *)
Lemma map_enqueued_safe d h bytes b g : gpu_wf [b] g → post segment (gpu_resume d (WEnqueue h bytes (Some b)) (Ok tt)) g.
Proof.
  intros Hw. unfold post. cbn [gpu_resume]. erewrite bind_run by done.
  destruct (mget h (g_resources g)) as [r|] eqn:Hr; [|by eapply wf_nil].
  destruct (r_download r) as [b'|] eqn:Hd.
  { destruct (wf_destroyed _ _ _ Hw) as [Hl W]. erewrite bind_run by (by apply destroy_live). exact W. }
  erewrite bind_run by done. erewrite bind_run by done.
  match goal with |- context [set_resources ?m ?n (set_downloads ?x g)] => assert (gpu_wf [] (set_resources m n (set_downloads x g))) as W end.
  { eapply wf_update_resource; [by apply (wf_frame [b] g)|done|]. unfold res_bufs. rewrite Hd. simpl.
    rewrite app_nil_r. apply Permutation_cons_append. }
  destruct (dr_mapMode d); [|exact W]. erewrite bind_run; [exact W|]. apply use_live. simpl. apply Hw.
  unfold owned. left.
Qed.

Lemma read_mapped_safe d bytes lease_ b outcome g : gpu_wf [b] g → post segment (gpu_resume d (WMapped bytes lease_ b) outcome) g.
Proof.
  intros Hw. cbn [gpu_resume]. apply post_finally. pose proof (wf_destroyed _ _ _ Hw) as [Hlive _].
  match goal with |- ∃ r g1 g2, ?m g = _ ∧ _ => set (M := m) end.
  assert (gpu_wf [b] (M g).2 ∧ ∀ a, (M g).1 = Ok a → a = inl GNull) as [W1 Ha].
  { subst M. destruct outcome as [[]|e]; [|done]. unfold mbind, js_bind, lift.
    pose proof (pure_memoryLease lease_ (VNum (NInt bytes)) true g) as Hp.
    destruct (memoryLease _ _ _ g) as [[l|e] g1]; simpl in Hp; subst; [|done]. rewrite use_live by done.
    destruct (lease_set_frame l 0 (dr_mapped d) [b] g Hw) as [W1 El].
    destruct (lease_set l 0 (dr_mapped d) g) as [[[]|e] g1]; simpl in *; [|by split].
    rewrite decide_True by (by rewrite El). split; [done|]. by intros a [= <-]. }
  destruct (M g) as [res g1]. destruct (wf_destroyed _ _ _ W1) as [Hl1 W2].
  exists res, g1, (destroyed b g1). split; [done|]. split; [by apply destroy_live|]. destruct res as [a|]; [|done].
  by rewrite (Ha a eq_refl).
Qed.

Lemma synchronize_safe after g : gpu_wf [] g → post segment (synchronize_from after) g.
Proof. intros Hw. unfold post, synchronize_from. erewrite bind_run by done. by destruct (next_download _ _) as [[]|]. Qed.

Lemma gpu_resume_safe d w outcome g : gpu_wf (wait_bufs w) g → post segment (gpu_resume d w outcome) g.
Proof.
  intros Hw. destruct w as [n b|k| |u|h n rb|n l rb|n l b| |h dl].
  - eapply post_pure; [apply pure_lift|exact Hw|]. intros _ _. by apply wf_add_resource.
  - eapply post_pure; [apply pure_lift|exact Hw|]. intros _ _. by apply (wf_frame _ g).
  - by eapply post_pure; [apply pure_lift|exact Hw|].
  - apply post_finally. simpl in Hw. rewrite <- (app_nil_r (option_list u)) in Hw.
    destruct (destroy_all_run u [] g Hw) as (g1 & E1 & W1). exists (match outcome with Ok _ => Ok (inl GNull) | Throw e => Throw e end), g, g1. split; [by destruct outcome|].
    split; [done|]. by destruct outcome as [[]|].
  - destruct outcome as [[]|e], rb as [b|]; [by apply map_enqueued_safe|done| |done].
    unfold post. cbn [gpu_resume dev_destroy_all]. destruct (wf_destroyed _ _ _ Hw) as [Hl W].
    erewrite bind_run by (by apply destroy_live). exact W.
  - destruct outcome as [[]|e], rb as [b|]; [|done| |done]; pose proof (wf_destroyed _ _ _ Hw) as [Hl W]; unfold post; cbn [gpu_resume dev_destroy_all].
    + destruct (dr_mapMode d); (erewrite bind_run by (by first [apply use_live|apply destroy_live])); [exact Hw|exact W].
    + erewrite bind_run by (by apply destroy_live). exact W.
  - by apply read_mapped_safe.
  - eapply post_pure; [apply pure_lift|exact Hw|]. intros _ _. by apply synchronize_safe.
  - unfold post. cbn [gpu_resume]. erewrite bind_run by done. destruct dl as [b|]; [|exact Hw].
    destruct (mget b (g_downloads g)) as [x|]; [|exact Hw]. destruct (d_error x).
    + destruct (destroyGpuDownload_run h [] g Hw) as (g1 & E1 & W1 & _). erewrite bind_run by exact E1. exact W1.
    + erewrite bind_run by done. apply synchronize_safe. by apply (wf_frame _ g).
Qed.

(** ** Runs *)

Section KeepWaits.
Context (ws : jmap Z (gpu_effect * gpu_wait)).
Let I (g : gpu) : Prop := g_waits g = ws.

Lemma waits_use b : preserves I (dev_use b).
Proof. apply preserves_modify. intros g H. by case_decide. Qed.
Lemma waits_destroy b : preserves I (dev_destroy b).
Proof. apply preserves_modify. intros g H. by case_decide. Qed.
Lemma waits_modify f : (∀ g, g_waits (f g) = g_waits g) → preserves I (modify f).
Proof. intros H. apply preserves_modify. intros g Hg. unfold I. by rewrite H. Qed.

Hint Resolve waits_use waits_destroy : jsinv.
Hint Extern 1 (preserves _ (modify _)) => (apply waits_modify; done) : jsinv.

Lemma waits_memoryLease id n w : preserves I (memoryLease id n w).
Proof. unfold memoryLease. preserve. Qed.
Lemma waits_lease_set l n bs : preserves I (lease_set l n bs).
Proof. unfold lease_set. preserve. Qed.
Lemma waits_gpuBuffer h name : preserves I (gpuBuffer h name).
Proof. unfold gpuBuffer. preserve. Qed.
Lemma waits_destroyGpuDownload h : preserves I (destroyGpuDownload h).
Proof. unfold destroyGpuDownload, set_resource. preserve. Qed.
Hint Resolve waits_memoryLease waits_lease_set waits_gpuBuffer waits_destroyGpuDownload : jsinv.

Lemma waits_drop_resource h : preserves I (drop_resource h).
Proof. unfold drop_resource, set_resource. preserve. Qed.
Lemma waits_bound hs name : preserves I (bound_buffers hs name).
Proof. induction hs as [|h hs IH]; simpl; preserve. Qed.
Lemma waits_checked d us : preserves I (checked_run d us).
Proof. unfold checked_run, dev_create. preserve. Qed.
Lemma waits_synchronize n : preserves I (synchronize_from n).
Proof. unfold synchronize_from. preserve. Qed.
Hint Resolve waits_drop_resource waits_bound waits_checked waits_synchronize : jsinv.

Lemma waits_operation d effect : preserves I (gpu_operation d effect).
Proof. unfold gpu_operation, dev_create. preserve. Qed.
Lemma waits_resume d w outcome : preserves I (gpu_resume d w outcome).
Proof. unfold gpu_resume, dev_destroy_all, set_resource. preserve. Qed.
End KeepWaits.

Definition release_of (effect : gpu_effect) : js gpu () :=
  match effect_lease effect with Some l => releaseEffectLease l | None => mret tt end.

Lemma release_safe effect g : gpu_wf [] g → ∃ g', release_of effect g = (Ok tt, g') ∧ gpu_wf [] g'.
Proof.
  intros Hw. unfold release_of. destruct (effect_lease effect); [|by exists g]. eexists. split; [done|].
  by apply (wf_frame _ g).
Qed.

Lemma settle_safe op effect m g :
  mget op (g_waits g) = None → g_waits (m g).2 = g_waits g → post segment m g → gpu_wf [] (settle_operation op effect m g).2.
Proof.
  intros Hop Hws Hp. unfold settle_operation, post in *. fold (release_of effect).
  destruct (m g) as [[[r|w]|e] g']; simpl in Hws.
  - destruct (release_safe effect g' Hp) as (g2 & E & W). by rewrite E.
  - simpl. destruct Hp as [H1 H2 H3 H4 H5 H6]. rewrite <- Hws in Hop.
    assert (owned [] (set_waits (mset op (effect, w) (g_waits g')) g') ≡ₚ owned (wait_bufs w) g') as Ho.
    { unfold owned. simpl. rewrite (flat_mset_absent _ _ _ _ Hop). simpl. rewrite app_assoc. apply Permutation_app_comm. }
    split; simpl; try done; [by rewrite Ho|intros b; rewrite Ho; auto|]. by apply NoDup_mset.
  - destruct (release_safe effect g' Hp) as (g2 & E & W). by rewrite E.
Qed.

Lemma unwait_safe op effect w g :
  gpu_wf [] g → mget op (g_waits g) = Some (effect, w) → gpu_wf (wait_bufs w) (set_waits (mdelete op (g_waits g)) g).
Proof.
  intros [H1 H2 H3 H4 H5 H6] Hg.
  assert (owned (wait_bufs w) (set_waits (mdelete op (g_waits g)) g) ≡ₚ owned [] g) as Ho.
  { unfold owned. simpl. rewrite (flat_mdelete (λ p : gpu_effect * gpu_wait, wait_bufs p.2) _ _ _ H5 Hg). simpl.
    rewrite !app_assoc. apply Permutation_app_tail, Permutation_app_comm. }
  split; simpl; try done; [by rewrite Ho|intros b; rewrite Ho; auto|]. by apply NoDup_mdelete.
Qed.

Lemma run_gpu_event_safe ev g : gpu_wf [] g → gpu_wf [] (run_gpu_event ev g).2.
Proof.
  intros Hw. unfold run_gpu_event. erewrite bind_run by done. destruct ev as [op d effect|op d outcome|b outcome|e|e].
  - destruct (mget op (g_waits g)) eqn:Hop; [done|]. apply settle_safe; [done|by apply waits_operation|by apply gpu_operation_safe].
  - destruct (mget op (g_waits g)) as [[effect w]|] eqn:Hop; [|done]. erewrite bind_run by done.
    apply settle_safe; [|by apply waits_resume|apply gpu_resume_safe; by eapply unwait_safe].
    simpl. by apply mget_mdelete_eq.
  - simpl. destruct (mget b (g_downloads g)); [|done]. by apply (wf_frame _ g).
  - by apply (wf_frame _ g).
  - by apply (wf_frame _ g).
Qed.

Lemma run_gpu_safe evs g : gpu_wf [] g → gpu_wf [] (run_gpu evs g).
Proof. revert g. induction evs as [|ev evs IH]; intros g Hw; [done|]. by apply IH, run_gpu_event_safe. Qed.

Lemma gpuRuntime_safe t : gpu_wf [] (gpuRuntime t).
Proof. split; simpl; try done; [constructor| |constructor]; intros b Hb; by apply elem_of_nil in Hb. Qed.

(** C27 The device's buffers are used and destroyed only while they exist: however
    GPU operations, the promises they wait for, mappings, uncaptured errors and a loss
    of the device are interleaved, no operation touches a buffer it or another one has
    destroyed, none is destroyed twice, and each handle of the table names a buffer that
    is still there and a download, if it has one, that is too. *)
Theorem gpu_no_use_after_destroy t evs :
  let g := run_gpu evs (gpuRuntime t) in
  g_fault g = false ∧
  ∀ h r, listed h g = Some r → r_buffer r ∈ g_live g ∧ ∀ b, r_download r = Some b → b ∈ g_live g ∧ b ≠ r_buffer r.
Proof.
  intros g. pose proof (run_gpu_safe evs _ (gpuRuntime_safe t)) as Hw. fold g in Hw. split; [apply Hw|].
  intros h r Hl. split; [by eapply listed_live|]. intros b Hb. pose proof Hl as [Hr Hlr]%listed_Some.
  split; [by eapply download_live|]. pose proof (gw_owned _ _ Hw) as Hnd. unfold owned, flat in Hnd. simpl in Hnd.
  apply NoDup_app in Hnd as (Hnd & _ & _). intros ->. clear -Hnd Hr Hlr Hb.
  induction (g_resources g) as [|[h' r'] m IH]; [done|]. simpl in *. apply NoDup_app in Hnd as (H1 & _ & H2).
  case_decide; [|by apply IH]. injection Hr as ->. unfold res_bufs in H1. rewrite Hlr, Hb in H1. simpl in H1.
  apply NoDup_cons in H1 as [Hni _]. apply Hni. left.
Qed.

Lemma ceil_div_spec a b : 0 <= a → 1 <= b → a <= ceil_div a b * b ∧ (ceil_div a b - 1) * b < a ∨ a = 0 ∧ ceil_div a b = 0.
Proof.
  intros Ha Hb. unfold ceil_div. pose proof (Z.div_mod (a + b - 1) b ltac:(lia)). pose proof (Z.mod_pos_bound (a + b - 1) b ltac:(lia)).
  destruct (decide (a = 0)) as [->|]; [right; split; [done|]; apply Z.div_small; lia|]. left. nia.
Qed.

(** A dispatch covers its count: the workgroups it submits stay within the device's
    limit in each dimension, hold at least one thread per item, and waste less than one
    row of workgroups; a count that no such shape covers is refused. *)
Theorem dispatch_covers count threads limit :
  0 <= count → 1 <= threads <= 256 → 1 <= limit →
  match dispatch_shape count threads limit with
  | Ok (columns, rows) =>
      0 <= columns <= limit ∧ 1 <= rows <= limit ∧ count <= columns * rows * threads ∧
      (columns * (rows - 1) * threads < count ∨ count = 0)
  | Throw _ => limit * limit * threads < count
  end.
Proof.
  intros Hc Ht Hl. unfold dispatch_shape. pose proof (ceil_div_spec count threads Hc ltac:(lia)) as Hg.
  set (groups := ceil_div count threads) in *. assert (0 <= groups) as Hg0 by nia.
  destruct (Z.ltb_spec limit groups) as [Hgl|Hgl].
  - pose proof (ceil_div_spec groups limit Hg0 Hl) as Hr. set (rows := ceil_div groups limit) in *.
    rewrite Z.min_r by lia. destruct (Z.ltb_spec limit rows) as [Hrl|Hrl].
    + assert (limit * limit <= groups - 1) by nia. nia.
    + assert (1 <= rows) by nia. split; [lia|]. split; [lia|]. split; [|left].
      * assert (groups <= limit * rows) by lia. nia.
      * assert (limit * (rows - 1) <= groups - 1) by lia. nia.
  - rewrite Z.min_l by lia. destruct (Z.ltb_spec limit 1); [lia|].
    split; [lia|]. split; [lia|]. split; [nia|]. destruct (decide (count = 0)); [by right|left; lia].
Qed.

Lemma dispatch_covers_witness :
  dispatch_shape 20000000 64 65535 = Ok (65535, 5) ∧ 20000000 <= 65535 * 5 * 64.
Proof.
  split; [vm_compute; reflexivity|]. refine (proj1 (proj2 (proj2 (dispatch_covers 20000000 64 65535 _ _ _)))); lia.
Defined.

(** ** Leases *)

Lemma settle_releases op effect l m g :
  effect_lease effect = Some l →
  let g' := (settle_operation op effect m g).2 in
  is_Some (mget op (g_waits g')) ∨ ∀ t n w, g_transfers g' = Some t → is_ok (lease_of l n w t) = false.
Proof.
  intros Hl. unfold settle_operation. rewrite Hl. destruct (m g) as [[[r|w]|e] g1]; simpl.
  - right. intros t n w. destruct (g_transfers g1); [|done]. intros [= <-]. apply lease_released.
  - left. rewrite mget_mset_eq. eauto.
  - right. intros t n w0. destruct (g_transfers g1); [|done]. intros [= <-]. apply lease_released.
Qed.

(** An operation that borrows a lease gives it back when it is over, whether it
    answered or failed, at its start or after any of its waits: it is either still
    waiting or its lease can no longer be taken. *)
Theorem gpu_lease_returned op effect l g :
  effect_lease effect = Some l →
  (mget op (g_waits g) = None → ∀ d,
     let g' := (run_gpu_event (EvStart op d effect) g).2 in
     is_Some (mget op (g_waits g')) ∨ ∀ t n w, g_transfers g' = Some t → is_ok (lease_of l n w t) = false) ∧
  (∀ w d outcome, mget op (g_waits g) = Some (effect, w) →
     let g' := (run_gpu_event (EvSettled op d outcome) g).2 in
     is_Some (mget op (g_waits g')) ∨ ∀ t n w, g_transfers g' = Some t → is_ok (lease_of l n w t) = false).
Proof.
  intros Hl. split.
  - intros Hop d. unfold run_gpu_event. erewrite bind_run by done. rewrite Hop. by apply settle_releases.
  - intros w d outcome Hop. unfold run_gpu_event. erewrite bind_run by done. rewrite Hop.
    erewrite bind_run by done. by apply settle_releases.
Qed.

Definition plain_run : device_run := DeviceRun 65535 None true [].
Definition demo_upload : gpu_effect := GUpload (VNum (NInt 7)) VUndef VUndef (VNum (NInt 1)).
Definition demo_leases : transfers := Transfers [] [(1, Lease 1 0 0 false false)].

Lemma gpu_lease_returned_witness :
  let g' := (run_gpu_event (EvStart 1 plain_run demo_upload) (gpuRuntime (Some demo_leases))).2 in
  g_waits g' = [] ∧
  (is_Some (mget 1 (g_waits g')) ∨ ∀ t n w, g_transfers g' = Some t → is_ok (lease_of (VNum (NInt 1)) n w t) = false).
Proof.
  split; [vm_compute; reflexivity|].
  exact (proj1 (gpu_lease_returned 1 demo_upload (VNum (NInt 1)) (gpuRuntime (Some demo_leases)) eq_refl) eq_refl plain_run).
Defined.

(** A buffer destroyed while the copy of its download is awaited leaves the copy's
    buffer behind: the download is attached to the object the table no longer lists, so
    no later operation, and not the close of the context, can destroy it. *)
Example destroyed_buffer_leaks_download :
  let g := run_gpu [EvStart 1 plain_run (GCreateBuffer (VNum (NInt 64))); EvSettled 1 plain_run (Ok tt);
                    EvStart 2 plain_run (GEnqueueDownload (VNum (NInt 1)) VUndef VUndef);
                    EvStart 3 plain_run (GDestroyBuffer (VNum (NInt 1)));
                    EvSettled 2 plain_run (Ok tt); EvMapped 2 (Ok tt);
                    EvStart 4 plain_run GSynchronize; EvSettled 4 plain_run (Ok tt);
                    EvStart 5 plain_run (GClose (Some [VNum (NInt 1)]) (Some []))] (gpuRuntime None) in
  g_live g = [2] ∧ listed 1 g = None ∧ g_waits g = [].
Proof. vm_compute. done. Qed.
