(* ===== verification/EffectCrypto.v ===== *)
(** Effects that ask the platform: SHA-256 and HMAC with Web Crypto, and the GPU device an application's run shares,
    [src/runtime/wasm/app-runtime.mjs].  Web Crypto's functions and WebGPU's answers are parameters. *)

From S2P Require Import Prelude Wire WorkerPool EffectCodec.

(** ** Web Crypto *)

Section Crypto.
(** Whether the host has Web Crypto, and its digest and signature. *)
Context (available : bool) (digest : list byte → list byte) (hmac : list byte → list byte → list byte).

Definition webCrypto : res () := if available then Ok tt else Throw "Web Crypto is unavailable in this host".

Definition performSha256Effect (bytesBase64 : jsval) : res string :=
  bytes ← base64ToBytes bytesBase64 "SHA-256 input";
  webCrypto ;;
  mret (bytes_text (hex (digest bytes))).

Definition performHmacEffect (keyBase64 messageBase64 : jsval) : res string :=
  webCrypto ;;
  key ← base64ToBytes keyBase64 "HMAC key";
  message ← base64ToBytes messageBase64 "HMAC message";
  mret (bytes_text (bytesToBase64 (hmac key message))).

(** What the guest sends in base64 is what is hashed and signed, and what it gets decodes to the platform's answer. *)
Lemma crypto_answers bytes key message : available = true →
  performSha256Effect (VStr (bytes_text (bytesToBase64 bytes))) = Ok (bytes_text (hex (digest bytes))) ∧
  ∃ text, performHmacEffect (VStr (bytes_text (bytesToBase64 key))) (VStr (bytes_text (bytesToBase64 message))) = Ok text ∧
    base64ToBytes (VStr text) "digest" = Ok (hmac key message).
Proof.
  intros Ha. assert (∀ b label, base64ToBytes (VStr (bytes_text (bytesToBase64 b))) label = Ok b) as Hb by (intros b label; apply base64_read_back).
  unfold performSha256Effect, performHmacEffect, webCrypto. rewrite Ha, !Hb. cbn [mbind res_bind mret res_ret]. split; [done|]. eexists. split; [done|]. apply Hb.
Qed.
End Crypto.

(** ** The device *)

(** [options.gpuDevice]: a promise that waits for an adapter or a device, or has settled. *)
Inductive acquisition := AskedAdapter | AskedDevice | Acquired (device : nat) | Refused (e : string).

(** The run's device, how often an adapter was asked for, the devices made, and the failure a loss leaves. *)
Record device_state := DeviceState { dv_device : option acquisition; dv_asked : nat; dv_made : nat; dv_failure : option string }.

Definition webGpu (available : bool) : res () := if available then Ok tt else Throw "WebGPU is unavailable in this Worker".

(** [gpuDevice(options)] up to its [await]. *)
Definition gpuDevice (available : bool) (s : device_state) : device_state :=
  match dv_device s with
  | Some _ => s
  | None =>
      match webGpu available with
      | Ok _ => DeviceState (Some AskedAdapter) (S (dv_asked s)) (dv_made s) (dv_failure s)
      | Throw e => DeviceState (Some (Refused e)) (dv_asked s) (dv_made s) (dv_failure s)
      end
  end.

Inductive device_event :=
| DAsk (available : bool)
| DAdapter (found : res bool)
| DDevice (made : res ())
| DLost (message : string).

Definition device_step (s : device_state) (e : device_event) : device_state :=
  match e, dv_device s with
  | DAsk available, _ => gpuDevice available s
  | DAdapter (Ok true), Some AskedAdapter => DeviceState (Some AskedDevice) (dv_asked s) (dv_made s) (dv_failure s)
  | DAdapter (Ok false), Some AskedAdapter => DeviceState (Some (Refused "no WebGPU adapter is available")) (dv_asked s) (dv_made s) (dv_failure s)
  | DAdapter (Throw e), Some AskedAdapter => DeviceState (Some (Refused e)) (dv_asked s) (dv_made s) (dv_failure s)
  | DDevice (Ok _), Some AskedDevice => DeviceState (Some (Acquired (dv_made s))) (dv_asked s) (S (dv_made s)) (dv_failure s)
  | DDevice (Throw e), Some AskedDevice => DeviceState (Some (Refused e)) (dv_asked s) (dv_made s) (dv_failure s)
  | DLost message, Some (Acquired _) => DeviceState None (dv_asked s) (dv_made s) (Some ("WebGPU device was lost: " +:+ message))
  | _, _ => s
  end.

Definition is_ask (e : device_event) : bool := match e with DAsk _ => true | _ => false end.
Definition is_lost (e : device_event) : bool := match e with DLost _ => true | _ => false end.

(** Operations that ask at the same time share a device: an adapter is asked for at most once more than devices were lost. *)
Lemma device_shared events : let s := foldl device_step (DeviceState None 0 0 None) events in
  (dv_asked s <= S (length (filter (λ e, is_lost e = true) events)))%nat ∧ (dv_made s <= dv_asked s)%nat.
Proof.
  cbn zeta. assert (∀ s n, (dv_asked s + (match dv_device s with None => 1 | Some _ => 0 end) <= S n)%nat →
    (dv_made s + (match dv_device s with Some AskedAdapter | Some AskedDevice => 1 | _ => 0 end) <= dv_asked s)%nat →
    let s' := foldl device_step s events in (dv_asked s' <= S (n + length (filter (λ e, is_lost e = true) events)))%nat ∧ (dv_made s' <= dv_asked s')%nat) as H.
  { induction events as [|e events IH]; intros s n H1 H2; cbn zeta; [cbn; lia|]. cbn [foldl]. rewrite filter_cons.
    set (k := if is_lost e then 1%nat else 0%nat).
    assert (length (if decide (is_lost e = true) then e :: filter (λ e, is_lost e = true) events else filter (λ e, is_lost e = true) events)
      = (k + length (filter (λ e, is_lost e = true) events))%nat) as -> by (unfold k; by destruct (is_lost e)).
    rewrite Nat.add_assoc. apply IH; unfold k; destruct s as [d a md f]; cbn in H1, H2 |- *;
      destruct e as [av|[[]|]|[]|]; cbn; unfold gpuDevice, webGpu; cbn; destruct d as [[]|]; cbn in *; try (destruct av; cbn in *); lia. }
  apply (H (DeviceState None 0 0 None) 0%nat); cbn; lia.
Qed.

(** An acquisition that failed is kept: the operations after it fail the same way, and no adapter is asked for again. *)
Example refused_is_kept :
  foldl device_step (DeviceState None 0 0 None) [DAsk true; DAdapter (Ok false); DAsk true; DAdapter (Ok true)] =
    DeviceState (Some (Refused "no WebGPU adapter is available")) 1 0 None.
Proof. vm_compute. done. Qed.
