(* ===== verification/Guest.v ===== *)
(** One guest worker and its owner, [src/runtime/luajit/host.mjs].

    [createGuest] closes over mutable locals; they are the fields of [guest].  A
    [Worker] it starts is a number, in the order they start; each promise of
    [receive] is a number too, and how it settles is recorded.  What crosses between
    the page and a worker (boots, responses, frames) is kept in one log, in order, and
    so is what [onProgress] is told.  The [Worker] constructor returns: one that throws
    ends [createGuest] before there is a guest. *)

From S2P Require Import Prelude.

Section Guest.
Context {D R : Type}.

(** ** Data *)

(** What a worker posts.  Everything but the first five types is a frame. *)
Record guest_frame := GuestFrame {
  gf_type : string;
  gf_sequence : jsval;
  gf_result : D
}.

Inductive guest_data :=
| DSnapshotSelected
| DFailed (error log : string)
| DReady
| DLog
| DSnapshotFallback (reason : string)
| DFrame (f : guest_frame).

Inductive guest_timer := TFailed (instance : Z) | TClose.

Inductive crossing :=
| XBoot (instance : Z) (app : list byte) (snapshot : bool)
| XFrame (f : guest_frame)
| XResponse (instance : Z) (sequence : Z) (response : R) (payload : list byte).

Inductive guest_progress := PFallback (reason : string) | PData (data : guest_data).

Record guest_options := GuestOptions {
  go_app : list byte;
  go_snapshot : bool;
  go_captureSnapshot : bool;
  go_timeoutMessage : string
}.

Record guest := Guest {
  gs_options : guest_options;
  gs_launched : Z;
  gs_worker : option Z;
  gs_restored : bool;
  gs_retried : bool;
  gs_ready : bool;
  gs_closed : bool;
  gs_closedReason : string;
  gs_waiting : option Z;
  gs_resultSequence : jsval;
  gs_timer : option guest_timer;
  gs_messages : list guest_frame;
  gs_listening : bool;
  gs_terminated : list Z;
  gs_nextPromise : Z;
  gs_settled : list (Z * res guest_frame);
  gs_crossed : list crossing;
  gs_progress : list guest_progress
}.

(** Field updates. *)
Definition set_worker (launched : Z) (worker : option Z) (restored retried ready : bool) (g : guest) : guest :=
  Guest (gs_options g) launched worker restored retried ready (gs_closed g) (gs_closedReason g) (gs_waiting g)
    (gs_resultSequence g) (gs_timer g) (gs_messages g) (gs_listening g) (gs_terminated g) (gs_nextPromise g)
    (gs_settled g) (gs_crossed g) (gs_progress g).
Definition set_closed (reason : string) (g : guest) : guest :=
  Guest (gs_options g) (gs_launched g) (gs_worker g) (gs_restored g) (gs_retried g) (gs_ready g) true reason (gs_waiting g)
    (gs_resultSequence g) (gs_timer g) (gs_messages g) false (gs_terminated g) (gs_nextPromise g)
    (gs_settled g) (gs_crossed g) (gs_progress g).
Definition set_receives (waiting : option Z) (messages : list guest_frame) (next : Z) (settled : list (Z * res guest_frame))
    (g : guest) : guest :=
  Guest (gs_options g) (gs_launched g) (gs_worker g) (gs_restored g) (gs_retried g) (gs_ready g) (gs_closed g)
    (gs_closedReason g) waiting (gs_resultSequence g) (gs_timer g) messages (gs_listening g) (gs_terminated g) next
    settled (gs_crossed g) (gs_progress g).
Definition set_timer (timer : option guest_timer) (g : guest) : guest :=
  Guest (gs_options g) (gs_launched g) (gs_worker g) (gs_restored g) (gs_retried g) (gs_ready g) (gs_closed g)
    (gs_closedReason g) (gs_waiting g) (gs_resultSequence g) timer (gs_messages g) (gs_listening g) (gs_terminated g)
    (gs_nextPromise g) (gs_settled g) (gs_crossed g) (gs_progress g).
Definition set_sequence (sequence : jsval) (g : guest) : guest :=
  Guest (gs_options g) (gs_launched g) (gs_worker g) (gs_restored g) (gs_retried g) (gs_ready g) (gs_closed g)
    (gs_closedReason g) (gs_waiting g) sequence (gs_timer g) (gs_messages g) (gs_listening g) (gs_terminated g)
    (gs_nextPromise g) (gs_settled g) (gs_crossed g) (gs_progress g).
Definition set_outside (listening : bool) (terminated : list Z) (crossed : list crossing) (progress : list guest_progress)
    (g : guest) : guest :=
  Guest (gs_options g) (gs_launched g) (gs_worker g) (gs_restored g) (gs_retried g) (gs_ready g) (gs_closed g)
    (gs_closedReason g) (gs_waiting g) (gs_resultSequence g) (gs_timer g) (gs_messages g) listening terminated
    (gs_nextPromise g) (gs_settled g) crossed progress.

Definition cross (x : crossing) : js guest () :=
  modify (λ g, set_outside (gs_listening g) (gs_terminated g) (gs_crossed g ++ [x]) (gs_progress g) g).
Definition terminate (instance : Z) : js guest () :=
  modify (λ g, set_outside (gs_listening g) (gs_terminated g ++ [instance]) (gs_crossed g) (gs_progress g) g).
Definition onProgress (p : guest_progress) : js guest () :=
  modify (λ g, set_outside (gs_listening g) (gs_terminated g) (gs_crossed g) (gs_progress g ++ [p]) g).

(** ** Operations *)

(** [waiting.resolve(value)] or [waiting.reject(reason)], and [waiting = null]. *)
Definition settle_waiting (r : res guest_frame) : js guest () :=
  modify (λ g, match gs_waiting g with
               | Some p => set_receives None (gs_messages g) (gs_nextPromise g) (gs_settled g ++ [(p, r)]) g
               | None => g
               end).

Definition close (reason : string) : js guest () :=
  g ← gets (λ g, g);
  if gs_closed g then mret tt else
  modify (set_closed reason) ;;
  modify (set_timer None) ;;
  match gs_worker g with Some w => terminate w | None => mret tt end ;;
  settle_waiting (Throw reason).

(** The promise [receive] returns, by its number. *)
Definition receive : js guest Z :=
  g ← gets (λ g, g);
  let p := gs_nextPromise g in
  let settled r := set_receives (gs_waiting g) (gs_messages g) (p + 1) (gs_settled g ++ [(p, r)]) in
  (if gs_closed g then modify (settled (Throw (gs_closedReason g)))
   else match gs_waiting g with
   | Some _ => modify (settled (Throw "A guest receive is already pending"))
   | None =>
       match gs_messages g with
       | f :: messages => modify (set_receives None messages (p + 1) (gs_settled g ++ [(p, Ok f)]))
       | [] => modify (set_receives (Some p) [] (p + 1) (gs_settled g))
       end
   end) ;;
  mret p.

Definition deliver (f : guest_frame) : js guest () :=
  g ← gets (λ g, g);
  match gs_waiting g with
  | Some _ => settle_waiting (Ok f)
  | None =>
      if (length (gs_messages g) <? 2)%nat
      then modify (set_receives None (gs_messages g ++ [f]) (gs_nextPromise g) (gs_settled g))
      else close "Guest produced unsolicited frames"
  end.

Definition arm (failed : guest_timer) : js guest () := modify (set_timer (Some failed)).

Definition launch (useSnapshot : bool) : js guest () :=
  g ← gets (λ g, g);
  let instance := gs_launched g + 1 in
  modify (set_worker instance (Some instance) false (gs_retried g) (gs_ready g)) ;;
  arm (TFailed instance) ;;
  cross (XBoot instance (go_app (gs_options g)) useSnapshot).

Definition failed (instance : Z) (error : string) : js guest () :=
  g ← gets (λ g, g);
  if negb (bool_decide (gs_worker g = Some instance)) || gs_closed g then mret tt
  else if gs_restored g && negb (gs_ready g) && negb (gs_retried g) && negb (go_captureSnapshot (gs_options g)) then
    modify (set_worker (gs_launched g) (gs_worker g) (gs_restored g) true (gs_ready g)) ;;
    terminate instance ;;
    onProgress (PFallback error) ;;
    launch false
  else close error.

Definition onmessage (instance : Z) (data : guest_data) : js guest () :=
  g ← gets (λ g, g);
  if gs_closed g || negb (bool_decide (gs_worker g = Some instance)) then mret tt else
  match data with
  | DSnapshotSelected => modify (set_worker (gs_launched g) (gs_worker g) true (gs_retried g) (gs_ready g))
  | DFailed error log => failed instance (error +:+ String.String (Ascii.ascii_of_nat 10) "" +:+ log)
  | DReady =>
      modify (set_worker (gs_launched g) (gs_worker g) (gs_restored g) (gs_retried g) true) ;;
      onProgress (PData data)
  | DLog | DSnapshotFallback _ => onProgress (PData data)
  | DFrame f =>
      modify (set_timer None) ;;
      modify (set_sequence (gf_sequence f)) ;;
      cross (XFrame f) ;;
      deliver f
  end.

(** The [setTimeout] callback of [arm]. *)
Definition timer_fires : js guest () :=
  g ← gets (λ g, g);
  modify (set_timer None) ;;
  match gs_timer g with
  | Some (TFailed instance) => failed instance (go_timeoutMessage (gs_options g))
  | Some TClose => close (go_timeoutMessage (gs_options g))
  | None => mret tt
  end.

(** [abort], while the signal's listener is there. *)
Definition aborts (reason : string) : js guest () :=
  g ← gets (λ g, g);
  if gs_listening g then close reason else mret tt.

Definition respond (response : R) (payload : list byte) : js guest () :=
  g ← gets (λ g, g);
  match (if gs_closed g then None else to_safe (gs_resultSequence g)), gs_worker g with
  | Some sequence, Some worker =>
      modify (set_sequence VUndef) ;;
      arm TClose ;;
      cross (XResponse worker sequence response payload)
  | _, _ => throw "Guest is not waiting for input"
  end.

(** [createGuest]; [aborted] is the reason of a signal that has fired already. *)
Definition createGuest (options : guest_options) (aborted : option string) : guest :=
  let g := Guest options 0 None false false false false "" None VUndef None [] false [] 1 [] [] [] in
  match aborted with
  | Some reason => (close reason g).2
  | None => (launch (go_snapshot options) (set_outside true [] [] [] g)).2
  end.

(** ** Runs *)

Inductive guest_event :=
| EvReceive
| EvRespond (response : R) (payload : list byte)
| EvClose (reason : string)
| EvMessage (instance : Z) (data : guest_data)
| EvError (instance : Z) (message : string)
| EvTimer
| EvAbort (reason : string).

Definition run_guest_event (ev : guest_event) : js guest () :=
  match ev with
  | EvReceive => receive ;; mret tt
  | EvRespond response payload => respond response payload
  | EvClose reason => close reason
  | EvMessage instance data => onmessage instance data
  | EvError instance message => failed instance message
  | EvTimer => timer_fires
  | EvAbort reason => aborts reason
  end.

Fixpoint run_guest (evs : list guest_event) (g : guest) : guest :=
  match evs with
  | [] => g
  | ev :: evs' => run_guest evs' (run_guest_event ev g).2
  end.
End Guest.
Arguments guest_frame : clear implicits.
Arguments guest_data : clear implicits.
Arguments crossing : clear implicits.
Arguments guest_progress : clear implicits.
Arguments guest : clear implicits.
Arguments guest_event : clear implicits.
