(* ===== verification/GuestSpec.v ===== *)
(** Properties of [Guest]: what an owner of a guest worker can rely on, whatever the
    worker, the clock, the signal and the owner itself do. *)

From S2P Require Import Prelude Guest.

Section Spec.
Context {D R : Type}.
Implicit Types (g : guest D R) (f : guest_frame D).

(** Which sequence an owner may still answer after a log, where every response in it
    answered the frame before it. *)
Fixpoint answerable (v : jsval) (xs : list (crossing D R)) : option jsval :=
  match xs with
  | [] => Some v
  | XBoot _ _ _ :: xs' => answerable v xs'
  | XFrame f :: xs' => answerable (gf_sequence f) xs'
  | XResponse _ n _ _ :: xs' => if decide (to_safe v = Some n) then answerable VUndef xs' else None
  end.

Lemma answerable_snoc v xs x : answerable v (xs ++ [x]) = answerable v xs ≫= λ v', answerable v' [x].
Proof.
  revert v. induction xs as [|y xs IH]; intros v; [done|].
  destruct y as [i a s|f|i n r pl]; cbn [app answerable]; [by rewrite IH..|]. case_decide; [by rewrite IH|done].
Qed.

Definition last_frame (xs : list (crossing D R)) : Prop := ∃ f xs', xs = xs' ++ [XFrame f].

(** [live] workers have started; the others were terminated. *)
Record guest_wf g : Prop := {
  gw_bound : (length (gs_messages g) <= 2)%nat;
  gw_waiting : is_Some (gs_waiting g) → gs_messages g = [] ∧ gs_closed g = false;
  gw_next : 1 <= gs_nextPromise g;
  gw_promises : (gs_settled g).*1 ++ option_list (gs_waiting g) ≡ₚ seqZ 1 (gs_nextPromise g - 1);
  gw_launched : 0 <= gs_launched g <= (if gs_retried g then 2 else 1);
  gw_worker : gs_worker g = (if decide (gs_launched g = 0) then None else Some (gs_launched g));
  gw_started : gs_closed g = false → 1 <= gs_launched g;
  gw_terminated : gs_terminated g ≡ₚ seqZ 1 (gs_launched g - if gs_closed g then 0 else 1);
  gw_quiet : gs_closed g = true → gs_timer g = None;
  gw_instance : ∀ i, gs_timer g = Some (TFailed i) → gs_worker g = Some i;
  gw_watched : gs_closed g = false → gs_timer g = None → last_frame (gs_crossed g);
  gw_answers : answerable VUndef (gs_crossed g) = Some (gs_resultSequence g);
  gw_listening : gs_closed g = false → gs_listening g = true
}.

(** ** Closing *)

Definition closed_guest (reason : string) g : guest D R :=
  Guest (gs_options g) (gs_launched g) (gs_worker g) (gs_restored g) (gs_retried g) (gs_ready g) true reason None
    (gs_resultSequence g) None (gs_messages g) false (gs_terminated g ++ option_list (gs_worker g)) (gs_nextPromise g)
    (gs_settled g ++ ((λ p, (p, Throw reason)) <$> option_list (gs_waiting g))) (gs_crossed g) (gs_progress g).

Lemma close_run reason g : gs_closed g = false → close reason g = (Ok tt, closed_guest reason g).
Proof.
  intros Hc. unfold close. erewrite bind_run by done. rewrite Hc. do 2 erewrite bind_run by done.
  destruct g as [? ? [w|] ? ? ? ? ? [p|] ? ? ? ? ? ? ? ? ?]; simpl in *; (erewrite bind_run by done);
    unfold settle_waiting, modify, closed_guest; simpl; by rewrite ?app_nil_r.
Qed.

Lemma seqZ_snoc n : 0 <= n → seqZ 1 (n + 1) = seqZ 1 n ++ [n + 1].
Proof. intros Hn. rewrite (seqZ_app 1 n 1) by lia. by rewrite (Z.add_comm 1 n). Qed.

(** Closing needs less than the invariant: the timer may have just fired, and the
    current worker may have one message too many. *)
Lemma wf_closed reason g :
  gs_closed g = false → (length (gs_messages g) <= 2)%nat → 1 <= gs_nextPromise g →
  (gs_settled g).*1 ++ option_list (gs_waiting g) ≡ₚ seqZ 1 (gs_nextPromise g - 1) →
  1 <= gs_launched g <= (if gs_retried g then 2 else 1) → gs_worker g = Some (gs_launched g) →
  gs_terminated g ≡ₚ seqZ 1 (gs_launched g - 1) →
  answerable VUndef (gs_crossed g) = Some (gs_resultSequence g) → guest_wf (closed_guest reason g).
Proof.
  intros Hc Hb Hn Hp Hl Hw Ht Ha. split; simpl; try done.
  - rewrite fmap_app, app_nil_r. rewrite <- Hp. by destruct (gs_waiting g).
  - lia.
  - rewrite decide_False by lia. done.
  - rewrite Hw, Ht. simpl. rewrite Z.sub_0_r. replace (gs_launched g) with (gs_launched g - 1 + 1) at 2 3 by lia.
    by rewrite seqZ_snoc by lia.
Qed.

Lemma guest_open_parts g : guest_wf g → gs_closed g = false →
  1 <= gs_launched g <= (if gs_retried g then 2 else 1) ∧ gs_worker g = Some (gs_launched g) ∧
  gs_terminated g ≡ₚ seqZ 1 (gs_launched g - 1).
Proof.
  intros [] Hc. specialize (gw_started0 Hc). rewrite Hc in *. split; [lia|]. split; [|done].
  by rewrite decide_False in gw_worker0 by lia.
Qed.

Lemma close_wf reason g : guest_wf g → guest_wf (close reason g).2.
Proof.
  intros Hw. destruct (gs_closed g) eqn:Hc.
  - unfold close. erewrite bind_run by done. by rewrite Hc.
  - rewrite close_run by done. destruct (guest_open_parts g Hw Hc) as (? & ? & ?). destruct Hw. by apply wf_closed.
Qed.

(** ** Receiving *)

Lemma receive_wf g : guest_wf g → guest_wf (receive g).2.
Proof.
  intros [B W N P L K S T Q I C A E]. unfold receive. erewrite bind_run by done.
  assert (∀ r : res (guest_frame D), (gs_settled g ++ [(gs_nextPromise g, r)]).*1 ++ option_list (gs_waiting g) ≡ₚ
    seqZ 1 (gs_nextPromise g + 1 - 1)) as Hsettle.
  { intros r. rewrite fmap_app. simpl. rewrite <- app_assoc. simpl. rewrite <- Permutation_middle, P.
    replace (gs_nextPromise g + 1 - 1) with (gs_nextPromise g - 1 + 1) by lia. rewrite seqZ_snoc by lia.
    rewrite Permutation_app_comm. simpl. by replace (gs_nextPromise g - 1 + 1) with (gs_nextPromise g) by lia. }
  destruct (gs_closed g) eqn:Hc; [|destruct (gs_waiting g) as [p|] eqn:Hw; [|destruct (gs_messages g) as [|m ms] eqn:Hm]];
    simpl; split; simpl; rewrite ?Hc; try done; try lia; rewrite ?Hw; try done.
  - simpl in P. rewrite app_nil_r in P. rewrite P.
    replace (gs_nextPromise g + 1 - 1) with (gs_nextPromise g - 1 + 1) by lia. rewrite seqZ_snoc by lia.
    by replace (gs_nextPromise g - 1 + 1) with (gs_nextPromise g) by lia.
  - simpl in B. lia.
Qed.

Lemma settled_wf f g : guest_wf g → is_Some (gs_waiting g) → guest_wf (settle_waiting (Ok f) g).2.
Proof.
  intros [B W N P L K S T Q I C A E] [p Hp]. destruct (W (mk_is_Some _ _ Hp)) as [Hm Hc].
  unfold settle_waiting, modify. rewrite Hp. split; simpl; try done.
  - rewrite fmap_app, app_nil_r. by rewrite Hp in P.
Qed.

Lemma deliver_wf f g : guest_wf g → guest_wf (deliver f g).2.
Proof.
  intros Hw. unfold deliver. erewrite bind_run by done. destruct (gs_waiting g) as [p|] eqn:Hp; [by apply settled_wf|].
  destruct (Nat.ltb_spec (length (gs_messages g)) 2); [|by apply close_wf].
  destruct Hw as [B W N P L K S T Q I C A E]. rewrite Hp in P. split; simpl; try done.
  - rewrite length_app. simpl. lia.
Qed.

(** ** Workers *)

Definition launched_guest (useSnapshot : bool) g : guest D R :=
  let i := gs_launched g + 1 in
  Guest (gs_options g) i (Some i) false (gs_retried g) (gs_ready g) (gs_closed g) (gs_closedReason g) (gs_waiting g)
    (gs_resultSequence g) (Some (TFailed i)) (gs_messages g) (gs_listening g) (gs_terminated g) (gs_nextPromise g)
    (gs_settled g) (gs_crossed g ++ [XBoot i (go_app (gs_options g)) useSnapshot]) (gs_progress g).

Lemma launch_run useSnapshot g : launch useSnapshot g = (Ok tt, launched_guest useSnapshot g).
Proof. done. Qed.

Lemma wf_unwatch g t : guest_wf g → gs_closed g = false → guest_wf (set_timer (Some TClose) (set_timer t g)).
Proof. intros [] Hc. split; simpl; try done. intros H. congruence. Qed.

(** A worker that fails is replaced once, or ends the guest. *)
Lemma failed_wf instance error g :
  guest_wf (set_timer (Some TClose) g) → gs_closed g = false → gs_worker g = Some instance → guest_wf (failed instance error g).2.
Proof.
  intros Hw Hc Hi. destruct (guest_open_parts _ Hw Hc) as (HL & HK & HT). destruct Hw as [B W N P L K S T Q I C A E]. simpl in *.
  unfold failed. erewrite bind_run by done. rewrite bool_decide_true by done. rewrite Hc. simpl.
  destruct (gs_restored g && _ && _ && _) eqn:Hr; [|rewrite close_run by done; by apply wf_closed].
  apply andb_prop in Hr as [[[_ _]%andb_prop Hr]%andb_prop _]. apply negb_true_iff in Hr. rewrite Hr in *.
  do 3 erewrite bind_run by done. rewrite launch_run. split; simpl; try done; try lia.
  - rewrite decide_False by lia. done.
  - rewrite Hc, HT. assert (instance = gs_launched g) as -> by congruence.
    replace (gs_launched g + 1 - 1) with (gs_launched g - 1 + 1) by lia. rewrite seqZ_snoc by lia.
    by replace (gs_launched g - 1 + 1) with (gs_launched g) by lia.
  - congruence.
  - intros i [= <-]. done.
  - by rewrite answerable_snoc, A.
Qed.

Lemma failed_wf_any instance error g : guest_wf g → guest_wf (failed instance error g).2.
Proof.
  intros Hw. destruct (gs_closed g) eqn:Hc.
  { unfold failed. erewrite bind_run by done. by rewrite Hc, orb_true_r. }
  destruct (decide (gs_worker g = Some instance)) as [Hi|Hi].
  - apply failed_wf; [|done|done]. by apply (wf_unwatch g (gs_timer g)) in Hw.
  - unfold failed. erewrite bind_run by done. by rewrite bool_decide_false.
Qed.

Lemma onmessage_wf instance data g : guest_wf g → guest_wf (onmessage instance data g).2.
Proof.
  intros Hw. unfold onmessage. erewrite bind_run by done. destruct (gs_closed g) eqn:Hc; [done|].
  case_bool_decide as Hi; [|done]. simpl. destruct data as [|e l| | |r|f].
  - by destruct Hw.
  - by apply failed_wf_any.
  - by destruct Hw.
  - by destruct Hw.
  - by destruct Hw.
  - do 3 erewrite bind_run by done. apply deliver_wf. destruct Hw as [B W N P L K S T Q I C A E].
    split; simpl; try done.
    + intros _ _. by eexists _, _.
    + by rewrite answerable_snoc, A.
Qed.

Lemma timer_wf g : guest_wf g → guest_wf (timer_fires g).2.
Proof.
  intros Hw. unfold timer_fires. do 2 erewrite bind_run by done. destruct (gs_timer g) as [[i|]|] eqn:Ht.
  - destruct (gs_closed g) eqn:Hc; [by rewrite (gw_quiet g Hw Hc) in Ht|].
    apply failed_wf; [by apply wf_unwatch|done|]. by apply (gw_instance g Hw).
  - destruct (gs_closed g) eqn:Hc; [by rewrite (gw_quiet g Hw Hc) in Ht|].
    destruct (guest_open_parts g Hw Hc) as (? & ? & ?). rewrite close_run by done. destruct Hw. by apply wf_closed.
  - destruct Hw. split; simpl; try done. auto.
Qed.

Lemma respond_wf r payload g : guest_wf g → guest_wf (respond r payload g).2.
Proof.
  intros Hw. unfold respond. erewrite bind_run by done. destruct (gs_closed g) eqn:Hc; [done|].
  destruct (to_safe (gs_resultSequence g)) as [n|] eqn:Hn; [|done]. destruct (gs_worker g) as [w|] eqn:Hk; [|done].
  do 2 erewrite bind_run by done. destruct Hw as [B W N P L K S T Q I C A E]. split; simpl; try done.
  - congruence.
  - rewrite answerable_snoc, A. simpl. by rewrite decide_True.
Qed.

Lemma event_wf ev g : guest_wf g → guest_wf (run_guest_event ev g).2.
Proof.
  intros Hw. destruct ev; simpl.
  - unfold mbind, js_bind. pose proof (receive_wf g Hw). by destruct (receive g) as [[]].
  - by apply respond_wf.
  - by apply close_wf.
  - by apply onmessage_wf.
  - by apply failed_wf_any.
  - by apply timer_wf.
  - unfold aborts. erewrite bind_run by done. destruct (gs_listening g); [by apply close_wf|done].
Qed.

Lemma createGuest_wf options aborted : guest_wf (createGuest (D:=D) (R:=R) options aborted).
Proof.
  unfold createGuest. destruct aborted as [r|].
  - rewrite close_run by done. split; simpl; try done; lia.
  - rewrite launch_run. split; simpl; try done; try lia. by intros i [= <-].
Qed.

Lemma run_wf evs g : guest_wf g → guest_wf (run_guest evs g).
Proof. revert g. induction evs as [|ev evs IH]; intros g Hw; [done|]. by apply IH, event_wf. Qed.

(** C10 The owner of a guest worker keeps it in hand, whatever frames, failures,
    timeouts, aborts, receives and responses come in any order: at most two workers ever
    start and every one but the current is terminated exactly once, the current one too
    once the guest is closed; no timer outlives the close; at most two frames wait
    unasked; every receive settles at most once, at most one is pending, and none is while a frame waits or
    after the close; and every response that crossed carries the sequence of the latest frame that came from
    a worker before it (the current one or, after a relaunch, the one it replaced), each frame answered at most once. *)
Theorem guest_owner_invariant options aborted evs :
  let g := run_guest evs (createGuest (D:=D) (R:=R) options aborted) in
  0 <= gs_launched g <= 2 ∧
  gs_terminated g ≡ₚ seqZ 1 (gs_launched g - if gs_closed g then 0 else 1) ∧
  (gs_closed g = true → gs_timer g = None ∧ gs_waiting g = None) ∧
  (length (gs_messages g) <= 2)%nat ∧ (is_Some (gs_waiting g) → gs_messages g = []) ∧
  (gs_settled g).*1 ++ option_list (gs_waiting g) ≡ₚ seqZ 1 (gs_nextPromise g - 1) ∧
  answerable VUndef (gs_crossed g) = Some (gs_resultSequence g).
Proof.
  intros g. pose proof (run_wf evs _ (createGuest_wf options aborted)) as Hw. fold g in Hw.
  destruct Hw as [B W N P L K S T Q I C A E]. split; [destruct (gs_retried g); lia|]. split; [done|]. split.
  { intros Hc. split; [by apply Q|]. destruct (gs_waiting g); [|done]. destruct W as [_ W]; [done|congruence]. }
  split; [done|]. split; [by intros [? _]%W|]. done.
Qed.

(** The options never change. *)
Section Options.
Context (o : guest_options).
Let I : guest D R → Prop := λ g, gs_options g = o.
Hint Extern 1 (preserves _ (modify _)) => (apply preserves_modify; intros; by repeat case_match) : jsinv.

Lemma options_close reason : preserves I (close reason).
Proof. unfold close, terminate, settle_waiting. preserve. Qed.
Hint Resolve options_close : jsinv.
Lemma options_failed i e : preserves I (failed i e).
Proof. unfold failed, launch, arm, cross, terminate, onProgress. preserve. Qed.
Hint Resolve options_failed : jsinv.

Lemma options_event ev : preserves I (run_guest_event ev).
Proof.
  destruct ev; simpl.
  - unfold receive. preserve.
  - unfold respond, arm, cross. preserve.
  - preserve.
  - unfold onmessage, deliver, settle_waiting, cross, onProgress. preserve.
  - preserve.
  - unfold timer_fires. preserve.
  - unfold aborts. preserve.
Qed.

Lemma options_run evs g : gs_options g = o → gs_options (run_guest evs g) = o.
Proof. revert g. induction evs as [|ev evs IH]; intros g Hg; [done|]. by apply IH, options_event. Qed.
End Options.

Lemma createGuest_options options aborted : gs_options (createGuest (D:=D) (R:=R) options aborted) = options.
Proof. unfold createGuest. destruct aborted; [by rewrite close_run|by rewrite launch_run]. Qed.

(** The guest as a timeout leaves it: the pending receive is rejected with it. *)
Definition timed_out g g' : Prop :=
  let message := go_timeoutMessage (gs_options g) in
  gs_closed g' = true ∧ gs_closedReason g' = message ∧ gs_waiting g' = None ∧
  gs_settled g' = gs_settled g ++ ((λ p, (p, Throw message)) <$> option_list (gs_waiting g)).

Lemma watched_fires g :
  guest_wf g → gs_closed g = false → is_Some (gs_timer g) →
  timed_out g (timer_fires g).2 ∨
  gs_closed (timer_fires g).2 = false ∧ gs_retried g = false ∧ gs_retried (timer_fires g).2 = true ∧
    is_Some (gs_timer (timer_fires g).2) ∧ gs_options (timer_fires g).2 = gs_options g ∧
    gs_waiting (timer_fires g).2 = gs_waiting g ∧ gs_settled (timer_fires g).2 = gs_settled g.
Proof.
  intros Hw Hc [t Ht]. unfold timer_fires. do 2 erewrite bind_run by done. rewrite Ht. destruct t as [i|].
  - unfold failed. erewrite bind_run by done. rewrite bool_decide_true by (by apply (gw_instance g Hw)). simpl. rewrite Hc.
    simpl. destruct (_ && _ && _ && _) eqn:Hr; [|rewrite close_run by done; by left].
    apply andb_prop in Hr as [[_ Hr]%andb_prop _]. apply negb_true_iff in Hr.
    do 3 erewrite bind_run by done. rewrite launch_run. right. simpl. done.
  - rewrite close_run by done. by left.
Qed.

Lemma closed_fires g : gs_closed g = true → guest_wf g → (timer_fires g).2 = set_timer None g.
Proof. intros Hc Hw. unfold timer_fires. do 2 erewrite bind_run by done. by rewrite (gw_quiet _ Hw Hc). Qed.

(** C29 A silent guest is ended: whenever the guest owes its owner a frame, because it
    was booted or answered and has sent none since, its deadline is running, and if it
    stays silent the deadline passes at most twice (once more only for a worker restored from a
    snapshot, which is replaced) before the guest is closed with the timeout message as its reason, the
    pending receive, if there is one, is rejected with that message and no other receive settles, and every worker that was
    started is terminated. *)
Theorem guest_watchdog options aborted evs :
  let g := run_guest evs (createGuest (D:=D) (R:=R) options aborted) in
  gs_closed g = false → ¬ last_frame (gs_crossed g) →
  is_Some (gs_timer g) ∧
  let g' := run_guest [EvTimer; EvTimer] g in
  gs_closed g' = true ∧ gs_closedReason g' = go_timeoutMessage options ∧ gs_waiting g' = None ∧
  gs_settled g' = gs_settled g ++ ((λ p, (p, Throw (go_timeoutMessage options))) <$> option_list (gs_waiting g)) ∧
  gs_terminated g' ≡ₚ seqZ 1 (gs_launched g').
Proof.
  intros g Hc Hf. pose proof (run_wf evs _ (createGuest_wf options aborted)) as Hw. fold g in Hw.
  pose proof (options_run options evs _ (createGuest_options options aborted)) as Ho. fold g in Ho.
  assert (is_Some (gs_timer g)) as Ht.
  { destruct (gs_timer g) eqn:E; [by eexists|]. by apply (gw_watched g Hw) in E. }
  split; [done|]. intros g'. assert (guest_wf g') as Hw' by (by apply (run_wf [EvTimer; EvTimer])).
  assert (timed_out g g') as (Hc' & Hr & Hn & Hs).
  { subst g'. simpl. pose proof (timer_wf g Hw) as Hw1. destruct (watched_fires g Hw Hc Ht) as [H1|(H1 & _ & H3 & H4 & H5 & H6 & H7)].
    - rewrite closed_fires; [done|by destruct H1|done].
    - destruct (watched_fires _ Hw1 H1 H4) as [H|(_ & H & _)]; [|congruence]. unfold timed_out in *. by rewrite H5, H6, H7 in H. }
  rewrite Ho in *. split; [done|]. split; [done|]. split; [done|]. split; [done|].
  pose proof (gw_terminated _ Hw') as T. by rewrite Hc', Z.sub_0_r in T.
Qed.
End Spec.

Lemma guest_watchdog_witness :
  gs_waiting (run_guest [EvTimer; EvTimer]
    (run_guest [EvReceive; EvMessage 1 DSnapshotSelected] (createGuest (D:=()) (R:=()) (GuestOptions [] true false "late") None))) = None ∧
  gs_settled (run_guest [EvTimer; EvTimer]
    (run_guest [EvReceive; EvMessage 1 DSnapshotSelected] (createGuest (D:=()) (R:=()) (GuestOptions [] true false "late") None))) =
    [(1, Throw "late")].
Proof.
  split; [|vm_compute; reflexivity].
  refine (proj1 (proj2 (proj2 (proj2 (guest_watchdog (D:=()) (R:=()) (GuestOptions [] true false "late") None
    [EvReceive; EvMessage 1 DSnapshotSelected] _ _))))); [vm_compute; reflexivity|].
  vm_compute. intros (f & [|x [|y xs]] & H); discriminate.
Defined.
