(* ===== verification/AppLimits.v ===== *)
(** Limits and the start-up payload of an application,
    [resolveLimits], [applicationPayload] and [packagedEffectHandlers] of
    [src/runtime/luajit/app-runtime.mjs]. *)

From S2P Require Import Prelude.

(** ** Limits *)

(** One layer as a caller passes it: absent, no plain object, or its own entries; the
    values of a scope likewise. *)
Inductive scope_values := SUndef | SNotObject | SObject (entries : list (string * jsval)).
Inductive layer := LNone | LNotObject | LObject (entries : list (string * scope_values)).

Record limits := Limits {
  perTurn : jmap string Z;
  perRun : jmap string Z
}.

Definition turn_keys : list string := ["maxEffects"; "maxEffectBytes"; "maxResponseBytes"; "computeMs"].
Definition run_keys : list string := ["maxEffects"; "maxEffectBytes"; "maxResponseBytes"; "deadlineMs"].

(** [LIMIT_KEYS[scope]]: a list, or, for a name every object inherits, something that is
    neither absent nor a list. *)
Definition inherited : list string :=
  ["constructor"; "__defineGetter__"; "__defineSetter__"; "hasOwnProperty"; "__lookupGetter__"; "__lookupSetter__";
   "isPrototypeOf"; "propertyIsEnumerable"; "toString"; "valueOf"; "__proto__"; "toLocaleString"].

Inductive known_keys := KUnknown | KInherited | KKeys (keys : list string).

Definition LIMIT_KEYS (scope : string) : known_keys :=
  if bool_decide (scope = "perTurn") then KKeys turn_keys
  else if bool_decide (scope = "perRun") then KKeys run_keys
  else if bool_decide (scope ∈ inherited) then KInherited else KUnknown.

Definition defaults : limits :=
  Limits [("maxEffects", 256); ("maxEffectBytes", 4 * 1024 * 1024); ("maxResponseBytes", 8 * 1024 * 1024); ("computeMs", 30000)] [].

Definition get_scope (scope : string) (l : limits) : jmap string Z :=
  if bool_decide (scope = "perTurn") then perTurn l else if bool_decide (scope = "perRun") then perRun l else [].

(** [limits[scope][key] = value]. *)
Definition set_limit (scope key : string) (value : Z) (l : limits) : limits :=
  if bool_decide (scope = "perTurn") then Limits (mset key value (perTurn l)) (perRun l)
  else if bool_decide (scope = "perRun") then Limits (perTurn l) (mset key value (perRun l)) else l.

Definition positive_safe (v : jsval) : option Z :=
  match to_safe v with Some n => if n <? 1 then None else Some n | None => None end.

Fixpoint set_values (scope : string) (keys : list string) (entries : list (string * jsval)) (l : limits) : res limits :=
  match entries with
  | [] => Ok l
  | (key, value) :: entries' =>
      if negb (bool_decide (key ∈ keys)) then Throw ("Unknown application limit " +:+ scope +:+ "." +:+ key)
      else match positive_safe value with
      | None => Throw ("Invalid application limit " +:+ scope +:+ "." +:+ key)
      | Some n => set_values scope keys entries' (set_limit scope key n l)
      end
  end.

Fixpoint set_scopes (entries : list (string * scope_values)) (l : limits) : res limits :=
  match entries with
  | [] => Ok l
  | (scope, values) :: entries' =>
      match LIMIT_KEYS scope, values with
      | KUnknown, _ => Throw ("Unknown application limit " +:+ scope +:+ "; limits take perTurn and perRun")
      | _, SUndef => set_scopes entries' l
      | _, SNotObject => Throw ("Application limits." +:+ scope +:+ " must be an object")
      | KInherited, SObject [] => set_scopes entries' l
      | KInherited, SObject _ => Throw "known.includes is not a function"
      | KKeys keys, SObject values => l' ← set_values scope keys values l; set_scopes entries' l'
      end
  end.

Fixpoint resolve_layers (layers : list layer) (l : limits) : res limits :=
  match layers with
  | [] => Ok l
  | LNone :: layers' => resolve_layers layers' l
  | LNotObject :: _ => Throw "Application limits must be an object"
  | LObject entries :: layers' => l' ← set_scopes entries l; resolve_layers layers' l'
  end.

Definition resolveLimits (layers : list layer) : res limits := resolve_layers layers defaults.

(** ** The payload a guest boots with *)

Definition MAX_APPLICATION : Z := 7 * 1024 * 1024.
Definition NUAPP001 : list byte := [x4e; x55; x41; x50; x50; x30; x30; x31].

(** An argument that is no [Uint8Array] is [None]. *)
Definition applicationPayload (app initialize : option (list byte)) : res (list byte) :=
  match app, initialize with
  | Some app, Some initialize =>
      if MAX_APPLICATION <? 12 + zlen app + zlen initialize then Throw "Application input exceeds seven MiB"
      else
        let bytes := replicate (Z.to_nat (12 + zlen app + zlen initialize)) x00 in
        let bytes := splice 0 NUAPP001 bytes in
        let bytes := splice 8 (le_split 4 (zlen initialize)) bytes in
        let bytes := splice 12 initialize bytes in
        Ok (splice (12 + zlen initialize) app bytes)
  | _, _ => Throw "Application input must be bytes"
  end.

(** ** Handlers *)

Section Handlers.
Context {H : Type}.

(** [{...a, ...b}] sets the entries of [b] over those of [a]. *)
Definition spread (a b : jmap string H) : jmap string H := foldl (λ m p, mset p.1 p.2 m) a b.

Definition packagedEffectHandlers (supplied : jmap string H) (kernels : H) (pool : option (H * H)) : jmap string H :=
  match pool with
  | None => mset "aot" kernels (spread [] supplied)
  | Some (lanes, perform) => mset "workers" perform (mset "aot" kernels (spread [("system", lanes)] supplied))
  end.
End Handlers.

(** ** What the resolution yields *)

(** The settings of the layers, in the order they are written. *)
Definition scope_settings (p : string * scope_values) : list (string * string * jsval) :=
  match p.2 with SObject entries => (λ e, (p.1, e.1, e.2)) <$> entries | _ => [] end.
Definition settings (layers : list layer) : list (string * string * jsval) :=
  layers ≫= λ l, match l with LObject entries => entries ≫= scope_settings | _ => [] end.

(** The last of the settings of one limit. *)
Fixpoint last_setting (scope key : string) (s : list (string * string * jsval)) (v : option jsval) : option jsval :=
  match s with
  | [] => v
  | (sc, k, w) :: s' => last_setting scope key s' (if bool_decide (sc = scope ∧ k = key) then Some w else v)
  end.

Lemma last_setting_app scope key s1 s2 v :
  last_setting scope key (s1 ++ s2) v = last_setting scope key s2 (last_setting scope key s1 v).
Proof. revert v. induction s1 as [|[[sc k] w] s1 IH]; intros v; simpl; [done|]. apply IH. Qed.

Definition scope_known (scope : string) : Prop := scope = "perTurn" ∨ scope = "perRun".

Lemma LIMIT_KEYS_Keys scope keys : LIMIT_KEYS scope = KKeys keys → scope_known scope.
Proof. unfold LIMIT_KEYS, scope_known. repeat case_bool_decide; auto; discriminate. Qed.

Lemma mget_set_limit scope key n sc k l :
  scope_known scope → scope_known sc →
  mget k (get_scope sc (set_limit scope key n l)) = if bool_decide (scope = sc ∧ key = k) then Some n else mget k (get_scope sc l).
Proof.
  intros Hs1 Hs2. unfold set_limit, get_scope.
  assert ("perRun" ≠ "perTurn") as Hne by done.
  destruct (decide (key = k)) as [->|Hk]; destruct Hs1, Hs2; subst; repeat case_bool_decide; simplify_eq; simpl;
    rewrite ?mget_mset_eq, ?mget_mset_ne by done; naive_solver.
Qed.

(** [l] is what the settings [s] make of the defaults, all of them positive and safe. *)
Definition settled_limits (s : list (string * string * jsval)) (l : limits) : Prop :=
  Forall (λ p, is_Some (positive_safe p.2)) s ∧
  ∀ scope key, scope_known scope →
    mget key (get_scope scope l) =
      match last_setting scope key s None with
      | Some v => positive_safe v
      | None => mget key (get_scope scope defaults)
      end.

Lemma settled_set scope key v n s l :
  scope_known scope → positive_safe v = Some n → settled_limits s l →
  settled_limits (s ++ [(scope, key, v)]) (set_limit scope key n l).
Proof.
  intros Hs Hv [Hf Hl]. split.
  { apply Forall_app. split; [done|]. constructor; [|constructor]. simpl. by rewrite Hv. }
  intros sc k Hsc. rewrite mget_set_limit, last_setting_app by done. simpl. case_bool_decide; [by rewrite Hv|]. by apply Hl.
Qed.

Lemma set_values_settled scope keys entries s l l' :
  scope_known scope → settled_limits s l → set_values scope keys entries l = Ok l' →
  settled_limits (s ++ scope_settings (scope, SObject entries)) l'.
Proof.
  intros Hs. revert s l. induction entries as [|[key v] entries IH]; intros s l Hl; cbn [set_values].
  { intros [= <-]. unfold scope_settings. simpl. by rewrite app_nil_r. }
  case_bool_decide; [|done]. cbn [negb]. destruct (positive_safe v) as [n|] eqn:Hv; [|done]. intros H'.
  specialize (IH (s ++ [(scope, key, v)]) (set_limit scope key n l)). unfold scope_settings in *. simpl in *.
  rewrite <- app_assoc in IH. apply IH; [by apply settled_set|done].
Qed.

Lemma set_scopes_settled entries s l l' :
  settled_limits s l → set_scopes entries l = Ok l' → settled_limits (s ++ (entries ≫= scope_settings)) l'.
Proof.
  revert s l. induction entries as [|[scope vs] entries IH]; intros s l Hl; cbn [set_scopes].
  { intros [= <-]. simpl. by rewrite app_nil_r. }
  rewrite bind_cons, app_assoc. destruct (LIMIT_KEYS scope) as [| |keys] eqn:Hk; [done| |]; destruct vs as [| |values]; try done.
  - intros H. eapply IH; [|done]. simpl. by rewrite app_nil_r.
  - destruct values; [|done]. intros H. eapply IH; [|done]. simpl. by rewrite app_nil_r.
  - intros H. eapply IH; [|done]. simpl. by rewrite app_nil_r.
  - intros H. destruct (set_values _ _ _ _) as [l1|] eqn:E; [|done]. apply (IH _ l1); [|done].
    eapply set_values_settled; [by eapply LIMIT_KEYS_Keys|done|done].
Qed.

Lemma resolve_layers_settled layers s l l' :
  settled_limits s l → resolve_layers layers l = Ok l' → settled_limits (s ++ settings layers) l'.
Proof.
  revert s l. induction layers as [|[| |entries] layers IH]; intros s l Hl; cbn [resolve_layers]; unfold settings in *.
  - intros [= <-]. simpl. by rewrite app_nil_r.
  - intros H. rewrite bind_cons. simpl. by eapply IH.
  - done.
  - intros H. rewrite bind_cons, app_assoc. destruct (set_scopes entries l) as [l1|] eqn:E; [|done].
    apply (IH _ l1); [|done]. by eapply set_scopes_settled.
Qed.

Lemma last_setting_elem scope key s v w : last_setting scope key s v = Some w → v = Some w ∨ (scope, key, w) ∈ s.
Proof.
  revert v. induction s as [|[[sc k] x] s IH]; intros v; simpl; [auto|]. intros [H|H]%IH; [|right; by right].
  case_bool_decide as E; [|auto]. destruct E as [-> ->]. injection H as ->. right. left.
Qed.

Lemma positive_safe_bounds v n : positive_safe v = Some n → 1 <= n <= MAX_SAFE_INTEGER.
Proof.
  unfold positive_safe. destruct (to_safe v) as [z|] eqn:E; [|done]. apply to_safe_Some in E as [_ ?].
  destruct (Z.ltb_spec z 1); [done|]. intros [= <-]. lia.
Qed.

Lemma defaults_complete key : key ∈ turn_keys → ∃ n, mget key (perTurn defaults) = Some n ∧ 1 <= n <= MAX_SAFE_INTEGER.
Proof.
  intros Hk. assert (Forall (λ key, ∃ n, mget key (perTurn defaults) = Some n ∧ 1 <= n <= MAX_SAFE_INTEGER) turn_keys) as Hf.
  { repeat (constructor; [eexists; split; [reflexivity|vm_compute; split; discriminate]|]). constructor. }
  rewrite Forall_forall in Hf. by apply Hf.
Qed.

Lemma resolved_positive layers l scope key m :
  resolveLimits layers = Ok l → scope_known scope → mget key (get_scope scope l) = Some m → 1 <= m.
Proof.
  intros H Hs. apply (resolve_layers_settled _ []) in H as [Hf Hl]; [|by split]. rewrite (Hl scope key Hs).
  destruct (last_setting _ _ _ _) as [v|].
  - intros Hv. by apply positive_safe_bounds in Hv as [? _].
  - destruct Hs; subst; [|done]. intros H%mget_elem. unfold get_scope in H. simpl in H.
    repeat (apply elem_of_cons in H as [[= _ ->]|H]; [lia|]). by apply elem_of_nil in H.
Qed.

(** The limits of a run are the defaults with every layer's settings over them, the
    last setting of a limit winning; every limit set is a positive safe integer, and the
    four limits of a turn always have a value. *)
Theorem resolveLimits_layers layers l :
  resolveLimits layers = Ok l →
  Forall (λ p, is_Some (positive_safe p.2)) (settings layers) ∧
  (∀ scope key, scope_known scope →
     mget key (get_scope scope l) =
       match last_setting scope key (settings layers) None with
       | Some v => positive_safe v
       | None => mget key (get_scope scope defaults)
       end) ∧
  ∀ key, key ∈ turn_keys → ∃ n, mget key (perTurn l) = Some n ∧ 1 <= n <= MAX_SAFE_INTEGER.
Proof.
  intros H. apply (resolve_layers_settled _ []) in H as [Hf Hl]; [|by split]. simpl in *. split; [done|]. split; [done|].
  intros key Hk. specialize (Hl "perTurn" key (or_introl eq_refl)). unfold get_scope in Hl. simpl in Hl. rewrite Hl.
  destruct (last_setting _ _ _ _) as [v|] eqn:E; [|by apply defaults_complete].
  apply last_setting_elem in E as [|E]; [done|]. rewrite Forall_forall in Hf. destruct (Hf _ E) as [n Hn]. simpl in Hn.
  exists n. split; [done|]. by eapply positive_safe_bounds.
Qed.

Lemma resolveLimits_layers_witness :
  ∃ l, resolveLimits [LObject [("perTurn", SObject [("maxEffects", VNum (NInt 8)); ("computeMs", VNum (NInt 500))])]; LNone;
                      LObject [("perTurn", SObject [("maxEffects", VNum (NInt 16))]); ("perRun", SUndef)]] = Ok l ∧
    mget "maxEffects" (perTurn l) = Some 16 ∧ mget "deadlineMs" (perRun l) = None.
Proof.
  eexists. split; [vm_compute; reflexivity|].
  match goal with |- mget _ (perTurn ?l) = _ ∧ _ =>
    destruct (resolveLimits_layers
      [LObject [("perTurn", SObject [("maxEffects", VNum (NInt 8)); ("computeMs", VNum (NInt 500))])]; LNone;
       LObject [("perTurn", SObject [("maxEffects", VNum (NInt 16))]); ("perRun", SUndef)]] l) as (_ & H & _)
  end; [vm_compute; reflexivity|].
  split; [exact (H "perTurn" "maxEffects" (or_introl eq_refl))|exact (H "perRun" "deadlineMs" (or_intror eq_refl))].
Defined.

(** A setting that is no positive safe integer is refused. *)
Lemma resolveLimits_rejects scope key v :
  scope_known scope → positive_safe v = None → is_ok (resolveLimits [LObject [(scope, SObject [(key, v)])]]) = false.
Proof.
  intros [-> | ->] Hv; unfold resolveLimits; simpl; (case_bool_decide; [|done]); simpl; by rewrite Hv.
Qed.

(** ** The payload *)

Lemma splice_fill {A} (a b fill : list A) : splice (zlen a) b (a ++ fill) = a ++ b ++ drop (length b) fill.
Proof.
  unfold splice, zlen. rewrite Nat2Z.id, take_app_length. f_equal. f_equal.
  rewrite drop_app_ge by lia. f_equal. lia.
Qed.

(** The writes into the payload's buffer make it the magic, the length of the
    initialization in four bytes, the initialization and the application, end to end;
    nothing else is refused than input of more than seven MiB in all. *)
Lemma applicationPayload_concatenates app initialize :
  applicationPayload (Some app) (Some initialize) =
    if MAX_APPLICATION <? 12 + zlen app + zlen initialize then Throw "Application input exceeds seven MiB"
    else Ok (NUAPP001 ++ le_split 4 (zlen initialize) ++ initialize ++ app).
Proof.
  unfold applicationPayload. destruct (Z.ltb_spec MAX_APPLICATION (12 + zlen app + zlen initialize)); [done|]. f_equal.
  set (header := le_split 4 (zlen initialize)). assert (length header = 4%nat) as Hh by apply length_le_split.
  assert (zlen NUAPP001 = 8) as H8 by done. assert (zlen header = 4) as H4 by (unfold zlen; lia).
  set (fill := replicate _ x00). assert (length fill = 12 + length app + length initialize)%nat as Hf.
  { unfold fill, zlen. rewrite length_replicate. lia. }
  pose proof (splice_fill [] NUAPP001 fill) as E1. change (splice 0 NUAPP001 fill = NUAPP001 ++ drop 8 fill) in E1.
  pose proof (splice_fill NUAPP001 header (drop 8 fill)) as E2. rewrite H8 in E2.
  pose proof (splice_fill (NUAPP001 ++ header) initialize (drop (length header) (drop 8 fill))) as E3.
  pose proof (splice_fill (NUAPP001 ++ header ++ initialize) app (drop (length initialize) (drop (length header) (drop 8 fill)))) as E4.
  rewrite !zlen_app, H8, H4 in *. rewrite <- !app_assoc in *. rewrite E1, E2. rewrite (E3 : splice 12 _ _ = _).
  replace (8 + (4 + zlen initialize)) with (12 + zlen initialize) in E4 by lia. rewrite E4.
  rewrite (drop_ge _ (length app)); [by rewrite app_nil_r|]. rewrite !length_drop. lia.
Qed.

(** What a payload says: the magic, the initialization of the length it names, and the
    application. *)
Definition read_payload (bytes : list byte) : option (list byte * list byte) :=
  if bool_decide (take 8 bytes = NUAPP001) then
    let n := le_combine (take 4 (drop 8 bytes)) in
    if n <=? zlen bytes - 12 then Some (slice 12 n bytes, drop (Z.to_nat (12 + n)) bytes) else None
  else None.

Lemma read_payload_app initialize app :
  zlen initialize < 2 ^ 32 → read_payload (NUAPP001 ++ le_split 4 (zlen initialize) ++ initialize ++ app) = Some (initialize, app).
Proof.
  intros Hi. pose proof (zlen_nonneg initialize) as H0. pose proof (length_le_split 4 (zlen initialize)) as H4. unfold read_payload.
  rewrite (take_app_length' NUAPP001), bool_decide_true by done.
  rewrite (drop_app_length' NUAPP001), take_app_length' by done.
  rewrite le_combine_split, Z.mod_small by (simpl; lia).
  destruct (Z.leb_spec (zlen initialize) (zlen (NUAPP001 ++ le_split 4 (zlen initialize) ++ initialize ++ app) - 12)) as [_|Hlt].
  2:{ assert (zlen (le_split 4 (zlen initialize)) = 4) as HZ by (unfold zlen at 1; lia).
      rewrite !zlen_app, HZ in Hlt. change (zlen NUAPP001) with 8 in Hlt. pose proof (zlen_nonneg app). lia. }
  rewrite !app_assoc, <- (app_assoc NUAPP001). f_equal. f_equal.
  - replace ((NUAPP001 ++ le_split 4 (zlen initialize) ++ initialize) ++ app)
      with ((NUAPP001 ++ le_split 4 (zlen initialize)) ++ initialize ++ app) by (by rewrite <- !app_assoc).
    unfold slice. rewrite drop_app_length' by (rewrite length_app, H4; done).
    apply take_app_length'. unfold zlen. by rewrite Nat2Z.id.
  - apply drop_app_length'. rewrite !length_app, H4. unfold zlen. change (length NUAPP001) with 8%nat. lia.
Qed.

(** The payload of an application reads back as its initialization and its
    application, within seven MiB; nothing but larger input is refused. *)
Theorem applicationPayload_roundtrip app initialize :
  match applicationPayload (Some app) (Some initialize) with
  | Ok bytes => zlen bytes <= MAX_APPLICATION ∧ read_payload bytes = Some (initialize, app)
  | Throw _ => MAX_APPLICATION < 12 + zlen app + zlen initialize
  end.
Proof.
  rewrite applicationPayload_concatenates. pose proof (zlen_nonneg app) as H0.
  destruct (Z.ltb_spec MAX_APPLICATION (12 + zlen app + zlen initialize)) as [|H]; [done|]. split.
  - rewrite !zlen_app. unfold zlen at 2. rewrite length_le_split. change (zlen NUAPP001) with 8. lia.
  - apply read_payload_app. unfold MAX_APPLICATION in H. lia.
Qed.

(** ** Handlers *)

Lemma mget_spread {H} (a b : jmap string H) k : NoDup b.*1 →
  mget k (spread a b) = match mget k b with Some h => Some h | None => mget k a end.
Proof.
  unfold spread. revert a. induction b as [|[k' h] b IH]; intros a; simpl; [done|]. intros [Hni Hnd]%NoDup_cons.
  rewrite IH by done. case_decide as Hk.
  - subst. rewrite mget_mset_eq. by rewrite (proj2 (mget_None_keys k' b) Hni).
  - destruct (mget k b); [done|]. by rewrite mget_mset_ne.
Qed.

(** The runtime's own handlers of [aot] and [workers] cannot be replaced by a caller,
    and a caller's [system] comes before the pool's. *)
Lemma packaged_precedence {H} (supplied : jmap string H) kernels lanes perform k :
  NoDup supplied.*1 →
  let handlers := packagedEffectHandlers supplied kernels (Some (lanes, perform)) in
  mget k handlers =
    if bool_decide (k = "workers") then Some perform else if bool_decide (k = "aot") then Some kernels
    else match mget k supplied with Some h => Some h | None => if bool_decide (k = "system") then Some lanes else None end.
Proof.
  intros Hnd. simpl. repeat case_bool_decide; subst; rewrite ?mget_mset_eq, ?mget_mset_ne, ?mget_mset_eq, ?mget_spread by done; try done.
  simpl. by rewrite decide_False by congruence.
Qed.
