(* ===== verification/AppRun.v ===== *)
(** One run of an application, [runNuppLuaJITApp] of
    [src/runtime/luajit/app-runtime.mjs].

    The loop owns a guest (file [Guest]) and suspends at its two [await]s: for the
    guest's next frame, and for the handler of the frame's effects.  What the handler
    does is not fixed here: its answer comes with the lease table as it left it, and the
    effects it started work on the services at any time, also while the loop waits for the
    guest and after the run has ended.  An [AbortController] is its reason; whether a pending
    [await] sees the abort first or its own value is left open. *)

From S2P Require Import Prelude Transfers EffectLeases Wire HostValues HostChannel.
From S2P Require Import EffectFiles EffectCodec EffectHttp EffectGpu AppLimits Guest.

(** ** Frames of an application *)

(** [request.requests]: no value or a falsy one, an array, or something else. *)
Record request_head := RequestHead {
  rq_kind : jsval;
  rq_operation : jsval
}.
Inductive request_list := RFalsy | RArray (requests : list request_head) | ROther.

(** [frame.result.value] of a finished application. *)
Inductive done_value := VText (text : string) | VNullish | VOther.

(** [frame.result] and [frame.payload]; [ad_text] is the length of the request's JSON
    text in bytes. *)
Record app_data := AppData {
  ad_ok : bool;
  ad_error : string;
  ad_value : done_value;
  ad_kind : jsval;
  ad_requests : request_list;
  ad_text : Z;
  ad_leases : option (list descriptor);
  ad_payload : list byte
}.

(** ** Budgets *)

Inductive budget := BEffects | BEffectBytes | BResponseBytes.
#[export] Instance budget_eq_dec : EqDecision budget.
Proof. solve_decision. Defined.

Definition budget_name (b : budget) : string :=
  match b with BEffects => "maxEffects" | BEffectBytes => "maxEffectBytes" | BResponseBytes => "maxResponseBytes" end.

Record counts := Counts {
  ct_effects : Z;
  ct_effectBytes : Z;
  ct_responseBytes : Z
}.
Definition no_counts : counts := Counts 0 0 0.

Definition get_count (b : budget) (c : counts) : Z :=
  match b with BEffects => ct_effects c | BEffectBytes => ct_effectBytes c | BResponseBytes => ct_responseBytes c end.
Definition add_count (b : budget) (amount : Z) (c : counts) : counts :=
  match b with
  | BEffects => Counts (ct_effects c + amount) (ct_effectBytes c) (ct_responseBytes c)
  | BEffectBytes => Counts (ct_effects c) (ct_effectBytes c + amount) (ct_responseBytes c)
  | BResponseBytes => Counts (ct_effects c) (ct_effectBytes c) (ct_responseBytes c + amount)
  end.

(** [n > limit], where a limit that is not set bounds nothing. *)
Definition over (n : Z) (limit : option Z) : bool := match limit with Some m => m <? n | None => false end.

Definition exceededMessage (path value : string) : string :=
  "browser application exceeded limits." +:+ path +:+ " (" +:+ value +:+ ")".

(** ** State *)

(** The services of a run, as far as its end gives them back. *)
Record services (P : Type) := Services {
  sv_host : option channel;
  sv_http : http;
  sv_files : files P;
  sv_gpu : gpu
}.
Arguments Services {P}.
Arguments sv_host {P}.
Arguments sv_http {P}.
Arguments sv_files {P}.
Arguments sv_gpu {P}.

Inductive app_phase :=
| PReceiving (promise : Z)
| PHandling (request : app_data)
| PReturned (value : option string)
| PThrew (error : string).

Record app_run (P R : Type) := AppRun {
  ar_limits : limits;
  ar_turn : counts;
  ar_run : counts;
  ar_guest : guest app_data R;
  ar_phase : app_phase;
  ar_aborted : option string;
  ar_deadline : bool;
  ar_services : services P
}.
Arguments AppRun {P R}.
Arguments ar_limits {P R}.
Arguments ar_turn {P R}.
Arguments ar_run {P R}.
Arguments ar_guest {P R}.
Arguments ar_phase {P R}.
Arguments ar_aborted {P R}.
Arguments ar_deadline {P R}.
Arguments ar_services {P R}.

Section Run.
Context {P R : Type} `{!Opfs P}.

(** The page of the host channel; [beginsTurn]; the JSON text of a response with its
    returned leases, in bytes; [JSON.parse] of a final value. *)
Context (pg : page).
Context (beginsTurn : app_data → res bool).
Context (response_text : R → list returned → Z).
Context (JSON_parse : string → res string).

Implicit Types a : app_run P R.

Definition set_counts (turn run : counts) a : app_run P R :=
  AppRun (ar_limits a) turn run (ar_guest a) (ar_phase a) (ar_aborted a) (ar_deadline a) (ar_services a).
Definition set_guest (g : guest app_data R) a : app_run P R :=
  AppRun (ar_limits a) (ar_turn a) (ar_run a) g (ar_phase a) (ar_aborted a) (ar_deadline a) (ar_services a).
Definition set_phase (p : app_phase) a : app_run P R :=
  AppRun (ar_limits a) (ar_turn a) (ar_run a) (ar_guest a) p (ar_aborted a) (ar_deadline a) (ar_services a).
Definition set_abort (aborted : option string) (deadline : bool) a : app_run P R :=
  AppRun (ar_limits a) (ar_turn a) (ar_run a) (ar_guest a) (ar_phase a) aborted deadline (ar_services a).
Definition set_services (s : services P) a : app_run P R :=
  AppRun (ar_limits a) (ar_turn a) (ar_run a) (ar_guest a) (ar_phase a) (ar_aborted a) (ar_deadline a) s.

Definition on_guest {A} (m : js (guest app_data R) A) : js (app_run P R) A := zoom ar_guest set_guest m.

(** ** Counting *)

Definition count (b : budget) (amount : Z) : js (app_run P R) () :=
  modify (λ a, set_counts (add_count b amount (ar_turn a)) (add_count b amount (ar_run a)) a) ;;
  a ← gets (λ a, a);
  let turn := mget (budget_name b) (perTurn (ar_limits a)) in
  let run := mget (budget_name b) (perRun (ar_limits a)) in
  guard_js (over (get_count b (ar_turn a)) turn) (exceededMessage ("perTurn." +:+ budget_name b) (pretty (default 0 turn))) ;;
  guard_js (over (get_count b (ar_run a)) run) (exceededMessage ("perRun." +:+ budget_name b) (pretty (default 0 run))).

(** ** Aborting *)

(** [controller.abort(reason)]: the guest's listener closes it. *)
Definition abort (reason : string) : js (app_run P R) () :=
  a ← gets (λ a, a);
  match ar_aborted a with
  | Some _ => mret tt
  | None => modify (set_abort (Some reason) (ar_deadline a)) ;; on_guest (aborts reason)
  end.

Definition armRun : js (app_run P R) () :=
  modify (λ a, match mget "deadlineMs" (perRun (ar_limits a)) with
               | Some _ => set_abort (ar_aborted a) true a
               | None => a
               end).

(** ** The end of a run *)

Definition close_files : js (files P) () :=
  handles ← gets fl_handles;
  for_each handles (λ p, call (fs_close (f_access p.2)) ;; mret tt) ;;
  modify (λ s, set_handles [] s).

Definition close_gpu : js gpu () :=
  g ← gets (λ g, g);
  for_each (g_resources g) (λ p, if r_listed p.2 then dev_destroy (r_buffer p.2) else mret tt).

Definition close_services : js (services P) () :=
  s ← gets (λ s, s);
  match sv_host s with
  | Some c =>
      zoom (λ _, c) (λ c s, Services (Some c) (sv_http s) (sv_files s) (sv_gpu s)) (closeHostChannel pg)
  | None => mret tt
  end ;;
  modify (λ s, Services (sv_host s) (EffectHttp.set_bodies [] (ht_next (sv_http s)) (sv_http s)) (sv_files s) (sv_gpu s)) ;;
  zoom sv_files (λ f s, Services (sv_host s) (sv_http s) f (sv_gpu s)) close_files ;;
  zoom sv_gpu (λ g s, Services (sv_host s) (sv_http s) (sv_files s) g) close_gpu.

(** The [finally]. *)
Definition finish_run : js (app_run P R) () :=
  modify (λ a, set_abort (ar_aborted a) false a) ;;
  abort "Application closed" ;;
  on_guest (Guest.close "Guest closed") ;;
  zoom ar_services set_services close_services.

(** ** The loop *)

(** A finished application: its value, as JSON text. *)
Definition finished (d : app_data) (l : limits) : res (option string) :=
  if negb (ad_ok d) then Throw (ad_error d)
  else match ad_value d with
  | VText text =>
      let max := mget "maxResponseBytes" (perTurn l) in
      if over (zlen (encode text)) max
      then Throw (exceededMessage "perTurn.maxResponseBytes" (pretty (default 0 max)))
      else if bool_decide (text = "") then Ok None else v ← JSON_parse text; mret (Some v)
  | VNullish => Ok None
  | VOther => Ok (Some "")
  end.

Definition request_count (r : request_list) : Z := match r with RArray l => zlen l | _ => 0 end.

(** What follows [await guest.receive()], up to the handler. *)
Definition handle_frame (f : guest_frame app_data) : js (app_run P R) app_phase :=
  let d := gf_result f in
  if bool_decide (gf_type f = "done") then
    a ← gets (λ a, a);
    v ← lift (finished d (ar_limits a)); mret (PReturned v)
  else
    guard_js (negb (bool_decide (gf_type f = "effect"))) "Unexpected application frame" ;;
    begins ← lift (beginsTurn d);
    when begins (modify (λ a, set_counts no_counts (ar_run a) a)) ;;
    count BEffects (request_count (ad_requests d)) ;;
    count BEffectBytes (ad_text d + zlen (ad_payload d)) ;;
    lift (createTransfers (ad_leases d) (ad_payload d)) ;;
    mret (PHandling d).

(** What follows the handler's answer: the leases it returns, the guest's answer, and
    the wait for the next frame. *)
Definition answer_frame (response : R) (t : transfers) : js (app_run P R) app_phase :=
  '(items, payload) ← lift (Transfers.response t);
  count BResponseBytes (response_text response items + zlen payload) ;;
  on_guest (respond response payload) ;;
  p ← on_guest receive;
  mret (PReceiving p).

(** A segment between two [await]s: the run is over when it throws or returns. *)
Definition segment (m : js (app_run P R) app_phase) : js (app_run P R) () := λ a,
  match m a with
  | (Ok (PReturned v), a') => (finish_run ;; modify (set_phase (PReturned v))) a'
  | (Ok p, a') => modify (set_phase p) a'
  | (Throw e, a') => (finish_run ;; modify (set_phase (PThrew e))) a'
  end.

(** ** Runs *)

Inductive app_event :=
| EvGuest (ev : guest_event app_data R)
| EvResume
| EvWork (work : services P → services P)
| EvAnswer (outcome : res R) (t : transfers)
| EvSignal (reason : string)
| EvRunDeadline
| EvRaceAborted.

(** What the worker, its clock and its signal may do. *)
Definition from_outside (ev : guest_event app_data R) : bool :=
  match ev with EvMessage _ _ | EvError _ _ | EvTimer => true | _ => false end.

Definition is_ready (ev : guest_event app_data R) : bool :=
  match ev with EvMessage _ DReady => true | _ => false end.

Definition run_app_event (ev : app_event) : js (app_run P R) () :=
  a ← gets (λ a, a);
  match ev with
  | EvGuest gev =>
      when (from_outside gev)
        (on_guest (run_guest_event gev) ;;
         a' ← gets (λ a, a);
         when (is_ready gev && negb (bool_decide (length (gs_progress (ar_guest a')) = length (gs_progress (ar_guest a)))))
           armRun)
  | EvResume =>
      match ar_phase a with
      | PReceiving p =>
          match mget p (gs_settled (ar_guest a)) with
          | Some (Ok f) => segment (handle_frame f)
          | Some (Throw e) => segment (throw e)
          | None => mret tt
          end
      | _ => mret tt
      end
  | EvWork work => modify (set_services (work (ar_services a)))
  | EvAnswer outcome t =>
      match ar_phase a with
      | PHandling _ => segment (response ← lift outcome; answer_frame response t)
      | _ => mret tt
      end
  | EvSignal reason => abort reason
  | EvRunDeadline =>
      when (ar_deadline a)
        (modify (set_abort (ar_aborted a) false) ;;
         abort (exceededMessage "perRun.deadlineMs" (pretty (default 0 (mget "deadlineMs" (perRun (ar_limits a)))) +:+ " ms")))
  | EvRaceAborted =>
      match ar_phase a, ar_aborted a with
      | PHandling _, Some reason => segment (throw reason)
      | _, _ => mret tt
      end
  end.

Fixpoint run_app (evs : list app_event) a : app_run P R :=
  match evs with
  | [] => a
  | ev :: evs' => run_app evs' (run_app_event ev a).2
  end.

(** [runNuppLuaJITApp] up to its first [await]; [aborted] is a signal that has fired. *)
Definition runNuppLuaJITApp (overrides : list layer) (app initialize : option (list byte)) (aborted : option string)
    (s : services P) : res (app_run P R) :=
  l ← resolveLimits overrides;
  payload ← applicationPayload app initialize;
  let ms := pretty (default 0 (mget "computeMs" (perTurn l))) +:+ " ms" in
  let g := createGuest (GuestOptions payload true false (exceededMessage "perTurn.computeMs" ms)) aborted in
  let '(p, g') := match receive g with (Ok p, g') => (p, g') | (Throw _, g') => (0, g') end in
  mret (AppRun l no_counts no_counts g' (PReceiving p) aborted false s).
End Run.

(** ** Turns of a worker lane *)

(** [beginsTask] of [src/runtime/luajit/worker-lane.mjs]: a frame that hands the lane
    work, or takes its reply. *)
Definition begins_task (e : request_head) : bool :=
  bool_decide (rq_kind e = VStr "lane") && negb (bool_decide (rq_operation e = VStr "checkpoint")).

Definition beginsTask (d : app_data) : res bool :=
  if bool_decide (ad_kind d = VStr "effects") then
    match ad_requests d with
    | RFalsy => Ok false
    | RArray l => Ok (existsb begins_task l)
    | ROther => Throw "some is not a function"
    end
  else Ok false.
