(* ===== verification/AppRunSpec.v ===== *)
(** Properties of [AppRun]: a run stays within its limits, an abort ends it, and its end
    gives back everything the run held. *)

From S2P Require Import Prelude Transfers EffectLeases Wire HostValues HostChannel.
From S2P Require Import EffectFiles EffectCodec EffectHttp EffectGpu EffectGpuSpec EffectFilesSpec AppLimits Guest GuestSpec AppRun.

(** ** What a guest does on its own *)

Section Advance.
Context {R : Type}.
Implicit Types g : guest app_data R.

(** The payload bytes that have crossed to the guest. *)
Definition sent_bytes (x : crossing app_data R) : Z := match x with XResponse _ _ _ payload => zlen payload | _ => 0 end.
Definition sent g : Z := sumZ sent_bytes (gs_crossed g).

Definition promised (p : Z) g : Prop := gs_waiting g = Some p ∨ is_Some (mget p (gs_settled g)).

Record advances g0 g : Prop := {
  ad_next : gs_nextPromise g = gs_nextPromise g0;
  ad_sent : sent g = sent g0;
  ad_closed : gs_closed g0 = true → gs_closed g = true;
  ad_waiting : ∀ p, gs_waiting g = Some p → gs_waiting g0 = Some p;
  ad_promised : ∀ p, promised p g0 → promised p g
}.

Lemma advances_refl g : advances g g.
Proof. by split. Qed.

Section Ops.
Context (g0 : guest app_data R).
Let I : guest app_data R → Prop := advances g0.

Lemma advances_same (f : guest app_data R → guest app_data R) :
  (∀ g, gs_nextPromise (f g) = gs_nextPromise g ∧ gs_waiting (f g) = gs_waiting g ∧ gs_settled (f g) = gs_settled g ∧
        sent (f g) = sent g ∧ (gs_closed g = true → gs_closed (f g) = true)) → preserves I (modify f).
Proof.
  intros H. apply preserves_modify. intros g []. destruct (H g) as (E1 & E2 & E3 & E4 & E5).
  split; [by rewrite E1|by rewrite E4|auto|by rewrite E2|]. intros p Hp. specialize (ad_promised0 p Hp). unfold promised in *.
  by rewrite E2, E3.
Qed.

Hint Extern 1 (preserves _ (modify _)) => (apply advances_same; done) : jsinv.

Lemma sumZ_snoc {A} (f : A → Z) l x : sumZ f (l ++ [x]) = sumZ f l + f x.
Proof. rewrite sumZ_app. simpl. lia. Qed.

Lemma advances_cross x : sent_bytes x = 0 → preserves I (cross x).
Proof.
  intros Hx. apply advances_same. intros g. unfold sent. simpl. rewrite sumZ_snoc, Hx. repeat split; [lia|done].
Qed.
Hint Extern 1 (preserves _ (cross _)) => (apply advances_cross; done) : jsinv.

Lemma advances_settle r : preserves I (settle_waiting r).
Proof.
  apply preserves_modify. intros g [E1 E2 E3 E4 E5]. destruct (gs_waiting g) as [p|] eqn:Hw; [|split; try done; by rewrite Hw].
  split; simpl; try done. intros q Hq. specialize (E5 q Hq). unfold promised in *. simpl. right. rewrite Hw in E5.
  rewrite mget_app. 
  destruct E5 as [[= ->]|[v Ev]].
  2:{ rewrite Ev. by eexists. }
  destruct (mget q (gs_settled g)); [by eexists|]. simpl. rewrite decide_True by done. by eexists.
Qed.
Hint Resolve advances_settle : jsinv.

Lemma advances_close reason : preserves I (close reason).
Proof. unfold close, terminate. preserve. Qed.
Hint Resolve advances_close : jsinv.

Lemma advances_deliver f : preserves I (deliver f).
Proof.
  intros g Hg. unfold deliver. erewrite bind_run by done. destruct (gs_waiting g) eqn:Hw; [by apply advances_settle|].
  destruct (_ <? 2)%nat; [|by apply advances_close]. destruct Hg as [E1 E2 E3 E4 E5]. split; simpl; try done.
  intros p Hp. specialize (E5 p Hp). unfold promised in *. by rewrite Hw in E5.
Qed.
Hint Resolve advances_deliver : jsinv.

Lemma advances_failed i e : preserves I (failed i e).
Proof. unfold failed, launch, terminate, onProgress, arm. preserve. Qed.
Hint Resolve advances_failed : jsinv.

Lemma advances_outside ev : from_outside ev = true → preserves I (run_guest_event ev).
Proof.
  destruct ev; try done; intros _; simpl.
  - unfold onmessage, onProgress. preserve.
  - preserve.
  - unfold timer_fires. preserve.
Qed.

Lemma advances_aborts reason : preserves I (aborts reason).
Proof. unfold aborts. preserve. Qed.
End Ops.
End Advance.

(** ** The end of the services *)

Definition host_closed (c : channel) : Prop :=
  c_closed c = true ∧ c_inflight c = [] ∧ c_answers c = [] ∧ c_results c = [] ∧ c_uploads c = [] ∧ c_reassembled c = 0.

Definition host_part (c : channel) :=
  (c_closed c, c_inflight c, c_answers c, c_results c, c_uploads c, c_reassembled c).

(** Code of the channel that touches its log and its listener only. *)
Definition speaks (m : js channel ()) : Prop := ∀ c, ∃ c', m c = (Ok tt, c') ∧ host_part c' = host_part c.

Lemma speaks_for_each {A} (xs : list A) f : (∀ x, speaks (f x)) → speaks (for_each xs f).
Proof.
  intros Hf. induction xs as [|x xs IH]; intros c; simpl; [by exists c|].
  destruct (Hf x c) as (c1 & E1 & H1). destruct (IH c1) as (c2 & E2 & H2). exists c2. split; [|congruence].
  by erewrite bind_run by exact E1.
Qed.

Lemma speaks_release pg release values : speaks (releaseResult pg release values).
Proof.
  intros c. unfold releaseResult. destruct release as [kind|]; [|by exists c]. erewrite bind_run by done.
  destruct (release_throws pg kind values); by eexists.
Qed.

Lemma bind_speaks {B} m (k : () → js channel B) c :
  speaks m → ∃ c', (m ≫= k) c = k tt c' ∧ host_part c' = host_part c.
Proof. intros Hm. destruct (Hm c) as (c' & E & H). exists c'. split; [|done]. by erewrite bind_run by exact E. Qed.

Lemma closeHostChannel_closes pg c : c_closed c = false → ∃ c', closeHostChannel pg c = (Ok tt, c') ∧ host_closed c'.
Proof.
  intros Hc. unfold closeHostChannel. erewrite bind_run by done. rewrite Hc. do 2 erewrite bind_run by done.
  match goal with |- context [(for_each ?l ?f ≫= ?k) ?c0] => destruct (bind_speaks (for_each l f) k c0) as (c1 & -> & H1) end.
  { apply speaks_for_each. intros x c0. by eexists. }
  do 2 erewrite bind_run by done.
  match goal with |- context [(for_each ?l ?f ≫= ?k) ?c0] => destruct (bind_speaks (for_each l f) k c0) as (c2 & -> & H2) end.
  { apply speaks_for_each. intros x. unfold release_answer. destruct (a_body x); first [apply speaks_release|intros c0; by eexists]. }
  do 2 erewrite bind_run by done.
  match goal with |- context [(for_each ?l ?f ≫= ?k) ?c0] => destruct (bind_speaks (for_each l f) k c0) as (c3 & -> & H3) end.
  { apply speaks_for_each. intros x. apply speaks_release. }
  do 3 erewrite bind_run by done.
  match goal with |- ∃ c', ?m ?c0 = _ ∧ _ => assert (∃ c', m c0 = (Ok tt, c') ∧ host_part c' = host_part c0) as (c4 & -> & H4) end.
  { destruct (end_defined pg); [|by eexists]. erewrite bind_run by done. destruct (end_throws pg); by eexists. }
  exists c4. split; [done|]. unfold host_part in *. simpl in *.
  destruct (c_notify _); simpl in H4; unfold host_closed; injection H1; injection H2; injection H3; injection H4; intros; subst;
    repeat split; congruence.
Qed.

(** Buffers of the table, destroyed one by one. *)
Lemma destroy_buffers (rs : jmap Z resource) g :
  g_fault g = false → NoDup (flat res_bufs rs) → (∀ b, b ∈ flat res_bufs rs → b ∈ g_live g) →
  ∃ g', for_each rs (λ p, if r_listed p.2 then dev_destroy (r_buffer p.2) else mret tt) g = (Ok tt, g') ∧
    g_fault g' = false ∧ g_resources g' = g_resources g ∧ (∀ b, b ∈ g_live g' → b ∈ g_live g) ∧
    ∀ p, p ∈ rs → r_listed p.2 = true → r_buffer p.2 ∉ g_live g'.
Proof.
  revert g. induction rs as [|[h r] rs IH]; intros g Hf Hnd Hl; cbn [for_each].
  { exists g. repeat split; try done. intros p Hp. by apply elem_of_nil in Hp. }
  unfold flat in *. simpl in *. apply NoDup_app in Hnd as (Hr & Hdis & Hnd).
  destruct (r_listed r) eqn:Hlr.
  - assert (r_buffer r ∈ res_bufs r) as Hb by (unfold res_bufs; rewrite Hlr; left).
    destruct (IH (destroyed (r_buffer r) g)) as (g' & E & F & Q & L & D); [done|done| |].
    { intros b Hb'. simpl. apply list_elem_of_filter. split; [|apply Hl, elem_of_app; by right].
      intros ->. by apply (Hdis (r_buffer r)). }
    exists g'. split; [erewrite bind_run; [exact E|]; apply destroy_live, Hl, elem_of_app; by left|].
    split; [done|]. split; [done|]. split; [intros b Hb'%L; by apply list_elem_of_filter in Hb' as [_ ?]|].
    intros p [->|Hp]%elem_of_cons Hp'; [|by apply D]. simpl. intros Hin%L. by apply list_elem_of_filter in Hin as [? _].
  - destruct (IH g) as (g' & E & F & Q & L & D); [done|done|intros b Hb; apply Hl, elem_of_app; by right|].
    exists g'. split; [by erewrite bind_run by done|]. split; [done|]. split; [done|]. split; [done|].
    intros p [->|Hp]%elem_of_cons Hp'; [simpl in Hp'; congruence|by apply D].
Qed.

Section Ends.
Context {P R : Type} `{!Opfs P}.
Context (pg : page) (beginsTurn : app_data → res bool) (response_text : R → list returned → Z) (JSON_parse : string → res string).
Implicit Types (a : app_run P R) (s : services P).

(** Services as a running application leaves them, and as the end of the run does. *)
Definition services_ok s : Prop := gpu_wf [] (sv_gpu s) ∧ ∀ c, sv_host s = Some c → c_closed c = false.
Definition services_over s : Prop :=
  (∀ c, sv_host s = Some c → host_closed c) ∧ ht_bodies (sv_http s) = [] ∧ fl_handles (sv_files s) = [] ∧
  g_fault (sv_gpu s) = false ∧ ∀ h r, listed h (sv_gpu s) = Some r → r_buffer r ∉ g_live (sv_gpu s).

Lemma close_files_run (f : files P) : ∃ f', close_files f = (Ok tt, f') ∧ fl_handles f' = [].
Proof.
  unfold close_files. erewrite bind_run by done.
  assert (∀ hs f, ∃ f', for_each hs (λ p : Z * open_file, call (fs_close (f_access p.2)) ;; mret tt) f = (Ok tt, f')) as Hloop.
  { intros hs. induction hs as [|h hs IH]; intros f0; cbn [for_each]; [by eexists|].
    assert (∃ f1, (call (fs_close (f_access h.2)) ;; mret tt) f0 = (Ok tt, f1)) as [f1 E1].
    { unfold mbind, js_bind, call. destruct (fs_close (f_access h.2) (fl_platform f0)) as [r p]. by eexists. }
    erewrite bind_run by exact E1. apply IH. }
  destruct (Hloop (fl_handles f) f) as [f' E]. erewrite bind_run by exact E. by eexists.
Qed.

Lemma close_gpu_run g : gpu_wf [] g →
  ∃ g', close_gpu g = (Ok tt, g') ∧ g_fault g' = false ∧ ∀ h r, listed h g' = Some r → r_buffer r ∉ g_live g'.
Proof.
  intros []. unfold owned in *. simpl in *. apply NoDup_app in gw_owned as (Hnd & _ & _).
  destruct (destroy_buffers (g_resources g) g gw_fault Hnd) as (g' & E & F & Q & L & D).
  { intros b Hb. apply gw_live, elem_of_app. by left. }
  exists g'. split; [done|]. split; [done|]. intros h r [Hr Hl]%listed_Some. apply (D (h, r)); [|done].
  rewrite Q in Hr. by apply mget_elem in Hr.
Qed.

Lemma close_services_run s : services_ok s → ∃ s', close_services pg s = (Ok tt, s') ∧ services_over s'.
Proof.
  intros [Hg Hc]. unfold close_services. erewrite bind_run by done.
  match goal with |- context [(?m ≫= ?k) s] => assert (∃ host, m s = (Ok tt, Services host (sv_http s) (sv_files s) (sv_gpu s)) ∧
    ∀ c, host = Some c → host_closed c) as (host & E & Hh) end.
  { destruct (sv_host s) as [c|] eqn:Hs.
    - destruct (closeHostChannel_closes pg c (Hc c eq_refl)) as (c' & E & H). exists (Some c'). split.
      { unfold zoom. by rewrite E. } by intros ? [= <-].
    - exists None. split; [|done]. destruct s. simpl in *. by subst. }
  erewrite bind_run by exact E. erewrite bind_run by done.
  destruct (close_files_run (sv_files s)) as (f' & Ef & Hf). destruct (close_gpu_run (sv_gpu s) Hg) as (g' & Eg & Hfault & Hl).
  erewrite bind_run by (unfold zoom; simpl; by rewrite Ef). unfold zoom. simpl. rewrite Eg.
  eexists. split; [done|]. split; [done|]. split; [done|]. split; [done|]. by split.
Qed.

(** ** The invariant of a run *)

Definition within (l : limits) (turn run : counts) : Prop :=
  ∀ b, over (get_count b turn) (mget (budget_name b) (perTurn l)) = false ∧
       over (get_count b run) (mget (budget_name b) (perRun l)) = false.

Definition running (p : app_phase) : Prop := match p with PReceiving _ | PHandling _ => True | _ => False end.

(** What every segment keeps of the guest. *)
Record guest_ok a : Prop := {
  ga_guest : guest_wf (ar_guest a);
  ga_aborted : is_Some (ar_aborted a) → gs_closed (ar_guest a) = true;
  ga_sent : ∀ m, mget "maxResponseBytes" (perRun (ar_limits a)) = Some m → sent (ar_guest a) <= m
}.

Definition limits_ok (l : limits) : Prop := ∀ key m, mget key (perTurn l) = Some m → 1 <= m.

Record app_ok a : Prop := {
  ao_limits : limits_ok (ar_limits a);
  ao_guest : guest_ok a;
  ao_within : running (ar_phase a) → within (ar_limits a) (ar_turn a) (ar_run a);
  ao_counted : running (ar_phase a) → sent (ar_guest a) <= ct_responseBytes (ar_run a);
  ao_promise : ∀ p, ar_phase a = PReceiving p →
    promised p (ar_guest a) ∧ ∀ q, gs_waiting (ar_guest a) = Some q → q = p;
  ao_quiet : ∀ d, ar_phase a = PHandling d → gs_waiting (ar_guest a) = None;
  ao_services : running (ar_phase a) → services_ok (ar_services a);
  ao_over : ¬ running (ar_phase a) →
    gs_closed (ar_guest a) = true ∧ ar_deadline a = false ∧ is_Some (ar_aborted a)
}.

(** Everything but the guest, and but the reasons and clocks of the run. *)
Definition app_part a := (ar_limits a, ar_turn a, ar_run a, ar_phase a, ar_services a).

Lemma abort_run reason a :
  guest_ok a →
  ∃ a', abort reason a = (Ok tt, a') ∧ guest_ok a' ∧ is_Some (ar_aborted a') ∧ gs_closed (ar_guest a') = true ∧
    advances (ar_guest a) (ar_guest a') ∧ app_part a' = app_part a ∧ ar_deadline a' = ar_deadline a.
Proof.
  intros [Hw Ha Hs]. unfold abort. erewrite bind_run by done. destruct (ar_aborted a) as [r|] eqn:Hr.
  { exists a. split; [done|]. split; [split; try done; by rewrite Hr|]. rewrite Hr. split; [done|]. split; [by apply Ha|].
    split; [apply advances_refl|done]. }
  erewrite bind_run by done. unfold on_guest, zoom. simpl.
  pose proof (event_wf (EvAbort reason) _ Hw) as Hw'. pose proof (advances_aborts (ar_guest a) reason _ (advances_refl _)) as Hadv.
  simpl in Hw'. assert (∃ g', aborts reason (ar_guest a) = (Ok tt, g') ∧ gs_closed g' = true) as (g' & E & Hc).
  { unfold aborts. erewrite bind_run by done. destruct (gs_closed (ar_guest a)) eqn:Hc.
    - exists (ar_guest a). split; [|done]. destruct (gs_listening _); [|done]. unfold close. erewrite bind_run by done. by rewrite Hc.
    - rewrite (gw_listening _ Hw Hc), close_run by done. by eexists. }
  rewrite E in *. simpl in *. eexists. split; [done|]. simpl. split.
  { split; simpl; try done. intros m Hm. rewrite (ad_sent _ _ Hadv). auto. }
  split; [by eexists|]. done.
Qed.

Lemma guest_close_run reason (g : guest app_data R) :
  guest_wf g → ∃ g', close reason g = (Ok tt, g') ∧ guest_wf g' ∧ gs_closed g' = true ∧ sent g' = sent g.
Proof.
  intros Hw. pose proof (close_wf reason g Hw) as Hw'. destruct (gs_closed g) eqn:Hc.
  - exists g. split; [|done]. unfold close. erewrite bind_run by done. by rewrite Hc.
  - rewrite close_run in * by done. by eexists.
Qed.

(** The [finally] ends everything, whatever the run held. *)
Lemma finish_run_run a :
  guest_ok a → services_ok (ar_services a) →
  ∃ a', finish_run pg a = (Ok tt, a') ∧ guest_ok a' ∧ gs_closed (ar_guest a') = true ∧ ar_deadline a' = false ∧
    is_Some (ar_aborted a') ∧ services_over (ar_services a') ∧ ar_limits a' = ar_limits a.
Proof.
  intros Hg Hs. unfold finish_run. erewrite bind_run by done.
  destruct (abort_run "Application closed" (set_abort (ar_aborted a) false a)) as (a1 & E1 & H1 & Ha1 & Hc1 & _ & Hp1 & Hd1).
  { by destruct Hg. }
  erewrite bind_run by exact E1. destruct H1 as [Hw1 _ Hs1]. injection Hp1 as Hl1 _ _ _ Hsv1.
  destruct (guest_close_run "Guest closed" (ar_guest a1) Hw1) as (g2 & E2 & Hw2 & Hc2 & Hs2).
  erewrite bind_run by (unfold on_guest, zoom; by rewrite E2).
  destruct (close_services_run (ar_services a) Hs) as (s3 & E3 & H3). unfold zoom. simpl. rewrite Hsv1. simpl. rewrite E3.
  eexists. split; [done|]. simpl. split; [|done]. split; simpl; [done|done|]. rewrite Hs2. done.
Qed.

(** ** Segments *)

(** What a segment must leave: a phase that goes on, or anything the end can close. *)
Definition segment_post (m : js (app_run P R) app_phase) a : Prop :=
  match m a with
  | (Ok (PReturned _), a') | (Throw _, a') => limits_ok (ar_limits a') ∧ guest_ok a' ∧ services_ok (ar_services a')
  | (Ok (PThrew _), _) => False
  | (Ok p, a') => app_ok (set_phase p a')
  end.

Lemma segment_ok m a : segment_post m a → app_ok (segment pg m a).2.
Proof.
  assert (∀ p a', ¬ running p → limits_ok (ar_limits a') ∧ guest_ok a' ∧ services_ok (ar_services a') →
    app_ok ((finish_run pg ;; modify (set_phase p)) a').2) as Hend.
  { intros p a' Hp (Hl & Hg & Hs). destruct (finish_run_run a' Hg Hs) as (a2 & E & [] & Hc & Hd & Ha & Ho & Hl2).
    erewrite bind_run by exact E. split; simpl; try done; [by rewrite Hl2| |]; intros ? ->; by destruct Hp. }
  unfold segment_post, segment. intros H. destruct (m a) as [[[p|d|v|e]|e] a']; try done; by apply Hend; [intros []|].
Qed.

Lemma count_cases b n a :
  let a' := set_counts (add_count b n (ar_turn a)) (add_count b n (ar_run a)) a in
  (∃ e, count b n a = (Throw e, a')) ∨
  count b n a = (Ok tt, a') ∧ (within (ar_limits a) (ar_turn a) (ar_run a) → within (ar_limits a) (ar_turn a') (ar_run a')).
Proof.
  intros a'. unfold count. do 2 erewrite bind_run by done.
  change (set_counts (add_count b n (ar_turn a)) (add_count b n (ar_run a)) a) with a'.
  destruct (over (get_count b (ar_turn a')) (mget (budget_name b) (perTurn (ar_limits a')))) eqn:E1.
  { left. by eexists. }
  erewrite bind_run by done. destruct (over (get_count b (ar_run a')) (mget (budget_name b) (perRun (ar_limits a')))) eqn:E2.
  { left. by eexists. }
  right. split; [done|]. intros H b'. destruct (decide (b = b')) as [->|Hb]; [done|].
  specialize (H b'). by destruct b, b'.
Qed.

Lemma guest_ok_counts turn run a : guest_ok a → guest_ok (set_counts turn run a).
Proof. by intros []. Qed.

(** Counting, and then something that is safe either way. *)
Lemma post_count b n k a :
  limits_ok (ar_limits a) → guest_ok a → services_ok (ar_services a) →
  (let a' := set_counts (add_count b n (ar_turn a)) (add_count b n (ar_run a)) a in
   (within (ar_limits a) (ar_turn a) (ar_run a) → within (ar_limits a) (ar_turn a') (ar_run a')) → segment_post (k tt) a') →
  segment_post (count b n ≫= k) a.
Proof.
  intros Hl Hg Hs Hk. unfold segment_post. destruct (count_cases b n a) as [[e E]|[E Hw]].
  - unfold mbind, js_bind. rewrite E. by split_and!; [|apply guest_ok_counts|].
  - erewrite bind_run by exact E. by apply Hk.
Qed.

Lemma post_lift {A} (r : res A) k a :
  limits_ok (ar_limits a) → guest_ok a → services_ok (ar_services a) → (∀ x, r = Ok x → segment_post (k x) a) →
  segment_post (lift r ≫= k) a.
Proof. intros Hl Hg Hs Hk. destruct r as [x|e]; [by apply Hk|]. unfold segment_post. simpl. done. Qed.

Lemma within_reset l run turn : limits_ok l → within l turn run → within l no_counts run.
Proof.
  intros Hl H b. split; [|apply H]. destruct (mget (budget_name b) (perTurn l)) as [m|] eqn:E; [|done].
  apply Hl in E. destruct b; apply Z.ltb_ge; simpl; lia.
Qed.

Lemma post_run {A} (m : js (app_run P R) A) k x a a' : m a = (Ok x, a') → segment_post (k x) a' → segment_post (m ≫= k) a.
Proof. intros E H. unfold segment_post. by erewrite bind_run by exact E. Qed.

Lemma post_guard b e k a :
  limits_ok (ar_limits a) → guest_ok a → services_ok (ar_services a) → (b = false → segment_post (k tt) a) →
  segment_post (guard_js b e ≫= k) a.
Proof. intros Hl Hg Hs Hk. destruct b; [done|]. by eapply post_run; [|apply Hk]. Qed.

(** A frame is handled with the guest quiet: the promise that brought it is settled. *)
Lemma handle_frame_post f p a :
  app_ok a → ar_phase a = PReceiving p → gs_waiting (ar_guest a) = None →
  segment_post (handle_frame beginsTurn JSON_parse f) a.
Proof.
  intros [Hl Hg Hw Hc Hp Hq Hs _] Hph Hwait. rewrite Hph in *. specialize (Hw I). specialize (Hc I). specialize (Hs I).
  unfold handle_frame. case_bool_decide.
  { eapply post_run; [done|]. by apply post_lift. }
  apply post_guard; [done..|intros _]. apply post_lift; [done..|intros begins _].
  assert (∃ turn, when begins (modify (λ a, set_counts no_counts (ar_run a) a)) a = (Ok tt, set_counts turn (ar_run a) a) ∧
    within (ar_limits a) turn (ar_run a)) as (turn & E & Hw1).
  { destruct begins; [|exists (ar_turn a); by destruct a]. exists no_counts. split; [done|]. by eapply within_reset. }
  eapply post_run; [exact E|].
  apply post_count; [done|by apply guest_ok_counts|done|]. intros a2 Hw2. specialize (Hw2 Hw1).
  apply post_count; [done|by do 2 apply guest_ok_counts|done|]. intros a3 Hw3. specialize (Hw3 Hw2).
  apply post_lift; [done|by do 3 apply guest_ok_counts|done|]. intros t _. unfold segment_post. simpl.
  split; simpl; try done. by destruct Hg.
Qed.

(** ** Answers *)

Lemma receive_run (g : guest app_data R) :
  guest_wf g → ∃ p g', receive g = (Ok p, g') ∧ guest_wf g' ∧ promised p g' ∧ sent g' = sent g ∧ gs_closed g' = gs_closed g ∧
    ∀ q, gs_waiting g' = Some q → gs_waiting g = Some q ∨ q = p.
Proof.
  intros Hw. pose proof (receive_wf g Hw) as Hw'. unfold receive in *. erewrite bind_run in * by done.
  set (p := gs_nextPromise g) in *.
  assert (∀ r : res (guest_frame app_data), is_Some (mget p (gs_settled g ++ [(p, r)]))) as Hnew.
  { intros r. rewrite mget_app. destruct (mget p (gs_settled g)); [by eexists|]. simpl. rewrite decide_True by done. by eexists. }
  destruct (gs_closed g) eqn:Hc; [|destruct (gs_waiting g) eqn:Hwt; [|destruct (gs_messages g)]]; simpl in *;
    eexists p, _; (split; [done|]; split; [done|]); (split; [by first [right; apply Hnew|left]|]); simpl; naive_solver.
Qed.

Lemma respond_cases response payload (g : guest app_data R) :
  guest_wf g →
  (∃ e, respond response payload g = (Throw e, g)) ∨
  ∃ g', respond response payload g = (Ok tt, g') ∧ guest_wf g' ∧ sent g' = sent g + zlen payload ∧
    gs_closed g' = gs_closed g ∧ gs_waiting g' = gs_waiting g.
Proof.
  intros Hw. pose proof (respond_wf response payload g Hw) as Hw'. unfold respond in *. erewrite bind_run in * by done.
  destruct (if gs_closed g then None else to_safe (gs_resultSequence g)) as [n|]; [|left; by eexists].
  destruct (gs_worker g) as [w|]; [|left; by eexists]. right. do 2 erewrite bind_run in * by done.
  eexists. split; [done|]. split; [done|]. split; [|done]. unfold sent. simpl. by rewrite sumZ_snoc.
Qed.

Lemma answer_frame_post response t d a :
  (∀ r items, 0 <= response_text r items) → app_ok a → ar_phase a = PHandling d →
  segment_post (answer_frame response_text response t) a.
Proof.
  intros Htext [Hl Hg Hw Hc Hp Hq Hs _] Hph. rewrite Hph in *. specialize (Hw I). specialize (Hc I). specialize (Hs I).
  unfold answer_frame. apply post_lift; [done..|]. intros [items payload] _.
  apply post_count; [done..|]. intros a1 Hw1. specialize (Hw1 Hw).
  assert (guest_ok a1) as Hg1 by (by apply guest_ok_counts).
  assert (sent (ar_guest a1) + zlen payload <= ct_responseBytes (ar_run a1)) as Hc1.
  { simpl. specialize (Htext response items). lia. }
  destruct (respond_cases response payload (ar_guest a1)) as [[e E]|(g2 & E & Hwf2 & Hs2 & Hcl2 & Hwt2)]; [apply Hg1| |].
  { unfold segment_post, on_guest, zoom, mbind, js_bind. rewrite E. split_and!; [done| |done]. by destruct Hg1. }
  eapply post_run; [unfold on_guest, zoom; by rewrite E|].
  destruct (receive_run g2 Hwf2) as (p & g3 & E3 & Hwf3 & Hp3 & Hs3 & Hcl3 & Hwt3).
  eapply post_run; [unfold on_guest, zoom; simpl; by rewrite E3|]. unfold segment_post. simpl.
  split; simpl; try done.
  - destruct Hg1 as [_ Ha _]. split; simpl; [done|intros H; rewrite Hcl3, Hcl2; auto|].
    intros m Hm. specialize (Hw1 BResponseBytes). simpl in Hw1, Hm. rewrite Hm in Hw1. destruct Hw1 as [_ Hov].
    apply Z.ltb_ge in Hov. simpl in Hc1. rewrite Hs3, Hs2. simpl in Hov. simpl. lia.
  - intros _. rewrite Hs3, Hs2. exact Hc1.
  - intros q [= <-]. split; [done|]. intros q [H|H]%Hwt3; [|done]. rewrite Hwt2 in H. simpl in H. by rewrite (Hq d eq_refl) in H.
Qed.

(** ** Events *)

(** The work of an effect keeps what the services' own operations keep: the host channel open, and the table of GPU buffers in order. *)
Definition event_ok (ev : app_event (P:=P) (R:=R)) : Prop := match ev with EvWork work => ∀ s, services_ok s → services_ok (work s) | _ => True end.

Lemma outside_closed gev (g : guest app_data R) :
  from_outside gev = true → guest_wf g → gs_closed g = true → gs_progress (run_guest_event gev g).2 = gs_progress g.
Proof.
  intros Ho Hw Hc. destruct gev as [| | |i d|i e| |]; try done; simpl.
  - unfold onmessage. erewrite bind_run by done. by rewrite Hc.
  - unfold failed. erewrite bind_run by done. by rewrite Hc, orb_true_r.
  - unfold timer_fires. do 2 erewrite bind_run by done. by rewrite (gw_quiet g Hw Hc).
Qed.

(** The guest moves on its own. *)
Lemma app_ok_advances g' a : app_ok a → guest_wf g' → advances (ar_guest a) g' → app_ok (set_guest g' a).
Proof.
  intros [Hl [Hw Ha Hsent] Hin Hc Hp Hq Hs Ho] Hw' Hadv. pose proof (ad_sent _ _ Hadv) as Es. split; simpl; try done.
  - split; simpl; [done|intros H; by apply (ad_closed _ _ Hadv), Ha|]. intros m Hm. rewrite Es. auto.
  - intros Hr. rewrite Es. auto.
  - intros p Hph. destruct (Hp p Hph) as [H1 H2]. split; [by apply (ad_promised _ _ Hadv)|].
    intros q Hq'. by apply H2, (ad_waiting _ _ Hadv).
  - intros d Hph. specialize (Hq d Hph). destruct (gs_waiting g') as [q|] eqn:E; [|done].
    apply (ad_waiting _ _ Hadv) in E. congruence.
  - intros Hr. destruct (Ho Hr) as (H1 & H2). split; [by apply (ad_closed _ _ Hadv)|done].
Qed.

Lemma app_ok_deadline b a : app_ok a → (¬ running (ar_phase a) → b = false) → app_ok (set_abort (ar_aborted a) b a).
Proof.
  intros [Hl [] Hin Hc Hp Hq Hs Ho] Hb. split; simpl; try done. intros Hr. destruct (Ho Hr) as (? & ? & ?). auto.
Qed.

Lemma abort_ok reason a : app_ok a → app_ok (abort reason a).2.
Proof.
  intros H. destruct (abort_run reason a (ao_guest a H)) as (a' & E & Hg & Ha & Hc & Hadv & Hp & Hd). rewrite E. simpl.
  injection Hp as E1 E2 E3 E4 E5. pose proof (app_ok_advances _ _ H (ga_guest a' Hg) Hadv) as [Hl _ Hin Hct Hpr Hq Hs Ho].
  simpl in *. split; rewrite ?E1, ?E2, ?E3, ?E4, ?E5; try done. intros Hr. destruct (Ho Hr) as (? & ? & ?).
  by rewrite Hd.
Qed.

Lemma settled_quiet p r a : app_ok a → ar_phase a = PReceiving p → mget p (gs_settled (ar_guest a)) = Some r → gs_waiting (ar_guest a) = None.
Proof.
  intros H Hph Hr. destruct (gs_waiting (ar_guest a)) as [q|] eqn:Hq; [|done]. exfalso.
  destruct (ao_promise a H p Hph) as [_ Hu]. rewrite (Hu q Hq) in Hq. pose proof (ga_guest a (ao_guest a H)) as Hw.
  pose proof (gw_promises _ Hw) as Hp. rewrite Hq in Hp. assert (NoDup ((gs_settled (ar_guest a)).*1 ++ [p])) as Hnd.
  { simpl in Hp. rewrite Hp. apply NoDup_seqZ. }
  apply NoDup_app in Hnd as (_ & Hd & _). apply (Hd p); [|by apply list_elem_of_singleton].
  apply mget_elem in Hr. by apply (list_elem_of_fmap_2 fst) in Hr.
Qed.

Lemma throw_post e a : app_ok a → running (ar_phase a) → segment_post (throw e) a.
Proof. intros [] Hr. unfold segment_post. simpl. split_and!; auto. Qed.

Lemma run_app_event_ok ev a :
  (∀ r items, 0 <= response_text r items) → event_ok ev → app_ok a →
  app_ok (run_app_event pg beginsTurn response_text JSON_parse ev a).2.
Proof.
  intros Htext Hev H. unfold run_app_event. erewrite bind_run by done. destruct ev as [gev| |work|outcome t|reason| |].
  - destruct (from_outside gev) eqn:Ho; [|done]. simpl.
    pose proof (ga_guest a (ao_guest a H)) as Hw. pose proof (event_wf gev _ Hw) as Hw'.
    pose proof (advances_outside (ar_guest a) gev Ho _ (advances_refl _)) as Hadv.
    pose proof (outside_closed gev (ar_guest a) Ho Hw) as Hpr.
    unfold mbind at 1, js_bind at 1, on_guest, zoom. destruct (run_guest_event gev (ar_guest a)) as [[[]|e] g']; simpl in *;
      pose proof (app_ok_advances g' a H Hw' Hadv) as H'; [|done].
    erewrite bind_run by done. simpl. destruct (is_ready gev && _) eqn:Hready; [|done]. unfold armRun, modify. simpl.
    destruct (mget "deadlineMs" (perRun (ar_limits a))); [|done].
    apply (app_ok_deadline true (set_guest g' a) H'). intros Hr. apply andb_prop in Hready as [_ Hgrew].
    apply negb_true_iff, bool_decide_eq_false in Hgrew. destruct (ao_over a H Hr) as [Hc _]. by rewrite Hpr in Hgrew.
  - destruct (ar_phase a) as [p|d|v|e] eqn:Hph; try done. destruct (mget p _) as [[f|e]|] eqn:Hm; [| |done].
    + apply segment_ok, (handle_frame_post f p); [done|done|]. by eapply settled_quiet.
    + apply segment_ok, throw_post; [done|]. by rewrite Hph.
  - destruct H as [? []]. split; simpl; try done. auto.
  - destruct (ar_phase a) as [p|d|v|e] eqn:Hph; try done.
    apply segment_ok. destruct outcome as [response|e]; [by apply (answer_frame_post response t d)|].
    apply (throw_post e a); [done|]. by rewrite Hph.
  - by apply abort_ok.
  - destruct (ar_deadline a) eqn:Hd; [|done]. simpl. erewrite bind_run by done. apply abort_ok. by apply app_ok_deadline.
  - destruct (ar_phase a) as [p|d|v|e] eqn:Hph; try done. destruct (ar_aborted a) as [r|]; [|done].
    apply segment_ok, throw_post; [done|]. by rewrite Hph.
Qed.

Lemma run_app_ok evs a :
  (∀ r items, 0 <= response_text r items) → Forall event_ok evs → app_ok a →
  app_ok (run_app pg beginsTurn response_text JSON_parse evs a).
Proof.
  intros Htext. revert a. induction evs as [|ev evs IH]; intros a Hev H; [done|]. apply Forall_cons in Hev as [Hev Hevs].
  apply IH; [done|]. by apply run_app_event_ok.
Qed.

Lemma start_ok overrides app initialize aborted s a :
  services_ok s → runNuppLuaJITApp overrides app initialize aborted s = Ok a → app_ok a ∧ running (ar_phase a).
Proof.
  intros Hs. unfold runNuppLuaJITApp. destruct (resolveLimits overrides) as [l|] eqn:El; [|done]. simpl.
  destruct (applicationPayload app initialize) as [payload|]; [|done]. simpl.
  match goal with |- context [createGuest ?o aborted] => set (g := createGuest o aborted);
    pose proof (createGuest_wf (D:=app_data) (R:=R) o aborted : guest_wf g) as Hw end.
  assert (sent g = 0 ∧ gs_waiting g = None ∧ (is_Some aborted → gs_closed g = true)) as (H0 & Hwt & Hc).
  { unfold g, createGuest. destruct aborted; [rewrite close_run by done; done|]. rewrite launch_run. repeat split. by intros [? ?]. }
  destruct (receive_run g Hw) as (p & g' & E & Hw' & Hp & Hsent & Hcl & Hwt'). rewrite E. intros [= <-]. split; [|done].
  assert (∀ b, over 0 (mget (budget_name b) (perTurn l)) = false ∧ over 0 (mget (budget_name b) (perRun l)) = false) as Hin.
  { intros b. split.
    - destruct (mget (budget_name b) (perTurn l)) as [m|] eqn:Em; [|done].
      pose proof (resolved_positive _ _ "perTurn" (budget_name b) m El (or_introl eq_refl) Em). apply Z.ltb_ge. lia.
    - destruct (mget (budget_name b) (perRun l)) as [m|] eqn:Em; [|done].
      pose proof (resolved_positive _ _ "perRun" (budget_name b) m El (or_intror eq_refl) Em). apply Z.ltb_ge. lia. }
  split; simpl; try done.
  - intros key m. apply (resolved_positive _ _ "perTurn" key m El (or_introl eq_refl)).
  - split; simpl; [done|by rewrite Hcl|]. intros m Hm.
    pose proof (resolved_positive _ _ "perRun" "maxResponseBytes" m El (or_intror eq_refl) Hm). lia.
  - intros _ b. destruct (Hin b). by destruct b.
  - intros _. lia.
  - intros q [= <-]. split; [done|]. intros q [Hq|Hq]%Hwt'; [congruence|done].
Qed.

(** ** Ending *)

(** A segment that throws or returns ends the run. *)
Lemma segment_over m a :
  segment_post m a → (∀ p, (m a).1 = Ok p → ¬ running p) → ¬ running (ar_phase (segment pg m a).2).
Proof.
  intros Hm Hr. unfold segment_post, segment in *. destruct (m a) as [[p|e'] a']; simpl in *.
  - specialize (Hr p eq_refl). destruct p as [?|?|v|e]; [by destruct Hr..| |done].
    destruct Hm as (_ & Hg & Hs). destruct (finish_run_run a' Hg Hs) as (a2 & E & _). erewrite bind_run by exact E. simpl. tauto.
  - destruct Hm as (_ & Hg & Hs). destruct (finish_run_run a' Hg Hs) as (a2 & E & _). erewrite bind_run by exact E. simpl. tauto.
Qed.

Section KeepAbort.
Context (r : option string).
Let K a : Prop := ar_aborted a = r.
Hint Extern 1 (preserves _ (modify _)) => (apply preserves_modify; done) : jsinv.
Lemma aborted_count b n : preserves K (count b n).
Proof. unfold count. preserve. Qed.
Hint Resolve aborted_count : jsinv.
Lemma aborted_handle f : preserves K (handle_frame beginsTurn JSON_parse f).
Proof. unfold handle_frame, when. preserve. Qed.
End KeepAbort.

Lemma handle_frame_phase f a p : (handle_frame beginsTurn JSON_parse f a).1 = Ok p → (∃ d, p = PHandling d) ∨ ¬ running p.
Proof.
  unfold handle_frame. case_bool_decide.
  - erewrite bind_run by done. unfold mbind, js_bind, lift. destruct (finished _ _ _); [|done]. intros [= <-]. right. tauto.
  - match goal with |- (?m a).1 = _ → _ => destruct (m a) as [r a'] eqn:E end. simpl. intros ->. left.
    do 6 apply bind_Ok in E as (? & ? & _ & E). injection E as <- _. by eexists.
Qed.

Lemma race_over a : app_ok a → is_Some (ar_aborted a) → (∀ p, ar_phase a ≠ PReceiving p) →
  ¬ running (ar_phase (run_app_event pg beginsTurn response_text JSON_parse EvRaceAborted a).2).
Proof.
  intros H [r Hr] Hp. unfold run_app_event. erewrite bind_run by done. destruct (ar_phase a) as [p|d|v|e] eqn:Hph.
  - by destruct (Hp p).
  - rewrite Hr. apply segment_over; [|done]. apply throw_post; [done|]. by rewrite Hph.
  - simpl. rewrite Hph. tauto.
  - simpl. rewrite Hph. tauto.
Qed.

Lemma resume_idle a : (∀ p, ar_phase a ≠ PReceiving p) → (run_app_event pg beginsTurn response_text JSON_parse EvResume a).2 = a.
Proof.
  intros Hp. unfold run_app_event. erewrite bind_run by done. destruct (ar_phase a) as [p|d|v|e] eqn:Hph; try done. by destruct (Hp p).
Qed.

Lemma aborted_over a : app_ok a → is_Some (ar_aborted a) →
  ¬ running (ar_phase (run_app pg beginsTurn response_text JSON_parse [EvResume; EvRaceAborted] a)).
Proof.
  intros H Hr. cbn [run_app]. destruct (ar_phase a) as [p|d|v|e] eqn:Hph.
  2-4: rewrite resume_idle by (intros q; congruence); apply race_over; [done|done|]; intros q; congruence.
  pose proof (ga_aborted a (ao_guest a H) Hr) as Hc. pose proof (ga_guest a (ao_guest a H)) as Hw.
  destruct (ao_promise a H p Hph) as [[Hwt|[res Hset]] _].
  { destruct (gw_waiting _ Hw) as [_ Ho]; [by rewrite Hwt|]. congruence. }
  set (a1 := (run_app_event pg beginsTurn response_text JSON_parse EvResume a).2).
  assert (a1 = (segment pg match res with Ok f => handle_frame beginsTurn JSON_parse f | Throw e => throw e end a).2) as Ea1.
  { unfold a1, run_app_event. erewrite bind_run by done. rewrite Hph, Hset. by destruct res. }
  assert (segment_post match res with Ok f => handle_frame beginsTurn JSON_parse f | Throw e => throw e end a) as Hpost.
  { destruct res as [f|e]; [apply (handle_frame_post f p); [done|done|by eapply settled_quiet]|].
    apply throw_post; [done|]. by rewrite Hph. }
  assert (app_ok a1) as H1 by (rewrite Ea1; by apply segment_ok).
  assert (is_Some (ar_aborted a1) ∧ ∀ q, ar_phase a1 ≠ PReceiving q) as [Hr1 Hq1]; [|by apply race_over].
  destruct res as [f|e].
  - pose proof (aborted_handle (ar_aborted a) f a eq_refl) as Hk. pose proof (handle_frame_phase f a) as Hphase.
    destruct (handle_frame beginsTurn JSON_parse f a) as [[ph|e] a'] eqn:Ef; simpl in Hk, Hphase.
    + destruct (Hphase ph eq_refl) as [[d ->]|Hn].
      * rewrite Ea1. unfold segment. rewrite Ef. simpl. by rewrite Hk.
      * assert (¬ running (ar_phase a1)) as Hov. { rewrite Ea1. apply segment_over; [done|]. rewrite Ef. by intros ? [= <-]. }
        destruct (ao_over a1 H1 Hov) as (_ & _ & ?). split; [done|]. intros q Hq. by rewrite Hq in Hov; apply Hov.
    + assert (¬ running (ar_phase a1)) as Hov. { rewrite Ea1. apply segment_over; [done|]. by rewrite Ef. }
      destruct (ao_over a1 H1 Hov) as (_ & _ & ?). split; [done|]. intros q Hq. by rewrite Hq in Hov; apply Hov.
  - assert (¬ running (ar_phase a1)) as Hov. { rewrite Ea1. by apply segment_over. }
    destruct (ao_over a1 H1 Hov) as (_ & _ & ?). split; [done|]. intros q Hq. by rewrite Hq in Hov; apply Hov.
Qed.

(** A segment that ends the run leaves nothing. *)
Lemma segment_ends m a : segment_post m a → ¬ running (ar_phase (segment pg m a).2) → services_over (ar_services (segment pg m a).2).
Proof.
  intros Hm. unfold segment_post, segment in *. destruct (m a) as [[[p|d|v|e]|e] a']; simpl in *; [tauto|tauto| |done|];
    destruct Hm as (_ & Hg & Hs); destruct (finish_run_run a' Hg Hs) as (a2 & E & _ & _ & _ & _ & Ho & _); by erewrite bind_run by exact E.
Qed.

Lemma event_ends ev a :
  (∀ r items, 0 <= response_text r items) → event_ok ev → app_ok a → running (ar_phase a) →
  let a' := (run_app_event pg beginsTurn response_text JSON_parse ev a).2 in ¬ running (ar_phase a') → services_over (ar_services a').
Proof.
  intros Htext Hev H Hr. cbn zeta. unfold run_app_event. erewrite bind_run by done. destruct ev as [gev| |work|outcome t|reason| |].
  - destruct (from_outside gev) eqn:Ho; [|done]. simpl. unfold mbind, js_bind, on_guest, zoom.
    destruct (run_guest_event gev (ar_guest a)) as [[[]|e] g']; [|done]. simpl.
    destruct (is_ready gev && _); [|done]. unfold armRun, modify. simpl. by destruct (mget "deadlineMs" _).
  - destruct (ar_phase a) as [p|d|v|e] eqn:Hph; [|by simpl; rewrite Hph|by destruct Hr..]. destruct (mget p _) as [[f|e]|] eqn:Hm; [| |by simpl; rewrite Hph].
    + apply segment_ends, (handle_frame_post f p); [done|done|]. by eapply settled_quiet.
    + apply segment_ends, throw_post; [done|]. by rewrite Hph.
  - done.
  - destruct (ar_phase a) as [p|d|v|e] eqn:Hph; [by simpl; rewrite Hph| |by destruct Hr..].
    apply segment_ends. destruct outcome as [response|e]; [by apply (answer_frame_post response t d)|].
    apply (throw_post e a); [done|]. by rewrite Hph.
  - destruct (abort_run reason a (ao_guest a H)) as (a' & -> & _ & _ & _ & _ & Hp & _). simpl. injection Hp as _ _ _ -> _. done.
  - destruct (ar_deadline a) eqn:Hd; [|done]. simpl. erewrite bind_run by done.
    match goal with |- context [abort ?reason ?b] => destruct (abort_run reason b) as (a' & -> & _ & _ & _ & _ & Hp & _) end.
    { apply (ao_guest (set_abort (ar_aborted a) false a)). by apply app_ok_deadline. }
    simpl. injection Hp as _ _ _ -> _. done.
  - destruct (ar_phase a) as [p|d|v|e] eqn:Hph; [by simpl; rewrite Hph| |by destruct Hr..]. destruct (ar_aborted a) as [r|]; [|by simpl; rewrite Hph].
    apply segment_ends, throw_post; [done|]. by rewrite Hph.
Qed.

(** A run that is over stays over; only effects that were in flight still work on its services. *)
Definition work_of (s : services P) (ev : app_event (P:=P) (R:=R)) : services P := match ev with EvWork work => work s | _ => s end.

Lemma over_step ev a :
  app_ok a → ¬ running (ar_phase a) →
  let a' := (run_app_event pg beginsTurn response_text JSON_parse ev a).2 in
  ar_phase a' = ar_phase a ∧ ar_services a' = work_of (ar_services a) ev.
Proof.
  intros H Hr. cbn zeta. unfold run_app_event. erewrite bind_run by done. destruct ev as [gev| |work|outcome t|reason| |]; simpl.
  - destruct (from_outside gev) eqn:Ho; [|done]. simpl. unfold mbind, js_bind, on_guest, zoom.
    destruct (run_guest_event gev (ar_guest a)) as [[[]|e] g']; [|done]. simpl.
    destruct (is_ready gev && _); [|done]. unfold armRun, modify. simpl. by destruct (mget "deadlineMs" _).
  - destruct (ar_phase a) eqn:Hph; first [by destruct Hr|simpl; by rewrite Hph].
  - done.
  - destruct (ar_phase a) eqn:Hph; first [by destruct Hr|simpl; by rewrite Hph].
  - destruct (abort_run reason a (ao_guest a H)) as (a' & -> & _ & _ & _ & _ & Hp & _). simpl. by injection Hp.
  - destruct (ao_over a H Hr) as (_ & -> & _). done.
  - destruct (ar_phase a) eqn:Hph; first [by destruct Hr|simpl; by rewrite Hph].
Qed.

Lemma over_stays evs a :
  (∀ r items, 0 <= response_text r items) → Forall event_ok evs → app_ok a → ¬ running (ar_phase a) →
  let a' := run_app pg beginsTurn response_text JSON_parse evs a in
  ar_phase a' = ar_phase a ∧ ar_services a' = foldl work_of (ar_services a) evs.
Proof.
  intros Ht. revert a. induction evs as [|ev evs IH]; intros a He H Hr; [done|]. apply Forall_cons in He as [He Hes]. cbn [run_app foldl].
  destruct (over_step ev a H Hr) as [Hp Hs]. pose proof (run_app_event_ok ev a Ht He H) as H'.
  set (a1 := (run_app_event _ _ _ _ ev a).2) in *. destruct (IH a1 Hes H') as [Hp' Hs']; [by rewrite Hp|]. by rewrite Hp', Hs', Hp, Hs.
Qed.

(** ** Properties *)

(** C13 A run stays within its limits: while it goes on, what the turn and the run have
    counted (effects, request bytes, response bytes) exceeds no limit, and at any time,
    also after it was ended for exceeding one, the payload bytes sent to the guest are
    within the run's limit of response bytes. *)
Theorem app_run_budgets overrides app initialize aborted s a evs :
  (∀ r items, 0 <= response_text r items) → services_ok s → Forall event_ok evs →
  runNuppLuaJITApp overrides app initialize aborted s = Ok a →
  let a' := run_app pg beginsTurn response_text JSON_parse evs a in
  (running (ar_phase a') → ∀ b,
     over (get_count b (ar_turn a')) (mget (budget_name b) (perTurn (ar_limits a'))) = false ∧
     over (get_count b (ar_run a')) (mget (budget_name b) (perRun (ar_limits a'))) = false) ∧
  ∀ m, mget "maxResponseBytes" (perRun (ar_limits a')) = Some m → sent (ar_guest a') <= m.
Proof.
  intros Ht Hs He Ha a'. apply start_ok in Ha as [H _]; [|done]. pose proof (run_app_ok evs a Ht He H) as H'.
  split; [apply (ao_within _ H')|]. apply (ga_sent _ (ao_guest _ H')).
Qed.


(** An abort ends a run: from any point of a run, once its signal fires it takes no
    further event of the guest or of the handler, only the run's own continuations, for
    the run to be over. *)
Theorem app_abort_ends overrides app initialize aborted s a evs reason :
  (∀ r items, 0 <= response_text r items) → services_ok s → Forall event_ok evs →
  runNuppLuaJITApp overrides app initialize aborted s = Ok a →
  ¬ running (ar_phase (run_app pg beginsTurn response_text JSON_parse (evs ++ [EvSignal reason; EvResume; EvRaceAborted]) a)).
Proof.
  intros Ht Hs He Ha. apply start_ok in Ha as [H _]; [|done]. pose proof (run_app_ok evs a Ht He H) as H'.
  assert (∀ evs1 evs2 a, run_app pg beginsTurn response_text JSON_parse (evs1 ++ evs2) a =
    run_app pg beginsTurn response_text JSON_parse evs2 (run_app pg beginsTurn response_text JSON_parse evs1 a)) as Happ.
  { clear. intros evs1. induction evs1 as [|ev evs1 IH]; intros evs2 a; [done|]. apply IH. }
  rewrite Happ. set (a1 := run_app _ _ _ _ evs a) in *. change [EvSignal reason; EvResume; EvRaceAborted] with
    ([EvSignal reason] ++ [EvResume; EvRaceAborted] : list (app_event (P:=P) (R:=R))). rewrite Happ.
  destruct (abort_run reason a1 (ao_guest a1 H')) as (a2 & E & _ & Hab & _).
  assert (run_app pg beginsTurn response_text JSON_parse [EvSignal reason] a1 = a2) as ->.
  { cbn [run_app]. unfold run_app_event. erewrite bind_run by done. by rewrite E. }
  apply aborted_over; [|done]. pose proof (abort_ok reason a1 H') as H2. by rewrite E in H2.
Qed.
End Ends.

(** ** Witnesses *)

Definition quiet_page : page :=
  Page (λ _ _, None) (λ _ _, None) false None (λ s, s) (λ _, Ok None).
Definition fresh_services : services memory_fs :=
  Services None (Http [] 0 DEFAULT_LIMITS None) (start_files (P:=memory_fs) [] None) (gpuRuntime None).

Lemma fresh_services_ok : services_ok fresh_services.
Proof. split; [apply gpuRuntime_safe|done]. Qed.

Definition demo_text (r : Z) (items : list returned) : Z := 10.
Lemma demo_text_nonneg : ∀ r items, 0 <= demo_text r items.
Proof. intros. unfold demo_text. lia. Qed.

Definition demo_run (evs : list (app_event (P:=memory_fs) (R:=Z))) (a : app_run memory_fs Z) : app_run memory_fs Z :=
  run_app quiet_page (λ _, Ok true) demo_text (λ t, Ok t) evs a.

(** One round trip under a limit of 64 response bytes for the run, then a frame that
    has one effect too many. *)
Definition demo_layers : list layer := [LObject [("perTurn", SObject [("maxEffects", VNum (NInt 1))]);
                                                 ("perRun", SObject [("maxResponseBytes", VNum (NInt 64))])]].
Definition demo_start : app_run memory_fs Z :=
  match runNuppLuaJITApp demo_layers (Some [x61]) (Some []) None fresh_services with
  | Ok a => a
  | Throw _ => AppRun defaults no_counts no_counts (createGuest (GuestOptions [] true false "") None) (PThrew "") None false fresh_services
  end.
Definition effect_frame (sequence : Z) (requests : list request_head) : guest_event app_data Z :=
  EvMessage 1 (DFrame (GuestFrame "effect" (VNum (NInt sequence)) (AppData true "" VNullish (VStr "effects") (RArray requests) 20 (Some []) []))).
Definition demo_events : list (app_event (P:=memory_fs) (R:=Z)) :=
  [EvGuest (effect_frame 0 [RequestHead VNull VNull]); EvResume; EvWork (λ s, s); EvAnswer (Ok 7) (Transfers [] []);
   EvGuest (effect_frame 1 [RequestHead VNull VNull; RequestHead VNull VNull])].

Lemma demo_starts : runNuppLuaJITApp demo_layers (Some [x61]) (Some []) None fresh_services = Ok demo_start.
Proof. vm_compute. reflexivity. Qed.

Lemma demo_events_ok : Forall event_ok demo_events.
Proof. repeat (constructor; [first [exact (λ s H, H)|exact I]|]). constructor. Qed.

Lemma app_run_budgets_witness :
  sent (ar_guest (demo_run demo_events demo_start)) <= 64 ∧ ct_responseBytes (ar_run (demo_run demo_events demo_start)) = 10.
Proof.
  split; [|vm_compute; reflexivity].
  refine (proj2 (app_run_budgets quiet_page (λ _, Ok true) demo_text (λ t, Ok t) demo_layers (Some [x61]) (Some []) None
    fresh_services demo_start demo_events demo_text_nonneg fresh_services_ok demo_events_ok demo_starts) 64 _).
  vm_compute. reflexivity.
Defined.

Local Notation demo_before := (run_app quiet_page (λ _, Ok true) demo_text (λ t, Ok t) demo_events demo_start) (only parsing).
Local Notation demo_last := (run_app_event quiet_page (λ _, Ok true) demo_text (λ t, Ok t) EvResume demo_before).2 (only parsing).

Lemma demo_last_runs : running (ar_phase demo_before).
Proof. vm_compute. exact I. Qed.
Lemma demo_last_ends : ar_phase demo_last = PThrew "browser application exceeded limits.perTurn.maxEffects (1)".
Proof. vm_compute. reflexivity. Qed.
Lemma demo_last_over : ¬ running (ar_phase demo_last).
Proof. rewrite demo_last_ends. exact (λ H, H). Qed.
Lemma demo_all_ok : Forall event_ok (demo_events ++ [EvResume]).
Proof. apply Forall_app. split; [exact demo_events_ok|]. constructor; [exact I|constructor]. Qed.


Lemma app_abort_ends_witness :
  ¬ running (ar_phase (demo_run (demo_events ++ [EvSignal "stop"; EvResume; EvRaceAborted]) demo_start)).
Proof.
  exact (app_abort_ends quiet_page (λ _, Ok true) demo_text (λ t, Ok t) demo_layers (Some [x61]) (Some []) None
    fresh_services demo_start demo_events "stop" demo_text_nonneg fresh_services_ok demo_events_ok demo_starts).
Defined.

(** ** An effect that outlives the run *)

(** Opening a file takes awaits of the platform.  When the run is aborted meanwhile, its
    [finally] closes the handles there are; the open then settles and adds one more,
    which nothing closes. *)
Definition late_open (s : services memory_fs) : services memory_fs :=
  Services (sv_host s) (sv_http s)
    (performFilesEffects [FPath (VStr "data") (Some [VStr "data"; VStr "app"; VStr "f"]) (OpOpen (VStr "w+"))] (sv_files s)).2
    (sv_gpu s).

Definition open_aborted : list (app_event (P:=memory_fs) (R:=Z)) :=
  [EvGuest (effect_frame 0 [RequestHead VNull VNull]); EvResume; EvSignal "stop"; EvRaceAborted].

Example late_open_keeps_handle :
  ar_phase (demo_run open_aborted demo_start) = PThrew "stop" ∧
  fl_handles (sv_files (ar_services (demo_run open_aborted demo_start))) = [] ∧
  length (fl_handles (sv_files (ar_services (demo_run (open_aborted ++ [EvWork late_open; EvGuest EvTimer; EvResume]) demo_start)))) = 1%nat.
Proof. by vm_compute. Qed.
