(* ===== verification/VmWorker.v ===== *)
(** The worker that runs a guest's virtual machine, [src/runtime/luajit/vm-worker.mjs].

    The emulator is the platform's: its memory is a map from addresses to bytes that
    the guest may change at any time, what is sent on its serial line is recorded, and
    its output arrives byte by byte.  JSON, URLs and [Number] are functions the worker
    is given.  Memory is addressed from the start of the mailbox. *)

From S2P Require Import Prelude Wire.

Definition MIB : Z := 1024 * 1024.
Definition LOG_LIMIT : nat := 16384.

(** ** Data *)

Inductive frame_kind := KCompiler | KEffect | KDone.
#[export] Instance frame_kind_eq_dec : EqDecision frame_kind.
Proof. solve_decision. Defined.

Record snapshot_record := SnapshotRecord {
  sr_buildKey : string;
  sr_memoryMiB : jsval;
  sr_guestAbi : jsval
}.

Record manifest := Manifest {
  mf_buildKey : string;
  mf_guestAbi : jsval;
  mf_memoryMiB : string → jsval;
  mf_snapshot : string → option snapshot_record
}.

Record boot_message := BootMessage {
  bm_clockOrigin : jsval;
  bm_profile : jsval;
  bm_app : list byte;
  bm_config : list byte;
  bm_snapshot : jsval;
  bm_capture : bool
}.

(** What [boot] leaves for the listeners: the guest's input and how it starts. *)
Record setup := Setup {
  st_memoryMiB : Z;
  st_restored : bool;
  st_capture : bool;
  st_config : list byte;
  st_app : list byte
}.

Section Worker.
Context {J : Type}.

Inductive vm_post :=
| PFailed (error : string) (log : list byte)
| PFallback (reason : string)
| PSelected
| PLog (log : list byte)
| PReady
| PSnapshot (memoryMiB : Z)
| PFrame (kind : frame_kind) (sequence : Z) (result : J) (payload : list byte).

Inductive vm_serial := SText (text : string) | SNumber (sequence : Z) | SRun.

Record vm := Vm {
  vm_booted : bool;
  vm_setup : option setup;
  vm_active : bool;
  vm_completed : bool;
  vm_sequence : Z;
  vm_timer : bool;
  vm_log : list byte;
  vm_line : list byte;
  vm_memory : Z → byte;
  vm_posts : list vm_post;
  vm_sent : list vm_serial
}.

Definition set_booted (setup : option setup) (s : vm) : vm :=
  Vm true setup (vm_active s) (vm_completed s) (vm_sequence s) (vm_timer s) (vm_log s) (vm_line s) (vm_memory s)
    (vm_posts s) (vm_sent s).
Definition set_frame (active completed : bool) (sequence : Z) (s : vm) : vm :=
  Vm (vm_booted s) (vm_setup s) active completed sequence (vm_timer s) (vm_log s) (vm_line s) (vm_memory s)
    (vm_posts s) (vm_sent s).
Definition set_text (log line : list byte) (s : vm) : vm :=
  Vm (vm_booted s) (vm_setup s) (vm_active s) (vm_completed s) (vm_sequence s) (vm_timer s) log line (vm_memory s)
    (vm_posts s) (vm_sent s).
Definition set_memory (memory : Z → byte) (s : vm) : vm :=
  Vm (vm_booted s) (vm_setup s) (vm_active s) (vm_completed s) (vm_sequence s) (vm_timer s) (vm_log s) (vm_line s) memory
    (vm_posts s) (vm_sent s).
Definition set_outputs (timer : bool) (posts : list vm_post) (sent : list vm_serial) (s : vm) : vm :=
  Vm (vm_booted s) (vm_setup s) (vm_active s) (vm_completed s) (vm_sequence s) timer (vm_log s) (vm_line s) (vm_memory s)
    posts sent.

Definition postMessage (p : vm_post) : js vm () := modify (λ s, set_outputs (vm_timer s) (vm_posts s ++ [p]) (vm_sent s) s).
Definition serial0_send (t : vm_serial) : js vm () := modify (λ s, set_outputs (vm_timer s) (vm_posts s) (vm_sent s ++ [t]) s).

(** ** The mailbox *)

Definition read_memory (memory : Z → byte) (at_ length : Z) : list byte := memory <$> seqZ at_ length.

(** The bytes of [bytes] from [at_] on, everything else as it was. *)
Definition store (at_ : Z) (bytes : list byte) (memory : Z → byte) : Z → byte := λ address,
  match bytes !! Z.to_nat (address - at_) with
  | Some b => if (at_ <=? address) then b else memory address
  | None => memory address
  end.
Definition write_memory (at_ : Z) (bytes : list byte) : js vm () := modify (λ s, set_memory (store at_ bytes (vm_memory s)) s).

Definition word (memory : Z → byte) (at_ : Z) : Z := le_combine (read_memory memory at_ 4).

(** [JSON.parse], and what it gives for a worker's own answers; [performance.now()]
    with the clock's offset, as the eight bytes of its double; the milliseconds of
    [Date.now()] and 32 random bytes. *)
Context (JSON_parse : string → res J).
Context (clock_bytes : list byte) (now : Z) (random : list byte).
Context (Number : list byte → jsnum) (url_answer : res J → list byte).

Definition clock : js vm () := write_memory 168 clock_bytes.
Definition send (t : vm_serial) : js vm () := clock ;; serial0_send t.

(** [decoder.decode], fatal, then [JSON.parse]. *)
Definition parse (bytes : list byte) : res J := text ← decode bytes; JSON_parse text.

Definition read (s : vm) : res J :=
  let length := word (vm_memory s) 128 in
  if MIB <? length then Throw "Guest result exceeds mailbox"
  else parse (read_memory (vm_memory s) 4096 length).

Definition write (offset index capacity : Z) (bytes : list byte) : js vm () :=
  guard_js (capacity <? zlen bytes) "Host input exceeds mailbox" ;;
  write_memory offset bytes ;;
  write_memory (128 + index * 4) (le_split 4 (zlen bytes)).

Definition fail (error : string) : js vm () :=
  modify (λ s, set_outputs false (vm_posts s) (vm_sent s) s) ;;
  s ← gets (λ s, s);
  postMessage (PFailed error (vm_log s)).

(** ** Booting *)

Definition guest_memory (profile : string) : Z := if bool_decide (profile = "compiler") then 128 else 64.

(** The checks of [boot] once the manifest is there. *)
Definition boot_plan (m : boot_message) (mf : manifest) : res (string * Z) :=
  let profile := if bool_decide (bm_profile m = VStr "compiler") then "compiler" else "runner" in
  if negb (bool_decide (mf_memoryMiB mf profile = VNum (NInt (guest_memory profile))))
  then Throw "Unsupported guest memory profile"
  else if (zlen (bm_app m) =? 0) || (7 * MIB <? zlen (bm_app m)) || (zlen (bm_config m) =? 0) || (65536 <? zlen (bm_config m))
  then Throw "Startup input exceeds mailbox"
  else Ok (profile, guest_memory profile).

(** Whether a snapshot is restored; [inflated] is how its download and inflation go. *)
Definition choose_snapshot (m : boot_message) (mf : manifest) (profile : string) (inflated : res ()) : js vm bool :=
  match mf_snapshot mf profile with
  | Some sel =>
      if bool_decide (bm_snapshot m = VBool false) || bm_capture m then mret false
      else
        try_catch
          (guard_js (negb (bool_decide (sr_buildKey sel = mf_buildKey mf)) ||
                     negb (bool_decide (sr_memoryMiB sel = VNum (NInt (guest_memory profile)))) ||
                     negb (bool_decide (sr_guestAbi sel = mf_guestAbi mf))) "Snapshot does not match the guest build/profile" ;;
           lift inflated ;; mret true)
          (λ reason, postMessage (PFallback reason) ;; mret false)
  | None => mret false
  end.

Definition is_finite (v : jsval) : bool := match v with VNum n => is_finite_num n | _ => false end.

(** [boot(message)]; [fetched], [inflated] and [loaded] are how the manifest, the
    snapshot and the emulator's files arrive. *)
Definition boot (m : boot_message) (fetched : res manifest) (inflated loaded : res ()) : js vm () :=
  s ← gets (λ s, s);
  guard_js (vm_booted s) "Worker has already booted" ;;
  modify (set_booted None) ;;
  guard_js (negb (is_finite (bm_clockOrigin m))) "Invalid host clock origin" ;;
  mf ← lift fetched;
  '(profile, memoryMiB) ← lift (boot_plan m mf);
  restored ← choose_snapshot m mf profile inflated;
  lift loaded ;;
  when restored (postMessage PSelected) ;;
  modify (set_booted (Some (Setup memoryMiB restored (bm_capture m) (bm_config m) (bm_app m)))).

(** The start of a guest: the header, the random bytes, the configuration and the
    application. *)
Definition start_header (config app : list byte) : list byte :=
  concat (le_split 4 <$> [0x5350554e; 1; zlen config; zlen app; now / 1000; now mod 1000 * 1000]).

Definition start (st : setup) : js vm () :=
  write_memory 0 (start_header (st_config st) (st_app st)) ;;
  write_memory 512 random ;;
  write_memory 4096 (st_config st) ;;
  write_memory MIB (st_app st) ;;
  serial0_send (SText "start") ;;
  when (st_restored st) (serial0_send SRun).

(** The listener of [emulator-loaded]. *)
Definition emulator_loaded : js vm () :=
  s ← gets (λ s, s);
  match vm_setup s with
  | Some st => when (st_restored st) (start st)
  | None => mret tt
  end.

(** ** Lines of the guest *)

(** The text of characters given by their codes. *)
Definition latin1 (l : list byte) : string :=
  bytes_text (l ≫= λ b, if Z_of_byte b <? 128 then [b] else [byte_of_Z (0xc0 + Z_of_byte b / 64); byte_of_Z (0x80 + Z_of_byte b mod 64)]).

Definition text_line (t : string) : list byte := text_bytes t.

Definition starts_with (prefix line : list byte) : bool := bool_decide (take (length prefix) line = prefix).
Fixpoint includes (part line : list byte) : bool :=
  starts_with part line || match line with [] => false | _ :: line' => includes part line' end.

Definition is_digit (b : byte) : bool := (48 <=? Z_of_byte b) && (Z_of_byte b <=? 57).
Definition all_digits (l : list byte) : bool := negb (bool_decide (l = [])) && forallb is_digit l.

(** [/^@@NUPP_(COMPILER|EFFECT|DONE)@@ (\d+)$/]. *)
Definition match_kind (line : list byte) (name : string) (kind : frame_kind) : option (frame_kind * list byte) :=
  let prefix := text_line ("@@NUPP_" +:+ name +:+ "@@ ") in
  let digits := drop (length prefix) line in
  if starts_with prefix line && all_digits digits then Some (kind, digits) else None.

Definition match_frame (line : list byte) : option (frame_kind * list byte) :=
  match match_kind line "COMPILER" KCompiler with
  | Some m => Some m
  | None => match match_kind line "EFFECT" KEffect with Some m => Some m | None => match_kind line "DONE" KDone end
  end.

(** [write(4 MiB, …)] and [write(5 MiB, …)] and the sequence on the serial line. *)
Definition answer (text payload : list byte) : js vm () :=
  write (4 * MIB) 2 MIB text ;;
  write (5 * MIB) 3 (2 * MIB) payload.

Definition next_sequence : js vm () :=
  s ← gets (λ s, s);
  modify (set_frame (vm_active s) (vm_completed s) (vm_sequence s + 1)) ;;
  send (SNumber (vm_sequence s)).

Definition same_number (n : jsnum) (z : Z) : bool := bool_decide (n = NInt z).

Definition on_frame (kind : frame_kind) (digits : list byte) : js vm () :=
  s ← gets (λ s, s);
  guard_js (negb (same_number (Number digits) (vm_sequence s)) || vm_active s) "Unexpected guest frame sequence" ;;
  let active := negb (bool_decide (kind = KDone)) in
  modify (set_frame active (negb active) (vm_sequence s)) ;;
  result ← lift (read s);
  let length := word (vm_memory s) 132 in
  guard_js (2 * MIB <? length) "Guest transfer exceeds mailbox" ;;
  postMessage (PFrame kind (vm_sequence s) result (read_memory (vm_memory s) (2 * MIB) length)).

Definition on_url (rest : list byte) : js vm () :=
  s ← gets (λ s, s);
  guard_js (negb (same_number (Number rest) (vm_sequence s)) || vm_active s) "Unexpected guest frame sequence" ;;
  answer (url_answer (read s)) [] ;;
  next_sequence.

Definition on_line (current : list byte) : js vm () :=
  s ← gets (λ s, s);
  guard_js (includes (text_line "Kernel panic - not syncing:") current || starts_with (text_line "Failed to execute /init") current ||
            starts_with (text_line "@@NUPP_INIT_ERROR@@") current) (latin1 current) ;;
  guard_js (starts_with (text_line "@@NUPP_GUEST_EXIT@@") current && negb (vm_completed s))
    ("LuaJIT exited before returning a result: " +:+ latin1 current) ;;
  if bool_decide (current = text_line "@@NUPP_SNAPSHOT_READY@@") then
    match vm_setup s with
    | Some st => if st_capture st then postMessage (PSnapshot (st_memoryMiB st)) else start st
    | None => mret tt
    end
  else if bool_decide (current = text_line "@@NUPP_MAILBOX@@ 0") then
    modify (λ s, set_outputs true (vm_posts s) (vm_sent s) s) ;;
    send (SText "mailbox") ;;
    postMessage PReady
  else if starts_with (text_line "@@NUPP_URL@@ ") current then on_url (drop 13 current)
  else match match_frame current with
  | Some (kind, digits) => on_frame kind digits
  | None => mret tt
  end.

(** [.slice(-16384)]. *)
Definition keep_last (l : list byte) : list byte := drop (length l - LOG_LIMIT) l.

Definition CR : byte := x0d.
Definition LF : byte := x0a.

(** The listener of [serial0-output-byte]. *)
Definition on_byte (b : byte) : js vm () :=
  modify (λ s, set_text (keep_last (vm_log s ++ [b])) (vm_line s) s) ;;
  if bool_decide (b = CR) then mret tt
  else if negb (bool_decide (b = LF)) then modify (λ s, set_text (vm_log s) (keep_last (vm_line s ++ [b])) s)
  else
    s ← gets (λ s, s);
    modify (set_text (vm_log s) []) ;;
    postMessage (PLog (vm_log s)) ;;
    try_catch (on_line (vm_line s)) fail.

(** ** Messages of the host *)

(** A response: its sequence, its JSON text and its payload. *)
Definition on_response (sequence : jsval) (text payload : list byte) : js vm () :=
  s ← gets (λ s, s);
  guard_js (negb (vm_active s) || negb (bool_decide (sequence = VNum (NInt (vm_sequence s))))) "Stale host response" ;;
  answer text payload ;;
  modify (λ s, set_frame false (vm_completed s) (vm_sequence s) s) ;;
  next_sequence.

Inductive vm_event :=
| EvBoot (m : boot_message) (fetched : res manifest) (inflated loaded : res ())
| EvLoaded
| EvByte (b : byte)
| EvResponse (sequence : jsval) (text payload : list byte)
| EvOther
| EvGuest (memory : Z → byte)
| EvRejected (error : string).

Definition run_vm_event (ev : vm_event) : js vm () :=
  match ev with
  | EvBoot m fetched inflated loaded => try_catch (boot m fetched inflated loaded) fail
  | EvLoaded => emulator_loaded
  | EvByte b => on_byte b
  | EvResponse sequence text payload => try_catch (on_response sequence text payload) fail
  | EvOther => fail "Stale host response"
  | EvGuest memory => modify (set_memory memory)
  | EvRejected error => fail error
  end.

Fixpoint run_vm (evs : list vm_event) (s : vm) : vm :=
  match evs with
  | [] => s
  | ev :: evs' => run_vm evs' (run_vm_event ev s).2
  end.

Definition start_vm : vm := Vm false None false false 0 false [] [] (λ _, x00) [] [].
End Worker.
Arguments vm : clear implicits.
Arguments vm_post : clear implicits.
