(* ===== verification/VmWorkerSpec.v ===== *)
(** Properties of [VmWorker]: frames and answers are numbered one by one, an answer
    reaches the mailbox whole, and the log is the end of what the guest printed. *)

From Stdlib Require Import Sorting.Sorted.
From S2P Require Import Prelude Wire VmWorker.

Section Spec.
Context {J : Type}.
Context (JSON_parse : string → res J) (clock_bytes : list byte) (now : Z) (random : list byte).
Context (Number : list byte → jsnum) (url_answer : res J → list byte).
Implicit Types s : vm J.

(** ** Sequence numbers *)

(** The frames that ask for an answer, and the numbers sent on the serial line. *)
Definition asking (p : vm_post J) : option Z :=
  match p with PFrame KDone _ _ _ => None | PFrame _ n _ _ => Some n | _ => None end.
Definition number (t : vm_serial) : option Z := match t with SNumber n => Some n | _ => None end.
Definition frames s : list Z := omap asking (vm_posts s).
Definition numbers s : list Z := omap number (vm_sent s).

Record protocol s : Prop := {
  pr_sequence : 0 <= vm_sequence s;
  pr_numbers : numbers s = seqZ 0 (vm_sequence s);
  pr_sorted : StronglySorted Z.lt (frames s);
  pr_frames : ∀ n, n ∈ frames s → 0 <= n ∧ (n < vm_sequence s ∨ n = vm_sequence s ∧ vm_active s = true)
}.

Definition protocol_part s := (vm_active s, vm_sequence s, frames s, numbers s).

Lemma protocol_same s s' : protocol_part s' = protocol_part s → protocol s → protocol s'.
Proof. intros [= E1 E2 E3 E4] []. split; by rewrite ?E1, ?E2, ?E3, ?E4. Qed.

Lemma protocol_modify f : (∀ s, protocol_part (f s) = protocol_part s) → preserves protocol (modify f).
Proof. intros H. apply preserves_modify. intros s. by apply protocol_same. Qed.
Hint Extern 1 (preserves _ (modify _)) => (apply protocol_modify; done) : jsinv.
Hint Extern 1 (preserves _ (write_memory _ _)) => (apply protocol_modify; done) : jsinv.

Lemma protocol_post p : asking p = None → preserves protocol (postMessage p).
Proof.
  intros Hp. apply protocol_modify. intros s. unfold protocol_part, frames. simpl. rewrite omap_app. simpl. rewrite Hp.
  by rewrite app_nil_r.
Qed.
Lemma protocol_send t : number t = None → preserves protocol (serial0_send t).
Proof.
  intros Hp. apply protocol_modify. intros s. unfold protocol_part, numbers. simpl. rewrite omap_app. simpl. rewrite Hp.
  by rewrite app_nil_r.
Qed.
Hint Extern 1 (preserves _ (postMessage _)) => (apply protocol_post; done) : jsinv.
Hint Extern 1 (preserves _ (serial0_send _)) => (apply protocol_send; done) : jsinv.

Lemma protocol_fail e : preserves protocol (fail e).
Proof. unfold fail. preserve. Qed.
Lemma protocol_start st : preserves protocol (start now random st).
Proof. unfold start. preserve. Qed.
Hint Resolve protocol_fail protocol_start : jsinv.
Lemma protocol_boot m fetched inflated loaded : preserves protocol (boot m fetched inflated loaded).
Proof. unfold boot, choose_snapshot. preserve. Qed.
Lemma protocol_answer text payload : preserves protocol (answer text payload).
Proof. unfold answer, write. preserve. Qed.
Hint Resolve protocol_boot protocol_answer : jsinv.

Lemma seqZ_next n : 0 <= n → seqZ 0 (n + 1) = seqZ 0 n ++ [n].
Proof. intros Hn. rewrite (seqZ_app 0 n 1) by lia. done. Qed.

(** A number closes whatever frame was open. *)
Lemma protocol_next active s : protocol s → protocol (next_sequence clock_bytes (set_frame active (vm_completed s) (vm_sequence s) s)).2.
Proof.
  intros [H1 H2 H3 H4]. unfold next_sequence. do 2 erewrite bind_run by done. unfold send, clock. erewrite bind_run by done.
  split; simpl.
  - lia.
  - unfold numbers in *. simpl. rewrite omap_app, H2. simpl. by rewrite seqZ_next.
  - done.
  - intros n Hn. destruct (H4 n Hn) as [? [?|[? _]]]; split; try lia; left; lia.
Qed.

Lemma protocol_on_url rest : preserves protocol (on_url JSON_parse clock_bytes Number url_answer rest).
Proof.
  intros s Hs. unfold on_url. erewrite bind_run by done. unfold guard_js at 1.
  destruct (negb _ || vm_active s) eqn:Hb; [done|]. apply orb_false_iff in Hb as [_ Ha]. erewrite bind_run by done.
  set (text := url_answer (read JSON_parse s)).
  unfold mbind, js_bind. pose proof (protocol_answer text [] s Hs) as H1.
  destruct (answer text [] s) as [[[]|e] s']; simpl in *; [|done]. apply (protocol_next (vm_active s')) in H1. by destruct s'.
Qed.

Lemma sorted_snoc (l : list Z) n : StronglySorted Z.lt l → (∀ m, m ∈ l → m < n) → StronglySorted Z.lt (l ++ [n]).
Proof.
  induction 1 as [|x l Hl IH Hf]; intros Hn; simpl; [repeat constructor|]. constructor.
  - apply IH. intros m Hm. apply Hn. by right.
  - apply Forall_app. split; [done|]. constructor; [|constructor]. apply Hn. left.
Qed.

Lemma protocol_on_frame kind digits : preserves protocol (on_frame JSON_parse Number kind digits).
Proof.
  intros s [H1 H2 H3 H4]. unfold on_frame. erewrite bind_run by done. unfold guard_js at 1.
  destruct (negb _ || vm_active s) eqn:Hb; [done|]. apply orb_false_iff in Hb as [_ Ha]. do 2 erewrite bind_run by done.
  set (active := negb (bool_decide (kind = KDone))). set (s1 := set_frame active (negb active) (vm_sequence s) s).
  assert (∀ n, n ∈ frames s → 0 <= n < vm_sequence s) as Hlt.
  { intros n Hn. destruct (H4 n Hn) as [? [?|[_ ?]]]; [done|congruence]. }
  assert (protocol s1) as Hs1. { split; try done. intros n Hn. destruct (Hlt n Hn). split; [done|by left]. }
  unfold mbind, js_bind, lift, guard_js. destruct (read JSON_parse s) as [result|e]; [|done].
  destruct (2 * MIB <? _); [done|]. simpl. unfold postMessage, modify. simpl.
  destruct (asking (PFrame kind (vm_sequence s) result (read_memory (vm_memory s) (2 * MIB) (word (vm_memory s) 132)))) as [n|] eqn:Hk.
  - assert (n = vm_sequence s ∧ active = true) as [-> Hact] by (subst active; by destruct kind; try done; injection Hk as <-).
    split; unfold frames, numbers in *; simpl in *; [done|done| |]; rewrite ?omap_app; simpl; rewrite Hk.
    + apply sorted_snoc; [done|]. intros m Hm. by apply Hlt.
    + intros n [Hn|Hn]%elem_of_app; [destruct (Hlt n Hn); split; [done|by left]|].
      apply list_elem_of_singleton in Hn as ->. split; [done|by right].
  - by apply (protocol_post _ Hk s1).
Qed.

Hint Resolve protocol_on_url protocol_on_frame : jsinv.

Lemma protocol_on_line line : preserves protocol (on_line JSON_parse clock_bytes now random Number url_answer line).
Proof. unfold on_line, send, clock. preserve. Qed.
Hint Resolve protocol_on_line : jsinv.

Lemma protocol_on_byte b : preserves protocol (on_byte JSON_parse clock_bytes now random Number url_answer b).
Proof. unfold on_byte. preserve. Qed.

Lemma protocol_on_response sequence text payload : preserves protocol (on_response clock_bytes sequence text payload).
Proof.
  intros s Hs. unfold on_response. erewrite bind_run by done. unfold guard_js at 1.
  destruct (negb (vm_active s) || _); [done|]. erewrite bind_run by done.
  unfold mbind, js_bind. pose proof (protocol_answer text payload s Hs) as H1.
  destruct (answer text payload s) as [[[]|e] s']; simpl in *; [|done]. by apply (protocol_next false).
Qed.

Hint Resolve protocol_on_byte protocol_on_response : jsinv.

Lemma protocol_event ev : preserves protocol (run_vm_event JSON_parse clock_bytes now random Number url_answer ev).
Proof. destruct ev; simpl; unfold emulator_loaded; preserve. Qed.

(** C11 The host's answers and the guest's frames keep step, whatever the guest prints,
    writes and asks and whatever the host posts: the numbers sent to the guest are 0, 1,
    2, ... each once and in order; the frames that ask the host carry strictly increasing
    numbers; and none is left behind: each asked for was answered, by the number that
    passed it, or is the open one. *)
Theorem vm_sequence_protocol evs :
  let s := run_vm JSON_parse clock_bytes now random Number url_answer evs start_vm in
  numbers s = seqZ 0 (vm_sequence s) ∧ StronglySorted Z.lt (frames s) ∧
  ∀ n, n ∈ frames s → n ∈ numbers s ∨ n = vm_sequence s ∧ vm_active s = true.
Proof.
  intros s. assert (protocol s) as [H1 H2 H3 H4].
  { assert (∀ s0, protocol s0 → protocol (run_vm JSON_parse clock_bytes now random Number url_answer evs s0)) as Hrun.
    { clear s. induction evs as [|ev evs IH]; intros s0 Hs0; [done|]. by apply IH, protocol_event. }
    apply Hrun. split; try done; [constructor|]. intros n Hn. by apply elem_of_nil in Hn. }
  split; [done|]. split; [done|]. intros n Hn. destruct (H4 n Hn) as [H0 [Hlt|?]]; [left|by right].
  rewrite H2. apply elem_of_seqZ. lia.
Qed.

(** ** The log *)

Lemma keep_last_app l b : keep_last (keep_last l ++ [b]) = keep_last (l ++ [b]).
Proof.
  unfold keep_last. rewrite !length_app, length_drop. simpl. generalize LOG_LIMIT as n. intros n.
  rewrite <- drop_app_le by lia. rewrite drop_drop. f_equal. lia.
Qed.

Lemma keep_last_bound l : (length (keep_last l) <= LOG_LIMIT)%nat.
Proof. unfold keep_last. rewrite length_drop. lia. Qed.

(** The bytes a run's events print. *)
Definition printed (ev : vm_event) : list byte := match ev with EvByte b => [b] | _ => [] end.

Section Log.
Context (log : list byte).
Let L s : Prop := vm_log s = log.
Hint Extern 1 (preserves _ (modify _)) => (apply preserves_modify; done) : jsinv.

Lemma log_fail e : preserves L (fail e).
Proof. unfold fail, postMessage. preserve. Qed.
Lemma log_start st : preserves L (start now random st).
Proof. unfold start, write_memory, serial0_send. preserve. Qed.
Lemma log_answer text payload : preserves L (answer text payload).
Proof. unfold answer, write, write_memory. preserve. Qed.
Lemma log_next : preserves L (next_sequence clock_bytes).
Proof. unfold next_sequence, send, clock, write_memory, serial0_send. preserve. Qed.
Hint Resolve log_fail log_start log_answer log_next : jsinv.
Lemma log_line line : preserves L (on_line JSON_parse clock_bytes now random Number url_answer line).
Proof. unfold on_line, on_url, on_frame, postMessage, send, clock, write_memory, serial0_send. preserve. Qed.
Hint Resolve log_line : jsinv.
Lemma log_other ev : printed ev = [] → preserves L (run_vm_event JSON_parse clock_bytes now random Number url_answer ev).
Proof.
  destruct ev; simpl; intros Hp; try done; unfold boot, choose_snapshot, emulator_loaded, on_response, postMessage; preserve.
Qed.
End Log.

Lemma log_byte b s : vm_log (on_byte JSON_parse clock_bytes now random Number url_answer b s).2 = keep_last (vm_log s ++ [b]).
Proof.
  unfold on_byte. erewrite bind_run by done. case_bool_decide; [done|]. case_bool_decide; [|done]. cbn [negb].
  do 3 erewrite bind_run by done.
  by apply (preserves_try_catch _ _ _ (log_line (keep_last (vm_log s ++ [b])) (vm_line s)) (log_fail _)).
Qed.

(** What the worker keeps of the guest's output, cut back at every byte, is the end
    of everything the guest has printed: never more than 16384 bytes, and all of it while
    there is less. *)
Theorem vm_log_is_tail evs :
  let s := run_vm JSON_parse clock_bytes now random Number url_answer evs start_vm in
  vm_log s = keep_last (evs ≫= printed) ∧ (length (vm_log s) <= LOG_LIMIT)%nat.
Proof.
  intros s. assert (vm_log s = keep_last (evs ≫= printed)) as ->; [|split; [done|apply keep_last_bound]].
  assert (∀ before s0, vm_log s0 = keep_last before →
    vm_log (run_vm JSON_parse clock_bytes now random Number url_answer evs s0) = keep_last (before ++ (evs ≫= printed))) as Hrun.
  { clear s. induction evs as [|ev evs IH]; intros before s0 Hs0; [by rewrite app_nil_r|]. cbn [run_vm].
    rewrite bind_cons, app_assoc. apply IH. destruct (printed ev) as [|b l] eqn:Hp.
    - rewrite app_nil_r, <- Hs0. by apply (log_other (vm_log s0)).
    - destruct ev; try done. injection Hp as -> <-. cbn [run_vm_event]; rewrite log_byte, Hs0. apply keep_last_app. }
  by apply (Hrun []).
Qed.

(** ** Answers *)

Lemma store_outside at_ bytes memory a : a < at_ ∨ at_ + zlen bytes <= a → store at_ bytes memory a = memory a.
Proof.
  intros H. unfold store. destruct (bytes !! Z.to_nat (a - at_)) as [b|] eqn:E; [|done].
  destruct (Z.leb_spec at_ a); [|done]. apply lookup_lt_Some in E. unfold zlen in H. lia.
Qed.

Lemma read_store at_ bytes memory : read_memory (store at_ bytes memory) at_ (zlen bytes) = bytes.
Proof.
  apply list_eq. intros i. unfold read_memory. rewrite list_lookup_fmap.
  destruct (decide (i < length bytes)%nat) as [Hi|Hi].
  - rewrite lookup_seqZ_lt by (unfold zlen; lia). simpl. unfold store. replace (Z.to_nat (at_ + Z.of_nat i - at_)) with i by lia.
    destruct (lookup_lt_is_Some_2 bytes i Hi) as [b ->]. destruct (Z.leb_spec at_ (at_ + Z.of_nat i)); [done|lia].
  - rewrite lookup_seqZ_ge by (unfold zlen; lia). simpl. symmetry. apply lookup_ge_None. lia.
Qed.

(** A range is read as before when nothing in it was written. *)
Lemma read_outside at_ bytes memory from n :
  from + n <= at_ ∨ at_ + zlen bytes <= from → read_memory (store at_ bytes memory) from n = read_memory memory from n.
Proof.
  intros H. unfold read_memory. apply list_fmap_ext. intros i a Ha. apply lookup_seqZ in Ha as [-> Hi].
  apply store_outside. lia.
Qed.

Lemma word_store at_ n memory : 0 <= n < 2 ^ 32 → word (store at_ (le_split 4 n) memory) at_ = n.
Proof.
  intros Hn. unfold word. pose proof (read_store at_ (le_split 4 n) memory) as E.
  replace (zlen (le_split 4 n)) with 4 in E by (unfold zlen; by rewrite length_le_split). rewrite E, le_combine_split.
  apply Z.mod_small. simpl. lia.
Qed.

Lemma write_run offset index capacity bytes s :
  zlen bytes <= capacity →
  write offset index capacity bytes s =
    (Ok tt, set_memory (store (128 + index * 4) (le_split 4 (zlen bytes)) (store offset bytes (vm_memory s))) s).
Proof. intros H. unfold write, guard_js. destruct (Z.ltb_spec capacity (zlen bytes)); [lia|]. by do 2 erewrite bind_run by done. Qed.

(** An answer to the open frame reaches the guest whole: its text and its payload
    stand in the mailbox beside their lengths, neither overwrites the other nor anything
    but the answer's own places and the clock, the frame is closed, and the guest is sent
    its number. *)
Theorem vm_response_delivered s text payload :
  zlen clock_bytes = 8 → vm_active s = true → zlen text <= MIB → zlen payload <= 2 * MIB →
  ∃ s', on_response clock_bytes (VNum (NInt (vm_sequence s))) text payload s = (Ok tt, s') ∧
    word (vm_memory s') 136 = zlen text ∧ read_memory (vm_memory s') (4 * MIB) (zlen text) = text ∧
    word (vm_memory s') 140 = zlen payload ∧ read_memory (vm_memory s') (5 * MIB) (zlen payload) = payload ∧
    (∀ a, (a < 136 ∨ 144 <= a) → (a < 168 ∨ 176 <= a) → (a < 4 * MIB ∨ 7 * MIB <= a) → vm_memory s' a = vm_memory s a) ∧
    vm_active s' = false ∧ vm_sequence s' = vm_sequence s + 1 ∧ vm_sent s' = vm_sent s ++ [SNumber (vm_sequence s)].
Proof.
  intros Hclock Ha Ht Hp. unfold on_response. erewrite bind_run by done. rewrite Ha, bool_decide_true by done.
  erewrite bind_run by done. erewrite bind_run; [|unfold answer; erewrite bind_run by (by apply write_run); by apply write_run].
  erewrite bind_run by done. unfold next_sequence. do 2 erewrite bind_run by done. unfold send, clock. erewrite bind_run by done.
  eexists. split; [done|]. cbn [set_memory set_frame set_outputs vm_memory vm_active vm_sequence vm_sent]. unfold MIB in *.
  assert (∀ n, zlen (le_split 4 n) = 4) as H4.
  { intros n. unfold zlen. by rewrite length_le_split. }
  assert (0 <= zlen text) by apply zlen_nonneg. assert (0 <= zlen payload) by apply zlen_nonneg.
  split_and!; try done.
  - unfold word. rewrite !read_outside by (rewrite ?H4; lia). apply word_store. lia.
  - rewrite !read_outside by (rewrite ?H4; lia). apply read_store.
  - unfold word. rewrite read_outside by lia. apply word_store. lia.
  - rewrite !read_outside by (rewrite ?H4; lia). apply read_store.
  - intros a H1 H2 H3. rewrite !store_outside by (rewrite ?H4; lia). done.
Qed.
End Spec.

(** A worker whose sixth frame is open. *)
Definition demo_vm : vm () := Vm true None true false 5 true [] [] (λ _, x00) [] [].

Lemma vm_response_delivered_witness :
  ∃ s', on_response (replicate 8 x01) (VNum (NInt 5)) [x7b; x7d] [x61; x62; x63] demo_vm = (Ok tt, s') ∧
    word (vm_memory s') 140 = 3 ∧ read_memory (vm_memory s') (5 * MIB) 3 = [x61; x62; x63].
Proof.
  destruct (vm_response_delivered (replicate 8 x01) demo_vm [x7b; x7d] [x61; x62; x63]) as (s' & E & _ & _ & H1 & H2 & _);
    [reflexivity|reflexivity|vm_compute; discriminate|vm_compute; discriminate|].
  exists s'. split; [exact E|]. split; [exact H1|exact H2].
Defined.
