(* ===== verification/GuestVm.v ===== *)
(** The owner of a guest and the workers it starts, [src/runtime/luajit/host.mjs] and
    [src/runtime/luajit/vm-worker.mjs] together: what a worker posts is what its owner's listener reads, and the owner's responses
    are what the worker receives, each in the order it was posted.

    A worker that was terminated runs no more and its messages are not delivered.  The owner's user may respond at any time, also when a worker
    was replaced after its frame was read. *)

From S2P Require Import Prelude Wire Guest GuestSpec VmWorker VmWorkerSpec.

Section System.
Context {J R : Type}.
Context (JSON_parse : string → res J) (clock_bytes : list byte) (now : Z) (random : list byte).
Context (Number : list byte → jsnum) (url_answer : res J → list byte).
(** [JSON.stringify] of a response, encoded. *)
Context (response_bytes : R → list byte).

(** The data of a message is what the worker posted. *)
Record vm_system := VmSystem {
  vs_owner : guest (vm_post J) R;
  vs_vm : Z → vm J;
  vs_received : Z → nat;
  vs_heard : Z → nat
}.

Definition kind_name (k : frame_kind) : string := match k with KCompiler => "compiler" | KEffect => "effect" | KDone => "done" end.

(** A message of the worker as the owner's listener reads it. *)
Definition posted (m : vm_post J) : guest_data (vm_post J) :=
  match m with
  | PFailed error log => DFailed error (latin1 log)
  | PFallback reason => DSnapshotFallback reason
  | PSelected => DSnapshotSelected
  | PLog _ => DLog
  | PReady => DReady
  | PSnapshot _ => DFrame (GuestFrame "snapshot" VUndef m)
  | PFrame kind sequence _ _ => DFrame (GuestFrame (kind_name kind) (VNum (NInt sequence)) m)
  end.

(** The responses posted to a worker. *)
Definition responses_to (i : Z) (g : guest (vm_post J) R) : list (Z * R * list byte) :=
  omap (λ x, match x with XResponse i' sequence response payload => if decide (i' = i) then Some (sequence, response, payload) else None | _ => None end)
    (gs_crossed g).

(** The frame that waits with the owner for its answer: the last thing that crossed, when it asks for one. *)
Definition awaiting (g : guest (vm_post J) R) : list Z :=
  match last (gs_crossed g) with Some (XFrame f) => option_list (asking (gf_result f)) | _ => [] end.

(** A worker that was started and not terminated. *)
Definition running_vm (i : Z) (s : vm_system) : bool :=
  (1 <=? i) && (i <=? gs_launched (vs_owner s)) && negb (bool_decide (i ∈ gs_terminated (vs_owner s))).

Inductive vm_sys_event :=
| VsOwner (ev : guest_event (vm_post J) R)
| VsHear (i : Z)
| VsReceive (i : Z)
| VsRun (i : Z) (ev : vm_event).

(** What the owner does by itself: everything but reading messages. *)
Definition owner_own (ev : guest_event (vm_post J) R) : bool := match ev with EvMessage _ _ => false | _ => true end.
(** What a worker does by itself: everything but reading a response; the owner posts nothing else. *)
Definition vm_own (ev : vm_event) : bool := match ev with EvResponse _ _ _ | EvOther => false | _ => true end.

Definition zset {A} (f : Z → A) (i : Z) (v : A) : Z → A := λ j, if decide (j = i) then v else f j.

Definition run_vm_at (i : Z) (ev : vm_event) (received : nat) (s : vm_system) : vm_system :=
  VmSystem (vs_owner s) (zset (vs_vm s) i (run_vm_event JSON_parse clock_bytes now random Number url_answer ev (vs_vm s i)).2)
    (zset (vs_received s) i received) (vs_heard s).

Definition vm_sys_step (s : vm_system) (ev : vm_sys_event) : vm_system :=
  match ev with
  | VsOwner ev => if owner_own ev then VmSystem (run_guest_event ev (vs_owner s)).2 (vs_vm s) (vs_received s) (vs_heard s) else s
  | VsHear i =>
      if running_vm i s then
        match vm_posts (vs_vm s i) !! vs_heard s i with
        | Some m => VmSystem (onmessage i (posted m) (vs_owner s)).2 (vs_vm s) (vs_received s) (zset (vs_heard s) i (S (vs_heard s i)))
        | None => s
        end
      else s
  | VsReceive i =>
      if running_vm i s then
        match responses_to i (vs_owner s) !! vs_received s i with
        | Some (sequence, response, payload) => run_vm_at i (EvResponse (VNum (NInt sequence)) (response_bytes response) payload) (S (vs_received s i)) s
        | None => s
        end
      else s
  | VsRun i ev => if running_vm i s && vm_own ev then run_vm_at i ev (vs_received s i) s else s
  end.

Definition run_vm_system (s : vm_system) (evs : list vm_sys_event) : vm_system := foldl vm_sys_step s evs.
Definition start_vm_system (options : guest_options) : vm_system :=
  VmSystem (createGuest options None) (λ _, start_vm) (λ _, 0%nat) (λ _, 0%nat).
End System.
Arguments vm_system : clear implicits.
Arguments vm_sys_event : clear implicits.
