(* ===== verification/GuestVmSpec.v ===== *)
(** The owner of a guest and its worker keep in step ([GuestVm]): a frame that asks is on its way, with the owner, or its response is on its
    way, and a response finds the worker waiting for it. *)

From S2P Require Import Prelude Wire Guest GuestSpec VmWorker VmWorkerSpec GuestVm.

(** A worker that neither failed nor handed over a snapshot: either ends what its owner wants of it. *)
Definition ordinary {J} (posts : list (vm_post J)) : bool := forallb (λ m, match m with PFailed _ _ | PSnapshot _ => false | _ => true end) posts.

(** The frames among the messages, each with the number it asks for an answer to. *)
Definition frame_of {J} (m : vm_post J) : option (option Z) := match m with PFrame _ _ _ _ => Some (asking m) | _ => None end.

Section Worker.
Context {J : Type}.
Context (JSON_parse : string → res J) (clock_bytes : list byte) (now : Z) (random : list byte).
Context (Number : list byte → jsnum) (url_answer : res J → list byte).
Implicit Types v : vm J.

(** ** The worker *)

Definition unheard (m : nat) v : list (option Z) := omap frame_of (drop m (vm_posts v)).
Definition open_frame v : list Z := if vm_active v then [vm_sequence v] else [].

(** [rest], which is with the owner, and then the frames not heard yet are some that ask for nothing, and the frame the worker waits for. *)
Definition in_step (m : nat) (rest : list Z) v : Prop :=
  ordinary (vm_posts v) = true → ∃ k, (Some <$> rest) ++ unheard m v = repeat None k ++ (Some <$> open_frame v).
Definition grown (m : nat) v : Prop := (m <= length (vm_posts v))%nat.

(** A step that returns keeps in step; one that throws leaves its failure to be posted. *)
Definition stepping {A} (m : nat) (rest : list Z) (op : js (vm J) A) : Prop :=
  ∀ v, grown m v → in_step m rest v → grown m (op v).2 ∧ (is_ok (op v).1 = true → in_step m rest (op v).2).

Lemma stepping_run {A} m rest (op : js (vm J) A) :
  (∀ v r v', grown m v → in_step m rest v → op v = (r, v') → grown m v' ∧ (is_ok r = true → in_step m rest v')) → stepping m rest op.
Proof. intros H v Hg Hi. destruct (op v) as [r v'] eqn:E. by eapply H. Qed.

Lemma stepping_ret {A} m rest (a : A) : stepping m rest (mret a).
Proof. by intros v Hg Hi. Qed.
Lemma stepping_throw {A} m rest e : stepping m rest (@throw (vm J) A e).
Proof. by intros v Hg Hi. Qed.
Lemma stepping_gets {A} m rest (f : vm J → A) : stepping m rest (gets f).
Proof. by intros v Hg Hi. Qed.
Lemma stepping_lift {A} m rest (r : res A) : stepping m rest (lift r).
Proof. by intros v Hg Hi. Qed.
Lemma stepping_guard m rest b e : stepping m rest (guard_js b e).
Proof. destruct b; by intros v Hg Hi. Qed.
Lemma stepping_bind {A B} m rest (op : js (vm J) A) (k : A → js (vm J) B) :
  stepping m rest op → (∀ a, stepping m rest (k a)) → stepping m rest (op ≫= k).
Proof.
  intros Ho Hk v Hg Hi. destruct (Ho v Hg Hi) as [Hg' Hi']. unfold mbind, js_bind. destruct (op v) as [[a|e] v']; [|done]. by apply Hk; [|apply Hi'].
Qed.
Lemma stepping_when m rest b op : stepping m rest op → stepping m rest (when b op).
Proof. destruct b; [done|]. intros _. apply stepping_ret. Qed.

(** Changes that are no frame and no number. *)
Lemma stepping_modify m rest f :
  (∀ v, vm_active (f v) = vm_active v ∧ vm_sequence (f v) = vm_sequence v ∧ vm_posts (f v) = vm_posts v) → stepping m rest (modify f).
Proof.
  intros Hf v Hg Hi. destruct (Hf v) as (E1 & E2 & E3). unfold grown, in_step, unheard, open_frame in *. cbn. rewrite E1, E2, E3. done.
Qed.

Lemma stepping_post m rest q : frame_of q = None → stepping m rest (postMessage q).
Proof.
  intros Hq v Hg Hi. unfold grown, in_step, unheard, open_frame in *. cbn. rewrite length_app. split; [lia|]. intros _.
  rewrite drop_app_le by done. unfold ordinary in *. rewrite forallb_app, omap_app. cbn. rewrite Hq, app_nil_r. intros [H _]%andb_prop. auto.
Qed.

Lemma stepping_try_fail m rest (op : js (vm J) ()) : stepping m rest op → ∀ v, grown m v → in_step m rest v →
  grown m (try_catch op fail v).2 ∧ in_step m rest (try_catch op fail v).2.
Proof.
  intros Ho v Hg Hi. destruct (Ho v Hg Hi) as [Hg' Hi']. unfold try_catch. destruct (op v) as [[a|e] v']; [split; [done|by apply Hi']|].
  cbn in Hg'. unfold fail. erewrite bind_run by done. erewrite bind_run by done. unfold grown, in_step in *. cbn. rewrite length_app.
  split; [lia|]. unfold ordinary. rewrite forallb_app. cbn. by rewrite andb_false_r.
Qed.
End Worker.

Create HintDb vmstep.
Ltac step_vm := repeat first
  [ progress intros
  | solve [auto with vmstep nocore]
  | apply stepping_ret | apply stepping_throw | apply stepping_gets | apply stepping_lift | apply stepping_guard
  | apply stepping_post; done
  | apply stepping_bind | apply stepping_when
  | apply stepping_modify; done
  | match goal with |- stepping _ _ (match ?x with _ => _ end) => destruct x end ].

Section Lines.
Context {J : Type}.
Context (JSON_parse : string → res J) (clock_bytes : list byte) (now : Z) (random : list byte).
Context (Number : list byte → jsnum) (url_answer : res J → list byte).
Implicit Types v : vm J.

Lemma stepping_answer m rest text payload : stepping m rest (answer (J:=J) text payload).
Proof. unfold answer, write, write_memory. step_vm. Qed.

Lemma stepping_start m rest st : stepping m rest (start (J:=J) now random st).
Proof. unfold start, write_memory, serial0_send. step_vm. Qed.

Lemma stepping_boot m rest msg fetched inflated loaded : stepping m rest (boot (J:=J) msg fetched inflated loaded).
Proof.
  unfold boot, choose_snapshot. step_vm. intros v Hg Hi. unfold try_catch.
  unfold mbind, js_bind, lift, guard_js. destruct (_ || _); [|destruct inflated as [[]|e]]; simpl.
  2: by split.
  all: by apply (stepping_post m rest (PFallback _) eq_refl v Hg Hi).
Qed.

(** A number is sent while no frame is open. *)
Lemma stepping_next m rest v : grown m v → in_step m rest v → vm_active v = false →
  grown m (next_sequence clock_bytes v).2 ∧ in_step m rest (next_sequence clock_bytes v).2.
Proof.
  intros Hg Hi Ha. unfold next_sequence, send, clock, write_memory, serial0_send. do 3 erewrite bind_run by done.
  unfold grown, in_step, unheard, open_frame in *. cbn. rewrite Ha in *. done.
Qed.

Lemma answer_parts text payload v :
  vm_active (answer text payload v).2 = vm_active v ∧ vm_sequence (answer text payload v).2 = vm_sequence v ∧ vm_posts (answer text payload v).2 = vm_posts v.
Proof.
  unfold answer, write, write_memory, guard_js, mbind, js_bind. destruct (MIB <? zlen text); [done|]. cbn. by destruct (2 * MIB <? zlen payload).
Qed.

Lemma stepping_url m rest line : stepping m rest (on_url (J:=J) JSON_parse clock_bytes Number url_answer line).
Proof.
  apply stepping_run. intros v r v' Hg Hi. unfold on_url. erewrite bind_run by done. unfold guard_js at 1.
  destruct (negb _ || vm_active v) eqn:Hb; [by intros [= <- <-]|].
  apply orb_false_iff in Hb as [_ Ha]. erewrite bind_run by done. set (text := url_answer _).
  destruct (stepping_answer m rest text [] v Hg Hi) as [Hg1 Hi1]. pose proof (answer_parts text [] v) as (E1 & _ & _). unfold mbind, js_bind.
  destruct (answer text [] v) as [[[]|e] v1]; cbn in Hg1, Hi1, E1; [|by intros [= <- <-]].
  destruct (stepping_next m rest v1) as [H1 H2]; [done|by apply Hi1|congruence|]. intros E. by rewrite E in H1, H2.
Qed.

Lemma stepping_frame m rest kind digits : stepping m rest (on_frame (J:=J) JSON_parse Number kind digits).
Proof.
  apply stepping_run. intros v r v' Hg Hi. unfold on_frame. erewrite bind_run by done. unfold guard_js at 1.
  destruct (negb _ || vm_active v) eqn:Hb; [by intros [= <- <-]|].
  apply orb_false_iff in Hb as [_ Ha]. do 2 erewrite bind_run by done. unfold mbind, js_bind, lift.
  destruct (read JSON_parse v) as [result|e]; [|by intros [= <- <-]].
  unfold guard_js. destruct (_ <? _); [by intros [= <- <-]|]. intros [= <- <-]. unfold grown, in_step, unheard, open_frame in *. cbn. rewrite length_app.
  split; [lia|]. intros _. rewrite drop_app_le by done. unfold ordinary in *. rewrite forallb_app, omap_app. intros [H _]%andb_prop.
  destruct (Hi H) as [k Hk]. rewrite Ha in Hk. rewrite app_nil_r in Hk. rewrite app_assoc, Hk. destruct kind; [by exists k..|].
  exists (S k). rewrite app_nil_r. symmetry. apply repeat_cons.
Qed.

#[local] Hint Resolve stepping_url stepping_frame stepping_start : vmstep.

Lemma stepping_line m rest line : stepping m rest (on_line (J:=J) JSON_parse clock_bytes now random Number url_answer line).
Proof.
  unfold on_line, send, clock, write_memory, serial0_send. step_vm.
Qed.

Lemma own_step m rest ev v : vm_own ev = true → grown m v → in_step m rest v →
  let v' := (run_vm_event JSON_parse clock_bytes now random Number url_answer ev v).2 in grown m v' ∧ in_step m rest v'.
Proof.
  intros Ho Hg Hi. destruct ev as [msg fetched inflated loaded| |b|sequence text payload| |memory|error]; try done; cbn [run_vm_event].
  - by apply stepping_try_fail; [apply stepping_boot|..].
  - assert (stepping m rest (emulator_loaded (J:=J) now random)) as H by (unfold emulator_loaded; step_vm).
    destruct (H v Hg Hi) as [? Hi']. split; [done|]. apply Hi'. unfold emulator_loaded. erewrite bind_run by done.
    destruct (vm_setup v) as [st|]; [|done]. unfold when. destruct (st_restored st) eqn:Er; [|done]. unfold start. do 5 (erewrite bind_run by done).
    unfold when. by rewrite Er.
  - unfold on_byte. erewrite bind_run by done. set (v1 := set_text _ _ v). assert (grown m v1 ∧ in_step m rest v1) as [Hg1 Hi1] by done. clearbody v1.
    case_bool_decide; [done|]. destruct (negb _); [done|]. do 3 (erewrite bind_run by done). apply stepping_try_fail; [apply stepping_line|..].
    all: set (v2 := set_text _ _ v1); assert (grown m v2 ∧ in_step m rest v2) as [Hg2 Hi2] by done; clearbody v2.
    all: by apply (stepping_post m rest (PLog (vm_log v1)) eq_refl v2).
  - apply (stepping_try_fail m rest (throw error)); [step_vm|done..].
Qed.
End Lines.

(** ** What is with the owner *)

Lemma open_frame_short {J} (v : vm J) : (length (open_frame v) <= 1)%nat.
Proof. unfold open_frame. destruct (vm_active v); cbn; lia. Qed.

(** The oldest thing that waits for an answer is the frame the worker waits for, and the only one. *)
Lemma front_asks n (l : list (option Z)) k (o : list Z) :
  (length o <= 1)%nat → Some n :: l = repeat None k ++ (Some <$> o) → k = 0%nat ∧ l = [] ∧ o = [n].
Proof.
  intros Ho. destruct k as [|k]; [|done]. destruct o as [|x [|y o]]; cbn in *; [done| |lia]. intros [= -> ->]. done.
Qed.

(** The frames that ask, out of the equation between frames. *)
Lemma rest_asked {J} (m : nat) (rest : list Z) (v : vm J) k :
  omap id ((Some <$> rest) ++ unheard m v) = omap id (repeat None k ++ (Some <$> open_frame v)) →
  rest ++ omap asking (drop m (vm_posts v)) = open_frame v.
Proof.
  assert (∀ l : list Z, omap id (Some <$> l) = l) as Hid by (intros l; induction l as [|x l IH]; [done|]; cbn in *; by rewrite IH).
  assert (omap id (repeat (@None Z) k) = []) as Hnone by (induction k; done).
  assert (omap id (unheard m v) = omap asking (drop m (vm_posts v))) as Hask.
  { unfold unheard. induction (drop m (vm_posts v)) as [|[] l IH]; [done|try apply IH..]. cbn in *. rewrite IH. by destruct kind. }
  rewrite !omap_app, !Hid, Hnone, Hask. done.
Qed.

Section Owner.
Context {J R : Type}.
Implicit Types (g : guest (vm_post J) R).

Definition pending (received : nat) (i : Z) g : list Z := (drop received (responses_to i g)).*1.*1.

(** Frames carry their own number. *)
Definition numbered g : Prop := ∀ f n, last (gs_crossed g) = Some (XFrame f) → asking (gf_result f) = Some n → gf_sequence f = VNum (NInt n).

Lemma responses_snoc i g g' x : gs_crossed g' = gs_crossed g ++ [x] →
  responses_to i g' = responses_to i g ++
    match x with XResponse i' sequence response payload => if decide (i' = i) then [(sequence, response, payload)] else [] | _ => [] end.
Proof. intros E. unfold responses_to. rewrite E, omap_app. by destruct x as [| |i' ? ? ?]; cbn; [..|case_decide]. Qed.

Lemma awaiting_snoc g g' x : gs_crossed g' = gs_crossed g ++ [x] →
  awaiting g' = match x with XFrame f => option_list (asking (gf_result f)) | _ => [] end.
Proof. intros E. unfold awaiting. by rewrite E, last_snoc. Qed.

(** Every response to a worker comes directly after a frame that asks: the frame was read, and no other frame and no new worker came between. *)
Definition asks (x : crossing (vm_post J) R) : bool := match x with XFrame f => bool_decide (is_Some (asking (gf_result f))) | _ => false end.
Fixpoint directly (i : Z) (before : bool) (xs : list (crossing (vm_post J) R)) : bool :=
  match xs with
  | [] => true
  | x :: xs => match x with XResponse i' _ _ _ => negb (bool_decide (i' = i)) || before | _ => true end && directly i (asks x) xs
  end.
Definition direct (i : Z) g : bool := directly i false (gs_crossed g).

Lemma directly_snoc i before xs x : directly i before (xs ++ [x]) =
  directly i before xs && match x with XResponse i' _ _ _ => negb (bool_decide (i' = i)) || from_option asks before (last xs) | _ => true end.
Proof.
  revert before. induction xs as [|y xs IH]; intros before; [by destruct x; cbn; rewrite ?andb_true_r|]. cbn [app directly]. rewrite IH, last_cons, andb_assoc.
  f_equal. destruct x; try done. f_equal. by destruct (last xs).
Qed.
Lemma direct_before i g g' x : gs_crossed g' = gs_crossed g ++ [x] → direct i g' = true → direct i g = true.
Proof. intros E. unfold direct. rewrite E, directly_snoc. by intros [? _]%andb_prop. Qed.
Lemma direct_response i g g' sequence response payload :
  gs_crossed g' = gs_crossed g ++ [XResponse i sequence response payload] → direct i g' = true → awaiting g ≠ [].
Proof.
  intros E. unfold direct, awaiting. rewrite E, directly_snoc, bool_decide_true by done. intros [_ H]%andb_prop. cbn in H.
  destruct (last (gs_crossed g)) as [[|f|]|]; try done. cbn in H. apply bool_decide_eq_true in H as [n Hn]. by rewrite Hn.
Qed.

Lemma awaiting_one g n l : awaiting g = n :: l → l = [] ∧ ∃ f xs, gs_crossed g = xs ++ [XFrame f] ∧ asking (gf_result f) = Some n.
Proof.
  unfold awaiting. destruct (last (gs_crossed g)) as [[|f|]|] eqn:E; try done. destruct (asking (gf_result f)) as [n'|] eqn:Hn; [|done].
  intros [= -> <-]. split; [done|]. apply last_Some in E as [xs E]. by exists f, xs.
Qed.

(** Closing, and a change of nothing that crosses. *)
Definition same_talk g g' : Prop :=
  gs_crossed g' = gs_crossed g ∧ gs_launched g' = gs_launched g ∧ (gs_closed g = true → gs_closed g' = true).
(** A worker is replaced. *)
Definition replaced g g' : Prop :=
  gs_launched g' = gs_launched g + 1 ∧ ∃ app snapshot, gs_crossed g' = gs_crossed g ++ [XBoot (gs_launched g + 1) app snapshot].

Lemma close_talk reason g : same_talk g (close reason g).2.
Proof.
  destruct (gs_closed g) eqn:Hc; [|by rewrite close_run by done]. unfold close. erewrite bind_run by done. rewrite Hc. done.
Qed.

Lemma failed_talk i error g : same_talk g (failed i error g).2 ∨ replaced g (failed i error g).2.
Proof.
  unfold failed. erewrite bind_run by done. destruct (_ || _); [by left|]. destruct (_ && _ && _ && _); [|left; apply close_talk].
  do 3 erewrite bind_run by done. rewrite launch_run. right. split; [done|]. by eexists _, _.
Qed.

Lemma deliver_talk f g : same_talk g (deliver f g).2.
Proof.
  unfold deliver. erewrite bind_run by done. destruct (gs_waiting g) as [p|] eqn:E; [unfold settle_waiting, modify; cbn; by rewrite E|].
  destruct (_ <? _)%nat; [done|apply close_talk].
Qed.

(** A response crosses when the guest waits for one, with the number of the frame. *)
Lemma respond_crosses response payload g w sequence :
  gs_closed g = false → to_safe (gs_resultSequence g) = Some sequence → gs_worker g = Some w →
  let g' := (respond response payload g).2 in
  gs_crossed g' = gs_crossed g ++ [XResponse w sequence response payload] ∧ gs_launched g' = gs_launched g ∧ gs_closed g' = false.
Proof. intros Hc Hs Hw. unfold respond. erewrite bind_run by done. rewrite Hc, Hs, Hw. by do 2 erewrite bind_run by done. Qed.

Lemma owner_talk ev g : (∀ i data, ev ≠ EvMessage i data) → (∀ response payload, ev ≠ EvRespond response payload) →
  same_talk g (run_guest_event ev g).2 ∨ replaced g (run_guest_event ev g).2.
Proof.
  intros H1 H2. destruct ev as [|response payload|reason|i data|i message| |reason]; cbn [run_guest_event]; [|by edestruct H2|..|].
  - left. unfold receive. unfold mbind, js_bind. cbn. destruct (gs_closed g) eqn:Hc; [done|].
    destruct (gs_waiting g); [done|]. by destruct (gs_messages g).
  - left. apply close_talk.
  - by edestruct H1.
  - apply failed_talk.
  - unfold timer_fires. do 2 erewrite bind_run by done. destruct (gs_timer g) as [[i|]|]; [|left|by left].
    + apply (failed_talk i _ (set_timer None g)).
    + apply (close_talk _ (set_timer None g)).
  - unfold aborts. erewrite bind_run by done. left. destruct (gs_listening g); [apply close_talk|done].
Qed.
End Owner.

(** ** The two together *)

Section System.
Context {J R : Type}.
Context (JSON_parse : string → res J) (clock_bytes : list byte) (now : Z) (random : list byte).
Context (Number : list byte → jsnum) (url_answer : res J → list byte) (response_bytes : R → list byte).
Implicit Types s : vm_system J R.
Local Abbreviation vm_sys_step := (vm_sys_step JSON_parse clock_bytes now random Number url_answer response_bytes).
Local Abbreviation run_vm_event := (run_vm_event JSON_parse clock_bytes now random Number url_answer).

Record talk s : Prop := {
  tk_numbered : numbered (vs_owner s);
  tk_blank : ∀ i, gs_launched (vs_owner s) < i →
    vs_vm s i = start_vm ∧ vs_received s i = 0%nat ∧ vs_heard s i = 0%nat ∧ responses_to i (vs_owner s) = [];
  tk_step : gs_closed (vs_owner s) = false → ∀ w, w = gs_launched (vs_owner s) → direct w (vs_owner s) = true →
    (vs_received s w <= length (responses_to w (vs_owner s)))%nat ∧ grown (vs_heard s w) (vs_vm s w) ∧
    in_step (vs_heard s w) (pending (vs_received s w) w (vs_owner s) ++ awaiting (vs_owner s)) (vs_vm s w)
}.

Lemma running_current i s : guest_wf (vs_owner s) → running_vm i s = true → gs_closed (vs_owner s) = false ∧ i = gs_launched (vs_owner s).
Proof.
  intros Hw. unfold running_vm. intros [[H1%Z.leb_le H2%Z.leb_le]%andb_prop H3%negb_true_iff%bool_decide_eq_false]%andb_prop.
  rewrite (gw_terminated _ Hw), elem_of_seqZ in H3. destruct (gs_closed (vs_owner s)); lia.
Qed.

Lemma talk_same s g' : talk s → same_talk (vs_owner s) g' → talk (VmSystem g' (vs_vm s) (vs_received s) (vs_heard s)).
Proof.
  intros [Hn Hb Hs] (E1 & E2 & E3). assert (∀ i, responses_to i g' = responses_to i (vs_owner s)) as Er by (intros i; unfold responses_to; by rewrite E1).
  assert (awaiting g' = awaiting (vs_owner s)) as Ea by (unfold awaiting; by rewrite E1). split; cbn.
  - unfold numbered. by rewrite E1.
  - intros i. rewrite E2, Er. apply Hb.
  - intros Hc w. rewrite E2, Ea. unfold pending, direct. rewrite !Er, E1. apply Hs. destruct (gs_closed (vs_owner s)); [by rewrite E3 in Hc|done].
Qed.

Lemma talk_replaced s g' : talk s → replaced (vs_owner s) g' → talk (VmSystem g' (vs_vm s) (vs_received s) (vs_heard s)).
Proof.
  intros [Hn Hb Hs] (E1 & app & snapshot & E2). pose proof (λ i, responses_snoc i _ _ _ E2) as Er. split; cbn.
  - intros f n. by rewrite E2, last_snoc.
  - intros i Hi. rewrite Er, app_nil_r. apply Hb. lia.
  - intros _ w -> _. rewrite (awaiting_snoc _ _ _ E2). unfold pending. rewrite Er, app_nil_r.
    destruct (Hb (gs_launched g')) as (-> & -> & -> & ->); [lia|]. split; [done|]. split; [unfold grown; cbn; lia|]. intros _. by exists 0%nat.
Qed.

Lemma talk_owner s g' : talk s → same_talk (vs_owner s) g' ∨ replaced (vs_owner s) g' → talk (VmSystem g' (vs_vm s) (vs_received s) (vs_heard s)).
Proof. intros Ht [H|H]; [by apply talk_same|by apply talk_replaced]. Qed.

(** The worker's own steps. *)
Lemma talk_run s i ev received : talk s → gs_closed (vs_owner s) = false → i = gs_launched (vs_owner s) →
  let v' := (run_vm_event ev (vs_vm s i)).2 in
  (direct i (vs_owner s) = true →
   (received <= length (responses_to i (vs_owner s)))%nat ∧ grown (vs_heard s i) v' ∧
   in_step (vs_heard s i) (pending received i (vs_owner s) ++ awaiting (vs_owner s)) v') →
  talk (run_vm_at JSON_parse clock_bytes now random Number url_answer i ev received s).
Proof.
  intros [Hn Hb Hs] Hc Hi v' H1. split; cbn; [done|..].
  - intros j Hj. unfold zset. rewrite !decide_False by lia. by apply Hb.
  - intros _ w ->. unfold zset. rewrite <- Hi, !decide_True by done. done.
Qed.

(** Reading a message that is no frame, or the last of its worker. *)
Lemma talk_heard s i m : talk s → gs_closed (vs_owner s) = false → i = gs_launched (vs_owner s) → vm_posts (vs_vm s i) !! vs_heard s i = Some m →
  (frame_of m = None ∨ ordinary [m] = false) → talk (VmSystem (vs_owner s) (vs_vm s) (vs_received s) (zset (vs_heard s) i (S (vs_heard s i)))).
Proof.
  intros [Hn Hb Hs] Hc Hi Hm Hf. split; cbn; [done|..].
  - intros j Hj. unfold zset. rewrite !decide_False by lia. by apply Hb.
  - intros _ w -> Hd. unfold zset. rewrite <- Hi in *. rewrite !decide_True by done. destruct (Hs Hc i eq_refl Hd) as (H1 & H2 & H3). split; [done|].
    split; [by apply lookup_lt_Some in Hm|]. intros Ho. unfold in_step, unheard in *. rewrite (drop_S _ _ _ Hm) in H3. cbn in H3.
    destruct Hf as [Hf|Hf]; [rewrite Hf in H3; auto|]. exfalso. apply list_elem_of_lookup_2 in Hm. unfold ordinary in Ho.
    rewrite forallb_forall in Ho. apply list_elem_of_In, Ho in Hm. cbn in Hf. by rewrite Hm in Hf.
Qed.

(** Reading a frame. *)
Lemma talk_frame s i kind sequence result payload g1 :
  let m := PFrame kind sequence result payload in
  talk s → gs_closed (vs_owner s) = false → i = gs_launched (vs_owner s) → vm_posts (vs_vm s i) !! vs_heard s i = Some m →
  gs_crossed g1 = gs_crossed (vs_owner s) ++ [XFrame (GuestFrame (kind_name kind) (VNum (NInt sequence)) m)] → gs_launched g1 = gs_launched (vs_owner s) →
  talk (VmSystem g1 (vs_vm s) (vs_received s) (zset (vs_heard s) i (S (vs_heard s i)))).
Proof.
  intros m [Hn Hb Hs] Hc Hi Hm E1 E2. pose proof (λ j, responses_snoc j _ _ _ E1) as Er. split; cbn.
  - intros f n. rewrite E1, last_snoc. intros [= <-]. by destruct kind; intros [= <-].
  - intros j Hj. unfold zset. rewrite Er, app_nil_r, !decide_False by lia. apply Hb. lia.
  - intros _ w -> Hd. rewrite E2, <- Hi in *. apply (direct_before _ _ _ _ E1) in Hd. unfold zset. rewrite !decide_True by done.
    destruct (Hs Hc i eq_refl Hd) as (H1 & H2 & H3). unfold pending.
    rewrite Er, (awaiting_snoc _ _ _ E1), !app_nil_r. split; [done|]. split; [by apply lookup_lt_Some in Hm|].
    intros Ho. destruct (H3 Ho) as [k Hk]. unfold unheard in *. rewrite (drop_S _ _ _ Hm) in Hk. cbn [omap list_omap frame_of m] in Hk.
    pose proof (open_frame_short (vs_vm s i)) as Hshort.
    destruct (pending _ _ _ ++ awaiting _) as [|n l] eqn:El.
    + apply app_nil in El as [El _]. unfold pending in El. rewrite El. cbn [app fmap list_fmap] in *. destruct (asking m) as [n|] eqn:Ha.
      * apply front_asks in Hk as (-> & Hk & Hopen); [|done]. exists 0%nat. cbn [gf_result]. by rewrite Ha, Hk, Hopen.
      * destruct k as [|k]; [by destruct (open_frame (vs_vm s i))|]. exists k. cbn [gf_result]. rewrite Ha. by injection Hk.
    + apply front_asks in Hk as (_ & Hk & _); [|done]. by apply app_nil in Hk as [_ Hk].
Qed.

Lemma talk_hear s i m : guest_wf (vs_owner s) → talk s → running_vm i s = true → vm_posts (vs_vm s i) !! vs_heard s i = Some m →
  talk (VmSystem (onmessage i (posted m) (vs_owner s)).2 (vs_vm s) (vs_received s) (zset (vs_heard s) i (S (vs_heard s i)))).
Proof.
  intros Hw Ht Hr Hm. destruct (running_current i s Hw Hr) as [Hc Hi]. destruct (guest_open_parts _ Hw Hc) as (_ & Hk & _).
  unfold onmessage. erewrite bind_run by done. rewrite Hc, Hk, Hi, bool_decide_true by done. rewrite <- Hi. cbn [negb orb].
  assert (frame_of m = None ∨ ordinary [m] = false →
    ∀ g', same_talk (vs_owner s) g' ∨ replaced (vs_owner s) g' →
    talk (VmSystem g' (vs_vm s) (vs_received s) (zset (vs_heard s) i (S (vs_heard s i))))) as Hplain.
  { intros Hf g' Hg'. by apply (talk_owner (VmSystem (vs_owner s) (vs_vm s) (vs_received s) _)); [eapply talk_heard|]. }
  destruct m as [error log|reason| |log| |memoryMiB|kind sequence result payload]; cbn [posted].
  - apply Hplain; [by left|]. apply failed_talk.
  - apply Hplain; [by left|by left].
  - apply Hplain; [by left|by left].
  - apply Hplain; [by left|by left].
  - apply Hplain; [by left|by left].
  - do 3 erewrite bind_run by done. set (g1 := set_outside _ _ _ _ _).
    apply (talk_same (VmSystem g1 _ _ _)); [|apply deliver_talk].
    destruct (Hplain ltac:(by right) (vs_owner s) ltac:(by left)) as [Hn Hb Hs]. cbn in Hn, Hb, Hs.
    pose proof (λ j, responses_snoc j (vs_owner s) g1 _ eq_refl) as Er. split; cbn [vs_owner vs_vm vs_received vs_heard].
    + intros f n. subst g1. cbn [gs_crossed set_outside]. rewrite last_snoc. by intros [= <-].
    + intros j Hj. rewrite Er, app_nil_r. by apply Hb.
    + intros _ w -> Hd. unfold pending. rewrite Er, app_nil_r. assert (Hd' := direct_before _ (vs_owner s) g1 _ eq_refl Hd).
      destruct (Hs Hc _ eq_refl Hd') as (H1 & H2 & _). split; [done|]. split; [done|].
      intros Ho. exfalso. apply list_elem_of_lookup_2 in Hm. unfold ordinary in Ho. rewrite forallb_forall in Ho. rewrite Hi in Hm.
      by apply list_elem_of_In, Ho in Hm.
  - do 3 erewrite bind_run by done. set (g1 := set_outside _ _ _ _ _).
    apply (talk_same (VmSystem g1 _ _ _)); [|apply deliver_talk]. by eapply talk_frame.
Qed.

(** The owner responds: to the frame it has, or too late for it. *)
Lemma talk_respond s response payload : guest_wf (vs_owner s) → talk s →
  talk (VmSystem (respond response payload (vs_owner s)).2 (vs_vm s) (vs_received s) (vs_heard s)).
Proof.
  intros Hw Ht. destruct (gs_closed (vs_owner s)) eqn:Hc.
  { unfold respond. erewrite bind_run by done. rewrite Hc. by destruct s. }
  destruct (guest_open_parts _ Hw Hc) as (_ & Hk & _).
  destruct (to_safe (gs_resultSequence (vs_owner s))) as [q|] eqn:Hq.
  2: { unfold respond. erewrite bind_run by done. rewrite Hc, Hq. by destruct s. }
  destruct (respond_crosses response payload _ _ _ Hc Hq Hk) as (E1 & E2 & E3). set (g' := (respond _ _ _).2) in *. clearbody g'.
  pose proof (λ j, responses_snoc j _ _ _ E1) as Er. pose proof (tk_step s Ht) as Hstep. split; cbn.
  - intros f' n'. by rewrite E1, last_snoc.
  - intros i Hi. rewrite Er, decide_False, app_nil_r by lia. apply (tk_blank s Ht). lia.
  - intros _ w -> Hd. rewrite (awaiting_snoc _ _ _ E1). unfold pending. rewrite E2 in *. rewrite Er, decide_True by done.
    destruct (Hstep Hc _ eq_refl (direct_before _ _ _ _ E1 Hd)) as (H1 & H2 & H3). rewrite length_app, drop_app_le by done. split; [lia|]. split; [done|].
    apply (direct_response _ _ _ _ _ _ E1) in Hd. destruct (awaiting (vs_owner s)) as [|n l] eqn:Ea; [done|].
    apply awaiting_one in Ea as (-> & f & xs & Ex & Hf).
    assert (gs_resultSequence (vs_owner s) = VNum (NInt n)) as Hs.
    { rewrite <- (tk_numbered s Ht f n); [|rewrite Ex; apply last_snoc|done]. pose proof (gw_answers _ Hw) as A. rewrite Ex, answerable_snoc in A.
      apply bind_Some in A as (v & _ & A). by injection A. }
    assert (q = n) as -> by (rewrite Hs in Hq; cbn in Hq; destruct (_ <=? _) in Hq; congruence). by rewrite !fmap_app, app_nil_r.
Qed.

(** ** A response *)

(** A response that fits the mailbox and answers the open frame closes it; one that is too long is posted as a failure. *)
Lemma response_runs v text payload :
  vm_active v = true →
  let v' := (run_vm_event (EvResponse (VNum (NInt (vm_sequence v))) text payload) v).2 in
  if (MIB <? zlen text) || (2 * MIB <? zlen payload)
  then vm_posts v' = vm_posts v ++ [PFailed "Host input exceeds mailbox" (vm_log v)]
  else vm_active v' = false ∧ vm_sequence v' = vm_sequence v + 1 ∧ vm_sent v' = vm_sent v ++ [SNumber (vm_sequence v)] ∧ vm_posts v' = vm_posts v.
Proof.
  intros Ha. cbn [VmWorker.run_vm_event]. unfold try_catch, on_response. erewrite bind_run by done. rewrite Ha, bool_decide_true by done.
  erewrite bind_run by done. unfold answer, write, write_memory, guard_js, mbind, js_bind. destruct (MIB <? zlen text); [done|].
  cbn [orb]. simpl. by destruct (2 * MIB <? zlen payload).
Qed.

Lemma talk_receive s i sequence response payload :
  talk s → gs_closed (vs_owner s) = false → i = gs_launched (vs_owner s) → direct i (vs_owner s) = true →
  responses_to i (vs_owner s) !! vs_received s i = Some (sequence, response, payload) → ordinary (vm_posts (vs_vm s i)) = true →
  vm_active (vs_vm s i) = true ∧ vm_sequence (vs_vm s i) = sequence ∧ unheard (vs_heard s i) (vs_vm s i) = [] ∧
  pending (S (vs_received s i)) i (vs_owner s) ++ awaiting (vs_owner s) = [].
Proof.
  intros Ht Hc Hi Hd Hr Ho. destruct (tk_step s Ht Hc i Hi Hd) as (_ & _ & H3). destruct (H3 Ho) as [k Hk]. unfold pending in *.
  rewrite (drop_S _ _ _ Hr) in Hk. cbn in Hk. apply front_asks in Hk as (_ & Hk & Hopen); [|apply open_frame_short].
  apply app_nil in Hk as [Hk1%fmap_nil_inv Hk2]. unfold open_frame in Hopen. destruct (vm_active _); [|done]. by injection Hopen.
Qed.

Lemma response_posts v sequence text payload :
  let v' := (run_vm_event (EvResponse sequence text payload) v).2 in ∃ l, vm_posts v' = vm_posts v ++ l.
Proof.
  cbn [VmWorker.run_vm_event]. unfold try_catch, on_response. erewrite bind_run by done. unfold guard_js at 1. destruct (_ || _); [by eexists|].
  unfold answer, write, write_memory, guard_js, mbind, js_bind. destruct (MIB <? zlen text); [by eexists|].
  simpl. destruct (2 * MIB <? zlen payload); [by eexists|]. exists []. by rewrite app_nil_r.
Qed.

Lemma talk_receives s i sequence response payload :
  guest_wf (vs_owner s) → talk s → running_vm i s = true →
  responses_to i (vs_owner s) !! vs_received s i = Some (sequence, response, payload) →
  talk (run_vm_at JSON_parse clock_bytes now random Number url_answer i
    (EvResponse (VNum (NInt sequence)) (response_bytes response) payload) (S (vs_received s i)) s).
Proof.
  intros Hw Ht Hr He. destruct (running_current i s Hw Hr) as [Hc Hi]. apply talk_run; [done..|]. intros Hd.
  destruct (tk_step s Ht Hc i Hi Hd) as (_ & Hg & _). pose proof (response_posts (vs_vm s i) (VNum (NInt sequence)) (response_bytes response) payload) as [l Hl].
  split; [by apply lookup_lt_Some in He|]. split; [unfold grown in *; rewrite Hl, length_app; lia|]. intros Ho.
  assert (ordinary (vm_posts (vs_vm s i)) = true) as Ho'.
  { rewrite Hl in Ho. unfold ordinary in *. rewrite forallb_app in Ho. by apply andb_prop in Ho as [? _]. }
  destruct (talk_receive s i _ _ _ Ht Hc Hi Hd He Ho') as (Ha & <- & Hu & ->). pose proof (response_runs (vs_vm s i) (response_bytes response) payload Ha) as H.
  cbn zeta in H. unfold unheard, open_frame in *. destruct (_ || _).
  - rewrite H in Ho. unfold ordinary in Ho. rewrite forallb_app in Ho. cbn in Ho. by rewrite andb_false_r in Ho.
  - destruct H as (-> & _ & _ & ->). rewrite Hu. by exists 0%nat.
Qed.

Lemma sys_step_inv s ev : guest_wf (vs_owner s) → talk s → guest_wf (vs_owner (vm_sys_step s ev)) ∧ talk (vm_sys_step s ev).
Proof.
  intros Hw Ht. destruct ev as [ev|i|i|i ev]; cbn [GuestVm.vm_sys_step].
  - destruct (owner_own ev) eqn:Ho; [|done]. split; [by apply event_wf|].
    destruct ev as [|response payload|reason|i data|i message| |reason]; cbn in Ho; try done.
    2: by apply talk_respond.
    all: apply talk_owner; [done|]; by apply owner_talk.
  - destruct (running_vm i s) eqn:Hr; [|done]. destruct (_ !! _) as [m|] eqn:Hm; [|done]. split; [by apply onmessage_wf|by apply talk_hear].
  - destruct (running_vm i s) eqn:Hr; [|done]. destruct (_ !! _) as [[[sequence response] payload]|] eqn:Hm; [|done].
    split; [done|by apply talk_receives].
  - destruct (running_vm i s && vm_own ev) eqn:Hr; [|done]. apply andb_prop in Hr as [Hr Ho]. destruct (running_current i s Hw Hr) as [Hc Hi].
    split; [done|]. apply talk_run; [done..|]. intros Hd. destruct (tk_step s Ht Hc i Hi Hd) as (H1 & H2 & H3). split; [done|].
    by apply own_step.
Qed.

Lemma vm_system_inv options evs :
  let s := run_vm_system JSON_parse clock_bytes now random Number url_answer response_bytes (start_vm_system options) evs in guest_wf (vs_owner s) ∧ talk s.
Proof.
  cbn zeta. unfold run_vm_system. assert (guest_wf (vs_owner (start_vm_system (J:=J) (R:=R) options)) ∧ talk (start_vm_system options)) as H.
  { split; [apply createGuest_wf|]. split; cbn [start_vm_system vs_owner vs_vm vs_received vs_heard createGuest]; rewrite launch_run; cbn.
    - by intros f n.
    - by intros i Hi.
    - intros _ w -> _. split; [done|]. split; [unfold grown; cbn; lia|]. intros _. by exists 0%nat. }
  revert H. generalize (start_vm_system (J:=J) (R:=R) options). induction evs as [|ev evs IH]; intros s [Hw Ht]; [done|]. by apply IH, sys_step_inv.
Qed.

(** C2 A guest and its owner stay in step as long as every response posted to the worker directly follows a frame that asks, with no other
    frame and no new worker in between (a response after a worker was replaced need not, see [response_after_relaunch]): whatever the guest
    prints, however messages are delayed and whenever the owner's deadline, its signal, an error or a close interferes, a worker that runs, has
    not failed and has not handed over a snapshot is the last one started, and the frame it waits for, when it waits, is in exactly one place,
    its response on the way, the frame with the owner, or the frame on the way, and nothing else is.  So a response that arrives is then never
    stale: it answers the open frame, and one that fits the mailbox closes it and sends its number. *)
Theorem owner_and_vm_in_step options evs i :
  let s := run_vm_system JSON_parse clock_bytes now random Number url_answer response_bytes (start_vm_system options) evs in
  let g := vs_owner s in let v := vs_vm s i in
  running_vm i s = true → ordinary (vm_posts v) = true → direct i g = true →
  i = gs_launched g ∧
  (drop (vs_received s i) (responses_to i g)).*1.*1 ++ awaiting g ++ omap asking (drop (vs_heard s i) (vm_posts v)) = open_frame v ∧
  ∀ sequence response payload, responses_to i g !! vs_received s i = Some (sequence, response, payload) →
    vm_active v = true ∧ vm_sequence v = sequence ∧
    (zlen (response_bytes response) <= MIB → zlen payload <= 2 * MIB →
     let v' := vs_vm (vm_sys_step s (VsReceive i)) i in
     vm_active v' = false ∧ vm_sequence v' = sequence + 1 ∧ vm_sent v' = vm_sent v ++ [SNumber sequence] ∧ vm_posts v' = vm_posts v).
Proof.
  intros s g v Hr Ho Hd. destruct (vm_system_inv options evs) as [Hw Ht]. fold s in Hw, Ht. destruct (running_current i s Hw Hr) as [Hc Hi]. split; [done|].
  split.
  - destruct (tk_step s Ht Hc i Hi Hd) as (_ & _ & H3). destruct (H3 Ho) as [k Hk]. apply (f_equal (omap id)) in Hk. apply rest_asked in Hk. by rewrite <- app_assoc in Hk.
  - intros sequence response payload He. destruct (talk_receive s i _ _ _ Ht Hc Hi Hd He Ho) as (Ha & Hs & _). split; [done|]. split; [done|].
    intros H1 H2. cbn [GuestVm.vm_sys_step]. rewrite Hr. fold g. rewrite He. unfold run_vm_at, zset. cbn [vs_vm]. rewrite decide_True by done.
    rewrite <- Hs. pose proof (response_runs v (response_bytes response) payload Ha) as H. cbn zeta in H.
    by rewrite (proj2 (Z.ltb_ge _ _) H1), (proj2 (Z.ltb_ge _ _) H2) in H.
Qed.
End System.

(** A guest that boots, makes its first request, and is answered. *)
Definition demo_digits (l : list byte) : jsnum := NInt (foldl (λ n b, 10 * n + (Z_of_byte b - 48)) 0 l).
Definition demo_boot : vm_event :=
  EvBoot (BootMessage (VNum (NInt 0)) (VStr "runner") [x01] [x7b; x7d] (VBool false) false)
    (Ok (Manifest "key" (VStr "abi") (λ _, VNum (NInt 64)) (λ _, None))) (Ok tt) (Ok tt).
Definition demo_request : list (vm_sys_event () ()) :=
  [VsRun 1 demo_boot] ++ (VsRun 1 ∘ EvByte <$> text_bytes "@@NUPP_COMPILER@@ 0" ++ [LF]) ++
  [VsHear 1; VsOwner EvReceive; VsHear 1; VsOwner (EvRespond tt [x61])].
Definition demo_vm_run (evs : list (vm_sys_event () ())) : vm_system () () :=
  run_vm_system (λ _, Ok tt) (replicate 8 x01) 0 (replicate 32 x02) demo_digits (λ _, []) (λ _, [x7b; x7d])
    (start_vm_system (GuestOptions [x01] false false "late")) evs.

Lemma owner_and_vm_in_step_witness :
  responses_to 1 (vs_owner (demo_vm_run demo_request)) !! 0%nat = Some (0, tt, [x61]) ∧
  vm_active (vs_vm (demo_vm_run demo_request) 1) = true ∧
  vm_sent (vs_vm (vm_sys_step (λ _, Ok tt) (replicate 8 x01) 0 (replicate 32 x02) demo_digits (λ _, []) (λ _, [x7b; x7d])
    (demo_vm_run demo_request) (VsReceive 1)) 1) = [SNumber 0].
Proof.
  destruct (owner_and_vm_in_step (J:=()) (R:=()) (λ _, Ok tt) (replicate 8 x01) 0 (replicate 32 x02) demo_digits (λ _, []) (λ _, [x7b; x7d])
    (GuestOptions [x01] false false "late") demo_request 1) as (_ & _ & H); [vm_compute; reflexivity..|].
  destruct (H 0 tt [x61]) as (H1 & _ & H2); [vm_compute; reflexivity|]. split; [vm_compute; reflexivity|]. split; [exact H1|].
  destruct H2 as (_ & _ & H2 & _); [vm_compute; discriminate|vm_compute; discriminate|]. exact (eq_trans H2 ltac:(vm_compute; reflexivity)).
Defined.

(** The number of a frame outlives the worker that printed it: a restored worker asks, fails before its mailbox is ready, is replaced without its
    snapshot, and the response reaches the new worker, which asked for nothing, so that it fails as well. *)
Definition demo_restore : vm_event :=
  EvBoot (BootMessage (VNum (NInt 0)) (VStr "runner") [x01] [x7b; x7d] (VBool true) false)
    (Ok (Manifest "key" (VStr "abi") (λ _, VNum (NInt 64)) (λ _, Some (SnapshotRecord "key" (VNum (NInt (guest_memory "runner"))) (VStr "abi"))))) (Ok tt) (Ok tt).
Definition demo_relaunch : list (vm_sys_event () ()) :=
  [VsRun 1 demo_restore] ++ (VsRun 1 ∘ EvByte <$> text_bytes "@@NUPP_COMPILER@@ 0" ++ [LF]) ++ [VsRun 1 (EvRejected "lost")] ++
  replicate 4 (VsHear 1) ++ [VsRun 2 demo_boot; VsOwner EvReceive; VsOwner (EvRespond tt [x61]); VsReceive 2].

Example response_after_relaunch :
  let s := run_vm_system (λ _, Ok tt) (replicate 8 x01) 0 (replicate 32 x02) demo_digits (λ _, []) (λ _, [x7b; x7d])
    (start_vm_system (GuestOptions [x01] true false "late")) demo_relaunch in
  gs_launched (vs_owner s) = 2 ∧ running_vm 2 s = true ∧ responses_to 2 (vs_owner s) = [(0, tt, [x61])] ∧
  vm_posts (vs_vm s 2) = [PFailed "Stale host response" []] ∧ direct 2 (vs_owner s) = false.
Proof. vm_compute. repeat split; reflexivity. Qed.
