(* ===== verification/Lane.v ===== *)
(** One lane of the worker pool, [src/runtime/luajit/worker-lane.mjs].

    The module's variables are the fields of [lane].  A task that is handed over runs
    the rest of the effect that waited for it at once: the promise it resolves is
    awaited, and no message comes in between.  Effects of the guest are numbered and
    what they are answered is recorded; so is what the lane posts.  The channel table is
    reached through the operations the lane uses of it. *)

From S2P Require Import Prelude.

(** The channel table, as a lane sees it. *)
Class LaneChannels (C item D : Type) := {
  lc_adopt : list item → js C (list D);
  lc_discard : list item → js C ();
  lc_interrupt : bool → js C ();
  lc_reset : js C ();
  lc_settle : js C ();
  lc_close : js C ()
}.

(** ** Data *)

Record lane_task (item : Type) := LaneTask {
  lt_id : Z;
  lt_module : string;
  lt_member : string;
  lt_payload : string;
  lt_endpoints : list item;
  lt_arguments : list jsval
}.
Arguments LaneTask {item}.
Arguments lt_id {item}.
Arguments lt_module {item}.
Arguments lt_member {item}.
Arguments lt_payload {item}.
Arguments lt_endpoints {item}.
Arguments lt_arguments {item}.

Record current_task := Current {
  cu_id : Z;
  cu_cancelled : bool;
  cu_deadline : bool
}.

(** An effect of the guest's scheduler: [operation] and what a reply carries. *)
Inductive lane_effect :=
| LCheckpoint
| LReply (task : jsval) (status payload error : jsval) (deadline : bool)
| LNext
| LUnsupported (operation : string).

(** [PReply] and [PCancelled] are both posted as replies; the second is of a task that
    never left the inbox. *)
Inductive lane_post :=
| PReady
| PStarted (id : Z)
| PReply (id : Z) (status payload error : jsval) (deadline : bool)
| PCancelled (id : Z) (deadline : bool)
| PPersistence (requestId : Z)
| PFailed (error : string).

Inductive lane_answer (D : Type) :=
| ACheckpoint (cancelled deadline : bool)
| ATask (id : Z) (module_ member payload : string) (endpoints : list (D * option jsval))
| AError (error : string).
Arguments ACheckpoint {D}.
Arguments ATask {D}.
Arguments AError {D}.

Record lane (C item D : Type) := LaneState {
  ln_inbox : list (lane_task item);
  ln_deliver : option Z;
  ln_current : option current_task;
  ln_booted : bool;
  ln_announcedReady : bool;
  ln_nextPersistence : Z;
  ln_persistence : jmap Z ();
  ln_granted : list (Z * res bool);
  ln_turns : list Z;
  ln_channels : C;
  ln_answers : list (Z * lane_answer D);
  ln_posts : list lane_post
}.
Arguments LaneState {C item D}.
Arguments ln_inbox {C item D}.
Arguments ln_deliver {C item D}.
Arguments ln_current {C item D}.
Arguments ln_booted {C item D}.
Arguments ln_announcedReady {C item D}.
Arguments ln_nextPersistence {C item D}.
Arguments ln_persistence {C item D}.
Arguments ln_granted {C item D}.
Arguments ln_turns {C item D}.
Arguments ln_channels {C item D}.
Arguments ln_answers {C item D}.
Arguments ln_posts {C item D}.

Section Lane.
Context {C item D : Type} `{!LaneChannels C item D}.
Implicit Types l : lane C item D.

Definition set_tasks (inbox : list (lane_task item)) (deliver : option Z) (current : option current_task) l : lane C item D :=
  LaneState inbox deliver current (ln_booted l) (ln_announcedReady l) (ln_nextPersistence l) (ln_persistence l) (ln_granted l) (ln_turns l)
    (ln_channels l) (ln_answers l) (ln_posts l).
Definition set_flags (booted ready : bool) l : lane C item D :=
  LaneState (ln_inbox l) (ln_deliver l) (ln_current l) booted ready (ln_nextPersistence l) (ln_persistence l) (ln_granted l) (ln_turns l)
    (ln_channels l) (ln_answers l) (ln_posts l).
Definition set_persistence (next : Z) (requests : jmap Z ()) (granted : list (Z * res bool)) l : lane C item D :=
  LaneState (ln_inbox l) (ln_deliver l) (ln_current l) (ln_booted l) (ln_announcedReady l) next requests granted (ln_turns l)
    (ln_channels l) (ln_answers l) (ln_posts l).
Definition set_channels (c : C) l : lane C item D :=
  LaneState (ln_inbox l) (ln_deliver l) (ln_current l) (ln_booted l) (ln_announcedReady l) (ln_nextPersistence l)
    (ln_persistence l) (ln_granted l) (ln_turns l) c (ln_answers l) (ln_posts l).
Definition set_outputs (answers : list (Z * lane_answer D)) (posts : list lane_post) l : lane C item D :=
  LaneState (ln_inbox l) (ln_deliver l) (ln_current l) (ln_booted l) (ln_announcedReady l) (ln_nextPersistence l)
    (ln_persistence l) (ln_granted l) (ln_turns l) (ln_channels l) answers posts.

Definition set_turns (turns : list Z) l : lane C item D :=
  LaneState (ln_inbox l) (ln_deliver l) (ln_current l) (ln_booted l) (ln_announcedReady l) (ln_nextPersistence l)
    (ln_persistence l) (ln_granted l) turns (ln_channels l) (ln_answers l) (ln_posts l).

Definition on_channels {A} (m : js C A) : js (lane C item D) A := zoom ln_channels set_channels m.
Definition postMessage (p : lane_post) : js (lane C item D) () := modify (λ l, set_outputs (ln_answers l) (ln_posts l ++ [p]) l).
Definition answer (op : Z) (a : lane_answer D) : js (lane C item D) () :=
  modify (λ l, set_outputs (ln_answers l ++ [(op, a)]) (ln_posts l) l).

(** ** Operations *)

Definition failed (error : string) : js (lane C item D) () :=
  l ← gets (λ l, l);
  on_channels (lc_discard (ln_inbox l ≫= lt_endpoints)) ;;
  modify (λ l, set_tasks [] (ln_deliver l) (ln_current l) l) ;;
  on_channels lc_close ;;
  postMessage (PFailed error).

Definition requestPersistentStorage : js (lane C item D) Z :=
  l ← gets (λ l, l);
  let requestId := ln_nextPersistence l in
  modify (set_persistence (requestId + 1) (ln_persistence l) (ln_granted l)) ;;
  postMessage (PPersistence requestId) ;;
  modify (λ l, set_persistence (ln_nextPersistence l) (mset requestId () (ln_persistence l)) (ln_granted l) l) ;;
  mret requestId.

Definition persistence_answered (requestId : Z) (error : string) (granted : bool) : js (lane C item D) () :=
  l ← gets (λ l, l);
  match mget requestId (ln_persistence l) with
  | None => mret tt
  | Some _ =>
      modify (set_persistence (ln_nextPersistence l) (mdelete requestId (ln_persistence l))
        (ln_granted l ++ [(requestId, if bool_decide (error = "") then Ok granted else Throw error)]))
  end.

(** [endpoints.map((descriptor, index) => …)]. *)
Fixpoint with_arguments (endpoints : list D) (arguments : list jsval) : list (D * option jsval) :=
  match endpoints with
  | [] => []
  | d :: endpoints' => (d, head arguments) :: with_arguments endpoints' (tail arguments)
  end.

(** The rest of an effect once it has its task. *)
Definition begin_task (op : Z) (t : lane_task item) : js (lane C item D) () :=
  modify (λ l, set_tasks (ln_inbox l) (ln_deliver l) (Some (Current (lt_id t) false false)) l) ;;
  try_catch
    (on_channels lc_reset ;;
     endpoints ← on_channels (lc_adopt (lt_endpoints t));
     postMessage (PStarted (lt_id t)) ;;
     answer op (ATask (lt_id t) (lt_module t) (lt_member t) (lt_payload t) (with_arguments endpoints (lt_arguments t))))
    (λ error, answer op (AError error)).

(** [await nextTask()]. *)
Definition nextTask (op : Z) : js (lane C item D) () :=
  l ← gets (λ l, l);
  match ln_inbox l with
  | t :: inbox => modify (set_tasks inbox (ln_deliver l) (ln_current l)) ;; begin_task op t
  | [] => modify (set_tasks [] (Some op) (ln_current l))
  end.

Definition assign (t : lane_task item) : js (lane C item D) () :=
  l ← gets (λ l, l);
  match ln_deliver l with
  | Some op => modify (set_tasks (ln_inbox l) None (ln_current l)) ;; begin_task op t
  | None => modify (set_tasks (ln_inbox l ++ [t]) None (ln_current l))
  end.

(** The first task of an id, and the inbox without it. *)
Fixpoint take_task (id : Z) (inbox : list (lane_task item)) : option (lane_task item * list (lane_task item)) :=
  match inbox with
  | [] => None
  | t :: inbox' =>
      if decide (lt_id t = id) then Some (t, inbox')
      else match take_task id inbox' with Some (u, rest) => Some (u, t :: rest) | None => None end
  end.

(** Still queued here: nothing has loaded or invoked its function. *)
Definition cancel_queued (id : Z) (deadline : bool) : js (lane C item D) () :=
  l ← gets (λ l, l);
  match take_task id (ln_inbox l) with
  | Some (t, inbox) =>
      modify (set_tasks inbox (ln_deliver l) (ln_current l)) ;;
      on_channels (lc_discard (lt_endpoints t)) ;;
      postMessage (PCancelled (lt_id t) deadline)
  | None => mret tt
  end.

Definition cancel (id : Z) (deadline : bool) : js (lane C item D) () :=
  l ← gets (λ l, l);
  match ln_current l with
  | Some c =>
      if decide (cu_id c = id) then
        modify (set_tasks (ln_inbox l) (ln_deliver l) (Some (Current id true deadline))) ;;
        on_channels (lc_interrupt deadline)
      else cancel_queued id deadline
  | None => cancel_queued id deadline
  end.

(** [performLaneEffect]; a checkpoint is answered on the next turn of the event loop. *)
Definition announce_ready : js (lane C item D) () :=
  l ← gets (λ l, l);
  if ln_announcedReady l then mret tt else modify (set_flags (ln_booted l) true) ;; postMessage PReady.

Definition reply (task status payload error : jsval) (deadline : bool) : js (lane C item D) () :=
  l ← gets (λ l, l);
  match ln_current l with
  | Some c =>
      if bool_decide (task = VNum (NInt (cu_id c))) then
        on_channels lc_settle ;;
        postMessage (PReply (cu_id c) status payload error deadline) ;;
        modify (λ l, set_tasks (ln_inbox l) (ln_deliver l) None l)
      else mret tt
  | None => mret tt
  end.

Definition performLaneEffect (op : Z) (e : lane_effect) : js (lane C item D) () :=
  match e with
  | LCheckpoint => modify (λ l, set_turns (ln_turns l ++ [op]) l)
  | LReply task status payload error deadline =>
      try_catch (reply task status payload error deadline ;; announce_ready ;; nextTask op) (λ error, answer op (AError error))
  | LNext => announce_ready ;; nextTask op
  | LUnsupported operation => answer op (AError ("unsupported browser worker lane operation " +:+ operation))
  end.

Definition turned (op : Z) : js (lane C item D) () :=
  l ← gets (λ l, l);
  if bool_decide (op ∈ ln_turns l) then
    modify (set_turns (filter (λ o, o ≠ op) (ln_turns l))) ;;
    answer op (match ln_current l with Some c => ACheckpoint (cu_cancelled c) (cu_deadline c) | None => ACheckpoint false false end)
  else mret tt.

(** [boot(message)]; [outcome] is how the application it runs ends, if it does. *)
Definition boot (digest : jsval) : js (lane C item D) () :=
  l ← gets (λ l, l);
  if ln_booted l then mret tt
  else
    modify (set_flags true (ln_announcedReady l)) ;;
    if is_string digest then mret tt else failed "a worker lane was booted without its manifest digest".

(** ** Runs *)

Inductive lane_event :=
| EvBoot (digest : jsval)
| EvFailed (error : string)
| EvTask (t : lane_task item)
| EvCancel (id : Z) (deadline : bool)
| EvPersist
| EvPersistence (requestId : Z) (error : string) (granted : bool)
| EvEffect (op : Z) (e : lane_effect)
| EvTurn (op : Z).

Definition run_lane_event (ev : lane_event) : js (lane C item D) () :=
  match ev with
  | EvBoot digest => boot digest
  | EvFailed error => failed error
  | EvTask t => assign t
  | EvCancel id deadline => cancel id deadline
  | EvPersist => requestPersistentStorage ;; mret tt
  | EvPersistence requestId error granted => persistence_answered requestId error granted
  | EvEffect op e => performLaneEffect op e
  | EvTurn op => turned op
  end.

Fixpoint run_lane (evs : list lane_event) l : lane C item D :=
  match evs with
  | [] => l
  | ev :: evs' => run_lane evs' (run_lane_event ev l).2
  end.

Definition start_lane (c : C) : lane C item D := LaneState [] None None false false 1 [] [] [] c [] [].
End Lane.
Arguments lane_event : clear implicits.
