(* ===== verification/LaneSpec.v ===== *)
(** Properties of [Lane]: a task is started at most once and replied to at most once,
    and what is cancelled in the inbox is never started. *)

From S2P Require Import Prelude PortChannel ChannelHost Lane.

Section Spec.
Context {C item D : Type} `{!LaneChannels C item D}.
Implicit Types l : lane C item D.

Definition reply_id (p : lane_post) : option Z :=
  match p with PReply id _ _ _ _ | PCancelled id _ => Some id | _ => None end.
Definition started_id (p : lane_post) : option Z := match p with PStarted id => Some id | _ => None end.
Definition cancelled_id (p : lane_post) : option Z := match p with PCancelled id _ => Some id | _ => None end.
Definition ready_mark (p : lane_post) : option () := match p with PReady => Some () | _ => None end.

Definition queued l : list Z := lt_id <$> ln_inbox l.
Definition running l : list Z := option_list (cu_id <$> ln_current l).
Definition replied l : list Z := omap reply_id (ln_posts l).
Definition started l : list Z := omap started_id (ln_posts l).
Definition cancelled l : list Z := omap cancelled_id (ln_posts l).

(** A start has the announcement of the lane before it. *)
Definition announced_first (posts : list lane_post) : Prop :=
  ∀ pre id post, posts = pre ++ PStarted id :: post → PReady ∈ pre.

Lemma announced_snoc posts p :
  announced_first posts → (is_Some (started_id p) → PReady ∈ posts) → announced_first (posts ++ [p]).
Proof.
  intros Ho Hp pre id post E. destruct post as [|q post _] using rev_ind.
  - apply app_inj_tail in E as [<- ->]. apply Hp. by eexists.
  - rewrite app_comm_cons, app_assoc in E. apply app_inj_tail in E as [-> ->]. by eapply Ho.
Qed.

Lemma ready_marked posts : omap ready_mark posts = [()] → PReady ∈ posts.
Proof.
  intros E. assert (() ∈ omap ready_mark posts) as (p & Hp & Hm)%list_elem_of_omap by (rewrite E; left). by destruct p.
Qed.

Lemma among_cons (x : Z) xs A : x :: xs ⊆+ A → xs ⊆+ A.
Proof. intros <-. by apply submseteq_cons. Qed.
Lemma among_app (xs ys A : list Z) : xs ++ ys ⊆+ A → ys ⊆+ A.
Proof. intros <-. by apply submseteq_inserts_l. Qed.

Lemma among_NoDup (xs A : list Z) : xs ⊆+ A → NoDup A → NoDup xs.
Proof. intros [ys ->]%submseteq_Permutation Hnd. by apply NoDup_app in Hnd as (? & _ & _). Qed.

(** What the tasks of a lane are, out of those that arrived: each arrival counts once. *)
Record lane_wf (arrived : list Z) l : Prop := {
  lw_replies : queued l ++ running l ++ replied l ⊆+ arrived;
  lw_starts : queued l ++ started l ++ cancelled l ⊆+ arrived;
  lw_deliver : is_Some (ln_deliver l) → ln_announcedReady l = true;
  lw_order : announced_first (ln_posts l);
  lw_ready : omap ready_mark (ln_posts l) = if ln_announcedReady l then [()] else []
}.

Definition lane_view l := (ln_inbox l, ln_deliver l, ln_current l, ln_announcedReady l, ln_posts l).

Lemma wf_view A l l' : lane_view l' = lane_view l → lane_wf A l → lane_wf A l'.
Proof.
  intros [= E1 E2 E3 E4 E5] []. unfold queued, running, replied, started, cancelled in *.
  split; unfold queued, running, replied, started, cancelled; rewrite ?E1, ?E2, ?E3, ?E4, ?E5; done.
Qed.

Lemma wf_more A id l : lane_wf A l → lane_wf (A ++ [id]) l.
Proof. intros []. split; try done; by apply submseteq_inserts_r. Qed.

(** Code that keeps the view: the channel table and answers. *)
Lemma wf_channels A {B} (m : js C B) : preserves (lane_wf A) (on_channels m).
Proof. intros l Hl. unfold on_channels, zoom. destruct (m (ln_channels l)) as [r c]. by apply (wf_view A l). Qed.
Lemma wf_answer A op a : preserves (lane_wf A) (answer op a).
Proof. apply preserves_modify. intros l. by apply wf_view. Qed.

Lemma channels_view {B} (m : js C B) l : lane_view (on_channels m l).2 = lane_view l.
Proof. unfold on_channels, zoom. by destruct (m (ln_channels l)) as [r c]. Qed.

(** Posts that are no task's. *)
Lemma wf_post A p l :
  reply_id p = None → started_id p = None → ready_mark p = None → lane_wf A l → lane_wf A (postMessage p l).2.
Proof.
  intros H1 H2 H4 []. assert (cancelled_id p = None) as H3 by (by destruct p).
  unfold queued, running, replied, started, cancelled in *. split; unfold queued, running, replied, started, cancelled; simpl;
    rewrite ?omap_app; simpl; rewrite ?H1, ?H2, ?H3, ?H4, ?app_nil_r; try done.
  apply announced_snoc; [done|]. rewrite H2. by intros [? ?].
Qed.

(** ** Starting a task *)

(** A task that has left the inbox: its arrival is counted nowhere else. *)
Record fresh (A : list Z) (id : Z) l : Prop := {
  fr_wf : lane_wf A l;
  fr_replies : id :: queued l ++ replied l ⊆+ A;
  fr_starts : id :: queued l ++ started l ++ cancelled l ⊆+ A;
  fr_ready : ln_announcedReady l = true
}.

Lemma fresh_current A id l :
  fresh A id l → lane_wf A (set_tasks (ln_inbox l) (ln_deliver l) (Some (Current id false false)) l).
Proof.
  intros [[] Hr Hs Hk]. split; try done; unfold queued, running, replied, started, cancelled in *; simpl in *.
  by rewrite <- Permutation_middle.
Qed.

Lemma fresh_view A id l l' : lane_view l' = lane_view l → fresh A id l → fresh A id l'.
Proof.
  intros E []. split; [by eapply wf_view|..]; injection E as E1 E2 E3 E4 E5; unfold queued, replied, started, cancelled in *;
    rewrite ?E1, ?E2, ?E3, ?E4, ?E5; done.
Qed.

Lemma started_wf A id l :
  lane_wf A l → id :: queued l ++ started l ++ cancelled l ⊆+ A → ln_announcedReady l = true →
  lane_wf A (postMessage (PStarted id) l).2.
Proof.
  intros [] Hs Hk. unfold queued, running, replied, started, cancelled in *.
  split; unfold queued, running, replied, started, cancelled; simpl; rewrite ?omap_app; simpl; rewrite ?app_nil_r; try done.
  - rewrite <- (app_assoc (omap started_id _)). simpl. by rewrite <- Permutation_middle, <- Permutation_middle.
  - apply announced_snoc; [done|]. intros _. apply ready_marked. by rewrite lw_ready0, Hk.
Qed.

Lemma begin_task_wf A op t l : fresh A (lt_id t) l → lane_wf A (begin_task op t l).2.
Proof.
  intros Hf. pose proof (fresh_current _ _ _ Hf) as Hw. destruct Hf as [_ Hr Hs Hk]. unfold begin_task. erewrite bind_run by done.
  set (l1 := set_tasks _ _ _ l) in *. assert (lt_id t :: queued l1 ++ started l1 ++ cancelled l1 ⊆+ A) as Hs1 by done.
  assert (ln_announcedReady l1 = true) as Hk1 by done. clearbody l1. clear Hr Hs Hk.
  unfold try_catch, mbind, js_bind.
  pose proof (channels_view lc_reset l1) as V2. destruct (on_channels lc_reset l1) as [[[]|e] l2]; simpl in V2;
    [|by apply wf_answer, (wf_view A l1)].
  pose proof (channels_view (lc_adopt (lt_endpoints t)) l2) as V3. destruct (on_channels (lc_adopt (lt_endpoints t)) l2) as [[es|e] l3]; simpl in V3.
  2:{ apply wf_answer, (wf_view A l1); [congruence|done]. }
  assert (lane_view l3 = lane_view l1) as V by congruence. apply (wf_view A _ l3) in Hw; [|done].
  injection V as E1 _ _ E4 E5. apply (wf_view A (postMessage (PStarted (lt_id t)) l3).2); [done|]. apply started_wf; [done| |congruence].
  unfold queued, started, cancelled in *. by rewrite E1, E5.
Qed.

(** ** Operations *)

Lemma take_first A t inbox d l :
  lane_wf A l → ln_inbox l = t :: inbox → ln_announcedReady l = true → fresh A (lt_id t) (set_tasks inbox d (ln_current l) l).
Proof.
  intros [] Hi Hk. unfold queued, running, replied, started, cancelled in *. rewrite Hi in *. simpl in *.
  split; [|unfold queued, replied; simpl|done|done].
  - split; try done; unfold queued, running, replied, started, cancelled; simpl; by eapply among_cons.
  - etrans; [|exact lw_replies0]. apply submseteq_skip. solve_submseteq.
Qed.

Lemma nextTask_wf A op l : lane_wf A l → ln_announcedReady l = true → lane_wf A (nextTask op l).2.
Proof.
  intros Hw Hk. unfold nextTask. erewrite bind_run by done. destruct (ln_inbox l) as [|t inbox] eqn:Hi.
  - destruct Hw. unfold queued, running, replied, started, cancelled in *. rewrite Hi in *. by split.
  - erewrite bind_run by done. by apply begin_task_wf, take_first.
Qed.

Lemma assign_wf A t l : lane_wf A l → lane_wf (A ++ [lt_id t]) (assign t l).2.
Proof.
  intros Hw. unfold assign. erewrite bind_run by done.
  assert (∀ xs : list Z, xs ⊆+ A → lt_id t :: xs ⊆+ A ++ [lt_id t]) as Hmore.
  { intros xs Hxs. rewrite <- Permutation_cons_append. by apply submseteq_skip. }
  destruct (ln_deliver l) as [op|] eqn:Hd.
  - erewrite bind_run by done. apply begin_task_wf. pose proof (lw_deliver A l Hw) as Hk. rewrite Hd in Hk.
    pose proof Hw as [R S _ _ _]. apply (wf_more _ (lt_id t)) in Hw. destruct Hw. split; [| | |by apply Hk].
    + split; try done. by intros [? ?].
    + apply Hmore. etrans; [|exact R]. unfold queued, replied. simpl. solve_submseteq.
    + by apply Hmore.
  - destruct Hw. unfold queued, running, replied, started, cancelled in *.
    split; unfold queued, running, replied, started, cancelled; simpl; try done; rewrite fmap_app; simpl;
      rewrite <- app_assoc; simpl; rewrite <- Permutation_middle; by apply Hmore.
Qed.

Lemma take_task_perm id (inbox : list (lane_task item)) t rest : take_task id inbox = Some (t, rest) → lt_id t = id ∧ inbox ≡ₚ t :: rest.
Proof.
  revert t rest. induction inbox as [|u inbox IH]; intros t rest; simpl; [done|]. case_decide as Hu.
  - intros [= -> ->]. done.
  - destruct (take_task id inbox) as [[v rest']|]; [|done]. intros [= -> <-]. destruct (IH t rest' eq_refl) as [? E].
    split; [done|]. rewrite E. apply Permutation_swap.
Qed.

Lemma cancelled_wf A t rest d dl l l' :
  lane_wf A l → ln_inbox l ≡ₚ t :: rest → lane_view l' = lane_view (set_tasks rest d (ln_current l) l) → d = ln_deliver l →
  lane_wf A (postMessage (PCancelled (lt_id t) dl) l').2.
Proof.
  intros Hw Hp V ->. apply (wf_view A (postMessage (PCancelled (lt_id t) dl) (set_tasks rest (ln_deliver l) (ln_current l) l)).2).
  { injection V as E1 E2 E3 E4 E5. unfold lane_view. simpl. by rewrite E1, E2, E3, E4, E5. }
  destruct Hw. unfold queued, running, replied, started, cancelled in *.
  assert (lt_id <$> ln_inbox l ≡ₚ lt_id t :: (lt_id <$> rest)) as Hq by (by rewrite Hp).
  split; unfold queued, running, replied, started, cancelled; simpl; rewrite ?omap_app; simpl; rewrite ?app_nil_r; try done.
  - rewrite Hq in lw_replies0. simpl in lw_replies0. rewrite !app_assoc, <- Permutation_cons_append, <- app_assoc. done.
  - rewrite Hq in lw_starts0. simpl in lw_starts0. rewrite !app_assoc, <- Permutation_cons_append, <- app_assoc. done.
  - apply announced_snoc; [done|]. by intros [? ?].
Qed.

Lemma cancel_wf A id dl l : lane_wf A l → lane_wf A (cancel id dl l).2.
Proof.
  intros Hw. assert (lane_wf A (cancel_queued id dl l).2) as Hqueued.
  { unfold cancel_queued. erewrite bind_run by done. destruct (take_task id (ln_inbox l)) as [[t rest]|] eqn:Ht; [|done].
    apply take_task_perm in Ht as [_ Hp]. erewrite bind_run by done. unfold mbind, js_bind.
    pose proof (channels_view (lc_discard (lt_endpoints t)) (set_tasks rest (ln_deliver l) (ln_current l) l)) as V.
    destruct (on_channels _ _) as [[[]|e] l2]; simpl in V; [by eapply cancelled_wf|].
    apply (wf_view A (set_tasks rest (ln_deliver l) (ln_current l) l)); [done|]. destruct Hw.
    unfold queued, running, replied, started, cancelled in *.
    assert (lt_id <$> ln_inbox l ≡ₚ lt_id t :: (lt_id <$> rest)) as Hq by (by rewrite Hp). rewrite Hq in *. simpl in *.
    split; try done; unfold queued, running, replied, started, cancelled; simpl; by eapply among_cons. }
  unfold cancel. erewrite bind_run by done. destruct (ln_current l) as [c|] eqn:Hc; [|done]. case_decide as Hid; [|done].
  erewrite bind_run by done. apply wf_channels. destruct Hw. unfold queued, running, replied, started, cancelled in *.
  rewrite Hc in *. split; unfold queued, running, replied, started, cancelled; simpl in *; rewrite <- ?Hid; done.
Qed.

Lemma announce_wf A l : lane_wf A l → ∃ l', announce_ready l = (Ok tt, l') ∧ lane_wf A l' ∧ ln_announcedReady l' = true.
Proof.
  intros Hw. unfold announce_ready. erewrite bind_run by done. destruct (ln_announcedReady l) eqn:Hk; [by exists l|].
  erewrite bind_run by done. eexists. split; [done|]. split; [|done]. destruct Hw. rewrite Hk in *.
  unfold queued, running, replied, started, cancelled in *.
  split; unfold queued, running, replied, started, cancelled; simpl; rewrite ?omap_app; simpl; rewrite ?app_nil_r; try done.
  - apply announced_snoc; [done|]. by intros [? ?].
  - by rewrite lw_ready0.
Qed.

Lemma reply_wf A task status payload error dl l : lane_wf A l → lane_wf A (reply task status payload error dl l).2.
Proof.
  intros Hw. unfold reply. erewrite bind_run by done. destruct (ln_current l) as [c|] eqn:Hc; [|done].
  case_bool_decide; [|done]. unfold mbind at 1, js_bind at 1. pose proof (channels_view lc_settle l) as V.
  destruct (on_channels lc_settle l) as [[[]|e] l2]; simpl in V; [|by apply (wf_view A l)]. erewrite bind_run by done.
  apply (wf_view A (set_tasks (ln_inbox l) (ln_deliver l) None (postMessage (PReply (cu_id c) status payload error dl) l).2)).
  { injection V as E1 E2 E3 E4 E5. unfold lane_view. simpl. by rewrite E1, E2, E4, E5. }
  destruct Hw. unfold queued, running, replied, started, cancelled in *. rewrite Hc in *. simpl in *.
  split; unfold queued, running, replied, started, cancelled; simpl; rewrite ?omap_app; simpl; rewrite ?app_nil_r; try done.
  - rewrite <- Permutation_middle in lw_replies0. rewrite !app_assoc, <- Permutation_cons_append. done.
  - apply announced_snoc; [done|]. by intros [? ?].
Qed.

Lemma lane_failed_wf A e l : lane_wf A l → lane_wf A (failed e l).2.
Proof.
  intros Hw. unfold failed. erewrite bind_run by done. unfold mbind, js_bind.
  pose proof (wf_channels A (lc_discard (ln_inbox l ≫= lt_endpoints)) l Hw) as H1.
  destruct (on_channels _ l) as [[[]|e1] l1]; simpl in *; [|done].
  assert (lane_wf A (set_tasks [] (ln_deliver l1) (ln_current l1) l1)) as H2.
  { destruct H1. unfold queued, running, replied, started, cancelled in *. split; try done; simpl; by eapply among_app. }
  pose proof (wf_channels A lc_close _ H2) as H3. destruct (on_channels lc_close _) as [[[]|e2] l3]; simpl in *; [|done].
  by apply wf_post.
Qed.

Lemma effect_wf A op e l : lane_wf A l → lane_wf A (performLaneEffect op e l).2.
Proof.
  intros Hw. assert (∀ l, lane_wf A l → lane_wf A ((announce_ready ;; nextTask op) l).2) as Hnext.
  { intros l0 H0. destruct (announce_wf A l0 H0) as (l1 & E & H1 & Hk). erewrite bind_run by exact E. by apply nextTask_wf. }
  destruct e as [|task status payload error dl| |operation]; cbn [performLaneEffect].
  - by apply (wf_view A l).
  - apply (preserves_try_catch (lane_wf A)); [|intros e; apply wf_answer|done].
    intros l0 H0. pose proof (reply_wf A task status payload error dl l0 H0) as H1. unfold mbind at 1, js_bind at 1.
    destruct (reply task status payload error dl l0) as [[[]|e] l1]; [by apply Hnext|done].
  - by apply Hnext.
  - by apply wf_answer.
Qed.

Definition arrives (ev : lane_event item) : list Z := match ev with EvTask t => [lt_id t] | _ => [] end.

Lemma lane_event_wf A ev l : lane_wf A l → lane_wf (A ++ arrives ev) (run_lane_event ev l).2.
Proof.
  intros Hw. destruct ev as [digest|e|t|id dl| |r e g|op e|op]; cbn [arrives run_lane_event]; rewrite ?app_nil_r.
  - unfold boot. erewrite bind_run by done. destruct (ln_booted l); [done|]. erewrite bind_run by done.
    assert (lane_wf A (set_flags true (ln_announcedReady l) l)) by (by apply (wf_view A l)).
    destruct (is_string digest); [done|by apply lane_failed_wf].
  - by apply lane_failed_wf.
  - by apply assign_wf.
  - by apply cancel_wf.
  - unfold requestPersistentStorage. unfold mbind, js_bind. simpl.
    apply (wf_view A (postMessage (PPersistence (ln_nextPersistence l)) l).2); [done|]. by apply wf_post.
  - unfold persistence_answered. erewrite bind_run by done. destruct (mget r (ln_persistence l)); [|done]. by apply (wf_view A l).
  - by apply effect_wf.
  - unfold turned. erewrite bind_run by done. case_bool_decide; [|done]. erewrite bind_run by done. apply wf_answer.
    by apply (wf_view A l).
Qed.

Lemma run_lane_wf A evs l : lane_wf A l → lane_wf (A ++ (evs ≫= arrives)) (run_lane evs l).
Proof.
  revert A l. induction evs as [|ev evs IH]; intros A l Hw; [by rewrite app_nil_r|]. cbn [run_lane].
  rewrite bind_cons, app_assoc. by apply IH, lane_event_wf.
Qed.

(** C12 A lane starts each task it was given at most once and replies to it at most once, whatever the pool sends and cancels and
    whatever the guest asks and replies, also when adopting a task's channels fails.  Ids may come more than once, so tasks are
    counted: the tasks still queued, those started and those cancelled in the queue together are among the tasks that arrived, each
    arrival counted once, and so are those still queued, the current one and those replied to; the lane announces itself at most
    once, and before every start.  When the arriving ids are distinct, no id is started or replied to twice, one cancelled in the
    queue is never started, and one still queued was neither started nor replied to. *)
Theorem lane_tasks_once c evs :
  let l := run_lane evs (start_lane c) in
  queued l ++ started l ++ cancelled l ⊆+ evs ≫= arrives ∧
  queued l ++ running l ++ replied l ⊆+ evs ≫= arrives ∧
  (∀ pre id post, ln_posts l = pre ++ PStarted id :: post → PReady ∈ pre) ∧
  (length (omap ready_mark (ln_posts l)) <= 1)%nat ∧
  (NoDup (evs ≫= arrives) → NoDup (queued l ++ started l ++ cancelled l) ∧ NoDup (queued l ++ running l ++ replied l)).
Proof.
  intros l. assert (lane_wf (evs ≫= arrives) l) as [R S T O K].
  { apply (run_lane_wf [] evs). split; simpl; try constructor; try done. intros [|? ?] ? ? [=]. }
  split; [done|]. split; [done|]. split; [done|]. split; [rewrite K; destruct (ln_announcedReady l); simpl; lia|].
  intros Hnd. split; by eapply among_NoDup.
Qed.

(** A cancelled task sees it at its next checkpoint. *)
Lemma cancel_reaches_checkpoint l task dl op :
  ln_current l = Some task → op ∉ ln_turns l →
  ∃ answers, ln_answers (run_lane [EvCancel (cu_id task) dl; EvEffect op LCheckpoint; EvTurn op] l) =
    answers ++ [(op, ACheckpoint true dl)].
Proof.
  intros Hc Ho. cbn [run_lane run_lane_event performLaneEffect]. unfold cancel. erewrite bind_run by done. rewrite Hc, decide_True by done.
  erewrite bind_run by done. set (l1 := set_tasks _ _ _ l).
  assert (ln_current (on_channels (lc_interrupt dl) l1).2 = Some (Current (cu_id task) true dl) ∧
          ln_turns (on_channels (lc_interrupt dl) l1).2 = ln_turns l) as [E1 E2].
  { unfold on_channels, zoom. by destruct (lc_interrupt dl (ln_channels l1)). }
  set (l2 := (on_channels (lc_interrupt dl) l1).2) in *. clearbody l2.
  unfold turned. erewrite bind_run by done. simpl. rewrite bool_decide_true by (apply elem_of_app; right; by apply list_elem_of_singleton).
  erewrite bind_run by done. simpl. rewrite E1. simpl. by eexists.
Qed.
End Spec.

(** The lane's own channel table. *)
#[export] Instance host_lane_channels : LaneChannels host transfer_item description := {
  lc_adopt := adopt;
  lc_discard := discard;
  lc_interrupt := interrupt;
  lc_reset := reset;
  lc_settle := settle;
  lc_close := close_host
}.

Definition demo_task (id : Z) : lane_task transfer_item := LaneTask id "app" "run" "" [] [].
Definition demo_lane_events : list (lane_event transfer_item) :=
  [EvBoot (VStr "digest"); EvTask (demo_task 1); EvTask (demo_task 2); EvTask (demo_task 3); EvEffect 1 LNext; EvCancel 2 false;
   EvEffect 2 (LReply (VNum (NInt 1)) (VStr "done") VUndef VUndef false)].

Lemma lane_tasks_once_witness :
  let l := run_lane demo_lane_events (start_lane (C:=host) (D:=description) createChannelHost) in
  NoDup (queued l ++ running l ++ replied l) ∧ running l ++ replied l = [3; 2; 1] ∧ started l = [1; 3].
Proof.
  split; [|vm_compute; split; reflexivity].
  refine (proj2 (proj2 (proj2 (proj2 (proj2 (lane_tasks_once createChannelHost demo_lane_events)))) _)).
  vm_compute. repeat (constructor; [set_solver|]). constructor.
Defined.
