(* ===== verification/PoolLanes.v ===== *)
(** The worker pool with its lanes, [src/runtime/wasm/worker-pool.mjs] and
    [src/runtime/luajit/worker-lane.mjs] together: the messages each posts are what the other
    receives, in the order they were posted.

    What the pool posted to a lane is in its log, and what a lane posted is in its list of posts, so
    what is on the way is what lies past the number already received.  A lane that was terminated
    runs no more and its messages are not delivered; one that was opened runs its guest, receives
    and fails as it likes. *)

From S2P Require Import Prelude Lane WorkerPool WorkerPoolInvariant WorkerPoolRun.

Section System.
Context {CP CL item D : Type} `{!ChannelService CP item} `{!LaneChannels CL item D}
  (has_channels : bool) (pf : platform).

(** [sy_thrown] marks a lane one of whose messages or events ended in an error nothing caught, on
    either side. *)
Record system := System {
  sy_pool : pool CP item;
  sy_lane : Z → Lane.lane CL item D;
  sy_received : Z → nat;
  sy_heard : Z → nat;
  sy_thrown : Z → bool
}.

Definition start_system (p : pool CP item) (c : CL) : system :=
  System p (λ _, start_lane c) (λ _, 0%nat) (λ _, 0%nat) (λ _, false).

(** ** Messages *)

(** What was posted to a lane. *)
Definition posts_to (l : Z) (p : pool CP item) : list (lane_post item) :=
  omap (λ e, match e with EvPosted l' m => if decide (l' = l) then Some m else None | _ => None end) (p_log p).

Definition terminated (l : Z) (p : pool CP item) : bool :=
  existsb (λ e, match e with EvTerminated l' => l' =? l | _ => false end) (p_log p).

(** A Worker that was constructed and not terminated. *)
Definition live (l : Z) (p : pool CP item) : bool := mhas l (p_laneObjects p) && negb (terminated l p).

(** A message of the pool as the lane's listener reads it; [digest] is what the boot message carries. *)
Definition received (digest : jsval) (m : lane_post item) : option (lane_event item) :=
  match m with
  | PostBoot => Some (EvBoot digest)
  | PostTask id module_ member payload arguments endpoints => Some (EvTask (LaneTask id module_ member payload endpoints arguments))
  | PostCancel id deadline => Some (EvCancel id deadline)
  | PostStorage requestId granted =>
      match to_integer requestId, granted with
      | Some r, Ok b => Some (EvPersistence r "" b)
      | Some r, Throw error => Some (EvPersistence r error false)
      | None, _ => None
      end
  end.

(** A message of a lane as the pool's listener reads it. *)
Definition heard (m : Lane.lane_post) : lane_message :=
  match m with
  | PReady => MReady
  | PStarted id => MStarted (VNum (NInt id))
  | PReply id status payload error deadline => MReply (VNum (NInt id)) status payload error (VBool deadline)
  | PCancelled id deadline => MReply (VNum (NInt id)) (VStr "cancelled") VUndef VUndef (VBool deadline)
  | PPersistence requestId => MStorage (VNum (NInt requestId))
  | PFailed error => MFailed error true
  end.

(** ** Steps *)

Inductive sys_event :=
| SyPool (op : pool_op)
| SyReceive (l : Z) (digest : jsval)
| SyHear (l : Z)
| SyEffect (l op : Z) (e : lane_effect)
| SyTurn (l op : Z)
| SyPersist (l : Z)
| SyFailed (l : Z) (error : string).

Definition fset {A} (f : Z → A) (l : Z) (v : A) : Z → A := λ l', if decide (l' = l) then v else f l'.

Definition set_thrown {A} (l : Z) (r : res A) (s : Z → bool) : Z → bool := fset s l (s l || negb (is_ok r)).

(** A lane handles an event. *)
Definition lane_handles (l : Z) (ev : lane_event item) (n : nat) (s : system) : system :=
  let '(r, ln) := run_lane_event ev (sy_lane s l) in
  System (sy_pool s) (fset (sy_lane s) l ln) (fset (sy_received s) l n) (sy_heard s) (set_thrown l r (sy_thrown s)).

(** The pool's own operations: those that are not a lane's messages. *)
Definition own_op (p : pool CP item) (op : pool_op) : bool :=
  match op with OpMessage _ _ => false | OpError l _ => live l p | OpStorage l _ _ => live l p | _ => true end.

Definition sys_step (s : system) (ev : sys_event) : system :=
  match ev with
  | SyPool op =>
      if own_op (sy_pool s) op then
        System (run_pool_op has_channels pf op (sy_pool s)).2 (sy_lane s) (sy_received s) (sy_heard s) (sy_thrown s)
      else s
  | SyReceive l digest =>
      if live l (sy_pool s) then
        match posts_to l (sy_pool s) !! sy_received s l with
        | Some m =>
            match received digest m with
            | Some ev => lane_handles l ev (S (sy_received s l)) s
            | None => System (sy_pool s) (sy_lane s) (fset (sy_received s) l (S (sy_received s l))) (sy_heard s) (sy_thrown s)
            end
        | None => s
        end
      else s
  | SyHear l =>
      if live l (sy_pool s) then
        match ln_posts (sy_lane s l) !! sy_heard s l with
        | Some m =>
            let '(r, p) := run_pool_op has_channels pf (OpMessage l (heard m)) (sy_pool s) in
            System p (sy_lane s) (sy_received s) (fset (sy_heard s) l (S (sy_heard s l))) (set_thrown l r (sy_thrown s))
        | None => s
        end
      else s
  | SyEffect l op e => if live l (sy_pool s) then lane_handles l (EvEffect op e) (sy_received s l) s else s
  | SyTurn l op => if live l (sy_pool s) then lane_handles l (EvTurn op) (sy_received s l) s else s
  | SyPersist l => if live l (sy_pool s) then lane_handles l EvPersist (sy_received s l) s else s
  | SyFailed l error => if live l (sy_pool s) then lane_handles l (EvFailed error) (sy_received s l) s else s
  end.

Definition run_system (s : system) (evs : list sys_event) : system := foldl sys_step s evs.
End System.
Arguments System {CP CL item D}.
Arguments sy_pool {CP CL item D}.
Arguments sy_lane {CP CL item D}.
Arguments sy_received {CP CL item D}.
Arguments sy_heard {CP CL item D}.
Arguments sy_thrown {CP CL item D}.
Arguments system : clear implicits.
