(* ===== verification/PoolLanesSpec.v ===== *)
(** The pool and its lanes agree ([PoolLanes]): what the pool believes a lane runs is what the lane
    has, wherever the task or its reply is on its way. *)

From S2P Require Import Prelude Lane LaneSpec WorkerPool WorkerPoolInvariant WorkerPoolRun WorkerPoolResults PoolLanes.

(** ** What is on a lane *)

Section Held.
Context {item : Type}.

(** What a task is to both sides: id, module, member, payload, arguments. *)
Definition work : Type := Z * string * string * string * list jsval.
Definition task_work (k : task item) : work := (k_id k, k_module k, k_member k, k_payload k, k_arguments k).
Definition lane_work (t : Lane.lane_task item) : work := (lt_id t, lt_module t, lt_member t, lt_payload t, lt_arguments t).
Definition work_id (w : work) : Z := w.1.1.1.1.
Definition post_work (m : lane_post item) : option work :=
  match m with PostTask id module_ member payload arguments _ => Some (id, module_, member, payload, arguments) | _ => None end.

(** Whether a cancellation in [wire] comes to a lane that has a task by then. *)
Fixpoint hits (present : bool) (wire : list (lane_post item)) : bool :=
  match wire with
  | [] => false
  | PostTask _ _ _ _ _ _ :: wire' => hits true wire'
  | PostCancel _ _ :: wire' => present || hits present wire'
  | _ :: wire' => hits present wire'
  end.

(** A message that is about no task. *)
Definition neutral (m : lane_post item) : bool := match m with PostBoot | PostStorage _ _ => true | _ => false end.

(** What a lane posted before it gave up, and whether it did. *)
Fixpoint before_failed (out : list Lane.lane_post) : list Lane.lane_post :=
  match out with [] => [] | PFailed _ :: _ => [] | m :: out' => m :: before_failed out' end.
Definition gave_up (out : list Lane.lane_post) : bool := existsb (λ m, match m with PFailed _ => true | _ => false end) out.

(** A lane as the pool has to do with it: the messages it has received, its inbox, its task, whether it announced itself, the messages it
    posted and the pool has not heard, and whether every handler returned. *)
Record side := Side {
  sd_received : nat;
  sd_inbox : list (Lane.lane_task item);
  sd_current : option current_task;
  sd_announced : bool;
  sd_out : list Lane.lane_post;
  sd_fine : bool
}.

Definition carried (wire : list (lane_post item)) (s : side) : list work := omap post_work wire ++ (lane_work <$> sd_inbox s).
Definition held (wire : list (lane_post item)) (s : side) : list Z :=
  (work_id <$> carried wire s) ++ option_list (cu_id <$> sd_current s) ++ omap reply_id (sd_out s).
Definition present (s : side) : bool := negb (bool_decide (sd_inbox s = [])) || bool_decide (is_Some (sd_current s)).

Lemma hits_app b wire m :
  hits b (wire ++ [m]) = hits b wire || match m with PostCancel _ _ => b || negb (bool_decide (omap post_work wire = [])) | _ => false end.
Proof.
  revert b. induction wire as [|m' wire IH]; intros b; simpl.
  - destruct m; simpl; by rewrite ?orb_false_r.
  - destruct m'; simpl; rewrite IH; destruct m, b; simpl; rewrite ?orb_true_r, ?orb_false_r; try done.
Qed.

Lemma hits_neutral b wire noise : forallb neutral noise = true → hits b (wire ++ noise) = hits b wire.
Proof.
  revert wire. induction noise as [|m noise IH]; intros wire Hn; [by rewrite app_nil_r|]. simpl in Hn. apply andb_true_iff in Hn as [Hm Hn].
  change (m :: noise) with ([m] ++ noise). rewrite app_assoc, IH, hits_app by done. by destruct m; rewrite ?orb_false_r.
Qed.

Lemma work_neutral noise : forallb neutral noise = true → omap post_work noise = [].
Proof. induction noise as [|m noise IH]; intros Hn; [done|]. simpl in Hn. apply andb_true_iff in Hn as [Hm Hn]. destruct m; try done; by apply IH. Qed.

Lemma hits_no_work wire : omap post_work wire = [] → hits false wire = false.
Proof. induction wire as [|m wire IH]; [done|]. by destruct m. Qed.

Lemma held_app wire wire' s : held (wire ++ wire') s ≡ₚ (work_id <$> omap post_work wire') ++ held wire s.
Proof.
  unfold held, carried. rewrite omap_app, !fmap_app, <- !app_assoc.
  rewrite !(app_assoc (work_id <$> omap post_work wire)). rewrite (Permutation_app_comm (work_id <$> omap post_work wire)). by rewrite <- !app_assoc.
Qed.

Lemma held_nil wire s : held wire s = [] → carried wire s = [] ∧ sd_current s = None ∧ omap reply_id (sd_out s) = [] ∧ present s = false.
Proof.
  unfold held, carried, present. intros H. apply app_nil in H as [H1 H2]. apply app_nil in H2 as [H2 H3].
  rewrite fmap_app in H1. apply app_nil in H1 as [H0 H1]. apply fmap_nil_inv in H0, H1. apply fmap_nil_inv in H1.
  destruct (sd_current s); [done|]. rewrite H0, H1. done.
Qed.
End Held.
Arguments side : clear implicits.

(** ** The agreement *)

Section Agreement.
Context {CP item : Type} `{!ChannelService CP item} `{!ChannelLaws CP item} (has_channels : bool) (pf : platform).
Implicit Types (p : pool CP item) (k : task item) (x : lane) (s : side item).

(** Numbers are handed out once, and a task's id is an integer a message can carry. *)
Record base p : Prop := {
  bs_lanes : ∀ l x, mget l (p_laneObjects p) = Some x → l < p_nextLane p;
  bs_tasks : ∀ t k, mget t (p_objects p) = Some k → t < p_nextTask p;
  bs_safe : ∀ t k, mget t (p_objects p) = Some k → to_safe (VNum (NInt (k_id k))) = Some (k_id k)
}.

(** The task a lane has been given: one that is assigned to a lane that is ready. *)
Definition busy p x : option (task item) := t ← l_task x; if l_ready x then mget t (p_objects p) else None.

Definition wire l s p : list (lane_post item) := drop (sd_received s) (posts_to l p).

(** What holds of a lane that gave nothing up. *)
Record carries (w : list (lane_post item)) s (k : option (task item)) : Prop := {
  ca_once : held w s = [] ∨ held w s = option_list (k_id <$> k);
  ca_exact : sd_fine s = true → held w s = option_list (k_id <$> k);
  ca_hits : hits (present s) w = true → ∃ k', k = Some k' ∧ k_cancelRequested k' = true;
  ca_cancelled : (∃ c, sd_current s = Some c ∧ cu_cancelled c = true) → ∃ k', k = Some k' ∧ k_cancelRequested k' = true;
  ca_work : ∀ v, v ∈ carried w s → task_work <$> k = Some v
}.

Record agree l s p x : Prop := {
  ag_received : (sd_received s <= length (posts_to l p))%nat;
  ag_object : ∀ t, l_task x = Some t → is_Some (mget t (p_objects p));
  ag_ready : omap ready_mark (sd_out s) = if sd_announced s && negb (l_ready x) then [()] else [];
  ag_announced : l_ready x = true → sd_announced s = true;
  ag_replies : omap reply_id (before_failed (sd_out s)) = [] ∨
    omap reply_id (before_failed (sd_out s)) = option_list (k_id <$> busy p x);
  ag_carries : gave_up (sd_out s) = false → carries (wire l s p) s (busy p x)
}.

Definition unopened l s p : Prop :=
  forallb neutral (posts_to l p) = true ∧ sd_received s = 0%nat ∧ sd_inbox s = [] ∧ sd_current s = None ∧ sd_announced s = false ∧ sd_out s = [].

Definition gone l p : Prop := terminated l p = true ∨ ∃ x, mget l (p_laneObjects p) = Some x ∧ is_Some (l_failed x).

Definition coupled l s p : Prop :=
  gone l p ∨ match mget l (p_laneObjects p) with Some x => agree l s p x | None => unopened l s p end.

Definition J l s p : Prop := base p ∧ coupled l s p.

(** ** Steps the agreement does not see *)

Record frames l p p' : Prop := {
  fr_lane : mget l (p_laneObjects p') = mget l (p_laneObjects p);
  fr_posts : ∃ noise, posts_to l p' = posts_to l p ++ noise ∧ forallb neutral noise = true;
  fr_gone : terminated l p = true → terminated l p' = true;
  fr_objects : ∀ t k, mget t (p_objects p) = Some k → ∃ k', mget t (p_objects p') = Some k' ∧ task_work k' = task_work k ∧
    (k_cancelRequested k = true → k_cancelRequested k' = true);
  fr_base : base p → base p'
}.

Lemma frames_refl l p : frames l p p.
Proof. split; eauto. exists []. by rewrite app_nil_r. Qed.

Lemma frames_trans l p1 p2 p3 : frames l p1 p2 → frames l p2 p3 → frames l p1 p3.
Proof.
  intros [L1 (n1 & P1 & N1) G1 O1 B1] [L2 (n2 & P2 & N2) G2 O2 B2]. split; [congruence| |auto| |auto].
  - exists (n1 ++ n2). rewrite P2, P1, <- app_assoc. split; [done|]. by rewrite forallb_app, N1, N2.
  - intros t k Hk. destruct (O1 t k Hk) as (k1 & Hk1 & W1 & C1). destruct (O2 t k1 Hk1) as (k2 & Hk2 & W2 & C2).
    exists k2. split; [done|]. split; [congruence|auto].
Qed.

Lemma frames_busy l p p' x :
  frames l p p' → (∀ t, l_task x = Some t → is_Some (mget t (p_objects p))) →
  task_work <$> busy p' x = task_work <$> busy p x ∧
  (∀ k, busy p x = Some k → k_cancelRequested k = true → ∃ k', busy p' x = Some k' ∧ k_cancelRequested k' = true).
Proof.
  intros [_ _ _ Ho _] Hx. unfold busy. destruct (l_task x) as [t|]; [|done]. destruct (l_ready x); [|done].
  destruct (Hx t eq_refl) as [k Hk]. destruct (Ho t k Hk) as (k' & Hk' & Hw & Hc). cbn. rewrite Hk, Hk'. cbn. split; [by rewrite Hw|].
  intros ? [= <-] ?. eauto.
Qed.

Lemma work_same_id (k k' : option (task item)) : task_work <$> k' = task_work <$> k → k_id <$> k' = k_id <$> k.
Proof. destruct k, k'; cbn; intros H; try done. unfold task_work in H. congruence. Qed.

(** The same lane, with a task that is the same work. *)
Lemma carries_task (w noise : list (lane_post item)) s (k k' : option (task item)) :
  forallb neutral noise = true → task_work <$> k' = task_work <$> k →
  (∀ k0, k = Some k0 → k_cancelRequested k0 = true → ∃ k1, k' = Some k1 ∧ k_cancelRequested k1 = true) →
  carries w s k → carries (w ++ noise) s k'.
Proof.
  intros Hn Hw Hc [H1 H2 H3 H4 H5].
  assert (carried (w ++ noise) s = carried w s) as Ec by (unfold carried; by rewrite omap_app, (work_neutral noise Hn), app_nil_r).
  assert (held (w ++ noise) s = held w s) as Eh by (unfold held; by rewrite Ec).
  assert (option_list (k_id <$> k') = option_list (k_id <$> k)) as Ei.
  { by rewrite (work_same_id k k'). }
  split; rewrite ?Eh, ?Ec, ?Ei, ?hits_neutral by done; [done|done| | |by rewrite Hw].
  - intros H. destruct (H3 H) as (k0 & -> & ?). eauto.
  - intros H. destruct (H4 H) as (k0 & -> & ?). eauto.
Qed.

Lemma wire_app l s p p' noise :
  (sd_received s <= length (posts_to l p))%nat → posts_to l p' = posts_to l p ++ noise → wire l s p' = wire l s p ++ noise.
Proof. intros Hr Hp. unfold wire. rewrite Hp. by apply drop_app_le. Qed.

Lemma coupled_frames l s p p' : frames l p p' → coupled l s p → coupled l s p'.
Proof.
  intros Hf [[G|(x & Hx & Hfail)]|H].
  - left; left. by apply Hf.
  - left; right. exists x. by rewrite (fr_lane _ _ _ Hf).
  - right. rewrite (fr_lane _ _ _ Hf). destruct (fr_posts _ _ _ Hf) as (noise & Hp & Hn). destruct (mget l (p_laneObjects p)) as [x|] eqn:Hx.
    + destruct H as [R O Y A Q C]. destruct (frames_busy l p p' x Hf O) as [Hw Hc]. split.
      * rewrite Hp, length_app. lia.
      * intros t Ht. destruct (O t Ht) as [k Hk]. destruct (fr_objects _ _ _ Hf t k Hk) as (k' & ? & _). by exists k'.
      * done.
      * done.
      * replace (k_id <$> busy p' x) with (k_id <$> busy p x); [done|].
        symmetry. by apply work_same_id.
      * intros Hg. rewrite (wire_app l s p p' noise R Hp). by eapply carries_task; [..|apply C].
    + destruct H as (N & ?). split; [|done]. by rewrite Hp, forallb_app, N, Hn.
Qed.

Lemma J_frames l s p p' : frames l p p' → J l s p → J l s p'.
Proof. intros Hf [Hb Hc]. split; [by apply Hf|by eapply coupled_frames]. Qed.

Definition framing l {A} (m : js (pool CP item) A) : Prop := ∀ p0, preserves (frames l p0) m.

Lemma framing_step l {A} (m : js (pool CP item) A) : (∀ p, frames l p (m p).2) → framing l m.
Proof. intros H p0 p Hp. by eapply frames_trans. Qed.

Lemma framing_J l s {A} (m : js (pool CP item) A) : framing l m → preserves (J l s) m.
Proof. intros Hm p Hp. eapply J_frames; [|exact Hp]. apply Hm, frames_refl. Qed.

(** Updates of the pool's other tables. *)
Lemma frames_same l p p' :
  p_laneObjects p' = p_laneObjects p → p_objects p' = p_objects p → p_log p' = p_log p →
  p_nextLane p <= p_nextLane p' → p_nextTask p <= p_nextTask p' → frames l p p'.
Proof.
  intros E1 E2 E3 N1 N2. split.
  - by rewrite E1.
  - exists []. unfold posts_to. by rewrite E3, app_nil_r.
  - unfold terminated. by rewrite E3.
  - rewrite E2. eauto.
  - intros []. split; rewrite ?E1, ?E2; [|..|done].
    + intros l' x Hx. pose proof (bs_lanes0 l' x Hx). lia.
    + intros t k Hk. pose proof (bs_tasks0 t k Hk). lia.
Qed.

Lemma framing_modify l f : (∀ p, frames l p (f p)) → framing l (modify f).
Proof. intros Hf. apply framing_step. apply Hf. Qed.

Lemma posts_log l evs p : posts_to l (log evs p) = posts_to l p ++ posts_to l (log evs (Pool [] [] [] [] [] [] [] true 0 0 0 0 (p_channels p) [])).
Proof. unfold posts_to. simpl. by rewrite omap_app. Qed.

Lemma terminated_log l evs p : terminated l p = true → terminated l (log evs p) = true.
Proof. unfold terminated. simpl. intros H. by rewrite existsb_app, H. Qed.

(** What is logged and is no message of a task to the lane. *)
Definition aside l (e : pool_event item) : bool := match e with EvPosted l' m => neutral m || negb (l' =? l) | _ => true end.

Lemma frames_log l evs p : forallb (aside l) evs = true → frames l p (log evs p).
Proof.
  intros He. split; eauto.
  - rewrite posts_log. eexists. split; [done|]. unfold posts_to. simpl. clear p. induction evs as [|e evs IH]; [done|].
    simpl in He. apply andb_true_iff in He as [He Hes]. specialize (IH Hes). destruct e as [l' m| |]; simpl; [|done..].
    case_decide as Hl; [|done]. simpl in He. subst. rewrite Z.eqb_refl, orb_false_r in He. simpl. by rewrite He.
  - apply terminated_log.
  - by intros [].
Qed.

Lemma framing_log l evs : forallb (aside l) evs = true → framing l (modify (log evs)).
Proof. intros He. apply framing_modify. intros p. by apply frames_log. Qed.

Lemma framing_upd_task l t f :
  (∀ k, task_work (f k) = task_work k ∧ (k_cancelRequested k = true → k_cancelRequested (f k) = true)) → framing l (upd_task t f).
Proof.
  intros Hf. apply framing_step. intros p. unfold upd_task, modify. simpl. destruct (mget t (p_objects p)) as [k|] eqn:Hk; [|apply frames_refl].
  split; [done| |done| |]; simpl.
  - exists []. by rewrite app_nil_r.
  - intros t' k' Hk'. destruct (decide (t = t')) as [->|Hne]; [|exists k'; by rewrite mget_mset_ne].
    simplify_eq. exists (f k). rewrite mget_mset_eq. split; [done|]. apply Hf.
  - intros []. split; simpl; [done|..]; intros t' k' [[-> ->]|[_ H]]%mget_mset_Some; eauto.
    destruct (Hf k) as [Hw _]. assert (k_id (f k) = k_id k) as -> by (unfold task_work in Hw; congruence). eauto.
Qed.

Lemma framing_upd_lane l l' f : l' ≠ l → framing l (upd_lane l' f).
Proof.
  intros Hne. apply framing_step. intros p. unfold upd_lane, modify. simpl. destruct (mget l' (p_laneObjects p)) as [x|] eqn:Hx; [|apply frames_refl].
  split; simpl; [by rewrite mget_mset_ne|exists []; by rewrite app_nil_r|done|eauto|].
  intros []. split; simpl; [|done..]. intros j y [[-> ->]|[_ H]]%mget_mset_Some; eauto.
Qed.

Lemma framing_on_channels l {A} (m : js CP A) : framing l (on_channels (item:=item) m).
Proof.
  apply framing_step. intros p. unfold on_channels, zoom. destruct (m (p_channels p)) as [r c]. simpl.
  split; simpl; [done|exists []; by rewrite app_nil_r|done|eauto|by intros []].
Qed.

Lemma framing_get_task l t : framing l (get_task (C:=CP) (item:=item) t).
Proof. intros p0. unfold get_task. preserve. Qed.
Lemma framing_get_lane l l' : framing l (get_lane (C:=CP) (item:=item) l').
Proof. intros p0. unfold get_lane. preserve. Qed.

Ltac frame_update := first [apply framing_modify; intros; apply frames_same; simpl; done || lia | apply framing_log; simpl; done | apply framing_upd_task; done].

#[local] Hint Extern 4 (preserves (frames _ _) (modify _)) => solve [frame_update] : jsinv.
#[local] Hint Extern 4 (preserves (frames _ _) (upd_task _ _)) => solve [frame_update] : jsinv.
#[local] Hint Extern 1 (preserves (frames _ _) (get_task _)) => apply framing_get_task : jsinv.
#[local] Hint Extern 1 (preserves (frames _ _) (get_lane _)) => apply framing_get_lane : jsinv.
#[local] Hint Extern 1 (preserves (frames _ _) (on_channels _)) => apply framing_on_channels : jsinv.

Lemma framing_settle l t r : framing l (settle (C:=CP) (item:=item) t r).
Proof.
  intros p0. unfold settle. preserve. apply framing_log. clear. by induction (k_waiters _).
Qed.
Lemma framing_revokeEndpoints l t : framing l (revokeEndpoints (C:=CP) (item:=item) has_channels t).
Proof. intros p0. unfold revokeEndpoints. preserve. Qed.
Lemma framing_drainStarted l : framing l (drainStarted (C:=CP) (item:=item)).
Proof. intros p0. unfold drainStarted. preserve. Qed.
Lemma framing_shift_queue l : framing l (shift_queue (C:=CP) (item:=item)).
Proof. intros p0. unfold shift_queue. preserve. Qed.

(** ** Lanes that open, fail and take a task *)

Lemma base_upd_lane l f p : base p → base (upd_lane l f p).2.
Proof.
  intros Hb. unfold upd_lane, modify. simpl. destruct (mget l (p_laneObjects p)) as [x|] eqn:Hx; [|done].
  destruct Hb. split; simpl; [|done..]. intros j y [[-> ->]|[_ H]]%mget_mset_Some; eauto.
Qed.

Lemma J_upd_failed l s l' reason : preserves (J l s) (upd_lane l' (lane_failed reason)).
Proof.
  intros p [Hb Hc]. destruct (decide (l' = l)) as [->|Hne]; [|by apply framing_J; [apply framing_upd_lane|]].
  split; [by apply base_upd_lane|]. unfold upd_lane, modify. simpl. destruct (mget l (p_laneObjects p)) as [x|] eqn:Hx; [|done].
  left. right. simpl. rewrite mget_mset_eq. by eexists.
Qed.

Lemma J_openLane l s dedicated : preserves (J l s) (openLane (C:=CP) (item:=item) pf dedicated).
Proof.
  intros p Hp. unfold openLane. erewrite bind_run by done. erewrite bind_run by done. set (l' := p_nextLane p).
  assert (J l s (set_next (p_nextTask p) (l' + 1) p)) as H1.
  { eapply J_frames; [|exact Hp]. apply frames_same; simpl; done || lia. }
  assert (mget l' (p_laneObjects p) = None) as Hnew.
  { destruct (mget l' (p_laneObjects p)) as [x|] eqn:E; [|done]. destruct Hp as [[B _ _] _]. pose proof (B l' x E). lia. }
  set (p1 := set_next _ _ p) in *. assert (mget l' (p_laneObjects p1) = None) as Hnew1 by done.
  assert (p_nextLane p1 = l' + 1) as Hnext by done. clearbody p1. clear Hp Hnew. destruct (open_fails pf l') as [error|].
  { refine (framing_J l s (modify (log [EvTerminated l']) ;; throw error) _ p1 H1). intros p0. preserve. }
  erewrite bind_run by done.
  refine (framing_J l s (modify (log [EvPosted l' PostBoot]) ;; modify (λ p, if dedicated then set_lanes (p_lanes p) (p_dedicated p ++ [l']) p
                   else set_lanes (p_lanes p ++ [l']) (p_dedicated p) p) ;; mret l') _ _ _).
  { intros p0. preserve. apply framing_modify. intros q. by destruct dedicated; apply frames_same. }
  destruct H1 as [Hb Hc]. split.
  - destruct Hb. split; simpl; [|done..]. intros j y [[-> ->]|[_ H]]%mget_mset_Some; [lia|eauto].
  - destruct (decide (l' = l)) as [<-|Hne].
    + destruct Hc as [[G|(x & Hx & _)]|Hc]; [by left; left|congruence|]. rewrite Hnew1 in Hc. right. simpl. rewrite mget_mset_eq.
      destruct Hc as (N & E1 & E2 & E3 & E4 & E5). split; simpl; rewrite ?E1, ?E4, ?E5; try done; try lia; [by left|].
      intros _. assert (held (wire l' s p1) s = []) as Hh.
      { unfold held, carried, wire. by rewrite E1, E2, E3, E5, drop_0, (work_neutral _ N). }
      destruct (held_nil _ _ Hh) as (Hw & _ & _ & Hpr). change (wire l' s _) with (wire l' s p1).
      split; rewrite ?Hh, ?Hw, ?Hpr, ?E3; [by left|done| |naive_solver|set_solver].
      unfold wire. rewrite E1, drop_0, hits_no_work; [done|by apply work_neutral].
    + destruct Hc as [[G|(x & Hx & Hf)]|Hc]; [by left; left| |].
      * left; right. exists x. simpl. by rewrite mget_mset_ne.
      * right. simpl. rewrite mget_mset_ne by done. destruct (mget l (p_laneObjects p1)); [|done]. by destruct Hc.
Qed.

Lemma framing_postAssigned l l' t : l' ≠ l → framing l (postAssigned (C:=CP) (item:=item) pf l' t).
Proof.
  intros Hne p0. unfold postAssigned. preserve. apply framing_log. simpl. by rewrite (proj2 (Z.eqb_neq l' l)).
Qed.

#[local] Hint Extern 1 (preserves (frames _ _) (postAssigned _ _ _)) => by apply framing_postAssigned : jsinv.
#[local] Hint Extern 1 (preserves (frames _ _) (upd_lane _ _)) => by apply framing_upd_lane : jsinv.

Lemma framing_assignLane l l' t : l' ≠ l → framing l (assignLane (C:=CP) (item:=item) pf l' t).
Proof. intros Hne p0. unfold assignLane. preserve. Qed.

(** A lane that has nothing is given a task. *)
Lemma carries_given w s (k : task item) eps :
  carries w s None → carries (w ++ [PostTask (k_id k) (k_module k) (k_member k) (k_payload k) (k_arguments k) eps]) s (Some k).
Proof.
  intros [H1 _ H3 H4 H5]. assert (held w s = []) as Hh by (by destruct H1). destruct (held_nil _ _ Hh) as (Hw & Hcu & Hr & Hp).
  unfold carried in Hw. apply app_nil in Hw as [Hw Hi].
  assert (held (w ++ [PostTask (k_id k) (k_module k) (k_member k) (k_payload k) (k_arguments k) eps]) s = [k_id k]) as Hh'.
  { unfold held, carried. by rewrite omap_app, Hw, Hi, Hcu, Hr. }
  split; [by right|done| | |].
  - rewrite Hp, hits_app, hits_no_work by done. done.
  - intros (c & Hc & _). congruence.
  - unfold carried. rewrite omap_app, Hw, Hi. simpl. intros v Hv. apply list_elem_of_singleton in Hv as ->. done.
Qed.

Lemma busy_idle p x : l_task x = None → busy p x = None.
Proof. unfold busy. by intros ->. Qed.

Lemma busy_unready p x : l_ready x = false → busy p x = None.
Proof. unfold busy. destruct (l_task x); [|done]. cbn. by intros ->. Qed.

(** A ready lane is sent the task it is assigned. *)
Lemma agree_posted l s p t k eps p' :
  (sd_received s <= length (posts_to l p))%nat → omap reply_id (before_failed (sd_out s)) = [] →
  (gave_up (sd_out s) = false → carries (wire l s p) s None) →
  posts_to l p' = posts_to l p ++ [PostTask (k_id k) (k_module k) (k_member k) (k_payload k) (k_arguments k) eps] →
  ∀ x' k', l_task x' = Some t → l_ready x' = true → mget t (p_objects p') = Some k' → task_work k' = task_work k →
  omap ready_mark (sd_out s) = [] → sd_announced s = true → agree l s p' x'.
Proof.
  intros R Q C Hp x' k' Ht Hr Hk' Hw Hy Ha.
  assert (busy p' x' = Some k') as Hb' by (unfold busy; by rewrite Ht, Hr). split; rewrite ?Hb'.
  - rewrite Hp, length_app. lia.
  - intros t' Ht'. simplify_eq. by exists k'.
  - by rewrite Hy, Hr, andb_false_r.
  - done.
  - by left.
  - intros Hg. rewrite (wire_app l s p p' _ R Hp). unfold task_work in Hw. simplify_eq.
    replace (k_id k) with (k_id k') by congruence. replace (k_module k) with (k_module k') by congruence.
    replace (k_member k) with (k_member k') by congruence. replace (k_payload k) with (k_payload k') by congruence.
    replace (k_arguments k) with (k_arguments k') by congruence. by apply carries_given, C.
Qed.

(** [postAssigned], for a lane that is ready and a task that exists. *)
Lemma postAssigned_run l t k p :
  mget t (p_objects p) = Some k →
  postAssigned pf l t p = match post_fails pf l t with
    | Some error => (Throw error, p)
    | None => (Ok tt, set_objects (mset t (with_endpoints [] (cs_token <$> k_endpoints k) k) (p_objects p))
        (log [EvPosted l (PostTask (k_id k) (k_module k) (k_member k) (k_payload k) (k_arguments k) (k_endpoints k))] p))
    end.
Proof.
  intros Hk. unfold postAssigned. erewrite bind_run by (by apply get_task_run). destruct (post_fails pf l t); [done|].
  erewrite bind_run by done. by erewrite upd_task_run.
Qed.

Lemma base_framing {A} (m : js (pool CP item) A) : (∀ l, framing l m) → preserves base m.
Proof. intros Hm p Hb. eapply fr_base; [apply (Hm 0), frames_refl|done]. Qed.

Lemma base_postAssigned l t : preserves base (postAssigned (C:=CP) (item:=item) pf l t).
Proof.
  intros p Hb. refine (fr_base (l + 1) _ _ _ Hb). apply framing_postAssigned; [lia|]. apply frames_refl.
Qed.

Lemma base_assignLane l t : preserves base (assignLane (C:=CP) (item:=item) pf l t).
Proof. intros p Hb. refine (fr_base (l + 1) _ _ _ Hb). apply framing_assignLane; [lia|]. apply frames_refl. Qed.

(** An idle lane is assigned a task: if that throws, the lane itself is left for its failure. *)
Lemma J_assignLane l s l' x t k p :
  J l s p → mget l' (p_laneObjects p) = Some x → l_task x = None → mget t (p_objects p) = Some k →
  base (assignLane pf l' t p).2 ∧ ((assignLane pf l' t p).1 = Ok tt ∨ l' ≠ l → coupled l s (assignLane pf l' t p).2).
Proof.
  intros [Hb Hc] Hx Ht Hk. split; [by apply base_assignLane|].
  destruct (decide (l' = l)) as [->|Hne].
  2: { intros _. eapply coupled_frames; [apply framing_assignLane; [done|apply frames_refl]|done]. }
  intros Hok. destruct Hok as [Hok|?]; [|done]. revert Hok. unfold assignLane.
  erewrite bind_run by (by apply upd_lane_run). erewrite bind_run by (by apply upd_task_run).
  set (p1 := set_objects _ _). assert (mget l (p_laneObjects p1) = Some (lane_task (Some t) x)) as Hx1 by apply mget_mset_eq.
  assert (mget t (p_objects p1) = Some (with_lane (Some l) k)) as Hk1 by apply mget_mset_eq.
  erewrite bind_run by (by apply get_lane_run). cbn [l_ready lane_task].
  destruct Hc as [[G|(y & Hy & Hfail)]|Hc].
  - intros _. left; left. unfold when. destruct (l_ready x); [|done]. rewrite (postAssigned_run l t _ p1 Hk1). destruct (post_fails pf l t); [done|].
    simpl. by apply terminated_log.
  - rewrite Hx in Hy. injection Hy as <-. intros _. left; right. exists (lane_task (Some t) x). split; [|done]. unfold when. destruct (l_ready x); [|done].
    rewrite (postAssigned_run l t _ p1 Hk1). by destruct (post_fails pf l t).
  - rewrite Hx in Hc. unfold when. destruct (l_ready x) eqn:Hr.
    + rewrite (postAssigned_run l t _ p1 Hk1). destruct (post_fails pf l t); [done|]. intros _. right. cbn [snd].
      match goal with |- match ?m with _ => _ end => replace m with (Some (lane_task (Some t) x)) by (symmetry; exact Hx1) end.
      destruct Hc as [R O Y A Q C]. rewrite (busy_idle p x Ht) in *. rewrite Hr, andb_false_r in Y.
      apply (agree_posted l s p t (with_lane (Some l) k) (k_endpoints k))
        with (k' := with_endpoints [] (cs_token <$> k_endpoints k) (with_lane (Some l) k)); try done; [by destruct Q| | |by apply A].
      * unfold posts_to. simpl. rewrite omap_app. simpl. by rewrite decide_True.
      * simpl. apply mget_mset_eq.
    + intros _. right. cbn [snd mret js_ret]. 
      match goal with |- match ?m with _ => _ end => replace m with (Some (lane_task (Some t) x)) by (symmetry; exact Hx1) end.
      destruct Hc as [R O Y A Q C]. rewrite (busy_idle p x Ht) in *. rewrite Hr in *.
      assert (busy p1 (lane_task (Some t) x) = None) as Hb1 by (by apply busy_unready).
      split; rewrite ?Hb1; simpl; rewrite ?Hr; try done. intros t' [= <-]. by eexists.
Qed.

#[local] Hint Extern 1 (preserves (J _ _) (settle _ _)) => apply framing_J, framing_settle : jsinv.
#[local] Hint Extern 1 (preserves (J _ _) (revokeEndpoints _ _)) => apply framing_J, framing_revokeEndpoints : jsinv.
#[local] Hint Extern 1 (preserves (J _ _) drainStarted) => apply framing_J, framing_drainStarted : jsinv.
#[local] Hint Extern 1 (preserves (J _ _) shift_queue) => apply framing_J, framing_shift_queue : jsinv.
#[local] Hint Extern 1 (preserves (J _ _) (get_task _)) => apply framing_J, framing_get_task : jsinv.
#[local] Hint Extern 1 (preserves (J _ _) (get_lane _)) => apply framing_J, framing_get_lane : jsinv.
#[local] Hint Extern 1 (preserves (J _ _) (on_channels _)) => apply framing_J, framing_on_channels : jsinv.
#[local] Hint Extern 4 (preserves (J _ _) (modify _)) => apply framing_J; solve [frame_update] : jsinv.
#[local] Hint Extern 4 (preserves (J _ _) (upd_task _ _)) => apply framing_J; solve [frame_update] : jsinv.
#[local] Hint Resolve J_upd_failed J_openLane : jsinv.

Lemma framing_set_lanes l (b : bool) l' :
  framing l (modify (λ p : pool CP item, if b then set_lanes (p_lanes p) (remove_ref l' (p_dedicated p)) p
                                         else set_lanes (remove_ref l' (p_lanes p)) (p_dedicated p) p)).
Proof. apply framing_modify. intros p. by destruct b; apply frames_same. Qed.
#[local] Hint Extern 3 (preserves (J _ _) (modify (λ _, if _ then _ else _))) => apply framing_J, framing_set_lanes : jsinv.

(** A lane that fails, whatever it was about. *)
Lemma J_failing disp l s l' x reason cc p :
  preserves (J l s) disp → base p → mget l' (p_laneObjects p) = Some x → (∀ t, l_task x = Some t → is_Some (mget t (p_objects p))) →
  (l' ≠ l → coupled l s p) → J l s (lane_failure has_channels disp l' reason cc p).2.
Proof.
  intros Hd Hb Hx Ho Hc. unfold lane_failure. erewrite bind_run by (by apply get_lane_run).
  destruct (l_failed x) eqn:Hfx.
  { split; [done|]. destruct (decide (l' = l)) as [->|Hne]; [|auto]. left; right. exists x. by rewrite Hfx. }
  set (m := match l_task x with Some t => when (negb cc) (revokeEndpoints has_channels t) | None => mret tt end).
  assert (∀ l0, framing l0 m) as Hm.
  { intros l0 p0. subst m. destruct (l_task x); [|preserve]. apply preserves_when, framing_revokeEndpoints. }
  assert (∃ p1, m p = (Ok tt, p1)) as (p1 & E1).
  { subst m. destruct (l_task x) as [t|]; [|by exists p]. destruct cc; [by exists p|].
    destruct (quiet_revokeEndpoints has_channels t p (Ho t eq_refl)) as (p1 & ? & _). by exists p1. }
  pose proof (Hm l' p p (frames_refl l' p)) as F'. pose proof (Hm l p p (frames_refl l p)) as F. clearbody m. rewrite E1 in F, F'. simpl in F, F'.
  erewrite bind_run by exact E1. assert (mget l' (p_laneObjects p1) = Some x) as Hx1 by (by rewrite (fr_lane _ _ _ F')).
  erewrite bind_run by (by apply upd_lane_run).
  set (p2 := set_laneObjects _ p1). assert (J l s p2) as H2.
  { pose proof (upd_lane_run l' (lane_failed reason) x p1 Hx1) as E2. destruct (decide (l' = l)) as [->|Hne].
    - split; [|left; right; exists (lane_failed reason x); split; [apply mget_mset_eq|by eexists]].
      pose proof (base_upd_lane l (lane_failed reason) p1 (fr_base _ _ _ F Hb)) as H. by rewrite E2 in H.
    - pose proof (J_upd_failed l s l' reason p1 (J_frames l s p p1 F (conj Hb (Hc Hne)))) as H. by rewrite E2 in H. }
  clearbody p2. revert p2 H2. change (preserves (J l s) (modify (log [EvTerminated l']) ;; modify (λ p : pool CP item,
    if l_dedicated x then set_lanes (p_lanes p) (remove_ref l' (p_dedicated p)) p else set_lanes (remove_ref l' (p_lanes p)) (p_dedicated p) p) ;;
    match l_task x with Some t => settle t (TaskFailed reason) | None => mret tt end ;; disp)). preserve.
Qed.

(** ** Dispatching *)

Lemma opened_lane d p l' :
  (openLane pf d p).1 = Ok l' → ∃ x, mget l' (p_laneObjects (openLane pf d p).2) = Some x ∧ l_task x = None ∧ l_ready x = false.
Proof.
  unfold openLane. erewrite bind_run by done. erewrite bind_run by done. destruct (open_fails pf _); [done|].
  intros [= <-]. eexists. destruct d; simpl; by rewrite mget_mset_eq.
Qed.

Lemma J_next_lane l s p :
  J l s p → J l s (next_lane pf p).2 ∧
  ∀ l', (next_lane pf p).1 = Ok (Some l') → ∃ x, mget l' (p_laneObjects (next_lane pf p).2) = Some x ∧ l_task x = None.
Proof.
  intros Hp. unfold next_lane. erewrite bind_run by done. destruct (idle_lane p) as [l'|] eqn:Ei.
  { split; [done|]. intros l'' [= <-]. by apply idle_lane_Some in Ei as (_ & x & Hx & Ht); exists x. }
  destruct (_ <? _); [|by split]. pose proof (J_openLane l s false p Hp) as Ho. unfold mbind, js_bind.
  pose proof (opened_lane false p) as Hn.
  destruct (openLane pf false p) as [[l'|e] p1]; simpl in *; [|done]. split; [done|]. intros l'' [= <-].
  destruct (Hn l' eq_refl) as (x & ? & ? & _). by exists x.
Qed.

(** The lane that was found takes the queue's head, or fails. *)
Lemma J_assigning disp l s l' x t k p :
  preserves (J l s) disp → J l s p → mget l' (p_laneObjects p) = Some x → l_task x = None → mget t (p_objects p) = Some k →
  J l s (try_catch (assignLane pf l' t) (λ error, lane_failure has_channels disp l' ("nupp: worker startup failed: " +:+ error) false) p).2.
Proof.
  intros Hd Hp Hx Ht Hk. destruct (J_assignLane l s l' x t k p Hp Hx Ht Hk) as [Hb Hc].
  assert (∃ x1, mget l' (p_laneObjects (assignLane pf l' t p).2) = Some x1 ∧ l_task x1 = Some t ∧
    is_Some (mget t (p_objects (assignLane pf l' t p).2))) as (x1 & Hx1 & Ht1 & Ho1).
  { unfold assignLane. erewrite bind_run by (by apply upd_lane_run). erewrite bind_run by (by apply upd_task_run).
    set (p1 := set_objects _ _). assert (mget l' (p_laneObjects p1) = Some (lane_task (Some t) x)) as Hx1 by apply mget_mset_eq.
    assert (mget t (p_objects p1) = Some (with_lane (Some l') k)) as Hk1 by apply mget_mset_eq.
    erewrite bind_run by (by apply get_lane_run). exists (lane_task (Some t) x). unfold when. destruct (l_ready _).
    - rewrite (postAssigned_run l' t _ p1 Hk1). destruct (post_fails pf l' t); (split; [done|split; [done|]]); [by eexists|].
      simpl. apply is_Some_mget_mset. by eexists.
    - split; [done|]. split; [done|]. by eexists. }
  unfold try_catch. destruct (assignLane pf l' t p) as [[[]|error] p1]; simpl in *; [split; auto|].
  eapply J_failing; try done; [congruence|]. auto.
Qed.

Lemma J_dispatch_rounds l s n : preserves (J l s) (dispatch_rounds has_channels pf n).
Proof.
  induction n as [|n IH]; intros p Hp; cbn [dispatch_rounds]; [done|]. erewrite bind_run by done. destruct (_ && _); [|done].
  destruct (J_next_lane l s p Hp) as [H1 Hl]. unfold mbind at 1, js_bind at 1, try_catch at 1. unfold mbind at 1, js_bind at 1.
  destruct (next_lane pf p) as [[[l'|]|error] p1]; simpl in H1, Hl.
  - cbv beta iota. destruct (Hl l' eq_refl) as (x & Hx & Ht).
    change (J l s ((t ← shift_queue; k ← get_task t; if k_settled k then dispatch_rounds has_channels pf n else
      try_catch (assignLane pf l' t) (λ error, lane_failure has_channels (dispatch_rounds has_channels pf n) l' ("nupp: worker startup failed: " +:+ error) false) ;;
      dispatch_rounds has_channels pf n) p1).2).
    destruct (p_queue p1) as [|t rest] eqn:Hq.
    { unfold shift_queue, mbind, js_bind, gets, throw. by rewrite Hq. }
    erewrite bind_run by (by apply shift_queue_run). set (p2 := set_queue rest p1).
    assert (J l s p2) as H2 by (apply (J_frames l s p1); [apply frames_same; simpl; done || lia|done]). assert (mget l' (p_laneObjects p2) = Some x) as Hx2 by done. clearbody p2.
    destruct (mget t (p_objects p2)) as [k|] eqn:Hk; [|unfold get_task, mbind, js_bind, gets, throw; by rewrite Hk].
    erewrite bind_run by (by apply get_task_run). destruct (k_settled k); [by apply IH|].
    pose proof (J_assigning (dispatch_rounds has_channels pf n) l s l' x t k p2 IH H2 Hx2 Ht Hk) as H3. unfold mbind, js_bind.
    destruct (try_catch _ _ p2) as [[[]|e] p3]; [by apply IH|done].
  - done.
  - assert (preserves (J l s) (t ← shift_queue; revokeEndpoints has_channels t ;; settle t (TaskFailed error))) as Hm by preserve.
    specialize (Hm p1 H1). unfold mbind, js_bind in *. destruct (shift_queue p1) as [[t|e] p2]; [|done].
    destruct (revokeEndpoints has_channels t p2) as [[[]|e] p3]; [|done]. destruct (settle t _ p3) as [[[]|e] p4]; [by apply IH|done].
Qed.

Lemma J_dispatch l s : preserves (J l s) (dispatch has_channels pf).
Proof. unfold dispatch. preserve. apply J_dispatch_rounds. Qed.
#[local] Hint Resolve J_dispatch : jsinv.

(** ** Cancelling *)

(** A lane that is not ready has nothing to give up. *)
Lemma J_clear_unready l s l' x p :
  J l s p → mget l' (p_laneObjects p) = Some x → l_ready x = false → J l s (upd_lane l' (lane_task None) p).2.
Proof.
  intros Hp Hx Hr. destruct (decide (l' = l)) as [->|Hne]; [|by apply framing_J; [apply framing_upd_lane|]].
  destruct Hp as [Hb Hc]. split; [by apply base_upd_lane|]. rewrite (upd_lane_run l _ x p Hx). cbn [snd].
  destruct Hc as [[G|(y & Hy & Hf)]|Hc]; [by left; left| |].
  - left; right. exists (lane_task None x). rewrite Hx in Hy. injection Hy as <-. split; [apply mget_mset_eq|done].
  - right. simpl. rewrite mget_mset_eq. rewrite Hx in Hc. destruct Hc as [R O Y A Q C]. rewrite (busy_unready p x Hr) in *.
    split; rewrite ?(busy_idle _ (lane_task None x)) by done; done.
Qed.

(** A cancellation is posted for the task the lane has. *)
Lemma J_post_cancel l s l' x t k id late p :
  J l s p → mget l' (p_laneObjects p) = Some x → l_task x = Some t → l_ready x = true →
  mget t (p_objects p) = Some k → k_cancelRequested k = true → J l s (log [EvPosted l' (PostCancel id late)] p).
Proof.
  intros Hp Hx Ht Hr Hk Hcr. destruct (decide (l' = l)) as [->|Hne].
  2: { apply (framing_J l s (modify (log [EvPosted l' (PostCancel id late)]))); [|done]. apply framing_log. simpl. by rewrite (proj2 (Z.eqb_neq l' l)). }
  destruct Hp as [Hb Hc]. split; [by destruct Hb|]. destruct Hc as [[G|(y & Hy & Hf)]|Hc]; [left; left; by apply terminated_log|by left; right; exists y|].
  right. simpl. rewrite Hx in *. set (p' := log _ p).
  assert (posts_to l p' = posts_to l p ++ [PostCancel id late]) as Hposts.
  { unfold posts_to. simpl. rewrite omap_app. simpl. by rewrite decide_True. }
  assert (busy p x = Some k) as Hbu by (unfold busy; by rewrite Ht, Hr).
  destruct Hc as [R O Y A Q C]. change (busy p' x) with (busy p x) in *. split; try done; [rewrite Hposts, length_app; lia|].
  intros Hg. rewrite (wire_app l s p p' _ R Hposts). change (busy p' x) with (busy p x). rewrite Hbu in *. destruct (C Hg) as [H1 H2 H3 H4 H5].
  assert (carried (wire l s p ++ [PostCancel id late]) s = carried (wire l s p) s) as Ec by (unfold carried; by rewrite omap_app, app_nil_r).
  assert (held (wire l s p ++ [PostCancel id late]) s = held (wire l s p) s) as Eh by (unfold held; by rewrite Ec).
  split; rewrite ?Ec, ?Eh; eauto.
Qed.

Lemma J_requestCancel l s t d p : pool_wf None p → J l s p → J l s (requestCancel has_channels pf t d p).2.
Proof.
  intros Hw Hp. unfold requestCancel. destruct (mget t (p_objects p)) as [k|] eqn:Hk.
  2: { unfold get_task, mbind, js_bind, gets. by rewrite Hk. }
  erewrite bind_run by (by apply get_task_run). destruct (k_settled k) eqn:Hs; [done|].
  erewrite bind_run by (by apply upd_task_run). set (p1 := set_objects _ p).
  assert (J l s p1) as H1.
  { assert (framing l (upd_task (C:=CP) (item:=item) t (with_cancel d))) as Hf by (by apply framing_upd_task).
    pose proof (framing_J l s _ Hf p Hp) as H. by rewrite (upd_task_run t _ k p Hk) in H. }
  pose proof (wf_calm None p p1 ltac:(by apply calm_upd_task) Hw) as W1.
  assert (mget t (p_objects p1) = Some (with_cancel d k)) as Hk1 by apply mget_mset_eq.
  clearbody p1. destruct (v_pending _ _ W1 t _ Hk1 Hs) as (_ & _ & [?|Hloc]); [done|]. unfold located in Hloc. simpl in Hloc.
  cbv zeta. destruct (k_lane k) as [l'|].
  - destruct Hloc as (_ & x & Hx & Ht). erewrite bind_run by (by apply get_lane_run). destruct (l_ready x) eqn:Hr; cbn [negb].
    + by eapply J_post_cancel.
    + pose proof (J_clear_unready l s l' x p1 H1 Hx Hr) as H2. unfold mbind at 1, js_bind at 1.
      rewrite (upd_lane_run l' _ x p1 Hx) in *. simpl in H2. clear -H2 ChannelLaws0. revert H2. set (p2 := set_laneObjects _ p1). clearbody p2. revert p2.
      change (preserves (J l s) (when (l_dedicated x) (modify (λ p : pool CP item, set_lanes (p_lanes p) (remove_ref l' (p_dedicated p)) p) ;;
        modify (log [EvTerminated l'])) ;; revokeEndpoints has_channels t ;; settle t (TaskCancelled (k_deadline k || d)) ;; dispatch has_channels pf)).
      preserve.
  - clear -H1 ChannelLaws0. revert p1 H1.
    change (preserves (J l s) (modify (λ p : pool CP item, set_queue (remove_ref t (p_queue p)) p) ;; revokeEndpoints has_channels t ;;
      settle t (TaskCancelled (k_deadline k || d)))). preserve.
Qed.

Lemma J_laneFailure l s l' reason cc p : pool_wf None p → J l s p → J l s (laneFailure has_channels pf l' reason cc p).2.
Proof.
  intros Hw [Hb Hc]. unfold laneFailure. destruct (mget l' (p_laneObjects p)) as [x|] eqn:Hx.
  - apply (J_failing _ _ _ _ x); try done; [apply J_dispatch|]. intros t Ht. by destruct (v_busy _ _ Hw l' x t Hx Ht) as (_ & _ & k & Hk & _); exists k.
  - unfold lane_failure, get_lane, mbind, js_bind, gets. rewrite Hx. by split.
Qed.

(** ** Submitting *)

Lemma frames_new_task l id t k p :
  base p → t = p_nextTask p → to_safe (VNum (NInt (k_id k))) = Some (k_id k) →
  frames l p (set_tasks (mset id t (p_tasks p)) (set_objects (mset t k (p_objects p)) (set_next (t + 1) (p_nextLane p) p))).
Proof.
  intros [B1 B2 B3] -> Hs. split; simpl; [done|exists []; by rewrite app_nil_r|done| |].
  - intros t' k' Hk'. exists k'. rewrite mget_mset_ne; [done|]. intros <-. pose proof (B2 _ _ Hk'). lia.
  - intros _. split; simpl; [done|..]; intros t' k' [[-> ->]|[_ H]]%mget_mset_Some; [lia| |done|eauto]. pose proof (B2 _ _ H). lia.
Qed.

Lemma assign_unready l t x k p :
  mget l (p_laneObjects p) = Some x → l_ready x = false → mget t (p_objects p) = Some k → (assignLane pf l t p).1 = Ok tt.
Proof.
  intros Hx Hr Hk. unfold assignLane. erewrite bind_run by (by apply upd_lane_run). erewrite bind_run by (by apply upd_task_run).
  erewrite bind_run by (apply get_lane_run, mget_mset_eq). cbn [l_ready lane_task]. by rewrite Hr.
Qed.

Lemma J_register l s id module_ member payload endpoints arguments o (timed : bool) p :
  J l s p → to_safe (VNum (NInt id)) = Some id →
  (∀ l', o = Some l' → ∃ x, mget l' (p_laneObjects p) = Some x ∧ l_task x = None ∧ l_ready x = false) →
  J l s ((t ← gets p_nextTask;
       modify (λ p, set_next (t + 1) (p_nextLane p) p) ;;
       modify (λ p, set_objects
         (mset t (Task id module_ member payload false false false [] None false None endpoints [] arguments)
            (p_objects p)) p) ;;
       modify (λ p, set_tasks (mset id t (p_tasks p)) p) ;;
       match o with
       | Some l =>
           try_catch (assignLane pf l t) (λ error,
             modify (λ p, set_tasks (mdelete id (p_tasks p)) p) ;;
             upd_lane l (lane_task None) ;;
             modify (λ p, set_lanes (p_lanes p) (remove_ref l (p_dedicated p)) p) ;;
             modify (log [EvTerminated l]) ;;
             revokeEndpoints has_channels t ;;
             throw error)
       | None => modify (λ p, set_queue (p_queue p ++ [t]) p)
       end ;;
       when timed (upd_task t with_timer)) p).2.
Proof.
  intros Hp Hid Ho. set (k := Task id module_ member payload _ _ _ _ _ _ _ _ _ _). do 4 (erewrite bind_run by done).
  fold k. set (t := p_nextTask p) in *. cbn [p_objects p_tasks p_nextLane set_next set_objects]. set (p1 := set_tasks _ _).
  assert (J l s p1) as H1 by (eapply J_frames; [|exact Hp]; apply frames_new_task; [apply Hp|done..]).
  assert (mget t (p_objects p1) = Some k) as Hk by apply mget_mset_eq.
  assert (p_laneObjects p1 = p_laneObjects p) as EO by done. clearbody p1.
  assert (preserves (J l s) (when timed (upd_task t with_timer))) as Ht by preserve. destruct o as [l'|].
  - destruct (Ho l' eq_refl) as (x & Hx & Htx & Hr). rewrite <- EO in Hx.
    pose proof (assign_unready l' t x k p1 Hx Hr Hk) as Hok. destruct (J_assignLane l s l' x t k p1 H1 Hx Htx Hk) as [Hb Hc].
    unfold mbind, js_bind, try_catch. destruct (assignLane pf l' t p1) as [r p2]. simpl in *. subst r. apply Ht. split; auto.
  - erewrite bind_run by done. apply Ht. apply (J_frames l s p1); [apply frames_same; simpl; done || lia|done].
Qed.

(** The lane a dedicated task opens. *)
Lemma J_own_lane l s (dedicated : bool) endpoints p :
  J l s p →
  let m := (if dedicated then
              try_catch (l ← openLane pf true; mret (Some l))
                (λ error, when has_channels (on_channels (cs_discard endpoints)) ;; throw error)
            else mret None) in
  J l s (m p).2 ∧ ∀ o, (m p).1 = Ok o → ∀ l', o = Some l' →
    ∃ x, mget l' (p_laneObjects (m p).2) = Some x ∧ l_task x = None ∧ l_ready x = false.
Proof.
  intros Hp m. split; [revert p Hp; change (preserves (J l s) m); unfold m; preserve|]. unfold m. destruct dedicated; [|by intros o [= <-]].
  unfold try_catch. unfold mbind at 1 3, js_bind at 1 3. pose proof (opened_lane true p) as Hn.
  destruct (openLane pf true p) as [[l1|e] p1]; simpl in *.
  - intros o [= <-] l' [= <-]. by apply Hn.
  - unfold when, mbind, js_bind. destruct has_channels; [|done]. unfold on_channels, zoom. by destruct (cs_discard _ _) as [[]].
Qed.

Lemma J_accept l s entry : preserves (J l s) (accept has_channels pf entry).
Proof.
  intros p Hp. unfold accept. unfold mbind at 1, js_bind at 1, lift.
  destruct (checked_submission entry) as [[[[id module_] member] payload]|] eqn:Hcs; [|done].
  assert (to_safe (VNum (NInt id)) = Some id) as Hsafe.
  { revert Hcs. unfold checked_submission. destruct (to_safe (sb_task entry)) as [i|] eqn:Hi; [|done].
    destruct (sb_module entry), (sb_member entry), (sb_payload entry); try done. destruct (i <? 1); [done|]. intros [= <- _ _ _].
    by destruct (to_safe_Some _ _ Hi) as [<- _]. }
  erewrite bind_run by done. unfold mhas. destruct (mget id (p_tasks p)) eqn:Hid; [done|].
  erewrite bind_run by done. unfold mbind at 1, js_bind at 1.
  destruct (checked_mode (sb_dedicated entry)) as [dedicated|]; [|done]. erewrite bind_run by done.
  destruct (dedicated && _); [done|]. erewrite bind_run by done. unfold mbind at 1, js_bind at 1.
  assert (preserves (J l s) (take_endpoints has_channels entry)) as Htake by (unfold take_endpoints; destruct (sb_endpoints entry); preserve).
  specialize (Htake p Hp). destruct (take_endpoints has_channels entry p) as [[endpoints|] p1]; [|done]. simpl in Htake.
  destruct (J_own_lane l s dedicated endpoints p1 Htake) as [H2 Hn]. cbv zeta in *. unfold mbind at 1, js_bind at 1.
  destruct (_ p1) as [[o|e] p2]; [|done]. simpl in H2, Hn. apply J_register; [done|done|]. by apply Hn.
Qed.
#[local] Hint Resolve J_accept : jsinv.

Lemma J_accept_all l s entries : preserves (J l s) (accept_all has_channels pf entries).
Proof. induction entries; simpl; preserve. Qed.
#[local] Hint Resolve J_accept_all : jsinv.

Lemma J_close l s : preserves (J l s) (close has_channels).
Proof.
  unfold close. preserve; apply framing_J, framing_modify; intros p; apply frames_log; first [by induction (p_lanes p)|by induction (p_dedicated p)].
Qed.
#[local] Hint Resolve J_close : jsinv.

Lemma J_settlement l s id w : preserves (J l s) (settlement (C:=CP) (item:=item) id w).
Proof. unfold settlement. preserve. Qed.
Lemma J_settlement_resumed l s id : preserves (J l s) (settlement_resumed (C:=CP) (item:=item) id).
Proof. unfold settlement_resumed. preserve. Qed.
#[local] Hint Resolve J_settlement J_settlement_resumed : jsinv.

(** ** The pool's own operations, and the messages of another lane *)

Lemma J_own l s op p :
  pool_wf None p → J l s p → (∀ l' m, op ≠ OpMessage l' m) → J l s (run_pool_op has_channels pf op p).2.
Proof.
  intros Hw Hp Hop. destruct op as [entries|id w|id|id|l' m|l' reason|l' req granted|t|]; cbn [run_pool_op].
  - revert p Hw Hp. intros p _. revert p. change (preserves (J l s) (submit has_channels pf entries ;; mret tt)). unfold submit. preserve.
  - revert p Hw Hp. intros p _. revert p. change (preserves (J l s) (settlement (C:=CP) (item:=item) id w ;; mret tt)). preserve.
  - revert p Hw Hp. intros p _. revert p.
    change (preserves (J l s) (ready ← gets (settled_id id); when ready (settlement_resumed (C:=CP) (item:=item) id ;; mret tt))). preserve.
  - unfold cancel. unfold mbind at 1 2, js_bind at 1 2. simpl.
    destruct (mget id (p_tasks p)) as [t|].
    + pose proof (J_requestCancel l s t false p Hw Hp) as H1. unfold mbind, js_bind. destruct (requestCancel has_channels pf t false p) as [[[]|e] p1]; [|done].
      by apply (framing_J l s _ (framing_drainStarted l)).
    + by apply (framing_J l s _ (framing_drainStarted l)).
  - by destruct (Hop l' m).
  - by apply J_laneFailure.
  - apply (framing_J l s (modify (log [EvPosted l' (PostStorage req granted)]))); [|done]. by apply framing_log.
  - unfold deadline_timer. destruct (mget t (p_objects p)) as [k|] eqn:Hk; [|unfold get_task, mbind, js_bind, gets; by rewrite Hk].
    erewrite bind_run by (by apply get_task_run). unfold when. destruct (k_timer k); [|done]. by apply J_requestCancel.
  - by apply J_close.
Qed.

Lemma J_other_message l s l' m p : pool_wf None p → J l s p → l' ≠ l → J l s (laneMessage has_channels pf l' m p).2.
Proof.
  intros Hw Hp Hne. unfold laneMessage. destruct (mget l' (p_laneObjects p)) as [x|] eqn:Hx.
  2: { unfold get_lane, mbind, js_bind, gets. by rewrite Hx. }
  erewrite bind_run by (by apply get_lane_run). destruct (l_failed x) eqn:Hf; [done|].
  destruct m as [|req|id|error cc|id status payload error deadline|]; try done.
  - apply (framing_J l s); [|done]. intros p0. preserve.
  - destruct (l_task x) as [t|]; [|done]. apply (framing_J l s); [|done]. intros p0. preserve.
  - by apply J_laneFailure.
  - destruct (to_safe id) as [rid|]; [|done]. destruct (l_task x) as [t|]; [|done]. revert p Hp Hw Hx. intros p Hp _ _. revert p Hp.
    change (preserves (J l s) (k ← get_task t; if negb (k_id k =? rid) then mret tt else
              upd_lane l' (lane_task None) ;; settle t (reply_result status payload error deadline) ;;
              when (l_dedicated x) (modify (λ p, set_lanes (p_lanes p) (remove_ref l' (p_dedicated p)) p) ;; modify (log [EvTerminated l'])) ;;
              dispatch has_channels pf)). preserve. by apply framing_J, framing_upd_lane.
Qed.
(** What follows once a lane has given up the task it replied to. *)
Lemma J_replied l s l' t r (dedicated : bool) :
  preserves (J l s) (settle t r ;;
    when dedicated (modify (λ p : pool CP item, set_lanes (p_lanes p) (remove_ref l' (p_dedicated p)) p) ;; modify (log [EvTerminated l'])) ;;
    dispatch has_channels pf).
Proof. preserve. Qed.

Lemma J_started l s t id :
  preserves (J l s) (k ← get_task (C:=CP) (item:=item) t; when (bool_decide (id = VNum (NInt (k_id k)))) (modify (λ p, set_started (p_started p ++ [k_id k]) p))).
Proof. preserve. Qed.
End Agreement.

(** ** What a lane does *)

Section LaneMoves.
Context {item : Type}.
Implicit Types (w : list (lane_post item)) (k : option (task item)) (s : side item).

(** Where the one task of a lane is. *)
Lemma held_inbox w n t inbox cu an out fi (o : option Z) :
  held w (Side n (t :: inbox) cu an out fi) = [] ∨ held w (Side n (t :: inbox) cu an out fi) = option_list o →
  omap post_work w = [] ∧ inbox = [] ∧ cu = None ∧ omap reply_id out = [] ∧ o = Some (lt_id t).
Proof.
  unfold held, carried. cbn [sd_inbox sd_current sd_out]. intros [H|H].
  { destruct (omap post_work w); discriminate H. }
  destruct (omap post_work w) as [|v vs]; [|destruct o; [destruct vs|]; discriminate H].
  destruct inbox; [|by destruct o]. destruct cu; [by destruct o|]. destruct (omap reply_id out); [|by destruct o]. destruct o; [|done]. by injection H as <-.
Qed.

Lemma held_current w n inbox c an out fi (o : option Z) :
  held w (Side n inbox (Some c) an out fi) = [] ∨ held w (Side n inbox (Some c) an out fi) = option_list o →
  omap post_work w = [] ∧ inbox = [] ∧ omap reply_id out = [] ∧ o = Some (cu_id c).
Proof.
  unfold held, carried. cbn [sd_inbox sd_current sd_out]. intros [H|H].
  { destruct (omap post_work w), inbox; discriminate H. }
  destruct (omap post_work w) as [|v vs]; [|destruct o; [destruct vs, inbox|]; discriminate H].
  destruct inbox as [|? [|]]; [|by destruct o..]. destruct (omap reply_id out); [|by destruct o]. destruct o; [|done]. by injection H as <-.
Qed.

Lemma held_wire m w n inbox cu an out fi v (o : option Z) :
  post_work m = Some v →
  held (m :: w) (Side n inbox cu an out fi) = [] ∨ held (m :: w) (Side n inbox cu an out fi) = option_list o →
  omap post_work w = [] ∧ inbox = [] ∧ cu = None ∧ omap reply_id out = [] ∧ o = Some (work_id v).
Proof.
  intros Hm. unfold held, carried. cbn [sd_inbox sd_current sd_out]. cbn [omap list_omap]. rewrite Hm. intros [H|H]; [discriminate H|].
  destruct o; [|discriminate H]. injection H as <- H. apply app_nil in H as [H1 H2]. apply app_nil in H2 as [H2 H3]. rewrite fmap_app in H1.
  apply app_nil in H1 as [H0 H1]. apply fmap_nil_inv in H0, H1. apply fmap_nil_inv in H1. by destruct cu.
Qed.

Lemma hits_weaken w : hits false w = true → hits true w = true.
Proof. induction w as [|m w IH]; [done|]. destruct m; simpl; auto. Qed.

Lemma hits_mono (b b' : bool) w : (b = true → b' = true) → hits b w = true → hits b' w = true.
Proof. destruct b, b'; try done; [intros H; by specialize (H eq_refl)|intros _; apply hits_weaken]. Qed.

(** The same lane with fewer handlers that returned. *)
Lemma carries_fine w n inbox cu an out fi fi' k :
  (fi' = true → fi = true) → carries w (Side n inbox cu an out fi) k → carries w (Side n inbox cu an out fi') k.
Proof. intros Hf [H1 H2 H3 H4 H5]. split; auto. Qed.

Lemma carries_out w n inbox cu an out out' fi k an' :
  omap reply_id out' = omap reply_id out → carries w (Side n inbox cu an out fi) k → carries w (Side n inbox cu an' out' fi) k.
Proof.
  intros Ho [H1 H2 H3 H4 H5]. assert (held w (Side n inbox cu an' out' fi) = held w (Side n inbox cu an out fi)) as Eh.
  { unfold held, carried. simpl. by rewrite Ho. }
  split; rewrite ?Eh; done.
Qed.

(** A task leaves the inbox and is run. *)
Lemma carries_take w n t inbox cu an out fi k :
  carries w (Side n (t :: inbox) cu an out fi) k → carries w (Side n inbox (Some (Current (lt_id t) false false)) an out fi) k.
Proof.
  intros [H1 H2 H3 H4 H5]. destruct (held_inbox _ _ _ _ _ _ _ _ _ H1) as (Ew & -> & -> & Er & Ek). rewrite Ek in *.
  assert (held w (Side n [] (Some (Current (lt_id t) false false)) an out fi) = [lt_id t]) as Eh by (unfold held, carried; simpl; by rewrite Ew, Er).
  split; rewrite ?Eh, ?Ek; [by right|done|exact H3|by intros (c & [= <-] & ?)|]. intros v. unfold carried. simpl. rewrite Ew. set_solver.
Qed.

(** The task of a lane is replied to. *)
Lemma carries_reply w n inbox c an out fi k m :
  reply_id m = Some (cu_id c) → carries w (Side n inbox (Some c) an out fi) k → carries w (Side n inbox None an (out ++ [m]) fi) k.
Proof.
  intros Hm [H1 H2 H3 H4 H5]. destruct (held_current _ _ _ _ _ _ _ _ H1) as (Ew & -> & Er & Ek). rewrite Ek in *.
  assert (held w (Side n [] None an (out ++ [m]) fi) = [cu_id c]) as Eh.
  { unfold held, carried. simpl. rewrite Ew, omap_app, Er. simpl. by rewrite Hm. }
  split; rewrite ?Eh, ?Ek; [by right|done| |by intros (? & ? & _)|].
  - unfold present. simpl. by rewrite hits_no_work.
  - unfold carried. simpl. rewrite Ew. set_solver.
Qed.

(** A task arrives, and is run at once or queued. *)
Lemma carries_arrive m t w n inbox cu an out fi k :
  post_work m = Some (lane_work t) → carries (m :: w) (Side n inbox cu an out fi) k →
  carries w (Side (S n) inbox (Some (Current (lt_id t) false false)) an out fi) k ∧ carries w (Side (S n) (inbox ++ [t]) cu an out fi) k.
Proof.
  intros Hm [H1 H2 H3 H4 H5]. destruct (held_wire _ _ _ _ _ _ _ _ _ _ Hm H1) as (Ew & -> & -> & Er & Ek). change (work_id (lane_work t)) with (lt_id t) in Ek.
  assert (hits true w = true → ∃ k' : task item, k = Some k' ∧ k_cancelRequested k' = true) as Hh.
  { intros H. apply H3. destruct m; try done. }
  assert (task_work <$> k = Some (lane_work t)) as Hw.
  { apply H5. unfold carried. simpl. rewrite Hm. left. }
  rewrite Ek in *. split; split; unfold held, carried; simpl; rewrite ?Ew, ?Er, ?Ek; simpl; auto; try (by right).
  - by intros (c & [= <-] & ?).
  - set_solver.
  - intros v Hv. apply list_elem_of_singleton in Hv as ->. done.
Qed.

(** A message about no task arrives. *)
Lemma carries_neutral m w n inbox cu an out fi k :
  neutral m = true → carries (m :: w) (Side n inbox cu an out fi) k → carries w (Side (S n) inbox cu an out fi) k.
Proof. intros Hm [H1 H2 H3 H4 H5]. by destruct m. Qed.

(** A cancellation arrives: nothing is there for it, the lane's task sees it, or a queued one is given up. *)
Lemma carries_cancel_late id d w n inbox cu an out fi k :
  carries (PostCancel id d :: w) (Side n inbox cu an out fi) k → carries w (Side (S n) inbox cu an out fi) k.
Proof.
  intros [H1 H2 H3 H4 H5]. split; try done. intros H. apply H3. cbn [hits]. change (present (Side (S n) inbox cu an out fi)) with (present (Side n inbox cu an out fi)) in H.
  by rewrite H, orb_true_r.
Qed.

Lemma carries_cancel_current id d w n inbox c an out fi k :
  carries (PostCancel id d :: w) (Side n inbox (Some c) an out fi) k →
  carries w (Side (S n) inbox (Some (Current (cu_id c) true d)) an out fi) k.
Proof.
  intros Hc. pose proof (ca_hits _ _ _ Hc) as H3. apply carries_cancel_late in Hc as [H1 H2 _ H4 H5].
  assert (∃ k' : task item, k = Some k' ∧ k_cancelRequested k' = true) as Hk by (apply H3; cbn [hits]; unfold present; simpl; by rewrite orb_true_r).
  split; done.
Qed.

Lemma carries_cancel_queued t inbox' w n inbox cu an out fi k m :
  reply_id m = Some (lt_id t) → take_task (lt_id t) inbox = Some (t, inbox') →
  carries w (Side n inbox cu an out fi) k →
  carries w (Side n inbox' cu an (out ++ [m]) fi) k ∧ carries w (Side n inbox' cu an out false) k.
Proof.
  intros Hm Ht Hc. destruct inbox as [|u inbox]; [done|]. pose proof (ca_once _ _ _ Hc) as H1.
  destruct (held_inbox _ _ _ _ _ _ _ _ _ H1) as (Ew & -> & -> & Er & Ek).
  assert (u = t ∧ inbox' = []) as [-> ->] by (revert Ht; cbn [take_task]; case_decide; [by intros [= -> <-]|done]).
  destruct Hc as [_ H2 H3 H4 H5]. rewrite Ek in *. split; split; unfold held, carried, present; simpl; rewrite ?Ew, ?omap_app, ?Er, ?Ek; simpl; rewrite ?Hm; auto;
    try (by right); try (by left); try (by rewrite hits_no_work); try (by intros (? & ? & _)); set_solver.
Qed.

(** A lane that empties its inbox and says nothing. *)
Lemma carries_silent w n inbox cu an out fi k : carries w (Side n inbox cu an out fi) k → carries w (Side n [] cu an out false) k.
Proof.
  intros Hc. destruct inbox as [|t inbox]; [by eapply carries_fine; [|exact Hc]|]. pose proof (ca_once _ _ _ Hc) as H1.
  destruct (held_inbox _ _ _ _ _ _ _ _ _ H1) as (Ew & -> & -> & Er & Ek). destruct Hc as [_ H2 H3 H4 H5].
  split; unfold held, carried, present; simpl; rewrite ?Ew, ?Er; try done; [by left|by rewrite hits_no_work|set_solver].
Qed.

Lemma before_failed_app out m : before_failed (out ++ [m]) = if gave_up out then before_failed out else before_failed out ++ before_failed [m].
Proof. induction out as [|m' out IH]; [done|]. destruct m'; simpl in *; rewrite ?IH; try done; by destruct (gave_up out). Qed.

Lemma gave_up_app out m : gave_up (out ++ [m]) = gave_up out || gave_up [m].
Proof. unfold gave_up. by rewrite existsb_app. Qed.

Lemma before_failed_all out : gave_up out = false → before_failed out = out.
Proof. induction out as [|m out IH]; [done|]. destruct m; simpl; try done; intros H; by rewrite IH. Qed.
End LaneMoves.

Section LaneAgree.
Context {CP CL item D : Type} `{!LaneChannels CL item D} (l : Z) (p : pool CP item) (x : lane).

Lemma carries_replies (w : list (lane_post item)) (s : side item) (k : option (task item)) :
  carries w s k → omap reply_id (sd_out s) = [] ∨ omap reply_id (sd_out s) = option_list (k_id <$> k).
Proof.
  intros [H _ _ _ _]. destruct H as [H|H]; [left; by apply held_nil in H as (_ & _ & H & _)|].
  destruct (omap reply_id (sd_out s)) as [|i r] eqn:Er; [by left|right]. unfold held in H. rewrite Er in H.
  destruct (k_id <$> k); [|by destruct (carried w s), (sd_current s)]. simpl in *.
  destruct (carried w s) as [|? [|]]; [|by destruct (sd_current s)..]. by destruct (sd_current s).
Qed.

Lemma agree_move s s' :
  agree l s p x → (sd_received s' <= length (posts_to l p))%nat →
  omap ready_mark (sd_out s') = (if sd_announced s' && negb (l_ready x) then [()] else []) →
  (sd_announced s = true → sd_announced s' = true) →
  (gave_up (sd_out s') = true → before_failed (sd_out s') = before_failed (sd_out s)) →
  (gave_up (sd_out s') = false → gave_up (sd_out s) = false ∧ (carries (wire l s p) s (busy p x) → carries (wire l s' p) s' (busy p x))) →
  agree l s' p x.
Proof.
  intros [R O Y A Q C] R' Y' A' G H. split; auto.
  - destruct (gave_up (sd_out s')) eqn:Hg; [by rewrite G|]. destruct (H eq_refl) as [Hg' Hc]. rewrite before_failed_all by done.
    eapply carries_replies. by apply Hc, C.
  - intros Hg. destruct (H Hg) as [Hg' Hc]. by apply Hc, C.
Qed.

Implicit Types ln : Lane.lane CL item D.

Definition lane_side (n m : nat) (fine : bool) ln : side item :=
  Side n (ln_inbox ln) (ln_current ln) (ln_announcedReady ln) (drop m (ln_posts ln)) fine.

(** The lane agrees with the pool. *)
Definition AG (n m : nat) (fine : bool) ln : Prop := (m <= length (ln_posts ln))%nat ∧ agree l (lane_side n m fine ln) p x.

Lemma AG_fine n m fine fine' ln : (fine' = true → fine = true) → AG n m fine ln → AG n m fine' ln.
Proof.
  intros Hf [Hm Ha]. split; [done|]. apply (agree_move _ _ Ha); try done; [apply Ha|apply Ha|]. intros Hg. split; [done|]. by apply carries_fine.
Qed.

Lemma AG_view n m fine ln ln' :
  ln_inbox ln' = ln_inbox ln → ln_current ln' = ln_current ln → ln_announcedReady ln' = ln_announcedReady ln → ln_posts ln' = ln_posts ln →
  AG n m fine ln → AG n m fine ln'.
Proof. intros E1 E2 E3 E4. unfold AG, lane_side. by rewrite E1, E2, E3, E4. Qed.

Lemma AG_same n m fine ln ln' : lane_view ln' = lane_view ln → AG n m fine ln → AG n m fine ln'.
Proof. intros [= E1 _ E3 E4 E5]. by apply AG_view. Qed.

Lemma post_same q ln ln' : lane_view ln' = lane_view ln → lane_view (postMessage q ln').2 = lane_view (postMessage q ln).2.
Proof. intros [= E1 E2 E3 E4 E5]. unfold lane_view. cbn. congruence. Qed.

Lemma AG_channels n m fine {A} (c : js CL A) : preserves (AG n m fine) (Lane.on_channels (item:=item) (D:=D) c).
Proof. intros ln H. unfold Lane.on_channels, zoom. destruct (c (ln_channels ln)) as [r c']. by apply (AG_view _ _ _ ln). Qed.

Lemma AG_answer n m fine op a : preserves (AG n m fine) (answer op a).
Proof. intros ln H. by apply (AG_view _ _ _ ln). Qed.

(** The posts of a lane that are no reply and no failure. *)
Lemma AG_post n m fine q ln :
  reply_id q = None → ready_mark q = None → gave_up [q] = false → AG n m fine ln → AG n m fine (postMessage q ln).2.
Proof.
  intros H1 H2 H3 [Hm Ha]. split; [cbn; rewrite length_app; lia|]. unfold lane_side. cbn. rewrite drop_app_le by done. fold (lane_side n m fine ln).
  apply (agree_move _ _ Ha); cbn; try (by apply Ha); try done.
  - rewrite omap_app. cbn. rewrite H2, app_nil_r. apply Ha.
  - rewrite gave_up_app, H3, orb_false_r. intros Hg. by rewrite before_failed_app, Hg.
  - rewrite gave_up_app, H3, orb_false_r. intros Hg. split; [done|]. apply carries_out. rewrite omap_app. cbn. by rewrite H1, app_nil_r.
Qed.

(** A lane gives up. *)
Lemma AG_give_up n m fine fine' e ln inbox :
  AG n m fine ln → AG n m fine' (postMessage (PFailed e) (Lane.set_tasks inbox (ln_deliver ln) (ln_current ln) ln)).2.
Proof.
  intros [Hm Ha]. split; [cbn; rewrite length_app; lia|]. unfold lane_side. cbn. rewrite drop_app_le by done.
  apply (agree_move _ _ Ha); cbn; try (by apply Ha); try done.
  - rewrite omap_app, app_nil_r. apply Ha.
  - intros _. rewrite before_failed_app. cbn. rewrite app_nil_r. by destruct (gave_up _).
  - by rewrite gave_up_app, orb_true_r.
Qed.

Lemma AG_announce n m fine : preserves (AG n m fine) (announce_ready (C:=CL) (item:=item) (D:=D)).
Proof.
  intros ln [Hm Ha]. unfold announce_ready. erewrite bind_run by done. destruct (ln_announcedReady ln) eqn:Han; [done|].
  erewrite bind_run by done. split; [cbn; rewrite length_app; lia|]. unfold lane_side. cbn. rewrite drop_app_le by done.
  pose proof (ag_ready _ _ _ _ Ha) as Y. cbn in Y. rewrite Han in Y. pose proof (ag_announced _ _ _ _ Ha) as N. cbn in N. rewrite Han in N.
  apply (agree_move _ _ Ha); cbn; try (by apply Ha); try done.
  - rewrite omap_app, Y. cbn. destruct (l_ready x); [by specialize (N eq_refl)|done].
  - rewrite gave_up_app, orb_false_r. intros Hg. by rewrite before_failed_app, Hg.
  - rewrite gave_up_app, orb_false_r. intros Hg. split; [done|]. apply carries_out. by rewrite omap_app, app_nil_r.
Qed.

(** *** Events of the guest *)

Lemma AG_begin n m fine op t ln :
  AG n m fine (Lane.set_tasks (ln_inbox ln) (ln_deliver ln) (Some (Current (lt_id t) false false)) ln) → AG n m fine (begin_task op t ln).2.
Proof.
  intros H. unfold begin_task. erewrite bind_run by done. revert H. set (ln1 := Lane.set_tasks _ _ _ ln). clearbody ln1. revert ln1.
  change (preserves (AG n m fine) (try_catch
    (Lane.on_channels (lc_reset (LaneChannels:=_)) ;; endpoints ← Lane.on_channels (lc_adopt (lt_endpoints t)); postMessage (PStarted (lt_id t)) ;;
     answer op (ATask (lt_id t) (lt_module t) (lt_member t) (lt_payload t) (with_arguments endpoints (lt_arguments t))))
    (λ error, answer op (AError error)))).
  apply preserves_try_catch; [|intros; apply AG_answer]. apply preserves_bind; [apply AG_channels|intros _].
  apply preserves_bind; [apply AG_channels|intros es]. apply preserves_bind; [intros ln2; by apply AG_post|intros _; apply AG_answer].
Qed.

Lemma AG_nextTask n m fine op : preserves (AG n m fine) (nextTask (C:=CL) (item:=item) (D:=D) op).
Proof.
  intros ln H. unfold nextTask. erewrite bind_run by done. destruct (ln_inbox ln) as [|t inbox] eqn:Ei; [by apply (AG_view _ _ _ ln)|].
  erewrite bind_run by done. apply AG_begin. destruct H as [Hm Ha]. split; [done|].
  apply (agree_move _ _ Ha); cbn; try (by apply Ha); try done. intros Hg. split; [done|]. unfold lane_side. cbn. rewrite Ei. apply carries_take.
Qed.

Lemma AG_reply n m fine task status payload error deadline :
  preserves (AG n m fine) (reply (C:=CL) (item:=item) (D:=D) task status payload error deadline).
Proof.
  intros ln H. unfold reply. erewrite bind_run by done. destruct (ln_current ln) as [c|] eqn:Ec; [|done]. case_bool_decide; [|done].
  unfold mbind at 1, js_bind at 1. pose proof (AG_channels n m fine lc_settle ln H) as H1.
  pose proof (channels_view lc_settle ln) as V. destruct (Lane.on_channels lc_settle ln) as [[[]|e] ln1]; [|done]. simpl in H1, V.
  erewrite bind_run by done. assert (ln_current ln1 = Some c) as Ec1 by (unfold lane_view in V; congruence). clear -H1 Ec1.
  destruct H1 as [Hm Ha]. split; [cbn; rewrite length_app; lia|]. unfold lane_side. cbn. rewrite drop_app_le by done.
  apply (agree_move _ _ Ha); cbn; try (by apply Ha); try done.
  - rewrite omap_app, app_nil_r. apply Ha.
  - rewrite gave_up_app, orb_false_r. intros Hg. by rewrite before_failed_app, Hg.
  - rewrite gave_up_app, orb_false_r. intros Hg. split; [done|]. unfold lane_side. rewrite Ec1. by apply carries_reply.
Qed.

Lemma AG_effect n m fine op e : preserves (AG n m fine) (performLaneEffect (C:=CL) (item:=item) (D:=D) op e).
Proof.
  destruct e as [|task status payload error deadline| |operation]; cbn [performLaneEffect].
  - intros ln H. by apply (AG_view _ _ _ ln).
  - apply preserves_try_catch; [|intros; apply AG_answer].
    apply preserves_bind; [apply AG_reply|intros _]. apply preserves_bind; [apply AG_announce|intros _; apply AG_nextTask].
  - apply preserves_bind; [apply AG_announce|intros _; apply AG_nextTask].
  - apply AG_answer.
Qed.

Lemma AG_turned n m fine op : preserves (AG n m fine) (turned (C:=CL) (item:=item) (D:=D) op).
Proof.
  intros ln H. unfold turned. erewrite bind_run by done. case_bool_decide; [|done]. erewrite bind_run by done. apply AG_answer.
  by apply (AG_view _ _ _ ln).
Qed.

Lemma AG_persist n m fine : preserves (AG n m fine) (requestPersistentStorage (C:=CL) (item:=item) (D:=D)).
Proof.
  intros ln H. unfold requestPersistentStorage. do 2 (erewrite bind_run by done). unfold mbind, js_bind.
  refine (AG_view _ _ _ (postMessage (PPersistence (ln_nextPersistence ln)) (set_persistence (ln_nextPersistence ln + 1) (ln_persistence ln) (ln_granted ln) ln)).2
    _ eq_refl eq_refl eq_refl eq_refl _). apply AG_post; [done..|]. by apply (AG_view _ _ _ ln).
Qed.

(** A handler that may throw: what is left when it does. *)
Definition returning_AG (n m : nat) (op : js (Lane.lane CL item D) ()) : Prop :=
  ∀ fine ln, AG n m fine ln → AG n m (fine && is_ok (op ln).1) (op ln).2.

Lemma returning_preserves n m op : (∀ fine, preserves (AG n m fine) op) → returning_AG n m op.
Proof. intros H fine ln Hl. eapply AG_fine; [|by apply H]. by destruct fine. Qed.

Lemma AG_failed n m e : returning_AG n m (Lane.failed (C:=CL) (item:=item) (D:=D) e).
Proof.
  intros fine ln H. destruct (Lane.failed e ln) as [r ln'] eqn:E. revert E. unfold Lane.failed. erewrite bind_run by done. unfold mbind at 1, js_bind at 1.
  pose proof (AG_channels n m fine (lc_discard (ln_inbox ln ≫= lt_endpoints)) ln H) as H1.
  destruct (Lane.on_channels _ ln) as [[[]|e1] ln1]; simpl in H1; [|intros [= <- <-]; cbn; by eapply AG_fine; [|exact H1]; destruct fine].
  erewrite bind_run by done. set (ln2 := Lane.set_tasks [] (ln_deliver ln1) (ln_current ln1) ln1).
  unfold mbind, js_bind. pose proof (channels_view lc_close ln2) as V. destruct (Lane.on_channels lc_close ln2) as [[[]|e2] ln3]; simpl in V.
  - intros [= <- <-]. apply (AG_same _ _ _ (postMessage (PFailed e) ln2).2); [by apply post_same|]. by apply (AG_give_up _ _ fine).
  - intros [= <- <-]. cbn [is_ok fst snd]. rewrite andb_false_r. apply (AG_same _ _ _ ln2); [done|].
    destruct H1 as [Hm Ha]. split; [done|]. apply (agree_move _ _ Ha); cbn; try (by apply Ha); try done.
    intros Hg. split; [done|]. apply carries_silent.
Qed.

Lemma AG_boot n m digest : returning_AG n m (boot (C:=CL) (item:=item) (D:=D) digest).
Proof.
  intros fine ln H. unfold boot. erewrite !bind_run by done. destruct (ln_booted ln); [by cbn; rewrite andb_true_r|].
  erewrite !bind_run by done. assert (AG n m fine (set_flags true (ln_announcedReady ln) ln)) as H1 by (by apply (AG_view _ _ _ ln)).
  destruct (is_string digest); [by cbn; rewrite andb_true_r|]. by apply AG_failed.
Qed.

Lemma AG_persistence n m r e g : returning_AG n m (persistence_answered (C:=CL) (item:=item) (D:=D) r e g).
Proof.
  apply returning_preserves. intros fine ln H. unfold persistence_answered. erewrite bind_run by done. destruct (mget r (ln_persistence ln)); [|done].
  by apply (AG_view _ _ _ ln).
Qed.

(** *** Messages of the pool *)

(** Receiving [msg], when the lane's tasks and posts become [s']. *)
Lemma agree_receive n inbox cu an out fi msg inbox' cu' fi' :
  posts_to l p !! n = Some msg → agree l (Side n inbox cu an out fi) p x →
  (∀ w k, carries (msg :: w) (Side n inbox cu an out fi) k → carries w (Side (S n) inbox' cu' an out fi') k) →
  agree l (Side (S n) inbox' cu' an out fi') p x.
Proof.
  intros Hmsg Ha Hc. apply (agree_move _ _ Ha); cbn; try (by apply Ha); try done.
  - apply lookup_lt_Some in Hmsg. lia.
  - intros Hg. split; [done|]. intros H. apply Hc. unfold wire in H. cbn [sd_received] in H. rewrite (drop_S _ _ _ Hmsg) in H. exact H.
Qed.

Lemma AG_neutral n m fine msg ln : posts_to l p !! n = Some msg → neutral msg = true → AG n m fine ln → AG (S n) m fine ln.
Proof. intros Hmsg Hn [Hm Ha]. split; [done|]. apply (agree_receive _ _ _ _ _ _ _ _ _ _ Hmsg Ha). intros w k. by apply carries_neutral. Qed.

Lemma AG_task n m fine id module_ member payload arguments endpoints ln :
  posts_to l p !! n = Some (PostTask id module_ member payload arguments endpoints) → AG n m fine ln →
  AG (S n) m fine (assign (LaneTask id module_ member payload endpoints arguments) ln).2.
Proof.
  intros Hmsg [Hm Ha]. set (t := LaneTask id module_ member payload endpoints arguments). unfold assign. erewrite bind_run by done.
  destruct (ln_deliver ln) as [op|].
  - erewrite bind_run by done. apply AG_begin. split; [done|]. apply (agree_receive _ _ _ _ _ _ _ _ _ _ Hmsg Ha).
    intros w k Hc. by apply (carries_arrive _ t) in Hc as [? _].
  - split; [done|]. apply (agree_receive _ _ _ _ _ _ _ _ _ _ Hmsg Ha). intros w k Hc. by apply (carries_arrive _ t) in Hc as [_ ?].
Qed.

Lemma AG_cancel_queued n m id d : returning_AG n m (cancel_queued (C:=CL) (item:=item) (D:=D) id d).
Proof.
  intros fine ln [Hm Ha]. destruct (cancel_queued id d ln) as [r ln'] eqn:E. revert E. unfold cancel_queued. erewrite bind_run by done.
  destruct (take_task id (ln_inbox ln)) as [[t inbox]|] eqn:Et; [|intros [= <- <-]; cbn; by rewrite andb_true_r].
  assert (lt_id t = id) as <-.
  { clear -Et. revert t inbox Et. induction (ln_inbox ln) as [|u rest IH]; intros t inbox; cbn; [done|]. case_decide as Hid; [by intros [= <- _]|].
    destruct (take_task id rest) as [[v r]|]; [|done]. intros [= -> _]. by eapply IH. }
  erewrite bind_run by done. set (ln1 := Lane.set_tasks inbox (ln_deliver ln) (ln_current ln) ln).
  unfold mbind, js_bind. pose proof (channels_view (lc_discard (lt_endpoints t)) ln1) as V.
  destruct (Lane.on_channels (lc_discard (lt_endpoints t)) ln1) as [[[]|e] ln2]; simpl in V; intros [= <- <-]; cbn [is_ok fst snd].
  - rewrite andb_true_r. apply (AG_same _ _ _ (postMessage (PCancelled (lt_id t) d) ln1).2); [by apply post_same|].
    split; [cbn; rewrite length_app; lia|]. unfold lane_side. cbn. rewrite drop_app_le by done. apply (agree_move _ _ Ha); cbn; try (by apply Ha); try done.
    + rewrite omap_app, app_nil_r. apply Ha.
    + rewrite gave_up_app, orb_false_r. intros Hg. by rewrite before_failed_app, Hg.
    + rewrite gave_up_app, orb_false_r. intros Hg. split; [done|]. intros Hc.
      by destruct (carries_cancel_queued t inbox _ _ _ _ _ _ _ _ (PCancelled (lt_id t) d) eq_refl Et Hc) as [? _].
  - rewrite andb_false_r. apply (AG_same _ _ _ ln1); [done|]. split; [done|]. apply (agree_move _ _ Ha); cbn; try (by apply Ha); try done.
    intros Hg. split; [done|]. intros Hc. by destruct (carries_cancel_queued t inbox _ _ _ _ _ _ _ _ (PCancelled (lt_id t) d) eq_refl Et Hc) as [_ ?].
Qed.

Lemma AG_cancel n m fine id d ln :
  posts_to l p !! n = Some (PostCancel id d) → AG n m fine ln →
  AG (S n) m (fine && is_ok (Lane.cancel id d ln).1) (Lane.cancel id d ln).2.
Proof.
  intros Hmsg [Hm Ha]. destruct (Lane.cancel id d ln) as [r ln'] eqn:E. revert E. unfold Lane.cancel. erewrite bind_run by done.
  assert (AG (S n) m fine ln) as Hlate.
  { split; [done|]. apply (agree_receive _ _ _ _ _ _ _ _ _ _ Hmsg Ha). intros w k. apply carries_cancel_late. }
  assert (cancel_queued id d ln = (r, ln') → AG (S n) m (fine && is_ok r) ln') as Hq.
  { intros E. pose proof (AG_cancel_queued (S n) m id d fine ln Hlate) as H. by rewrite E in H. }
  destruct (ln_current ln) as [c|] eqn:Ec; [|done]. case_decide as Hid; [|done]. erewrite bind_run by done. subst id.
  set (ln1 := Lane.set_tasks _ _ _ ln). assert (AG (S n) m fine ln1) as H1.
  { split; [done|]. unfold lane_side in Ha. rewrite Ec in Ha. apply (agree_receive _ _ _ _ _ _ _ _ _ _ Hmsg Ha). intros w k. apply carries_cancel_current. }
  intros E. pose proof (AG_channels (S n) m fine (lc_interrupt d) ln1 H1) as H2. rewrite E in H2. simpl in *. eapply AG_fine; [|exact H2]. by destruct fine.
Qed.

(** Any event of a lane: one it receives, or one of its guest. *)
Lemma AG_received n m fine msg digest ev ln :
  posts_to l p !! n = Some msg → received digest msg = Some ev → AG n m fine ln →
  AG (S n) m (fine && is_ok (run_lane_event ev ln).1) (run_lane_event ev ln).2.
Proof.
  intros Hmsg Hev H. destruct msg as [|id module_ member payload arguments endpoints|id d|req granted]; cbn [received] in Hev.
  - injection Hev as <-. apply AG_boot. by eapply AG_neutral.
  - injection Hev as <-. eapply AG_fine; [|by apply AG_task]. by destruct fine.
  - injection Hev as <-. by apply AG_cancel.
  - assert (AG (S n) m fine ln) as H1 by (by eapply AG_neutral). destruct (to_integer req); [|done]. destruct granted; injection Hev as <-; by apply AG_persistence.
Qed.

Lemma AG_guest n m fine ev ln :
  match ev with EvEffect _ _ | EvTurn _ | EvPersist | EvFailed _ => True | _ => False end → AG n m fine ln →
  AG n m (fine && is_ok (run_lane_event ev ln).1) (run_lane_event ev ln).2.
Proof.
  intros Hev. destruct ev as [digest|e|t|id dl| |r e g|op e|op]; try done; cbn [run_lane_event].
  - apply AG_failed.
  - apply returning_preserves. intros fi. apply preserves_bind; [apply AG_persist|intros _; apply preserves_ret].
  - apply returning_preserves. intros fi. apply AG_effect.
  - apply returning_preserves. intros fi. apply AG_turned.
Qed.
End LaneAgree.

(** ** What the pool hears *)

Section Hearing.
Context {CP item : Type} `{!ChannelService CP item} `{!ChannelLaws CP item} (has_channels : bool) (pf : platform).
Implicit Types (p : pool CP item).

Definition with_out (s : side item) (out : list Lane.lane_post) (fine : bool) : side item :=
  Side (sd_received s) (sd_inbox s) (sd_current s) (sd_announced s) out fine.

Lemma wire_out l s p out fine : wire l (with_out s out fine) p = wire l s p.
Proof. done. Qed.

Lemma agree_hear_quiet l s p x m out fine :
  agree l s p x → sd_out s = m :: out → reply_id m = None → ready_mark m = None → gave_up [m] = false → (fine = true → sd_fine s = true) →
  agree l (with_out s out fine) p x.
Proof.
  intros Ha Ho H1 H2 H3 Hf. pose proof Ha as [R O Y A Q C]. rewrite Ho in *.
  assert (before_failed (m :: out) = m :: before_failed out) as Eb by (by destruct m).
  assert (gave_up (m :: out) = gave_up out) as Eg by (by destruct m). rewrite Eb in Q. cbn in Q, Y. rewrite H1 in Q. rewrite H2 in Y.
  split; try done. rewrite Eg in C. intros Hg. specialize (C Hg). destruct s as [n inbox cu an o fi]. cbn in Ho, Hf. subst o.
  apply (carries_fine _ _ _ _ _ _ fi); [done|]. eapply carries_out; [|exact C]. cbn. by rewrite H1.
Qed.

Lemma app_cons_single {A} (xs rest : list A) i j : xs ++ i :: rest = [j] → xs = [] ∧ rest = [].
Proof. destruct xs as [|y [|]]; cbn; [by intros [= _ ->]|done..]. Qed.

(** A lane with nothing to answer is idle to the pool. *)
Lemma agree_cleared l s p x m out fine :
  agree l s p x → sd_out s = m :: out → gave_up [m] = false → ready_mark m = None → is_Some (reply_id m) →
  agree l (with_out s out fine) (set_laneObjects (mset l (lane_task None x) (p_laneObjects p)) p) (lane_task None x).
Proof.
  intros [R O Y A Q C] Ho H3 H2 [i Hi]. rewrite Ho in *.
  assert (before_failed (m :: out) = m :: before_failed out) as Eb by (by destruct m).
  assert (gave_up (m :: out) = gave_up out) as Eg by (by destruct m). rewrite Eb, Eg in *. cbn in Q, Y. rewrite Hi in Q. rewrite H2 in Y.
  destruct Q as [Q|Q]; [done|]. destruct (busy p x) as [k|] eqn:Eb'; [|done]. cbn in Q. injection Q as Ei Q.
  split; rewrite ?(busy_idle _ (lane_task None x)) by done; try done; [by left|]. intros Hg. destruct (C Hg) as [H1 _ _ _ _].
  destruct s as [n inbox cu an o fi]. cbn in Ho. subst o. change (wire l (with_out _ out fine) _) with (wire l (Side n inbox cu an (m :: out) fi) p).
  assert (held (wire l (Side n inbox cu an (m :: out) fi) p) (with_out (Side n inbox cu an (m :: out) fi) out fine) = []) as Hh.
  { destruct H1 as [H1|H1]; unfold held, carried in H1 |- *; cbn in H1 |- *; rewrite Hi in H1.
    - exfalso. apply app_nil in H1 as [_ H1]. by apply app_nil in H1 as [_ H1].
    - rewrite app_assoc in H1 |- *. by apply app_cons_single in H1 as [-> ->]. }
  destruct (held_nil _ _ Hh) as (Hw & Hcu & _ & Hp). split; rewrite ?Hh, ?Hw, ?Hp; try done; [by left| |rewrite Hcu; naive_solver|set_solver].
  unfold carried in Hw. apply app_nil in Hw as [Hw _]. by rewrite hits_no_work.
Qed.

(** A lane becomes ready with its task: it is posted, or posting throws. *)
Lemma hear_ready l s p x out :
  J l s p → mget l (p_laneObjects p) = Some x → l_failed x = None → terminated l p = false → sd_out s = PReady :: out →
  let r := laneMessage has_channels pf l MReady p in J l (with_out s out (sd_fine s && is_ok r.1)) r.2.
Proof.
  intros [Hb Hc] Hx Hf Ht Ho. cbv zeta. destruct Hc as [[G|(y & Hy & Hfy)]|Ha]; [congruence| |].
  { rewrite Hx in Hy. injection Hy as <-. rewrite Hf in Hfy. by destruct Hfy. }
  rewrite Hx in Ha. destruct Ha as [R O Y A Q C]. rewrite Ho in *. cbn in Y.
  assert (l_ready x = false ∧ sd_announced s = true ∧ omap ready_mark out = []) as (Hr & Han & Hno).
  { destruct (sd_announced s), (l_ready x); cbn in Y; try done. by injection Y. }
  rewrite (busy_unready p x Hr) in *. cbn [before_failed] in Q. assert (omap reply_id (before_failed out) = []) as Q' by (by destruct Q).
  assert (∀ fine, gave_up out = false → carries (wire l s p) (with_out s out (sd_fine s && fine)) None) as C'.
  { intros fine Hg. specialize (C Hg). destruct s as [n inbox cu an o fi]. cbn in Ho. subst o. apply (carries_fine _ _ _ _ _ _ fi); [by destruct fi|].
    by eapply carries_out; [|exact C]. }
  destruct (laneMessage has_channels pf l MReady p) as [r p'] eqn:E. revert E. unfold laneMessage.
  erewrite bind_run by (by apply get_lane_run). rewrite Hf. erewrite bind_run by (by apply upd_lane_run).
  set (p1 := set_laneObjects _ p). assert (mget l (p_laneObjects p1) = Some (lane_ready x)) as Hx1 by apply mget_mset_eq.
  assert (base p1) as Hb1 by (pose proof (base_upd_lane l lane_ready p Hb) as H; by rewrite (upd_lane_run l lane_ready x p Hx) in H).
  assert (∀ fine k, l_task x = k → (∀ t, k = Some t → is_Some (mget t (p_objects p)) ∧ fine = false) → agree l (with_out s out (sd_fine s && fine)) p1 (lane_ready x)) as Hidle.
  { intros fine o Ho' Hk. split; cbn; try done; [by rewrite Hno, andb_false_r|by left|]. intros Hg. specialize (C' fine Hg).
    change (wire l (with_out s out (sd_fine s && fine)) p1) with (wire l s p). unfold busy. cbn. rewrite Ho'. destruct o as [t|]; [|done]. cbn.
    destruct (Hk t eq_refl) as [[k Ek] ->]. change (p_objects p1) with (p_objects p). rewrite Ek. destruct C' as [H1 H2 H3 H4 H5].
    assert (held (wire l s p) (with_out s out (sd_fine s && false)) = []) as Hh by (by destruct H1).
    destruct (held_nil _ _ Hh) as (Hw & Hcu & _ & Hp). split; rewrite ?Hh, ?Hw, ?andb_false_r; try done; [by left|..].
    - intros H. by destruct (H3 H) as (? & ? & _).
    - intros H. by destruct (H4 H) as (? & ? & _).
    - set_solver. }
  destruct (l_task x) as [t|] eqn:Et.
  - destruct (O t eq_refl) as [k Hk]. rewrite (postAssigned_run pf l t k p1 Hk). pose proof (base_postAssigned pf l t p1 Hb1) as Hb2.
    rewrite (postAssigned_run pf l t k p1 Hk) in Hb2. destruct (post_fails pf l t) as [error|].
    + intros [= <- <-]. cbn [fst snd is_ok]. split; [done|]. right. rewrite Hx1. apply (Hidle false (Some t) eq_refl). intros t' [= <-]. split; [by exists k|done].
    + intros [= <- <-]. cbn [fst snd is_ok]. split; [done|]. right.
      match goal with |- match ?m with _ => _ end => replace m with (Some (lane_ready x)) by (symmetry; exact Hx1) end.
      apply (agree_posted l _ p t k (k_endpoints k)) with (k' := with_endpoints [] (cs_token <$> k_endpoints k) k); try done; [by apply C'| |].
      * unfold posts_to. simpl. rewrite omap_app. simpl. by rewrite decide_True.
      * simpl. apply mget_mset_eq.
  - intros [= <- <-]. cbn [fst snd is_ok]. split; [done|]. right. rewrite Hx1. by apply (Hidle true None).
Qed.

(** A reply is of the task the pool has on the lane. *)
Lemma reply_is_busy l s p x m out i :
  agree l s p x → sd_out s = m :: out → reply_id m = Some i →
  ∃ t k, l_task x = Some t ∧ mget t (p_objects p) = Some k ∧ k_id k = i.
Proof.
  intros [R O Y A Q C] Ho Hi. rewrite Ho in Q. assert (before_failed (m :: out) = m :: before_failed out) as Eb by (by destruct m).
  rewrite Eb in Q. cbn in Q. rewrite Hi in Q. destruct Q as [Q|Q]; [done|]. destruct (busy p x) as [k|] eqn:Eb'; [|done]. injection Q as Q _.
  unfold busy in Eb'. destruct (l_task x) as [t|]; [|done]. cbn in Eb'. destruct (l_ready x); [|done]. by exists t, k.
Qed.

Lemma hear_reply l s p x m out i status payload error deadline fine :
  J l s p → mget l (p_laneObjects p) = Some x → l_failed x = None → agree l s p x → sd_out s = m :: out → gave_up [m] = false → ready_mark m = None →
  reply_id m = Some i →
  J l (with_out s out fine) (laneMessage has_channels pf l (MReply (VNum (NInt i)) status payload error deadline) p).2.
Proof.
  intros [Hb _] Hx Hf Ha Ho Hg Hm Hi. destruct (reply_is_busy l s p x m out i Ha Ho Hi) as (t & k & Ht & Hk & <-).
  unfold laneMessage. erewrite bind_run by (by apply get_lane_run). rewrite Hf, (bs_safe _ Hb t k Hk), Ht. cbn [negb].
  erewrite bind_run by (by apply get_task_run). rewrite Z.eqb_refl. cbn [negb]. erewrite bind_run by (by apply upd_lane_run).
  apply J_replied. split.
  - pose proof (base_upd_lane l (lane_task None) p Hb) as H. by rewrite (upd_lane_run l _ x p Hx) in H.
  - right. simpl. rewrite mget_mset_eq. by eapply agree_cleared.
Qed.

Lemma J_fine l s p fine : J l s p → (fine = true → sd_fine s = true) → J l (with_out s (sd_out s) fine) p.
Proof.
  intros [Hb Hc] Hf. split; [done|]. destruct Hc as [G|Hc]; [by left|right]. destruct (mget l (p_laneObjects p)) as [x|]; [|done].
  destruct Hc as [R O Y A Q C]. split; try done. intros Hg. specialize (C Hg). destruct s as [n inbox cu an o fi]. by apply (carries_fine _ _ _ _ _ _ fi).
Qed.

(** The pool hears the next message of a lane. *)
Lemma J_heard l s p x m out :
  pool_wf None p → J l s p → mget l (p_laneObjects p) = Some x → terminated l p = false → sd_out s = m :: out →
  let r := laneMessage has_channels pf l (heard m) p in J l (with_out s out (sd_fine s && is_ok r.1)) r.2.
Proof.
  intros Hw Hp Hx Ht Ho. cbv zeta. destruct (l_failed x) eqn:Hf.
  { unfold laneMessage. rewrite !(bind_run _ _ _ _ _ (get_lane_run l x p Hx)), Hf. split; [apply Hp|]. left; right. exists x. by rewrite Hf. }
  pose proof Hp as [Hb [[G|(y & Hy & Hfy)]|Ha]]; [congruence|rewrite Hx in Hy; injection Hy as <-; rewrite Hf in Hfy; by destruct Hfy|].
  rewrite Hx in Ha.
  assert (∀ fine, reply_id m = None → ready_mark m = None → gave_up [m] = false → J l (with_out s out (sd_fine s && fine)) p) as Hquiet.
  { intros fine H1 H2 H3. split; [done|]. right. rewrite Hx. eapply agree_hear_quiet; try done. by destruct (sd_fine s). }
  destruct m as [|id|id status payload error deadline|id deadline|requestId|error]; cbn [heard].
  - by eapply hear_ready.
  - set (r := (laneMessage _ _ _ _ _).1). specialize (Hquiet (is_ok r) eq_refl eq_refl eq_refl). clearbody r.
    unfold laneMessage. erewrite bind_run by (by apply get_lane_run). rewrite Hf. destruct (l_task x); [by apply J_started|done].
  - by eapply hear_reply.
  - by eapply hear_reply.
  - set (r := (laneMessage _ _ _ _ _).1). specialize (Hquiet (is_ok r) eq_refl eq_refl eq_refl). clearbody r.
    unfold laneMessage. erewrite bind_run by (by apply get_lane_run). by rewrite Hf.
  - set (r := (laneMessage _ _ _ _ _).1). clearbody r. unfold laneMessage. erewrite bind_run by (by apply get_lane_run). rewrite Hf.
    unfold laneFailure. apply (J_failing _ _ _ _ _ x); try done; [apply J_dispatch|].
    intros t Htx. by destruct (v_busy _ _ Hw l x t Hx Htx) as (_ & _ & k & Hk & _); exists k.
Qed.
End Hearing.

(** ** The system *)

Section System.
Context {CP CL item D : Type} `{!ChannelService CP item} `{!ChannelLaws CP item} `{!LaneChannels CL item D}
  (has_channels : bool) (pf : platform).
Implicit Types sy : system CP CL item D.

Definition side_of (l : Z) sy : side item := lane_side (sy_received sy l) (sy_heard sy l) (negb (sy_thrown sy l)) (sy_lane sy l).

Record sys_wf sy : Prop := {
  sw_pool : pool_wf None (sy_pool sy);
  sw_lanes : ∀ l, J l (side_of l sy) (sy_pool sy);
  sw_heard : ∀ l, (sy_heard sy l <= length (ln_posts (sy_lane sy l)))%nat
}.

Lemma fset_eq {A} (f : Z → A) l v : fset f l v l = v.
Proof. unfold fset. by rewrite decide_True. Qed.
Lemma fset_ne {A} (f : Z → A) l l' v : l' ≠ l → fset f l v l' = f l'.
Proof. intros H. unfold fset. by rewrite decide_False. Qed.

Lemma live_lane l p : live l p = true → ∃ x : lane, mget l (p_laneObjects (C:=CP) (item:=item) p) = Some x ∧ terminated l p = false.
Proof.
  unfold live, mhas. destruct (mget l (p_laneObjects p)) as [x|]; [|done]. cbn. intros H. exists x. split; [done|]. by destruct (terminated l p).
Qed.

(** What a lane posted stays posted. *)
Lemma posts_grow m (ev : lane_event item) : preserves (λ ln : Lane.lane CL item D, (m <= length (ln_posts ln))%nat) (run_lane_event ev).
Proof.
  assert (∀ f : Lane.lane CL item D → Lane.lane CL item D, (∀ ln, ∃ more, ln_posts (f ln) = ln_posts ln ++ more) →
    preserves (λ ln, (m <= length (ln_posts ln))%nat) (modify f)) as Hm.
  { intros f Hf. apply preserves_modify. intros ln Hln. destruct (Hf ln) as [more ->]. rewrite length_app. lia. }
  assert (∀ A (c : js CL A), preserves (λ ln : Lane.lane CL item D, (m <= length (ln_posts ln))%nat) (Lane.on_channels c)) as Hc.
  { intros A c ln Hln. unfold Lane.on_channels, zoom. by destruct (c (ln_channels ln)). }
  destruct ev as [digest|e|t|id dl| |r e g|op e|op]; cbn [run_lane_event];
    unfold boot, Lane.failed, assign, Lane.cancel, cancel_queued, requestPersistentStorage, persistence_answered, performLaneEffect, reply,
      announce_ready, nextTask, begin_task, turned, answer, postMessage;
    preserve; first [apply Hc | apply Hm; intros ln; cbn; first [by eexists | exists []; by rewrite app_nil_r]].
Qed.

(** A lane does something that keeps it in agreement. *)
Lemma handles_wf l ev n sy :
  sys_wf sy → live l (sy_pool sy) = true →
  (∀ x fine, AG l (sy_pool sy) x (sy_received sy l) (sy_heard sy l) fine (sy_lane sy l) →
     AG l (sy_pool sy) x n (sy_heard sy l) (fine && is_ok (run_lane_event ev (sy_lane sy l)).1) (run_lane_event ev (sy_lane sy l)).2) →
  sys_wf (lane_handles l ev n sy).
Proof.
  intros [W L H] Hl Hag. destruct (live_lane l _ Hl) as (x & Hx & Ht). unfold lane_handles.
  specialize (Hag x (negb (sy_thrown sy l))). pose proof (posts_grow (sy_heard sy l) ev (sy_lane sy l) (H l)) as Hgr.
  destruct (run_lane_event ev (sy_lane sy l)) as [r ln]. cbn [fst snd] in Hag, Hgr. split; cbn [sy_pool sy_heard sy_lane]; [done| |].
  - intros l'. unfold side_of. cbn [sy_lane sy_received sy_heard sy_thrown]. unfold set_thrown. destruct (decide (l' = l)) as [->|Hne]; [|rewrite !fset_ne by done; apply L].
    rewrite !fset_eq. destruct (L l) as [Hb Hc]. split; [done|]. destruct Hc as [G|Hc]; [by left|right]. rewrite Hx in *.
    destruct (Hag (conj (H l) Hc)) as [_ Ha]. rewrite negb_orb, negb_involutive. exact Ha.
  - intros l'. destruct (decide (l' = l)) as [->|Hne]; [by rewrite fset_eq|rewrite fset_ne by done; apply H].
Qed.

Lemma sys_step_wf sy ev : sys_wf sy → sys_wf (sys_step has_channels pf sy ev).
Proof.
  intros Hs. pose proof Hs as [W L H]. destruct ev as [op|l digest|l|l op e|l op|l|l error]; cbn [sys_step].
  - destruct (own_op (sy_pool sy) op) eqn:Ho; [|done]. split; cbn; [by apply preserves_run_pool_op| |done].
    intros l. change (side_of l (System _ _ _ _ _)) with (side_of l sy). apply J_own; [done|apply L|]. intros l' m ->. done.
  - destruct (live l (sy_pool sy)) eqn:Hl; [|done]. destruct (posts_to l (sy_pool sy) !! sy_received sy l) as [msg|] eqn:Hm; [|done].
    destruct (received digest msg) as [ev|] eqn:Hev.
    + apply handles_wf; [done..|]. intros x fine Ha. by eapply AG_received.
    + destruct (live_lane l _ Hl) as (x & Hx & Ht). split; cbn; [done| |done]. intros l'. unfold side_of. cbn.
      destruct (decide (l' = l)) as [->|Hne]; [|rewrite fset_ne by done; apply L]. rewrite fset_eq. destruct (L l) as [Hb Hc]. split; [done|].
      destruct Hc as [G|Hc]; [by left|right]. rewrite Hx in *. eapply (AG_neutral l _ x _ _ _ msg); [done|by destruct msg|]. split; [apply H|done].
  - destruct (live l (sy_pool sy)) eqn:Hl; [|done]. destruct (live_lane l _ Hl) as (x & Hx & Ht).
    destruct (ln_posts (sy_lane sy l) !! sy_heard sy l) as [m|] eqn:Hm; [|done].
    pose proof (J_heard has_channels pf l (side_of l sy) (sy_pool sy) x m (drop (S (sy_heard sy l)) (ln_posts (sy_lane sy l))) W (L l) Hx Ht
      ltac:(unfold side_of, lane_side; cbn; by apply drop_S)) as Hj. cbv zeta in Hj.
    pose proof (preserves_run_pool_op has_channels pf (OpMessage l (heard m)) (sy_pool sy) W) as W'.
    pose proof (λ l', J_other_message has_channels pf l' (side_of l' sy) l (heard m) (sy_pool sy) W (L l')) as Hoth.
    cbn [run_pool_op] in *. destruct (laneMessage has_channels pf l (heard m) (sy_pool sy)) as [r p']. cbn [fst snd] in *.
    split; cbn; [done| |].
    + intros l'. unfold side_of, set_thrown. cbn. destruct (decide (l' = l)) as [->|Hne]; [|rewrite !fset_ne by done; by apply Hoth].
      rewrite !fset_eq, negb_orb, negb_involutive. exact Hj.
    + intros l'. destruct (decide (l' = l)) as [->|Hne]; [|rewrite fset_ne by done; apply H]. rewrite fset_eq. apply lookup_lt_Some in Hm. lia.
  - destruct (live l (sy_pool sy)) eqn:Hl; [|done]. apply handles_wf; [done..|]. intros x fine. by apply AG_guest.
  - destruct (live l (sy_pool sy)) eqn:Hl; [|done]. apply handles_wf; [done..|]. intros x fine. by apply AG_guest.
  - destruct (live l (sy_pool sy)) eqn:Hl; [|done]. apply handles_wf; [done..|]. intros x fine. by apply AG_guest.
  - destruct (live l (sy_pool sy)) eqn:Hl; [|done]. apply handles_wf; [done..|]. intros x fine. by apply AG_guest.
Qed.

Lemma run_system_wf sy evs : sys_wf sy → sys_wf (run_system has_channels pf sy evs).
Proof. unfold run_system. revert sy. induction evs as [|ev evs IH]; intros sy Hs; [done|]. cbn. apply IH. by apply sys_step_wf. Qed.

Lemma start_wf o c0 p c : createWorkerPool o c0 = Ok p → sys_wf (start_system p c).
Proof.
  intros Hp. split; cbn; [by eapply wf_create| |done]. intros l.
  assert (p_laneObjects p = [] ∧ p_objects p = [] ∧ p_log p = []) as (E1 & E2 & E3).
  { revert Hp. unfold createWorkerPool. destruct (negb _); [done|]. destruct (negb _); [done|]. destruct (to_safe _) as [n|]; [|done]. destruct (n <? 1); [done|].
    by intros [= <-]. }
  split; [split; rewrite ?E1, ?E2; done|]. right. rewrite E1. cbn. unfold unopened, posts_to. by rewrite E3.
Qed.

(** What is on its way to a lane, what is on its way back, and every task that is anywhere between. *)
Definition to_lane (l : Z) sy : list (lane_post item) := drop (sy_received sy l) (posts_to l (sy_pool sy)).
Definition to_pool (l : Z) sy : list Lane.lane_post := drop (sy_heard sy l) (ln_posts (sy_lane sy l)).
Definition with_lane_tasks (l : Z) sy : list Z :=
  (work_id <$> omap post_work (to_lane l sy)) ++ queued (sy_lane sy l) ++ running (sy_lane sy l) ++ omap reply_id (to_pool l sy).

(** The task the pool has on a lane. *)
Definition assigned (l : Z) sy (k : task item) : Prop :=
  ∃ x t, mget l (p_laneObjects (sy_pool sy)) = Some x ∧ l_task x = Some t ∧ l_ready x = true ∧ mget t (p_objects (sy_pool sy)) = Some k.

Lemma assigned_busy l sy x k : mget l (p_laneObjects (sy_pool sy)) = Some x → busy (sy_pool sy) x = Some k ↔ assigned l sy k.
Proof.
  intros Hx. unfold busy, assigned. split.
  - destruct (l_task x) as [t|] eqn:Et; [|done]. cbn. destruct (l_ready x) eqn:Er; [|done]. intros Hk. by exists x, t.
  - intros (x' & t & Hx' & Et & Er & Hk). rewrite Hx in Hx'. injection Hx' as <-. by rewrite Et, Er.
Qed.

Lemma held_side l sy : held (wire l (side_of l sy) (sy_pool sy)) (side_of l sy) = with_lane_tasks l sy.
Proof.
  unfold held, carried, with_lane_tasks, wire, to_lane, to_pool, queued, running. cbn. rewrite fmap_app, <- !app_assoc. f_equal. f_equal.
  by rewrite <- list_fmap_compose.
Qed.

Lemma live_agree l sy :
  sys_wf sy → live l (sy_pool sy) = true → ∃ x, mget l (p_laneObjects (sy_pool sy)) = Some x ∧
    (l_failed x = None → agree l (side_of l sy) (sy_pool sy) x).
Proof.
  intros [W L _] Hl. destruct (live_lane l _ Hl) as (x & Hx & Ht). exists x. split; [done|]. intros Hf.
  destruct (L l) as [_ [[G|(y & Hy & Hfy)]|Ha]]; [congruence| |by rewrite Hx in Ha]. rewrite Hx in Hy. injection Hy as <-. rewrite Hf in Hfy. by destruct Hfy.
Qed.

(** C1 The pool and its lanes agree on what each lane has, wherever it is. In any run of a pool together with its lanes, whose messages arrive in
    the order they were posted, whatever the guests do and however tasks are submitted, cancelled and failed: a lane that runs and has not given
    up has at most one task, counting the tasks and the replies on their way, and it is the one the pool has assigned to it, also when ids are
    used again; unless a handler threw, it has exactly that one; what is on its way to it or waits in its inbox is the work that was submitted;
    and its task is told of a cancellation only when the pool was asked to cancel that task, never by a cancellation that came too late for an
    earlier one. *)
Theorem pool_and_lanes_agree o c0 p0 c evs l x :
  createWorkerPool o c0 = Ok p0 →
  let sy := run_system has_channels pf (start_system p0 c) evs in
  live l (sy_pool sy) = true → mget l (p_laneObjects (sy_pool sy)) = Some x → l_failed x = None → gave_up (to_pool l sy) = false →
  (with_lane_tasks l sy = [] ∨ ∃ k, assigned l sy k ∧ with_lane_tasks l sy = [k_id k]) ∧
  (sy_thrown sy l = false → ∀ k, assigned l sy k → with_lane_tasks l sy = [k_id k]) ∧
  (∀ w, w ∈ omap post_work (to_lane l sy) ++ (lane_work <$> ln_inbox (sy_lane sy l)) → ∃ k, assigned l sy k ∧ task_work k = w) ∧
  (∀ cu, ln_current (sy_lane sy l) = Some cu → cu_cancelled cu = true → ∃ k, assigned l sy k ∧ k_cancelRequested k = true).
Proof.
  intros Hp sy Hl Hx Hf Hg. destruct (live_agree l sy) as (x' & Hx' & Ha); [by eapply run_system_wf, start_wf|done|].
  rewrite Hx in Hx'. injection Hx' as <-. specialize (Ha Hf). destruct (ag_carries _ _ _ _ Ha Hg) as [H1 H2 _ H4 H5]. rewrite held_side in *.
  split_and!.
  - destruct H1 as [H1|H1]; [by left|]. destruct (busy (sy_pool sy) x) as [k|] eqn:Eb; [|by left]. right. exists k. split; [by eapply assigned_busy|done].
  - intros Ht k Hk. apply (assigned_busy l sy x k Hx) in Hk. rewrite Hk in H2. apply H2. cbn. by rewrite Ht.
  - intros w Hw. specialize (H5 w Hw). destruct (busy (sy_pool sy) x) as [k|] eqn:Eb; [|done]. injection H5 as <-. exists k. split; [by eapply assigned_busy|done].
  - intros cu Hcu Hc. destruct H4 as (k & Hk & ?); [by exists cu|]. exists k. split; [by eapply assigned_busy|done].
Qed.

(** The result a lane's message carries. *)
Definition reply_of (m : Lane.lane_post) : option task_result :=
  match m with
  | PReply _ status payload error deadline => Some (reply_result status payload error (VBool deadline))
  | PCancelled _ deadline => Some (TaskCancelled deadline)
  | _ => None
  end.

(** C3 A lane's reply reaches the task it is of. In any such run, when the pool hears a reply of a lane, the lane has the task of that id
    assigned, and unless it had settled before, the task has settled afterwards with what the reply carries. *)
Theorem lane_reply_settles o c0 p0 c evs l x m rest r :
  createWorkerPool o c0 = Ok p0 →
  let sy := run_system has_channels pf (start_system p0 c) evs in
  live l (sy_pool sy) = true → mget l (p_laneObjects (sy_pool sy)) = Some x → l_failed x = None → to_pool l sy = m :: rest → reply_of m = Some r →
  ∃ t k, l_task x = Some t ∧ mget t (p_objects (sy_pool sy)) = Some k ∧ reply_id m = Some (k_id k) ∧
    (k_settled k = false → ∃ k', mget t (p_objects (sy_pool (sys_step has_channels pf sy (SyHear l)))) = Some k' ∧
       k_id k' = k_id k ∧ k_settled k' = true ∧ k_result k' = Some r).
Proof.
  intros Hp sy Hl Hx Hf Ho Hr. assert (sys_wf sy) as Hs by (by eapply run_system_wf, start_wf).
  destruct (live_agree l sy Hs Hl) as (x' & Hx' & Ha). rewrite Hx in Hx'. injection Hx' as <-. specialize (Ha Hf).
  assert (∃ i, reply_id m = Some i) as [i Hi] by (destruct m; try done; by eexists).
  destruct (reply_is_busy l _ _ x m rest i Ha Ho Hi) as (t & k & Ht & Hk & Hid). exists t, k. rewrite Hi, Hid. split_and!; try done.
  intros Hu. cbn [sys_step]. rewrite Hl. assert (ln_posts (sy_lane sy l) !! sy_heard sy l = Some m) as Hm.
  { unfold to_pool in Ho. rewrite <- (Nat.add_0_r (sy_heard sy l)), <- lookup_drop. by rewrite Ho. }
  rewrite Hm. cbn [run_pool_op]. destruct (laneMessage has_channels pf l (heard m) (sy_pool sy)) as [e p'] eqn:E. cbn [sy_pool].
  destruct (sw_lanes _ Hs l) as [Hb _].
  assert (∃ status payload error deadline, heard m = MReply (VNum (NInt i)) status payload error deadline ∧ reply_result status payload error deadline = r)
    as (status & payload & error & deadline & Eh & Er).
  { destruct m; try done; injection Hi as <-; injection Hr as <-; do 4 eexists; (split; [done|]); [done|]. cbn. f_equal. by destruct deadline. }
  rewrite Eh in E. revert E. unfold laneMessage. erewrite bind_run by (by apply get_lane_run). rewrite Hf, <- Hid, (bs_safe _ Hb t k Hk), Ht.
  erewrite bind_run by (by apply get_task_run). rewrite Z.eqb_refl. cbn [negb]. erewrite bind_run by (by apply upd_lane_run).
  erewrite bind_run by (by apply (settle_run t k)). rewrite Hu, Er. set (p1 := log _ _). intros E.
  assert (mget t (p_objects p1) = Some (with_settled r k)) as Hk1 by apply mget_mset_eq.
  assert (t < p_nextTask p1) as Hlt by (apply (bs_tasks _ Hb t k Hk)). clearbody p1.
  assert (evolves p1 p') as Hev.
  { replace p' with (e, p').2 by done. rewrite <- E. apply preserves_bind; [|intros _; apply evolving_dispatch|apply evolves_refl].
    apply preserves_when. apply preserves_bind; [apply evolving_modify; done|intros _; by apply evolving_modify]. }
  destruct (ev_tasks _ _ Hev t _ Hlt Hk1) as (k' & Hk' & Hid' & Hset). destruct (Hset eq_refl) as [? Hres]. exists k'. by split_and!.
Qed.
End System.
