(* ===== verification/PoolLanesDemo.v ===== *)
(** A pool and a lane at work over the endpoint tables both have: the theorems of [PoolLanesSpec] on a concrete run. *)

From S2P Require Import Prelude PortChannel ChannelHost Lane LaneSpec WorkerPool WorkerPoolInvariant WorkerPoolRun PoolChannels WorkerPoolResults PoolLanes PoolLanesSpec.

(** A task is submitted, its lane boots and asks for work, the pool hears that it is ready and posts the task, which is then cancelled; the
    lane has received both. *)
Definition demo_cancelled : list sys_event :=
  [ SyPool (OpSubmit (Some [WorkerPoolResults.demo_task 1 false])); SyReceive 1 (VStr "digest"); SyEffect 1 10 LNext; SyHear 1;
    SyPool (OpCancel 1); SyReceive 1 VUndef; SyReceive 1 VUndef ].
(** Its guest replies; the pool hears that it started. *)
Definition demo_replied : list sys_event :=
  demo_cancelled ++ [SyEffect 1 11 (LReply (VNum (NInt 1)) (VStr "done") (VStr "result") VUndef false); SyHear 1].
Definition demo_system (evs : list sys_event) : system host host transfer_item description :=
  run_system true demo_platform (start_system demo_pool createChannelHost) evs.

Lemma pool_and_lanes_agree_witness :
  with_lane_tasks 1 (demo_system demo_cancelled) = [1] ∧ ∃ k, assigned 1 (demo_system demo_cancelled) k ∧ k_cancelRequested k = true.
Proof.
  destruct (pool_and_lanes_agree (D:=description) true demo_platform demo_options createChannelHost demo_pool createChannelHost demo_cancelled 1
    (Lane (Some 1) false true None)) as (_ & _ & _ & H); [vm_compute; reflexivity..|].
  split; [by vm_compute|]. apply (H (Current 1 true false)); vm_compute; reflexivity.
Defined.

Lemma lane_reply_settles_witness :
  ∃ k', mget 1 (p_objects (sy_pool (sys_step true demo_platform (demo_system demo_replied) (SyHear 1)))) = Some k' ∧ k_settled k' = true ∧ k_result k' = Some (TaskDone "result").
Proof.
  destruct (lane_reply_settles (D:=description) true demo_platform demo_options createChannelHost demo_pool createChannelHost demo_replied 1
    (Lane (Some 1) false true None) (PReply 1 (VStr "done") (VStr "result") VUndef false) [] (TaskDone "result"))
    as (t & k & Ht & Hk & _ & H); [vm_compute; reflexivity..|].
  injection Ht as <-. destruct H as (k' & Hk' & _ & Hs & Hr).
  - vm_compute in Hk. injection Hk as <-. reflexivity.
  - exists k'. split_and!; [exact Hk'|exact Hs|exact Hr].
Defined.
