(* ===== verification/Assets.v ===== *)
(** Verified assets, [src/runtime/luajit/assets.mjs].

    What the network, the decompressor and the hash function give is a parameter: a
    stream of chunks that may break off with an error, and a digest.  The cache of a
    manifest's assets keeps how each download ended. *)

From S2P Require Import Prelude Wire WorkerPool EffectCodec.

Definition MAX_ASSET_BYTES : Z := 256 * 1024 * 1024.

(** ** Streams *)

(** The chunks a reader yields and the error it ends with, if it does. *)
Record stream := Stream {
  sm_chunks : list (list byte);
  sm_error : option string
}.

(** The loop of both readers: the running length is checked before a chunk is kept. *)
Fixpoint read_bounded (chunks : list (list byte)) (error : option string) (max length : Z) (tooLong : string)
    : res (list (list byte) * Z) :=
  match chunks with
  | [] => match error with Some e => Throw e | None => Ok ([], length) end
  | chunk :: chunks' =>
      let length' := length + zlen chunk in
      if max <? length' then Throw tooLong
      else
        '(kept, total) ← read_bounded chunks' error max length' tooLong;
        mret (chunk :: kept, total)
  end.

(** [bytes.set(chunk, offset)] for chunk after chunk. *)
Fixpoint fill (chunks : list (list byte)) (offset : Z) (bytes : list byte) : list byte :=
  match chunks with
  | [] => bytes
  | chunk :: chunks' => fill chunks' (offset + zlen chunk) (splice offset chunk bytes)
  end.

Definition collect (chunks : list (list byte)) (length : Z) : list byte := fill chunks 0 (replicate (Z.to_nat length) x00).

Definition inflateSnapshot (inflate : stream) (expectedBytes : jsval) : res (list byte) :=
  match to_safe expectedBytes with
  | Some expected =>
      if (expected <=? 0) || (MAX_ASSET_BYTES <? expected) then Throw "Invalid snapshot extent"
      else
        '(chunks, length) ← read_bounded (sm_chunks inflate) (sm_error inflate) expected 0 "Snapshot exceeds its declared extent";
        if negb (length =? expected) then Throw "Snapshot extent mismatch" else Ok (collect chunks length)
  | None => Throw "Invalid snapshot extent"
  end.

(** ** Manifests *)

Record asset_record := AssetRecord {
  as_sha256 : jsval;
  as_bytes : jsval
}.

(** A guest's manifest, as far as [loadManifest] checks it. *)
Record guest_manifest := GuestManifest {
  gm_schema : jsval;
  gm_guestAbi : jsval;
  gm_architecture : jsval;
  gm_buildKey : jsval;
  gm_hasAssets : bool
}.

Definition loadManifest (response : res guest_manifest) : res guest_manifest :=
  m ← response;
  if negb (bool_decide (gm_schema m = VNum (NInt 1))) || negb (bool_decide (gm_guestAbi m = VNum (NInt 1))) ||
     negb (bool_decide (gm_architecture m = VStr "i386-linux-musl")) || negb (is_digest (gm_buildKey m)) ||
     negb (gm_hasAssets m)
  then Throw "Unsupported guest manifest" else Ok m.

(** The manifest an asset comes from: its records, and what it is delivered encoded as. *)
Record asset_manifest := AssetManifest {
  am_assets : jmap string asset_record;
  am_delivery : jmap string string
}.

(** [name.split('/')]. *)
Fixpoint split_slash (l : list byte) (part : list byte) : list (list byte) :=
  match l with
  | [] => [part]
  | b :: l' => if bool_decide (b = x2f) then part :: split_slash l' [] else split_slash l' (part ++ [b])
  end.

Definition relative_name (name : string) : bool :=
  let l := text_bytes name in
  negb (bool_decide (head l = Some x2f)) && negb (bool_decide ([x2e; x2e] ∈ split_slash l [])).

(** The extent of a valid record. *)
Definition checked_record (m : asset_manifest) (name : string) : res (asset_record * Z) :=
  match mget name (am_assets m) with
  | Some r =>
      match to_safe (as_bytes r) with
      | Some n =>
          if is_digest (as_sha256 r) && (0 <? n) && (n <=? MAX_ASSET_BYTES) && relative_name name then Ok (r, n)
          else Throw ("Invalid guest asset: " +:+ name)
      | None => Throw ("Invalid guest asset: " +:+ name)
      end
  | None => Throw ("Invalid guest asset: " +:+ name)
  end.

Section Verified.
Context (m : asset_manifest).
(** Whether a name resolves within the base's origin, the response to a name, the
    decompression of bytes, and the hash function. *)
Context (same_origin : string → bool) (fetch : string → res stream) (gunzip : list byte → stream) (digest : list byte → list byte).

Definition sha256 (bytes : list byte) : string := bytes_text (hex (digest bytes)).

Definition download (name : string) (r : asset_record) (n : Z) : res (list byte) :=
  s ← fetch name;
  '(chunks, length) ← read_bounded (sm_chunks s) (sm_error s) n 0 ("Guest asset exceeds manifest size: " +:+ name);
  if negb (length =? n) then Throw ("Guest asset size mismatch: " +:+ name)
  else
    let bytes := collect chunks length in
    if negb (bool_decide (VStr (sha256 bytes) = as_sha256 r)) then Throw ("Guest asset SHA-256 mismatch: " +:+ name) else Ok bytes.

(** [pending.set(name, result)]: how a download ends is kept, an error too. *)
Definition keep (name : string) (work : js (jmap string (res (list byte))) (list byte)) : js (jmap string (res (list byte))) (list byte) := λ p,
  let '(result, p') := work p in (result, mset name result p').

(** The body of [verified(name)], where [rec] is its call for an encoded asset. *)
Definition verified_with (rec : string → js (jmap string (res (list byte))) (list byte)) (name : string)
    : js (jmap string (res (list byte))) (list byte) :=
  pending ← gets (λ p, p);
  match mget name pending with
  | Some result => lift result
  | None =>
      '(r, n) ← lift (checked_record m name);
      guard_js (negb (same_origin name)) "Guest asset crosses origins" ;;
      keep name
        match mget name (am_delivery m) with
        | Some encoded =>
            guard_js (bool_decide (encoded = name) || bool_decide (is_Some (mget encoded (am_delivery m))))
              "Cyclic guest asset encoding" ;;
            packed ← rec encoded;
            bytes ← lift (inflateSnapshot (gunzip packed) (as_bytes r));
            guard_js (negb (bool_decide (VStr (sha256 bytes) = as_sha256 r))) ("Guest asset SHA-256 mismatch: " +:+ name) ;;
            mret bytes
        | None => lift (download name r n)
        end
  end.

(** [verified(name)]: an encoded asset is never delivered encoded again, so one asset
    asks for at most one other, and two levels of fuel are enough. *)
Fixpoint verified (fuel : nat) (name : string) : js (jmap string (res (list byte))) (list byte) :=
  match fuel with
  | O => throw "out of fuel"
  | S fuel => verified_with (verified fuel) name
  end.

Definition verify : string → js (jmap string (res (list byte))) (list byte) := verified 2.

(** A sequence of requests, each with its outcome. *)
Fixpoint verify_all (names : list string) : js (jmap string (res (list byte))) (list (string * res (list byte))) :=
  match names with
  | [] => mret []
  | name :: names' => λ p,
      let '(r, p') := verify name p in
      match verify_all names' p' with
      | (Ok rest, p'') => (Ok ((name, r) :: rest), p'')
      | (Throw e, p'') => (Throw e, p'')
      end
  end.
End Verified.

(** ** Streams *)

Lemma read_bounded_Ok chunks error max length tooLong kept total :
  read_bounded chunks error max length tooLong = Ok (kept, total) →
  kept = chunks ∧ error = None ∧ total = length + zlen (concat chunks) ∧ (length <= max → total <= max).
Proof.
  revert length kept total. induction chunks as [|c chunks IH]; intros length kept total; simpl.
  - destruct error; [done|]. intros [= <- <-]. rewrite Z.add_0_r. auto.
  - destruct (Z.ltb_spec max (length + zlen c)); [done|].
    destruct (read_bounded _ _ _ _ _) as [[k t]|] eqn:E; [|done]. intros [= <- <-].
    apply IH in E as (-> & -> & -> & Hle). rewrite zlen_app. split; [done|]. split; [done|]. split; [lia|]. intros _. apply Hle. lia.
Qed.

Lemma fill_concat chunks before rest :
  zlen rest = zlen (concat chunks) → fill chunks (zlen before) (before ++ rest) = before ++ concat chunks.
Proof.
  revert before rest. induction chunks as [|c chunks IH]; intros before rest Hl; simpl in *.
  { f_equal. apply length_zero_iff_nil. unfold zlen in Hl. simpl in Hl. lia. }
  rewrite zlen_app in Hl.
  assert (splice (zlen before) c (before ++ rest) = (before ++ c) ++ drop (length c) rest) as ->.
  { unfold splice, zlen. rewrite Nat2Z.id, take_app_length, <- app_assoc. f_equal. f_equal. rewrite drop_app_ge by lia. f_equal. lia. }
  rewrite <- zlen_app, IH; [by rewrite <- app_assoc|]. unfold zlen in *. rewrite length_drop. lia.
Qed.

(** Copying the chunks into one buffer concatenates them. *)
Lemma collect_concat chunks : collect chunks (zlen (concat chunks)) = concat chunks.
Proof.
  apply (fill_concat chunks []). unfold zlen. rewrite length_replicate. lia.
Qed.

Lemma inflate_length inflate expected bytes n :
  to_safe expected = Some n → inflateSnapshot inflate expected = Ok bytes → zlen bytes = n.
Proof.
  unfold inflateSnapshot. intros ->. destruct (_ || _); [done|]. destruct (read_bounded _ _ _ _ _) as [[k t]|] eqn:E; [|done]. simpl.
  destruct (Z.eqb_spec t n) as [->|]; [|done]. simpl. intros [= <-]. apply read_bounded_Ok in E as (-> & _ & -> & _).
  by rewrite Z.add_0_l, collect_concat.
Qed.

(** ** Integrity *)

Section Integrity.
Context (m : asset_manifest) (same_origin : string → bool) (fetch : string → res stream) (gunzip : list byte → stream)
  (digest : list byte → list byte).

(** What the manifest says of an asset is true of the bytes. *)
Definition authentic (name : string) (bytes : list byte) : Prop :=
  ∃ r n, mget name (am_assets m) = Some r ∧ to_safe (as_bytes r) = Some n ∧ 0 < n <= MAX_ASSET_BYTES ∧ zlen bytes = n ∧
    VStr (sha256 digest bytes) = as_sha256 r ∧ relative_name name = true ∧ same_origin name = true.

Definition cache_ok (p : jmap string (res (list byte))) : Prop :=
  ∀ name bytes, mget name p = Some (Ok bytes) → authentic name bytes.

Lemma checked_record_Ok name r n :
  checked_record m name = Ok (r, n) →
  mget name (am_assets m) = Some r ∧ to_safe (as_bytes r) = Some n ∧ 0 < n <= MAX_ASSET_BYTES ∧ relative_name name = true.
Proof.
  unfold checked_record. destruct (mget name (am_assets m)) as [r'|]; [|done]. destruct (to_safe (as_bytes r')) as [n'|] eqn:En; [|done].
  destruct (_ && _ && _ && _) eqn:E; [|done]. intros [= -> ->]. apply andb_prop in E as [[[_ H1]%andb_prop H2]%andb_prop H3].
  split; [done|]. split; [done|]. split; [lia|done].
Qed.

Lemma download_Ok name r n bytes :
  download fetch digest name r n = Ok bytes → zlen bytes = n ∧ VStr (sha256 digest bytes) = as_sha256 r.
Proof.
  unfold download. destruct (fetch name) as [s|]; [|done]. simpl. destruct (read_bounded _ _ _ _ _) as [[k t]|] eqn:E; [|done]. simpl.
  destruct (Z.eqb_spec t n) as [->|]; [|done]. simpl. case_bool_decide as Hd; [|done]. intros [= <-].
  apply read_bounded_Ok in E as (-> & _ & -> & _). rewrite Z.add_0_l in *. by rewrite collect_concat in *.
Qed.

Lemma verified_ok fuel name p : cache_ok p →
  let '(r, p') := verified m same_origin fetch gunzip digest fuel name p in
  cache_ok p' ∧ ∀ bytes, r = Ok bytes → authentic name bytes.
Proof.
  revert name p. induction fuel as [|fuel IH]; intros name p Hp; cbn [verified]; [by split|]. unfold verified_with. erewrite bind_run by done.
  destruct (mget name p) as [result|] eqn:Hm. { split; [done|]. intros bytes ->. by apply Hp. }
  destruct (checked_record m name) as [[r n]|e] eqn:Hr; [|by split]. erewrite bind_run by done.
  apply checked_record_Ok in Hr as (H1 & H2 & H3 & H4). unfold guard_js at 1.
  destruct (same_origin name) eqn:Ho; [|by split]. cbn [negb]. erewrite bind_run by done.
  match goal with |- let '(_, _) := keep name ?u p in _ => set (work := u); assert (let '(r0, p') := work p in cache_ok p' ∧
    ∀ bytes, r0 = Ok bytes → authentic name bytes) as Hu end.
  - subst work. destruct (mget name (am_delivery m)) as [encoded|].
    + unfold guard_js at 1. destruct (_ || _); [by split|]. erewrite bind_run by done. specialize (IH encoded p Hp).
      unfold mbind, js_bind, lift. destruct (verified _ _ _ _ _ fuel encoded p) as [[packed|e] p']; destruct IH as [Hp' _]; [|by split].
      destruct (inflateSnapshot _ _) as [bytes|] eqn:Hi; [|by split]. unfold guard_js. case_bool_decide as Hd; [|by split].
      split; [done|]. intros ? [= <-]. exists r, n. split_and!; try done; try lia. by eapply inflate_length.
    + split; [done|]. intros bytes Hd. apply download_Ok in Hd as [Hl Hs]. exists r, n. split_and!; try done; lia.
  - unfold keep. destruct (work p) as [r0 p']. destruct Hu as [Hp' Ha]. split; [|done]. intros name' bytes [[-> E]|[_ Hg]]%mget_mset_Some; [by apply Ha|by apply Hp'].
Qed.

(** C30 Only authentic bytes come out: whatever the network and the decompressor deliver,
    in any sequence of requests, an asset that is returned (also from the cache) is named
    by the manifest with a relative path within the origin, and its bytes have the length
    and the SHA-256 the manifest gives for it. *)
Theorem assets_authentic names :
  let '(r, p) := verify_all m same_origin fetch gunzip digest names [] in
  ∃ outcomes, r = Ok outcomes ∧ outcomes.*1 = names ∧ ∀ name bytes, (name, Ok bytes) ∈ outcomes → authentic name bytes.
Proof.
  assert (∀ p, cache_ok p → let '(r, p') := verify_all m same_origin fetch gunzip digest names p in
    ∃ outcomes, r = Ok outcomes ∧ outcomes.*1 = names ∧ ∀ name bytes, (name, Ok bytes) ∈ outcomes → authentic name bytes) as H; [|by apply H].
  induction names as [|name names IH]; intros p Hp; cbn [verify_all].
  { exists []. split; [done|]. split; [done|]. intros ? ? H. by apply elem_of_nil in H. }
  pose proof (verified_ok 2 name p Hp) as Hv. unfold verify. destruct (verified _ _ _ _ _ 2 name p) as [r p']. destruct Hv as [Hp' Ha].
  specialize (IH p' Hp'). destruct (verify_all _ _ _ _ _ names p') as [rest p'']. destruct IH as (outcomes & -> & <- & Ho).
  exists ((name, r) :: outcomes). split; [done|]. split; [done|]. intros name' bytes [[= -> <-]|Hin]%elem_of_cons; [by apply Ha|by apply Ho].
Qed.

(** ** Two levels are enough *)

Lemma bind_ext {A B} (w : js (jmap string (res (list byte))) A) (k1 k2 : A → js _ B) q :
  (∀ a q', k1 a q' = k2 a q') → (w ≫= k1) q = (w ≫= k2) q.
Proof. intros Hk. unfold mbind, js_bind. by destruct (w q) as [[a|] q']. Qed.

(** The recursive call is only made for what is not delivered encoded itself. *)
Lemma verified_with_ext rec1 rec2 name p :
  (∀ encoded q, mget encoded (am_delivery m) = None → rec1 encoded q = rec2 encoded q) →
  verified_with m same_origin fetch gunzip digest rec1 name p = verified_with m same_origin fetch gunzip digest rec2 name p.
Proof.
  intros Hrec. apply bind_ext. intros pending p1. destruct (mget name pending); [done|].
  apply bind_ext. intros [r n] p2. apply bind_ext. intros _ p3. unfold keep.
  destruct (mget name (am_delivery m)) as [encoded|]; [|done].
  case_bool_decide; [done|]. case_bool_decide as Hd; [done|]. cbn [orb]. erewrite !bind_run by done.
  unfold mbind, js_bind. rewrite Hrec; [done|]. destruct (mget encoded (am_delivery m)); [|done]. by destruct Hd.
Qed.

(** Verifying an asset ends: it asks for at most one other asset, which asks for
    none, so the two levels of recursion allowed are as good as any number and the bound
    never decides the outcome. *)
Theorem verified_fuel fuel name p :
  verified m same_origin fetch gunzip digest (2 + fuel) name p = verify m same_origin fetch gunzip digest name p.
Proof.
  apply verified_with_ext. intros encoded q Hd. cbn [verified Nat.add]. unfold verified_with.
  apply bind_ext. intros pending p1. destruct (mget encoded pending); [done|]. apply bind_ext. intros [r n] p2.
  apply bind_ext. intros _ p3. by rewrite Hd.
Qed.
End Integrity.
