(* ===== verification/Native.v ===== *)
(** Native libraries of an application, [src/runtime/luajit/native.mjs]: the checks on a
    library, and the Lua program that writes them into the guest.

    That program is read back by a small reader of the three statements it is made of,
    which says what it does to the guest's files. *)

From S2P Require Import Prelude Wire.

Definition limit : Z := 1024 * 1024.
Definition CHUNK : Z := 16384.

(** ** Checks *)

Definition name_char (b : byte) : bool :=
  let z := Z_of_byte b in
  ((65 <=? z) && (z <=? 90)) || ((97 <=? z) && (z <=? 122)) || ((48 <=? z) && (z <=? 57)) || (z =? 95) || (z =? 46) || (z =? 45).

(** [/^[A-Za-z0-9_.-]+\.so$/]. *)
Definition library_name (name : list byte) : bool :=
  (4 <=? zlen name) && forallb name_char name && bool_decide (drop (length name - 3) name = [x2e; x73; x6f]).

Definition at_ (bytes : list byte) (i : nat) : Z := default 0 (Z_of_byte <$> bytes !! i).

(** The ELF header: the magic, 32 bits, little-endian, a shared object, i386. *)
Definition elf_i386 (bytes : list byte) : bool :=
  bool_decide (take 4 bytes = [x7f; x45; x4c; x46]) && (at_ bytes 4 =? 1) && (at_ bytes 5 =? 1) &&
  (le_combine (slice 16 2 bytes) =? 3) && (le_combine (slice 18 2 bytes) =? 3).

Definition validateNativeLibrary (name bytes : list byte) : res () :=
  if negb (library_name name) then Throw "Invalid guest library name"
  else if (zlen bytes <? 52) || (limit <? zlen bytes) then Throw "Guest library must contain at most one MiB"
  else if negb (elf_i386 bytes)
  then Throw "Browser native AOT requires an i386 Linux shared library built against musl; select aotTarget = 'i686-unknown-linux-gnu'"
  else Ok tt.

(** ** The program *)

Definition text (s : string) : list byte := text_bytes s.
Definition QUOTE : byte := x22.
Definition NEWLINE : byte := x0a.

Definition open_before : list byte := text "do local f=assert(io.open(" ++ [QUOTE] ++ text "/lib/".
Definition open_after : list byte := [QUOTE] ++ text "," ++ [QUOTE] ++ text "wb" ++ [QUOTE] ++ text "))" ++ [NEWLINE].
Definition write_before : list byte := text "assert(f:write(" ++ [QUOTE].
Definition write_after : list byte := [QUOTE] ++ text "))" ++ [NEWLINE].
Definition close_text : list byte := text "assert(f:close()) end" ++ [NEWLINE].

(** ['\\' + String(byte).padStart(3, '0')]. *)
Definition padStart3 (l : list byte) : list byte := replicate (3 - length l) x30 ++ l.
Definition escape (b : byte) : list byte := x5c :: padStart3 (text (pretty (Z_of_byte b))).

(** The pieces of 16384 bytes. *)
Fixpoint pieces (fuel : nat) (bytes : list byte) : list (list byte) :=
  match fuel, bytes with
  | O, _ | _, [] => []
  | S fuel', _ => take (Z.to_nat CHUNK) bytes :: pieces fuel' (drop (Z.to_nat CHUNK) bytes)
  end.

Definition write_piece (piece : list byte) : list byte := write_before ++ (piece ≫= escape) ++ write_after.

Definition library_chunks (name bytes : list byte) : list (list byte) :=
  (open_before ++ name ++ open_after) :: (write_piece <$> pieces (length bytes) bytes) ++ [close_text].

Fixpoint initialization (records : list (string * list byte)) (verified : string → res (list byte)) (names : list (list byte)) (total : Z)
    : res (list (list byte)) :=
  match records with
  | [] => Ok []
  | (file, name) :: records' =>
      if bool_decide (name ∈ names) then Throw "Duplicate guest library name"
      else
        bytes ← verified file;
        validateNativeLibrary name bytes ;;
        if limit <? total + zlen bytes then Throw "Guest native libraries exceed one MiB in total"
        else
          rest ← initialization records' verified (names ++ [name]) (total + zlen bytes);
          mret (library_chunks name bytes ++ rest)
  end.

Definition nativeInitialization (records : list (string * list byte)) (verified : string → res (list byte)) : res (list byte) :=
  chunks ← initialization records verified [] 0; mret (concat chunks).

(** ** What the program does *)

Definition strip (prefix l : list byte) : option (list byte) :=
  if bool_decide (take (length prefix) l = prefix) then Some (drop (length prefix) l) else None.

(** A string literal of decimal escapes, up to its quote. *)
Definition digit (b : byte) : Z := Z_of_byte b - 48.
Fixpoint unescape (l : list byte) : list byte * list byte :=
  match l with
  | x5c :: a :: b :: c :: l' => let '(bytes, rest) := unescape l' in (byte_of_Z (100 * digit a + 10 * digit b + digit c) :: bytes, rest)
  | _ => ([], l)
  end.

Fixpoint until_quote (l : list byte) : list byte * list byte :=
  match l with
  | [] => ([], [])
  | b :: l' => if bool_decide (b = QUOTE) then ([], l) else let '(h, r) := until_quote l' in (b :: h, r)
  end.

(** The guest's files, and the one that is open. *)
Record lua_files := LuaFiles {
  lf_written : list (list byte * list byte);
  lf_open : option (list byte * list byte)
}.

Definition lua_statement (l : list byte) (s : lua_files) : option (list byte * lua_files) :=
  match lf_open s with
  | None =>
      l1 ← strip open_before l;
      let '(name, l2) := until_quote l1 in
      l3 ← strip open_after l2;
      Some (l3, LuaFiles (lf_written s) (Some (name, [])))
  | Some (name, bytes) =>
      match strip close_text l with
      | Some l1 => Some (l1, LuaFiles (lf_written s ++ [(name, bytes)]) None)
      | None =>
          l1 ← strip write_before l;
          let '(piece, l2) := unescape l1 in
          l3 ← strip write_after l2;
          Some (l3, LuaFiles (lf_written s) (Some (name, bytes ++ piece)))
      end
  end.

Fixpoint lua (fuel : nat) (l : list byte) (s : lua_files) : option lua_files :=
  match l, fuel with
  | [], _ => Some s
  | _, O => None
  | _, S fuel' => match lua_statement l s with Some (l', s') => lua fuel' l' s' | None => None end
  end.

(** ** Lemmas *)

Lemma strip_app prefix l : strip prefix (prefix ++ l) = Some l.
Proof. unfold strip. by rewrite take_app_length, bool_decide_true, drop_app_length. Qed.

Definition escape_ok (b : byte) : bool :=
  match escape b with
  | [x5c; x; y; z] => Byte.eqb (byte_of_Z (100 * digit x + 10 * digit y + digit z)) b
  | _ => false
  end.

Lemma escape_all b : escape_ok b = true.
Proof. destruct b; vm_compute; reflexivity. Qed.

Lemma escape_digits b : ∃ x y z, escape b = [x5c; x; y; z] ∧ byte_of_Z (100 * digit x + 10 * digit y + digit z) = b.
Proof.
  pose proof (escape_all b) as H. unfold escape_ok in H. destruct (escape b) as [|c [|x [|y [|z [|]]]]]; try done; try by destruct c.
  destruct c; try done. apply byte_dec_bl in H. by exists x, y, z.
Qed.

Lemma unescape_escape bytes rest : head rest ≠ Some x5c → unescape ((bytes ≫= escape) ++ rest) = (bytes, rest).
Proof.
  intros Hr. induction bytes as [|b bytes IH].
  - destruct rest as [|c rest]; [done|]. destruct c; try done.
  - rewrite bind_cons, <- app_assoc. destruct (escape_digits b) as (x & y & z & -> & E).
    change ((let '(l1, r1) := unescape ((bytes ≫= escape) ++ rest) in (byte_of_Z (100 * digit x + 10 * digit y + digit z) :: l1, r1)) =
            (b :: bytes, rest)). by rewrite IH, E.
Qed.

Lemma until_quote_name name rest : forallb name_char name = true → head rest = Some QUOTE → until_quote (name ++ rest) = (name, rest).
Proof.
  intros Hn Hr. induction name as [|b name IH]; simpl in *.
  - destruct rest as [|c rest]; [done|]. by injection Hr as ->.
  - apply andb_prop in Hn as [Hb Hn]. rewrite bool_decide_false by (intros ->; done). by rewrite IH.
Qed.

Lemma pieces_concat fuel bytes : (length bytes <= fuel)%nat → concat (pieces fuel bytes) = bytes.
Proof.
  revert bytes. induction fuel as [|fuel IH]; intros bytes Hl; [by destruct bytes; simpl in *; [|lia]|].
  destruct bytes as [|b l]; [done|]. cbn [pieces concat]. rewrite IH; [apply take_drop|].
  rewrite length_drop. unfold CHUNK. simpl in *. lia.
Qed.

Lemma lua_mono fuel k l s r : lua fuel l s = Some r → lua (fuel + k) l s = Some r.
Proof.
  revert l s. induction fuel as [|fuel IH]; intros l s; destruct l as [|b l]; simpl; try done; try (by destruct k).
  destruct (lua_statement (b :: l) s) as [[l' s']|]; [|done]. apply IH.
Qed.

(** One statement, on a text that begins with it. *)
Lemma lua_step l l' s s' fuel r :
  l ≠ [] → lua_statement l s = Some (l', s') → lua fuel l' s' = Some r → lua (S fuel) l s = Some r.
Proof. intros Hl Hs Hr. destruct l as [|b l]; [done|]. simpl. by rewrite Hs. Qed.

Lemma lua_open name l fuel s r :
  lf_open s = None → forallb name_char name = true → lua fuel l (LuaFiles (lf_written s) (Some (name, []))) = Some r →
  lua (S fuel) ((open_before ++ name ++ open_after) ++ l) s = Some r.
Proof.
  intros Ho Hn Hr. eapply lua_step; [done| |exact Hr]. unfold lua_statement. rewrite Ho, <- !app_assoc, strip_app. cbn [mbind option_bind].
  rewrite until_quote_name by done. by rewrite strip_app.
Qed.

Lemma lua_close name bytes l fuel w r :
  lua fuel l (LuaFiles (w ++ [(name, bytes)]) None) = Some r →
  lua (S fuel) (close_text ++ l) (LuaFiles w (Some (name, bytes))) = Some r.
Proof. intros Hr. eapply lua_step; [done| |exact Hr]. unfold lua_statement. simpl lf_open. by rewrite strip_app. Qed.

Lemma lua_write name bytes piece l fuel w r :
  lua fuel l (LuaFiles w (Some (name, bytes ++ piece))) = Some r →
  lua (S fuel) (write_piece piece ++ l) (LuaFiles w (Some (name, bytes))) = Some r.
Proof.
  intros Hr. eapply lua_step; [done| |exact Hr]. unfold lua_statement, write_piece. simpl lf_open.
  assert (strip close_text ((write_before ++ (piece ≫= escape) ++ write_after) ++ l) = None) as ->.
  { unfold strip. rewrite bool_decide_false; [done|]. unfold write_before. rewrite <- !app_assoc. by intros [=]. }
  rewrite <- !app_assoc, strip_app. cbn [mbind option_bind]. rewrite unescape_escape by done. by rewrite strip_app.
Qed.

Lemma lua_writes name ps bytes w l fuel r :
  lua fuel l (LuaFiles w (Some (name, bytes ++ concat ps))) = Some r →
  lua (length ps + fuel) (concat (write_piece <$> ps) ++ l) (LuaFiles w (Some (name, bytes))) = Some r.
Proof.
  revert bytes. induction ps as [|p ps IH]; intros bytes Hr; cbn [concat fmap list_fmap app length Nat.add].
  - by rewrite app_nil_r in Hr.
  - rewrite <- app_assoc. apply lua_write, IH. by rewrite <- app_assoc.
Qed.

(** A library's chunks write it. *)
Lemma lua_library name bytes w l fuel r :
  forallb name_char name = true → lua fuel l (LuaFiles (w ++ [(name, bytes)]) None) = Some r →
  lua (length (library_chunks name bytes) + fuel) (concat (library_chunks name bytes) ++ l) (LuaFiles w None) = Some r.
Proof.
  intros Hn Hr. unfold library_chunks. cbn [concat length Nat.add]. rewrite <- app_assoc. apply lua_open; [done|done|].
  rewrite concat_app, length_app, <- app_assoc, <- Nat.add_assoc, length_fmap. apply lua_writes. cbn [concat app length Nat.add].
  rewrite app_nil_r. apply lua_close. by rewrite pieces_concat.
Qed.

Lemma validate_Ok name bytes : validateNativeLibrary name bytes = Ok tt →
  library_name name = true ∧ elf_i386 bytes = true ∧ 52 <= zlen bytes <= limit.
Proof.
  unfold validateNativeLibrary. destruct (library_name name); [|done]. cbn [negb].
  destruct (Z.ltb_spec (zlen bytes) 52); [done|]. destruct (Z.ltb_spec limit (zlen bytes)); [done|]. cbn [orb].
  destruct (elf_i386 bytes); [|done]. done.
Qed.

Lemma library_name_chars name : library_name name = true → forallb name_char name = true.
Proof. unfold library_name. by intros [[_ ?]%andb_prop _]%andb_prop. Qed.

Lemma initialization_Ok records verified names total chunks w :
  total <= limit → initialization records verified names total = Ok chunks →
  ∃ libraries,
    length libraries = length records ∧
    (∀ i file name, records !! i = Some (file, name) → ∃ bytes, libraries !! i = Some (name, bytes) ∧ verified file = Ok bytes ∧
       validateNativeLibrary name bytes = Ok tt) ∧
    NoDup libraries.*1 ∧ (∀ name, name ∈ libraries.*1 → name ∉ names) ∧
    total + sumZ (λ p, zlen p.2) libraries <= limit ∧
    lua (length chunks) (concat chunks) (LuaFiles w None) = Some (LuaFiles (w ++ libraries) None).
Proof.
  revert names total chunks w. induction records as [|[file name] records IH]; intros names total chunks w Ht; cbn [initialization].
  { intros [= <-]. exists []. split; [done|]. split; [done|]. split; [constructor|]. split; [intros ? H; by apply elem_of_nil in H|].
    split; [simpl; lia|]. by rewrite app_nil_r. }
  case_bool_decide as Hdup; [done|]. destruct (verified file) as [bytes|] eqn:Hv; [|done].
  cbn [mbind res_bind]. destruct (validateNativeLibrary name bytes) as [[]|] eqn:Hok; [|done]. cbn [mbind res_bind].
  destruct (Z.ltb_spec limit (total + zlen bytes)) as [|Hle]; [done|].
  destruct (initialization records verified (names ++ [name]) (total + zlen bytes)) as [rest|] eqn:E; [|done].
  intros Hc. change (Ok (library_chunks name bytes ++ rest) = Ok chunks) in Hc. assert (library_chunks name bytes ++ rest = chunks) as <- by congruence. clear Hc.
  destruct (IH _ _ _ (w ++ [(name, bytes)]) Hle E) as (libs & H1 & H2 & H3 & H4 & H5 & H6).
  exists ((name, bytes) :: libs). split; [simpl; lia|]. split; [|split; [|split; [|split]]].
  - intros [|i] f n Hi; simpl in *; [injection Hi as -> ->; by exists bytes|by apply (H2 i f n)].
  - constructor; [|done]. intros Hin. apply (H4 name Hin). apply elem_of_app. right. by apply list_elem_of_singleton.
  - intros n [->|Hn]%elem_of_cons; [done|]. intros Hin. apply (H4 n Hn). apply elem_of_app. by left.
  - simpl. lia.
  - rewrite length_app, concat_app. apply lua_library.
    + by apply validate_Ok in Hok as (?%library_name_chars & _).
    + rewrite H6. by rewrite <- app_assoc.
Qed.

(** C31 The program written for an application's native libraries installs them byte for
    byte: read statement by statement it leaves exactly the libraries of the manifest, in
    order, under their names, closed; each is the verified file, a valid i386 library with
    a valid name; no name is written twice and all of them together hold at most one MiB. *)
Theorem native_initialization_installs records verified program :
  nativeInitialization records verified = Ok program →
  ∃ libraries fuel,
    lua fuel program (LuaFiles [] None) = Some (LuaFiles libraries None) ∧
    length libraries = length records ∧
    (∀ i file name, records !! i = Some (file, name) → ∃ bytes, libraries !! i = Some (name, bytes) ∧ verified file = Ok bytes ∧
       library_name name = true ∧ elf_i386 bytes = true) ∧
    NoDup libraries.*1 ∧ sumZ (λ p, zlen p.2) libraries <= limit.
Proof.
  unfold nativeInitialization. destruct (initialization records verified [] 0) as [chunks|] eqn:E; [|done]. intros [= <-].
  assert (0 <= limit) as H0 by done. destruct (initialization_Ok records verified [] 0 chunks [] H0 E) as (libs & H1 & H2 & H3 & _ & H5 & H6).
  exists libs, (length chunks). split; [done|]. split; [done|]. split; [|split; [done|lia]].
  intros i file name Hi. destruct (H2 i file name Hi) as (bytes & Hl & Hv & (? & ? & _)%validate_Ok). by exists bytes.
Qed.

(** The smallest library that passes. *)
Definition demo_library : list byte :=
  [x7f; x45; x4c; x46; x01; x01] ++ replicate 10 x00 ++ [x03; x00; x03; x00] ++ replicate 32 xff.

Lemma native_initialization_installs_witness :
  ∃ program libraries fuel, nativeInitialization [("native/a", [x61; x2e; x73; x6f])] (λ _, Ok demo_library) = Ok program ∧
    lua fuel program (LuaFiles [] None) = Some (LuaFiles libraries None) ∧ length libraries = 1%nat.
Proof.
  eexists. destruct (native_initialization_installs [("native/a", [x61; x2e; x73; x6f])] (λ _, Ok demo_library)
    (match nativeInitialization [("native/a", [x61; x2e; x73; x6f])] (λ _, Ok demo_library) with Ok p => p | Throw _ => [] end))
    as (libraries & fuel & H & Hl & _); [vm_compute; reflexivity|].
  exists libraries, fuel. split; [|split; [exact H|exact Hl]]. vm_compute. reflexivity.
Defined.
