(* ===== verification/Aot.v ===== *)
(** Independent Wasm kernels, [src/runtime/luajit/aot.mjs].

    A kernel has its own linear memory.  [perform] copies a guest's arguments and spans
    into blocks it allocates there, field by field where guest and kernel lay a struct out
    differently, calls the kernel, copies results and writable spans back, and frees the
    blocks and releases the leases whatever happened.  The engine ([WebAssembly], an
    instance's exports) is a parameter: two classes name the calls the code makes of it.
    Names of types and fields come from the application's verified manifest, so they are
    strings; what a guest's effect holds is not checked yet, so it is made of values. *)

From S2P Require Import Prelude Transfers.

(** ** The engine *)

(** The exports [perform] uses.  [memory] is the current [api.memory.buffer], which the
    code reads anew for each view it makes. *)
Class WasmApi (I : Type) := {
  memory : I → list byte;
  set_memory : list byte → I → I;
  malloc : Z → js I Z;
  free : Z → js I ();
  call_export : string → Z → Z → js I ()
}.

Record wasm_import := WasmImport { wi_module : string; wi_name : string; wi_kind : string }.

(** What [createKernels] asks of the engine. *)
Class WebAssembly (I : Type) := {
  wasm_module : Type;
  validate : list byte → bool;
  compile : list byte → res wasm_module;
  module_imports : wasm_module → list wasm_import;
  instantiate : wasm_module → res I;
  has_initialize : I → bool;
  initialize_export : js I ();
  has_memory : I → bool;
  is_function : string → I → bool;
  query_export : string → js I jsval
}.

(** ** Data *)

Definition LIMIT : Z := 2 * 1024 * 1024.

Definition scalarBytes : jmap string Z :=
  [("bool", 1); ("f32", 4); ("f64", 8); ("i32", 4); ("u32", 4); ("i64", 8); ("u64", 8)].
Definition narrowBytes : jmap string Z := [("uint8", 1); ("int8", 1); ("uint16", 2); ("int16", 2)].

(** [integer(n, label)]. *)
Definition integer (n : jsval) (label : string) : res Z :=
  match to_safe n with
  | Some z => if (z <? 0) || (LIMIT <? z) then Throw ("Invalid Wasm " +:+ label) else Ok z
  | None => Throw ("Invalid Wasm " +:+ label)
  end.

Record layout_field := LayoutField { lf_name : string; lf_offset : Z; lf_bytes : Z }.
Record layout := Layout { ly_size : Z; ly_fields : list layout_field }.
Record param := Param { pa_kind : string; pa_type : string; pa_sourceType : option string }.

Record kernel_entry := KernelEntry {
  ke_call : string;
  ke_params : list param;
  ke_results : Z;
  ke_independentCounts : bool;
  ke_layouts : jmap string layout
}.

Record kernel_unit (I : Type) := KernelUnit { ku_api : I; ku_entries : jmap string kernel_entry }.
Arguments KernelUnit {I}.
Arguments ku_api {I}.
Arguments ku_entries {I}.

(** The manifest's records of units. *)
Record layout_record := LayoutRecord { lr_name : string; lr_prefix : string; lr_fields : list string }.
Record entry_record := EntryRecord {
  er_symbol : string;
  er_call : string;
  er_params : list param;
  er_results : Z;
  er_independentCounts : bool;
  er_layouts : list layout_record
}.
Record kernel_record := KernelRecord {
  kr_abi : jsval;
  kr_unit : string;
  kr_file : string;
  kr_tier : option string;
  kr_entries : list entry_record
}.

(** A guest's effect: [None] is an absent or null item, and spans that are no array. *)
Record guest_field := GuestField { af_name : jsval; af_offset : jsval; af_bytes : jsval }.
Record supplied_span := SuppliedSpan {
  ss_stride : jsval;
  ss_lease : jsval;
  ss_fields : option (list (option guest_field))
}.
Record kernel_effect := KernelEffect {
  kf_unit : list jsval;
  kf_symbol : jsval;
  kf_lease : jsval;
  kf_resultLease : jsval;
  kf_spans : option (list (option supplied_span))
}.

(** A field as it is copied, and an entry of [spans]. *)
Record field_copy := FieldCopy { fc_source : Z; fc_target : Z; fc_bytes : Z }.
Record span := Span {
  sp_pointer : Z;
  sp_lease : lease;
  sp_count : Z;
  sp_stride : Z;
  sp_sourceStride : Z;
  sp_fields : list field_copy;
  sp_writable : bool
}.

(** The locals of one [perform] with the unit and the table it works on. *)
Record kernel_run (I : Type) := KernelRun {
  kn_api : I;
  kn_transfers : transfers;
  kn_allocated : list Z;
  kn_leases : list jsval
}.
Arguments KernelRun {I}.
Arguments kn_api {I}.
Arguments kn_transfers {I}.
Arguments kn_allocated {I}.
Arguments kn_leases {I}.

(** ** Reading the manifest's units *)

Section Create.
Context {I : Type} `{!WebAssembly I} (verified : string → res (list byte)).

(** The one import of each module a kernel may have. *)
Definition expected_import (x : wasm_import) : bool :=
  String.eqb (wi_kind x) "function" &&
  (String.eqb (wi_module x) "wasi_snapshot_preview1" && String.eqb (wi_name x) "proc_exit"
   || String.eqb (wi_module x) "env" && String.eqb (wi_name x) "emscripten_notify_memory_growth").

Fixpoint read_fields (prefix : string) (names : list string) : js I (list layout_field) :=
  match names with
  | [] => mret []
  | name :: names' =>
      o ← query_export (prefix +:+ "_offset_" +:+ name);
      offset ← lift (integer o "field offset");
      b ← query_export (prefix +:+ "_size_" +:+ name);
      bytes ← lift (integer b "field size");
      rest ← read_fields prefix names';
      mret (LayoutField name offset bytes :: rest)
  end.

Fixpoint read_layouts (records : list layout_record) (layouts : jmap string layout) : js I (jmap string layout) :=
  match records with
  | [] => mret layouts
  | r :: records' =>
      s ← query_export (lr_prefix r +:+ "_size");
      size ← lift (integer s "layout size");
      fields ← read_fields (lr_prefix r) (lr_fields r);
      guard_js (existsb (λ f, size <? lf_offset f + lf_bytes f) fields) "Wasm field exceeds its layout";;
      read_layouts records' (mset (lr_name r) (Layout size fields) layouts)
  end.

Fixpoint read_entries (records : list entry_record) (entries : jmap string kernel_entry) : js I (jmap string kernel_entry) :=
  match records with
  | [] => mret entries
  | r :: records' =>
      callable ← gets (is_function (er_call r));
      guard_js (mhas (er_symbol r) entries || negb callable) "Invalid Wasm kernel entry";;
      layouts ← read_layouts (er_layouts r) [];
      read_entries records'
        (mset (er_symbol r) (KernelEntry (er_call r) (er_params r) (er_results r) (er_independentCounts r) layouts) entries)
  end.

(** A unit from its bytes; [None] is a tier the engine cannot validate. *)
Definition create_unit (r : kernel_record) (bytes : list byte) : res (option (kernel_unit I)) :=
  if match kr_tier r with Some t => negb (String.eqb t "") && negb (String.eqb t "scalar") | None => false end && negb (validate bytes)
  then Ok None
  else
    m ← compile bytes;
    if existsb (λ x, negb (expected_import x)) (module_imports m) then Throw "Unexpected independent Wasm import"
    else
      i ← instantiate m;
      match (when (has_initialize i) initialize_export;;
             memory_ok ← gets has_memory; malloc_ok ← gets (is_function "malloc"); free_ok ← gets (is_function "free");
             guard_js (negb memory_ok || negb malloc_ok || negb free_ok) "Invalid independent Wasm exports";;
             read_entries (kr_entries r) []) i with
      | (Ok entries, i') => Ok (Some (KernelUnit i' entries))
      | (Throw e, _) => Throw e
      end.

Fixpoint create_units (records : list kernel_record) (units : jmap string (kernel_unit I)) : res (jmap string (kernel_unit I)) :=
  match records with
  | [] => Ok units
  | r :: records' =>
      if negb (bool_decide (kr_abi r = VNum (NInt 1))) || mhas (kr_unit r) units
      then Throw "Invalid independent Wasm unit"
      else
        bytes ← verified (kr_file r);
        u ← create_unit r bytes;
        create_units records' (match u with Some u => mset (kr_unit r) u units | None => units end)
  end.

Definition createKernels (records : list kernel_record) : res (jmap string (kernel_unit I)) := create_units records [].
End Create.

(** ** Running a kernel *)

Section Perform.
Context {I : Type} `{!WasmApi I}.

Definition on_api {A} (m : js I A) : js (kernel_run I) A :=
  zoom kn_api (λ i k, KernelRun i (kn_transfers k) (kn_allocated k) (kn_leases k)) m.
Definition set_table (t : transfers) (k : kernel_run I) : kernel_run I :=
  KernelRun (kn_api k) t (kn_allocated k) (kn_leases k).
Definition push_allocated (p : Z) (k : kernel_run I) : kernel_run I :=
  KernelRun (kn_api k) (kn_transfers k) (kn_allocated k ++ [p]) (kn_leases k).
Definition push_lease (id : jsval) (k : kernel_run I) : kernel_run I :=
  KernelRun (kn_api k) (kn_transfers k) (kn_allocated k) (kn_leases k ++ [id]).

Definition allocate (size : Z) : js (kernel_run I) Z :=
  lift (integer (VNum (NInt size)) "allocation");;
  pointer ← on_api (malloc (Z.max 1 size));
  bytes ← gets (λ k, zlen (memory (kn_api k)));
  guard_js ((pointer =? 0) || (bytes <? pointer + size)) "Wasm kernel memory exhausted";;
  modify (push_allocated pointer);;
  mret pointer.

(** [options.transfers.lease(...)] followed by [leases.push(id)]. *)
Definition take_lease (id : jsval) (bytes : Z) (writable : bool) : js (kernel_run I) lease :=
  t ← gets kn_transfers;
  l ← lift (lease_of id (VNum (NInt bytes)) writable t);
  modify (push_lease id);;
  mret l.

(** [new Uint8Array(api.memory.buffer, pointer, bytes)], which throws for a range outside
    the memory; [bytes] read through it and [view.set(src, at)]. *)
Definition new_view (pointer bytes : Z) : js (kernel_run I) () :=
  total ← gets (λ k, zlen (memory (kn_api k)));
  guard_js ((pointer <? 0) || (total <? pointer + bytes)) "Invalid typed array length".

Definition view_bytes (pointer bytes : Z) : js (kernel_run I) (list byte) :=
  new_view pointer bytes;; gets (λ k, slice pointer bytes (memory (kn_api k))).

Definition memory_set (pointer bytes at_ : Z) (src : list byte) : js (kernel_run I) () :=
  guard_js ((at_ <? 0) || (bytes <? at_ + zlen src)) "offset is out of bounds";;
  on_api (modify (λ i, set_memory (splice (pointer + at_) src (memory i)) i)).

(** [lease.view], [lease.view.set(src, at)]. *)
Definition view_of (l : lease) : js (kernel_run I) (list byte) := gets (λ k, view l (kn_transfers k)).
Definition view_write (l : lease) (at_ : Z) (src : list byte) : js (kernel_run I) () :=
  t ← gets kn_transfers;
  t' ← lift (view_set l at_ src t);
  modify (set_table t').

(** [getUint32(at, true)] of the argument bytes. *)
Definition get_uint32 (bytes : list byte) (at_ : Z) : res Z :=
  if zlen bytes <? at_ + 4 then Throw "Offset is outside the bounds of the DataView"
  else Ok (le_combine (slice at_ 4 bytes)).

Definition set_uint32 (at_ value : Z) : js (kernel_run I) () :=
  total ← gets (λ k, zlen (memory (kn_api k)));
  guard_js (total <? at_ + 4) "Offset is outside the bounds of the DataView";;
  on_api (modify (λ i, set_memory (splice at_ (le_split 4 value) (memory i)) i)).

Definition ends_with (suffix s : string) : bool :=
  (String.length suffix <=? String.length s)%nat &&
  String.eqb (String.substring (String.length s - String.length suffix) (String.length suffix) s) suffix.
Definition is_span (p : param) : bool := ends_with "_span" (pa_kind p).

(** [layoutName] and [layout]: an empty name finds none. *)
Definition span_layout (entry : kernel_entry) (p : param) : option layout :=
  if String.prefix "struct:" (pa_type p) && negb (String.eqb (pa_type p) "struct:")
  then mget (String.substring 7 (String.length (pa_type p) - 7) (pa_type p)) (ke_layouts entry)
  else None.

Definition span_stride (ly : option layout) (p : param) : Z :=
  match ly with
  | Some ly => ly_size ly
  | None =>
      match (n ← pa_sourceType p; mget n narrowBytes) with
      | Some n => n
      | None => default 0 (mget (pa_type p) scalarBytes)
      end
  end.

(** [supplied.fields?.find(item => item.name === field.name)]. *)
Fixpoint find_field (name : string) (items : list (option guest_field)) : res guest_field :=
  match items with
  | [] => Throw "Wasm span field layout mismatch"
  | None :: _ => Throw "Cannot read properties of null (reading 'name')"
  | Some item :: items' => if bool_decide (af_name item = VStr name) then Ok item else find_field name items'
  end.

Fixpoint match_fields (fields : list layout_field) (supplied : option (list (option guest_field))) (sourceStride : Z)
    : res (list field_copy) :=
  match fields with
  | [] => Ok []
  | f :: fields' =>
      from ← find_field (lf_name f) (default [] supplied);
      offset ← integer (af_offset from) "guest offset";
      if (sourceStride <? offset + lf_bytes f) || negb (bool_decide (af_bytes from = VNum (NInt (lf_bytes f))))
      then Throw "Wasm span field layout mismatch"
      else
        rest ← match_fields fields' supplied sourceStride;
        Ok (FieldCopy offset (lf_offset f) (lf_bytes f) :: rest)
  end.

Definition span_fields (ly : option layout) (supplied : supplied_span) (stride sourceStride : Z) : res (list field_copy) :=
  match ly with
  | Some ly => match_fields (ly_fields ly) (ss_fields supplied) sourceStride
  | None => if negb (sourceStride =? stride) then Throw "Wasm scalar span layout mismatch" else Ok [FieldCopy 0 0 stride]
  end.

(** The two copy loops over rows and fields. *)
Definition copy_in (pointer count stride sourceStride : Z) (fields : list field_copy) (l : lease) : js (kernel_run I) () :=
  new_view pointer (count * stride);;
  for_each (seqZ 0 count) (λ row, for_each fields (λ f,
    v ← view_of l;
    memory_set pointer (count * stride) (row * stride + fc_target f)
      (slice (row * sourceStride + fc_source f) (fc_bytes f) v))).

Definition copy_out (sp : span) : js (kernel_run I) () :=
  new_view (sp_pointer sp) (sp_count sp * sp_stride sp);;
  for_each (seqZ 0 (sp_count sp)) (λ row, for_each (sp_fields sp) (λ f,
    source ← gets (λ k, slice (sp_pointer sp) (sp_count sp * sp_stride sp) (memory (kn_api k)));
    view_write (sp_lease sp) (row * sp_sourceStride sp + fc_source f)
      (slice (row * sp_stride sp + fc_target f) (fc_bytes f) source))).

(** One parameter of the loop that is a span. *)
Definition prepare_span (entry : kernel_entry) (args : lease) (argsPointer : Z) (p : param) (supplied : option supplied_span)
    (index countIndex : Z) : js (kernel_run I) span :=
  a ← view_of args;
  count ← lift (get_uint32 a (countIndex * 8));
  let writable := String.eqb (pa_kind p) "write_span" in
  let ly := span_layout entry p in
  let stride := span_stride ly p in
  guard_js (stride =? 0) "Unknown Wasm span layout";;
  sourceStride ← lift (integer (default VUndef (ss_stride <$> supplied)) "guest stride");
  guard_js ((sourceStride =? 0) || (LIMIT <? count * Z.max stride sourceStride)) "Wasm span exceeds transfer budget";;
  match supplied with
  | None => throw "Cannot read properties of undefined (reading 'lease')"
  | Some s =>
      l ← take_lease (ss_lease s) (count * sourceStride) writable;
      fields ← lift (span_fields ly s stride sourceStride);
      pointer ← allocate (count * stride);
      copy_in pointer count stride sourceStride fields l;;
      set_uint32 (argsPointer + index * 8) pointer;;
      mret (Span pointer l count stride sourceStride fields writable)
  end.

(** The loop over the parameters: the spans it pushes and [nextSpan] at its end. *)
Fixpoint prepare_spans (entry : kernel_entry) (args : lease) (argsPointer : Z) (supplied : list (option supplied_span))
    (params : list param) (index nextCount nextSpan : Z) : js (kernel_run I) (list span * Z) :=
  match params with
  | [] => mret ([], nextSpan)
  | p :: params' =>
      if negb (is_span p) then prepare_spans entry args argsPointer supplied params' (index + 1) nextCount nextSpan
      else
        let countIndex := if ke_independentCounts entry then nextCount else zlen (ke_params entry) in
        let next := if ke_independentCounts entry then nextCount + 1 else nextCount in
        sp ← prepare_span entry args argsPointer p (default None (supplied !! Z.to_nat nextSpan)) index countIndex;
        rest ← prepare_spans entry args argsPointer supplied params' (index + 1) next (nextSpan + 1);
        mret (sp :: rest.1, rest.2)
  end.

Definition perform_body (entry : kernel_entry) (effect : kernel_effect) : js (kernel_run I) () :=
  let countCount := if ke_independentCounts entry then zlen (filter (λ p, is_span p = true) (ke_params entry)) else 1 in
  let argsLength := (zlen (ke_params entry) + countCount) * 8 in
  args ← take_lease (kf_lease effect) argsLength false;
  results ← take_lease (kf_resultLease effect) (ke_results entry * 8) true;
  argsPointer ← allocate argsLength;
  resultPointer ← allocate (l_bytes results);
  new_view argsPointer argsLength;;
  a ← view_of args;
  memory_set argsPointer argsLength 0 a;;
  match kf_spans effect with
  | None => throw "Invalid Wasm spans"
  | Some supplied =>
      spans ← prepare_spans entry args argsPointer supplied (ke_params entry) 0 (zlen (ke_params entry)) 0;
      guard_js (negb (spans.2 =? zlen supplied)) "Unexpected Wasm span";;
      on_api (call_export (ke_call entry) argsPointer resultPointer);;
      r ← view_bytes resultPointer (l_bytes results);
      view_write results 0 r;;
      for_each spans.1 (λ sp, when (sp_writable sp) (copy_out sp))
  end.

(** The [finally] block. *)
Definition perform_finally : js (kernel_run I) () :=
  allocated ← gets kn_allocated;
  leases ← gets kn_leases;
  for_each allocated (λ p, on_api (free p));;
  for_each leases (λ id, modify (λ k, set_table (release_lease id (kn_transfers k)) k)).

Definition run_entry (entry : kernel_entry) (effect : kernel_effect) : js (kernel_run I) () :=
  try_finally (perform_body entry effect) perform_finally.

(** The units of the application and the frame's table. *)
Record kernels := Kernels { kn_units : jmap string (kernel_unit I); kn_table : transfers }.

(** [candidates.find(id => units.has(id))]. *)
Fixpoint find_unit (candidates : list jsval) (units : jmap string (kernel_unit I)) : option (string * kernel_unit I) :=
  match candidates with
  | [] => None
  | VStr id :: candidates' =>
      match mget id units with Some u => Some (id, u) | None => find_unit candidates' units end
  | _ :: candidates' => find_unit candidates' units
  end.

Definition perform (effect : kernel_effect) : js kernels () := λ s,
  match find_unit (kf_unit effect) (kn_units s) with
  | None => (Throw "Wasm kernel is not in the verified application", s)
  | Some (id, u) =>
      match match kf_symbol effect with VStr n => mget n (ku_entries u) | _ => None end with
      | None => (Throw "Wasm kernel is not in the verified application", s)
      | Some entry =>
          let '(r, k) := run_entry entry effect (KernelRun (ku_api u) (kn_table s) [] []) in
          (r, Kernels (mset id (KernelUnit (kn_api k) (ku_entries u)) (kn_units s)) (kn_transfers k))
      end
  end.
End Perform.
Arguments Kernels {I}.
Arguments kn_units {I}.
Arguments kn_table {I}.
Arguments kernels I : clear implicits.
