(* ===== verification/AotSpec.v ===== *)
(** What [perform] of [src/runtime/luajit/aot.mjs] guarantees: the blocks it allocates are
    freed and the leases it takes released whatever happens, and spans are converted
    between the guest's layout and the kernel's without loss. *)

From S2P Require Import Prelude Transfers EffectLeases Aot.

(** ** Sequences of writes *)

(** Two writes of bytes whose ranges do not meet. *)
Definition apart (w v : Z * list byte) : Prop := w.1 + zlen w.2 <= v.1 ∨ v.1 + zlen v.2 <= w.1.
Definition within (n : Z) (w : Z * list byte) : Prop := 0 <= w.1 ∧ w.1 + zlen w.2 <= n.

Fixpoint apply_writes (ws : list (Z * list byte)) (m : list byte) : list byte :=
  match ws with
  | [] => m
  | w :: ws' => apply_writes ws' (splice w.1 w.2 m)
  end.

(** Every two members of a list, in order. *)
Inductive pairwise {A} (R : A → A → Prop) : list A → Prop :=
| pairwise_nil : pairwise R []
| pairwise_cons x l : (∀ y, y ∈ l → R x y) → pairwise R l → pairwise R (x :: l).

Lemma pairwise_app {A} (R : A → A → Prop) l1 l2 :
  pairwise R l1 → pairwise R l2 → (∀ x y, x ∈ l1 → y ∈ l2 → R x y) → pairwise R (l1 ++ l2).
Proof.
  induction 1 as [|x l1 Hx H1 IH]; intros H2 Hc; simpl; [done|]. constructor; [|apply IH; [done|set_solver]].
  intros y [Hy|Hy]%elem_of_app; [by apply Hx|]. apply Hc; [left|done].
Qed.

Lemma pairwise_fmap {A B} (R : A → A → Prop) (Q : B → B → Prop) (f : A → B) l :
  pairwise R l → (∀ x y, R x y → Q (f x) (f y)) → pairwise Q (f <$> l).
Proof.
  induction 1 as [|x l Hx H IH]; intros Hf; simpl; constructor; [|by apply IH].
  intros y (z & -> & Hz)%list_elem_of_fmap. by apply Hf, Hx.
Qed.

Lemma zlen_apply_writes ws m : Forall (within (zlen m)) ws → zlen (apply_writes ws m) = zlen m.
Proof.
  revert m. induction ws as [|[a src] ws IH]; intros m; simpl; [done|]. intros [[? ?] Hws]%Forall_cons. simpl in *.
  rewrite IH, zlen_splice by (rewrite ?zlen_splice; done || lia). done.
Qed.

(** A range no write meets keeps its bytes. *)
Lemma apply_writes_other ws m a n :
  Forall (within (zlen m)) ws → 0 <= a → 0 <= n → (∀ w, w ∈ ws → w.1 + zlen w.2 <= a ∨ a + n <= w.1) →
  slice a n (apply_writes ws m) = slice a n m.
Proof.
  revert m. induction ws as [|[b src] ws IH]; intros m Hws Ha Hn Hap; simpl; [done|].
  apply Forall_cons in Hws as [[? ?] Hws]. simpl in *. rewrite IH; [|by rewrite zlen_splice|done|done|].
  - destruct (Hap (b, src) ltac:(left)); simpl in *; [by apply slice_splice_above|by apply slice_splice_below].
  - intros w Hw. apply Hap. by right.
Qed.

(** Writes that are apart are all there at the end. *)
Lemma apply_writes_read ws m w :
  Forall (within (zlen m)) ws → pairwise apart ws → w ∈ ws → slice w.1 (zlen w.2) (apply_writes ws m) = w.2.
Proof.
  intros Hws Hp. revert m Hws. induction Hp as [|[a src] ws Hx Hp IH]; intros m Hws Hw; [by apply elem_of_nil in Hw|].
  apply Forall_cons in Hws as [[? ?] Hws]. simpl in *. apply elem_of_cons in Hw as [->|Hw].
  - simpl. rewrite apply_writes_other; [by apply slice_splice_same|by rewrite zlen_splice|done|apply zlen_nonneg|].
    intros w Hw. destruct (Hx w Hw) as [?|?]; simpl in *; [by right|by left].
  - apply IH; [by rewrite zlen_splice|done].
Qed.

(** ** Rows of fields *)

Section Rows.
Context (stride : Z) (offset : field_copy → Z) (data : Z → field_copy → list byte) (fields : list field_copy).

Definition row_writes (row : Z) : list (Z * list byte) := (λ f, (row * stride + offset f, data row f)) <$> fields.
Definition all_writes (rows : list Z) : list (Z * list byte) := rows ≫= row_writes.

Hypothesis fits : ∀ f, f ∈ fields → 0 <= offset f ∧ 0 <= fc_bytes f ∧ offset f + fc_bytes f <= stride.

Lemma elem_all_writes rows w :
  w ∈ all_writes rows ↔ ∃ row f, row ∈ rows ∧ f ∈ fields ∧ w = (row * stride + offset f, data row f).
Proof.
  unfold all_writes, row_writes. rewrite list_elem_of_bind. split.
  - intros (row & (f & -> & Hf)%list_elem_of_fmap & Hrow). eauto.
  - intros (row & f & ? & ? & ->). exists row. split; [|done]. apply list_elem_of_fmap. eauto.
Qed.

Lemma all_writes_within from count n :
  (∀ row f, f ∈ fields → from <= row < from + count → zlen (data row f) = fc_bytes f) →
  0 <= from → (from + count) * stride <= n → Forall (within n) (all_writes (seqZ from count)).
Proof.
  intros Hd Hf Hn. apply Forall_forall. intros w (row & f & Hrow%elem_of_seqZ & Hin & ->)%elem_all_writes.
  destruct (fits f Hin) as (? & ? & ?). unfold within. simpl. rewrite Hd by done. nia.
Qed.

Lemma all_writes_apart from count :
  (∀ row f, f ∈ fields → from <= row < from + count → zlen (data row f) = fc_bytes f) →
  pairwise (λ f g, offset f + fc_bytes f <= offset g ∨ offset g + fc_bytes g <= offset f) fields →
  pairwise apart (all_writes (seqZ from count)).
Proof.
  intros Hd Hp. destruct (Z.le_gt_cases count 0) as [Hc|Hc]; [by rewrite seqZ_nil; [constructor|]|].
  revert from Hd. pattern count. apply natlike_ind; [..|lia].
  { intros from _. rewrite seqZ_nil by done. constructor. }
  clear count Hc. intros count Hc IH from Hd. rewrite seqZ_cons by lia.
  change (all_writes (?a :: ?b)) with (row_writes a ++ all_writes b).
  replace (Z.succ from) with (from + 1) by lia. replace (Z.pred (Z.succ count)) with count by lia.
  apply pairwise_app; [|apply IH; intros; apply Hd; [done|lia]|].
  - assert (∀ g, g ∈ fields → zlen (data from g) = fc_bytes g) as Hl by (intros; apply Hd; [done|lia]).
    clear -Hp Hl. unfold row_writes. induction Hp as [|f l Hx Hp IH]; simpl; constructor.
    + intros y (g & -> & Hg)%list_elem_of_fmap. unfold apart. simpl. rewrite !Hl by (left || by right).
      destruct (Hx g Hg); lia.
    + apply IH. intros. apply Hl. by right.
  - intros x y (f & -> & Hf)%list_elem_of_fmap (row & g & Hrow%elem_of_seqZ & Hg & ->)%elem_all_writes.
    destruct (fits f Hf) as (? & ? & ?), (fits g Hg) as (? & ? & ?). unfold apart. simpl.
    rewrite !Hd by (done || lia). left. nia.
Qed.
End Rows.

(** A region of a longer list, written at offsets from its start. *)
Definition shifted (base : Z) (ws : list (Z * list byte)) : list (Z * list byte) := (λ w, (base + w.1, w.2)) <$> ws.

Lemma shifted_within base n total ws :
  Forall (within n) ws → 0 <= base → base + n <= total → Forall (within total) (shifted base ws).
Proof.
  intros H ? ?. apply Forall_fmap. eapply Forall_impl; [exact H|]. intros w [? ?]. unfold within. simpl. lia.
Qed.

Lemma apply_writes_region base n ws m :
  Forall (within n) ws → 0 <= base → 0 <= n → base + n <= zlen m →
  slice base n (apply_writes (shifted base ws) m) = apply_writes ws (slice base n m).
Proof.
  revert m. induction ws as [|[a src] ws IH]; intros m Hws ? Hn ?; [done|].
  apply Forall_cons in Hws as [[? ?] Hws]. simpl in *. pose proof (zlen_nonneg src).
  rewrite IH by (done || rewrite zlen_splice; lia). by rewrite slice_splice_inside by lia.
Qed.

Lemma apply_writes_outside base n ws m a c :
  Forall (within n) ws → 0 <= base → base + n <= zlen m → 0 <= a → 0 <= c → a + c <= base ∨ base + n <= a →
  slice a c (apply_writes (shifted base ws) m) = slice a c m.
Proof.
  intros Hws ? ? ? ? Ho. apply apply_writes_other; [by eapply shifted_within|done|done|].
  intros w (v & -> & Hv)%list_elem_of_fmap. eapply Forall_forall in Hws as [? ?]; [|exact Hv]. simpl. lia.
Qed.

(** ** The copy loops *)

(** A loop over rows and fields each of whose rounds is a write. *)
Lemma for_rows_run {S} (body : Z → field_copy → js S ()) (step : Z * list byte → S → S)
    (w : Z → field_copy → Z * list byte) (P : S → Prop) rows fields s :
  (∀ row f s, row ∈ rows → f ∈ fields → P s → body row f s = (Ok tt, step (w row f) s) ∧ P (step (w row f) s)) → P s →
  ∃ s', for_each rows (λ row, for_each fields (body row)) s = (Ok tt, s') ∧ P s' ∧
        s' = foldl (λ s w, step w s) s (rows ≫= λ row, w row <$> fields).
Proof.
  intros H. revert s. induction rows as [|row rows IH]; intros s Hs; simpl; [eauto|].
  assert (∃ s1, for_each fields (body row) s = (Ok tt, s1) ∧ P s1 ∧ s1 = foldl (λ s w, step w s) s (w row <$> fields))
    as (s1 & E & Hs1 & ->).
  { assert (∀ s f, f ∈ fields → P s → body row f s = (Ok tt, step (w row f) s) ∧ P (step (w row f) s)) as Hf
      by (intros; apply H; [left|done|done]).
    clear -Hf Hs. revert s Hs. induction fields as [|f fields IH]; intros s Hs; simpl; [eauto|].
    destruct (Hf s f ltac:(left) Hs) as [E Hs']. rewrite (bind_run _ _ _ _ _ E). apply IH; [|done].
    intros. apply Hf; [by right|done]. }
  rewrite (bind_run _ _ _ _ _ E). destruct (IH ltac:(intros; apply H; [by right|done|done]) _ Hs1) as (s2 & E2 & Hs2 & ->).
  eexists. split; [exact E2|]. split; [done|]. by rewrite foldl_app.
Qed.

(** Memory written through [set_memory] is what [memory] reads. *)
Class WasmMemory (I : Type) `{!WasmApi I} := memory_set_memory : ∀ m (i : I), memory (set_memory m i) = m.

Section Conversion.
Context {I : Type} `{!WasmApi I, !WasmMemory I}.
Implicit Types k : kernel_run I.

Definition with_memory (m : list byte) (k : kernel_run I) : kernel_run I :=
  KernelRun (set_memory m (kn_api k)) (kn_transfers k) (kn_allocated k) (kn_leases k).

Lemma foldl_memory base ws k :
  let k' := foldl (λ k w, with_memory (splice (base + w.1) w.2 (memory (kn_api k))) k) k ws in
  memory (kn_api k') = apply_writes (shifted base ws) (memory (kn_api k)) ∧ kn_transfers k' = kn_transfers k.
Proof.
  revert k. induction ws as [|w ws IH]; intros k; simpl; [done|].
  destruct (IH (with_memory (splice (base + w.1) w.2 (memory (kn_api k))) k)) as [H1 H2].
  simpl in *. by rewrite H1, H2, memory_set_memory.
Qed.

(** The span's block, written with the rows of the guest's view. *)
Lemma copy_in_run pointer count stride sourceStride fields l k :
  0 <= pointer → pointer + count * stride <= zlen (memory (kn_api k)) →
  let v := view l (kn_transfers k) in
  let ws := all_writes stride fc_target (λ row f, slice (row * sourceStride + fc_source f) (fc_bytes f) v) fields (seqZ 0 count) in
  Forall (within (count * stride)) ws →
  ∃ k', copy_in pointer count stride sourceStride fields l k = (Ok tt, k') ∧ kn_transfers k' = kn_transfers k ∧
        memory (kn_api k') = apply_writes (shifted pointer ws) (memory (kn_api k)).
Proof.
  intros ? ? v ws Hws. unfold copy_in.
  rewrite (bind_run _ _ k tt k).
  2:{ unfold new_view. cbv [mbind js_bind gets]. apply guard_run.
      by rewrite (proj2 (Z.ltb_ge pointer 0)), (proj2 (Z.ltb_ge _ _)) by lia. }
  destruct (for_rows_run (λ row f, v ← view_of l;
      memory_set pointer (count * stride) (row * stride + fc_target f) (slice (row * sourceStride + fc_source f) (fc_bytes f) v))
    (λ w k, with_memory (splice (pointer + w.1) w.2 (memory (kn_api k))) k)
    (λ row f, (row * stride + fc_target f, slice (row * sourceStride + fc_source f) (fc_bytes f) v))
    (λ k', kn_transfers k' = kn_transfers k) (seqZ 0 count) fields k) as (k' & E & Ht & ->); [|done|].
  - intros row f k' Hrow Hf Ht. split; [|done]. unfold view_of. cbv [mbind js_bind gets]. rewrite Ht.
    fold v. unfold memory_set. cbv [mbind js_bind]. rewrite guard_run; [done|].
    eapply Forall_forall in Hws as [? ?]; [|apply elem_all_writes; exists row, f; eauto]. simpl in *.
    by rewrite (proj2 (Z.ltb_ge _ 0)), (proj2 (Z.ltb_ge _ _)) by lia.
  - eexists. split; [exact E|]. split; [done|]. unfold ws, all_writes, row_writes. apply foldl_memory.
Qed.

Lemma foldl_table l ws k :
  let k' := foldl (λ k w, set_table (Transfers (splice (l_offset l + w.1) w.2 (t_buffer (kn_transfers k)))
                                       (t_leases (kn_transfers k))) k) k ws in
  t_buffer (kn_transfers k') = apply_writes (shifted (l_offset l) ws) (t_buffer (kn_transfers k)) ∧
  t_leases (kn_transfers k') = t_leases (kn_transfers k).
Proof.
  revert k. induction ws as [|w ws IH]; intros k; simpl; [done|].
  destruct (IH (set_table (Transfers (splice (l_offset l + w.1) w.2 (t_buffer (kn_transfers k)))
    (t_leases (kn_transfers k))) k)) as [H1 H2].
  simpl in *. by rewrite H1, H2.
Qed.

Lemma copy_out_run sp k :
  0 <= sp_pointer sp → sp_pointer sp + sp_count sp * sp_stride sp <= zlen (memory (kn_api k)) →
  let source := slice (sp_pointer sp) (sp_count sp * sp_stride sp) (memory (kn_api k)) in
  let ws := all_writes (sp_sourceStride sp) fc_source
              (λ row f, slice (row * sp_stride sp + fc_target f) (fc_bytes f) source) (sp_fields sp) (seqZ 0 (sp_count sp)) in
  Forall (within (l_bytes (sp_lease sp))) ws →
  ∃ k', copy_out sp k = (Ok tt, k') ∧ t_leases (kn_transfers k') = t_leases (kn_transfers k) ∧
        t_buffer (kn_transfers k') = apply_writes (shifted (l_offset (sp_lease sp)) ws) (t_buffer (kn_transfers k)).
Proof.
  intros ? ? source ws Hws. unfold copy_out. rewrite (bind_run _ _ k tt k).
  2:{ unfold new_view. cbv [mbind js_bind gets]. apply guard_run.
      by rewrite (proj2 (Z.ltb_ge _ 0)), (proj2 (Z.ltb_ge _ _)) by lia. }
  set (put := λ (w : Z * list byte) (k : kernel_run I),
    set_table (Transfers (splice (l_offset (sp_lease sp) + w.1) w.2 (t_buffer (kn_transfers k))) (t_leases (kn_transfers k))) k).
  destruct (for_rows_run (λ row f,
      source ← gets (λ k, slice (sp_pointer sp) (sp_count sp * sp_stride sp) (memory (kn_api k)));
      view_write (sp_lease sp) (row * sp_sourceStride sp + fc_source f)
        (slice (row * sp_stride sp + fc_target f) (fc_bytes f) source)) put
    (λ row f, (row * sp_sourceStride sp + fc_source f, slice (row * sp_stride sp + fc_target f) (fc_bytes f) source))
    (λ k', kn_api k' = kn_api k) (seqZ 0 (sp_count sp)) (sp_fields sp) k) as (k' & E & Ht & ->); [|done|].
  - intros row f k' Hrow Hf Ht. split; [|done]. cbv [mbind js_bind gets]. rewrite Ht. fold source.
    unfold view_write. cbv [mbind js_bind gets lift modify].
    eapply Forall_forall in Hws as [? ?]; [|apply elem_all_writes; exists row, f; eauto]. simpl in *.
    unfold view_set. by rewrite (proj2 (Z.ltb_ge _ 0)), (proj2 (Z.ltb_ge _ _)) by lia.
  - eexists. split; [exact E|]. destruct (foldl_table (sp_lease sp) ws k) as [Hb Hl]. split; [exact Hl|exact Hb].
Qed.

(** ** Fields that were accepted *)

(** What the loop of [createKernels] checks of a layout. *)
Definition layout_ok (ly : layout) : Prop :=
  0 <= ly_size ly ∧ ∀ f, f ∈ ly_fields ly → 0 <= lf_offset f ∧ 0 <= lf_bytes f ∧ lf_offset f + lf_bytes f <= ly_size ly.

(** A field stays within a row of the kernel's block and within a row of the guest's. *)
Definition field_fits (stride sourceStride : Z) (f : field_copy) : Prop :=
  0 <= fc_bytes f ∧ 0 <= fc_target f ∧ fc_target f + fc_bytes f <= stride ∧
  0 <= fc_source f ∧ fc_source f + fc_bytes f <= sourceStride.

Lemma integer_Ok v label z : integer v label = Ok z → v = VNum (NInt z) ∧ 0 <= z <= LIMIT.
Proof.
  unfold integer. destruct (to_safe v) as [w|] eqn:E; [|done]. apply to_safe_Some in E as [-> _].
  destruct (Z.ltb_spec w 0), (Z.ltb_spec LIMIT w); simpl; try done. intros [= ->]. split; [done|lia].
Qed.

Lemma res_bind_Ok {A B} (m : res A) (f : A → res B) b : m ≫= f = Ok b → ∃ a, m = Ok a ∧ f a = Ok b.
Proof. destruct m as [a|e]; [|done]. intros H. by exists a. Qed.

Lemma match_fields_fits size sourceStride fields supplied copies :
  (∀ f, f ∈ fields → 0 <= lf_offset f ∧ 0 <= lf_bytes f ∧ lf_offset f + lf_bytes f <= size) →
  match_fields fields supplied sourceStride = Ok copies → ∀ f, f ∈ copies → field_fits size sourceStride f.
Proof.
  revert copies. induction fields as [|f fields IH]; intros copies Hf; cbn [match_fields].
  { intros [= <-] g Hg. by apply elem_of_nil in Hg. }
  intros (from & _ & (offset & (_ & Ho)%integer_Ok & H)%res_bind_Ok)%res_bind_Ok.
  destruct (Z.ltb_spec sourceStride (offset + lf_bytes f)); simpl in H; [done|].
  destruct (negb _); [done|]. apply res_bind_Ok in H as (rest & Hr & [= <-]).
  destruct (Hf f ltac:(left)) as (? & ? & ?).
  intros g [->|Hg]%elem_of_cons; [unfold field_fits; simpl; lia|]. eapply IH; [|done|done]. intros. apply Hf. by right.
Qed.

Lemma span_fields_fits ly supplied stride sourceStride copies :
  match ly with Some ly => layout_ok ly ∧ stride = ly_size ly | None => 0 <= stride end →
  span_fields ly supplied stride sourceStride = Ok copies → ∀ f, f ∈ copies → field_fits stride sourceStride f.
Proof.
  destruct ly as [ly|]; simpl.
  - intros [[_ Hly] ->]. by apply match_fields_fits.
  - intros ?. destruct (Z.eqb_spec sourceStride stride) as [->|]; simpl; [|done].
    intros [= <-] f ->%list_elem_of_singleton. unfold field_fits. simpl. lia.
Qed.
End Conversion.

(** ** Spans between the two layouts *)

(** The fields of a struct do not overlap, in the kernel's layout and in the guest's. *)
Definition fields_apart (fields : list field_copy) : Prop :=
  pairwise (λ f g, fc_target f + fc_bytes f <= fc_target g ∨ fc_target g + fc_bytes g <= fc_target f) fields ∧
  pairwise (λ f g, fc_source f + fc_bytes f <= fc_source g ∨ fc_source g + fc_bytes g <= fc_source f) fields.

Definition kernel_field (sp : span) (m : list byte) (row : Z) (f : field_copy) : list byte :=
  slice (sp_pointer sp + (row * sp_stride sp + fc_target f)) (fc_bytes f) m.
Definition guest_field_bytes (sp : span) (t : transfers) (row : Z) (f : field_copy) : list byte :=
  slice (row * sp_sourceStride sp + fc_source f) (fc_bytes f) (view (sp_lease sp) t).

(** A span as [prepare_span] makes it: its block inside the memory, its lease of the table
    with the extent asked for, its fields accepted. *)
Record span_ready {I} `{!WasmApi I} (sp : span) (z : Z) (k : kernel_run I) : Prop := SpanReady {
  sr_table : transfers_wf (kn_transfers k);
  sr_lease : mget z (t_leases (kn_transfers k)) = Some (sp_lease sp);
  sr_extent : l_bytes (sp_lease sp) = sp_count sp * sp_sourceStride sp;
  sr_count : 0 <= sp_count sp;
  sr_stride : 0 <= sp_stride sp;
  sr_pointer : 0 <= sp_pointer sp;
  sr_block : sp_pointer sp + sp_count sp * sp_stride sp <= zlen (memory (kn_api k));
  sr_fits : ∀ f, f ∈ sp_fields sp → field_fits (sp_stride sp) (sp_sourceStride sp) f
}.

Section Spans.
Context {I : Type} `{!WasmApi I, !WasmMemory I}.

Lemma zlen_lease_view z (l : lease) t :
  transfers_wf t → mget z (t_leases t) = Some l → zlen (view l t) = l_bytes l.
Proof. intros Ht Hz. destruct (wf_extent _ _ _ Ht Hz) as (_ & ? & ? & ?). by apply zlen_slice. Qed.

Lemma zlen_row_field row count stride offset bytes (v : list byte) :
  zlen v = count * stride → 0 <= row < count → 0 <= offset → 0 <= bytes → offset + bytes <= stride →
  zlen (slice (row * stride + offset) bytes v) = bytes.
Proof. intros. apply zlen_slice; [nia|done|nia]. Qed.

Lemma slice_slice {A} a n b c (l : list A) :
  0 <= a → 0 <= b → 0 <= c → b + c <= n → slice b c (slice a n l) = slice (a + b) c l.
Proof.
  intros. unfold slice. rewrite skipn_firstn_comm, take_take, drop_drop. f_equal; [lia|f_equal; lia].
Qed.

Lemma copy_in_fields sp z (k : kernel_run I) :
  span_ready sp z k → fields_apart (sp_fields sp) →
  ∃ k', copy_in (sp_pointer sp) (sp_count sp) (sp_stride sp) (sp_sourceStride sp) (sp_fields sp) (sp_lease sp) k = (Ok tt, k') ∧
        kn_transfers k' = kn_transfers k ∧ zlen (memory (kn_api k')) = zlen (memory (kn_api k)) ∧
        (∀ row f, 0 <= row < sp_count sp → f ∈ sp_fields sp →
           kernel_field sp (memory (kn_api k')) row f = guest_field_bytes sp (kn_transfers k) row f) ∧
        (∀ a n, 0 <= a → 0 <= n → a + n <= sp_pointer sp ∨ sp_pointer sp + sp_count sp * sp_stride sp <= a →
           slice a n (memory (kn_api k')) = slice a n (memory (kn_api k))).
Proof.
  intros [Ht Hz He Hc Hst Hp Hb Hf] [Hap _].
  set (data := λ row f, slice (row * sp_sourceStride sp + fc_source f) (fc_bytes f) (view (sp_lease sp) (kn_transfers k))).
  set (ws := all_writes (sp_stride sp) fc_target data (sp_fields sp) (seqZ 0 (sp_count sp))).
  assert (∀ row f, f ∈ sp_fields sp → 0 <= row < 0 + sp_count sp → zlen (data row f) = fc_bytes f) as Hd.
  { intros row f Hin Hrow. destruct (Hf f Hin) as (? & ? & ? & ? & ?).
    eapply zlen_row_field; [by rewrite (zlen_lease_view z)|done..]. }
  assert (∀ f, f ∈ sp_fields sp → 0 <= fc_target f ∧ 0 <= fc_bytes f ∧ fc_target f + fc_bytes f <= sp_stride sp) as Hfit
    by (intros f Hin; destruct (Hf f Hin) as (? & ? & ? & ? & ?); done).
  assert (Forall (within (sp_count sp * sp_stride sp)) ws) as Hw by (apply all_writes_within; [done..|lia]).
  destruct (copy_in_run (sp_pointer sp) (sp_count sp) (sp_stride sp) (sp_sourceStride sp) (sp_fields sp) (sp_lease sp) k)
    as (k' & E & Ht' & Hm); [done|done|exact Hw|].
  exists k'. split; [done|]. split; [done|]. rewrite Hm. fold data. fold ws.
  split; [apply zlen_apply_writes; by eapply shifted_within|]. split.
  - intros row f Hrow Hin. destruct (Hfit f Hin) as (? & ? & ?). unfold kernel_field.
    rewrite <- (slice_slice _ (sp_count sp * sp_stride sp)) by nia.
    rewrite apply_writes_region by (done || nia).
    assert ((row * sp_stride sp + fc_target f, data row f) ∈ ws) as Hin'
      by (apply elem_all_writes; exists row, f; rewrite elem_of_seqZ; auto with lia).
    assert (zlen (slice (sp_pointer sp) (sp_count sp * sp_stride sp) (memory (kn_api k))) = sp_count sp * sp_stride sp) as Hl
      by (apply zlen_slice; nia).
    rewrite <- (Hd row f Hin ltac:(lia)).
    by apply (apply_writes_read ws _ (row * sp_stride sp + fc_target f, data row f)); [rewrite Hl|apply all_writes_apart|].
  - intros a n ? ? Ho. by eapply apply_writes_outside.
Qed.

Lemma copy_out_fields sp z (k : kernel_run I) :
  span_ready sp z k → fields_apart (sp_fields sp) →
  ∃ k', copy_out sp k = (Ok tt, k') ∧
        (∀ row f, 0 <= row < sp_count sp → f ∈ sp_fields sp →
           guest_field_bytes sp (kn_transfers k') row f = kernel_field sp (memory (kn_api k)) row f) ∧
        (∀ i, 0 <= i < l_bytes (sp_lease sp) →
           (∀ row f, 0 <= row < sp_count sp → f ∈ sp_fields sp →
              row * sp_sourceStride sp + fc_source f + fc_bytes f <= i ∨ i + 1 <= row * sp_sourceStride sp + fc_source f) →
           slice i 1 (view (sp_lease sp) (kn_transfers k')) = slice i 1 (view (sp_lease sp) (kn_transfers k))) ∧
        (∀ z' l', z' ≠ z → mget z' (t_leases (kn_transfers k)) = Some l' →
           mget z' (t_leases (kn_transfers k')) = Some l' ∧ view l' (kn_transfers k') = view l' (kn_transfers k)).
Proof.
  intros [Ht Hz He Hc Hst Hp Hb Hf] [_ Hap]. destruct (wf_extent _ _ _ Ht Hz) as (_ & Hl0 & Ho0 & Hlb).
  set (source := slice (sp_pointer sp) (sp_count sp * sp_stride sp) (memory (kn_api k))).
  set (data := λ row f, slice (row * sp_stride sp + fc_target f) (fc_bytes f) source).
  set (ws := all_writes (sp_sourceStride sp) fc_source data (sp_fields sp) (seqZ 0 (sp_count sp))).
  assert (∀ row f, f ∈ sp_fields sp → 0 <= row < 0 + sp_count sp → zlen (data row f) = fc_bytes f) as Hd.
  { intros row f Hin Hrow. destruct (Hf f Hin) as (? & ? & ? & ? & ?).
    eapply zlen_row_field; [apply zlen_slice; nia|done..]. }
  assert (∀ f, f ∈ sp_fields sp → 0 <= fc_source f ∧ 0 <= fc_bytes f ∧ fc_source f + fc_bytes f <= sp_sourceStride sp) as Hfit
    by (intros f Hin; destruct (Hf f Hin) as (? & ? & ? & ? & ?); done).
  assert (Forall (within (l_bytes (sp_lease sp))) ws) as Hw by (apply all_writes_within; [done..|lia]).
  destruct (copy_out_run sp k) as (k' & E & Hls & Hbuf); [done|done|exact Hw|]. fold source data ws in Hbuf.
  exists k'. split; [done|].
  assert (view (sp_lease sp) (kn_transfers k') = apply_writes ws (view (sp_lease sp) (kn_transfers k))) as Hv
    by (unfold view; rewrite Hbuf; by apply apply_writes_region).
  pose proof (zlen_lease_view _ _ _ Ht Hz) as Hlen. split; [|split].
  - intros row f Hrow Hin. destruct (Hf f Hin) as (? & ? & ? & ? & ?). unfold guest_field_bytes, kernel_field.
    assert (0 <= row * sp_stride sp ∧ row * sp_stride sp + sp_stride sp <= sp_count sp * sp_stride sp) as [? ?] by (clear -Hrow Hst; nia).
    rewrite <- (slice_slice (sp_pointer sp) (sp_count sp * sp_stride sp)) by lia. rewrite Hv. fold source.
    rewrite <- (Hd row f Hin ltac:(lia)) at 1.
    apply (apply_writes_read ws _ (row * sp_sourceStride sp + fc_source f, data row f));
      [by rewrite Hlen|by apply all_writes_apart|].
    apply elem_all_writes. exists row, f. rewrite elem_of_seqZ. auto with lia.
  - intros i Hi Hno. rewrite Hv. apply apply_writes_other; [by rewrite Hlen|lia|done|].
    intros w (row & f & Hrow%elem_of_seqZ & Hin & ->)%elem_all_writes. simpl. rewrite Hd by done.
    apply Hno; [lia|done].
  - intros z' l' Hne Hz'. rewrite Hls. split; [done|]. unfold view. rewrite Hbuf.
    destruct (wf_extent _ _ _ Ht Hz') as (_ & ? & ? & ?).
    eapply apply_writes_outside; [exact Hw|done..|]. destruct Ht as [Hnd Htl].
    pose proof (tiles_disjoint _ _ _ _ _ _ _ Hnd Htl (mget_elem _ _ _ Hz') (mget_elem _ _ _ Hz) Hne). lia.
Qed.

(** ** One span of a run *)

Lemma span_stride_nonneg entry p :
  (∀ n ly, mget n (ke_layouts entry) = Some ly → layout_ok ly) →
  let ly := span_layout entry p in
  match ly with Some ly' => layout_ok ly' ∧ span_stride ly p = ly_size ly' | None => 0 <= span_stride ly p end.
Proof.
  intros Hly ly. destruct ly as [ly'|] eqn:E; unfold ly in *.
  - split; [|done]. unfold span_layout in E. destruct (String.prefix _ _ && _); [by eapply Hly|done].
  - unfold span_stride. destruct (_ ≫= _) as [n|] eqn:En.
    + destruct (pa_sourceType p) as [s|]; simpl in En; [|done]. repeat case_decide; simplify_eq; lia.
    + simpl. repeat case_decide; simpl; lia.
Qed.

Lemma allocate_Ok size (k : kernel_run I) p k' :
  allocate size k = (Ok p, k') → kn_transfers k' = kn_transfers k.
Proof.
  unfold allocate. intros (? & k1 & Hi & H)%bind_Ok. injection Hi as _ <-.
  apply bind_Ok in H as (q & k2 & Hm & H). unfold on_api, zoom in Hm. destruct (malloc _ _) as [r i]. injection Hm as -> <-.
  apply bind_Ok in H as (b & k3 & [= <- <-] & H). apply bind_Ok in H as (u & k4 & [_ ->]%guard_Ok & H).
  apply bind_Ok in H as (u' & k5 & [= <- <-] & [= <- <-]). done.
Qed.

Lemma take_lease_Ok id n w (k : kernel_run I) l k' :
  take_lease id n w k = (Ok l, k') → k' = push_lease id k ∧ lease_of id (VNum (NInt n)) w (kn_transfers k) = Ok l.
Proof.
  unfold take_lease. cbv [mbind js_bind gets lift modify mret js_ret].
  destruct (lease_of _ _ _ _) as [l'|e]; [|done]. by intros [= -> <-].
Qed.

Lemma set_uint32_Ok at_ v (k : kernel_run I) u k' :
  set_uint32 at_ v k = (Ok u, k') →
  at_ + 4 <= zlen (memory (kn_api k)) ∧ k' = with_memory (splice at_ (le_split 4 v) (memory (kn_api k))) k.
Proof.
  unfold set_uint32. cbv [mbind js_bind gets]. unfold guard_js.
  destruct (Z.ltb_spec (zlen (memory (kn_api k))) (at_ + 4)); [done|]. intros [= _ <-]. done.
Qed.

Lemma copy_in_view pointer count stride sourceStride fields l (k : kernel_run I) u k' :
  copy_in pointer count stride sourceStride fields l k = (Ok u, k') →
  0 <= pointer ∧ pointer + count * stride <= zlen (memory (kn_api k)).
Proof.
  unfold copy_in. intros (u' & k1 & H & _)%bind_Ok. unfold new_view in H. cbv [mbind js_bind gets] in H.
  apply guard_Ok in H as [[? ?]%orb_false_elim _]. lia.
Qed.

(** What a span that was prepared stands for, and the states it went through. *)
Lemma prepare_span_Ok entry args argsPointer p supplied index countIndex (k : kernel_run I) sp k' :
  prepare_span entry args argsPointer p supplied index countIndex k = (Ok sp, k') →
  transfers_wf (kn_transfers k) → (∀ n ly, mget n (ke_layouts entry) = Some ly → layout_ok ly) →
  ∃ s z k1 k2, supplied = Some s ∧ ss_lease s = VNum (NInt z) ∧ span_ready sp z k1 ∧
    kn_transfers k1 = kn_transfers k ∧
    copy_in (sp_pointer sp) (sp_count sp) (sp_stride sp) (sp_sourceStride sp) (sp_fields sp) (sp_lease sp) k1 = (Ok tt, k2) ∧
    set_uint32 (argsPointer + index * 8) (sp_pointer sp) k2 = (Ok tt, k').
Proof.
  intros H Ht Hly. unfold prepare_span in H. cbv zeta in H. pose proof (span_stride_nonneg entry p Hly) as Hst. cbv zeta in Hst.
  set (stride := span_stride (span_layout entry p) p) in *.
  apply bind_Ok in H as (a & ? & [= <- <-] & H). apply bind_Ok in H as (count & ? & Hc & H).
  injection Hc as Hc <-. apply bind_Ok in H as (? & ? & [_ ->]%guard_Ok & H).
  apply bind_Ok in H as (ss & ? & Hi & H). injection Hi as Hi <-. apply integer_Ok in Hi as [Hs Hss].
  apply bind_Ok in H as (? & ? & [_ ->]%guard_Ok & H). destruct supplied as [s|]; [|done].
  apply bind_Ok in H as (l & ka & [-> Hl]%take_lease_Ok & H). apply bind_Ok in H as (fields & ? & Hf & H).
  injection Hf as Hf <-. apply bind_Ok in H as (pointer & kb & Ha & H). apply allocate_Ok in Ha.
  apply bind_Ok in H as ([] & kc & Hci & H). apply bind_Ok in H as ([] & kd & Hu & [= <- <-]). simpl in *.
  destruct (copy_in_view _ _ _ _ _ _ _ _ _ Hci) as [Hp Hb].
  apply lease_of_Ok in Hl as (z & Hz & Hg & _ & _ & Hn).
  exists s, z, kb, kc. rewrite Ha. do 2 (split; [done|]). split; [|done].
  assert (0 <= count) as Hcount.
  { unfold get_uint32 in Hc. destruct (_ <? _); [done|]. injection Hc as <-. apply le_combine_bound. }
  split; simpl; rewrite ?Ha; try done.
  - by apply Hn.
  - destruct (span_layout entry p) as [ly|]; [|done]. destruct Hst as [[? _] ->]. done.
  - by eapply span_fields_fits.
Qed.
End Spans.

Section Converted.
Context {I : Type} `{!WasmApi I, !WasmMemory I}.

Lemma slice_apart_word (m : list byte) at_ v a n :
  0 <= at_ → at_ + 4 <= zlen m → 0 <= a → 0 <= n → at_ + 4 <= a ∨ a + n <= at_ →
  slice a n (splice at_ (le_split 4 v) m) = slice a n m.
Proof.
  intros. assert (zlen (le_split 4 v) = 4) as Hl by (unfold zlen; by rewrite length_le_split).
  destruct H3; [apply slice_splice_above|apply slice_splice_below]; lia.
Qed.

(** C18 A span that [perform] prepared reaches the kernel as the guest holds it, under conditions that the code
    does not check itself: the fields the guest names overlap neither in its own rows nor in the kernel's (nothing
    checks the guest's offsets against each other), the argument word lies outside the block the span was given (which an
    allocator that keeps blocks apart ensures), and the transfers are well formed.  The kernel's layouts are taken as the loop of
    [createKernels] accepts them, each field within its struct.  Then row by row and field by field the block has the bytes
    of the lease's view, though the two layouts may place the fields differently, the argument word holds the block's address, and
    preparing it wrote nothing in the guest's payload.  Whatever memory [m], no smaller than before, the kernel leaves, copying the
    span back returns, gives each field of each row the kernel's bytes, and leaves the bytes of a row that are in no field, and every
    other lease, as they were. *)
Theorem kernel_span_conversion entry args argsPointer p supplied index countIndex (k : kernel_run I) sp k' m :
  prepare_span entry args argsPointer p supplied index countIndex k = (Ok sp, k') →
  transfers_wf (kn_transfers k) → (∀ n ly, mget n (ke_layouts entry) = Some ly → layout_ok ly) → fields_apart (sp_fields sp) →
  0 <= argsPointer + index * 8 →
  argsPointer + index * 8 + 4 <= sp_pointer sp ∨ sp_pointer sp + sp_count sp * sp_stride sp <= argsPointer + index * 8 →
  zlen (memory (kn_api k')) <= zlen m →
  (∀ row f, 0 <= row < sp_count sp → f ∈ sp_fields sp →
     kernel_field sp (memory (kn_api k')) row f = guest_field_bytes sp (kn_transfers k) row f) ∧
  slice (argsPointer + index * 8) 4 (memory (kn_api k')) = le_split 4 (sp_pointer sp) ∧
  kn_transfers k' = kn_transfers k ∧
  ∃ k2, copy_out sp (with_memory m k') = (Ok tt, k2) ∧
    (∀ row f, 0 <= row < sp_count sp → f ∈ sp_fields sp → guest_field_bytes sp (kn_transfers k2) row f = kernel_field sp m row f) ∧
    (∀ i, 0 <= i < l_bytes (sp_lease sp) →
       (∀ row f, 0 <= row < sp_count sp → f ∈ sp_fields sp →
          row * sp_sourceStride sp + fc_source f + fc_bytes f <= i ∨ i + 1 <= row * sp_sourceStride sp + fc_source f) →
       slice i 1 (view (sp_lease sp) (kn_transfers k2)) = slice i 1 (view (sp_lease sp) (kn_transfers k))) ∧
    (∀ z l, l ≠ sp_lease sp → mget z (t_leases (kn_transfers k)) = Some l →
       mget z (t_leases (kn_transfers k2)) = Some l ∧ view l (kn_transfers k2) = view l (kn_transfers k)).
Proof.
  intros H Ht Hly Hap Ha Hw Hm.
  destruct (prepare_span_Ok _ _ _ _ _ _ _ _ _ _ H Ht Hly) as (s & z & k1 & k2 & -> & Hz & Hr & Hk1 & Hc & Hu).
  destruct (copy_in_fields sp z k1 Hr Hap) as (k2' & E & Hk2 & Hlen & Hfields & _). rewrite Hc in E. injection E as <-.
  apply set_uint32_Ok in Hu as [Hroom ->]. cbn [kn_api kn_transfers with_memory] in *. rewrite memory_set_memory in *.
  destruct Hr as [Rt Rl Re Rc Rs Rp Rb Rf].
  assert (zlen (le_split 4 (sp_pointer sp)) = 4) as H4 by (unfold zlen; by rewrite length_le_split).
  rewrite zlen_splice in Hm by lia. rewrite Hk1, Hk2 in *. split; [|split; [|split; [done|]]].
  - intros row f Hrow Hin. rewrite <- Hfields by done. destruct (Rf f Hin) as (? & ? & ? & ? & ?).
    assert (0 <= row * sp_stride sp ∧ row * sp_stride sp + sp_stride sp <= sp_count sp * sp_stride sp) as [? ?] by (clear -Hrow Rs; nia).
    unfold kernel_field. apply slice_apart_word; lia.
  - rewrite <- H4. by apply slice_splice_same; rewrite H4 || idtac.
  - destruct (copy_out_fields sp z (with_memory m (with_memory (splice (argsPointer + index * 8) (le_split 4 (sp_pointer sp))
      (memory (kn_api k2))) k2))) as (k3 & E & Hf & Hi & Hl); [|done|].
    { split; cbn [kn_api kn_transfers with_memory]; rewrite ?memory_set_memory, ?Hk2; try done. lia. }
    cbn [kn_api kn_transfers with_memory] in *. rewrite Hk2 in Hi, Hl. exists k3. split; [done|].
    split; [intros; rewrite Hf by done; by rewrite memory_set_memory|]. split; [exact Hi|].
    intros z' l Hne Hl'. apply (Hl z'); [|done]. intros ->. congruence.
Qed.
End Converted.

(** ** What a run gives back *)

(** What the code relies on of a kernel's allocator: the blocks that are live, which a
    successful [malloc] extends and [free] of a live block shrinks, and which neither the
    kernel nor a write to its memory changes. *)
Class WasmAlloc (I : Type) `{!WasmApi I} (live : I → list Z) := {
  malloc_live n i p i' : malloc n i = (Ok p, i') → p ≠ 0 → live i' ≡ₚ p :: live i;
  malloc_inside n i p i' : malloc n i = (Ok p, i') → p ≠ 0 → p + n <= zlen (memory i');
  malloc_null n i i' : malloc n i = (Ok 0, i') → live i' = live i;
  malloc_throws n i e i' : malloc n i = (Throw e, i') → live i' = live i;
  free_live p i : p ∈ live i → ∃ i', free p i = (Ok tt, i') ∧ live i ≡ₚ p :: live i';
  call_live name a b i : live (call_export name a b i).2 = live i;
  set_memory_live m i : live (set_memory m i) = live i
}.

Section Resources.
Context {I : Type} `{!WasmApi I} (live : I → list Z) `{!WasmAlloc I live}.
Implicit Types k : kernel_run I.

(** The blocks live are those of the run and those there were. *)
Definition blocks_owned (base : list Z) (k : kernel_run I) : Prop := live (kn_api k) ≡ₚ kn_allocated k ++ base.

Lemma owned_malloc base size k : blocks_owned base k →
  match allocate size k with (Ok p, k') => blocks_owned base k' | (Throw e, k') => blocks_owned base k' end.
Proof.
  unfold allocate, blocks_owned. cbv [mbind js_bind lift]. intros H. destruct (integer _ _); [|done].
  unfold on_api, zoom. destruct (malloc (Z.max 1 size) (kn_api k)) as [[p|e] i'] eqn:E; simpl.
  - unfold guard_js. destruct (Z.eqb_spec p 0) as [->|Hne]; simpl.
    { by rewrite (malloc_null _ _ _ E). }
    pose proof (malloc_inside _ _ _ _ E Hne). rewrite (proj2 (Z.ltb_ge _ _)) by lia. simpl.
    rewrite (malloc_live _ _ _ _ E Hne), H, <- app_assoc. apply Permutation_middle.
  - by rewrite (malloc_throws _ _ _ _ E).
Qed.

Lemma owned_allocate base size : preserves (blocks_owned base) (allocate size).
Proof. intros k Hk. pose proof (owned_malloc base size k Hk). by destruct (allocate size k) as [[]]. Qed.

Lemma owned_memory base m k : blocks_owned base k → blocks_owned base (with_memory m k).
Proof. unfold blocks_owned. simpl. by rewrite set_memory_live. Qed.

Lemma owned_memory_set base a b c src : preserves (blocks_owned base) (memory_set (I:=I) a b c src).
Proof. unfold memory_set. preserve. intros k Hk. by apply owned_memory. Qed.

Lemma owned_set_uint32 base a v : preserves (blocks_owned base) (set_uint32 (I:=I) a v).
Proof. unfold set_uint32. preserve. intros k Hk. by apply owned_memory. Qed.

Lemma owned_new_view base a b : preserves (blocks_owned base) (new_view (I:=I) a b).
Proof. unfold new_view. preserve. Qed.

Lemma owned_take_lease base id n w : preserves (blocks_owned base) (take_lease (I:=I) id n w).
Proof. unfold take_lease. preserve. by intros k Hk. Qed.

Lemma owned_view_write base l a src : preserves (blocks_owned base) (view_write (I:=I) l a src).
Proof. unfold view_write. preserve. by intros k Hk. Qed.

Lemma owned_call base name a b : preserves (blocks_owned base) (on_api (call_export name a b)).
Proof.
  intros k Hk. unfold on_api, zoom, blocks_owned. pose proof (call_live name a b (kn_api k)).
  destruct (call_export name a b (kn_api k)). simpl in *. by rewrite H.
Qed.

Hint Resolve owned_allocate owned_memory_set owned_set_uint32 owned_new_view owned_take_lease owned_view_write owned_call : jsinv.

Lemma owned_prepare_span base entry args ap p supplied index ci :
  preserves (blocks_owned base) (prepare_span (I:=I) entry args ap p supplied index ci).
Proof. unfold prepare_span, view_of, copy_in. preserve. Qed.

Lemma owned_prepare_spans base entry args ap supplied params index nc ns :
  preserves (blocks_owned base) (prepare_spans (I:=I) entry args ap supplied params index nc ns).
Proof.
  revert index nc ns. induction params as [|p params IH]; intros; cbn [prepare_spans]; [preserve|].
  apply preserves_if; [apply IH|]. cbv zeta. apply preserves_bind; [apply owned_prepare_span|]. intros. preserve.
Qed.

Hint Resolve owned_prepare_spans : jsinv.

Lemma owned_body base entry effect : preserves (blocks_owned base) (perform_body (I:=I) entry effect).
Proof. unfold perform_body, view_of, view_bytes, copy_out. cbv zeta. preserve. Qed.

(** Freeing the run's blocks leaves those there were. *)
Lemma frees_all ps base k :
  live (kn_api k) ≡ₚ ps ++ base →
  ∃ k', for_each ps (λ p, on_api (free p)) k = (Ok tt, k') ∧ live (kn_api k') ≡ₚ base ∧
        kn_transfers k' = kn_transfers k ∧ kn_leases k' = kn_leases k.
Proof.
  revert k. induction ps as [|p ps IH]; intros k H; simpl; [by eexists|].
  destruct (free_live p (kn_api k)) as (i' & E & Hp); [rewrite H; left|].
  assert (on_api (free p) k = (Ok tt, KernelRun i' (kn_transfers k) (kn_allocated k) (kn_leases k))) as E'
    by (unfold on_api, zoom; by rewrite E).
  rewrite (bind_run _ _ _ _ _ E').
  apply (IH (KernelRun i' (kn_transfers k) (kn_allocated k) (kn_leases k))). simpl. rewrite Hp in H. by apply Permutation_cons_inv in H.
Qed.

Definition release_all (ids : list jsval) (t : transfers) : transfers := foldl (λ t id, release_lease id t) t ids.

Lemma releases_all ids k :
  ∃ k', for_each ids (λ id, modify (λ k, set_table (release_lease id (kn_transfers k)) k)) k = (Ok tt, k') ∧
        kn_api k' = kn_api k ∧ kn_transfers k' = release_all ids (kn_transfers k).
Proof.
  revert k. induction ids as [|id ids IH]; intros k; simpl; [by eexists|].
  apply (IH (set_table (release_lease id (kn_transfers k)) k)).
Qed.

(** The end of a run, however its body ended. *)
Lemma run_entry_ends entry effect k :
  kn_allocated k = [] →
  let '(r, k1) := perform_body entry effect k in
  ∃ k', run_entry entry effect k = (r, k') ∧ live (kn_api k') ≡ₚ live (kn_api k) ∧
        kn_transfers k' = release_all (kn_leases k1) (kn_transfers k1).
Proof.
  intros Ha. destruct (perform_body entry effect k) as [r k1] eqn:E.
  assert (blocks_owned (live (kn_api k)) k1) as Ho.
  { pose proof (owned_body (live (kn_api k)) entry effect k) as H. rewrite E in H. apply H. unfold blocks_owned. by rewrite Ha. }
  destruct (frees_all _ _ _ Ho) as (k2 & Ef & Hl & Ht & Hls).
  destruct (releases_all (kn_leases k1) k2) as (k3 & Er & Hi & Ht3).
  exists k3. split; [|by rewrite Hi, Ht3, Ht].
  apply (finally_run _ _ _ _ k1); [done|]. unfold perform_finally. cbv [mbind js_bind gets].
  by rewrite Ef.
Qed.

(** ** Leases a run took *)

Definition taken (id : jsval) (k : kernel_run I) : Prop :=
  id ∈ kn_leases k ∧ ∃ z, id = VNum (NInt z) ∧ is_Some (mget z (t_leases (kn_transfers k))).

Lemma taken_api id i' k : taken id k → taken id (KernelRun i' (kn_transfers k) (kn_allocated k) (kn_leases k)).
Proof. done. Qed.

Lemma taken_on_api {A} id (m : js I A) : preserves (taken id) (on_api m).
Proof. intros k Hk. unfold on_api, zoom. by destruct (m (kn_api k)). Qed.

Lemma taken_take_lease id id' n w : preserves (taken id) (take_lease (I:=I) id' n w).
Proof. unfold take_lease. preserve. intros k [H ?]. split; [simpl; set_solver|done]. Qed.

Lemma taken_view_write id l a src : preserves (taken id) (view_write (I:=I) l a src).
Proof.
  intros k [H (z & -> & Hz)]. unfold view_write. cbv [mbind js_bind gets lift modify].
  destruct (view_set l a src (kn_transfers k)) as [t'|e] eqn:E; [|split; eauto].
  apply view_set_Ok in E as (_ & _ & ->). split; eauto.
Qed.

Hint Resolve taken_on_api taken_take_lease taken_view_write : jsinv.

Lemma taken_allocate id size : preserves (taken id) (allocate (I:=I) size).
Proof. unfold allocate. preserve. intros k [H ?]. by split. Qed.

Lemma taken_memory_set id a b c src : preserves (taken id) (memory_set (I:=I) a b c src).
Proof. unfold memory_set. preserve. Qed.

Lemma taken_set_uint32 id a v : preserves (taken id) (set_uint32 (I:=I) a v).
Proof. unfold set_uint32. preserve. Qed.

Lemma taken_new_view id a b : preserves (taken id) (new_view (I:=I) a b).
Proof. unfold new_view. preserve. Qed.

Hint Resolve taken_allocate taken_memory_set taken_set_uint32 taken_new_view : jsinv.

Lemma taken_prepare_span id entry args ap p supplied index ci :
  preserves (taken id) (prepare_span (I:=I) entry args ap p supplied index ci).
Proof. unfold prepare_span, view_of, copy_in. preserve. Qed.

Lemma taken_prepare_spans id entry args ap supplied params index nc ns :
  preserves (taken id) (prepare_spans (I:=I) entry args ap supplied params index nc ns).
Proof.
  revert index nc ns. induction params as [|p params IH]; intros; cbn [prepare_spans]; [preserve|].
  apply preserves_if; [apply IH|]. cbv zeta. apply preserves_bind; [apply taken_prepare_span|]. intros. preserve.
Qed.

Lemma preserves_Ok {A} P (m : js (kernel_run I) A) k r k' : preserves P m → m k = (r, k') → P k → P k'.
Proof. intros H E Hk. specialize (H k Hk). by rewrite E in H. Qed.

Lemma take_lease_taken id n w k l k' : take_lease id n w k = (Ok l, k') → taken id k'.
Proof.
  intros [-> (z & -> & Hz & _)%lease_of_Ok]%take_lease_Ok. split; [simpl; set_solver|]. exists z. split; [done|by eexists].
Qed.

(** A span that was prepared took its lease. *)
Lemma prepare_span_taken entry args ap p supplied index ci k sp k' :
  prepare_span entry args ap p supplied index ci k = (Ok sp, k') → ∃ s, supplied = Some s ∧ taken (ss_lease s) k'.
Proof.
  unfold prepare_span. cbv zeta. intros H. apply bind_Ok in H as (a & ? & _ & H). apply bind_Ok in H as (count & ? & _ & H).
  apply bind_Ok in H as (? & ? & _ & H). apply bind_Ok in H as (ss & ? & _ & H). apply bind_Ok in H as (? & ? & _ & H).
  destruct supplied as [s|]; [|done]. exists s. split; [done|].
  apply bind_Ok in H as (l & ka & Hl%take_lease_taken & H).
  refine (preserves_Ok _ _ _ _ _ _ H Hl). unfold copy_in, view_of. preserve.
Qed.

Lemma prepare_spans_taken entry args ap supplied params index nc ns k sps n k' :
  prepare_spans entry args ap supplied params index nc ns k = (Ok (sps, n), k') → 0 <= ns →
  ns <= n ∧ ∀ i, ns <= Z.of_nat i < n → ∃ s, supplied !! i = Some (Some s) ∧ taken (ss_lease s) k'.
Proof.
  revert index nc ns k sps k'. induction params as [|p params IH]; intros index nc ns k sps k'; cbn [prepare_spans].
  { intros [= <- <- <-] ?. split; [done|lia]. }
  destruct (negb (is_span p)); [apply IH|]. cbv zeta. intros H ?. apply bind_Ok in H as (sp & k1 & Hsp & H).
  apply bind_Ok in H as ([sps' n'] & k2 & Hrest & [= <- <- <-]).
  destruct (IH _ _ _ _ _ _ Hrest ltac:(lia)) as [Hn Hi]. split; [simpl; lia|]. intros i Hin. simpl in Hin.
  destruct (decide (Z.of_nat i = ns)) as [Heq|Hne]; [|apply Hi; lia].
  apply prepare_span_taken in Hsp as (s & Hs & Ht). exists s. subst ns. rewrite Nat2Z.id in Hs.
  split; [by destruct (supplied !! i) as [[]|]; simplify_eq/=|].
  by eapply preserves_Ok; [apply taken_prepare_spans|exact Hrest|].
Qed.

(** The leases an effect names. *)
Definition names_lease (effect : kernel_effect) (id : jsval) : Prop :=
  id = kf_lease effect ∨ id = kf_resultLease effect ∨
  ∃ supplied s, kf_spans effect = Some supplied ∧ Some s ∈ supplied ∧ id = ss_lease s.

Lemma body_taken entry effect k k' id :
  perform_body entry effect k = (Ok tt, k') → names_lease effect id → taken id k'.
Proof.
  unfold perform_body. cbv zeta. intros H Hid. apply bind_Ok in H as (args & k1 & Ha%take_lease_taken & H).
  apply bind_Ok in H as (res & k2 & Hr & H).
  assert (taken (kf_lease effect) k2) as Ha2 by (by eapply preserves_Ok; [apply taken_take_lease|exact Hr|]).
  apply take_lease_taken in Hr. destruct Hid as [->|[->|(supplied & s & Hs & Hin & ->)]].
  1: refine (preserves_Ok _ _ _ _ _ _ H Ha2). 2: refine (preserves_Ok _ _ _ _ _ _ H Hr).
  1,2: unfold view_of, view_bytes, copy_out; preserve; apply taken_prepare_spans.
  do 5 (apply bind_Ok in H as (? & ? & _ & H)). rewrite Hs in H.
  apply bind_Ok in H as ([sps n] & k3 & Hsp & H). apply bind_Ok in H as (? & ? & [Hn ->]%guard_Ok & H).
  simpl in Hn. destruct (Z.eqb_spec n (zlen supplied)) as [->|]; [|done].
  apply list_elem_of_lookup_1 in Hin as (i & Hi).
  apply prepare_spans_taken in Hsp as [_ Hsp]; [|lia].
  destruct (Hsp i) as (s' & Hs' & Ht); [apply lookup_lt_Some in Hi; unfold zlen; lia|].
  rewrite Hi in Hs'. injection Hs' as <-. refine (preserves_Ok _ _ _ _ _ _ H Ht).
  unfold view_of, view_bytes, copy_out. preserve.
Qed.

Lemma released_stays ids t z :
  (∃ l, mget z (t_leases t) = Some l ∧ l_released l = true) →
  ∃ l, mget z (t_leases (release_all ids t)) = Some l ∧ l_released l = true.
Proof.
  revert t. induction ids as [|id ids IH]; intros t (l & Hl & Hr); simpl; [eauto|]. apply IH.
  unfold release_lease. destruct id as [| | |[z'| | |]| |]; eauto. destruct (get_lease _ t) as [l'|] eqn:E; [|eauto]. simpl.
  destruct (decide (z' = z)) as [->|Hne]; [rewrite mget_mset_eq; by eexists|rewrite mget_mset_ne by done; eauto].
Qed.

Lemma released_all ids t z :
  VNum (NInt z) ∈ ids → is_Some (mget z (t_leases t)) →
  ∃ l, mget z (t_leases (release_all ids t)) = Some l ∧ l_released l = true.
Proof.
  revert t. induction ids as [|id ids IH]; intros t Hin [l Hl]; [by apply elem_of_nil in Hin|]. simpl.
  apply elem_of_cons in Hin as [<-|Hin].
  - apply released_stays. unfold release_lease. simpl. rewrite Hl. simpl. rewrite mget_mset_eq. by eexists.
  - apply IH; [done|]. unfold release_lease. destruct id as [| | |[z'| | |]| |]; [by eexists..| | | | | |]; try (by eexists).
    destruct (get_lease _ t); [by apply is_Some_mget_mset; eexists|by eexists].
Qed.

(** C17 Whatever effect a guest sends and however [perform] ends, every unit of the application
    keeps its entries and the blocks that were live in its memory before: what the run allocated
    is freed, also when a check fails, the kernel traps or a span does not fit.  When it
    returns, every lease the effect names is in the table and released, so the frame can be
    answered. *)
Theorem kernel_perform_gives_back effect (s : kernels I) r s' :
  perform effect s = (r, s') →
  (∀ id u, mget id (kn_units s) = Some u →
     ∃ u', mget id (kn_units s') = Some u' ∧ ku_entries u' = ku_entries u ∧ live (ku_api u') ≡ₚ live (ku_api u)) ∧
  (r = Ok tt → ∀ id, names_lease effect id →
     ∃ z l, id = VNum (NInt z) ∧ mget z (t_leases (kn_table s')) = Some l ∧ l_released l = true).
Proof.
  unfold perform. destruct (find_unit _ _) as [[id0 u0]|] eqn:Eu; [|intros [= <- <-]; split; [eauto|done]].
  destruct (match kf_symbol effect with VStr _ => _ | _ => _ end) as [entry|]; [|intros [= <- <-]; split; [eauto|done]].
  pose proof (run_entry_ends entry effect (KernelRun (ku_api u0) (kn_table s) [] []) eq_refl) as Hend.
  destruct (perform_body entry effect _) as [r1 k1] eqn:Eb. destruct Hend as (k' & -> & Hl & Ht). intros [= <- <-]. simpl in *. split.
  - intros id u Hu. destruct (decide (id0 = id)) as [->|Hne]; [|rewrite mget_mset_ne by done; eauto].
    rewrite mget_mset_eq. eexists. split; [done|].
    assert (u0 = u) as ->; [|done].
    { clear -Eu Hu. induction (kf_unit effect) as [|[] c IH]; simpl in Eu; try done; auto.
      destruct (mget s0 (kn_units s)) eqn:E; [|auto]. injection Eu as -> ->. congruence. }
  - intros -> id Hid. destruct (body_taken _ _ _ _ _ Eb Hid) as (Hin & z & -> & Hz).
    rewrite Ht. destruct (released_all _ _ _ Hin Hz) as (l & ? & ?). eauto.
Qed.
End Resources.

(** ** Layouts of created units *)

Section Created.
Context {I : Type} `{!WebAssembly I} (verified : string → res (list byte)).

Lemma read_fields_sizes prefix names (i : I) fs i' :
  read_fields prefix names i = (Ok fs, i') → ∀ f, f ∈ fs → 0 <= lf_offset f ∧ 0 <= lf_bytes f.
Proof.
  revert i fs. induction names as [|n names IH]; intros i fs; cbn [read_fields].
  { intros [= <- _] f Hf. by apply elem_of_nil in Hf. }
  intros (o & ? & _ & (off & ? & Ho & (b & ? & _ & (by_ & ? & Hb & (rest & ? & Hr & [= <- <-])%bind_Ok)%bind_Ok)%bind_Ok)%bind_Ok)%bind_Ok.
  injection Ho as Ho _. injection Hb as Hb _. apply integer_Ok in Ho as [_ ?], Hb as [_ ?].
  intros f [->|Hf]%elem_of_cons; [simpl; lia|by eapply IH].
Qed.

Definition layouts_ok (ls : jmap string layout) : Prop := ∀ n ly, mget n ls = Some ly → layout_ok ly.

Lemma read_layouts_ok records ls (i : I) ls' i' :
  layouts_ok ls → read_layouts records ls i = (Ok ls', i') → layouts_ok ls'.
Proof.
  revert ls i. induction records as [|r records IH]; intros ls i Hls; cbn [read_layouts]; [by intros [= <- <-]|].
  intros (s & ? & _ & (size & ? & Hs & (fs & ? & Hf & (? & ? & [Hg ->]%guard_Ok & H)%bind_Ok)%bind_Ok)%bind_Ok)%bind_Ok.
  injection Hs as Hs _. apply integer_Ok in Hs as [_ ?]. eapply IH; [|exact H].
  intros n ly [[-> ->]|[_ ?]]%mget_mset_Some; [|by eapply Hls]. split; [simpl; lia|]. simpl. intros f Hin.
  destruct (read_fields_sizes _ _ _ _ _ Hf f Hin). split; [done|]. split; [done|].
  destruct (Z.ltb_spec size (lf_offset f + lf_bytes f)) as [Hlt|]; [|done]. exfalso.
  apply not_true_iff_false in Hg. apply Hg, existsb_exists. exists f. split; [by apply list_elem_of_In|lia].
Qed.

Definition entries_ok (es : jmap string kernel_entry) : Prop := ∀ n e, mget n es = Some e → layouts_ok (ke_layouts e).

Lemma read_entries_ok records es (i : I) es' i' :
  entries_ok es → read_entries records es i = (Ok es', i') → entries_ok es'.
Proof.
  revert es i. induction records as [|r records IH]; intros es i Hes; cbn [read_entries]; [by intros [= <- <-]|].
  intros (c & ? & _ & (? & ? & _ & (ls & ? & Hl & H)%bind_Ok)%bind_Ok)%bind_Ok. eapply IH; [|exact H].
  intros n e [[-> ->]|[_ ?]]%mget_mset_Some; [|by eapply Hes]. simpl. eapply read_layouts_ok; [|exact Hl]. done.
Qed.

Lemma create_units_ok records units units' :
  (∀ id u, mget id units = Some u → entries_ok (ku_entries u)) → create_units verified records units = Ok units' →
  ∀ id u, mget id units' = Some u → entries_ok (ku_entries u).
Proof.
  revert units. induction records as [|r records IH]; intros units Hu; cbn [create_units]; [by intros [= <-]|].
  destruct (_ || _); [done|]. intros (bytes & _ & (u & Hc & H)%res_bind_Ok)%res_bind_Ok. eapply IH; [|exact H].
  destruct u as [u|]; [|done]. intros id v [[-> ->]|[_ ?]]%mget_mset_Some; [|by eapply Hu].
  unfold create_unit in Hc. destruct (_ && negb _); [done|]. apply res_bind_Ok in Hc as (m & _ & Hc).
  destruct (existsb _ _); [done|]. apply res_bind_Ok in Hc as (i & _ & Hc).
  lazymatch type of Hc with match ?m with _ => _ end = _ => destruct m as [[es|e] i'] eqn:E; [|done] end. injection Hc as <-. simpl.
  do 5 (apply bind_Ok in E as (? & ? & _ & E)). eapply read_entries_ok; [|exact E]. done.
Qed.
End Created.

(** ** A concrete kernel *)

(** A memory with a bump allocator, and one kernel, which writes [42] at the start of its span. *)
Record demo_wasm := DemoWasm { dw_memory : list byte; dw_live : list Z; dw_next : Z }.

Definition demo_write (p : Z) (i : demo_wasm) : demo_wasm :=
  if (p <? 0) || (zlen (dw_memory i) <=? p) then i
  else DemoWasm (splice p [x2a] (dw_memory i)) (dw_live i) (dw_next i).

#[export] Instance demo_wasm_api : WasmApi demo_wasm := {
  memory := dw_memory;
  set_memory m i := DemoWasm m (dw_live i) (dw_next i);
  malloc n i := if (dw_next i <=? 0) || (zlen (dw_memory i) <? dw_next i + n) then (Ok 0, i)
                else (Ok (dw_next i), DemoWasm (dw_memory i) (dw_next i :: dw_live i) (dw_next i + n));
  free p i := (Ok tt, DemoWasm (dw_memory i) (remove_one p (dw_live i)) (dw_next i));
  call_export _ a _ i := (Ok tt, demo_write (le_combine (slice a 4 (dw_memory i))) i)
}.

#[export] Instance demo_wasm_memory : WasmMemory demo_wasm.
Proof. done. Qed.

#[export] Instance demo_wasm_alloc : WasmAlloc demo_wasm dw_live.
Proof.
  split; simpl.
  - intros n i p i'. destruct (_ || _); intros [= <- <-]; done.
  - intros n i p i'. destruct (Z.leb_spec (dw_next i) 0), (Z.ltb_spec (zlen (dw_memory i)) (dw_next i + n));
      intros [= <- <-]; try done.
  - intros n i i'. destruct (Z.leb_spec (dw_next i) 0); simpl; [by intros [= <-]|]. case_match; intros [=]; subst; [done|lia].
  - intros n i e i'. destruct (_ || _); done.
  - intros p i Hp. eexists. split; [done|]. by apply remove_one_perm.
  - intros _ a b i. simpl. unfold demo_write. by destruct (_ || _).
  - done.
Qed.

(** A struct of two fields the kernel lays out in four bytes and the guest in three; two rows. *)
Definition demo_entry : kernel_entry :=
  KernelEntry "mark" [Param "write_span" "struct:P" None] 1 false
    [("P", Layout 4 [LayoutField "a" 2 2; LayoutField "b" 0 1])].
Definition demo_span : supplied_span :=
  SuppliedSpan (VNum (NInt 3)) (VNum (NInt 3))
    (Some [Some (GuestField (VStr "a") (VNum (NInt 0)) (VNum (NInt 2)));
           Some (GuestField (VStr "b") (VNum (NInt 2)) (VNum (NInt 1)))]).
Definition demo_kernel_effect : kernel_effect :=
  KernelEffect [VStr "u"] (VStr "mark") (VNum (NInt 1)) (VNum (NInt 2)) (Some [Some demo_span]).
Definition demo_table : transfers :=
  Transfers (replicate 8 x00 ++ [x02] ++ replicate 7 x00 ++ replicate 8 x00 ++ [x01; x02; x03; x04; x05; x06])
    [(1, Lease 1 0 16 false false); (2, Lease 2 16 8 true false); (3, Lease 3 24 6 true false)].
Definition demo_kernels : kernels demo_wasm :=
  Kernels [("u", KernelUnit (DemoWasm (replicate 128 x00) [] 16) [("mark", demo_entry)])] demo_table.
Definition demo_run : kernel_run demo_wasm := KernelRun (DemoWasm (replicate 128 x00) [] 16) demo_table [] [].

Lemma kernel_perform_gives_back_witness :
  let s' := (perform demo_kernel_effect demo_kernels).2 in
  (∃ z l, VNum (NInt 3) = VNum (NInt z) ∧ mget z (t_leases (kn_table s')) = Some l ∧ l_released l = true) ∧
  view (Lease 3 24 6 true true) (kn_table s') = [x01; x02; x2a; x04; x05; x06].
Proof.
  intros s'. split; [|vm_compute; reflexivity].
  assert (perform demo_kernel_effect demo_kernels = (Ok tt, s')) as E by (vm_compute; reflexivity).
  apply (proj2 (kernel_perform_gives_back dw_live demo_kernel_effect demo_kernels (Ok tt) s' E) eq_refl).
  right. right. exists [Some demo_span], demo_span. split; [reflexivity|]. split; [left|reflexivity].
Defined.

Definition demo_prepared : span :=
  Span 16 (Lease 3 24 6 true false) 2 4 3 [FieldCopy 0 2 2; FieldCopy 2 0 1] true.

Lemma kernel_span_conversion_witness :
  let k' := (prepare_span demo_entry (Lease 1 0 16 false false) 64 (Param "write_span" "struct:P" None) (Some demo_span) 0 1 demo_run).2 in
  kernel_field demo_prepared (memory (kn_api k')) 1 (FieldCopy 0 2 2) = [x04; x05] ∧
  ∃ k2, copy_out demo_prepared (with_memory (replicate 128 x07) k') = (Ok tt, k2).
Proof.
  intros k'.
  destruct (kernel_span_conversion demo_entry (Lease 1 0 16 false false) 64 (Param "write_span" "struct:P" None) (Some demo_span)
    0 1 demo_run demo_prepared k' (replicate 128 x07)) as (H & _ & _ & k2 & E & _).
  - vm_compute. reflexivity.
  - split; [apply (bool_decide_unpack _); vm_compute; reflexivity|]. repeat (constructor; [reflexivity|reflexivity|vm_compute; discriminate|]). constructor.
  - intros n ly. simpl. case_decide; [|discriminate]. intros [= <-]. split; [simpl; lia|]. simpl.
    intros f [->|[->|[]%elem_of_nil]%elem_of_cons]%elem_of_cons; simpl; lia.
  - split; (constructor; [intros f [->|[]%elem_of_nil]%elem_of_cons; simpl; lia|]; constructor; [intros f []%elem_of_nil|constructor]).
  - lia.
  - right. simpl. lia.
  - vm_compute. discriminate.
  - split; [|exists k2; exact E]. rewrite (H 1 (FieldCopy 0 2 2)); [vm_compute; reflexivity|simpl; lia|left].
Defined.
