(* ===== verification/BrowserApp.v ===== *)
(** A packaged browser application: the page's entry, [src/runtime/wasm/browser-entry.mjs],
    and the Worker it starts, [src/runtime/luajit/browser-worker.mjs].

    The page starts the Worker once, answers the application's host requests with its own
    handlers and settles the promise of [run]; the Worker runs the application and forwards
    what only the page can do.  They share nothing but the messages they post, so each keeps
    the list of what it posted; what the other has taken of it is a count of the system.
    User code (handlers, a host module, [navigator.storage.persist], the application) runs
    between the operations below: what it does is an argument of the operation it calls or
    settles.  Promises are numbers, in the order they are made, and how they settle is
    recorded. *)

From S2P Require Import Prelude.

Section BrowserApp.
(** Values that cross, the result of an application and the caller's limits. *)
Context {V R O : Type}.

(** ** Messages *)

(** [hostDescription]'s result, posted with [run]. *)
Record description := Description {
  de_module : option string;
  de_kinds : list string;
  de_end : bool
}.

Inductive to_worker :=
| WRun (id : Z) (limits : O) (host : option description) (persistentStorageAvailable : bool)
| WPush (kind : string) (values : list V)
| WCancel (reason : string)
| WAnswer (requestId : Z) (answer : res (list V))
| WPersistent (requestId : Z) (granted : bool) (error : option string).

Inductive to_page :=
| PResult (id : Z) (result : res R)
| PPersistent (requestId : Z)
| PCall (requestId : Z) (kind : string) (args : list V)
| PCancel (requestId : Z)
| PRelease (kind : string) (results : list V)
| PEnd.

(** ** The page *)

(** A value of [host.handlers]: a function, an object with [call] and maybe [release], or
    anything else. *)
Inductive handler := HFunction | HObject (release : bool) | HOther.

Record page_host := PageHost {
  ph_handlers : jmap string handler;
  ph_module : option string;
  ph_end : bool
}.

Inductive host_option := HostUndefined | HostNotObject | HostObject (host : page_host).

(** What a page's handler returned. *)
Inductive handler_answer := AUndefined | AArray (values : list V) | AValue (value : V).

(** A handler's call under way, under its controller. *)
Record flight := Flight { fl_requestId : Z; fl_kind : string; fl_args : list V }.

(** Calls of the page's own code that return nothing the page uses. *)
Inductive page_call := CRelease (kind : string) (results : list V) | CEnd.

Record page := Page {
  pg_pending : list Z;
  pg_worker : bool;
  pg_terminated : bool;
  pg_nextId : Z;
  pg_launched : option Z;
  pg_host : option page_host;
  pg_hostCalls : jmap Z Z;
  pg_nextController : Z;
  pg_flights : jmap Z flight;
  pg_aborted : list Z;
  pg_persisting : list Z;
  pg_posted : list to_worker;
  pg_settled : list (Z * res R);
  pg_called : list page_call
}.

(** The module's variables as it loads. *)
Definition page_loaded : page := Page [] false false 1 None None [] 1 [] [] [] [] [] [].

(** Field updates. *)
Definition set_pending (pending : list Z) (settled : list (Z * res R)) (p : page) : page :=
  Page pending (pg_worker p) (pg_terminated p) (pg_nextId p) (pg_launched p) (pg_host p) (pg_hostCalls p) (pg_nextController p)
    (pg_flights p) (pg_aborted p) (pg_persisting p) (pg_posted p) settled (pg_called p).
Definition set_worker (worker terminated : bool) (p : page) : page :=
  Page (pg_pending p) worker terminated (pg_nextId p) (pg_launched p) (pg_host p) (pg_hostCalls p) (pg_nextController p)
    (pg_flights p) (pg_aborted p) (pg_persisting p) (pg_posted p) (pg_settled p) (pg_called p).
Definition set_launched (nextId : Z) (launched : option Z) (p : page) : page :=
  Page (pg_pending p) (pg_worker p) (pg_terminated p) nextId launched (pg_host p) (pg_hostCalls p) (pg_nextController p)
    (pg_flights p) (pg_aborted p) (pg_persisting p) (pg_posted p) (pg_settled p) (pg_called p).
Definition set_host (host : option page_host) (p : page) : page :=
  Page (pg_pending p) (pg_worker p) (pg_terminated p) (pg_nextId p) (pg_launched p) host (pg_hostCalls p) (pg_nextController p)
    (pg_flights p) (pg_aborted p) (pg_persisting p) (pg_posted p) (pg_settled p) (pg_called p).
Definition set_calls (calls : jmap Z Z) (next : Z) (flights : jmap Z flight) (p : page) : page :=
  Page (pg_pending p) (pg_worker p) (pg_terminated p) (pg_nextId p) (pg_launched p) (pg_host p) calls next
    flights (pg_aborted p) (pg_persisting p) (pg_posted p) (pg_settled p) (pg_called p).
Definition set_aborted (aborted : list Z) (p : page) : page :=
  Page (pg_pending p) (pg_worker p) (pg_terminated p) (pg_nextId p) (pg_launched p) (pg_host p) (pg_hostCalls p) (pg_nextController p)
    (pg_flights p) aborted (pg_persisting p) (pg_posted p) (pg_settled p) (pg_called p).
Definition set_persisting (persisting : list Z) (p : page) : page :=
  Page (pg_pending p) (pg_worker p) (pg_terminated p) (pg_nextId p) (pg_launched p) (pg_host p) (pg_hostCalls p) (pg_nextController p)
    (pg_flights p) (pg_aborted p) persisting (pg_posted p) (pg_settled p) (pg_called p).
Definition set_posted (posted : list to_worker) (p : page) : page :=
  Page (pg_pending p) (pg_worker p) (pg_terminated p) (pg_nextId p) (pg_launched p) (pg_host p) (pg_hostCalls p) (pg_nextController p)
    (pg_flights p) (pg_aborted p) (pg_persisting p) posted (pg_settled p) (pg_called p).
Definition set_called (called : list page_call) (p : page) : page :=
  Page (pg_pending p) (pg_worker p) (pg_terminated p) (pg_nextId p) (pg_launched p) (pg_host p) (pg_hostCalls p) (pg_nextController p)
    (pg_flights p) (pg_aborted p) (pg_persisting p) (pg_posted p) (pg_settled p) called.

(** [worker?.postMessage(message)]: a terminated Worker takes nothing. *)
Definition page_post (m : to_worker) : js page () :=
  modify (λ p, if pg_worker p && negb (pg_terminated p) then set_posted (pg_posted p ++ [m]) p else p).

(** [hostHandler(kind)]: a function is an object with [call]. *)
Definition hostHandler (kind : string) (p : page) : option handler :=
  host ← pg_host p; mget kind (ph_handlers host).

Definition hostResults (answer : handler_answer) : list V :=
  match answer with AUndefined => [] | AArray values => values | AValue value => [value] end.

(** [persistentStorage(event)] asks the browser; its answer comes to [persist_settled]. *)
Definition persistentStorage (requestId : Z) : js page () := modify (λ p, set_persisting (pg_persisting p ++ [requestId]) p).

Definition persist_settled (requestId : Z) (answer : res bool) : js page () :=
  persisting ← gets pg_persisting;
  when (bool_decide (requestId ∈ persisting))
    (modify (set_persisting (remove_one requestId persisting));;
     match answer with
     | Ok granted => page_post (WPersistent requestId granted None)
     | Throw e => page_post (WPersistent requestId false (Some e))
     end).

(** The promise chain of a call: the handler runs in a microtask; a kind without one rejects. *)
Definition call_settled (controller : Z) (answer : res handler_answer) : js page () :=
  flights ← gets pg_flights;
  match mget controller flights with
  | None => mret tt
  | Some fl =>
      page_post (WAnswer (fl_requestId fl) (match answer with Ok a => Ok (hostResults a) | Throw e => Throw e end));;
      modify (λ p, set_calls (mdelete (fl_requestId fl) (pg_hostCalls p)) (pg_nextController p) (mdelete controller (pg_flights p)) p)
  end.

Definition host_call (requestId : Z) (kind : string) (args : list V) : js page () :=
  controller ← gets pg_nextController;
  modify (λ p, set_calls (mset requestId controller (pg_hostCalls p)) (controller + 1)
    (mset controller (Flight requestId kind args) (pg_flights p)) p);;
  h ← gets (hostHandler kind);
  match h with
  | None => call_settled controller (Throw "Cannot read properties of undefined (reading 'call')")
  | Some _ => mret tt
  end.

Definition host_cancel (requestId : Z) : js page () :=
  calls ← gets pg_hostCalls;
  match mget requestId calls with
  | Some controller => modify (λ p, set_aborted (if bool_decide (controller ∈ pg_aborted p) then pg_aborted p else pg_aborted p ++ [controller]) p)
  | None => mret tt
  end.

(** What [release] and [end] of the page throw is caught. *)
Definition hostMessage (m : to_page) : js page () :=
  match m with
  | PCall requestId kind args => host_call requestId kind args
  | PCancel requestId => host_cancel requestId
  | PRelease kind results =>
      h ← gets (hostHandler kind);
      match h with
      | Some (HObject true) => modify (λ p, set_called (pg_called p ++ [CRelease kind results]) p)
      | _ => mret tt
      end
  | PEnd =>
      host ← gets pg_host;
      when (default false (ph_end <$> host)) (modify (λ p, set_called (pg_called p ++ [CEnd]) p))
  | _ => mret tt
  end.

(** The Worker's [message] listener. *)
Definition page_message (m : to_page) : js page () :=
  match m with
  | PPersistent requestId => persistentStorage requestId
  | PResult id result =>
      pending ← gets pg_pending;
      when (bool_decide (id ∈ pending))
        (modify (λ p, set_pending (list_difference (pg_pending p) [id])
           (pg_settled p ++ [(id, match result with
                                  | Ok r => Ok r
                                  | Throw e => Throw (if String.eqb e "" then "Nupp browser worker failed" else e)
                                  end)]) p))
  | _ => hostMessage m
  end.

(** The Worker's [error] listener and [close()]: every pending promise rejects. *)
Definition reject_pending (e : string) : js page () :=
  modify (λ p, set_pending [] (pg_settled p ++ ((λ id, (id, Throw e)) <$> pg_pending p)) p).

Definition worker_error (e : string) : js page () := reject_pending e.

Definition close : js page () :=
  reject_pending "the Nupp browser Worker was closed";;
  modify (λ p, set_worker (pg_worker p) (pg_worker p) p).

(** The first handler that cannot be called. *)
Fixpoint first_invalid (handlers : jmap string handler) : option string :=
  match handlers with
  | [] => None
  | (kind, HOther) :: _ => Some kind
  | _ :: handlers' => first_invalid handlers'
  end.

(** [hostDescription(host)]; [new URL(module, location)] may throw, after [pageHost] is set. *)
Definition hostDescription (url : string → res string) (host : host_option) : js page (option description) :=
  match host with
  | HostUndefined => mret None
  | HostNotObject => throw "the host option must be an object"
  | HostObject h =>
      match first_invalid (ph_handlers h) with
      | Some kind => throw ("host handler " +:+ kind +:+ " must be a function or an object with call")
      | None => mret tt
      end;;
      modify (set_host (Some h));;
      match ph_module h with
      | None => mret (Some (Description None (ph_handlers h).*1 (ph_end h)))
      | Some m => href ← lift (url m); mret (Some (Description (Some href) (ph_handlers h).*1 (ph_end h)))
      end
  end.

(** [openWorker()]. *)
Definition openWorker : js page () := modify (set_worker true false).

(** [run(options)]: the promise it returns, or what it rejects with. *)
Definition run (url : string → res string) (host : host_option) (limits : O) (persistent : bool) : js page Z :=
  launched ← gets pg_launched;
  guard_js (bool_decide (launched ≠ None)) "this browser application already started";;
  d ← hostDescription url host;
  openWorker;;
  id ← gets pg_nextId;
  modify (λ p, set_launched (id + 1) (pg_launched p) p);;
  modify (λ p, set_pending (pg_pending p ++ [id]) (pg_settled p) p);;
  page_post (WRun id limits d persistent);;
  modify (λ p, set_launched (pg_nextId p) (Some id) p);;
  mret id.

Definition push (kind : string) (values : list V) : js page () := page_post (WPush kind values).
Definition cancel (reason : string) : js page () := page_post (WCancel reason).

(** ** The Worker *)

(** A host module: the kinds it answers, and what its [start] and [end] do when it has them. *)
Record host_module := HostModule {
  hm_handlers : list string;
  hm_start : option (res ());
  hm_end : option (res ())
}.

(** What [hostOption] made of a description: who answers each kind, and the module's ends. *)
Inductive answerer := ByModule | ByPage.
Record worker_host := WorkerHost {
  wh_handlers : jmap string answerer;
  wh_module : option host_module;
  wh_end : bool
}.

Inductive worker_phase := PhaseIdle | PhaseLoading (host : option description) | PhaseRunning (host : option worker_host).

Record bworker := BWorker {
  bw_active : option (Z * Z);
  bw_phase : worker_phase;
  bw_nextController : Z;
  bw_aborted : list (Z * string);
  bw_nextPersistence : Z;
  bw_persistence : list Z;
  bw_persisted : list (Z * res bool);
  bw_nextHostCall : Z;
  bw_hostCalls : list Z;
  bw_signals : list Z;
  bw_answered : list (Z * res (list V));
  bw_hostPush : bool;
  bw_earlyPushes : list (string * list V);
  bw_pushed : list (string * list V);
  bw_posted : list to_page
}.

Definition worker_loaded : bworker := BWorker None PhaseIdle 1 [] 1 [] [] 1 [] [] [] false [] [] [].

(** Field updates. *)
Definition set_active (active : option (Z * Z)) (phase : worker_phase) (next : Z) (w : bworker) : bworker :=
  BWorker active phase next (bw_aborted w) (bw_nextPersistence w) (bw_persistence w) (bw_persisted w) (bw_nextHostCall w)
    (bw_hostCalls w) (bw_signals w) (bw_answered w) (bw_hostPush w) (bw_earlyPushes w) (bw_pushed w) (bw_posted w).
Definition set_worker_aborted (aborted : list (Z * string)) (w : bworker) : bworker :=
  BWorker (bw_active w) (bw_phase w) (bw_nextController w) aborted (bw_nextPersistence w) (bw_persistence w) (bw_persisted w)
    (bw_nextHostCall w) (bw_hostCalls w) (bw_signals w) (bw_answered w) (bw_hostPush w) (bw_earlyPushes w) (bw_pushed w) (bw_posted w).
Definition set_persistence (next : Z) (requests : list Z) (settled : list (Z * res bool)) (w : bworker) : bworker :=
  BWorker (bw_active w) (bw_phase w) (bw_nextController w) (bw_aborted w) next requests settled (bw_nextHostCall w)
    (bw_hostCalls w) (bw_signals w) (bw_answered w) (bw_hostPush w) (bw_earlyPushes w) (bw_pushed w) (bw_posted w).
Definition set_hostCalls (next : Z) (calls signals : list Z) (answered : list (Z * res (list V))) (w : bworker) : bworker :=
  BWorker (bw_active w) (bw_phase w) (bw_nextController w) (bw_aborted w) (bw_nextPersistence w) (bw_persistence w) (bw_persisted w)
    next calls signals answered (bw_hostPush w) (bw_earlyPushes w) (bw_pushed w) (bw_posted w).
Definition set_pushes (open : bool) (early pushed : list (string * list V)) (w : bworker) : bworker :=
  BWorker (bw_active w) (bw_phase w) (bw_nextController w) (bw_aborted w) (bw_nextPersistence w) (bw_persistence w) (bw_persisted w)
    (bw_nextHostCall w) (bw_hostCalls w) (bw_signals w) (bw_answered w) open early pushed (bw_posted w).
Definition set_worker_posted (posted : list to_page) (w : bworker) : bworker :=
  BWorker (bw_active w) (bw_phase w) (bw_nextController w) (bw_aborted w) (bw_nextPersistence w) (bw_persistence w) (bw_persisted w)
    (bw_nextHostCall w) (bw_hostCalls w) (bw_signals w) (bw_answered w) (bw_hostPush w) (bw_earlyPushes w) (bw_pushed w) posted.

Definition self_post (m : to_page) : js bworker () := modify (λ w, set_worker_posted (bw_posted w ++ [m]) w).

(** [pageHandler(kind).call(args, {signal})]: the number of its promise is its request's. *)
Definition page_handler_call (kind : string) (args : list V) (signal : bool) : js bworker Z :=
  requestId ← gets bw_nextHostCall;
  modify (λ w, set_hostCalls (requestId + 1) (bw_hostCalls w ++ [requestId])
    (if signal then bw_signals w ++ [requestId] else bw_signals w) (bw_answered w) w);;
  self_post (PCall requestId kind args);;
  mret requestId.

(** The signal of a call aborts: its listener runs once. *)
Definition call_aborted (requestId : Z) : js bworker () :=
  signals ← gets bw_signals;
  when (bool_decide (requestId ∈ signals))
    (modify (λ w, set_hostCalls (bw_nextHostCall w) (bw_hostCalls w) (list_difference (bw_signals w) [requestId]) (bw_answered w) w);;
     self_post (PCancel requestId)).

Definition page_handler_release (kind : string) (results : list V) : js bworker () := self_post (PRelease kind results).

(** [hostOption(description)], with the module that [import] loaded. *)
Fixpoint page_handlers (kinds : list string) (handlers : jmap string answerer) : res (jmap string answerer) :=
  match kinds with
  | [] => Ok handlers
  | kind :: kinds' =>
      if mhas kind handlers then Throw ("host kind " +:+ kind +:+ " is answered by both the page and its module")
      else page_handlers kinds' (mset kind ByPage handlers)
  end.

Definition hostOption (import : string → res host_module) (d : option description) : res (option worker_host) :=
  match d with
  | None => Ok None
  | Some d =>
      loaded ← match de_module d with None => Ok None | Some m => h ← import m; Ok (Some h) end;
      let own := match loaded with Some h => foldl (λ m k, mset k ByModule m) [] (hm_handlers h) | None => [] end in
      handlers ← page_handlers (de_kinds d) own;
      Ok (Some (WorkerHost handlers loaded (de_end d)))
  end.

Section Pushes.
(** [api.push] of the application's channel, given what it has taken. *)
Context (push_result : list (string * list V) → string * list V → res ()).

(** [hostPush(kind, ...values)]. *)
Definition host_push (m : string * list V) : js bworker () :=
  pushed ← gets bw_pushed;
  lift (push_result pushed m);;
  modify (λ w, set_pushes (bw_hostPush w) (bw_earlyPushes w) (bw_pushed w ++ [m]) w).

(** [start(api)] of the option: pushes that waited, then the module's own start. *)
Definition host_start (h : worker_host) : js bworker () :=
  early ← gets bw_earlyPushes;
  modify (λ w, set_pushes true [] (bw_pushed w) w);;
  for_each early host_push;;
  lift (default (Ok tt) (m ← wh_module h; hm_start m)).

(** The [host-push] message: a push that throws is logged. *)
Definition MAX_EARLY : Z := 4096.
Definition host_push_message (m : string * list V) : js bworker () :=
  try_catch
    (open ← gets bw_hostPush;
     early ← gets bw_earlyPushes;
     if (open : bool) then host_push m
     else when (zlen early <? MAX_EARLY) (modify (λ w, set_pushes false (early ++ [m]) (bw_pushed w) w)))
    (λ _, mret tt).
End Pushes.

(** [end()] of the option. *)
Definition host_end (h : worker_host) : js bworker () :=
  modify (λ w, set_pushes false (bw_earlyPushes w) (bw_pushed w) w);;
  try_finally (lift (default (Ok tt) (m ← wh_module h; hm_end m))) (when (wh_end h) (self_post PEnd)).

(** [requestPersistentStorage()]. *)
Definition requestPersistentStorage : js bworker Z :=
  requestId ← gets bw_nextPersistence;
  self_post (PPersistent requestId);;
  modify (λ w, set_persistence (requestId + 1) (bw_persistence w ++ [requestId]) (bw_persisted w) w);;
  mret requestId.

Definition persistent_response (requestId : Z) (granted : bool) (error : option string) : js bworker () :=
  requests ← gets bw_persistence;
  when (bool_decide (requestId ∈ requests))
    (modify (λ w, set_persistence (bw_nextPersistence w) (list_difference (bw_persistence w) [requestId])
       (bw_persisted w ++ [(requestId, match error with
                                       | Some e => if String.eqb e "" then Ok granted else Throw e
                                       | None => Ok granted
                                       end)]) w)).

Definition host_answer (requestId : Z) (answer : res (list V)) : js bworker () :=
  calls ← gets bw_hostCalls;
  when (bool_decide (requestId ∈ calls))
    (modify (λ w, set_hostCalls (bw_nextHostCall w) (list_difference (bw_hostCalls w) [requestId]) (bw_signals w)
       (bw_answered w ++ [(requestId, answer)]) w)).

(** [active?.abort(error)]: a controller aborts once. *)
Definition cancel_message (reason : string) : js bworker () :=
  active ← gets bw_active;
  match active with
  | None => mret tt
  | Some (_, controller) =>
      modify (λ w, set_worker_aborted
        (if mhas controller (bw_aborted w) then bw_aborted w
         else bw_aborted w ++ [(controller, if String.eqb reason "" then "the browser application was cancelled" else reason)]) w)
  end.

(** [run] up to its first [await]; [run_loaded] and [run_finished] are what follows. *)
Definition run_message (id : Z) (host : option description) : js bworker () :=
  active ← gets bw_active;
  match active with
  | Some _ => self_post (PResult id (Throw "a Nupp browser application is already running"))
  | None => modify (λ w, set_active (Some (id, bw_nextController w)) (PhaseLoading host) (bw_nextController w + 1) w)
  end.

Definition run_finished (result : res R) : js bworker () :=
  active ← gets bw_active;
  match active with
  | None => mret tt
  | Some (id, _) => self_post (PResult id result);; modify (λ w, set_active None PhaseIdle (bw_nextController w) w)
  end.

Definition run_loaded (import : string → res host_module) : js bworker () :=
  phase ← gets bw_phase;
  match phase with
  | PhaseLoading d =>
      match hostOption import d with
      | Ok h => modify (λ w, set_active (bw_active w) (PhaseRunning h) (bw_nextController w) w)
      | Throw e => run_finished (Throw e)
      end
  | _ => mret tt
  end.

(** The [message] listener. *)
Definition worker_message (push_result : list (string * list V) → string * list V → res ()) (m : to_worker) : js bworker () :=
  match m with
  | WPersistent requestId granted error => persistent_response requestId granted error
  | WPush kind values => host_push_message push_result (kind, values)
  | WAnswer requestId answer => host_answer requestId answer
  | WCancel reason => cancel_message reason
  | WRun id _ host _ => run_message id host
  end.

(** ** Page and Worker together *)

Record system := System {
  sy_page : page;
  sy_worker : bworker;
  sy_pageTook : nat;
  sy_workerTook : nat
}.

Definition system_loaded : system := System page_loaded worker_loaded 0 0.

(** A turn of the page's or of the Worker's event loop. *)
Inductive app_event :=
| ERun (url : string → res string) (host : host_option) (limits : O) (persistent : bool)
| EPush (kind : string) (values : list V)
| ECancel (reason : string)
| EClose
| EPageTakes
| EHandlerSettles (controller : Z) (answer : res handler_answer)
| EPersistSettles (requestId : Z) (answer : res bool)
| EWorkerError (e : string)
| EWorkerTakes
| ECall (kind : string) (args : list V) (signal : bool)
| ECallAborted (requestId : Z)
| ERelease (kind : string) (results : list V)
| ERequestPersistent
| ELoaded (import : string → res host_module)
| EStart
| EEnd
| EFinished (result : res R).

(** The Worker lives from [openWorker] until it is terminated. *)
Definition alive (s : system) : bool := pg_worker (sy_page s) && negb (pg_terminated (sy_page s)).

Definition on_page {A} (m : js page A) (s : system) : system :=
  System (m (sy_page s)).2 (sy_worker s) (sy_pageTook s) (sy_workerTook s).
Definition on_worker {A} (m : js bworker A) (s : system) : system :=
  if alive s then System (sy_page s) (m (sy_worker s)).2 (sy_pageTook s) (sy_workerTook s) else s.

(** The host option of a running application, and whether the page answers a kind. *)
Definition running_host (w : bworker) : option worker_host :=
  match bw_phase w with PhaseRunning h => h | _ => None end.
Definition page_answers (kind : string) (w : bworker) : bool :=
  match running_host w with
  | Some h => match mget kind (wh_handlers h) with Some ByPage => true | _ => false end
  | None => false
  end.

Section Events.
Context (push_result : list (string * list V) → string * list V → res ()).

Definition run_event (ev : app_event) (s : system) : system :=
  match ev with
  | ERun url host limits persistent => on_page (run url host limits persistent) s
  | EPush kind values => on_page (push kind values) s
  | ECancel reason => on_page (cancel reason) s
  | EClose => on_page close s
  | EPageTakes =>
      match bw_posted (sy_worker s) !! sy_pageTook s with
      | Some m => on_page (page_message m) (System (sy_page s) (sy_worker s) (S (sy_pageTook s)) (sy_workerTook s))
      | None => s
      end
  | EHandlerSettles controller answer => on_page (call_settled controller answer) s
  | EPersistSettles requestId answer => on_page (persist_settled requestId answer) s
  | EWorkerError e => on_page (worker_error e) s
  | EWorkerTakes =>
      match pg_posted (sy_page s) !! sy_workerTook s with
      | Some m =>
          if alive s
          then on_worker (worker_message push_result m) (System (sy_page s) (sy_worker s) (sy_pageTook s) (S (sy_workerTook s)))
          else s
      | None => s
      end
  | ECall kind args signal => if page_answers kind (sy_worker s) then on_worker (page_handler_call kind args signal) s else s
  | ECallAborted requestId => on_worker (call_aborted requestId) s
  | ERelease kind results => if page_answers kind (sy_worker s) then on_worker (page_handler_release kind results) s else s
  | ERequestPersistent => on_worker requestPersistentStorage s
  | ELoaded import => on_worker (run_loaded import) s
  | EStart => match running_host (sy_worker s) with Some h => on_worker (host_start push_result h) s | None => s end
  | EEnd => match running_host (sy_worker s) with Some h => on_worker (host_end h) s | None => s end
  | EFinished result =>
      match bw_phase (sy_worker s) with PhaseRunning _ => on_worker (run_finished result) s | _ => s end
  end.

Definition run_events (evs : list app_event) (s : system) : system := foldl (λ s ev, run_event ev s) s evs.
End Events.
End BrowserApp.
