(* ===== verification/BrowserAppSpec.v ===== *)
(** What page and Worker of a packaged application guarantee together: the application's
    requests to the page are remote calls, each handled once and returned once with its
    handler's answer; pushes arrive in order; the application runs once. *)

From S2P Require Import Prelude BrowserApp.

Section Spec.
Context {V R O : Type} (push_result : list (string * list V) → string * list V → res ()).
Abbreviation system := (@system V R O).
Abbreviation page := (@page V R O).
Abbreviation bworker := (@bworker V R).
Abbreviation app_event := (@app_event V R O).
Abbreviation run_event := (@run_event V R O push_result).

(** ** Remote calls *)

(** The contract of a host kind the page answers: a call waits, is handled by one answer, and
    returns that answer. *)
Inductive call_status := Waiting | Handled (answer : res (list V)) | Returned (answer : res (list V)).
Record call := Call { ca_kind : string; ca_args : list V; ca_status : call_status }.

Inductive rpc_label :=
| LCall (kind : string) (args : list V)
| LHandle (requestId : Z) (answer : res (list V))
| LReturn (requestId : Z) (answer : res (list V)).

Inductive rpc_step : rpc_label → jmap Z call → jmap Z call → Prop :=
| rpc_call kind args c : rpc_step (LCall kind args) c (c ++ [(zlen c + 1, Call kind args Waiting)])
| rpc_handle n answer kind args c :
    mget n c = Some (Call kind args Waiting) → rpc_step (LHandle n answer) c (mset n (Call kind args (Handled answer)) c)
| rpc_return n answer kind args c :
    mget n c = Some (Call kind args (Handled answer)) → rpc_step (LReturn n answer) c (mset n (Call kind args (Returned answer)) c).

(** ** The calls of a system *)

Definition call_of (m : to_page (V:=V) (R:=R)) : option (Z * (string * list V)) :=
  match m with PCall n kind args => Some (n, (kind, args)) | _ => None end.
Definition answer_of (m : to_worker (V:=V) (O:=O)) : option (Z * res (list V)) :=
  match m with WAnswer n a => Some (n, a) | _ => None end.

Definition calls (posted : list (to_page (V:=V) (R:=R))) : jmap Z (string * list V) := omap call_of posted.
Definition answers (posted : list (to_worker (V:=V) (O:=O))) : jmap Z (res (list V)) := omap answer_of posted.

Definition status (s : system) (n : Z) : call_status :=
  match mget n (bw_answered (sy_worker s)) with
  | Some a => Returned a
  | None => match mget n (answers (pg_posted (sy_page s))) with Some a => Handled a | None => Waiting end
  end.

(** The remote calls a system stands for. *)
Definition remote_calls (s : system) : jmap Z call :=
  (λ c, (c.1, Call c.2.1 c.2.2 (status s c.1))) <$> calls (bw_posted (sy_worker s)).

(** What a turn does to the calls. *)
Definition outcome (answer : res (handler_answer (V:=V))) : res (list V) :=
  match answer with Ok a => Ok (hostResults a) | Throw e => Throw e end.
Definition event_label (ev : app_event) (s : system) : option rpc_label :=
  match ev with
  | ECall kind args _ => if page_answers kind (sy_worker s) && alive s then Some (LCall kind args) else None
  | EHandlerSettles controller answer =>
      fl ← mget controller (pg_flights (sy_page s));
      if alive s then Some (LHandle (fl_requestId fl) (outcome answer)) else None
  | EPageTakes =>
      match bw_posted (sy_worker s) !! sy_pageTook s with
      | Some (PCall n kind args) =>
          match hostHandler kind (sy_page s) with
          | None => if alive s then Some (LHandle n (Throw "Cannot read properties of undefined (reading 'call')")) else None
          | Some _ => None
          end
      | _ => None
      end
  | EWorkerTakes =>
      match pg_posted (sy_page s) !! sy_workerTook s with
      | Some (WAnswer n a) => if alive s then Some (LReturn n a) else None
      | _ => None
      end
  | _ => None
  end.

(** ** The invariant of the calls *)

Definition taken_calls (s : system) : jmap Z (string * list V) := calls (take (sy_pageTook s) (bw_posted (sy_worker s))).
Definition taken_answers (s : system) : jmap Z (res (list V)) := answers (take (sy_workerTook s) (pg_posted (sy_page s))).
Definition flight_ids (p : page) : list Z := (λ c, fl_requestId c.2) <$> pg_flights p.

Record rpc_inv (s : system) : Prop := RpcInv {
  ri_pageTook : (sy_pageTook s <= length (bw_posted (sy_worker s)))%nat;
  ri_workerTook : (sy_workerTook s <= length (pg_posted (sy_page s)))%nat;
  ri_next : 1 <= bw_nextHostCall (sy_worker s);
  ri_calls : (calls (bw_posted (sy_worker s))).*1 = seqZ 1 (bw_nextHostCall (sy_worker s) - 1);
  ri_unique : NoDup ((answers (pg_posted (sy_page s))).*1 ++ flight_ids (sy_page s));
  ri_known : ∀ n, n ∈ (answers (pg_posted (sy_page s))).*1 ++ flight_ids (sy_page s) → n ∈ (taken_calls s).*1;
  ri_keys : NoDup (pg_flights (sy_page s)).*1;
  ri_controllers : ∀ c, c ∈ (pg_flights (sy_page s)).*1 → c < pg_nextController (sy_page s);
  ri_flights : ∀ c fl, (c, fl) ∈ pg_flights (sy_page s) → (fl_requestId fl, (fl_kind fl, fl_args fl)) ∈ taken_calls s;
  ri_answered : bw_answered (sy_worker s) = taken_answers s;
  ri_waiting : ∀ n, n ∈ bw_hostCalls (sy_worker s) ↔
                 n ∈ (calls (bw_posted (sy_worker s))).*1 ∧ n ∉ (bw_answered (sy_worker s)).*1
}.

Lemma calls_app xs ys : calls (xs ++ ys) = calls xs ++ calls ys.
Proof. apply omap_app. Qed.
Lemma answers_app xs ys : answers (xs ++ ys) = answers xs ++ answers ys.
Proof. apply omap_app. Qed.

(** Turns that leave the calls alone. *)
Record page_quiet (p p' : page) : Prop := PageQuiet {
  pq_posted : ∃ xs, pg_posted p' = pg_posted p ++ xs ∧ answers xs = [];
  pq_flights : pg_flights p' = pg_flights p;
  pq_controller : pg_nextController p' = pg_nextController p
}.

Record worker_quiet (w w' : bworker) : Prop := WorkerQuiet {
  wq_posted : ∃ xs, bw_posted w' = bw_posted w ++ xs ∧ calls xs = [];
  wq_answered : bw_answered w' = bw_answered w;
  wq_hostCalls : bw_hostCalls w' = bw_hostCalls w;
  wq_next : bw_nextHostCall w' = bw_nextHostCall w
}.

Lemma page_quiet_refl p : page_quiet p p.
Proof. split; [|done|done]. exists []. by rewrite app_nil_r. Qed.

Lemma page_quiet_trans p q r : page_quiet p q → page_quiet q r → page_quiet p r.
Proof.
  intros [(xs & E1 & H1) ? ?] [(ys & E2 & H2) ? ?]. split; [|congruence..].
  exists (xs ++ ys). by rewrite E2, E1, answers_app, H1, H2, app_assoc.
Qed.

Lemma worker_quiet_refl w : worker_quiet w w.
Proof. split; [|done..]. exists []. by rewrite app_nil_r. Qed.

Lemma worker_quiet_trans p q r : worker_quiet p q → worker_quiet q r → worker_quiet p r.
Proof.
  intros [(xs & E1 & H1) ? ?] [(ys & E2 & H2) ? ?]. split; [|congruence..].
  exists (xs ++ ys). by rewrite E2, E1, calls_app, H1, H2, app_assoc.
Qed.

(** A computation that leaves the calls alone from every state. *)
Definition quiet_page {A} (m : js page A) : Prop := ∀ p, page_quiet p (m p).2.
Definition quiet_worker {A} (m : js bworker A) : Prop := ∀ w, worker_quiet w (m w).2.

Lemma quiet_page_preserves {A} (m : js page A) : (∀ p0, preserves (page_quiet p0) m) → quiet_page m.
Proof. intros H p. apply H, page_quiet_refl. Qed.
Lemma quiet_worker_preserves {A} (m : js bworker A) : (∀ w0, preserves (worker_quiet w0) m) → quiet_worker m.
Proof. intros H w. apply H, worker_quiet_refl. Qed.

Lemma page_quiet_modify p0 f : (∀ p, page_quiet p (f p)) → preserves (page_quiet p0) (modify f).
Proof. intros H p Hp. eapply page_quiet_trans; [exact Hp|apply H]. Qed.
Lemma worker_quiet_modify w0 f : (∀ w, worker_quiet w (f w)) → preserves (worker_quiet w0) (modify f).
Proof. intros H w Hw. eapply worker_quiet_trans; [exact Hw|apply H]. Qed.

Lemma page_quiet_same p p' :
  pg_posted p' = pg_posted p → pg_flights p' = pg_flights p → pg_nextController p' = pg_nextController p → page_quiet p p'.
Proof. intros E ? ?. split; [|done..]. exists []. by rewrite app_nil_r. Qed.
Lemma worker_quiet_same w w' :
  bw_posted w' = bw_posted w → bw_answered w' = bw_answered w → bw_hostCalls w' = bw_hostCalls w →
  bw_nextHostCall w' = bw_nextHostCall w → worker_quiet w w'.
Proof. intros E ? ? ?. split; [|done..]. exists []. by rewrite app_nil_r. Qed.

Lemma page_quiet_post p0 m : answer_of m = None → preserves (page_quiet p0) (page_post m).
Proof.
  intros Hm. apply page_quiet_modify. intros p. destruct (_ && _); [|apply page_quiet_refl].
  split; [|done..]. exists [m]. split; [done|]. unfold answers. simpl. by rewrite Hm.
Qed.
Lemma worker_quiet_post w0 m : call_of m = None → preserves (worker_quiet w0) (self_post m).
Proof.
  intros Hm. apply worker_quiet_modify. intros w. split; [|done..]. exists [m]. split; [done|]. unfold calls. simpl. by rewrite Hm.
Qed.

Ltac quiet :=
  preserve;
  try first [ apply page_quiet_post; done | apply worker_quiet_post; done
            | apply page_quiet_modify; intros; by apply page_quiet_same
            | apply worker_quiet_modify; intros; by apply worker_quiet_same ].

Lemma quiet_run url host limits persistent : quiet_page (run url host limits persistent).
Proof. apply quiet_page_preserves. intros p0. unfold run, hostDescription, openWorker. quiet. Qed.

Lemma quiet_close : quiet_page (close (V:=V) (R:=R) (O:=O)).
Proof. apply quiet_page_preserves. intros p0. unfold close, reject_pending. quiet. Qed.

Lemma quiet_persist_settled n a : quiet_page (persist_settled (V:=V) (R:=R) (O:=O) n a).
Proof. apply quiet_page_preserves. intros p0. unfold persist_settled. quiet. Qed.

Lemma quiet_page_message m : call_of m = None → quiet_page (page_message (O:=O) m).
Proof.
  intros Hm. apply quiet_page_preserves. intros p0.
  destruct m; simpl; try done; unfold persistentStorage, host_cancel; quiet.
Qed.

Lemma quiet_host_start h : quiet_worker (host_start (R:=R) push_result h).
Proof.
  apply quiet_worker_preserves. intros w0. unfold host_start. quiet.
Qed.

Lemma quiet_host_end h : quiet_worker (host_end (V:=V) (R:=R) h).
Proof. apply quiet_worker_preserves. intros w0. unfold host_end. quiet. Qed.

Lemma quiet_call_aborted n : quiet_worker (call_aborted (V:=V) (R:=R) n).
Proof. apply quiet_worker_preserves. intros w0. unfold call_aborted. quiet. Qed.

Lemma quiet_requestPersistent : quiet_worker (requestPersistentStorage (V:=V) (R:=R)).
Proof. apply quiet_worker_preserves. intros w0. unfold requestPersistentStorage. quiet. Qed.

Lemma quiet_run_finished r : quiet_worker (run_finished (V:=V) (R:=R) r).
Proof. apply quiet_worker_preserves. intros w0. unfold run_finished. quiet. Qed.

Lemma quiet_run_loaded import : quiet_worker (run_loaded (V:=V) (R:=R) import).
Proof.
  apply quiet_worker_preserves. intros w0. unfold run_loaded. quiet.
Qed.

Lemma quiet_worker_message m : answer_of m = None → quiet_worker (worker_message (R:=R) push_result m).
Proof.
  intros Hm. apply quiet_worker_preserves. intros w0. destruct m; simpl; try done.
  - unfold run_message. quiet.
  - unfold host_push_message. quiet.
  - unfold cancel_message. quiet.
  - unfold persistent_response. quiet.
Qed.

(** ** Quiet turns *)

Lemma take_app_short {A} n (l k : list A) : (n <= length l)%nat → take n (l ++ k) = take n l.
Proof. intros. by rewrite take_app_le. Qed.

Lemma quiet_turn s s' :
  rpc_inv s → page_quiet (sy_page s) (sy_page s') → worker_quiet (sy_worker s) (sy_worker s') →
  sy_pageTook s' = sy_pageTook s → sy_workerTook s' = sy_workerTook s →
  rpc_inv s' ∧ remote_calls s' = remote_calls s.
Proof.
  intros [P W N C U K Y L F A H] [(xs & Ep & Hx) Ef Ec] [(ys & Ew & Hy) Ea Eh En] Et Eu.
  assert (answers (pg_posted (sy_page s')) = answers (pg_posted (sy_page s))) as HA by (by rewrite Ep, answers_app, Hx, app_nil_r).
  assert (calls (bw_posted (sy_worker s')) = calls (bw_posted (sy_worker s))) as HC by (by rewrite Ew, calls_app, Hy, app_nil_r).
  assert (taken_calls s' = taken_calls s) as HT by (unfold taken_calls; by rewrite Et, Ew, take_app_short).
  assert (taken_answers s' = taken_answers s) as HS by (unfold taken_answers; by rewrite Eu, Ep, take_app_short).
  split.
  - split; unfold flight_ids in *; rewrite ?HA, ?HC, ?HT, ?HS, ?Et, ?Eu, ?Ef, ?Ec, ?Ea, ?Eh, ?En; try done.
    + rewrite Ew, length_app. lia.
    + rewrite Ep, length_app. lia.
  - unfold remote_calls, status. by rewrite HC, Ea, HA.
Qed.

(** Taking a message that says nothing of the calls. *)
Lemma took_call_none s m :
  rpc_inv s → bw_posted (sy_worker s) !! sy_pageTook s = Some m → call_of m = None →
  rpc_inv (System (sy_page s) (sy_worker s) (S (sy_pageTook s)) (sy_workerTook s)).
Proof.
  intros [P W N C U K Y L F A H] Hm Hc.
  assert (taken_calls (System (sy_page s) (sy_worker s) (S (sy_pageTook s)) (sy_workerTook s)) = taken_calls s) as HT.
  { unfold taken_calls. simpl. rewrite (take_S_r _ _ _ Hm), calls_app. unfold calls at 2. simpl. rewrite Hc. by rewrite app_nil_r. }
  split; rewrite ?HT; try done. simpl. apply lookup_lt_Some in Hm. lia.
Qed.

Lemma took_answer_none s m :
  rpc_inv s → pg_posted (sy_page s) !! sy_workerTook s = Some m → answer_of m = None →
  rpc_inv (System (sy_page s) (sy_worker s) (sy_pageTook s) (S (sy_workerTook s))).
Proof.
  intros [P W N C U K Y L F A H] Hm Hc.
  assert (taken_answers (System (sy_page s) (sy_worker s) (sy_pageTook s) (S (sy_workerTook s))) = taken_answers s) as HT.
  { unfold taken_answers. simpl. rewrite (take_S_r _ _ _ Hm), answers_app. unfold answers at 2. simpl. rewrite Hc. by rewrite app_nil_r. }
  split; rewrite ?HT; try done. simpl. apply lookup_lt_Some in Hm. lia.
Qed.

(** ** Turns that call, handle and return *)

(** Calls whose status changed at one number. *)
Lemma fmap_status (l : jmap Z (string * list V)) (f g : Z → call_status) n ka :
  NoDup l.*1 → mget n l = Some ka → (∀ m, m ≠ n → g m = f m) →
  (λ c, (c.1, Call c.2.1 c.2.2 (g c.1))) <$> l =
  mset n (Call ka.1 ka.2 (g n)) ((λ c, (c.1, Call c.2.1 c.2.2 (f c.1))) <$> l).
Proof.
  intros Hnd Hn Hg. induction l as [|[m kb] l IH]; [done|]. rewrite fmap_cons in Hnd. apply NoDup_cons in Hnd as [Hni Hnd].
  rewrite !fmap_cons. cbn [mset mget fst snd] in *. case_decide as E.
  - subst m. injection Hn as ->. f_equal. apply list_fmap_ext. intros i [m kb] Hi. simpl. rewrite Hg; [done|].
    intros ->. apply Hni, list_elem_of_fmap. eexists (n, kb). split; [done|]. by eapply list_elem_of_lookup_2.
  - rewrite (IH Hnd Hn), (Hg m) by congruence. done.
Qed.

Lemma mget_status (l : jmap Z (string * list V)) (f : Z → call_status) n ka :
  mget n l = Some ka → mget n ((λ c, (c.1, Call c.2.1 c.2.2 (f c.1))) <$> l) = Some (Call ka.1 ka.2 (f n)).
Proof.
  induction l as [|[m kb] l IH]; simpl; [done|]. case_decide as E; [|done]. subst m. by intros [= ->].
Qed.

Lemma calls_unique s : rpc_inv s → NoDup (calls (bw_posted (sy_worker s))).*1.
Proof. intros H. rewrite (ri_calls s H). apply NoDup_seqZ. Qed.

Lemma taken_known s n ka : rpc_inv s → (n, ka) ∈ taken_calls s → mget n (calls (bw_posted (sy_worker s))) = Some ka.
Proof.
  intros H Hin. apply elem_mget; [by apply calls_unique|].
  rewrite <- (take_drop (sy_pageTook s) (bw_posted (sy_worker s))), calls_app. apply elem_of_app. by left.
Qed.

Lemma taken_sub s n : n ∈ (taken_calls s).*1 → n ∈ (calls (bw_posted (sy_worker s))).*1.
Proof.
  intros H. rewrite <- (take_drop (sy_pageTook s) (bw_posted (sy_worker s))), calls_app, fmap_app. apply elem_of_app. by left.
Qed.

Lemma mget_snoc {K A} `{EqDecision K} (k : K) (a : A) m n :
  mget n (m ++ [(k, a)]) = match mget n m with Some b => Some b | None => if decide (n = k) then Some a else None end.
Proof. rewrite mget_app. simpl. done. Qed.

Lemma prefix_answered s n : rpc_inv s → mget n (answers (pg_posted (sy_page s))) = None → mget n (bw_answered (sy_worker s)) = None.
Proof.
  intros H Hn. rewrite (ri_answered s H). apply mget_None_keys in Hn. apply mget_None_keys. intros Hin. apply Hn.
  unfold taken_answers in Hin. rewrite <- (take_drop (sy_workerTook s) (pg_posted (sy_page s))), answers_app, fmap_app.
  apply elem_of_app. by left.
Qed.

Lemma flight_ids_delete p c fl :
  NoDup (pg_flights p).*1 → mget c (pg_flights p) = Some fl →
  flight_ids p ≡ₚ fl_requestId fl :: ((λ d, fl_requestId d.2) <$> mdelete c (pg_flights p)).
Proof.
  unfold flight_ids. induction (pg_flights p) as [|[d g] l IH]; intros Hnd Hc; [done|]. rewrite fmap_cons in Hnd.
  apply NoDup_cons in Hnd as [Hni Hnd]. cbn [mget mdelete] in *. case_decide as E.
  - subst d. injection Hc as ->. rewrite fmap_cons, mdelete_absent by (by apply mget_None_keys). done.
  - rewrite !fmap_cons, (IH Hnd Hc). apply Permutation_swap.
Qed.

(** A call of the application. *)
Lemma turn_call s kind args signal :
  rpc_inv s →
  let s' := System (sy_page s) (page_handler_call kind args signal (sy_worker s)).2 (sy_pageTook s) (sy_workerTook s) in
  rpc_inv s' ∧ rpc_step (LCall kind args) (remote_calls s) (remote_calls s').
Proof.
  intros I s'. pose proof I as [P W N C U K Y L F A H].
  set (n := bw_nextHostCall (sy_worker s)) in *.
  assert (calls (bw_posted (sy_worker s')) = calls (bw_posted (sy_worker s)) ++ [(n, (kind, args))]) as HC
    by (unfold s'; simpl; by rewrite calls_app).
  assert (bw_posted (sy_worker s') = bw_posted (sy_worker s) ++ [PCall n kind args]) as HP by done.
  assert (taken_calls s' = taken_calls s) as HT by (unfold taken_calls; rewrite HP; simpl; by rewrite take_app_short).
  assert (n ∉ (calls (bw_posted (sy_worker s))).*1) as Hfresh by (rewrite C, elem_of_seqZ; lia).
  assert (mget n (answers (pg_posted (sy_page s))) = None) as Hun.
  { apply mget_None_keys. intros Hin. apply Hfresh, taken_sub, K, elem_of_app. by left. }
  pose proof (prefix_answered s n I Hun) as Hun'. split.
  - split; rewrite ?HC, ?HT; try done; simpl.
    + rewrite length_app. simpl. lia.
    + fold n. lia.
    + fold n. rewrite fmap_app, C. simpl. replace (n + 1 - 1) with ((n - 1) + 1) by lia.
      rewrite seqZ_app by lia. f_equal. replace (1 + (n - 1)) with n by lia. done.
    + intros m. fold n. rewrite fmap_app. simpl. rewrite !elem_of_app, !list_elem_of_singleton, H.
      apply mget_None_keys in Hun'. split; [intros [[? ?]| ->]; auto|intros [[?| ->] ?]; auto].
  - assert (remote_calls s' = remote_calls s ++ [(zlen (remote_calls s) + 1, Call kind args Waiting)]) as ->; [|constructor].
    unfold remote_calls. rewrite HC, fmap_app. f_equal.
    assert (zlen ((λ c, (c.1, Call c.2.1 c.2.2 (status s c.1))) <$> calls (bw_posted (sy_worker s))) = n - 1) as ->.
    { unfold zlen. rewrite length_fmap. rewrite <- (length_fmap fst), C, length_seqZ. lia. }
    replace (n - 1 + 1) with n by lia. unfold status, s'. simpl. fold n. by rewrite Hun, Hun'.
Qed.

(** A handler settles: its answer is posted when there is a Worker to take it. *)
Lemma turn_handle s c fl answer :
  rpc_inv s → mget c (pg_flights (sy_page s)) = Some fl →
  let s' := on_page (call_settled c answer) s in
  rpc_inv s' ∧ (alive s = false → remote_calls s' = remote_calls s) ∧
  (alive s = true → rpc_step (LHandle (fl_requestId fl) (outcome answer)) (remote_calls s) (remote_calls s')).
Proof.
  intros I Hc s'. pose proof I as [P W N C U K Y L F A H]. set (n := fl_requestId fl) in *.
  pose proof (flight_ids_delete _ _ _ Y Hc) as Hfl. fold n in Hfl.
  set (rest := (λ d, fl_requestId d.2) <$> mdelete c (pg_flights (sy_page s))) in *.
  assert (pg_flights (sy_page s') = mdelete c (pg_flights (sy_page s))) as EF.
  { unfold s', call_settled. cbv [mbind js_bind gets on_page]. simpl. rewrite Hc. unfold page_post, modify.
    by destruct (_ && _). }
  assert (pg_nextController (sy_page s') = pg_nextController (sy_page s)) as EN.
  { unfold s', call_settled. cbv [mbind js_bind gets on_page]. simpl. rewrite Hc. unfold page_post, modify. by destruct (_ && _). }
  assert (pg_posted (sy_page s') = pg_posted (sy_page s) ++ (if alive s then [WAnswer n (outcome answer)] else [])) as EP.
  { unfold s', call_settled, alive. cbv [mbind js_bind gets on_page]. simpl. rewrite Hc. unfold page_post, modify.
    destruct (_ && _); [done|]. by rewrite app_nil_r. }
  assert (answers (pg_posted (sy_page s')) = answers (pg_posted (sy_page s)) ++ (if alive s then [(n, outcome answer)] else [])) as EA
    by (rewrite EP, answers_app; by destruct (alive s)).
  assert (taken_answers s' = taken_answers s) as ES by (unfold taken_answers; rewrite EP; simpl; by rewrite take_app_short).
  assert (taken_calls s' = taken_calls s) as ET by done.
  assert (n ∉ (answers (pg_posted (sy_page s))).*1) as Hun.
  { rewrite Hfl in U. apply NoDup_app in U as (_ & U & _). intros Hin. apply (U n Hin). left. }
  split; [|split].
  - assert (∀ m, m ∈ (answers (pg_posted (sy_page s'))).*1 ++ flight_ids (sy_page s') →
              m ∈ (answers (pg_posted (sy_page s))).*1 ++ flight_ids (sy_page s)) as Hsub.
    { intros m. unfold flight_ids at 1. rewrite EA, EF. fold rest. rewrite Hfl, fmap_app.
      destruct (alive s); simpl; rewrite !elem_of_app, ?elem_of_cons, ?elem_of_nil; tauto. }
    split; rewrite ?ES, ?ET, ?EN; try done.
    + rewrite EP, length_app. change (sy_workerTook s') with (sy_workerTook s). lia.
    + unfold flight_ids. rewrite EA, EF. fold rest. rewrite fmap_app. rewrite Hfl in U. destruct (alive s); simpl.
      * by rewrite <- app_assoc.
      * rewrite app_nil_r. apply NoDup_app in U as (U1 & U2 & U3). apply NoDup_cons in U3 as [_ U3].
        apply NoDup_app. split; [done|]. split; [|done]. intros m Hm Hr. apply (U2 m Hm). by right.
    + intros m Hm. by apply K, Hsub.
    + rewrite EF. by apply NoDup_mdelete.
    + intros d. rewrite EF, mdelete_keys_elem. intros [_ Hd]. by apply L.
    + intros d g. rewrite EF, elem_mdelete. intros [Hd _]. by eapply F.
  - intros Ha. unfold remote_calls, status. rewrite EA, Ha, app_nil_r. done.
  - intros Ha. rewrite Ha in EA.
    pose proof (taken_known s _ _ I (F c fl (mget_elem _ _ _ Hc))) as Hk. fold n in Hk.
    apply mget_None_keys in Hun. pose proof (prefix_answered s n I Hun) as Hun'.
    assert (status s n = Waiting) as Hw by (unfold status; by rewrite Hun', Hun).
    assert (∀ m, status s' m = if decide (m = n) then Handled (outcome answer) else status s m) as Hst.
    { intros m. unfold status. change (sy_worker s') with (sy_worker s). rewrite EA, mget_snoc. case_decide as E.
      - subst m. by rewrite Hun', Hun.
      - by destruct (mget m (bw_answered _)), (mget m (answers (pg_posted (sy_page s)))). }
    unfold remote_calls. change (sy_worker s') with (sy_worker s).
    rewrite (fmap_status _ (status s) (status s') n _ (calls_unique s I) Hk) by (intros m Hm; by rewrite Hst, decide_False).
    rewrite (Hst n), decide_True by done. apply rpc_handle. rewrite (mget_status _ _ _ _ Hk). by rewrite Hw.
Qed.

(** The page takes a call: its handler starts. *)
Lemma turn_start s n kind args :
  rpc_inv s → bw_posted (sy_worker s) !! sy_pageTook s = Some (PCall n kind args) →
  let c := pg_nextController (sy_page s) in
  let s' := System (set_calls (mset n c (pg_hostCalls (sy_page s))) (c + 1)
                      (mset c (Flight n kind args) (pg_flights (sy_page s))) (sy_page s))
              (sy_worker s) (S (sy_pageTook s)) (sy_workerTook s) in
  rpc_inv s' ∧ remote_calls s' = remote_calls s ∧ mget c (pg_flights (sy_page s')) = Some (Flight n kind args).
Proof.
  intros I Hm c s'. pose proof I as [P W N C U K Y L F A H].
  assert (mget c (pg_flights (sy_page s)) = None) as Hc.
  { apply mget_None_keys. intros Hin. specialize (L c Hin). unfold c in L. lia. }
  assert (taken_calls s' = taken_calls s ++ [(n, (kind, args))]) as HT.
  { unfold taken_calls. simpl. by rewrite (take_S_r _ _ _ Hm), calls_app. }
  assert (n ∉ (taken_calls s).*1) as Hnew.
  { pose proof (calls_unique s I) as Hu. rewrite <- (take_drop (S (sy_pageTook s)) (bw_posted (sy_worker s))) in Hu.
    rewrite (take_S_r _ _ _ Hm), !calls_app, !fmap_app in Hu. apply NoDup_app in Hu as (Hu & _ & _).
    apply NoDup_app in Hu as (_ & Hu & _). intros Hin. apply (Hu n Hin). left. }
  assert (flight_ids (sy_page s') = flight_ids (sy_page s) ++ [n]) as HF.
  { unfold flight_ids. simpl. rewrite mset_absent by done. by rewrite fmap_app. }
  split; [|split; [done|simpl; apply mget_mset_eq]]. split; rewrite ?HF, ?HT; try done; simpl.
  - apply lookup_lt_Some in Hm. lia.
  - rewrite app_assoc. apply NoDup_app. split; [done|]. split; [|apply NoDup_singleton].
    intros m Hin ->%list_elem_of_singleton. by apply Hnew, K.
  - intros m Hin. rewrite app_assoc in Hin. rewrite fmap_app. apply elem_of_app.
    apply elem_of_app in Hin as [Hin|Hin]; [left; by apply K|right; exact Hin].
  - by apply NoDup_mset.
  - intros d. rewrite mset_keys_elem. fold c in L. intros [->|Hd]; [lia|]. specialize (L d Hd). lia.
  - intros d g Hin. apply elem_of_app. apply elem_mset in Hin as [[= -> ->]|Hin]; [right; left|left; by eapply F].
Qed.

(** The Worker takes an answer: its call returns. *)
Lemma turn_return s n answer :
  rpc_inv s → pg_posted (sy_page s) !! sy_workerTook s = Some (WAnswer n answer) →
  let s' := System (sy_page s) (host_answer n answer (sy_worker s)).2 (sy_pageTook s) (S (sy_workerTook s)) in
  rpc_inv s' ∧ rpc_step (LReturn n answer) (remote_calls s) (remote_calls s').
Proof.
  intros I Hm s'. pose proof I as [P W N C U K Y L F A H].
  assert (answers (take (S (sy_workerTook s)) (pg_posted (sy_page s))) = taken_answers s ++ [(n, answer)]) as HT
    by (unfold taken_answers; by rewrite (take_S_r _ _ _ Hm), answers_app).
  assert (answers (pg_posted (sy_page s)) = taken_answers s ++ (n, answer) :: answers (drop (S (sy_workerTook s)) (pg_posted (sy_page s)))) as HA.
  { rewrite <- (take_drop (S (sy_workerTook s)) (pg_posted (sy_page s))) at 1. rewrite answers_app, HT. by rewrite <- app_assoc. }
  assert (n ∉ (taken_answers s).*1) as Hnew.
  { apply NoDup_app in U as (U & _ & _). rewrite HA, fmap_app in U. apply NoDup_app in U as (_ & U & _).
    intros Hin. apply (U n Hin). left. }
  assert (n ∈ (calls (bw_posted (sy_worker s))).*1) as Hcall.
  { apply taken_sub, K, elem_of_app. left. rewrite HA, fmap_app. apply elem_of_app. right. left. }
  assert (n ∈ bw_hostCalls (sy_worker s)) as Hin by (apply H; by rewrite A).
  assert (s' = System (sy_page s) (set_hostCalls (bw_nextHostCall (sy_worker s)) (list_difference (bw_hostCalls (sy_worker s)) [n])
    (bw_signals (sy_worker s)) (bw_answered (sy_worker s) ++ [(n, answer)]) (sy_worker s)) (sy_pageTook s) (S (sy_workerTook s))) as ES.
  { unfold s', host_answer. cbv [mbind js_bind gets]. by rewrite bool_decide_true. }
  clearbody s'. subst s'. split.
  - split; simpl; try done.
    + apply lookup_lt_Some in Hm. lia.
    + unfold taken_answers at 1. simpl. by rewrite HT, A.
    + intros m. rewrite list_elem_of_difference, list_elem_of_singleton, H, fmap_app, elem_of_app. simpl.
      rewrite list_elem_of_singleton. tauto.
  - destruct (mget n (calls (bw_posted (sy_worker s)))) as [ka|] eqn:Hk; [|by apply mget_None_keys in Hk].
    apply mget_None_keys in Hnew.
    assert (status s n = Handled answer) as Hw.
    { unfold status. rewrite A, Hnew, HA, mget_app, Hnew. simpl. by rewrite decide_True. }
    set (s' := System _ _ _ _).
    assert (∀ m, status s' m = if decide (m = n) then Returned answer else status s m) as Hst.
    { intros m. unfold status, s'. simpl. rewrite mget_snoc. case_decide as E.
      - subst m. by rewrite A, Hnew.
      - by destruct (mget m (bw_answered _)). }
    unfold remote_calls. change (bw_posted (sy_worker s')) with (bw_posted (sy_worker s)).
    rewrite (fmap_status _ (status s) (status s') n _ (calls_unique s I) Hk) by (intros m Hm'; by rewrite Hst, decide_False).
    rewrite (Hst n), decide_True by done. apply rpc_return. rewrite (mget_status _ _ _ _ Hk). by rewrite Hw.
Qed.

(** ** Every turn *)

Lemma quiet_on_page {A} (m : js page A) s :
  quiet_page m → rpc_inv s → rpc_inv (on_page m s) ∧ remote_calls (on_page m s) = remote_calls s.
Proof. intros Hm I. apply quiet_turn; [done|apply Hm|apply worker_quiet_refl|done|done]. Qed.

Lemma quiet_on_worker {A} (m : js bworker A) s :
  quiet_worker m → rpc_inv s → rpc_inv (on_worker m s) ∧ remote_calls (on_worker m s) = remote_calls s.
Proof.
  intros Hm I. unfold on_worker. destruct (alive s); [|done].
  apply quiet_turn; [done|apply page_quiet_refl|apply Hm|done|done].
Qed.

Lemma turn_page_takes s :
  rpc_inv s → rpc_inv (run_event EPageTakes s) ∧
  match event_label EPageTakes s with
  | None => remote_calls (run_event EPageTakes s) = remote_calls s
  | Some l => rpc_step l (remote_calls s) (remote_calls (run_event EPageTakes s))
  end.
Proof.
  intros I. unfold BrowserApp.run_event, event_label. destruct (bw_posted (sy_worker s) !! sy_pageTook s) as [m|] eqn:Hm; [|done].
  destruct (call_of m) as [[n [kind args]]|] eqn:Hc.
  - destruct m; try done. injection Hc as -> -> ->.
    destruct (turn_start s n kind args I Hm) as (I' & E & Hf). set (s1 := System _ _ _ _) in I', E, Hf.
    set (c := pg_nextController (sy_page s)) in *.
    assert (on_page (page_message (PCall n kind args)) (System (sy_page s) (sy_worker s) (S (sy_pageTook s)) (sy_workerTook s))
      = match hostHandler kind (sy_page s) with
        | None => on_page (call_settled c (Throw "Cannot read properties of undefined (reading 'call')")) s1
        | Some _ => s1
        end) as ->.
    { unfold on_page, s1. simpl. unfold host_call. cbv [mbind js_bind gets modify]. fold c.
      change (hostHandler kind (set_calls _ _ _ _)) with (hostHandler kind (sy_page s)). by destruct (hostHandler kind (sy_page s)). }
    destruct (hostHandler kind (sy_page s)); [done|].
    destruct (turn_handle s1 c _ (Throw "Cannot read properties of undefined (reading 'call')") I' Hf) as (I2 & Hd & Ha).
    change (alive s1) with (alive s) in Hd, Ha. split; [done|]. rewrite <- E.
    destruct (alive s); [by apply Ha|by apply Hd].
  - destruct (quiet_on_page (page_message m) (System (sy_page s) (sy_worker s) (S (sy_pageTook s)) (sy_workerTook s)))
      as [I' E]; [by apply quiet_page_message|by eapply took_call_none|].
    split; [done|]. by destruct m.
Qed.

Lemma turn_worker_takes s :
  rpc_inv s → rpc_inv (run_event EWorkerTakes s) ∧
  match event_label EWorkerTakes s with
  | None => remote_calls (run_event EWorkerTakes s) = remote_calls s
  | Some l => rpc_step l (remote_calls s) (remote_calls (run_event EWorkerTakes s))
  end.
Proof.
  intros I. unfold BrowserApp.run_event, event_label. destruct (pg_posted (sy_page s) !! sy_workerTook s) as [m|] eqn:Hm; [|done].
  destruct (alive s) eqn:Ha; [|by destruct m]. destruct (answer_of m) as [[n a]|] eqn:Hc.
  - destruct m; try done. injection Hc as -> ->. unfold on_worker. change (alive (System _ _ _ _)) with (alive s). rewrite Ha.
    apply (turn_return s n a I Hm).
  - destruct (quiet_on_worker (worker_message push_result m) (System (sy_page s) (sy_worker s) (sy_pageTook s) (S (sy_workerTook s))))
      as [I' E]; [by apply quiet_worker_message|by eapply took_answer_none|].
    split; [done|]. by destruct m.
Qed.

Lemma turn ev s :
  rpc_inv s → rpc_inv (run_event ev s) ∧
  match event_label ev s with
  | None => remote_calls (run_event ev s) = remote_calls s
  | Some l => rpc_step l (remote_calls s) (remote_calls (run_event ev s))
  end.
Proof.
  intros I. destruct ev as [url host limits persistent|kind values|reason| | |c answer|n answer|e| |kind args signal|n|kind results| |import| | |result].
  - by apply quiet_on_page; [apply quiet_run|].
  - apply quiet_on_page; [|done]. apply quiet_page_preserves. intros p0. by apply page_quiet_post.
  - apply quiet_on_page; [|done]. apply quiet_page_preserves. intros p0. by apply page_quiet_post.
  - by apply quiet_on_page; [apply quiet_close|].
  - by apply turn_page_takes.
  - simpl. destruct (mget c (pg_flights (sy_page s))) as [fl|] eqn:Hc.
    + destruct (turn_handle s c fl answer I Hc) as (I' & Hd & Ha). split; [done|]. simpl. destruct (alive s); [by apply Ha|by apply Hd].
    + assert (on_page (call_settled c answer) s = s) as ->; [|done].
      unfold on_page, call_settled. cbv [mbind js_bind gets]. rewrite Hc. by destruct s.
  - by apply quiet_on_page; [apply quiet_persist_settled|].
  - apply quiet_on_page; [|done]. apply quiet_page_preserves. intros p0. unfold worker_error, reject_pending. quiet.
  - by apply turn_worker_takes.
  - simpl. destruct (page_answers kind (sy_worker s)); [|done]. unfold on_worker. destruct (alive s) eqn:Ha; simpl; [|done].
    by apply turn_call.
  - by apply quiet_on_worker; [apply quiet_call_aborted|].
  - simpl. destruct (page_answers kind (sy_worker s)); [|done]. apply quiet_on_worker; [|done].
    apply quiet_worker_preserves. intros w0. by apply worker_quiet_post.
  - by apply quiet_on_worker; [apply quiet_requestPersistent|].
  - by apply quiet_on_worker; [apply quiet_run_loaded|].
  - simpl. destruct (running_host (sy_worker s)); [|done]. by apply quiet_on_worker; [apply quiet_host_start|].
  - simpl. destruct (running_host (sy_worker s)); [|done]. by apply quiet_on_worker; [apply quiet_host_end|].
  - simpl. destruct (bw_phase (sy_worker s)); [done|done|]. by apply quiet_on_worker; [apply quiet_run_finished|].
Qed.

Lemma rpc_inv_loaded : rpc_inv system_loaded.
Proof. split; simpl; try done; try lia; try constructor; try (intros * []%elem_of_nil); set_solver. Qed.

Lemma rpc_inv_events evs s : rpc_inv s → rpc_inv (run_events push_result evs s).
Proof. revert s. induction evs as [|ev evs IH]; intros s I; [done|]. simpl. apply IH. by apply turn. Qed.

(** C14 Page and Worker implement remote calls.  Read as the table of the application's requests
    to the page, with what each stands at, every state reachable from the start moves by the
    contract and by nothing else: the application's call adds a waiting entry under the next
    number, the settling of its handler (or the lack of one) handles that entry with that
    answer, the Worker's taking of the answer returns it to the caller, and any other turn of
    either side (runs, pushes, cancellations, storage requests, errors, close) leaves the
    table alone.  So a call is handled at most once, returns at most once, and returns what
    its own handler gave. *)
Theorem browser_rpc_refines evs ev :
  let s := run_events push_result evs system_loaded in
  remote_calls system_loaded = [] ∧
  match event_label ev s with
  | None => remote_calls (run_event ev s) = remote_calls s
  | Some l => rpc_step l (remote_calls s) (remote_calls (run_event ev s))
  end.
Proof. intros s. split; [done|]. apply turn, rpc_inv_events, rpc_inv_loaded. Qed.

(** ** Pushes *)

Definition push_of (m : to_worker (V:=V) (O:=O)) : option (string * list V) :=
  match m with WPush kind values => Some (kind, values) | _ => None end.
Definition pushes (posted : list (to_worker (V:=V) (O:=O))) : list (string * list V) := omap push_of posted.
Definition taken_pushes (s : system) : list (string * list V) := pushes (take (sy_workerTook s) (pg_posted (sy_page s))).

(** What a Worker did with the pushes it took: delivered, kept until the channel opens, or
    dropped. *)
Record push_inv (taken : list (string * list V)) (w : bworker) : Prop := PushInv {
  pi_order : bw_pushed w ++ bw_earlyPushes w `sublist_of` taken;
  pi_bound : zlen (bw_earlyPushes w) <= MAX_EARLY;
  pi_open : bw_hostPush w = true → bw_earlyPushes w = [];
  pi_exact : (∀ a b, push_result a b = Ok tt) → zlen taken <= MAX_EARLY → bw_pushed w ++ bw_earlyPushes w = taken
}.

(** The page only adds to what it posted. *)
Definition posts_more {A} (m : js page A) : Prop := ∀ p0 : page, preserves (λ p, pg_posted p0 `prefix_of` pg_posted p) m.

Lemma posts_more_post m : posts_more (page_post m).
Proof. intros p0 p Hp. unfold page_post, modify. simpl. destruct (_ && _); [|done]. simpl. by apply prefix_app_r. Qed.

Ltac posts := intros p0; preserve; try first [ apply posts_more_post | let p := fresh in let H := fresh in intros p H; exact H ].

Lemma posts_more_events ev s : pg_posted (sy_page s) `prefix_of` pg_posted (sy_page (run_event ev s)).
Proof.
  assert (∀ A (m : js page A) t, posts_more m → sy_page t = sy_page s → pg_posted (sy_page s) `prefix_of` pg_posted (sy_page (on_page m t))) as Hp.
  { intros A m t Hm E. unfold on_page. simpl. rewrite E. by apply (Hm (sy_page s)). }
  assert (∀ A (m : js bworker A) t, sy_page t = sy_page s → pg_posted (sy_page s) `prefix_of` pg_posted (sy_page (on_worker m t))) as Hw.
  { intros A m t E. unfold on_worker. destruct (alive t); simpl; by rewrite E. }
  destruct ev; unfold BrowserApp.run_event; try (by apply Hw).
  - apply Hp; [|done]. unfold run, hostDescription, openWorker. posts.
  - apply Hp; [|done]. apply posts_more_post.
  - apply Hp; [|done]. apply posts_more_post.
  - apply Hp; [|done]. unfold close, reject_pending. posts.
  - destruct (_ !! _) as [m|]; [|done]. apply Hp; [|done].
    destruct m; simpl; unfold persistentStorage, host_call, host_cancel, call_settled; posts.
  - apply Hp; [|done]. unfold call_settled. posts.
  - apply Hp; [|done]. unfold persist_settled. posts.
  - apply Hp; [|done]. unfold worker_error, reject_pending. posts.
  - destruct (_ !! _); [|done]. destruct (alive s); [|done]. by apply Hw.
  - destruct (page_answers _ _); [|done]. by apply Hw.
  - destruct (page_answers _ _); [|done]. by apply Hw.
  - destruct (running_host _); [|done]. by apply Hw.
  - destruct (running_host _); [|done]. by apply Hw.
  - destruct (bw_phase _); [done|done|]. by apply Hw.
Qed.

(** Operations that touch no push. *)
Definition push_state (w : bworker) := (bw_pushed w, bw_earlyPushes w, bw_hostPush w).
Definition pushes_still {A} (m : js bworker A) : Prop := ∀ w0 : bworker, preserves (λ w, push_state w = push_state w0) m.

Ltac still := intros w0; preserve; try (let w := fresh in let H := fresh in intros w H; exact H).

Lemma still_inv {A} (m : js bworker A) taken w : pushes_still m → push_inv taken w → push_inv taken (m w).2.
Proof.
  intros Hm [H1 H2 H3 H4]. pose proof (Hm w w eq_refl) as E. unfold push_state in E. injection E as E1 E2 E3.
  by split; rewrite ?E1, ?E2, ?E3.
Qed.

Lemma host_push_run m (w : bworker) :
  host_push push_result m w =
  match push_result (bw_pushed w) m with
  | Ok _ => (Ok tt, set_pushes (bw_hostPush w) (bw_earlyPushes w) (bw_pushed w ++ [m]) w)
  | Throw e => (Throw e, w)
  end.
Proof. unfold host_push. cbv [mbind js_bind gets lift modify]. by destruct (push_result (bw_pushed w) m). Qed.

Lemma start_pushes h w taken : push_inv taken w → push_inv taken (host_start push_result h w).2.
Proof.
  intros [H1 H2 H3 H4]. unfold host_start. cbv [mbind js_bind gets modify lift].
  assert (∀ early w1, bw_hostPush w1 = true → bw_earlyPushes w1 = [] →
    let w2 := (for_each early (host_push (R:=R) push_result) w1).2 in
    bw_hostPush w2 = true ∧ bw_earlyPushes w2 = [] ∧ (∃ pre, pre `prefix_of` early ∧ bw_pushed w2 = bw_pushed w1 ++ pre) ∧
    ((∀ a b, push_result a b = Ok tt) → bw_pushed w2 = bw_pushed w1 ++ early)) as Hall.
  { clear. induction early as [|m early IH]; intros w1 Ho He; cbn [for_each].
    { simpl. split; [done|]. split; [done|]. split; [|intros _; by rewrite app_nil_r].
      exists []. split; [done|]. by rewrite app_nil_r. }
    cbv [mbind js_bind]. rewrite host_push_run. destruct (push_result (bw_pushed w1) m) as [[]|e] eqn:E; simpl.
    - destruct (IH (set_pushes (bw_hostPush w1) (bw_earlyPushes w1) (bw_pushed w1 ++ [m]) w1) Ho He) as (A & B & (pre & C & D) & F).
      simpl in *. split; [done|]. split; [done|]. split.
      + exists (m :: pre). split; [by apply prefix_cons|]. by rewrite D, <- app_assoc.
      + intros Hok. by rewrite F, <- app_assoc.
    - split; [done|]. split; [done|]. split.
      + exists []. split; [apply prefix_nil|]. by rewrite app_nil_r.
      + intros Hok. by rewrite Hok in E. }
  destruct (Hall (bw_earlyPushes w) (set_pushes true [] (bw_pushed w) w) eq_refl eq_refl) as (A & B & (pre & C & D) & F). clear Hall.
  assert (push_inv taken (for_each (bw_earlyPushes w) (host_push (R:=R) push_result) (set_pushes true [] (bw_pushed w) w)).2) as Hinv.
  { simpl in *. split; rewrite ?B, ?app_nil_r.
    - rewrite D. etrans; [|exact H1]. destruct C as [rest ->]. by apply sublist_app; [|apply sublist_inserts_r].
    - unfold MAX_EARLY. rewrite zlen_nil. lia.
    - done.
    - intros Hok Hl. rewrite (F Hok). by apply H4. }
  destruct (for_each _ _ _) as [[u|e] w2]; [|done]. exact Hinv.
Qed.

Lemma end_pushes h w taken : push_inv taken w → push_inv taken (host_end h w).2.
Proof.
  intros [H1 H2 H3 H4]. unfold host_end. cbv [mbind js_bind modify].
  apply still_inv; [still|]. by split.
Qed.

Lemma message_pushes m w taken :
  push_inv taken w → push_inv (taken ++ [m]) (host_push_message push_result m w).2.
Proof.
  intros [H1 H2 H3 H4]. unfold host_push_message, try_catch, host_push. cbv [mbind js_bind gets lift].
  assert (((∀ a b, push_result a b = Ok tt) → zlen (taken ++ [m]) <= MAX_EARLY → False) → push_inv (taken ++ [m]) w) as Hdrop.
  { intros Hno. split; [by apply sublist_inserts_r|done|done|]. intros Hok Hl. by destruct (Hno Hok). }
  destruct (bw_hostPush w) eqn:Ho.
  - specialize (H3 eq_refl). destruct (push_result (bw_pushed w) m) as [[]|e] eqn:E; simpl.
    + split; simpl; rewrite ?H3, ?app_nil_r in *; [by apply sublist_app|done|done|].
      intros Hok Hl. rewrite H4; [done|done|]. rewrite zlen_app, zlen_cons, zlen_nil in Hl. lia.
    + apply Hdrop. intros Hok. by rewrite Hok in E.
  - unfold when. destruct (Z.ltb_spec (zlen (bw_earlyPushes w)) MAX_EARLY) as [Hlt|Hge]; simpl.
    + split; simpl; [|rewrite zlen_app, zlen_cons, zlen_nil; lia|done|].
      * rewrite app_assoc. by apply sublist_app.
      * intros Hok Hl. rewrite app_assoc, H4; [done|done|]. rewrite zlen_app, zlen_cons, zlen_nil in Hl. lia.
    + apply Hdrop. intros Hok Hl. rewrite zlen_app, zlen_cons, zlen_nil in Hl.
      specialize (H4 Hok ltac:(lia)). rewrite <- H4, zlen_app in Hl. pose proof (zlen_nonneg (bw_pushed w)). lia.
Qed.

(** A message that is no push. *)
Lemma other_pushes m w taken :
  push_of m = None → push_inv taken w → push_inv taken (worker_message (R:=R) push_result m w).2.
Proof.
  intros Hm. destruct m; try done; apply still_inv; simpl.
  - unfold run_message. still.
  - unfold cancel_message. still.
  - unfold host_answer. still.
  - unfold persistent_response. still.
Qed.

Lemma turn_pushes ev s :
  (sy_workerTook s <= length (pg_posted (sy_page s)))%nat → push_inv (taken_pushes s) (sy_worker s) →
  push_inv (taken_pushes (run_event ev s)) (sy_worker (run_event ev s)).
Proof.
  intros Hle H.
  assert (sy_workerTook (run_event ev s) = sy_workerTook s → taken_pushes (run_event ev s) = taken_pushes s) as Hsame.
  { intros E. unfold taken_pushes. rewrite E. destruct (posts_more_events ev s) as [xs ->]. by rewrite take_app_short. }
  assert (∀ A (m : js bworker A), (∀ w, push_inv (taken_pushes s) w → push_inv (taken_pushes s) (m w).2) →
    push_inv (taken_pushes (on_worker m s)) (sy_worker (on_worker m s))) as Hw.
  { intros A m Hm. unfold on_worker. destruct (alive s); [|done]. simpl. by apply Hm. }
  destruct ev; try (rewrite Hsame by done; exact H).
  1: rewrite Hsame; simpl; destruct (bw_posted _ !! _); done.
  all: simpl.
  - destruct (pg_posted (sy_page s) !! sy_workerTook s) as [m|] eqn:Hm; [|done]. destruct (alive s) eqn:Ha; [|done].
    unfold on_worker. change (alive (System _ _ _ _)) with (alive s). rewrite Ha. unfold taken_pushes. simpl.
    rewrite (take_S_r _ _ _ Hm). unfold pushes. rewrite omap_app. simpl. destruct (push_of m) as [[kind values]|] eqn:E.
    + destruct m; try done. injection E as -> ->. by apply message_pushes.
    + rewrite app_nil_r. by apply other_pushes.
  - destruct (page_answers _ _); [|done]. apply Hw. intros w1. apply still_inv. unfold page_handler_call. still.
  - apply Hw. intros w1. apply still_inv. unfold call_aborted. still.
  - destruct (page_answers _ _); [|done]. apply Hw. intros w1. apply still_inv. unfold page_handler_release. still.
  - apply Hw. intros w1. apply still_inv. unfold requestPersistentStorage. still.
  - apply Hw. intros w1. apply still_inv. unfold run_loaded. still.
  - destruct (running_host _); [|done]. apply Hw. intros w1. apply start_pushes.
  - destruct (running_host _); [|done]. apply Hw. intros w1. apply end_pushes.
  - destruct (bw_phase _); [done|done|]. apply Hw. intros w1. apply still_inv. unfold run_finished. still.
Qed.

Lemma push_inv_events evs s :
  rpc_inv s → push_inv (taken_pushes s) (sy_worker s) →
  push_inv (taken_pushes (run_events push_result evs s)) (sy_worker (run_events push_result evs s)).
Proof.
  revert s. induction evs as [|ev evs IH]; intros s I H; [done|]. simpl.
  apply IH; [by apply turn|]. apply turn_pushes; [apply I|done].
Qed.

(** Whatever page and Worker do, the pushes the application's channel was given, followed by
    those waiting for it to open, are pushes of the page in the order the page made them, with
    none twice; at most 4096 wait, and none once the channel is open.  When the channel takes
    what it is given and the page made no more than 4096, none is lost. *)
Theorem browser_pushes_in_order evs :
  let s := run_events push_result evs system_loaded in
  let w := sy_worker s in
  bw_pushed w ++ bw_earlyPushes w `sublist_of` taken_pushes s ∧ zlen (bw_earlyPushes w) <= MAX_EARLY ∧
  (bw_hostPush w = true → bw_earlyPushes w = []) ∧
  ((∀ a b, push_result a b = Ok tt) → zlen (taken_pushes s) <= MAX_EARLY → bw_pushed w ++ bw_earlyPushes w = taken_pushes s).
Proof.
  intros s w. destruct (push_inv_events evs system_loaded rpc_inv_loaded) as [H1 H2 H3 H4]; [|done].
  split; simpl; try done.
Qed.

(** ** One run *)

Definition run_of (m : to_worker (V:=V) (O:=O)) : option Z := match m with WRun id _ _ _ => Some id | _ => None end.
Definition runs (p : page) : list Z := omap run_of (pg_posted p).

(** The promises of [run], pending or settled, and the runs posted. *)
Record once_inv (p : page) : Prop := OnceInv {
  oi_promises : pg_pending p ++ (pg_settled p).*1 = match pg_launched p with None => [] | Some _ => [1] end;
  oi_nextId : pg_nextId p = match pg_launched p with None => 1 | Some _ => 2 end;
  oi_runs : runs p = match pg_launched p with None => [] | Some _ => [1] end
}.

Definition run_state (p : page) := (pg_pending p, pg_settled p, pg_launched p, pg_nextId p, runs p).
Definition runs_still {A} (m : js page A) : Prop := ∀ p0 : page, preserves (λ p, run_state p = run_state p0) m.

Lemma runs_still_post m : run_of m = None → runs_still (page_post m).
Proof.
  intros Hm p0 p Hp. unfold page_post, modify. simpl. destruct (_ && _); [|done].
  rewrite <- Hp. unfold run_state, runs. simpl. rewrite omap_app. simpl. by rewrite Hm, app_nil_r.
Qed.

Ltac runs_same :=
  intros p0; preserve;
  try first [ apply runs_still_post; done | let p := fresh in let H := fresh in intros p H; exact H ].

Lemma runs_still_once {A} (m : js page A) p : runs_still m → once_inv p → once_inv (m p).2.
Proof.
  intros Hm [H1 H2 H3]. pose proof (Hm p p eq_refl) as E. unfold run_state in E. injection E as E1 E2 E3 E4 E5.
  by split; rewrite ?E1, ?E2, ?E3, ?E4, ?E5.
Qed.

Lemma runs_still_description url host : runs_still (hostDescription (V:=V) (R:=R) (O:=O) url host).
Proof. unfold hostDescription. runs_same. Qed.

Lemma once_run url host limits persistent p : once_inv p → once_inv (run url host limits persistent p).2.
Proof.
  intros I. unfold run. cbv [mbind js_bind gets]. unfold guard_js.
  destruct (pg_launched p) as [l|] eqn:El; [by rewrite bool_decide_true|]. rewrite bool_decide_false by (intros H; by apply H).
  pose proof (runs_still_once _ p (runs_still_description url host) I) as [H1 H2 H3].
  pose proof (runs_still_description url host p p eq_refl) as E. unfold run_state in E. injection E as E1 E2 E3 E4 E5.
  simpl. destruct (hostDescription url host p) as [[d|e] p1]; [|by split].
  simpl in *. rewrite E3, El in H1, H2, H3. apply app_eq_nil in H1 as [P1 P2].
  split; simpl; rewrite ?P1, ?H2; simpl; [by rewrite P2|done|].
  unfold runs. simpl. rewrite omap_app. unfold runs in H3. rewrite H3. done.
Qed.

Lemma once_reject e p : once_inv p → once_inv (reject_pending e p).2.
Proof.
  intros [H1 H2 H3]. unfold reject_pending, modify. split; simpl; [|done|done].
  rewrite fmap_app, <- list_fmap_compose. unfold compose. simpl. rewrite list_fmap_id.
  destruct (pg_launched p); [|by apply app_eq_nil in H1 as [-> ->]].
  destruct (pg_pending p) as [|x l]; [rewrite app_nil_r; exact H1|].
  injection H1 as -> [-> H]%app_eq_nil. by rewrite H.
Qed.

Lemma once_message m p : once_inv p → once_inv (page_message m p).2.
Proof.
  intros I. destruct m as [id result|n|n kind args|n|kind results|];
    [|apply runs_still_once; [simpl; unfold persistentStorage, host_call, host_cancel, call_settled; runs_same|done]..].
  simpl. cbv [mbind js_bind gets]. unfold when. case_bool_decide as Hin; [|done]. destruct I as [H1 H2 H3]. unfold modify. split; simpl; [|done|done].
  destruct (pg_launched p); [|apply app_eq_nil in H1 as [H1 _]; rewrite H1 in Hin; by apply elem_of_nil in Hin].
  destruct (pg_pending p) as [|x l]; [by apply elem_of_nil in Hin|].
  injection H1 as -> [-> H]%app_eq_nil. apply list_elem_of_singleton in Hin as ->.
  change (list_difference [1] [1]) with (@nil Z). by rewrite fmap_app, H.
Qed.

Lemma once_turn ev s : once_inv (sy_page s) → once_inv (sy_page (run_event ev s)).
Proof.
  intros I.
  assert (∀ A (m : js bworker A) t, sy_page t = sy_page s → once_inv (sy_page (on_worker m t))) as Hw.
  { intros A m t E. unfold on_worker. destruct (alive t); simpl; by rewrite E. }
  assert (∀ A (m : js page A) t, once_inv (m (sy_page t)).2 → once_inv (sy_page (on_page m t))) as Hp by done.
  destruct ev; unfold BrowserApp.run_event; try (by apply Hw).
  - by apply Hp, once_run.
  - apply Hp, runs_still_once; [|done]. by apply runs_still_post.
  - apply Hp, runs_still_once; [|done]. by apply runs_still_post.
  - pose proof (once_reject "the Nupp browser Worker was closed" _ I) as [H1 H2 H3]. by split.
  - destruct (_ !! _) as [m|]; [|done]. by apply Hp, once_message.
  - apply Hp, runs_still_once; [|done]. unfold call_settled. runs_same.
  - apply Hp, runs_still_once; [|done]. unfold persist_settled. runs_same.
  - by apply Hp, once_reject.
  - destruct (_ !! _); [|done]. destruct (alive s); [|done]. by apply Hw.
  - destruct (page_answers _ _); [|done]. by apply Hw.
  - destruct (page_answers _ _); [|done]. by apply Hw.
  - destruct (running_host _); [|done]. by apply Hw.
  - destruct (running_host _); [|done]. by apply Hw.
  - destruct (bw_phase _); [done|done|]. by apply Hw.
Qed.

(** A page runs its application once: whatever it and the Worker do, a [run] that launched is
    the only one, its request is posted once, and its promise is pending or has settled exactly
    once; before that there is no promise and no run posted. *)
Theorem browser_runs_once evs :
  let p := sy_page (run_events push_result evs system_loaded) in
  match pg_launched p with
  | None => runs p = [] ∧ pg_pending p = [] ∧ pg_settled p = []
  | Some _ => runs p = [1] ∧ (pg_pending p = [1] ∧ pg_settled p = [] ∨ ∃ r, pg_pending p = [] ∧ pg_settled p = [(1, r)])
  end.
Proof.
  assert (∀ evs s, once_inv (sy_page s) → once_inv (sy_page (run_events push_result evs s))) as Hall.
  { clear. induction evs as [|ev evs IH]; intros s I; [done|]. simpl. by apply IH, once_turn. }
  destruct (Hall evs system_loaded ltac:(by split)) as [H1 _ H3]. intros p. fold p in H1, H3.
  destruct (pg_launched p).
  - split; [done|]. destruct (pg_pending p) as [|x l].
    + right. destruct (pg_settled p) as [|[id r] [|b t]]; try done. injection H1 as ->. by exists r.
    + left. injection H1 as -> [-> H]%app_eq_nil. by apply fmap_nil_inv in H as ->.
  - apply app_eq_nil in H1 as [? ?%fmap_nil_inv]. done.
Qed.
End Spec.

(** ** A page with one handler *)

(** The application calls [page.title] twice; the page answers both, and the first answer has
    returned. *)
Definition demo_events : list (@app_event Z Z ()) :=
  [ERun Ok (HostObject (PageHost [("page.title", HFunction)] None true)) () false; EWorkerTakes; ELoaded (λ _, Throw "no module");
   EPush "page.key" [7]; EWorkerTakes; EStart; ECall "page.title" [1] false; ECall "page.title" [2] true; EPageTakes; EPageTakes;
   EHandlerSettles 2 (Ok (AValue 20)); EHandlerSettles 1 (Throw "no title"); EWorkerTakes].

Example demo_remote_calls :
  remote_calls (run_events (λ _ _, Ok tt) demo_events system_loaded) =
    [(1, Call "page.title" [1] (Handled (Throw "no title"))); (2, Call "page.title" [2] (Returned (Ok [20])))] ∧
  bw_pushed (sy_worker (run_events (λ _ _, Ok tt) demo_events system_loaded)) = [("page.key", [7])].
Proof. vm_compute. done. Qed.
