(* ===== verification/ArtifactViews.v ===== *)
(** Generated views beside their source, [src/editors/vscode/extension.js].

    The extension shows what a file compiles to in a document of its own and keeps the two
    panes together: a selection or a scroll in one reveals the line that stands for it in the
    other, by the artifact's mapping.  The state is what the module keeps (the artifacts behind
    the generated documents and until when each pane is being driven) with the visible editors
    and the lines revealed, in order.  A turn of the editor reads one time.  What
    [vscode.Uri.parse(...).toString()] makes of a text is a parameter, as is the user's
    setting. *)

From S2P Require Import Prelude.

(** ** Data *)

Record entry := Entry { en_sourceLine : Z; en_generatedLine : Z; en_role : string }.
Record mapping := Mapping { ma_kind : string; ma_entries : list entry }.
Record artifact := Artifact { ar_mapping : option mapping }.

(** A document's URI: its scheme, the [source] of its query, and the text it prints as. *)
Record uri := Uri { u_scheme : string; u_source : option string; u_text : string }.

(** A line revealed in the pane of a document, and whether at its top. *)
Record reveal := Reveal { rv_pane : string; rv_line : Z; rv_atTop : bool }.

Record views := Views {
  vw_editors : list uri;
  vw_generated : jmap string artifact;
  vw_drivenUntil : jmap string Z;
  vw_revealed : list reveal
}.

Definition GENERATED_SCHEME : string := "nupp-generated".

(** ** Lines *)

Definition entry_maps (e : entry) : bool := negb (String.eqb (en_role e) "synthetic").

Definition generatedLineFor (a : option artifact) (sourceLine : Z) : option Z :=
  m ← a ≫= ar_mapping;
  if String.eqb (ma_kind m) "line-identity" then Some sourceLine
  else
    foldl (λ best e,
      if (en_sourceLine e =? sourceLine) && entry_maps e
      then Some (match best with None => en_generatedLine e | Some b => Z.min b (en_generatedLine e) end)
      else best) None (ma_entries m).

Fixpoint first_source (generatedLine : Z) (entries : list entry) : option Z :=
  match entries with
  | [] => None
  | e :: entries' =>
      if (en_generatedLine e =? generatedLine) && entry_maps e then Some (en_sourceLine e)
      else first_source generatedLine entries'
  end.

Definition sourceLineFor (a : option artifact) (generatedLine : Z) : option Z :=
  m ← a ≫= ar_mapping;
  if String.eqb (ma_kind m) "line-identity" then Some generatedLine else first_source generatedLine (ma_entries m).

Definition better_source (best : option entry) (e : entry) : bool :=
  match best with
  | None => true
  | Some b => (en_sourceLine b <? en_sourceLine e)
              || (en_sourceLine e =? en_sourceLine b) && (en_generatedLine e <? en_generatedLine b)
  end.

Definition nearestGeneratedLine (a : option artifact) (sourceLine : Z) : option Z :=
  match generatedLineFor a sourceLine with
  | Some exact => Some exact
  | None =>
      m ← a ≫= ar_mapping;
      en_generatedLine <$>
        foldl (λ best e,
          if entry_maps e && (en_sourceLine e <=? sourceLine) && better_source best e then Some e else best) None (ma_entries m)
  end.

Definition nearestSourceLine (a : option artifact) (generatedLine : Z) : option Z :=
  match sourceLineFor a generatedLine with
  | Some exact => Some exact
  | None =>
      m ← a ≫= ar_mapping;
      en_sourceLine <$>
        foldl (λ best e,
          if entry_maps e && (en_generatedLine e <=? generatedLine)
             && match best with None => true | Some b => en_generatedLine b <? en_generatedLine e end
          then Some e else best) None (ma_entries m)
  end.

(** ** Panes *)

Section Views.
Context (parse : string → string) (syncScrolling : string → bool).

(** [originOf(uri).toString()]; an empty source is none. *)
Definition originOf (u : uri) : string :=
  if String.eqb (u_scheme u) GENERATED_SCHEME
  then match u_source u with
       | Some s => if String.eqb s "" then u_text u else parse s
       | None => u_text u
       end
  else u_text u.

Definition revealLine (pane : uri) (line : Z) (atTop : bool) : js views () :=
  modify (λ v, Views (vw_editors v) (vw_generated v) (vw_drivenUntil v)
    (vw_revealed v ++ [Reveal (u_text pane) (Z.max 0 (line - 1)) atTop])).

Definition set_driven (driven : jmap string Z) (v : views) : views :=
  Views (vw_editors v) (vw_generated v) driven (vw_revealed v).

Definition drivingPane (now : Z) (pane : uri) : js views () :=
  modify (λ v, set_driven (mset (u_text pane) (now + 250) (vw_drivenUntil v)) v).

Definition echoOfOurOwnScroll (now : Z) (pane : uri) : js views bool :=
  driven ← gets vw_drivenUntil;
  match mget (u_text pane) driven with
  | None => mret false
  | Some until =>
      if until <=? now then modify (set_driven (mdelete (u_text pane) driven)) ;; mret false
      else mret true
  end.

Definition is_generated (u : uri) : bool := String.eqb (u_scheme u) GENERATED_SCHEME.

Definition generatedViewsOf (document : uri) (v : views) : list (uri * option artifact) :=
  (λ e, (e, mget (u_text e) (vw_generated v))) <$>
    filter (λ e, originOf e = u_text document) (filter (λ e, is_generated e = true) (vw_editors v)).

Definition sourceViewOf (document : uri) (v : views) : option uri :=
  head (filter (λ e, u_text e = originOf document) (vw_editors v)).

(** Both handlers, with the way each finds lines. *)
Definition drive (now : Z) (pane : option uri) (line : option Z) (atTop : bool) : js views () :=
  match pane, line with
  | Some pane, Some line => drivingPane now pane;; revealLine pane line atTop
  | _, _ => mret tt
  end.

Definition synchronize (now : Z) (document : uri) (line : Z) (atTop : bool)
    (toSource toGenerated : option artifact → Z → option Z) : js views () :=
  if is_generated document then
    a ← gets (λ v, mget (u_text document) (vw_generated v));
    pane ← gets (sourceViewOf document);
    drive now pane (toSource a line) atTop
  else
    panes ← gets (generatedViewsOf document);
    for_each panes (λ p, drive now (Some p.1) (toGenerated p.2 line) atTop).

(** [selections[0].active.line] and [visibleRanges[0].start.line] count from zero. *)
Definition synchronizeSelection (now : Z) (document : uri) (line : Z) : js views () :=
  echo ← echoOfOurOwnScroll now document;
  if (echo : bool) then mret tt
  else synchronize now document (line + 1) false sourceLineFor generatedLineFor.

Definition synchronizeScroll (now : Z) (document : uri) (visible : option Z) : js views () :=
  echo ← echoOfOurOwnScroll now document;
  if (echo : bool) || negb (syncScrolling (originOf document)) then mret tt
  else
    match visible with
    | None => mret tt
    | Some top => synchronize now document (top + 1) true nearestSourceLine nearestGeneratedLine
    end.
End Views.

(** ** The nearest mapped line *)

(** The lines of an artifact that is not line by line: those of its entries that map. *)
Definition mapped (m : mapping) (e : entry) : Prop := e ∈ ma_entries m ∧ entry_maps e = true.

(** An entry nearest to a source line: of the mapped entries at or above it, one with the
    greatest source line, and of those the least generated one. *)
Definition nearest_source (m : mapping) (sourceLine : Z) (e : entry) : Prop :=
  mapped m e ∧ en_sourceLine e <= sourceLine ∧
  ∀ e', mapped m e' → en_sourceLine e' <= sourceLine →
    en_sourceLine e' < en_sourceLine e ∨ en_sourceLine e' = en_sourceLine e ∧ en_generatedLine e <= en_generatedLine e'.

Definition nearest_generated (m : mapping) (generatedLine : Z) (e : entry) : Prop :=
  mapped m e ∧ en_generatedLine e <= generatedLine ∧
  ∀ e', mapped m e' → en_generatedLine e' <= generatedLine → en_generatedLine e' <= en_generatedLine e.

(** A loop that keeps the best entry so far keeps one that no entry beats. *)
Lemma best_entry (P : entry → bool) (better : option entry → entry → bool) (R : entry → entry → Prop) es :
  (∀ e, better None e = true) → (∀ b e, better (Some b) e = true → R e b) → (∀ b e, better (Some b) e = false → R b e) →
  (∀ e, R e e) → (∀ a b c, R a b → R b c → R a c) →
  match foldl (λ best e, if P e && better best e then Some e else best) None es with
  | Some b => b ∈ es ∧ P b = true ∧ ∀ e, e ∈ es → P e = true → R b e
  | None => ∀ e, e ∈ es → P e = false
  end.
Proof.
  intros Hn Ht Hf Hr Htr. induction es as [|e es IH] using rev_ind; [intros e H; by apply elem_of_nil in H|].
  rewrite foldl_snoc. destruct (foldl _ None es) as [b|].
  - destruct IH as (Hb & HP & Hall). destruct (P e) eqn:Pe; simpl.
    + destruct (better (Some b) e) eqn:E.
      * split; [apply elem_of_app; right; left|]. split; [done|].
        intros e' [He'|He'%list_elem_of_singleton]%elem_of_app Pe'; [|by subst]. eapply Htr; [by apply Ht|by apply Hall].
      * split; [apply elem_of_app; by left|]. split; [done|].
        intros e' [He'|He'%list_elem_of_singleton]%elem_of_app Pe'; [by apply Hall|]. subst. by apply Hf.
    + split; [apply elem_of_app; by left|]. split; [done|].
      intros e' [He'|He'%list_elem_of_singleton]%elem_of_app Pe'; [by apply Hall|]. by subst; rewrite Pe in Pe'.
  - destruct (P e) eqn:Pe; simpl; [rewrite Hn|].
    + split; [apply elem_of_app; right; left|]. split; [done|].
      intros e' [He'|He'%list_elem_of_singleton]%elem_of_app Pe'; [by rewrite IH in Pe'|by subst].
    + intros e' [He'|He'%list_elem_of_singleton]%elem_of_app; [by apply IH|by subst].
Qed.

Lemma exact_generated es line :
  match foldl (λ best e,
      if (en_sourceLine e =? line) && entry_maps e
      then Some (match best with None => en_generatedLine e | Some b => Z.min b (en_generatedLine e) end)
      else best) None es with
  | Some g => (∃ e, e ∈ es ∧ en_sourceLine e = line ∧ entry_maps e = true ∧ en_generatedLine e = g) ∧
              ∀ e, e ∈ es → en_sourceLine e = line → entry_maps e = true → g <= en_generatedLine e
  | None => ∀ e, e ∈ es → entry_maps e = true → en_sourceLine e ≠ line
  end.
Proof.
  induction es as [|e es IH] using rev_ind; [intros e H; by apply elem_of_nil in H|]. rewrite foldl_snoc.
  destruct (foldl _ None es) as [g|], (Z.eqb_spec (en_sourceLine e) line) as [El|El], (entry_maps e) eqn:Em; cbn [andb].
  all: try (destruct IH as ((b & Hb & ? & ? & Hg) & Hall); split; [exists b; rewrite elem_of_app; eauto|];
            intros e' [He'|He'%list_elem_of_singleton]%elem_of_app ? ?; [by apply Hall|subst; congruence]).
  - destruct IH as ((b & Hb & ? & ? & Hg) & Hall). split.
    + destruct (Z.min_spec g (en_generatedLine e)) as [[_ ->]|[_ ->]]; [exists b|exists e]; rewrite elem_of_app; [eauto|].
      split; [right; left|done].
    + intros e' [He'|He'%list_elem_of_singleton]%elem_of_app ? ?; [|subst; lia]. pose proof (Hall e' He' ltac:(done) ltac:(done)). lia.
  - split; [exists e; rewrite elem_of_app; split; [right; left|done]|].
    intros e' [He'|He'%list_elem_of_singleton]%elem_of_app ? ?; [by destruct (IH e')|by subst].
  - intros e' [He'|He'%list_elem_of_singleton]%elem_of_app ?; [by apply IH|subst; congruence].
  - intros e' [He'|He'%list_elem_of_singleton]%elem_of_app ?; [by apply IH|by subst].
  - intros e' [He'|He'%list_elem_of_singleton]%elem_of_app ?; [by apply IH|by subst].
Qed.

Lemma exact_source es line :
  match first_source line es with
  | Some s => ∃ e, e ∈ es ∧ entry_maps e = true ∧ en_generatedLine e = line ∧ en_sourceLine e = s
  | None => ∀ e, e ∈ es → entry_maps e = true → en_generatedLine e ≠ line
  end.
Proof.
  induction es as [|e es IH]; simpl; [intros e H; by apply elem_of_nil in H|].
  destruct (Z.eqb_spec (en_generatedLine e) line), (entry_maps e) eqn:Em; simpl; [exists e; split; [left|done]|..].
  all: destruct (first_source line es); [destruct IH as (b & ? & ?); exists b; split; [by right|done]|].
  all: intros e' [->|He']%elem_of_cons ?; [congruence|by apply IH].
Qed.

(** How the two loops compare entries. *)
Definition source_order (b e : entry) : Prop :=
  en_sourceLine e < en_sourceLine b ∨ en_sourceLine e = en_sourceLine b ∧ en_generatedLine b <= en_generatedLine e.

Lemma better_source_order b e : if better_source (Some b) e then source_order e b else source_order b e.
Proof.
  unfold better_source, source_order. destruct (Z.ltb_spec (en_sourceLine b) (en_sourceLine e)); simpl; [lia|].
  destruct (Z.eqb_spec (en_sourceLine e) (en_sourceLine b)); simpl; [|lia].
  destruct (Z.ltb_spec (en_generatedLine e) (en_generatedLine b)); lia.
Qed.

Lemma best_source (P : entry → bool) es :
  match foldl (λ best e, if P e && better_source best e then Some e else best) None es with
  | Some b => b ∈ es ∧ P b = true ∧ ∀ e, e ∈ es → P e = true → source_order b e
  | None => ∀ e, e ∈ es → P e = false
  end.
Proof.
  apply best_entry; [done|..].
  1,2: intros b e E; pose proof (better_source_order b e) as H; by rewrite E in H.
  - intros e. unfold source_order. lia.
  - unfold source_order. lia.
Qed.

(** C38 Scrolling by an artifact's mapping agrees with its description.  For a mapping with
    entries, the generated line for a source line is that of a mapped entry with the greatest
    source line at or above it, the least generated line where there are several, and there is
    none exactly when every mapped entry lies below; the source line for a generated line is
    that of a mapped entry with the greatest generated line at or above it, and there is none
    exactly when every mapped entry lies below.  Synthetic entries count for neither. *)
Theorem nearest_lines_reference m line :
  ma_kind m ≠ "line-identity" →
  match nearestGeneratedLine (Some (Artifact (Some m))) line with
  | Some g => ∃ e, nearest_source m line e ∧ en_generatedLine e = g
  | None => ∀ e, mapped m e → line < en_sourceLine e
  end ∧
  match nearestSourceLine (Some (Artifact (Some m))) line with
  | Some s => ∃ e, nearest_generated m line e ∧ en_sourceLine e = s
  | None => ∀ e, mapped m e → line < en_generatedLine e
  end.
Proof.
  intros Hk. assert (String.eqb (ma_kind m) "line-identity" = false) as Hf by (by apply String.eqb_neq). split.
  - unfold nearestGeneratedLine, generatedLineFor. simpl. rewrite Hf.
    pose proof (exact_generated (ma_entries m) line) as HE. destruct (foldl _ None (ma_entries m)) as [g|].
    + destruct HE as ((e & ? & ? & ? & ?) & Hall). exists e. split; [|done]. split; [done|]. split; [lia|].
      intros e' [? ?] ?. destruct (decide (en_sourceLine e' = line)); [|lia]. right. split; [lia|]. subst g. by apply Hall.
    + pose proof (best_source (λ e, entry_maps e && (en_sourceLine e <=? line)) (ma_entries m)) as HB.
      destruct (foldl _ None (ma_entries m)) as [b|]; simpl.
      * destruct HB as (Hb & HP & Hall). apply andb_true_iff in HP as [? ?]. exists b. split; [|done]. split; [done|]. split; [lia|].
        intros e [? He] ?. apply Hall; [done|]. rewrite He. simpl. lia.
      * intros e [Hin He]. specialize (HB e Hin). rewrite He in HB. simpl in HB. lia.
  - unfold nearestSourceLine, sourceLineFor. simpl. rewrite Hf.
    pose proof (exact_source (ma_entries m) line) as HE. destruct (first_source line (ma_entries m)) as [s|].
    + destruct HE as (e & ? & ? & ? & ?). exists e. split; [|done]. split; [done|]. split; [lia|]. intros. lia.
    + pose proof (best_entry (λ e, entry_maps e && (en_generatedLine e <=? line))
        (λ best e, match best with None => true | Some b => en_generatedLine b <? en_generatedLine e end)
        (λ b e, en_generatedLine e <= en_generatedLine b) (ma_entries m)) as HB.
      destruct (foldl _ None (ma_entries m)) as [b|]; simpl.
      * destruct HB as (Hb & HP & Hall); [done|intros; lia|intros; lia|simpl; lia|simpl; lia|].
        apply andb_true_iff in HP as [? ?]. exists b. split; [|done]. split; [done|]. split; [lia|].
        intros e [? He] ?. apply Hall; [done|]. rewrite He. simpl. lia.
      * intros e [Hin He]. specialize (HB ltac:(done) ltac:(intros; lia) ltac:(intros; lia) ltac:(simpl; lia) ltac:(simpl; lia) e Hin).
        rewrite He in HB. simpl in HB. lia.
Qed.

Definition demo_mapping : mapping :=
  Mapping "entries" [Entry 1 1 "code"; Entry 3 9 "code"; Entry 3 5 "code"; Entry 4 2 "synthetic"].

Lemma nearest_lines_reference_witness :
  nearestGeneratedLine (Some (Artifact (Some demo_mapping))) 4 = Some 5 ∧
  match nearestSourceLine (Some (Artifact (Some demo_mapping))) 8 with
  | Some s => ∃ e, nearest_generated demo_mapping 8 e ∧ en_sourceLine e = s
  | None => ∀ e, mapped demo_mapping e → 8 < en_generatedLine e
  end.
Proof. split; [vm_compute; reflexivity|]. apply (nearest_lines_reference demo_mapping 8). discriminate. Defined.

(** ** Panes do not push each other *)

Section Echo.
Context (parse : string → string) (syncScrolling : string → bool).

(** A selection or a scroll the editor reports. *)
Inductive view_event := VSelect (document : uri) (line : Z) | VScroll (document : uri) (visible : option Z).

Definition view_document (ev : view_event) : uri := match ev with VSelect d _ | VScroll d _ => d end.

Definition run_view (now : Z) (ev : view_event) (v : views) : views :=
  match ev with
  | VSelect d line => (synchronizeSelection parse now d line v).2
  | VScroll d visible => (synchronizeScroll parse syncScrolling now d visible v).2
  end.

Definition run_views (evs : list (Z * view_event)) (v : views) : views := foldl (λ v p, run_view p.1 p.2 v) v evs.

(** A pane is being driven at least until [T]. *)
Definition driven (T : Z) (pane : string) (v : views) : Prop := ∃ u, mget pane (vw_drivenUntil v) = Some u ∧ T <= u.

Lemma driven_drive T pane now p line atTop :
  T <= now + 250 → preserves (driven T pane) (drive now p line atTop).
Proof.
  intros HT. unfold drive. destruct p as [p|], line as [line|]; preserve; [|by intros v Hv].
  intros v (u & Hu & ?). unfold driven. simpl. destruct (decide (u_text p = pane)) as [<-|Hne].
  - exists (now + 250). by rewrite mget_mset_eq.
  - exists u. by rewrite mget_mset_ne.
Qed.

Lemma driven_synchronize T pane now d line atTop f g :
  T <= now + 250 → preserves (driven T pane) (synchronize parse now d line atTop f g).
Proof.
  intros HT. unfold synchronize. apply preserves_if; preserve; by apply driven_drive.
Qed.

Lemma driven_echo T pane now d : now < T → preserves (driven T pane) (echoOfOurOwnScroll now d).
Proof.
  intros HT v (u & Hu & ?). unfold echoOfOurOwnScroll. cbv [mbind js_bind gets].
  destruct (mget (u_text d) (vw_drivenUntil v)) as [until|] eqn:E; [|by exists u].
  destruct (Z.leb_spec until now); [|by exists u]. unfold driven. simpl. exists u. split; [|done].
  rewrite mget_mdelete_ne; [done|]. intros <-. rewrite E in Hu. injection Hu as <-. lia.
Qed.

(** A driven pane stays driven through later turns, and its own events do nothing. *)
Lemma driven_view T pane now ev v : now < T <= now + 250 → driven T pane v → driven T pane (run_view now ev v).
Proof.
  intros [? ?]. destruct ev as [d line|d visible]; simpl; revert v;
    [change (preserves (driven T pane) (synchronizeSelection parse now d line))
    |change (preserves (driven T pane) (synchronizeScroll parse syncScrolling now d visible))].
  - apply preserves_bind; [by apply driven_echo|]. intros []; [apply preserves_ret|]. by apply driven_synchronize.
  - apply preserves_bind; [by apply driven_echo|]. intros []; simpl; [apply preserves_ret|].
    destruct (negb _); [apply preserves_ret|]. destruct visible; [by apply driven_synchronize|apply preserves_ret].
Qed.

Lemma driven_ignored T now ev v : now < T → driven T (u_text (view_document ev)) v → run_view now ev v = v.
Proof.
  intros HT (u & Hu & ?). assert (echoOfOurOwnScroll now (view_document ev) v = (Ok true, v)) as E.
  { unfold echoOfOurOwnScroll. cbv [mbind js_bind gets]. rewrite Hu. by rewrite (proj2 (Z.leb_gt _ _)) by lia. }
  destruct ev as [d line|d visible]; simpl in *.
  - unfold synchronizeSelection. by rewrite (bind_run _ _ _ _ _ E).
  - unfold synchronizeScroll. by rewrite (bind_run _ _ _ _ _ E).
Qed.

(** What a turn revealed, and that it drives those panes. *)
Definition reveals_driven (now : Z) (v0 v : views) : Prop :=
  ∃ rs, vw_revealed v = vw_revealed v0 ++ rs ∧ ∀ r, r ∈ rs → driven (now + 250) (rv_pane r) v.

Lemma reveals_drive now v0 p line atTop : preserves (reveals_driven now v0) (drive now p line atTop).
Proof.
  intros v (rs & E & H). pose proof (λ pane, driven_drive (now + 250) pane now p line atTop ltac:(lia) v) as Hd.
  unfold drive in *. destruct p as [p|], line as [line|]; [|by exists rs..].
  exists (rs ++ [Reveal (u_text p) (Z.max 0 (line - 1)) atTop]). split; [simpl; by rewrite E, app_assoc|].
  intros r [Hr| ->%list_elem_of_singleton]%elem_of_app; [by apply Hd, H|].
  exists (now + 250). simpl. by rewrite mget_mset_eq.
Qed.

Lemma reveals_view now ev v : reveals_driven now v (run_view now ev v).
Proof.
  assert (∀ d line atTop f g, preserves (reveals_driven now v) (synchronize parse now d line atTop f g)) as Hs.
  { intros. unfold synchronize. apply preserves_if; preserve; by apply reveals_drive. }
  assert (∀ d, preserves (λ v', vw_revealed v' = vw_revealed v) (echoOfOurOwnScroll now d)) as He.
  { intros d. unfold echoOfOurOwnScroll. preserve. by intros v' Hv. }
  assert (∀ v', vw_revealed v' = vw_revealed v → reveals_driven now v v') as H0.
  { intros v' E. exists []. rewrite app_nil_r. split; [done|]. intros r Hr. by apply elem_of_nil in Hr. }
  destruct ev as [d line|d visible]; simpl; unfold synchronizeSelection, synchronizeScroll; cbv [mbind js_bind];
    specialize (He d v eq_refl); destruct (echoOfOurOwnScroll now d v) as [[[]|e] v']; simpl; try (by apply H0).
  - by apply Hs, H0.
  - destruct (negb _); [by apply H0|]. destruct visible; [by apply Hs, H0|by apply H0].
Qed.

(** The two panes do not push each other: for a quarter of a second after a turn revealed a
    line in some pane, whatever else happens in other panes, the scrolls and selections the
    editor reports of that pane change nothing: they reveal no line and drive no pane. *)
Theorem driven_panes_ignored now ev (later : list (Z * view_event)) now' ev' v r :
  r ∈ drop (length (vw_revealed v)) (vw_revealed (run_view now ev v)) →
  Forall (λ p, now <= p.1 < now + 250) later → now <= now' < now + 250 → u_text (view_document ev') = rv_pane r →
  run_view now' ev' (run_views later (run_view now ev v)) = run_views later (run_view now ev v).
Proof.
  intros Hr Hl Hn Hp. destruct (reveals_view now ev v) as (rs & E & H). rewrite E, drop_app_length in Hr. specialize (H r Hr).
  apply (driven_ignored (now + 250)); [lia|]. rewrite Hp. clear E Hr Hp. revert H. generalize (run_view now ev v).
  induction Hl as [|[t e] later Ht Hl IH]; intros v1 H; [done|]. simpl in *. apply IH. apply driven_view; [lia|done].
Qed.
End Echo.

(** A source and its listing, side by side. *)
Definition demo_source : uri := Uri "file" None "file:/a.nupp".
Definition demo_listing : uri := Uri GENERATED_SCHEME (Some "file:/a.nupp") "nupp-generated:/a.nupp.O0.bc".
Definition demo_views : views :=
  Views [demo_source; demo_listing] [("nupp-generated:/a.nupp.O0.bc", Artifact (Some demo_mapping))] [] [].

Lemma driven_panes_ignored_witness :
  vw_revealed (run_view (λ s, s) (λ _, true) 1000 (VScroll demo_source (Some 2)) demo_views) =
    [Reveal "nupp-generated:/a.nupp.O0.bc" 4 true] ∧
  run_view (λ s, s) (λ _, true) 1100 (VScroll demo_listing (Some 4))
    (run_view (λ s, s) (λ _, true) 1000 (VScroll demo_source (Some 2)) demo_views) =
  run_view (λ s, s) (λ _, true) 1000 (VScroll demo_source (Some 2)) demo_views.
Proof.
  split; [vm_compute; reflexivity|].
  apply (driven_panes_ignored (λ s, s) (λ _, true) 1000 (VScroll demo_source (Some 2)) [] 1100 (VScroll demo_listing (Some 4))
    demo_views (Reveal "nupp-generated:/a.nupp.O0.bc" 4 true)); [|constructor|lia|reflexivity].
  vm_compute. left.
Defined.
