(* ===== verification/TestReports.v ===== *)
(** Test runs in the editor, [src/editors/vscode/extension.js].

    A run enqueues the selected suites, starts the compiler's test command, and reports what
    its output says: one verdict per suite, rolled up from the tests of the record the command
    prints last.  What VS Code is told is kept in order.  A suite is known by its identifier,
    as VS Code's items are; the text of a file's location is kept as the report has it.
    [JSON.parse] and the duration arithmetic are parameters.  A record's [tests] may be absent,
    no list, or hold [null] and other values, and a file may be any value: what these make the
    report throw is modelled; the other fields of a test are the texts and numbers the runner
    writes. *)

From S2P Require Import Prelude.

Section Reports.
(** Durations, numbers of the report. *)
Context {D : Type} (no_time : D) (add_time : D → D → D).

(** ** Data *)

Inductive item := Item (id label : string) (children : list item).
Definition it_id (i : item) : string := let 'Item id _ _ := i in id.
Definition it_label (i : item) : string := let 'Item _ label _ := i in label.

(** A test of the record; absent fields are [None].  A file may be any value. *)
Record failure := Failure { fa_message : option string; fa_file : jsval; fa_line : option Z }.
Record test := Test {
  te_suite : string;
  te_name : string;
  te_status : string;
  te_durationMs : option D;
  te_failure : option failure;
  te_file : jsval;
  te_line : option Z
}.

(** An entry of [record.tests]: [null], a value whose [suite] is not a text, or a test. *)
Inductive entry := ENull | EOther | ETest (t : test).

(** [record.tests]: nothing (also a text, whose characters have no suite), a list, or a value that cannot be iterated. *)
Inductive tests_field := TNone | TList (entries : list entry) | TNotIterable.

Record test_message := TestMessage { tm_text : string; tm_location : option (string * Z) }.

(** What [run] is told. *)
Inductive run_call :=
| REnqueued (id : string)
| RStarted (id : string)
| RFailed (id : string) (messages : list test_message) (duration : option D)
| RSkipped (id : string)
| RPassed (id : string) (duration : option D)
| ROutput (text : string)
| REnd.

(** ** Selecting suites *)

(** The leaves below an item; a node is never a suite itself. *)
Fixpoint leaves (i : item) : list item :=
  match i with
  | Item _ _ [] => [i]
  | Item _ _ (c :: cs) => leaves c ++ (fix all l := match l with [] => [] | c :: l' => leaves c ++ all l' end) cs
  end.

Definition selectedSuites (items : list item) (include : option (list item)) (exclude : list item) : list item :=
  filter (λ i, it_id i ∉ map it_id exclude) (default items include ≫= leaves).

(** ** The record *)

(** [text.split("\n")]. *)
Definition split_lines (text : list byte) : list (list byte) := split_on x0a text.

(** The white space [trim()] removes, as UTF-8: the ASCII controls and the space, then
    U+00A0, U+1680, U+2000 to U+200A, U+2028, U+2029, U+202F, U+205F, U+3000 and U+FEFF. *)
Definition spaces : list (list byte) :=
  [[x20]; [x09]; [x0a]; [x0b]; [x0c]; [x0d]; [xc2; xa0]; [xe1; x9a; x80]] ++
  ((λ b, [xe2; x80; b]) <$> [x80; x81; x82; x83; x84; x85; x86; x87; x88; x89; x8a; xa8; xa9; xaf]) ++
  [[xe2; x81; x9f]; [xe3; x80; x80]; [xef; xbb; xbf]].

(** [l] after the members of [white] it starts with; [skip] bytes of the last one are left. *)
Fixpoint trim_start (white : list (list byte)) (skip : nat) (l : list byte) : list byte :=
  match l, skip with
  | [], _ => []
  | _ :: l', S skip' => trim_start white skip' l'
  | _ :: l', O =>
      match find (λ w, bool_decide (w `prefix_of` l)) white with
      | Some w => trim_start white (length w - 1) l'
      | None => l
      end
  end.
Definition trim (l : list byte) : list byte :=
  reverse (trim_start (reverse <$> spaces) 0 (reverse (trim_start spaces 0 l))).

(** The last line that parses; [parse] is [JSON.parse] of a record, [None] where it throws. *)
Fixpoint first_record {R} (parse : list byte → option R) (lines : list (list byte)) : option R :=
  match lines with
  | [] => None
  | line :: lines' =>
      match trim line with
      | x7b :: _ => match parse (trim line) with Some r => Some r | None => first_record parse lines' end
      | _ => first_record parse lines'
      end
  end.
Definition lastJsonRecord {R} (parse : list byte → option R) (stdout : list byte) : option R :=
  first_record parse (reverse (split_lines stdout)).

(** [text.replace(/\r?\n/g, "\r\n")]. *)
Fixpoint asTerminal (text : list byte) : list byte :=
  match text with
  | x0d :: x0a :: text' => x0d :: x0a :: asTerminal text'
  | x0a :: text' => x0d :: x0a :: asTerminal text'
  | b :: text' => b :: asTerminal text'
  | [] => []
  end.

(** ** Verdicts *)

Record suite_outcome := SuiteOutcome {
  so_duration : D;
  so_failures : list test_message;
  so_ran : Z;
  so_skipped : Z
}.

(** [a || b] of a text that may be absent: an empty one is not taken. *)
Definition or_text (a : option string) (b : string) : string :=
  match a with Some s => if String.eqb s "" then b else s | None => b end.

(** Whether [if (v)] is taken. *)
Definition truth (v : jsval) : bool :=
  match v with
  | VUndef | VNull | VBool false | VNum (NInt 0) | VNum NNaN => false
  | VStr s => negb (String.eqb s "")
  | _ => true
  end.

(** [failure.file || test.file]. *)
Definition failure_of (t : test) : failure := default (Failure None VUndef None) (te_failure t).
Definition where_of (t : test) : jsval := if truth (fa_file (failure_of t)) then fa_file (failure_of t) else te_file t.

(** [path.isAbsolute(where)] throws for what is not a text. *)
Definition bad_where (t : test) : bool := truth (where_of t) && negb (is_string (where_of t)).

Definition failure_message (t : test) : test_message :=
  let f := failure_of t in
  let at_ := if truth (fa_file f) then fa_line f else te_line t in
  let line := match at_ with Some l => if l =? 0 then 1 else l | None => 1 end in
  TestMessage (te_name t +:+ ": " +:+ or_text (fa_message f) "failed")
    match where_of t with VStr w => if String.eqb w "" then None else Some (w, Z.max 0 (line - 1)) | _ => None end.

(** One test counted in its suite's outcome. *)
Definition count_test (t : test) (o : suite_outcome) : suite_outcome :=
  let failed := String.eqb (te_status t) "failed" in
  SuiteOutcome (add_time (so_duration o) (default no_time (te_durationMs t)))
    (if failed then so_failures o ++ [failure_message t] else so_failures o)
    (so_ran o + 1)
    (if negb failed && String.eqb (te_status t) "skipped" then so_skipped o + 1 else so_skipped o).

(** [bySuite] and [outcomes]. *)
Definition suites_by_label (suites : list item) : jmap string string :=
  foldl (λ m i, mset (it_label i) (it_id i) m) [] suites.

Definition no_outcome : suite_outcome := SuiteOutcome no_time [] 0 0.

Definition add_test (by_suite : jmap string string) (outcomes : jmap string suite_outcome) (t : test) : jmap string suite_outcome :=
  match mget (te_suite t) by_suite with
  | None => outcomes
  | Some id => mset id (count_test t (default no_outcome (mget id outcomes))) outcomes
  end.

(** What reading an entry throws, if it does. *)
Definition entry_fault (by_suite : jmap string string) (e : entry) : option string :=
  match e with
  | ENull => Some "Cannot read properties of null (reading 'suite')"
  | EOther => None
  | ETest t =>
      if bool_decide (is_Some (mget (te_suite t) by_suite)) && String.eqb (te_status t) "failed" && bad_where t
      then Some "The path argument must be of type string" else None
  end.

(** The loop over the tests. *)
Fixpoint add_entries (by_suite : jmap string string) (entries : list entry) (outcomes : jmap string suite_outcome) : res (jmap string suite_outcome) :=
  match entries with
  | [] => Ok outcomes
  | e :: entries' =>
      match entry_fault by_suite e with
      | Some error => Throw error
      | None => add_entries by_suite entries' (match e with ETest t => add_test by_suite outcomes t | _ => outcomes end)
      end
  end.

Definition add_tests (by_suite : jmap string string) (tests : tests_field) : res (jmap string suite_outcome) :=
  match tests with
  | TNone => Ok []
  | TList entries => add_entries by_suite entries []
  | TNotIterable => Throw "tests is not iterable"
  end.

Definition suite_verdict (outcomes : jmap string suite_outcome) (i : item) : run_call :=
  match mget (it_id i) outcomes with
  | None => RSkipped (it_id i)
  | Some o =>
      match so_failures o with
      | _ :: _ => RFailed (it_id i) (so_failures o) (Some (so_duration o))
      | [] => if so_skipped o =? so_ran o then RSkipped (it_id i) else RPassed (it_id i) (Some (so_duration o))
      end
  end.

Definition bytes_string (bs : list byte) : string := String.string_of_list_byte bs.

(** [stderr || stdout]. *)
Definition output_text (stdout stderr : list byte) : list byte := if bool_decide (stderr = []) then stdout else stderr.

(** The calls it makes, or what it throws before it makes any. *)
Definition reportTestResults (parse : list byte → option tests_field) (suites : list item) (stdout stderr : list byte) (error : bool)
    : res (list run_call) :=
  outcomes ← add_tests (suites_by_label suites) (default TNone (lastJsonRecord parse stdout));
  mret match outcomes with
  | [] =>
      ROutput (bytes_string (asTerminal (output_text stdout stderr))) ::
      ((λ i, RFailed (it_id i) [TestMessage (if error then "the test run failed" else "the run reported no tests") None] None) <$> suites)
  | _ => suite_verdict outcomes <$> suites
  end.

Record command := Command { co_error : bool; co_stdout : list byte; co_stderr : list byte }.

Definition run_verdicts (parse : list byte → option tests_field) (suites : list item) (c : command) (withCoverage : bool) : res (list run_call) :=
  if negb withCoverage then reportTestResults parse suites (co_stdout c) (co_stderr c) (co_error c)
  else if co_error c then
    Ok (ROutput (bytes_string (asTerminal (output_text (co_stdout c) (co_stderr c)))) ::
        ((λ i, RFailed (it_id i) [TestMessage "the coverage run failed" None] None) <$> suites))
  else Ok ((λ i, RPassed (it_id i) None) <$> suites).

(** [runTests]: [cancelled] and the command's outcome are what its [await] finds; [published]
    is what [publishCoverage] tells the run, and what it throws.  What the run is told, and what
    the function throws, if it does. *)
Definition runTests (parse : list byte → option tests_field) (items : list item) (include : option (list item)) (exclude : list item)
    (c : command) (cancelled withCoverage : bool) (published : list run_call * option string) : list run_call * option string :=
  let suites := selectedSuites items include exclude in
  let begun := ((λ i, REnqueued (it_id i)) <$> suites) ++ ((λ i, RStarted (it_id i)) <$> suites) in
  if cancelled then (begun ++ [REnd], None)
  else
    match run_verdicts parse suites c withCoverage with
    | Throw error => (begun, Some error)
    | Ok verdicts =>
        match (if withCoverage then published else ([], None)) with
        | (calls, Some error) => (begun ++ verdicts ++ calls, Some error)
        | (calls, None) => (begun ++ verdicts ++ calls ++ [REnd], None)
        end
    end.

(** ** Coverage *)

Record site := Site {
  si_kind : string;
  si_line : option Z;
  si_endLine : option Z;
  si_count : Z;
  si_trueCount : option Z;
  si_falseCount : option Z;
  si_name : option string
}.

Inductive detail :=
| StatementCoverage (count line : Z) (branches : list (Z * string))
| DeclarationCoverage (name : string) (count line endLine : Z).

(** [value || 1] and [value || 0] of a number that may be absent. *)
Definition or_one (v : option Z) : Z := match v with Some l => if l =? 0 then 1 else l | None => 1 end.

Definition detail_of (s : site) : list detail :=
  let line := Z.max 0 (or_one (si_line s) - 1) in
  if String.eqb (si_kind s) "statement" then [StatementCoverage (si_count s) line []]
  else if String.eqb (si_kind s) "branch" then
    [StatementCoverage (si_count s) line [(default 0 (si_trueCount s), "true"); (default 0 (si_falseCount s), "false")]]
  else if String.eqb (si_kind s) "function" then
    let end_ := Z.max line (match si_endLine s with Some e => if e =? 0 then or_one (si_line s) else e | None => or_one (si_line s) end - 1) in
    [DeclarationCoverage (or_text (si_name s) "<anonymous>") (si_count s) line end_]
  else [].
Definition detailedCoverageFor (sites : list site) : list detail := sites ≫= detail_of.

(** ** Every suite has its verdict *)

Definition verdict_of (c : run_call) : option string :=
  match c with RFailed id _ _ | RSkipped id | RPassed id _ => Some id | _ => None end.

Lemma omap_fmap_some {A B C} (f : A → B) (g : B → option C) (h : A → C) (l : list A) :
  (∀ x, g (f x) = Some (h x)) → omap g (f <$> l) = h <$> l.
Proof. intros H. induction l as [|x l IH]; simpl; [done|]. rewrite H. f_equal. exact IH. Qed.

Lemma omap_fmap_none {A B C} (f : A → B) (g : B → option C) (l : list A) : (∀ x, g (f x) = None) → omap g (f <$> l) = [].
Proof. intros H. induction l as [|x l IH]; simpl; [done|]. rewrite H. exact IH. Qed.

Definition tests_in (tests : tests_field) : list test :=
  match tests with TList entries => omap (λ e, match e with ETest t => Some t | _ => None end) entries | _ => [] end.

(** Nothing in the record makes the report throw: its tests can be iterated, none is [null], and no failed test of a suite
    has a file that is not a text. *)
Definition readable (suites : list item) (tests : tests_field) : bool :=
  match tests with
  | TNone => true
  | TList entries => forallb (λ e, bool_decide (entry_fault (suites_by_label suites) e = None)) entries
  | TNotIterable => false
  end.

Lemma add_entries_run by_suite entries outcomes :
  if forallb (λ e, bool_decide (entry_fault by_suite e = None)) entries
  then add_entries by_suite entries outcomes =
    Ok (foldl (add_test by_suite) outcomes (omap (λ e, match e with ETest t => Some t | _ => None end) entries))
  else ∃ error, add_entries by_suite entries outcomes = Throw error.
Proof.
  revert outcomes. induction entries as [|e entries IH]; intros outcomes; cbn [forallb add_entries]; [done|].
  destruct (entry_fault by_suite e) as [error|]; [rewrite bool_decide_false by done; by eexists|]. rewrite bool_decide_true by done. cbn [andb].
  specialize (IH (match e with ETest t => add_test by_suite outcomes t | _ => outcomes end)). by destruct e.
Qed.

Lemma add_tests_run suites tests :
  if readable suites tests then add_tests (suites_by_label suites) tests = Ok (foldl (add_test (suites_by_label suites)) [] (tests_in tests))
  else ∃ error, add_tests (suites_by_label suites) tests = Throw error.
Proof. destruct tests as [|entries|]; cbn; [done|apply add_entries_run|by eexists]. Qed.

(** The report of a record that can be read, and of one that cannot. *)
Lemma report_run parse suites stdout stderr error :
  let tests := default TNone (lastJsonRecord parse stdout) in
  if readable suites tests then
    reportTestResults parse suites stdout stderr error = Ok
      match foldl (add_test (suites_by_label suites)) [] (tests_in tests) with
      | [] =>
          ROutput (bytes_string (asTerminal (output_text stdout stderr))) ::
          ((λ i, RFailed (it_id i) [TestMessage (if error then "the test run failed" else "the run reported no tests") None] None) <$> suites)
      | o :: os => suite_verdict (o :: os) <$> suites
      end
  else ∃ e, reportTestResults parse suites stdout stderr error = Throw e.
Proof.
  cbv zeta. pose proof (add_tests_run suites (default TNone (lastJsonRecord parse stdout))) as H. unfold reportTestResults.
  destruct (readable _ _); [|destruct H as [e ->]; by eexists]. rewrite H. cbn [mbind res_bind mret res_ret]. by destruct (foldl _ _ _).
Qed.

Lemma report_verdicts parse suites stdout stderr error calls :
  reportTestResults parse suites stdout stderr error = Ok calls → omap verdict_of calls = it_id <$> suites.
Proof.
  pose proof (report_run parse suites stdout stderr error) as H. cbv zeta in H. destruct (readable _ _); [|destruct H as [e ->]; done].
  rewrite H. intros [= <-]. destruct (foldl _ [] _) as [|o os]; simpl.
  - by apply omap_fmap_some.
  - apply omap_fmap_some. intros i. unfold suite_verdict. destruct (mget (it_id i) (o :: os)) as [x|]; [|done].
    destruct (so_failures x); [by destruct (_ =? _)|done].
Qed.

Lemma run_verdict_ids parse suites c withCoverage calls :
  run_verdicts parse suites c withCoverage = Ok calls → omap verdict_of calls = it_id <$> suites.
Proof.
  unfold run_verdicts. destruct withCoverage; simpl; [|apply report_verdicts].
  destruct (co_error c); intros [= <-]; simpl; by apply omap_fmap_some.
Qed.

(** ** Outcomes *)

(** Suites with identifiers and labels of their own. *)
Definition suites_distinct (suites : list item) : Prop := NoDup (it_id <$> suites) ∧ NoDup (it_label <$> suites).

Lemma by_label suites l id :
  NoDup (it_label <$> suites) →
  mget l (suites_by_label suites) = Some id ↔ ∃ i, i ∈ suites ∧ it_label i = l ∧ it_id i = id.
Proof.
  unfold suites_by_label. induction suites as [|i suites IH] using rev_ind; intros Hnd.
  { split; [done|]. intros (i & Hi & _). by apply elem_of_nil in Hi. }
  rewrite fmap_app in Hnd. apply NoDup_app in Hnd as (Hnd & Hx & _). rewrite foldl_snoc. split.
  - intros [[-> ->]|[Hne H]]%mget_mset_Some.
    + exists i. split; [apply elem_of_app; right; left|done].
    + apply IH in H as (j & ? & ?); [|done]. exists j. split; [apply elem_of_app; by left|done].
  - intros (j & [Hj|Hj%list_elem_of_singleton]%elem_of_app & <- & <-); [|subst; by rewrite mget_mset_eq].
    rewrite mget_mset_ne; [apply IH; eauto|]. intros E. apply (Hx (it_label j)); [by apply list_elem_of_fmap; eauto|].
    simpl. rewrite E. left.
Qed.

Definition tests_of (label : string) (tests : list test) : list test := filter (λ t, te_suite t = label) tests.

Lemma outcome_of suites i tests :
  suites_distinct suites → i ∈ suites →
  mget (it_id i) (foldl (add_test (suites_by_label suites)) [] tests) =
  match tests_of (it_label i) tests with
  | [] => None
  | ts => Some (foldl (λ o t, count_test t o) no_outcome ts)
  end.
Proof.
  intros [Hid Hlab] Hi. induction tests as [|t tests IH] using rev_ind; [done|]. rewrite foldl_snoc.
  unfold tests_of in *. rewrite filter_app. unfold add_test at 1.
  destruct (decide (te_suite t = it_label i)) as [E|E].
  - assert (mget (te_suite t) (suites_by_label suites) = Some (it_id i)) as -> by (apply by_label; eauto).
    rewrite mget_mset_eq, IH. rewrite filter_cons_True by done. simpl.
    destruct (filter _ tests) as [|t0 ts]; [done|]. simpl. by rewrite foldl_app.
  - rewrite filter_cons_False by done. rewrite filter_nil, app_nil_r.
    destruct (mget (te_suite t) (suites_by_label suites)) as [id|] eqn:Es; [|done].
    rewrite mget_mset_ne; [done|]. apply by_label in Es as (j & Hj & Hl & Hji); [|done]. intros Heq. apply E.
    rewrite <- Hl. f_equal. clear -Hid Hi Hj Hji Heq. subst id.
    induction suites as [|k suites IH]; [by apply elem_of_nil in Hi|]. rewrite fmap_cons in Hid. apply NoDup_cons in Hid as [Hn Hid].
    apply elem_of_cons in Hi as [->|Hi], Hj as [->|Hj]; [done|..|by apply IH].
    + exfalso. apply Hn, list_elem_of_fmap. eexists. split; [symmetry; exact Heq|done].
    + exfalso. apply Hn, list_elem_of_fmap. eexists. split; [exact Heq|done].
Qed.

(** What an outcome counts. *)
Lemma counted ts o :
  let o' := foldl (λ o t, count_test t o) o ts in
  so_ran o' = so_ran o + zlen ts ∧
  (so_failures o' = [] ↔ so_failures o = [] ∧ ∀ t, t ∈ ts → te_status t ≠ "failed") ∧
  (so_skipped o <= so_skipped o' <= so_skipped o + zlen ts) ∧
  (so_skipped o' = so_skipped o + zlen ts ↔ ∀ t, t ∈ ts → te_status t = "skipped").
Proof.
  revert o. induction ts as [|t ts IH]; intros o; cbn [foldl]; cbv zeta.
  { rewrite zlen_nil. split; [lia|]. split; [|split; [lia|]].
    - split; [intros E; split; [done|]; intros t Ht; by apply elem_of_nil in Ht|by intros []].
    - split; [intros _ t Ht; by apply elem_of_nil in Ht|lia]. }
  destruct (IH (count_test t o)) as (H1 & H2 & H3 & H4). cbv zeta in *. rewrite zlen_cons.
  set (o' := foldl (λ o t, count_test t o) (count_test t o) ts) in *. unfold count_test in H1, H2, H3, H4. simpl in *.
  destruct (String.eqb_spec (te_status t) "failed") as [Ef|Ef]; simpl in *.
  - split; [lia|]. split; [|split; [lia|]].
    + rewrite H2. split; [intros [H _]; by destruct (so_failures o)|]. intros [_ Hall]. by destruct (Hall t ltac:(left)).
    + split; [lia|]. intros Hall. rewrite (Hall t ltac:(left)) in Ef. discriminate.
  - split; [lia|]. split.
    + rewrite H2. split; intros [? Hall]; (split; [done|]).
      * intros t' [->|Ht']%elem_of_cons; [done|by apply Hall].
      * intros t' Ht'. apply Hall. by right.
    + destruct (String.eqb_spec (te_status t) "skipped") as [Es|Es].
      * split; [lia|]. rewrite <- Z.add_assoc in H4. rewrite H4. split.
        -- intros Hall t' [->|Ht']%elem_of_cons; [done|by apply Hall].
        -- intros Hall t' Ht'. apply Hall. by right.
      * split; [lia|]. split; [lia|]. intros Hall. by destruct (Es (Hall t ltac:(left))).
Qed.

Lemma reported_verdict parse suites i stdout stderr error :
  suites_distinct suites → i ∈ suites →
  let ts := tests_of (it_label i) (tests_in (default TNone (lastJsonRecord parse stdout))) in
  ∀ calls, reportTestResults parse suites stdout stderr error = Ok calls →
  ts ≠ [] → ∃ v, v ∈ calls ∧ verdict_of v = Some (it_id i) ∧
  match v with
  | RFailed _ _ _ => ∃ t, t ∈ ts ∧ te_status t = "failed"
  | RSkipped _ => ∀ t, t ∈ ts → te_status t = "skipped"
  | RPassed _ _ => (∀ t, t ∈ ts → te_status t ≠ "failed") ∧ ∃ t, t ∈ ts ∧ te_status t ≠ "skipped"
  | _ => False
  end.
Proof.
  intros Hd Hi ts calls Hcalls Hts.
  pose proof (report_run parse suites stdout stderr error) as H. cbv zeta in H. destruct (readable _ _); [|by destruct H as [e He]; rewrite He in Hcalls].
  rewrite H in Hcalls. injection Hcalls as <-. clear H.
  pose proof (outcome_of suites i (tests_in (default TNone (lastJsonRecord parse stdout))) Hd Hi) as Ho. fold ts in Ho.
  destruct (foldl _ [] _) as [|o os]; [by destruct ts|]. exists (suite_verdict (o :: os) i).
  split; [apply list_elem_of_fmap; eauto|]. unfold suite_verdict.
  assert (mget (it_id i) (o :: os) = Some (foldl (λ o t, count_test t o) no_outcome ts)) as -> by (rewrite Ho; by destruct ts).
  destruct (counted ts no_outcome) as (H1 & H2 & H3 & H4). cbv zeta in *. clear Ho. revert H1 H2 H3 H4.
  set (x := foldl _ no_outcome ts). simpl. intros H1 H2 H3 H4.
  destruct (so_failures x) as [|m ms] eqn:Ef; simpl.
  - destruct (proj1 H2 eq_refl) as [_ Hf]. destruct (Z.eqb_spec (so_skipped x) (so_ran x)) as [Es|Es]; (split; [done|]).
    + apply H4. lia.
    + split; [done|]. destruct (decide (Exists (λ t, te_status t ≠ "skipped") ts)) as [(t & ? & ?)%Exists_exists|Hn]; [eauto|].
      exfalso. apply Es. rewrite H1. apply H4. intros t Ht. destruct (decide (te_status t = "skipped")); [done|].
      exfalso. apply Hn, Exists_exists. eauto.
  - split; [done|]. destruct (decide (Exists (λ t, te_status t = "failed") ts)) as [(t & ? & ?)%Exists_exists|Hn]; [eauto|].
    exfalso. assert (m :: ms = []) as E; [|done]. apply H2. split; [done|]. intros t Ht Hf. apply Hn, Exists_exists. eauto.
Qed.

End Reports.

(** Two suites; one has a failing test, the other was skipped. *)
Definition demo_suites : list item := [Item "w" "workspace" [Item "w/a" "a" []; Item "w/b" "b" []]].
Definition demo_tests : tests_field (D:=Z) :=
  TList [ETest (Test "a" "adds" "passed" (Some 3) None VUndef None); EOther;
   ETest (Test "b" "waits" "skipped" None None VUndef None);
   ETest (Test "a" "divides" "failed" (Some 4) (Some (Failure (Some "by zero") (VStr "src/div.nupp") (Some 7))) VUndef None)].
Definition demo_record (tests : tests_field (D:=Z)) (line : list byte) : option (tests_field (D:=Z)) :=
  if bool_decide (line = [x7b; x7d]) then Some tests else None.
Definition demo_command : command := Command true [x6f; x6b; x0a; x20; x7b; x7d; x0a] [].


(** A record with a [null] among its tests, or whose tests are a number: the report throws, and VS Code hears of no verdict and no end. *)
Example unreadable_record :
  runTests 0 Z.add (demo_record (TList [ENull])) demo_suites None [] demo_command false false ([], None) =
    ([REnqueued "w/a"; REnqueued "w/b"; RStarted "w/a"; RStarted "w/b"], Some "Cannot read properties of null (reading 'suite')") ∧
  (runTests 0 Z.add (demo_record TNotIterable) demo_suites None [] demo_command false false ([], None)).2 = Some "tests is not iterable".
Proof. split; vm_compute; reflexivity. Qed.
