(* ===== verification/Audio.v ===== *)
(** Audio of a packaged application, [src/runtime/wasm/audio.mjs] and the processor it plays
    through, [src/runtime/wasm/audio-worklet.mjs].

    A handler on the page takes interleaved float samples from the application and posts them
    to the processor, which keeps a queue and fills one quantum of each output channel at a
    time.  A sample is the 32 bits of its float.  What the page posts is whole frames, so the
    processor's count of queued frames is a whole number.  The audio context and node are the
    browser's. *)

From S2P Require Import Prelude.

(** ** Data *)

Abbreviation sample := Z (only parsing).
Definition SILENCE : sample := 0.
Definition NAN : sample := 2143289344.

Record processor := Processor {
  au_channels : nat;
  au_bufferAhead : Z;
  au_chunks : list (list sample);
  au_offset : nat;
  au_queued : Z;
  au_playing : bool;
  au_underruns : Z;
  au_played : Z
}.

Record audio_stats := AudioStats { as_underruns : Z; as_queuedFrames : Z; as_playedFrames : Z }.

(** What the page posts to the processor's port. *)
Inductive audio_message := AStats | ASamples (samples : list sample).

(** ** The page *)

(** The checks of [audioStream]: its channels when the options are good. *)
Definition audioStream (kind channels : jsval) (bufferAheadPositive : bool) : res nat :=
  if negb (is_string kind) then Throw "an audio stream needs the kind the application sends on"
  else match to_integer channels with
  | Some n =>
      if (n <? 1) || (8 <? n) then Throw "audio channels must be 1 to 8"
      else if negb bufferAheadPositive then Throw "bufferAheadMs must be positive"
      else Ok (Z.to_nat n)
  | None => Throw "audio channels must be 1 to 8"
  end.

(** [new Float32Array(n)] filled through its bytes. *)
Fixpoint float_samples (n : nat) (bytes : list byte) : list sample :=
  match n with
  | O => []
  | S n' => le_combine (take 4 bytes) :: float_samples n' (drop 4 bytes)
  end.

(** The handler of the stream's kind: the samples it posts; [None] is an argument that is no
    byte array. *)
Definition audio_handler (kind : string) (channels : nat) (bytes : option (list byte)) : res (list sample) :=
  match bytes with
  | Some bytes =>
      if negb (zlen bytes mod (4 * Z.of_nat channels) =? 0)
      then Throw ("audio stream " +:+ kind +:+ " sends whole frames of " +:+ pretty channels +:+ " float samples")
      else Ok (float_samples (length bytes / 4) bytes)
  | None => Throw ("audio stream " +:+ kind +:+ " sends whole frames of " +:+ pretty channels +:+ " float samples")
  end.

(** [stats()] and the node's [onmessage]: one promise is remembered, the latest. *)
Record audio_page := AudioPage { ap_next : Z; ap_pending : option Z; ap_posted : list audio_message; ap_settled : list (Z * audio_stats) }.

Definition stats : js audio_page Z :=
  n ← gets ap_next;
  modify (λ p, AudioPage (n + 1) (Some n) (ap_posted p ++ [AStats]) (ap_settled p));;
  mret n.

Definition node_message (data : audio_stats) : js audio_page () :=
  modify (λ p, AudioPage (ap_next p) None (ap_posted p)
    (match ap_pending p with Some n => ap_settled p ++ [(n, data)] | None => ap_settled p end)).

(** ** The processor *)

Definition new_processor (channels : nat) (bufferAhead : Z) : processor := Processor channels bufferAhead [] 0 0 false 0 0.

(** [port.onmessage]. *)
Definition port_message (m : audio_message) : js processor (option audio_stats) :=
  match m with
  | AStats => gets (λ s, Some (AudioStats (au_underruns s) (au_queued s) (au_played s)))
  | ASamples samples =>
      modify (λ s, Processor (au_channels s) (au_bufferAhead s) (au_chunks s ++ [samples]) (au_offset s)
        (au_queued s + zlen samples / Z.of_nat (au_channels s)) (au_playing s) (au_underruns s) (au_played s));;
      mret None
  end.

(** One frame of every output channel; an index past the chunk reads [undefined], which a
    float array holds as a NaN. *)
Definition put_frame (frame : nat) (chunk : list sample) (offset channels : nat) (output : list (list sample)) : list (list sample) :=
  imap (λ channel ch, <[frame := default NAN (chunk !! (offset + Nat.min channel (channels - 1))%nat)]> ch) output.

(** [channel.fill(0, frame)]. *)
Definition fill_from (frame : nat) (ch : list sample) : list sample := take frame ch ++ replicate (length ch - frame) SILENCE.

(** The loop over frames, [n] of them left. *)
Fixpoint process_frames (n frame : nat) (s : processor) (output : list (list sample)) : processor * list (list sample) :=
  match n with
  | O => (s, output)
  | S n' =>
      match au_chunks s with
      | [] =>
          (Processor (au_channels s) (au_bufferAhead s) [] (au_offset s) (au_queued s) false (au_underruns s + 1) (au_played s),
           fill_from frame <$> output)
      | chunk :: rest =>
          let output' := put_frame frame chunk (au_offset s) (au_channels s) output in
          let offset := (au_offset s + au_channels s)%nat in
          let '(chunks', offset') := if (length chunk <=? offset)%nat then (rest, 0%nat) else (chunk :: rest, offset) in
          process_frames n' (S frame)
            (Processor (au_channels s) (au_bufferAhead s) chunks' offset' (au_queued s - 1) (au_playing s) (au_underruns s)
               (au_played s + 1)) output'
      end
  end.

(** [process(_, outputs)] on its one output. *)
Definition process (output : list (list sample)) (s : processor) : processor * list (list sample) :=
  let frames := match output with ch :: _ => length ch | [] => 0%nat end in
  if negb (au_playing s) && (au_queued s <? au_bufferAhead s) then (s, output)
  else
    process_frames frames 0
      (Processor (au_channels s) (au_bufferAhead s) (au_chunks s) (au_offset s) (au_queued s) true (au_underruns s) (au_played s)) output.

(** ** The queue of a processor *)

(** The samples still to play. *)
Definition content (s : processor) : list sample := drop (au_offset s) (concat (au_chunks s)).

(** Without empty chunks; [empty_send_plays_nan] below is about a run with one. *)
Record processor_wf (s : processor) : Prop := ProcessorWf {
  aw_channels : (0 < au_channels s)%nat;
  aw_chunks : ∀ ch, ch ∈ au_chunks s → ch ≠ [] ∧ (length ch mod au_channels s = 0)%nat;
  aw_offset : (au_offset s mod au_channels s = 0)%nat;
  aw_inside : match au_chunks s with [] => au_offset s = 0%nat | ch :: _ => (au_offset s < length ch)%nat end;
  aw_queued : au_queued s * Z.of_nat (au_channels s) = zlen (content s)
}.

Lemma mod_room a b c : (0 < c)%nat → (a mod c = 0)%nat → (b mod c = 0)%nat → (a < b)%nat → (a + c <= b)%nat.
Proof.
  intros Hc Ha Hb Hlt. apply Nat.Div0.mod_divides in Ha as [x ->]. apply Nat.Div0.mod_divides in Hb as [y ->]. assert (x < y)%nat by (apply Nat.mul_lt_mono_pos_l in Hlt; lia). nia.
Qed.

(** Samples that arrive join the queue's end. *)
Lemma samples_arrive s samples :
  processor_wf s → samples ≠ [] → (length samples mod au_channels s = 0)%nat →
  let s' := (port_message (ASamples samples) s).2 in
  processor_wf s' ∧ content s' = content s ++ samples.
Proof.
  intros [C H O I Q] Hne Hm s'.
  assert (content s' = content s ++ samples) as E.
  { unfold content, s'. simpl. rewrite concat_app. simpl. rewrite app_nil_r.
    destruct (au_chunks s) as [|ch rest]; [by rewrite I|]. apply drop_app_le. simpl. rewrite length_app. lia. }
  split; [|done]. split; try done; simpl.
  - intros ch [Hc| ->%list_elem_of_singleton]%elem_of_app; [by apply H|done].
  - destruct (au_chunks s) as [|ch rest]; [|done]. simpl. destruct samples; [done|]. simpl. lia.
  - rewrite E, zlen_app, Z.mul_add_distr_r, Q. f_equal. unfold zlen.
    apply Nat.Div0.mod_divides in Hm as [x ->]. rewrite Nat2Z.inj_mul, (Z.mul_comm (Z.of_nat (au_channels s)) (Z.of_nat x)).
    rewrite Z.div_mul by lia. done.
Qed.

(** One frame is the queue's first, and leaves the rest. *)
Lemma frame_step s ch rest :
  processor_wf s → au_chunks s = ch :: rest →
  let offset := (au_offset s + au_channels s)%nat in
  let '(chunks', offset') := if (length ch <=? offset)%nat then (rest, 0%nat) else (ch :: rest, offset) in
  let s' := Processor (au_channels s) (au_bufferAhead s) chunks' offset' (au_queued s - 1) (au_playing s) (au_underruns s) (au_played s + 1) in
  processor_wf s' ∧ content s' = drop (au_channels s) (content s) ∧ (au_channels s <= length (content s))%nat ∧
  ∀ j, (j < au_channels s)%nat → ch !! (au_offset s + j)%nat = content s !! j.
Proof.
  intros [C H O I Q] E offset. rewrite E in I. destruct (H ch ltac:(rewrite E; left)) as [Hne Hm].
  pose proof (mod_room _ _ _ C O Hm I) as Hroom.
  assert (content s = drop (au_offset s) ch ++ concat rest) as Hc by (unfold content; rewrite E; simpl; apply drop_app_le; lia).
  assert (au_channels s <= length (content s))%nat as Hl by (rewrite Hc, length_app, length_drop; lia).
  assert (∀ j, (j < au_channels s)%nat → ch !! (au_offset s + j)%nat = content s !! j) as Hj.
  { intros j Hj. rewrite Hc, lookup_app_l by (rewrite length_drop; lia). by rewrite lookup_drop. }
  destruct (Nat.leb_spec (length ch) offset) as [Hle|Hlt].
  - assert (content (Processor (au_channels s) (au_bufferAhead s) rest 0 (au_queued s - 1) (au_playing s) (au_underruns s)
      (au_played s + 1)) = drop (au_channels s) (content s)) as Hd.
    { unfold content at 1. simpl. rewrite Hc. rewrite drop_app_ge by (rewrite length_drop; lia).
      rewrite length_drop. replace (au_channels s - (length ch - au_offset s))%nat with 0%nat by lia. done. }
    split; [|done]. split; simpl; try done.
    + intros c Hin. apply H. rewrite E. by right.
    + apply Nat.Div0.mod_0_l.
    + destruct rest as [|c rest]; [done|]. destruct (H c ltac:(rewrite E; right; left)) as [? _]. destruct c; [done|]. simpl. lia.
    + rewrite Hd. unfold zlen. rewrite length_drop. unfold zlen in Q. lia.
  - assert (content (Processor (au_channels s) (au_bufferAhead s) (ch :: rest) offset (au_queued s - 1) (au_playing s) (au_underruns s)
      (au_played s + 1)) = drop (au_channels s) (content s)) as Hd.
    { unfold content. simpl. rewrite E. simpl. rewrite drop_drop. done. }
    split; [|done]. split; simpl; try done.
    + intros c Hin. apply H. by rewrite E.
    + unfold offset. rewrite <- Nat.Div0.add_mod_idemp_l, O. simpl. apply Nat.Div0.mod_same.
    + rewrite Hd. unfold zlen. rewrite length_drop. unfold zlen in Q. lia.
Qed.

(** The frames a quantum of [n] can be given. *)
Definition available (n : nat) (s : processor) : nat := Nat.min n (length (content s) / au_channels s).

Lemma available_step n c l : (0 < c)%nat → (c <= l)%nat → Nat.min (S n) (l / c) = S (Nat.min n ((l - c) / c)).
Proof.
  intros Hc Hl. replace (l / c)%nat with (S ((l - c) / c))%nat; [lia|].
  replace l with ((l - c) + 1 * c)%nat at 2 by lia. rewrite Nat.div_add by lia. lia.
Qed.

Lemma put_frame_lookup frame chunk offset channels output c ch :
  output !! c = Some ch →
  put_frame frame chunk offset channels output !! c =
  Some (<[frame := default NAN (chunk !! (offset + Nat.min c (channels - 1))%nat)]> ch).
Proof. intros H. unfold put_frame. by rewrite list_lookup_imap, H. Qed.

Lemma process_frames_spec n frame s output :
  processor_wf s →
  let k := available n s in
  let '(s', output') := process_frames n frame s output in
  processor_wf s' ∧ au_channels s' = au_channels s ∧ content s' = drop (k * au_channels s) (content s) ∧
  au_played s' = au_played s + Z.of_nat k ∧
  au_underruns s' = au_underruns s + (if decide (k < n)%nat then 1 else 0) ∧
  au_playing s' = (if decide (k < n)%nat then false else au_playing s) ∧
  ∀ c ch, output !! c = Some ch → (frame + n <= length ch)%nat → ∃ ch', output' !! c = Some ch' ∧ length ch' = length ch ∧
    ∀ f, (f < frame + n)%nat → ch' !! f =
      if decide (f < frame)%nat then ch !! f
      else if decide (f - frame < k)%nat then content s !! ((f - frame) * au_channels s + Nat.min c (au_channels s - 1))%nat
      else Some SILENCE.
Proof.
  revert frame s output. induction n as [|n IH]; intros frame s output W; cbn [process_frames]; cbv zeta.
  { unfold available. simpl. do 3 (split; [done|]). split; [lia|]. split; [rewrite Z.add_0_r; done|]. split; [done|].
    intros c ch Hc Hl. exists ch. split; [done|]. split; [done|]. intros f Hf. by rewrite decide_True by lia. }
  destruct (au_chunks s) as [|chunk rest] eqn:E.
  - destruct W as [C H O I Q]. rewrite E in I. assert (content s = []) as Hc by (unfold content; by rewrite E, I).
    assert (available (S n) s = 0%nat) as Ha.
    { unfold available. rewrite Hc. change (length (@nil Z)) with 0%nat. rewrite Nat.Div0.div_0_l. lia. }
    rewrite Ha. rewrite !decide_True by lia. simpl. split; [|split; [done|]; split; [|split; [lia|]; split; [done|]; split; [done|]]].
    + split; simpl; [done|intros ch Hch; by apply elem_of_nil in Hch|done|done|]. rewrite Q, Hc. unfold content. simpl. by rewrite I.
    + rewrite Hc. unfold content. simpl. by rewrite I.
    + intros c ch Hch Hl. exists (fill_from frame ch). rewrite list_lookup_fmap, Hch. split; [done|].
      unfold fill_from. split; [rewrite length_app, length_take, length_replicate; lia|]. intros f Hf. case_decide.
      * rewrite lookup_app_l, lookup_take_lt by (rewrite ?length_take; lia). done.
      * try rewrite decide_False by lia. rewrite lookup_app_r by (rewrite length_take; lia). rewrite length_take.
        apply lookup_replicate. split; [done|]. lia.
  - pose proof (frame_step s chunk rest W E) as Hs. cbv zeta in Hs.
    destruct (if (length chunk <=? au_offset s + au_channels s)%nat then _ else _) as [chunks' offset'].
    destruct Hs as (W' & Hc & Hl & Hj). set (s1 := Processor _ _ _ _ _ _ _ _) in *.
    specialize (IH (S frame) s1 (put_frame frame chunk (au_offset s) (au_channels s) output) W'). cbv zeta in IH.
    assert (available (S n) s = S (available n s1)) as Ha.
    { unfold available. rewrite Hc, length_drop. apply available_step; [apply W|done]. }
    rewrite Ha. destruct (process_frames n (S frame) s1 _) as [s' output'].
    destruct IH as (W2 & Hch & Hco & Hpl & Hun & Hpg & Hout). change (au_channels s1) with (au_channels s) in *.
    split; [done|]. split; [done|]. split; [rewrite Hco, Hc, drop_drop; f_equal; lia|].
    split; [rewrite Hpl; simpl; lia|]. split; [rewrite Hun; simpl; repeat case_decide; lia|].
    split; [rewrite Hpg; simpl; repeat case_decide; done || lia|].
    intros c ch Hch' Hlen. pose proof (put_frame_lookup frame chunk (au_offset s) (au_channels s) output c ch Hch') as Hp.
    destruct (Hout c _ Hp) as (ch' & ? & Hlen' & Hf); [rewrite length_insert; lia|].
    exists ch'. split; [done|]. split; [by rewrite Hlen', length_insert|]. intros f Hlt. rewrite Hf by lia.
    pose proof (aw_channels s W) as Hpos. destruct (decide (f < frame)%nat).
    + rewrite decide_True by lia. rewrite list_lookup_insert_ne by lia. done.
    + destruct (decide (f = frame)) as [->|].
      * rewrite decide_True by lia. rewrite list_lookup_insert_eq by lia. rewrite decide_True by lia.
        rewrite Nat.sub_diag. simpl. rewrite Hj by lia.
        destruct (content s !! Nat.min c (au_channels s - 1)) eqn:El; [done|]. apply lookup_ge_None in El. lia.
      * rewrite decide_False by lia. rewrite Hc. destruct (decide (f - S frame < available n s1)%nat).
        -- rewrite decide_True by lia. rewrite lookup_drop. f_equal.
           replace (f - frame)%nat with (S (f - S frame))%nat by lia. lia.
        -- by rewrite decide_False by lia.
Qed.

(** One quantum, from a queue in order. *)
Lemma quantum_plays s output frames :
  processor_wf s → output ≠ [] → (∀ ch, ch ∈ output → length ch = frames) →
  let '(s', output') := process output s in
  if negb (au_playing s) && (au_queued s <? au_bufferAhead s) then s' = s ∧ output' = output
  else
    let k := available frames s in
    content s' = drop (k * au_channels s) (content s) ∧ au_played s' = au_played s + Z.of_nat k ∧
    au_underruns s' = au_underruns s + (if decide (k < frames)%nat then 1 else 0) ∧
    au_playing s' = negb (bool_decide (k < frames)%nat) ∧
    ∀ c ch', output' !! c = Some ch' → length ch' = frames ∧
      ∀ f, (f < frames)%nat → ch' !! f =
        if decide (f < k)%nat then content s !! (f * au_channels s + Nat.min c (au_channels s - 1))%nat else Some SILENCE.
Proof.
  intros W Hne Hlen. unfold process. destruct (_ && _); [done|].
  set (s1 := Processor _ _ _ _ _ true _ _).
  assert (processor_wf s1) as W1 by (destruct W; by split).
  assert (match output with [] => 0%nat | ch :: _ => length ch end = frames) as -> by (destruct output; [done|]; apply Hlen; left).
  pose proof (process_frames_spec frames 0 s1 output W1) as H. cbv zeta in H.
  assert (length (process_frames frames 0 s1 output).2 = length output) as Hl.
  { clear. generalize 0%nat. generalize s1. clear s1. revert output. induction frames as [|n IH]; intros o t frame; simpl; [done|].
    destruct (au_chunks t); simpl; [by rewrite length_fmap|]. destruct (if (_ <=? _)%nat then _ else _).
    rewrite IH. unfold put_frame. by rewrite length_imap. }
  destruct (process_frames frames 0 s1 output) as [s' output']. change (available frames s1) with (available frames s) in H.
  destruct H as (W' & Hch & Hco & Hpl & Hun & Hpg & Hout). cbv zeta. split; [done|]. split; [done|]. split; [done|].
  split; [rewrite Hpg; case_bool_decide; [by rewrite decide_True|by rewrite decide_False]|]. intros c ch' Hc.
  destruct (lookup_lt_is_Some_2 output c) as [ch Hc0]; [apply lookup_lt_Some in Hc; simpl in Hl; lia|].
  pose proof (Hlen ch (list_elem_of_lookup_2 _ _ _ Hc0)) as Hf. destruct (Hout c ch Hc0) as (ch1 & E & El & Hv); [lia|].
  rewrite E in Hc. injection Hc as ->. split; [lia|]. intros f Hlt. rewrite Hv by lia. rewrite decide_False by lia.
  by rewrite Nat.sub_0_r.
Qed.

(** ** Runs *)

(** The application sends, the page asks for the counts, the audio thread asks for a quantum. *)
Inductive audio_op := OSend (bytes : option (list byte)) | OStats | OQuantum (output : list (list sample)).

Section Runs.
Context (kind : string) (channels : nat) (bufferAhead : Z).

(** The samples a send posts to the processor; a refused one posts none. *)
Definition posted (op : audio_op) : option (list sample) :=
  match op with
  | OSend bytes => match audio_handler kind channels bytes with Ok samples => Some samples | Throw _ => None end
  | _ => None
  end.

Definition audio_step (s : processor) (op : audio_op) : processor :=
  match op with
  | OSend _ => match posted op with Some samples => (port_message (ASamples samples) s).2 | None => s end
  | OStats => (port_message AStats s).2
  | OQuantum output => (process output s).1
  end.
Definition run_audio (ops : list audio_op) : processor := foldl audio_step (new_processor channels bufferAhead) ops.

Definition sent (ops : list audio_op) : list sample := concat (omap posted ops).

(** No send is empty. *)
Definition sends_something (op : audio_op) : bool := match op with OSend (Some []) => false | _ => true end.

Lemma length_float_samples n bytes : length (float_samples n bytes) = n.
Proof. revert bytes. induction n as [|n IH]; intros bytes; simpl; [done|]. by rewrite IH. Qed.

Lemma posted_frames op samples :
  (0 < channels)%nat → sends_something op = true → posted op = Some samples → samples ≠ [] ∧ (length samples mod channels = 0)%nat.
Proof.
  intros Hc Hs. destruct op as [[bytes|]| |]; try done. cbn [posted audio_handler].
  destruct (Z.eqb_spec (zlen bytes mod (4 * Z.of_nat channels)) 0) as [Hm|]; [|done]. cbn [negb]. intros H. assert (samples = float_samples (length bytes / 4) bytes) as -> by congruence. clear H. rewrite length_float_samples. apply Z.mod_divide in Hm as [q Hq]; [|lia].
  assert (length bytes = Z.to_nat q * channels * 4)%nat as E by (unfold zlen in Hq; nia).
  rewrite E. rewrite Nat.div_mul by lia. split; [|apply Nat.Div0.mod_mul].
  intros Hn%(f_equal length). rewrite length_float_samples in Hn. simpl in Hn. rewrite Hn in E. by destruct bytes.
Qed.

(** What is queued is what was sent and not yet played. *)
Record audio_run_ok (ops : list audio_op) (s : processor) : Prop := {
  ru_wf : processor_wf s;
  ru_channels : au_channels s = channels;
  ru_played : 0 <= au_played s;
  ru_content : sent ops = take (Z.to_nat (au_played s) * channels) (sent ops) ++ content s;
  ru_bound : (Z.to_nat (au_played s) * channels <= length (sent ops))%nat
}.

Lemma run_ok_take ops s :
  processor_wf s → au_channels s = channels → 0 <= au_played s → (Z.to_nat (au_played s) * channels <= length (sent ops))%nat →
  content s = drop (Z.to_nat (au_played s) * channels) (sent ops) → audio_run_ok ops s.
Proof. intros ? ? ? ? Hc. split; try done. by rewrite Hc, take_drop. Qed.

Lemma run_ok_content ops s : audio_run_ok ops s → content s = drop (Z.to_nat (au_played s) * channels) (sent ops).
Proof.
  intros [W C P E B]. rewrite E at 1. rewrite drop_app_ge by (rewrite length_take; lia). rewrite length_take.
  replace (_ - _)%nat with 0%nat by lia. done.
Qed.

Lemma sent_snoc ops op : sent (ops ++ [op]) = sent ops ++ default [] (posted op).
Proof. unfold sent. rewrite omap_app, concat_app. simpl. by destruct (posted op); simpl; rewrite ?app_nil_r. Qed.

Lemma step_ok ops s op :
  (0 < channels)%nat → sends_something op = true → audio_run_ok ops s → audio_run_ok (ops ++ [op]) (audio_step s op).
Proof.
  intros Hc Hs H. pose proof (run_ok_content ops s H) as Hd. destruct H as [W C P E B]. destruct op as [bytes| |output].
  - cbn [audio_step]. destruct (posted (OSend bytes)) as [samples|] eqn:Hp.
    + destruct (posted_frames _ _ Hc Hs Hp) as [Hne Hm]. rewrite <- C in Hm. destruct (samples_arrive s samples W Hne Hm) as [W' Hc'].
      assert (au_played (port_message (ASamples samples) s).2 = au_played s) as Hpl by done.
      apply run_ok_take; rewrite ?Hpl, ?sent_snoc, ?Hp; cbn [from_option id]; try done; [rewrite length_app; lia|].
      rewrite Hc', Hd, drop_app_le by lia. done.
    + apply run_ok_take; rewrite ?sent_snoc, ?Hp, ?app_nil_r; done.
  - apply run_ok_take; rewrite ?sent_snoc; simpl; rewrite ?app_nil_r; done.
  - cbn [audio_step]. unfold process. destruct (negb (au_playing s) && _).
    { apply run_ok_take; rewrite ?sent_snoc; simpl; rewrite ?app_nil_r; done. }
    set (n := match output with [] => 0%nat | ch :: _ => length ch end). set (s1 := Processor _ _ _ _ _ true _ _).
    assert (processor_wf s1) as W1 by (destruct W; by split).
    pose proof (process_frames_spec n 0 s1 output W1) as H. cbv zeta in H. destruct (process_frames n 0 s1 output) as [s' output'].
    destruct H as (W' & C' & Hco & Hpl & _). simpl. change (available n s1) with (available n s) in *.
    change (content s1) with (content s) in *. change (au_played s1) with (au_played s) in *. change (au_channels s1) with (au_channels s) in *.
    assert (available n s * channels <= length (content s))%nat as Hav.
    { unfold available. rewrite C. pose proof (Nat.Div0.mul_div_le (length (content s)) channels). nia. }
    rewrite Hd, length_drop in Hav. replace (Z.to_nat (au_played s')) with (Z.to_nat (au_played s) + available n s)%nat by lia.
    apply run_ok_take; rewrite ?sent_snoc; simpl; rewrite ?app_nil_r; try done; [congruence|lia|nia|].
    replace (Z.to_nat (au_played s')) with (Z.to_nat (au_played s) + available n s)%nat by lia.
    rewrite Hco, Hd, C, drop_drop. f_equal. lia.
Qed.

Lemma run_audio_ok ops :
  (0 < channels)%nat → Forall (λ op, sends_something op = true) ops → audio_run_ok ops (run_audio ops).
Proof.
  intros Hc. induction ops as [|op ops IH] using rev_ind; intros Hs.
  - apply run_ok_take; try done. split; simpl; try done; [intros ch Hch; by apply elem_of_nil in Hch|].
    by apply Nat.Div0.mod_0_l.
  - apply Forall_app in Hs as [Hs1 [Hs2 _]%Forall_cons]. unfold run_audio. rewrite foldl_app. by apply step_ok; [|..|apply IH].
Qed.
End Runs.

(** C26 The stream is played in order.  In any run of sends, requests for counts and quanta in which no send is empty (the
    handler accepts an empty one, after which the count is wrong and a NaN is played), what was sent so far is what was played, in
    order, followed by the queue, and the counts of played and queued frames are exact.  The next quantum: while the
    processor waits for its buffer-ahead it leaves the output and the queue alone; otherwise it takes as many frames as the quantum
    holds and the queue has, each output channel gets, frame by frame, the queue's samples of its channel (the last one for
    channels beyond those sent) and silence after them, those samples leave the queue, and a quantum it could not fill whole, and only
    that, counts one underrun and stops playback until the buffer-ahead is there again.  A stream and an
    output have at least one channel, and an output's channels are of one length. *)
Theorem audio_plays_in_order kind channels bufferAhead ops output frames :
  (0 < channels)%nat → Forall (λ op, sends_something op = true) ops → output ≠ [] → (∀ ch, ch ∈ output → length ch = frames) →
  let s := run_audio kind channels bufferAhead ops in
  let '(s', output') := process output s in
  0 <= au_played s ∧ sent kind channels ops = take (Z.to_nat (au_played s) * channels) (sent kind channels ops) ++ content s ∧
  (Z.to_nat (au_played s) * channels <= length (sent kind channels ops))%nat ∧
  au_queued s * Z.of_nat channels = zlen (content s) ∧ au_queued s' * Z.of_nat channels = zlen (content s') ∧
  if negb (au_playing s) && (au_queued s <? au_bufferAhead s) then s' = s ∧ output' = output
  else
    let k := available frames s in
    content s' = drop (k * channels) (content s) ∧ au_played s' = au_played s + Z.of_nat k ∧
    au_underruns s' = au_underruns s + (if decide (k < frames)%nat then 1 else 0) ∧
    au_playing s' = negb (bool_decide (k < frames)%nat) ∧
    ∀ c ch', output' !! c = Some ch' → length ch' = frames ∧
      ∀ f, (f < frames)%nat → ch' !! f =
        if decide (f < k)%nat then content s !! (f * channels + Nat.min c (channels - 1))%nat else Some SILENCE.
Proof.
  intros Hc Hs Hne Hlen s. pose proof (run_audio_ok kind channels bufferAhead ops Hc Hs) as Hok. fold s in Hok.
  pose proof (step_ok kind channels ops s (OQuantum output) Hc eq_refl Hok) as [W' C' _ _ _]. cbn [audio_step] in W', C'.
  destruct Hok as [W C P E B]. pose proof (quantum_plays s output frames W Hne Hlen) as H. rewrite C in H.
  destruct (process output s) as [s' output']. simpl in W', C'. split; [done|]. split; [done|]. split; [done|].
  split; [rewrite <- C; apply W|]. split; [rewrite <- C'; apply W'|]. exact H.
Qed.

(** A stereo stream given two frames in a quantum of three. *)
Definition demo_ops : list audio_op :=
  [OSend (Some [x01; x00; x00; x00; x02; x00; x00; x00]); OStats; OSend (Some [x03; x00; x00; x00; x04; x00; x00; x00]); OSend (Some [x05])].
Definition demo_processor : processor := run_audio "app.audio" 2 2 demo_ops.

Lemma audio_plays_in_order_witness :
  (process [[9; 9; 9]; [9; 9; 9]; [9; 9; 9]] demo_processor).2 = [[1; 3; 0]; [2; 4; 0]; [2; 4; 0]] ∧
  au_underruns (process [[9; 9; 9]; [9; 9; 9]; [9; 9; 9]] demo_processor).1 = 1 ∧
  au_queued (process [[9; 9; 9]; [9; 9; 9]; [9; 9; 9]] demo_processor).1 * 2 =
    zlen (content (process [[9; 9; 9]; [9; 9; 9]; [9; 9; 9]] demo_processor).1).
Proof.
  split; [vm_compute; reflexivity|]. split; [vm_compute; reflexivity|].
  pose proof (audio_plays_in_order "app.audio" 2 2 demo_ops [[9; 9; 9]; [9; 9; 9]; [9; 9; 9]] 3) as H. cbv zeta in H. fold demo_processor in H.
  destruct (process _ demo_processor) as [s' o']. apply H; [lia|repeat (constructor; [reflexivity|]); constructor|discriminate|].
  intros ch Hch. repeat (apply elem_of_cons in Hch as [->|Hch]; [reflexivity|]). by apply elem_of_nil in Hch.
Defined.

(** The handler takes an empty send for whole frames, and the processor then plays a frame no
    one sent, a NaN on every channel, and counts the queue one frame short. *)
Example empty_send_plays_nan :
  audio_handler "app.audio" 2 (Some []) = Ok [] ∧
  let s := (port_message (ASamples []) (new_processor 2 0)).2 in
  (process [[9]; [9]] s).2 = [[NAN]; [NAN]] ∧ au_queued (process [[9]; [9]] s).1 = -1.
Proof. vm_compute. done. Qed.

(** A second [stats()] before the first is answered leaves the first unanswered for good. *)
Example stats_forgets_first :
  let p := (stats ((stats (AudioPage 1 None [] [])).2)).2 in
  let d := AudioStats 0 0 0 in
  ap_settled (node_message d (node_message d p).2).2 = [(2, d)].
Proof. vm_compute. done. Qed.
