(* ===== verification/Compiler.v ===== *)
(** The compiler as a service: [createCompiler] of [src/runtime/luajit/host.mjs], which speaks
    to a guest one request at a time, and the playground's Worker that queues requests for it,
    [src/editors/playground/src/luajit-worker.js].

    Each [await] ends an operation; what follows it is an operation of its own that runs when
    the promise of the guest's [receive] has settled.  A request's header is opaque, its source
    the UTF-8 bytes the encoder makes of it. *)

From S2P Require Import Prelude Guest.

Section Compiler.
Context {H A : Type}.

(** ** The compiler *)

(** [result] of a frame. *)
Record compiler_result := CompilerResult {
  cr_ready : bool;
  cr_ok : bool;
  cr_error : option string;
  cr_response : A
}.

(** The response posted to the guest: the header, and whether it names a payload. *)
Abbreviation cguest := (guest (option compiler_result) (H * bool)).
Abbreviation cframe := (@guest_frame (option compiler_result)).

Record compiler := Compiler {
  co_guest : cguest;
  co_busy : bool;
  co_waiting : option Z
}.

(** [error || text]. *)
Definition error_or (e : option string) (text : string) : string :=
  match e with Some s => if String.eqb s "" then text else s | None => text end.

(** The checks on the first frame, and on an answer. *)
Definition first_checked (f : cframe) : res () :=
  match gf_result f with
  | None => if String.eqb (gf_type f) "compiler" then Throw "Cannot read properties of undefined (reading 'ready')"
            else Throw "Compiler failed to initialize"
  | Some r => if negb (String.eqb (gf_type f) "compiler") || negb (cr_ready r)
              then Throw (error_or (cr_error r) "Compiler failed to initialize") else Ok tt
  end.

Definition answer_checked (f : cframe) : res A :=
  match gf_result f with
  | None => if String.eqb (gf_type f) "compiler" then Throw "Cannot read properties of undefined (reading 'ok')"
            else Throw "Cannot read properties of undefined (reading 'error')"
  | Some r => if negb (String.eqb (gf_type f) "compiler") || negb (cr_ok r)
              then Throw (error_or (cr_error r) "Invalid compiler result") else Ok (cr_response r)
  end.

(** [createCompiler] up to its [await]: the guest and the promise it waits for. *)
Definition createCompiler (options : guest_options) (aborted : option string) : cguest * Z :=
  match receive (createGuest options aborted) with
  | (Ok p, g) => (g, p)
  | (Throw _, g) => (g, 0)
  end.

(** The rest, once that promise has settled: the compiler, or the error it rejects with. *)
Definition compiler_started (r : res cframe) (g : cguest) : res compiler * cguest :=
  match (f ← r; first_checked f) with
  | Ok _ => (Ok (Compiler g false None), g)
  | Throw e => (Throw e, (close e g).2)
  end.

Definition on_guest {B} (m : js cguest B) : js compiler B :=
  zoom co_guest (λ g c, Compiler g (co_busy c) (co_waiting c)) m.
Definition set_busy (busy : bool) (waiting : option Z) (c : compiler) : compiler := Compiler (co_guest c) busy waiting.

(** [request(request)] up to its [await]; what it throws there ends it, its [finally] included. *)
Definition request (header : H) (source : option (list byte)) : js compiler () :=
  busy ← gets co_busy;
  guard_js busy "A compiler request is already running";;
  modify (set_busy true None);;
  try_catch
    (on_guest (respond (header, bool_decide (is_Some source)) (default [] source));;
     p ← on_guest receive;
     modify (set_busy true (Some p)))
    (λ e, modify (set_busy false None);; throw e).

(** The rest, when the promise has settled: what the request returns or throws. *)
Definition request_settled (c : compiler) : option (res A * compiler) :=
  p ← co_waiting c;
  r ← mget p (gs_settled (co_guest c));
  Some (f ← r; answer_checked f, set_busy false None c).

(** ** The playground's queue *)

Record queued := Queued {
  qu_id : jsval;
  qu_kind : string;
  qu_header : H;
  qu_source : option (list byte)
}.

Inductive posted :=
| OReady
| OStatus
| OBootError (e : string)
| OAnswer (id : jsval) (response : A)
| OError (id : jsval) (e : string)
| OSuperseded (id : jsval)
| OFull (id : jsval).

(** [pl_asked] logs, for every request made of the compiler, whether it was busy then. *)
Record playground := Playground {
  pl_compiler : option compiler;
  pl_queue : list queued;
  pl_running : bool;
  pl_current : option queued;
  pl_posts : list posted;
  pl_asked : list bool
}.

Definition set_compiler (c : option compiler) (p : playground) : playground :=
  Playground c (pl_queue p) (pl_running p) (pl_current p) (pl_posts p) (pl_asked p).
Definition set_queue (q : list queued) (running : bool) (current : option queued) (p : playground) : playground :=
  Playground (pl_compiler p) q running current (pl_posts p) (pl_asked p).
Definition set_asked (asked : list bool) (p : playground) : playground :=
  Playground (pl_compiler p) (pl_queue p) (pl_running p) (pl_current p) (pl_posts p) asked.
Definition post (o : posted) : js playground () :=
  modify (λ p, Playground (pl_compiler p) (pl_queue p) (pl_running p) (pl_current p) (pl_posts p ++ [o]) (pl_asked p)).

Definition MAX_SOURCE : Z := 1024 * 1024.
Definition MAX_QUEUE : Z := 32.

(** The body of the loop for one message, up to its [await]. *)
Definition attempt (m : queued) : js playground () :=
  c ← gets pl_compiler;
  match c with
  | None => throw "The compiler is still loading"
  | Some c =>
      guard_js (negb (existsb (String.eqb (qu_kind m)) ["check"; "compile"; "hover"])) "Unknown compiler request";;
      guard_js (MAX_SOURCE <? zlen (default [] (qu_source m))) "Playground source exceeds 1048576 UTF-8 bytes";;
      modify (λ p, set_asked (pl_asked p ++ [co_busy c]) p);;
      let '(r, c') := request (qu_header m) (qu_source m) c in
      modify (set_compiler (Some c'));;
      lift r
  end.

(** The loop of [drain] from a point where no request is under way. *)
Fixpoint drain_queue (q : list queued) : js playground () :=
  match q with
  | [] => modify (set_queue [] false None)
  | m :: q' =>
      modify (set_queue q' true (Some m));;
      started ← try_catch (attempt m;; mret true) (λ e, post (OError (qu_id m) e);; mret false);
      if (started : bool) then mret tt else drain_queue q'
  end.

Definition drain : js playground () :=
  running ← gets pl_running;
  queue ← gets pl_queue;
  if (running : bool) then mret tt else drain_queue queue.

(** The request under way has settled: its answer, and the loop goes on. *)
Definition drain_resumes : js playground () :=
  c ← gets pl_compiler;
  current ← gets pl_current;
  match current, c ≫= request_settled with
  | Some m, Some (r, c') =>
      modify (set_compiler (Some c'));;
      post (match r with Ok response => OAnswer (qu_id m) response | Throw e => OError (qu_id m) e end);;
      queue ← gets pl_queue;
      drain_queue queue
  | _, _ => mret tt
  end.

(** The loop of [onmessage] from the queue's end: what it keeps, and the checks it drops, latest
    first. *)
Fixpoint drop_checks (reversed : list queued) : list queued * list queued :=
  match reversed with
  | m :: rest =>
      if String.eqb (qu_kind m) "check" then let '(kept, stale) := drop_checks rest in (kept, m :: stale)
      else (reverse reversed, [])
  | [] => ([], [])
  end.

Definition supersede : js playground () :=
  queue ← gets pl_queue;
  let '(kept, stale) := drop_checks (reverse queue) in
  modify (λ p, set_queue kept (pl_running p) (pl_current p) p);;
  for_each stale (λ m, post (OSuperseded (qu_id m))).

Definition onmessage (data : queued) : js playground () :=
  when (String.eqb (qu_kind data) "check") supersede;;
  queue ← gets pl_queue;
  if MAX_QUEUE <=? zlen queue then post (OFull (qu_id data))
  else
    modify (λ p, set_queue (queue ++ [data]) (pl_running p) (pl_current p) p);;
    drain.

(** [boot()], whose packed asset is a verified one: the compiler is there once [createCompiler] returned. *)
Definition boot_started : js playground () := post OStatus.
Definition boot_done (r : res compiler) : js playground () :=
  match r with
  | Ok c => modify (set_compiler (Some c));; post OReady
  | Throw e => post (OBootError e)
  end.

(** ** Runs *)

Inductive playground_event :=
| EvData (data : queued)
| EvBoot (options : guest_options) (before : list (@guest_event (option compiler_result) (H * bool)))
| EvCompilerGuest (ev : @guest_event (option compiler_result) (H * bool))
| EvResume.

(** What the guest does by itself: everything but the owner's own calls. *)
Definition guest_only (ev : @guest_event (option compiler_result) (H * bool)) : bool :=
  match ev with EvReceive | EvRespond _ _ => false | _ => true end.

Definition run_playground_event (ev : playground_event) : js playground () :=
  match ev with
  | EvData data => onmessage data
  | EvBoot options before =>
      c ← gets pl_compiler;
      match c with
      | None =>
          let '(g, p) := createCompiler options None in
          let g' := run_guest (filter (λ ev, guest_only ev = true) before) g in
          match mget p (gs_settled g') with
          | Some r => boot_done (compiler_started r g').1
          | None => mret tt
          end
      | Some _ => mret tt
      end
  | EvCompilerGuest gev =>
      c ← gets pl_compiler;
      match c with
      | Some c => if guest_only gev then modify (set_compiler (Some (on_guest (run_guest_event gev) c).2)) else mret tt
      | None => mret tt
      end
  | EvResume => drain_resumes
  end.

Definition run_playground (evs : list playground_event) (p : playground) : playground :=
  foldl (λ p ev, (run_playground_event ev p).2) p evs.

Definition playground_loaded : playground := Playground None [] false None [] [].
End Compiler.
