(* ===== verification/CompilerSpec.v ===== *)
(** What a user of the playground's compiler can rely on: every request is answered once, and the
    compiler is asked one at a time. *)

From S2P Require Import Prelude Guest GuestSpec Compiler.

Section Answers.
Context {H A : Type}.
Implicit Types p : @playground H A.

Definition post_id (o : @posted A) : option jsval :=
  match o with OAnswer id _ | OError id _ | OSuperseded id | OFull id => Some id | _ => None end.

(** The requests answered, under way and queued. *)
Definition accounted p : list jsval :=
  omap post_id (pl_posts p) ++ option_list (qu_id <$> pl_current p) ++ (qu_id <$> pl_queue p).

(** A compiler that is there: busy exactly with the current request, whose promise the guest
    has not forgotten. *)
Definition compiler_serves (c : @compiler H A) (current : bool) : Prop :=
  guest_wf (co_guest c) ∧ co_busy c = current ∧
  (if current then ∃ n, co_waiting c = Some n ∧ 1 <= n < gs_nextPromise (co_guest c) else co_waiting c = None).

Record playground_wf (received : list jsval) p : Prop := PlaygroundWf {
  pw_accounted : accounted p ≡ₚ received;
  pw_bound : zlen (pl_queue p) <= MAX_QUEUE;
  pw_running : pl_running p = bool_decide (is_Some (pl_current p));
  pw_idle : pl_running p = false → pl_queue p = [];
  pw_compiler : match pl_compiler p with
                | Some c => compiler_serves c (bool_decide (is_Some (pl_current p)))
                | None => pl_current p = None
                end;
  pw_asked : Forall (λ busy, busy = false) (pl_asked p)
}.

(** The guest makes no promise by itself. *)
Lemma guest_only_next (ev : @guest_event (option (@compiler_result A)) (H * bool)) g :
  guest_only ev = true → gs_nextPromise (run_guest_event ev g).2 = gs_nextPromise g.
Proof.
  assert (∀ n reason, preserves (λ g, gs_nextPromise g = n) (close (D:=option (@compiler_result A)) (R:=H * bool) reason)) as Hc.
  { intros n reason. unfold close, terminate, settle_waiting. preserve; intros x Hx; first [exact Hx|simpl; by destruct (gs_waiting x)]. }
  assert (∀ n i e, preserves (λ g, gs_nextPromise g = n) (failed (D:=option (@compiler_result A)) (R:=H * bool) i e)) as Hf.
  { intros n i e. unfold failed, terminate, onProgress, launch, arm, cross. preserve; try apply Hc; intros x Hx; exact Hx. }
  assert (∀ n f, preserves (λ g, gs_nextPromise g = n) (deliver (D:=option (@compiler_result A)) (R:=H * bool) f)) as Hd.
  { intros n f x Hx. unfold deliver. cbv [mbind js_bind gets]. destruct (gs_waiting x) eqn:E.
    - unfold settle_waiting, modify. simpl. by rewrite E.
    - destruct (_ <? _)%nat; [exact Hx|by apply Hc]. }
  intros Hev. assert (∀ n, preserves (λ g, gs_nextPromise g = n) (run_guest_event ev)) as Hp; [|by apply Hp].
  intros n. destruct ev as [|r pl|reason|i data|i m| |reason]; try done; simpl.
  - apply Hc.
  - unfold Guest.onmessage, onProgress, cross. preserve; try apply Hd; try apply Hf; intros x Hx; exact Hx.
  - apply Hf.
  - unfold timer_fires. preserve; try apply Hc; try apply Hf; intros x Hx; exact Hx.
  - unfold aborts. preserve; apply Hc.
Qed.

Lemma serves_guest (c : @compiler H A) current ev :
  guest_only ev = true → compiler_serves c current → compiler_serves (on_guest (run_guest_event ev) c).2 current.
Proof.
  intros Hev (W & B & Q). unfold on_guest, zoom. pose proof (event_wf ev _ W) as W'.
  pose proof (guest_only_next ev (co_guest c) Hev) as Hn. destruct (run_guest_event ev (co_guest c)) as [r g']. simpl in *.
  split; [done|]. split; [done|]. simpl. by rewrite Hn.
Qed.

(** A request of an idle compiler starts and waits, or throws and leaves it idle. *)
Lemma serves_request (c : @compiler H A) header source :
  compiler_serves c false →
  let '(r, c') := request header source c in compiler_serves c' (is_ok r).
Proof.
  intros (W & B & Q). unfold request. cbv [mbind js_bind gets]. rewrite B. simpl. unfold try_catch, on_guest, zoom. simpl.
  pose proof (respond_wf (header, bool_decide (is_Some source)) (default [] source) (co_guest c) W) as W1.
  destruct (respond _ _ (co_guest c)) as [[u|e] g1]; simpl in *; [|split; [done|]; by split].
  pose proof (receive_wf g1 W1) as W2.
  assert (receive g1 = (Ok (gs_nextPromise g1), (receive g1).2) ∧ gs_nextPromise (receive g1).2 = gs_nextPromise g1 + 1) as [E En].
  { unfold receive. cbv [mbind js_bind gets]. destruct (gs_closed g1), (gs_waiting g1), (gs_messages g1); done. }
  destruct (receive g1) as [r2 g2]. simpl in E, En, W2. injection E as ->. simpl.
  split; [done|]. split; [done|]. exists (gs_nextPromise g1). split; [done|]. simpl. rewrite En.
  pose proof (gw_next g1 W1). lia.
Qed.

(** One message of the loop: started, with the compiler busy, or refused. *)
Lemma attempt_spec m p :
  match pl_compiler p with Some c => compiler_serves c false | None => True end →
  let '(r, p') := attempt m p in
  pl_posts p' = pl_posts p ∧ pl_queue p' = pl_queue p ∧ pl_running p' = pl_running p ∧ pl_current p' = pl_current p ∧
  (Forall (λ busy, busy = false) (pl_asked p) → Forall (λ busy, busy = false) (pl_asked p')) ∧
  match pl_compiler p' with Some c => compiler_serves c (is_ok r) | None => is_ok r = false end.
Proof.
  intros Hc. unfold attempt. cbv [mbind js_bind gets]. destruct (pl_compiler p) as [c|] eqn:Ec; [|unfold throw; by rewrite Ec].
  unfold guard_js. destruct (negb (existsb (String.eqb (qu_kind m)) _)); [unfold throw; by rewrite Ec|]. unfold mret, js_ret.
  destruct (_ <? _); [unfold throw; by rewrite Ec|].
  pose proof (serves_request c (qu_header m) (qu_source m) Hc) as Hr. destruct (request _ _ c) as [r c'].
  split; [done|]. split; [done|]. split; [done|]. split; [done|]. split; [|done].
  simpl. intros Ha. apply Forall_app. split; [done|]. apply Forall_singleton. by destruct Hc as (_ & ? & _).
Qed.

(** The loop, from a queue whose requests are all it has to account for. *)
Lemma drain_wf received q p :
  omap post_id (pl_posts p) ++ (qu_id <$> q) ≡ₚ received → zlen q <= MAX_QUEUE →
  match pl_compiler p with Some c => compiler_serves c false | None => True end →
  Forall (λ busy, busy = false) (pl_asked p) →
  playground_wf received (drain_queue q p).2.
Proof.
  revert p. induction q as [|m q IH]; intros p Hacc Hb Hc Hk; cbn [drain_queue].
  { split; simpl; try done. by destruct (pl_compiler p). }
  rewrite zlen_cons in Hb. cbv [mbind js_bind modify]. unfold try_catch.
  pose proof (attempt_spec m (set_queue q true (Some m) p) Hc) as Ha.
  destruct (attempt m (set_queue q true (Some m) p)) as [[u|e] p1]; simpl in Ha; destruct Ha as (H1 & H2 & H3 & H4 & H6 & H5); simpl.
  - split; rewrite ?H2, ?H3, ?H4; try done; [|lia| |by apply H6].
    + unfold accounted. rewrite H1, H2, H4. exact Hacc.
    + by destruct (pl_compiler p1).
  - apply IH; [|lia|simpl; by destruct (pl_compiler p1)|by apply H6]. simpl. rewrite omap_app, H1, <- app_assoc. exact Hacc.
Qed.

(** The loop only adds posts. *)
Lemma drain_posts (q : list (@queued H)) o p : o ∈ pl_posts p → o ∈ pl_posts (drain_queue q p).2.
Proof.
  revert p. induction q as [|m q IH]; intros p Ho; cbn [drain_queue]; [done|]. cbv [mbind js_bind modify]. unfold try_catch.
  assert (pl_posts (attempt m (set_queue q true (Some m) p)).2 = pl_posts p) as E.
  { unfold attempt. cbv [mbind js_bind gets]. simpl. destruct (pl_compiler p); [|done]. unfold guard_js.
    destruct (negb _); [done|]. unfold mret, js_ret. destruct (_ <? _); [done|]. by destruct (request _ _ _). }
  destruct (attempt m (set_queue q true (Some m) p)) as [[u|e] p1]; simpl in *; [by rewrite E|].
  apply IH. simpl. rewrite E. apply elem_of_app. by left.
Qed.

Lemma drop_checks_split (l : list (@queued H)) :
  let '(kept, stale) := drop_checks l in reverse l = kept ++ reverse stale ∧ ∀ m, m ∈ stale → qu_kind m = "check".
Proof.
  induction l as [|m l IH]; simpl; [split; [done|]; intros m Hm; by apply elem_of_nil in Hm|].
  destruct (String.eqb_spec (qu_kind m) "check") as [E|E].
  - destruct (drop_checks l) as [kept stale]. destruct IH as [IH1 IH2]. split; [by rewrite !reverse_cons, IH1, app_assoc|].
    intros x [->|Hx]%elem_of_cons; auto.
  - split; [by rewrite app_nil_r|]. intros x Hx. by apply elem_of_nil in Hx.
Qed.

Lemma superseded_posts (stale : list (@queued H)) p :
  for_each stale (λ m, post (OSuperseded (qu_id m))) p =
  (Ok tt, Playground (pl_compiler p) (pl_queue p) (pl_running p) (pl_current p)
            (pl_posts p ++ ((λ m, OSuperseded (qu_id m)) <$> stale)) (pl_asked p)).
Proof.
  revert p. induction stale as [|m stale IH]; intros p; simpl; [rewrite app_nil_r; by destruct p|].
  cbv [mbind js_bind post modify]. rewrite IH. simpl. by rewrite <- app_assoc.
Qed.

Lemma supersede_wf received p : playground_wf received p → playground_wf received (supersede p).2.
Proof.
  intros [Hacc Hb Hr Hi Hc Hk]. unfold supersede. cbv [mbind js_bind gets].
  pose proof (drop_checks_split (reverse (pl_queue p))) as Hs. destruct (drop_checks (reverse (pl_queue p))) as [kept stale].
  rewrite reverse_involutive in Hs. destruct Hs as [Hs _]. unfold modify. rewrite superseded_posts. split; simpl; try done.
  - rewrite <- Hacc. unfold accounted. simpl. rewrite Hs, omap_app, fmap_app.
    assert (omap post_id ((λ m, OSuperseded (A:=A) (qu_id m)) <$> stale) = qu_id <$> stale) as ->.
    { clear. induction stale as [|m stale IH]; simpl; [done|]. f_equal. exact IH. }
    rewrite fmap_reverse, (reverse_Permutation (qu_id <$> stale)). rewrite <- !app_assoc. f_equiv.
    rewrite (Permutation_app_comm (qu_id <$> stale)). rewrite <- !app_assoc. done.
  - rewrite Hs, zlen_app in Hb. pose proof (zlen_nonneg (reverse stale)). lia.
  - intros E. specialize (Hi E). rewrite Hi in Hs. symmetry in Hs. by apply app_eq_nil in Hs as [-> _].
Qed.

Lemma onmessage_received received data p :
  playground_wf received p → playground_wf (received ++ [qu_id data]) (Compiler.onmessage data p).2.
Proof.
  intros W. unfold onmessage. cbv [mbind js_bind]. unfold when.
  set (p1 := (if String.eqb (qu_kind data) "check" then supersede else mret ()) p).
  assert (playground_wf received p1.2 ∧ p1.1 = Ok tt) as [[Hacc Hb Hr Hi Hc Hk] Hok].
  { unfold p1. destruct (String.eqb _ _); [|done]. split; [by apply supersede_wf|]. unfold supersede. cbv [mbind js_bind gets].
    destruct (drop_checks _). unfold modify. by rewrite superseded_posts. }
  destruct p1 as [r1 p1]. simpl in *. subst r1. cbv [gets].
  destruct (Z.leb_spec MAX_QUEUE (zlen (pl_queue p1))) as [Hfull|Hroom].
  - split; simpl; try done. unfold accounted in *. simpl. rewrite omap_app, <- Hacc. simpl.
    rewrite <- !app_assoc. f_equiv. rewrite Permutation_app_comm. by rewrite <- app_assoc.
  - unfold drain, modify. cbv [gets mbind js_bind]. simpl. destruct (pl_running p1) eqn:E; simpl.
    + split; simpl; try done; [|rewrite zlen_app, zlen_cons, zlen_nil; lia].
      unfold accounted in *. simpl. rewrite fmap_app, <- Hacc. by rewrite <- !app_assoc.
    + assert (pl_current p1 = None) as Hcur.
      { symmetry in Hr. apply bool_decide_eq_false in Hr. by apply eq_None_not_Some. }
      rewrite (Hi eq_refl). apply drain_wf; [|unfold MAX_QUEUE, zlen; simpl; lia| |done].
      * simpl. unfold accounted in Hacc. rewrite Hcur, (Hi eq_refl) in Hacc. simpl in Hacc. rewrite app_nil_r in Hacc.
        by rewrite Hacc.
      * simpl. rewrite Hcur in Hc. by destruct (pl_compiler p1).
Qed.

Lemma resumes_wf received p : playground_wf received p → playground_wf received (drain_resumes p).2.
Proof.
  intros W0. pose proof W0 as [Hacc Hb Hr Hi Hc Hk]. unfold drain_resumes. cbv [mbind js_bind gets].
  destruct (pl_current p) as [m|] eqn:Em; [|exact W0].
  destruct (pl_compiler p) as [c|] eqn:Ec; [|done].
  destruct Hc as (W & Hbusy & _). destruct (request_settled c) as [[r c']|] eqn:Es.
  - assert (option_bind _ _ request_settled (Some c) = Some (r, c')) as -> by (simpl; exact Es). cbv [modify]. simpl.
    apply drain_wf; simpl; [|done| |done].
    + rewrite omap_app. assert (omap post_id [match r with Ok response => OAnswer (qu_id m) response | Throw e => OError (qu_id m) e end]
        = [qu_id m]) as -> by (by destruct r). rewrite <- app_assoc, <- Hacc. unfold accounted. by rewrite Em.
    + unfold request_settled in Es. destruct (co_waiting c); [|done]. simpl in Es. destruct (mget _ _); [|done]. simpl in Es.
      injection Es as _ <-. split; [done|]. done.
  - assert (option_bind _ _ request_settled (Some c) = None) as -> by (simpl; exact Es). exact W0.
Qed.

Lemma started_serves options before (c : @compiler H A) :
  let '(g, n) := createCompiler options None in
  let g' := run_guest before g in
  ∀ r, (compiler_started r g').1 = Ok c → compiler_serves c false.
Proof.
  unfold createCompiler. pose proof (createGuest_wf (D:=option (@compiler_result A)) (R:=H * bool) options None) as W.
  pose proof (receive_wf _ W) as W1. destruct (receive (createGuest options None)) as [[n|e] g]; simpl in W1; intros r;
    (pose proof (run_wf before g W1) as W2; unfold compiler_started; destruct (r ≫= first_checked); [|done]; by intros [= <-]).
Qed.

(** The requests the playground sent. *)
Definition received (evs : list (@playground_event H A)) : list jsval :=
  omap (λ ev, match ev with EvData d => Some (qu_id d) | _ => None end) evs.

Lemma event_received ev rs p :
  playground_wf rs p → playground_wf (rs ++ received [ev]) (run_playground_event ev p).2.
Proof.
  intros W. pose proof W as [Hacc Hb Hr Hi Hc Hk]. destruct ev as [data|options before|gev|]; unfold run_playground_event;
    [change (received [EvData data]) with [qu_id data]|change (received _) with (@nil jsval); rewrite app_nil_r..].
  - by apply onmessage_received.
  - cbv [mbind js_bind gets]. destruct (pl_compiler p) as [c|] eqn:Ec; [exact W|].
    pose proof (started_serves options (filter (λ ev, guest_only ev = true) before)) as Hs.
    destruct (createCompiler options None) as [g n]. set (g' := run_guest _ g) in *.
    destruct (mget n (gs_settled g')) as [r|]; [|exact W].
    assert (∀ o, post_id o = None → playground_wf rs (post o p).2) as Hpost.
    { intros o Ho. split; simpl; rewrite ?Ec; try done. rewrite <- Hacc. unfold accounted. simpl. rewrite omap_app. simpl.
      by rewrite Ho, app_nil_r. }
    unfold boot_done. destruct (compiler_started r g').1 as [c|e] eqn:Es; [|by apply Hpost].
    destruct (Hpost OReady eq_refl) as [Hacc' _ _ _ _ _]. split; simpl; try done.
    rewrite Hc. by eapply Hs.
  - cbv [mbind js_bind gets]. destruct (pl_compiler p) as [c|] eqn:Ec; [|exact W]. destruct (guest_only gev) eqn:Eg; [|exact W].
    split; simpl; try done. by apply serves_guest.
  - by apply resumes_wf.
Qed.

(** C20 Every request the playground's Worker receives is accounted for exactly once: answered (by
    the compiler, with an error, as superseded by a newer check, or because the queue is full),
    under way, or queued; at most 32 are queued, and none waits while no request is under way.
    No request was ever made of the compiler while it was busy, the compiler is busy exactly while a request is under
    way, and a request under way waits for a promise its guest still has to settle or has settled, so that
    resuming answers it. *)
Theorem playground_answers_once (evs : list (@playground_event H A)) :
  let p := run_playground evs playground_loaded in
  accounted p ≡ₚ received evs ∧ zlen (pl_queue p) <= MAX_QUEUE ∧
  (pl_current p = None → pl_queue p = []) ∧
  Forall (λ busy, busy = false) (pl_asked p) ∧
  (∀ c, pl_compiler p = Some c → co_busy c = bool_decide (is_Some (pl_current p))) ∧
  (∀ m, pl_current p = Some m → ∃ c n, pl_compiler p = Some c ∧ co_busy c = true ∧ co_waiting c = Some n ∧
     (gs_waiting (co_guest c) = Some n ∨
      is_Some (request_settled c) ∧ ∃ o, post_id o = Some (qu_id m) ∧ o ∈ pl_posts (drain_resumes p).2)).
Proof.
  assert (∀ evs rs p, playground_wf rs p → playground_wf (rs ++ received evs) (run_playground evs p)) as Hall.
  { clear. induction evs as [|ev evs IH]; intros rs p W; [by rewrite app_nil_r|].
    change (run_playground (ev :: evs) p) with (run_playground evs (run_playground_event ev p).2).
    assert (received (ev :: evs) = received [ev] ++ received evs) as -> by (unfold received; by rewrite <- omap_app).
    rewrite app_assoc. by apply IH, event_received. }
  specialize (Hall evs [] playground_loaded ltac:(by split)). simpl in Hall. intros p. fold p in Hall.
  destruct Hall as [Hacc Hb Hr Hi Hc Hk]. split; [done|]. split; [done|]. split.
  { intros E. apply Hi. rewrite Hr, E. done. }
  split; [done|]. split.
  { intros c E. rewrite E in Hc. by destruct Hc as (_ & -> & _). }
  intros m Em. rewrite Em in Hc. destruct (pl_compiler p) as [c|] eqn:Ec; [|done]. destruct Hc as (W & Hbusy & n & Hw & Hn).
  exists c, n. split; [done|]. split; [done|]. split; [done|].
  assert (n ∈ seqZ 1 (gs_nextPromise (co_guest c) - 1)) as Hin by (apply elem_of_seqZ; lia).
  rewrite <- (gw_promises _ W), elem_of_app in Hin. destruct Hin as [Hin|Hin].
  - right. destruct (mget n (gs_settled (co_guest c))) as [r|] eqn:Er; [|by apply mget_None_keys in Er].
    assert (request_settled c = Some (r ≫= answer_checked, set_busy false None c)) as Es.
    { unfold request_settled. rewrite Hw. simpl. by rewrite Er. }
    split; [by rewrite Es|].
    exists (match r ≫= answer_checked with Ok response => OAnswer (qu_id m) response | Throw e => OError (qu_id m) e end).
    split; [by destruct (r ≫= answer_checked)|]. unfold drain_resumes. cbv [mbind js_bind gets]. rewrite Em, Ec.
    assert (option_bind _ _ request_settled (Some c) = Some (r ≫= answer_checked, set_busy false None c)) as -> by exact Es.
    cbv [modify]. simpl. apply drain_posts. simpl. apply elem_of_app. right. left.
  - left. by destruct (gs_waiting (co_guest c)); [apply list_elem_of_singleton in Hin as ->|apply elem_of_nil in Hin].
Qed.
End Answers.
