(* ===== verification/Packaged.v ===== *)
(** A packaged application, [runPackagedNuppLuaJITApp] of [src/runtime/luajit/app-runtime.mjs],
    with [loadPackedAsset] of [src/runtime/luajit/assets.mjs].

    It fetches and checks the manifest, then every asset the application is made of, and only
    then starts channels, pool and guest.  The parts are those of the other files: [verified] is
    that of [Assets], kernels are those of [Aot], libraries those of [Native], the pool and the
    endpoint table those of [WorkerPool] and [ChannelHost].  [JSON.parse], the network, the
    decompressor, the hash function and the Wasm engine are parameters. *)

From S2P Require Import Prelude Transfers Wire EffectCodec Assets AppLimits Native Aot PortChannel ChannelHost WorkerPool PoolChannels.

(** ** Data *)

Record app_manifest := AppManifest {
  pm_schema : jsval;
  pm_runtime : jsval;
  pm_limits : layer;
  pm_app : string;
  pm_guest : string;
  pm_guestBuildKey : jsval;
  pm_assets : asset_manifest;
  pm_kernels : list kernel_record;
  pm_nativeLibraries : list (string * list byte);
  pm_workers : option (string * jsval)
}.

(** [options]: an [initialize] that is there is bytes or something else. *)
Record packaged_options := PackagedOptions {
  px_manifestDigest : option string;
  px_limits : layer;
  px_initialize : option (option (list byte));
  px_workers : bool;
  px_storageName : option string;
  px_channelHost : option host
}.

(** What is ready once every check passed. *)
Record prepared (I : Type) := Prepared {
  pk_manifest : app_manifest;
  pk_digest : string;
  pk_limits : AppLimits.limits;
  pk_app : list byte;
  pk_kernels : jmap string (kernel_unit I);
  pk_initialize : list byte
}.
Arguments Prepared {I}.
Arguments pk_manifest {I}.
Arguments pk_digest {I}.
Arguments pk_limits {I}.
Arguments pk_app {I}.
Arguments pk_kernels {I}.
Arguments pk_initialize {I}.

Section Packaged.
Context {I : Type} `{!WebAssembly I}.
Context (parse_manifest : list byte → res app_manifest) (parse_buildKey : list byte → res jsval).
Context (same_origin : string → bool) (fetch : string → res stream) (gunzip : list byte → stream) (digest : list byte → list byte).

(** [verified(name)] of the manifest's assets.  Its cache changes no result, by
    [cached_result] below. *)
Definition asset (m : app_manifest) (name : string) : res (list byte) :=
  (verify (pm_assets m) same_origin fetch gunzip digest name []).1.

(** The first half: the manifest.  [response] is the status and the bytes of the answer, or
    what [fetch] rejects with. *)
Definition load_manifest (response : res (bool * Z * list byte)) (o : packaged_options) : res (app_manifest * string) :=
  '(ok, status, bytes) ← response;
  if negb ok then Throw ("Cannot fetch application manifest: " +:+ pretty status) else
  let d := sha256 digest bytes in
  if match px_manifestDigest o with Some expected => negb (String.eqb d expected) | None => false end
  then Throw "the application manifest changed after the page loaded it; reload the page"
  else
    m ← parse_manifest bytes;
    if negb (bool_decide (pm_schema m = VNum (NInt 1))) || negb (bool_decide (pm_runtime m = VStr "luajit-v86"))
    then Throw "Unsupported LuaJIT application manifest"
    else Ok (m, d).

(** The second half: everything the application is made of. *)
Definition load_parts (m : app_manifest) (d : string) (o : packaged_options) : res (prepared I) :=
  limits ← resolveLimits [pm_limits m; px_limits o];
  app ← asset m (pm_app m);
  guestBytes ← asset m (pm_guest m);
  buildKey ← parse_buildKey guestBytes;
  if negb (bool_decide (buildKey = pm_guestBuildKey m)) then Throw "Application guest identity mismatch" else
  kernels ← createKernels (asset m) (pm_kernels m);
  native ← nativeInitialization (pm_nativeLibraries m) (asset m);
  match px_initialize o with
  | Some None => Throw "Application initialization must be bytes"
  | Some (Some supplied) => Ok (Prepared m d limits app kernels (native ++ supplied))
  | None => Ok (Prepared m d limits app kernels (native ++ []))
  end.

(** [storageName]: the caller's, or the start of the application's digest. *)
Definition default_storage (k : prepared I) : string :=
  match as_sha256 <$> mget (pm_app (pk_manifest k)) (am_assets (pm_assets (pk_manifest k))) with
  | Some (VStr s) => "nupp-" +:+ String.substring 0 24 s
  | _ => "nupp-"
  end.

Definition storage_name (k : prepared I) (o : packaged_options) : string :=
  match px_storageName o with
  | Some s => if String.eqb s "" then default_storage k else s
  | None => default_storage k
  end.

(** ** Channels and pool *)

(** A run's pool, which holds the endpoint table when there is one, with the options its
    functions close over: every lane is booted with their digest. *)
Inductive packaged_run :=
| WithPool (options : pool_options) (p : pool host transfer_item)
| WithoutPool (channels : host).

(** [value || fallback] of a number. *)
Definition or_number (v : jsval) (fallback : Z) : jsval :=
  match v with
  | VUndef | VNull | VBool false | VNum (NInt 0) | VNum NNaN | VStr "" => VNum (NInt fallback)
  | _ => v
  end.

(** The [try] up to [runNuppLuaJITApp]; what fails there runs the [finally] block. *)
Definition start_packaged (workerClass : bool) (hardwareConcurrency : jsval) (k : prepared I) (o : packaged_options)
    : res packaged_run * host :=
  let channels := default createChannelHost (px_channelHost o) in
  match pm_workers (pk_manifest k), px_workers o with
  | Some (lane, maxLanes), true =>
      let options := PoolOptions (VStr (pk_digest k)) workerClass (or_number maxLanes 2) hardwareConcurrency None in
      match (asset (pk_manifest k) lane ;; createWorkerPool options channels) with
      | Ok p => (Ok (WithPool options p), channels)
      | Throw e => (Throw e, (close_host channels).2)
      end
  | _, _ => (Ok (WithoutPool channels), channels)
  end.

(** The [finally] block after a run: [pool?.close(); channels.close()]. *)
Definition finish_packaged (r : packaged_run) : res () * host :=
  match r with
  | WithPool _ p =>
      match close true p with
      | (Ok _, p') => close_host (p_channels p')
      | (Throw e, p') => (Throw e, p_channels p')
      end
  | WithoutPool channels => close_host channels
  end.

(** [loadPackedAsset(url, record)]: the asset of the last part of the URL's path, by a manifest
    of its own, and its decompression where the record has an extent for it. *)
Definition loadPackedAsset (path : list byte) (record : asset_record) (decodedBytes : jsval) : res (list byte) :=
  let name := bytes_text (default [] (last (split_slash path []))) in
  bytes ← (verify (AssetManifest [(name, record)] []) same_origin fetch gunzip digest name []).1;
  match decodedBytes with
  | VUndef | VNull | VBool false | VNum (NInt 0) | VNum NNaN | VStr "" => Ok bytes
  | _ => inflateSnapshot (gunzip bytes) decodedBytes
  end.
End Packaged.

(** ** The cache of verified assets *)

Section Cache.
Context (m : asset_manifest) (same_origin : string → bool) (fetch : string → res stream) (gunzip : list byte → stream)
  (digest : list byte → list byte).
Abbreviation verified := (verified m same_origin fetch gunzip digest).

(** A cache of results: what is kept under a name is what verifying it gives, for a name that
    is not refused before it is kept. *)
Definition cache_exact (fuel : nat) (p : jmap string (res (list byte))) : Prop :=
  ∀ name r, mget name p = Some r → r = (verified fuel name []).1.

Lemma cache_exact_nil fuel : cache_exact fuel [].
Proof. done. Qed.

(** What one level of [verified] gives for a name it has not kept, from the outcome of its call
    for an encoded asset. *)
Definition fresh (called : string → res (list byte)) (name : string) : res (list byte) :=
  '(r, n) ← checked_record m name;
  if negb (same_origin name) then Throw "Guest asset crosses origins" else
  match mget name (am_delivery m) with
  | Some encoded =>
      if bool_decide (encoded = name) || bool_decide (is_Some (mget encoded (am_delivery m))) then Throw "Cyclic guest asset encoding"
      else
        packed ← called encoded;
        bytes ← inflateSnapshot (gunzip packed) (as_bytes r);
        if negb (bool_decide (VStr (sha256 digest bytes) = as_sha256 r)) then Throw ("Guest asset SHA-256 mismatch: " +:+ name) else Ok bytes
  | None => download fetch digest name r n
  end.

Lemma verified_with_run rec name p :
  mget name p = None →
  (verified_with m same_origin fetch gunzip digest rec name p).1 = fresh (λ encoded, (rec encoded p).1) name ∧
  ∃ p1, (p1 = p ∨ ∃ encoded, p1 = (rec encoded p).2 ∧ mget encoded (am_delivery m) = None) ∧
    ((verified_with m same_origin fetch gunzip digest rec name p).2 = p1 ∨
     (verified_with m same_origin fetch gunzip digest rec name p).2 = mset name (fresh (λ encoded, (rec encoded p).1) name) p1).
Proof.
  intros Hn. unfold verified_with, fresh, keep, guard_js, throw, lift. cbv [mbind js_bind gets mret js_ret res_bind]. rewrite Hn.
  destruct (checked_record m name) as [[r n]|e]; [|split; [done|]; exists p; by split; left].
  destruct (same_origin name); simpl; [|split; [done|]; exists p; by split; left].
  destruct (mget name (am_delivery m)) as [encoded|]; [|split; [done|]; exists p; by split; [left|right]].
  destruct (bool_decide (encoded = name)); simpl; [split; [done|]; exists p; by split; [left|right]|].
  case_bool_decide as Hd; [split; [done|]; exists p; by split; [left|right]|].
  assert (mget encoded (am_delivery m) = None) as Hnone by (by apply eq_None_not_Some).
  destruct (rec encoded p) as [r1 p1] eqn:E. simpl.
  assert (p1 = p ∨ ∃ encoded', p1 = (rec encoded' p).2 ∧ mget encoded' (am_delivery m) = None) as Hp by (right; exists encoded; by rewrite E).
  destruct r1 as [packed|e]; [|split; [done|]; exists p1; split; [done|]; by right].
  destruct (inflateSnapshot (gunzip packed) (as_bytes r)); [|split; [done|]; exists p1; split; [done|]; by right].
  destruct (negb _); (split; [done|]; exists p1; split; [done|]; by right).
Qed.

Lemma fresh_ext f g name : (∀ encoded, mget encoded (am_delivery m) = None → f encoded = g encoded) → fresh f name = fresh g name.
Proof.
  intros H. unfold fresh. destruct (checked_record m name) as [[r n]|e]; [|done]. simpl. destruct (negb _); [done|].
  destruct (mget name (am_delivery m)) as [encoded|]; [|done]. destruct (bool_decide (encoded = name)); [done|]. simpl.
  case_bool_decide as Hd; [done|]. rewrite H; [done|]. by apply eq_None_not_Some.
Qed.

Lemma fresh_plain f g name : mget name (am_delivery m) = None → fresh f name = fresh g name.
Proof. intros H. unfold fresh. destruct (checked_record m name) as [[r n]|e]; [|done]. simpl. by rewrite H. Qed.

(** Verifying from an exact cache gives what verifying from none does, and keeps it exact: first
    for an asset that is not delivered encoded, then for any. *)
Lemma cached_keep r name p1 p' : cache_exact 2 p1 → r = (verified 2 name []).1 → p' = p1 ∨ p' = mset name r p1 → cache_exact 2 p'.
Proof. intros Hp -> [->| ->]; [done|]. intros k v [[-> ->]|[_ Hk]]%mget_mset_Some; [done|by apply Hp]. Qed.

Lemma cached_plain name p :
  cache_exact 2 p → mget name (am_delivery m) = None →
  (verified 1 name p).1 = (verified 2 name []).1 ∧ cache_exact 2 (verified 1 name p).2.
Proof.
  intros Hp Hd. destruct (mget name p) as [r|] eqn:Hn.
  { cbn [Assets.verified]. unfold verified_with. erewrite bind_run by done. rewrite Hn. split; [by apply Hp|done]. }
  destruct (verified_with_run (verified 0) name p Hn) as [E (p1 & Hp1 & Hq)].
  assert (p1 = p) as -> by (destruct Hp1 as [->|(e & -> & _)]; done).
  destruct (verified_with_run (verified 1) name [] eq_refl) as [E' _].
  assert (fresh (λ e, (verified 0 e p).1) name = (verified 2 name []).1) as Hf by (etrans; [by apply fresh_plain|symmetry; exact E']).
  split; [etrans; [exact E|exact Hf]|]. by eapply cached_keep.
Qed.

Lemma cached_result name p :
  cache_exact 2 p →
  (verify m same_origin fetch gunzip digest name p).1 = (verify m same_origin fetch gunzip digest name []).1 ∧
  cache_exact 2 (verify m same_origin fetch gunzip digest name p).2.
Proof.
  intros Hp. unfold verify. destruct (mget name p) as [r|] eqn:Hn.
  { assert (verified 2 name p = (r, p)) as -> by (cbn [Assets.verified]; unfold verified_with at 1; erewrite bind_run by done; by rewrite Hn).
    split; [by apply Hp|done]. }
  destruct (verified_with_run (verified 1) name p Hn) as [E (p1 & Hp1 & Hq)].
  destruct (verified_with_run (verified 1) name [] eq_refl) as [E' _].
  assert (fresh (λ e, (verified 1 e p).1) name = (verified 2 name []).1) as Hf.
  { etrans; [|symmetry; exact E']. apply fresh_ext. intros e He. rewrite (proj1 (cached_plain e p Hp He)).
    symmetry. apply cached_plain; [apply cache_exact_nil|done]. }
  assert (cache_exact 2 p1) as Hp1' by (destruct Hp1 as [->|(e & -> & He)]; [done|by apply cached_plain]).
  split; [etrans; [exact E|exact Hf]|]. by eapply cached_keep.
Qed.
End Cache.

(** ** Only verified code runs *)

Section Authentic.
Context {I : Type} `{!WebAssembly I}.
Context (parse_manifest : list byte → res app_manifest) (parse_buildKey : list byte → res jsval).
Context (same_origin : string → bool) (fetch : string → res stream) (gunzip : list byte → stream) (digest : list byte → list byte).
Abbreviation asset := (asset same_origin fetch gunzip digest).
Abbreviation authentic m := (authentic (pm_assets m) same_origin digest).

Lemma asset_authentic m name bytes : asset m name = Ok bytes → authentic m name bytes.
Proof.
  intros E. pose proof (verified_ok (pm_assets m) same_origin fetch gunzip digest 2 name []) as H.
  unfold Packaged.asset, verify in E. destruct (verified _ _ _ _ _ 2 name []) as [r p]. simpl in E. apply H; [|done].
  intros k b Hk. done.
Qed.

(** Every unit was made from the bytes of its record's file, and every record's file was read. *)
Lemma create_units_files (verified : string → res (list byte)) records (units units' : jmap string (kernel_unit I)) :
  create_units verified records units = Ok units' →
  (∀ r, r ∈ records → ∃ bytes u, verified (kr_file r) = Ok bytes ∧ create_unit r bytes = Ok u ∧
     (∀ u', u = Some u' → mget (kr_unit r) units' = Some u')) ∧
  (∀ name u, mget name units' = Some u → mget name units = Some u ∨
     ∃ r bytes, r ∈ records ∧ kr_unit r = name ∧ verified (kr_file r) = Ok bytes ∧ create_unit r bytes = Ok (Some u)).
Proof.
  assert (∀ records (units units' : jmap string (kernel_unit I)) name u,
    create_units verified records units = Ok units' → mget name units = Some u → mget name units' = Some u) as Hkeep.
  { clear. induction records as [|r records IH]; intros units units' name u H Hu; [by injection H as <-|].
    cbn [create_units] in H. destruct (_ || _) eqn:Hm; [done|]. apply orb_false_iff in Hm as [_ Hm].
    destruct (verified (kr_file r)) as [bytes|]; [|done]. simpl in H. destruct (create_unit r bytes) as [[v|]|]; [| |done]; simpl in H;
      eapply IH; try exact H; [|done]. rewrite mget_mset_ne; [done|]. intros <-. unfold mhas in Hm. by rewrite Hu in Hm. }
  revert units. induction records as [|r records IH]; intros units H.
  { injection H as <-. split; [intros r Hr; by apply elem_of_nil in Hr|by left]. }
  cbn [create_units] in H. destruct (_ || _) eqn:Hm; [done|]. apply orb_false_iff in Hm as [_ Hm].
  destruct (verified (kr_file r)) as [bytes|] eqn:E; [|done]. simpl in H.
  destruct (create_unit r bytes) as [v|] eqn:Ev; [|done]. simpl in H. destruct (IH _ H) as [H1 H2]. split.
  - intros r' [->|Hr]%elem_of_cons; [|by apply H1]. exists bytes, v. split; [done|]. split; [done|]. intros u' ->.
    eapply Hkeep; [exact H|]. by rewrite mget_mset_eq.
  - intros name u Hu. destruct (H2 name u Hu) as [Hv|(r' & b & Hr & Hs)]; [|right; exists r', b; split; [by right|done]].
    destruct v as [v|]; [|by left]. apply mget_mset_Some in Hv as [[-> ->]|[_ ?]]; [|by left].
    right. exists r, bytes. split; [left|done].
Qed.

Lemma initialization_files records verified names total chunks :
  initialization records verified names total = Ok chunks → ∀ file name, (file, name) ∈ records → ∃ bytes, verified file = Ok bytes.
Proof.
  revert names total chunks. induction records as [|[f n] records IH]; intros names total chunks H file name Hin; [by apply elem_of_nil in Hin|].
  cbn [initialization] in H. case_bool_decide; [done|]. destruct (verified f) as [bytes|] eqn:E; [|done]. simpl in H.
  destruct (validateNativeLibrary n bytes); [|done]. simpl in H. destruct (_ <? _); [done|].
  destruct (initialization records verified _ _) as [rest|] eqn:Er; [|done].
  apply elem_of_cons in Hin as [[= -> ->]|Hin]; [eauto|by eapply IH].
Qed.

End Authentic.

(** An application of one byte, with a hash function that gives every text the same digest. *)
Definition demo_digest (_ : list byte) : list byte := replicate 32 x00.
Definition demo_hash : jsval := VStr (sha256 demo_digest []).
Definition demo_asset : asset_record := AssetRecord demo_hash (VNum (NInt 1)).
Definition demo_app : app_manifest :=
  AppManifest (VNum (NInt 1)) (VStr "luajit-v86") LNone "app.lua" "guest.json" (VStr "key")
    (AssetManifest [("app.lua", demo_asset); ("guest.json", demo_asset)] []) [] [] None.
Definition demo_options : packaged_options := PackagedOptions (Some (sha256 demo_digest [])) LNone (Some (Some [x42])) true None None.

(** An engine that compiles nothing. *)
Definition demo_engine : WebAssembly () := {|
  wasm_module := Empty_set;
  validate _ := false;
  compile _ := Throw "no modules";
  module_imports m := match m with end;
  instantiate m := match m with end;
  has_initialize _ := false;
  initialize_export := mret tt;
  has_memory _ := false;
  is_function _ _ := false;
  query_export _ := mret VUndef
|}.

Definition demo_fetch (_ : string) : res stream := Ok (Stream [[x41]] None).

