(* ===== verification/Percent.v ===== *)
(** [encodeURIComponent] and [decodeURIComponent], on text held as its UTF-8 bytes: the links of
    [src/editors/playground/src] and the servers of [src/scripts] and [src/editors/playground] use them. *)

From S2P Require Import Prelude Wire.

(** ** Percent-encoding *)

Definition upper_digit (z : Z) : byte := default x00 (text_bytes "0123456789ABCDEF" !! Z.to_nat z).

(** The characters [encodeURIComponent] leaves alone. *)
Definition unreserved (b : byte) : bool :=
  existsb (λ c, bool_decide (b = c))
    (text_bytes "ABCDEFGHIJKLMNOPQRSTUVWXYZabcdefghijklmnopqrstuvwxyz0123456789-_.!~*'()").

Definition pct_byte (b : byte) : list byte :=
  if unreserved b then [b] else [x25; upper_digit (Z_of_byte b / 16); upper_digit (Z_of_byte b mod 16)].

(** [encodeURIComponent(text)]. *)
Definition encodeURIComponent (text : list byte) : res (list byte) :=
  if valid_utf8 text then Ok (text ≫= pct_byte) else Throw "URI malformed".

Definition hex_digit_value (b : byte) : option Z :=
  if in_range 48 57 b then Some (Z_of_byte b - 48)
  else if in_range 65 70 b then Some (Z_of_byte b - 55)
  else if in_range 97 102 b then Some (Z_of_byte b - 87)
  else None.

(** One escape, [%XX], and what follows it. *)
Definition pct_octet (text : list byte) : option (byte * list byte) :=
  match text with
  | c :: h :: l :: rest =>
      if bool_decide (c = x25) then
        match hex_digit_value h, hex_digit_value l with
        | Some h, Some l => Some (byte_of_Z (16 * h + l), rest)
        | _, _ => None
        end
      else None
  | _ => None
  end.

Fixpoint pct_octets (n : nat) (text : list byte) : option (list byte * list byte) :=
  match n with
  | O => Some ([], text)
  | S n' =>
      '(b, rest) ← pct_octet text;
      '(bs, rest') ← pct_octets n' rest;
      Some (b :: bs, rest')
  end.

(** How many octets the character has whose first octet is [b]; none where no character starts so. *)
Definition octet_count (b : byte) : option nat :=
  if in_range 0 0x7F b then Some 1%nat
  else if in_range 0xC0 0xDF b then Some 2%nat
  else if in_range 0xE0 0xEF b then Some 3%nat
  else if in_range 0xF0 0xF7 b then Some 4%nat
  else None.

(** The character an escape starts: as many octets as its first one says, which must be its
    UTF-8 encoding. *)
Definition pct_character (text : list byte) : option (list byte * list byte) :=
  '(b, _) ← pct_octet text;
  n ← octet_count b;
  '(bs, rest) ← pct_octets n text;
  if valid_utf8 bs then Some (bs, rest) else None.

(** Each round takes a character or an escape, so the length of the text is fuel enough. *)
Fixpoint decode_from (fuel : nat) (text : list byte) : res (list byte) :=
  match fuel, text with
  | _, [] => Ok []
  | O, _ => Throw "out of fuel"
  | S fuel', c :: text' =>
      if bool_decide (c = x25) then
        match pct_character text with
        | Some (bs, rest) => out ← decode_from fuel' rest; Ok (bs ++ out)
        | None => Throw "URI malformed"
        end
      else out ← decode_from fuel' text'; Ok (c :: out)
  end.

(** [decodeURIComponent(text)]. *)
Definition decodeURIComponent (text : list byte) : res (list byte) := decode_from (length text) text.

(** ** Percent-decoding inverts percent-encoding *)

Lemma pct_octet_byte b rest : unreserved b = false → pct_octet (pct_byte b ++ rest) = Some (b, rest).
Proof. intros H. destruct b; first [discriminate H | reflexivity]. Qed.

Lemma pct_octets_bytes bs rest : Forall (λ b, unreserved b = false) bs →
  pct_octets (length bs) ((bs ≫= pct_byte) ++ rest) = Some (bs, rest).
Proof.
  induction 1 as [|b bs Hb _ IH]; [done|]. cbn [length pct_octets mbind list_bind].
  rewrite <- app_assoc, pct_octet_byte by done. cbn. fold (bs ≫= pct_byte). by rewrite IH.
Qed.

Lemma high_reserved lo hi b : in_range lo hi b = true → 0x80 <= lo → unreserved b = false.
Proof.
  unfold in_range. intros [H _]%andb_prop Hl%Z.leb_le.
  assert ((128 <=? Z_of_byte b) = true) as Hb by (apply Z.leb_le in H, Hl; apply Z.leb_le; lia).
  clear -Hb. destruct b; first [discriminate Hb | reflexivity].
Qed.

Lemma unreserved_ascii b : unreserved b = true → in_range 0 0x7F b = true ∧ b ≠ x25.
Proof. intros H. destruct b; first [discriminate H | done]. Qed.

(** A character that stands at the start of well-formed text. *)
Record leads (b : byte) (bs r : list byte) : Prop := Leads {
  ld_valid : valid_utf8 (b :: bs) = true;
  ld_rest : valid_utf8 r = true;
  ld_count : octet_count b = Some (length (b :: bs));
  ld_octets : Forall (λ c, unreserved c = false) bs;
  ld_first : bs = [] ∨ unreserved b = false
}.

Lemma in_range_weaken lo lo' hi hi' b : in_range lo hi b = true → lo' <= lo → hi <= hi' → in_range lo' hi' b = true.
Proof. unfold in_range. lia. Qed.

Lemma leads_high lo hi b bs r :
  in_range lo hi b = true → 0x80 <= lo → valid_utf8 (b :: bs) = true → valid_utf8 r = true →
  octet_count b = Some (length (b :: bs)) → Forall (λ c, in_range 0x80 0xBF c = true) bs → leads b bs r.
Proof.
  intros Hb Hlo Hv Hr Hc Hbs. split; [done..| |right; by apply (high_reserved lo hi)].
  eapply Forall_impl; [exact Hbs|]. intros c Hc'. cbn beta. apply (high_reserved 0x80 0xBF); [done|lia].
Qed.

Lemma octet_count_high b n :
  match n with 2%nat => in_range 0xC0 0xDF b | 3%nat => in_range 0xE0 0xEF b | 4%nat => in_range 0xF0 0xF7 b | _ => false end = true →
  octet_count b = Some n.
Proof. unfold octet_count, in_range. intros H. repeat case_match; (congruence || lia). Qed.

Lemma valid_leads b r : valid_utf8 (b :: r) = true → ∃ bs r', r = bs ++ r' ∧ leads b bs r'.
Proof.
  cbn [valid_utf8].
  destruct (in_range 0 0x7F b) eqn:E1.
  { intros H. exists [], r. split; [done|].
    split; cbn [valid_utf8]; unfold octet_count; rewrite ?E1; auto. }
  destruct (in_range 0xC2 0xDF b) eqn:E2.
  { destruct r as [|c1 r]; [done|]. intros [H1 H]%andb_prop. exists [c1], r. split; [done|].
    eapply leads_high; [exact E2|lia| |done|apply (octet_count_high b 2), (in_range_weaken 0xC2 _ 0xDF); [done|lia..]|by constructor].
    cbn [valid_utf8]. by rewrite E1, E2, H1. }
  destruct (in_range 0xE0 0xEF b) eqn:E3.
  { destruct r as [|c1 [|c2 r]]; [done..|]. intros [[H1 H2]%andb_prop H]%andb_prop. exists [c1; c2], r. split; [done|].
    eapply leads_high; [exact E3|lia| |done|by apply (octet_count_high b 3)|].
    - cbn [valid_utf8]. by rewrite E1, E2, E3, H1, H2.
    - repeat constructor; [|done]. eapply in_range_weaken; [exact H1|by destruct (Z_of_byte b =? 0xE0)|by destruct (Z_of_byte b =? 0xED)]. }
  destruct (in_range 0xF0 0xF4 b) eqn:E4; [|done].
  destruct r as [|c1 [|c2 [|c3 r]]]; [done..|]. intros [[[H1 H2]%andb_prop H3]%andb_prop H]%andb_prop.
  exists [c1; c2; c3], r. split; [done|].
  eapply leads_high; [exact E4|lia| |done|apply (octet_count_high b 4), (in_range_weaken 0xF0 _ 0xF4); [done|lia..]|].
  - cbn [valid_utf8]. by rewrite E1, E2, E3, E4, H1, H2, H3.
  - repeat constructor; [|done..]. eapply in_range_weaken; [exact H1|by destruct (Z_of_byte b =? 0xF0)|by destruct (Z_of_byte b =? 0xF4)].
Qed.

Lemma pct_character_leads b bs r rest : leads b bs r → unreserved b = false →
  pct_character (((b :: bs) ≫= pct_byte) ++ rest) = Some (b :: bs, rest).
Proof.
  intros [Hv _ Hc Ho _] Hb. unfold pct_character.
  cbn [mbind list_bind]. rewrite <- app_assoc, pct_octet_byte by done. cbn [mbind option_bind].
  rewrite Hc. cbn [mbind option_bind]. rewrite app_assoc.
  change (pct_byte b ++ list_bind _ _ pct_byte bs) with ((b :: bs) ≫= pct_byte).
  rewrite pct_octets_bytes by (by constructor). cbn [mbind option_bind]. by rewrite Hv.
Qed.

Lemma pct_byte_head b : unreserved b = false → ∃ t, pct_byte b = x25 :: t.
Proof. unfold pct_byte. intros ->. eauto. Qed.

Lemma decode_from_encoded text fuel : valid_utf8 text = true → (length (text ≫= pct_byte) <= fuel)%nat →
  decode_from fuel (text ≫= pct_byte) = Ok text.
Proof.
  revert text. induction fuel as [|fuel IH]; intros [|b r] Hv Hl; try done.
  { cbn in Hl. unfold pct_byte in Hl. case_match; cbn in Hl; lia. }
  destruct (valid_leads _ _ Hv) as (bs & r' & -> & Hd). pose proof Hd as [_ Hr _ _ Hf].
  destruct (unreserved b) eqn:Eb.
  - destruct Hf as [->|Hf]; [|congruence]. pose proof (unreserved_ascii _ Eb) as [_ Hne].
    assert (((b :: [] ++ r') ≫= pct_byte) = b :: (r' ≫= pct_byte)) as Hb.
    { cbn. unfold pct_byte at 1. by rewrite Eb. }
    rewrite Hb in Hl |- *. cbn [decode_from]. rewrite bool_decide_false by done.
    by rewrite IH by (done || (cbn [length] in Hl; lia)).
  - destruct (pct_byte_head b Eb) as [t Et].
    assert (((b :: bs ++ r') ≫= pct_byte) = ((b :: bs) ≫= pct_byte) ++ (r' ≫= pct_byte)) as Happ.
    { change (b :: bs ++ r') with ((b :: bs) ++ r'). apply bind_app. }
    rewrite Happ in Hl |- *. rewrite length_app in Hl.
    pose proof (pct_character_leads b bs r' (r' ≫= pct_byte) Hd Eb) as Hp.
    assert (∃ t', ((b :: bs) ≫= pct_byte) = x25 :: t') as [t' Et'] by (cbn; rewrite Et; eauto).
    rewrite Et' in Hp, Hl |- *. cbn [app decode_from length] in Hl, Hp |- *. rewrite bool_decide_true by done.
    rewrite Hp. by rewrite IH by (done || lia).
Qed.

Lemma decode_encoded text : valid_utf8 text = true → decodeURIComponent (text ≫= pct_byte) = Ok text.
Proof. intros H. by apply decode_from_encoded. Qed.
