(* ===== verification/PlaygroundOptions.v ===== *)
(** Options of the playground and the links that share a program:
    [src/editors/playground/src/options.js] and [fragmentParams] of
    [src/editors/playground/src/app.js].

    A link carries the program and its options in the fragment of its address, percent-encoded.
    [JSON] and the browser's storage are parameters. *)

From S2P Require Import Prelude Wire Percent.

(** ** Options *)

(** An object as far as its own properties go. *)
Abbreviation fields := (jmap string jsval).

(** A value that may be no object: [record] takes it for one without properties. *)
Inductive given := GObject (f : fields) | GOther.
Definition record (value : given) : fields := match value with GObject f => f | GOther => [] end.

Definition field (key : string) (f : fields) : jsval := default VUndef (mget key f).

Record options := Options { op_optimize : bool; op_compat : option string }.
#[export] Instance options_eq_dec : EqDecision options.
Proof. solve_decision. Defined.

Definition DEFAULT_OPTIONS : options := Options true None.

Definition options_fields (o : options) : fields :=
  ("optimize", VBool (op_optimize o)) :: match op_compat o with Some c => [("compat", VStr c)] | None => [] end.

Definition restoreOptions (params saved : given) : options :=
  let params := record params in
  let saved := record saved in
  let optimize := match field "optimize" saved with VBool b => b | _ => op_optimize DEFAULT_OPTIONS end in
  let optimize := match field "optimize" params with VUndef => optimize | v => bool_decide (v = VStr "1") end in
  let compat := match field "compat" params with VUndef => field "compat" saved | v => v end in
  Options optimize (if bool_decide (compat = VStr "lua51") then Some "lua51" else None).

Definition sourceFragment (source : string) (o : given) : res string :=
  let restored := restoreOptions (GObject []) o in
  encoded ← encodeURIComponent (text_bytes source);
  Ok (bytes_text (text_bytes "#source=" ++ encoded ++
        text_bytes "&optimize=" ++ text_bytes (if op_optimize restored then "1" else "0") ++
        text_bytes "&compat=" ++ text_bytes (default "" (op_compat restored)))).

(** ** Reading a link *)

(** [text.indexOf("=")] as the text before and after it. *)
Fixpoint split_equals (text : list byte) : list byte * option (list byte) :=
  match text with
  | [] => ([], None)
  | b :: text' =>
      if bool_decide (b = x3d) then ([], Some text')
      else let '(key, value) := split_equals text' in (b :: key, value)
  end.

(** [out[key] = value]: text assigned to [__proto__] is no property. *)
Definition assign_param (key value : string) (out : fields) : fields :=
  if String.eqb key "__proto__" then out else mset key (VStr value) out.

Definition add_param (out : fields) (pair : list byte) : fields :=
  if bool_decide (pair = []) then out else
  let '(key, value) := split_equals pair in
  match decodeURIComponent (default [] value) with
  | Ok text => assign_param (bytes_text key) (bytes_text text) out
  | Throw _ => out
  end.

Definition strip_hash (text : list byte) : list byte :=
  match text with c :: text' => if bool_decide (c = x23) then text' else text | [] => [] end.

Definition fragmentParams (hash : string) : fields :=
  foldl add_param [] (split_on x26 (strip_hash (text_bytes hash))).

(** [typeof params.source === "string" ? params.source : null]. *)
Definition inlined (params : fields) : option string :=
  match field "source" params with VStr s => Some s | _ => None end.

(** ** Stored options *)

Definition OPTIONS_KEY : string := "nupp-playground-options-v1".

Section Storage.
(** [localStorage.getItem] and [JSON.parse], either of which may throw, and the writers. *)
Context (JSON_parse : string → res given) (JSON_stringify : fields → string).

(** What the storage answers for a key: it may be refused. *)
Definition storedOptions (item : res (option string)) : fields :=
  match (text ← item; JSON_parse (match text with Some t => if String.eqb t "" then "{}" else t | None => "{}" end)) with
  | Ok value => record value
  | Throw _ => []
  end.

(** The storage after [saveOptions]; [refused] when [setItem] throws. *)
Definition saveOptions (refused : bool) (o : options) (store : jmap string string) : jmap string string :=
  if refused then store else mset OPTIONS_KEY (JSON_stringify (options_fields o)) store.

(** The options a page starts with: [Object.assign(options, restoreOptions(params, storedOptions()))]. *)
Definition start_options (hash : string) (item : res (option string)) : options :=
  restoreOptions (GObject (fragmentParams hash)) (GObject (storedOptions item)).
End Storage.

(** ** Links *)

(** An encoded text holds no separator of a fragment. *)
Lemma encoded_plain text : (x26 ∉ (text ≫= pct_byte)) ∧ (x3d ∉ (text ≫= pct_byte)).
Proof.
  assert (∀ b, (x26 ∉ pct_byte b) ∧ (x3d ∉ pct_byte b)) as Hb.
  { intros b. rewrite !list_elem_of_In. destruct b; vm_compute; intuition discriminate. }
  split; rewrite list_elem_of_bind; intros (b & Hin & _); by apply Hb in Hin.
Qed.

Lemma split_equals_key key value : x3d ∉ key → split_equals (key ++ x3d :: value) = (key, Some value).
Proof.
  induction key as [|b key IH]; intros Hn; cbn [app split_equals]; [by rewrite bool_decide_true|].
  rewrite bool_decide_false by set_solver. by rewrite IH by set_solver.
Qed.

Lemma add_param_encoded out key text :
  x3d ∉ text_bytes key → key ≠ "__proto__" → valid_utf8 text = true →
  add_param out (text_bytes key ++ x3d :: (text ≫= pct_byte)) = mset key (VStr (bytes_text text)) out.
Proof.
  intros Hk Hp Hv. unfold add_param. rewrite bool_decide_false by (by destruct (text_bytes key)).
  rewrite split_equals_key by done. cbn [from_option id]. rewrite decode_encoded by done.
  unfold assign_param. rewrite bytes_text_bytes. by destruct (String.eqb_spec key "__proto__").
Qed.

(** The parameters of a fragment made of three encoded values. *)
Lemma fragment_params_of source optimize compat :
  valid_utf8 source = true → valid_utf8 optimize = true → valid_utf8 compat = true →
  fragmentParams (bytes_text (text_bytes "#source=" ++ (source ≫= pct_byte) ++ text_bytes "&optimize=" ++
     (optimize ≫= pct_byte) ++ text_bytes "&compat=" ++ (compat ≫= pct_byte))) =
  [("source", VStr (bytes_text source)); ("optimize", VStr (bytes_text optimize)); ("compat", VStr (bytes_text compat))].
Proof.
  intros H1 H2 H3. unfold fragmentParams. rewrite text_bytes_text.
  set (E1 := source ≫= pct_byte). set (E2 := optimize ≫= pct_byte). set (E3 := compat ≫= pct_byte).
  assert (∀ key t, x26 ∉ text_bytes key → x26 ∉ text_bytes key ++ x3d :: (t ≫= pct_byte)) as Hn.
  { intros key t Hk. destruct (encoded_plain t). set_solver. }
  change (strip_hash _) with
    ((text_bytes "source" ++ x3d :: E1) ++ x26 :: (text_bytes "optimize" ++ x3d :: E2) ++ x26 :: text_bytes "compat" ++ x3d :: E3).
  rewrite split_on_sep, split_on_sep, split_on_whole by (apply Hn; by apply (bool_decide_unpack _)).
  subst E1 E2 E3. cbn [foldl]. by rewrite !add_param_encoded by (done || by apply (bool_decide_unpack _)).
Qed.

(** A shared link reopens the program and the options it was made with, whatever options the
    recipient has saved: the fragment made of a source and of any options exists when the source
    is well-formed text, and a page opened at it shows that source and starts with those options. *)
Theorem shared_link_reopens source o saved :
  match sourceFragment source o with
  | Ok hash => inlined (fragmentParams hash) = Some source ∧
      restoreOptions (GObject (fragmentParams hash)) saved = restoreOptions (GObject []) o
  | Throw _ => isWellFormed source = false
  end.
Proof.
  unfold sourceFragment, encodeURIComponent, isWellFormed. destruct (valid_utf8 (text_bytes source)) eqn:Hv; [|done].
  cbn [mbind res_bind]. set (r := restoreOptions (GObject []) o).
  assert (op_compat r = None ∨ op_compat r = Some "lua51") as Hc by (subst r; cbn; case_bool_decide; auto).
  set (opt := if op_optimize r then "1" else "0"). set (compat := default "" (op_compat r)).
  assert (text_bytes opt ≫= pct_byte = text_bytes opt ∧ valid_utf8 (text_bytes opt) = true) as [Eo Vo].
  { subst opt. by destruct (op_optimize r). }
  assert (text_bytes compat ≫= pct_byte = text_bytes compat ∧ valid_utf8 (text_bytes compat) = true) as [Ec Vc].
  { subst compat. by destruct Hc as [-> | ->]. }
  rewrite <- Eo, <- Ec, fragment_params_of by done. rewrite !bytes_text_bytes. split; [done|].
  transitivity (Options (op_optimize r) (op_compat r)); [|by destruct r].
  subst opt compat. clearbody r. unfold restoreOptions, field. cbn.
  by destruct (op_optimize r), Hc as [-> | ->].
Qed.
