(* ===== verification/PlaygroundPage.v ===== *)
(** The playground's page, [src/editors/playground/src/app.js]: requests to the compiler's Worker,
    checking while the reader types, and running a program.

    The page runs one task at a time, and after each task the promises that were settled, before
    any other task: [pp_micro] is that queue, and an event other than [EMicro] happens only when it
    is empty.  A request is a number; its promise is settled once, which [pp_settled] records, and
    then the function that made it goes on.  The promise of [startWorker] is a state with the list
    of those who wait for it.  What the reader sees is recorded as the calls that set it, in order;
    the time a check took is not.  A [Worker] that is constructed is a number. *)

From S2P Require Import Prelude PlaygroundOptions.

(** ** Diagnostics *)

Record diagnostic := Diagnostic {
  dg_line : Z; dg_col : Z;
  dg_severity : option string;
  dg_code : option string;
  dg_msg : option string;
  dg_help : option string;
  dg_offset : option Z;
  dg_length : option Z
}.

(** [value || fallback] of text and of a number. *)
Definition or_else (v : option string) (fallback : string) : string :=
  match v with Some s => if String.eqb s "" then fallback else s | None => fallback end.
Definition or_count (v : option Z) (fallback : Z) : Z :=
  match v with Some n => if n =? 0 then fallback else n | None => fallback end.
(** [if (value)] of text. *)
Definition truthy (v : option string) : option string :=
  s ← v; if String.eqb s "" then None else Some s.

Definition NL : string := String (Ascii.ascii_of_nat 10) EmptyString.

Definition join (sep : string) (parts : list string) : string := String.concat sep parts.

Definition diagnosticText (d : diagnostic) : string :=
  ("-- " +:+ pretty (dg_line d) +:+ ":" +:+ pretty (dg_col d) +:+ ": " +:+ or_else (dg_severity d) "error" +:+ ": ")
  +:+ (match truthy (dg_code d) with Some c => c +:+ ": " | None => "" end)
  +:+ or_else (dg_msg d) ""
  +:+ (match truthy (dg_help d) with Some h => NL +:+ "--   help: " +:+ h | None => "" end).

Definition has_severity (s : string) (d : diagnostic) : bool := bool_decide (dg_severity d = Some s).

(** ["n error"] or ["n errors"], nothing for none. *)
Definition counted (n : nat) (what : string) : list string :=
  match n with
  | O => []
  | 1%nat => ["1 " +:+ what]
  | _ => [pretty (Z.of_nat n) +:+ " " +:+ what +:+ "s"]
  end.

Definition summarize (diags : list diagnostic) : nat * nat * string :=
  let errors := length (List.filter (has_severity "error") diags) in
  let warnings := length (List.filter (has_severity "warning") diags) in
  (errors, warnings, join ", " (counted errors "error" ++ counted warnings "warning")).

Definition toCmPos (nuppOffset : Z) : Z := nuppOffset - 1.
Definition toNuppOffset (cmPos : Z) : Z := cmPos + 1.

(** A range of the document, for a diagnostic's marker, a jump and a hover. *)
Definition clamp_range (docLength offset length : Z) : Z * Z :=
  let from := Z.max 0 (Z.min docLength (toCmPos offset)) in
  (from, Z.max from (Z.min docLength (from + length))).

Record marker := Marker { mk_range : Z * Z; mk_severity : string; mk_message : option string; mk_source : option string }.

Definition severityToLint (severity : option string) : string :=
  if bool_decide (severity = Some "error") then "error"
  else if bool_decide (severity = Some "warning") then "warning" else "info".

(** [`${d.msg}`] of an absent message. *)
Definition shown_text (v : option string) : string := default "undefined" v.

Definition marker_of (docLength : Z) (d : diagnostic) : option marker :=
  offset ← dg_offset d;
  Some (Marker (clamp_range docLength offset (Z.max 1 (or_count (dg_length d) 1)))
          (severityToLint (dg_severity d))
          (match truthy (dg_help d) with Some h => Some (shown_text (dg_msg d) +:+ NL +:+ h) | None => dg_msg d end)
          (dg_code d)).

Definition markers (docLength : Z) (diags : list diagnostic) : list marker := omap (marker_of docLength) diags.

(** The selection [jumpTo] makes. *)
Definition jumpTo (docLength : Z) (d : diagnostic) : option (Z * Z) :=
  offset ← dg_offset d;
  Some (clamp_range docLength offset (or_count (dg_length d) 0)).

(** ** State *)

(** What a request resolves with: the compiler's answer, or [ok: false]. *)
Record answer := Answer { an_diagnostics : list diagnostic; an_code : option string; an_reason : string }.
Inductive outcome :=
| ROk (a : answer)
| RError (error : string)
| RThrown (error : string).

(** Who waits for a request. *)
Inductive owner := OHover | OCheck (generation : Z) | OCompile.

(** Who waits for the Worker: a request, or [activateCompiler]. *)
Inductive awaiter := WRequest (r : Z) | WActivate.

Inductive micro :=
| MAwaited (w : awaiter) (ready : res ())
| MResult (r : Z) (o : outcome)
| MRan (diags : list diagnostic) (result : res string).

(** [workerReady]. *)
Inductive ready_state := RPending | RResolved | RRejected (error : string).

(** A message posted to the compiler's Worker, for which request. *)
Record posted := Posted {
  po_worker : Z; po_id : Z; po_request : Z;
  po_kind : string; po_text : string; po_options : options
}.

(** What the reader sees change. *)
Inductive ui :=
| UStatus (text : string) (isError : bool)
| UBusy (busy : bool)
| UOutput (text : string)
| UExpanded (expanded : bool)
| USummary (text : string) (isError : bool)
| UDiagnostics (diags : list diagnostic) (marks : list marker)
| UButton (text : string).

Record pstate := PState {
  pp_started : Z;
  pp_worker : option Z;
  pp_ready : option ready_state;
  pp_resolvers : bool;
  pp_awaiters : list awaiter;
  pp_nextId : Z;
  pp_pending : jmap Z Z;
  pp_requests : jmap Z (owner * string * string);
  pp_settled : list (Z * outcome);
  pp_posted : list posted;
  pp_terminated : list Z;
  pp_micro : list micro;
  pp_ui : list ui
}.

Record ppage := PPage {
  pp_state : pstate;
  pp_checkGeneration : Z;
  pp_checkTimer : bool;
  pp_compilePending : bool;
  pp_applications : jmap Z (list diagnostic);
  pp_cancelRun : option Z;
  pp_stopped : list Z;
  pp_activated : bool;
  pp_options : options;
  pp_source : string;
  pp_docLength : Z
}.

(** ** Requests to the compiler's Worker *)

Definition set_worker (started : Z) (worker : option Z) (ready : option ready_state) (resolvers : bool)
    (awaiters : list awaiter) (s : pstate) : pstate :=
  PState started worker ready resolvers awaiters (pp_nextId s) (pp_pending s) (pp_requests s) (pp_settled s)
    (pp_posted s) (pp_terminated s) (pp_micro s) (pp_ui s).
Definition set_pending (nextId : Z) (pending : jmap Z Z) (posts : list posted) (s : pstate) : pstate :=
  PState (pp_started s) (pp_worker s) (pp_ready s) (pp_resolvers s) (pp_awaiters s) nextId pending (pp_requests s)
    (pp_settled s) posts (pp_terminated s) (pp_micro s) (pp_ui s).
Definition set_requests (requests : jmap Z (owner * string * string)) (settled : list (Z * outcome)) (s : pstate) : pstate :=
  PState (pp_started s) (pp_worker s) (pp_ready s) (pp_resolvers s) (pp_awaiters s) (pp_nextId s) (pp_pending s)
    requests settled (pp_posted s) (pp_terminated s) (pp_micro s) (pp_ui s).
Definition set_queue (terminated : list Z) (m : list micro) (u : list ui) (s : pstate) : pstate :=
  PState (pp_started s) (pp_worker s) (pp_ready s) (pp_resolvers s) (pp_awaiters s) (pp_nextId s) (pp_pending s)
    (pp_requests s) (pp_settled s) (pp_posted s) terminated m u.

Definition show (us : list ui) : js pstate () := modify (λ s, set_queue (pp_terminated s) (pp_micro s) (pp_ui s ++ us) s).
Definition enqueue (ms : list micro) : js pstate () := modify (λ s, set_queue (pp_terminated s) (pp_micro s ++ ms) (pp_ui s) s).

Definition settle_request (r : Z) (o : outcome) : js pstate () :=
  modify (λ s, set_requests (pp_requests s) (pp_settled s ++ [(r, o)]) s) ;;
  enqueue [MResult r o].

(** [resolveWorkerReady?.()] and [rejectWorkerReady?.(error)], and their reset. *)
Definition settle_ready (result : res ()) : js pstate () :=
  s ← gets (λ s, s);
  when (pp_resolvers s)
    (modify (set_worker (pp_started s) (pp_worker s)
               (Some (match result with Ok _ => RResolved | Throw e => RRejected e end)) false []) ;;
     enqueue ((λ w, MAwaited w result) <$> pp_awaiters s)).

Definition startWorker : js pstate () :=
  s ← gets (λ s, s);
  match pp_ready s with
  | Some _ => mret tt
  | None =>
      show [UBusy true; UStatus "starting…" false] ;;
      modify (set_worker (pp_started s + 1) (Some (pp_started s + 1)) (Some RPending) true [])
  end.

(** [await startWorker()]. *)
Definition await_ready (w : awaiter) : js pstate () :=
  startWorker ;;
  s ← gets (λ s, s);
  match pp_ready s with
  | Some RPending => modify (set_worker (pp_started s) (pp_worker s) (pp_ready s) (pp_resolvers s) (pp_awaiters s ++ [w]))
  | Some RResolved => enqueue [MAwaited w (Ok tt)]
  | Some (RRejected e) => enqueue [MAwaited w (Throw e)]
  | None => mret tt
  end.

Definition closeCompiler (reason : string) : js pstate () :=
  settle_ready (Throw reason) ;;
  s ← gets (λ s, s);
  modify (set_queue (pp_terminated s ++ match pp_worker s with Some w => [w] | None => [] end) (pp_micro s) (pp_ui s)) ;;
  for_each (pp_pending s) (λ p, settle_request p.2 (RError reason)) ;;
  modify (λ s, set_pending (pp_nextId s) [] (pp_posted s) s) ;;
  modify (λ s, set_worker (pp_started s) None None false (pp_awaiters s) s).

(** [request(kind, extra)] up to its [await]; requests are numbered in the order they are made. *)
Definition request (o : owner) (kind text : string) : js pstate () :=
  s ← gets (λ s, s);
  let r := zlen (pp_requests s) + 1 in
  modify (λ s, set_requests (mset r (o, kind, text) (pp_requests s)) (pp_settled s) s) ;;
  await_ready (WRequest r).

(** [request] after its [await]. *)
Definition request_awaited (opts : options) (r : Z) (ready : res ()) : js pstate () :=
  match ready with
  | Throw error => settle_request r (RError error)
  | Ok _ =>
      s ← gets (λ s, s);
      let id := pp_nextId s in
      modify (set_pending (id + 1) (mset id r (pp_pending s)) (pp_posted s)) ;;
      match pp_worker s, mget r (pp_requests s) with
      | Some w, Some (_, kind, text) =>
          modify (λ s, set_pending (pp_nextId s) (pp_pending s) (pp_posted s ++ [Posted w id r kind text opts]) s)
      | _, _ => settle_request r (RThrown "Cannot read properties of null (reading 'postMessage')")
      end
  end.

(** What the Worker posts. *)
Inductive worker_message :=
| WStatus (message : string)
| WReady
| WBootError (message : string)
| WAnswer (id : Z) (reply : res answer).

(** A message with [ok: true], or with [ok: false] and an error. *)
Definition reply_outcome (reply : res answer) : outcome := match reply with Ok a => ROk a | Throw e => RError e end.

Definition onWorkerMessage (msg : worker_message) : js pstate () :=
  match msg with
  | WStatus message => show [UStatus message false]
  | WReady => show [UStatus "ready" false; UBusy false] ;; settle_ready (Ok tt)
  | WBootError message =>
      show [UStatus ("failed to start: " +:+ message) true; UBusy false;
            UOutput ("-- the compiler failed to start" +:+ NL +:+ NL +:+ message);
            USummary "failed to start" true; UExpanded true] ;;
      settle_ready (Throw message)
  | WAnswer id reply =>
      s ← gets (λ s, s);
      match mget id (pp_pending s) with
      | None => mret tt
      | Some r =>
          modify (set_pending (pp_nextId s) (mdelete id (pp_pending s)) (pp_posted s)) ;;
          settle_request r (reply_outcome reply)
      end
  end.

(** [worker.onmessage] and [worker.onerror] of one instance. *)
Definition worker_onmessage (instance : Z) (msg : worker_message) : js pstate () :=
  s ← gets (λ s, s);
  when (bool_decide (pp_worker s = Some instance)) (onWorkerMessage msg).
Definition worker_onerror (instance : Z) (message : option string) : js pstate () :=
  s ← gets (λ s, s);
  when (bool_decide (pp_worker s = Some instance))
    (let message := or_else message "the compiler worker failed to start" in
     show [UBusy false; UStatus ("failed to start: " +:+ message) true] ;;
     closeCompiler message).

(** ** Checking and running *)

Definition set_state (s : pstate) (p : ppage) : ppage :=
  PPage s (pp_checkGeneration p) (pp_checkTimer p) (pp_compilePending p) (pp_applications p) (pp_cancelRun p)
    (pp_stopped p) (pp_activated p) (pp_options p) (pp_source p) (pp_docLength p).
Definition set_check (generation : Z) (timer : bool) (p : ppage) : ppage :=
  PPage (pp_state p) generation timer (pp_compilePending p) (pp_applications p) (pp_cancelRun p)
    (pp_stopped p) (pp_activated p) (pp_options p) (pp_source p) (pp_docLength p).
Definition set_run (compilePending : bool) (applications : jmap Z (list diagnostic)) (cancelRun : option Z) (stopped : list Z) (p : ppage) : ppage :=
  PPage (pp_state p) (pp_checkGeneration p) (pp_checkTimer p) compilePending applications cancelRun
    stopped (pp_activated p) (pp_options p) (pp_source p) (pp_docLength p).
Definition set_document (activated : bool) (opts : options) (source : string) (docLength : Z) (p : ppage) : ppage :=
  PPage (pp_state p) (pp_checkGeneration p) (pp_checkTimer p) (pp_compilePending p) (pp_applications p) (pp_cancelRun p)
    (pp_stopped p) activated opts source docLength.

Definition on_state {A} (m : js pstate A) : js ppage A := zoom pp_state set_state m.
Definition shows (us : list ui) : js ppage () := on_state (show us).

(** [setOutputSummary(diags, extra)]. *)
Definition setOutputSummary (diags : list diagnostic) (extra : string) : js ppage () :=
  let '(errors, _, text) := summarize diags in
  shows [USummary (if String.eqb text "" then (if String.eqb extra "" then "clean" else extra) else text) (0 <? Z.of_nat errors)].

Definition applyDiagnostics (diags : list diagnostic) : js ppage () :=
  docLength ← gets pp_docLength;
  shows [UDiagnostics diags (markers docLength diags)].

(** The status line of checked diagnostics. *)
Definition checked_status (diags : list diagnostic) : js ppage () :=
  let '(errors, _, text) := summarize diags in
  shows [UStatus (if String.eqb text "" then "checked, clean" else text) (0 <? Z.of_nat errors)].

Definition checkNow : js ppage () :=
  p ← gets (λ p, p);
  modify (set_check (pp_checkGeneration p + 1) (pp_checkTimer p)) ;;
  shows [UStatus "checking…" false] ;;
  on_state (request (OCheck (pp_checkGeneration p + 1)) "check" (pp_source p)).

Definition check_result (generation : Z) (o : outcome) : js ppage () :=
  p ← gets (λ p, p);
  match o with
  | RThrown error => throw error
  | _ =>
      if negb (generation =? pp_checkGeneration p) then mret tt else
      match o with
      | RError error => shows [UStatus ("error: " +:+ error) true]
      | ROk a =>
          let diags := an_diagnostics a in
          applyDiagnostics diags ;; checked_status diags ;; setOutputSummary diags "" ;;
          shows [UOutput (join NL (diagnosticText <$> diags))]
      | RThrown error => throw error
      end
  end.

(** [runGenerated(code)]: a new application Worker; [cancelRun] is its [finish].  The function that
    waits for it holds the diagnostics of the answer, which are kept with the application. *)
Definition runGenerated (diags : list diagnostic) : js ppage () :=
  modify (λ p, let k := zlen (pp_applications p) + 1 in
               set_run (pp_compilePending p) (mset k diags (pp_applications p)) (Some k) (pp_stopped p) p).

(** [finish(body)] of application [k], which terminates it and settles its promise once. *)
Definition finish (k : Z) (result : res string) : js ppage () :=
  p ← gets (λ p, p);
  match mget k (pp_applications p) with
  | None => mret tt
  | Some diags =>
      if bool_decide (k ∈ pp_stopped p) then mret tt else
      modify (set_run (pp_compilePending p) (pp_applications p) None (pp_stopped p ++ [k])) ;;
      on_state (enqueue [MRan diags result])
  end.

(** The [finally] of [compileNow]. *)
Definition compile_finally : js ppage () :=
  shows [UBusy false] ;;
  modify (λ p, set_run false (pp_applications p) (pp_cancelRun p) (pp_stopped p) p) ;;
  shows [UButton "Run"].

Definition compileNow : js ppage () :=
  p ← gets (λ p, p);
  if pp_compilePending p then
    match pp_cancelRun p with
    | Some k => finish k (Throw "Program stopped")
    | None => on_state (closeCompiler "Compiler stopped")
    end
  else
    modify (set_run true (pp_applications p) (pp_cancelRun p) (pp_stopped p)) ;;
    modify (set_check (pp_checkGeneration p + 1) false) ;;
    shows [UButton "Stop"; UStatus "compiling…" false; UExpanded true; UOutput ""] ;;
    setOutputSummary [] "compiling…" ;;
    shows [UBusy true] ;;
    on_state (request OCompile "compile" (pp_source p)).

(** [compileNow] after its request: an application is started, or it ends. *)
Definition compile_result (o : outcome) : js ppage () :=
  match o with
  | RThrown error => compile_finally ;; throw error
  | RError error => shows [UOutput ("-- " +:+ error); USummary "failed" true] ;; compile_finally
  | ROk a =>
      let diags := an_diagnostics a in
      applyDiagnostics diags ;; checked_status diags ;;
      match truthy (an_code a) with
      | Some _ => setOutputSummary diags "running…" ;; runGenerated diags
      | None =>
          shows [UOutput (join NL (["-- " +:+ an_reason a; ""] ++ (diagnosticText <$> diags)))] ;;
          setOutputSummary diags (an_reason a) ;; compile_finally
      end
  end.

(** [compileNow] after its program. *)
Definition ran (diags : list diagnostic) (result : res string) : js ppage () :=
  match result with
  | Ok stdout => shows [UOutput stdout] ;; setOutputSummary diags "ran"
  | Throw error =>
      shows [UOutput ("-- " +:+ error)] ;;
      setOutputSummary [Diagnostic 0 0 (Some "error") None None None None None] "runtime error"
  end ;;
  compile_finally.

(** What an application Worker posts: [event.data?.ok], the result's [stdout], the error. *)
Definition app_message (ok : bool) (stdout error : option string) : res string :=
  if ok then Ok (or_else stdout "") else Throw (or_else error "the application Worker failed").
Definition app_error (message : option string) : res string := Throw (or_else message "the application Worker failed").
Definition app_timeout : res string := Throw "the program exceeded the playground's 10 second hard deadline".

Definition scheduleCheck : js ppage () := modify (λ p, set_check (pp_checkGeneration p) true p).

Definition edit (source : string) (docLength : Z) : js ppage () :=
  modify (λ p, set_document (pp_activated p) (pp_options p) source docLength p) ;;
  scheduleCheck.

Definition loadExample (source : string) (docLength : Z) : js ppage () :=
  edit source docLength ;; shows [UOutput ""].

Definition activateCompiler : js ppage () :=
  p ← gets (λ p, p);
  when (negb (pp_activated p))
    (modify (set_document true (pp_options p) (pp_source p) (pp_docLength p)) ;;
     on_state (await_ready WActivate)).

(** The two boxes of the options panel. *)
Definition set_options (opts : options) : js ppage () :=
  modify (λ p, set_document (pp_activated p) opts (pp_source p) (pp_docLength p) p).
Definition toggle_compat (checked : bool) : js ppage () :=
  p ← gets (λ p, p);
  set_options (Options (op_optimize (pp_options p)) (if checked then Some "lua51" else None)) ;;
  checkNow.
Definition toggle_optimize (checked : bool) : js ppage () :=
  p ← gets (λ p, p);
  set_options (Options checked (op_compat (pp_options p))).

Definition hover (pos : Z) : js ppage () := on_state (request OHover "hover" (pretty (toNuppOffset pos))).

Definition pagehide : js ppage () :=
  p ← gets (λ p, p);
  match pp_cancelRun p with Some k => finish k (Throw "Program stopped") | None => mret tt end ;;
  on_state (closeCompiler "Page closed").

(** The next promise that was settled runs what waits for it. *)
Definition run_micro : js ppage () :=
  p ← gets (λ p, p);
  match pp_micro (pp_state p) with
  | [] => mret tt
  | m :: rest =>
      on_state (modify (λ s, set_queue (pp_terminated s) rest (pp_ui s) s)) ;;
      match m with
      | MAwaited (WRequest r) ready => on_state (request_awaited (pp_options p) r ready)
      | MAwaited WActivate (Ok _) => checkNow
      | MAwaited WActivate (Throw _) => mret tt
      | MResult r o =>
          match mget r (pp_requests (pp_state p)) with
          | Some (OCheck generation, _, _) => check_result generation o
          | Some (OCompile, _, _) => compile_result o
          | _ => mret tt
          end
      | MRan diags result => ran diags result
      end
  end.

(** ** Events *)

Inductive page_event :=
| EMicro
| EMessage (instance : Z) (msg : worker_message)
| EError (instance : Z) (message : option string)
| EEdit (source : string) (docLength : Z)
| EExample (source : string) (docLength : Z)
| ETimer
| ERun
| EHover (pos : Z)
| EApplication (k : Z) (result : res string)
| EActivate
| ECompat (checked : bool)
| EOptimize (checked : bool)
| EPageHide.

Definition handle_event (ev : page_event) : js ppage () :=
  match ev with
  | EMicro => run_micro
  | EMessage instance msg => on_state (worker_onmessage instance msg)
  | EError instance message => on_state (worker_onerror instance message)
  | EEdit source docLength => edit source docLength
  | EExample source docLength => loadExample source docLength
  | ETimer =>
      p ← gets (λ p, p);
      when (pp_checkTimer p) (modify (set_check (pp_checkGeneration p) false) ;; checkNow)
  | ERun => compileNow
  | EHover pos => hover pos
  | EApplication k result => finish k result
  | EActivate => activateCompiler
  | ECompat checked => toggle_compat checked
  | EOptimize checked => toggle_optimize checked
  | EPageHide => pagehide
  end.

(** A task starts when no settled promise is left to run. *)
Definition run_page_event (ev : page_event) (p : ppage) : ppage :=
  match ev, pp_micro (pp_state p) with
  | EMicro, _ | _, [] => (handle_event ev p).2
  | _, _ => p
  end.

Definition run_page (evs : list page_event) (p : ppage) : ppage := foldl (λ p ev, run_page_event ev p) p evs.

Definition page_loaded (opts : options) (source : string) (docLength : Z) : ppage :=
  PPage (PState 0 None None false [] 1 [] [] [] [] [] [] []) 0 false false [] None [] false opts source docLength.
