(* ===== verification/PlaygroundPageSpec.v ===== *)
(** What a reader of the playground can rely on: every request to the compiler is settled once, with
    its own answer or with the reason it has none; markers stay inside the document; and Stop always
    ends what Run began. *)

From S2P Require Import Prelude PlaygroundOptions PlaygroundPage.

(** ** The requests of a page *)

Definition awaiter_request (w : awaiter) : option Z := match w with WRequest r => Some r | WActivate => None end.
Definition micro_request (m : micro) : option Z := match m with MAwaited w _ => awaiter_request w | _ => None end.

(** Requests that wait for the Worker to start, to go on, or to be answered. *)
Definition open_requests (s : pstate) : list Z :=
  (pp_pending s).*2 ++ omap awaiter_request (pp_awaiters s) ++ omap micro_request (pp_micro s).

Definition current (s : pstate) : Z := match pp_worker s with Some _ => 1 | None => 0 end.

(** The fields [startWorker] and [closeCompiler] keep together. *)
Definition ready_wf (s : pstate) : Prop :=
  match pp_ready s with
  | None => pp_worker s = None ∧ pp_resolvers s = false ∧ pp_awaiters s = [] ∧ pp_pending s = []
  | Some RPending => pp_worker s = Some (pp_started s) ∧ pp_resolvers s = true ∧ pp_pending s = []
  | Some RResolved => pp_worker s = Some (pp_started s) ∧ pp_resolvers s = false ∧ pp_awaiters s = []
  | Some (RRejected _) => pp_worker s = Some (pp_started s) ∧ pp_resolvers s = false ∧ pp_awaiters s = [] ∧ pp_pending s = []
  end.

(** How a request may end: with the answer the Worker posted for its id, or refused. *)
Definition outcome_wf (answers : list (Z * Z * outcome)) (posts : list posted) (r : Z) (o : outcome) : Prop :=
  match o with
  | RError _ => True
  | RThrown _ => False
  | ROk _ => ∃ po, po ∈ posts ∧ po_request po = r ∧ (po_worker po, po_id po, o) ∈ answers
  end.

(** [held] are the requests the running step has taken up and not yet put back. *)
Record page_wf (answers : list (Z * Z * outcome)) (held : list Z) (s : pstate) : Prop := PageWf {
  pw_requests : (pp_requests s).*1 = seqZ 1 (zlen (pp_requests s));
  pw_partition : (pp_settled s).*1 ++ held ++ open_requests s ≡ₚ (pp_requests s).*1;
  pw_ids : po_id <$> pp_posted s = seqZ 1 (pp_nextId s - 1);
  pw_next : 1 <= pp_nextId s;
  pw_pending : ∀ id r, (id, r) ∈ pp_pending s → ∃ po, po ∈ pp_posted s ∧ po_id po = id ∧ po_request po = r ∧ pp_worker s = Some (po_worker po);
  pw_pending_ids : NoDup (pp_pending s).*1;
  pw_settled : ∀ r o, (r, o) ∈ pp_settled s → outcome_wf answers (pp_posted s) r o;
  pw_ready : ready_wf s;
  pw_micro : ∀ w u, MAwaited w (Ok u) ∈ pp_micro s → pp_ready s = Some RResolved;
  pw_results : ∀ r o, MResult r o ∈ pp_micro s → (r, o) ∈ pp_settled s;
  pw_started : current s <= pp_started s;
  pw_terminated : pp_terminated s = seqZ 1 (pp_started s - current s)
}.

(** ** Closed forms *)

Lemma settle_all_run (ps : jmap Z Z) o s :
  (for_each ps (λ p, settle_request p.2 o) s) =
  (Ok tt, set_queue (pp_terminated s) (pp_micro s ++ ((λ p, MResult p.2 o) <$> ps)) (pp_ui s)
            (set_requests (pp_requests s) (pp_settled s ++ ((λ p, (p.2, o)) <$> ps)) s)).
Proof.
  revert s. induction ps as [|[id r] ps IH]; intros s; cbn [for_each fmap list_fmap].
  { unfold mret, js_ret. rewrite !app_nil_r. by destruct s. }
  erewrite bind_run by reflexivity. rewrite IH. cbn. by rewrite <- !app_assoc.
Qed.

Lemma page_wf_show answers held us s : page_wf answers held s → page_wf answers held (show us s).2.
Proof. by intros []. Qed.

Lemma page_wf_mono answers answers' held s : answers ⊆ answers' → page_wf answers held s → page_wf answers' held s.
Proof.
  intros Hs []. split; try done. intros r o Ho. specialize (pw_settled0 r o Ho). destruct o; [|done..].
  destruct pw_settled0 as (po & ? & ? & ?). exists po. split_and!; [done..|by apply Hs].
Qed.

(** [closeCompiler] in one step. *)
Definition closed (reason : string) (s : pstate) : pstate :=
  PState (pp_started s) None None false [] (pp_nextId s) [] (pp_requests s)
    (pp_settled s ++ ((λ p, (p.2, RError reason)) <$> pp_pending s)) (pp_posted s)
    (pp_terminated s ++ match pp_worker s with Some w => [w] | None => [] end)
    (pp_micro s ++ ((λ w, MAwaited w (Throw reason)) <$> pp_awaiters s) ++ ((λ p, MResult p.2 (RError reason)) <$> pp_pending s))
    (pp_ui s).

(** [settle_ready] in one step. *)
Definition readied (result : res ()) (s : pstate) : pstate :=
  if pp_resolvers s then
    set_queue (pp_terminated s) (pp_micro s ++ ((λ w, MAwaited w result) <$> pp_awaiters s)) (pp_ui s)
      (set_worker (pp_started s) (pp_worker s) (Some (match result with Ok _ => RResolved | Throw e => RRejected e end)) false [] s)
  else s.

Lemma settle_ready_run result s : settle_ready result s = (Ok tt, readied result s).
Proof. unfold settle_ready, readied. erewrite bind_run by reflexivity. by destruct (pp_resolvers s). Qed.

Lemma closeCompiler_run answers held reason s : page_wf answers held s → closeCompiler reason s = (Ok tt, closed reason s).
Proof.
  intros [_ _ _ _ _ _ _ Hr _ _ _ _]. unfold closeCompiler.
  erewrite bind_run by apply settle_ready_run. do 2 erewrite bind_run by reflexivity.
  erewrite bind_run by apply settle_all_run. erewrite bind_run by reflexivity.
  assert (pp_resolvers s = false → pp_awaiters s = []) as Ha.
  { intros E. unfold ready_wf in Hr. destruct (pp_ready s) as [[]|]; [destruct Hr as (_&?&_); congruence|apply Hr..]. }
  unfold modify, closed, readied. destruct (pp_resolvers s) eqn:E; cbn; [by rewrite <- app_assoc|]. by rewrite Ha.
Qed.

Lemma omap_awaited ready (ws : list awaiter) : omap micro_request ((λ w, MAwaited w ready) <$> ws) = omap awaiter_request ws.
Proof. induction ws as [|w ws IH]; [done|]. cbn in IH |- *. by rewrite IH. Qed.
Lemma omap_results (ps : jmap Z Z) o : omap micro_request ((λ p, MResult p.2 o) <$> ps) = [].
Proof. by induction ps. Qed.
Create Rewrite HintDb page.
#[local] Hint Rewrite @omap_app omap_awaited omap_results @fmap_app app_nil_r : page.
#[local] Hint Rewrite <- app_assoc : page.

Lemma seqZ_last n : 0 <= n → seqZ 1 (n + 1) = seqZ 1 n ++ [n + 1].
Proof. intros H. rewrite seqZ_app by lia. f_equal. rewrite (seqZ_cons _ 1) by lia. cbn. f_equal. lia. Qed.

(** The workers that were started are those terminated and the current one. *)
Lemma terminated_all answers held s : page_wf answers held s →
  pp_terminated s ++ match pp_worker s with Some w => [w] | None => [] end = seqZ 1 (pp_started s).
Proof.
  intros [_ _ _ _ _ _ _ Hr _ _ Hst Ht]. rewrite Ht. unfold current.
  destruct (pp_worker s) as [w|] eqn:E; [|by rewrite Z.sub_0_r, app_nil_r].
  assert (w = pp_started s) as ->.
  { unfold ready_wf in Hr. destruct (pp_ready s) as [[]|]; destruct Hr as [Hw _]; congruence. }
  unfold current in Hst. rewrite E in Hst. rewrite <- (Z.sub_add 1 (pp_started s)) at 2 3. symmetry. apply seqZ_last. lia.
Qed.

(** No request is about to go on: those that may are refused with the others. *)
Definition idle (s : pstate) : Prop := ∀ w u, MAwaited w (Ok u) ∉ pp_micro s.

Lemma idle_nil s : pp_micro s = [] → idle s.
Proof. intros E w u. rewrite E. apply not_elem_of_nil. Qed.

Lemma page_wf_closed answers held reason s : page_wf answers held s → idle s → page_wf answers held (closed reason s).
Proof.
  intros Hw Hidle. pose proof (terminated_all _ _ _ Hw) as Hall. destruct Hw as [Hq Hp Hi Hn Hpe Hnd Hs Hr Hm Hre Hst Ht].
  split; cbn; try done.
  - rewrite <- Hp. unfold open_requests. cbn. autorewrite with page. cbn.
    rewrite <- list_fmap_compose. solve_Permutation.
  - by intros ?? ?%not_elem_of_nil.
  - constructor.
  - intros r o [Ho|Ho]%elem_of_app; [by apply Hs|]. apply list_elem_of_fmap in Ho as (x & [= -> ->] & _). done.
  - intros w u [Hin|[(x & ? & _)%list_elem_of_fmap|(x & ? & _)%list_elem_of_fmap]%elem_of_app]%elem_of_app; [by apply Hidle in Hin|done..].
  - intros r o [Hin|[(x & ? & _)%list_elem_of_fmap|(x & [= -> ->] & Hx)%list_elem_of_fmap]%elem_of_app]%elem_of_app; [|done|].
    + apply elem_of_app. left. by apply Hre.
    + apply elem_of_app. right. apply list_elem_of_fmap. eauto.
  - unfold current. cbn. unfold current in Hst. destruct (pp_worker s); lia.
  - by rewrite Z.sub_0_r.
Qed.

Lemma page_wf_readied answers held result s : page_wf answers held s → page_wf answers held (readied result s).
Proof.
  intros [Hq Hp Hi Hn Hpe Hnd Hs Hr Hm Hre Hst Ht]. unfold readied. destruct (pp_resolvers s) eqn:E; [|done].
  unfold ready_wf in Hr. destruct (pp_ready s) as [[]|] eqn:Er; [|destruct Hr as (_&?&_); congruence..].
  destruct Hr as (Hwk & _ & Hpend). split; cbn; try done.
  - rewrite <- Hp. unfold open_requests. cbn. autorewrite with page. cbn. solve_Permutation.
  - unfold ready_wf. cbn. by destruct result.
  - intros w u [Hin|(x & [= <- <-] & _)%list_elem_of_fmap]%elem_of_app; [by apply Hm in Hin|done].
  - intros r o [Hin|(x & ? & _)%list_elem_of_fmap]%elem_of_app; [by apply Hre|done].
Qed.

(** [startWorker] and [await startWorker()] in one step. *)
Definition launched (s : pstate) : pstate :=
  match pp_ready s with
  | Some _ => s
  | None => set_worker (pp_started s + 1) (Some (pp_started s + 1)) (Some RPending) true []
              (set_queue (pp_terminated s) (pp_micro s) (pp_ui s ++ [UBusy true; UStatus "starting…" false]) s)
  end.

Definition awaited (w : awaiter) (s : pstate) : pstate :=
  match pp_ready s with
  | Some RPending => set_worker (pp_started s) (pp_worker s) (pp_ready s) (pp_resolvers s) (pp_awaiters s ++ [w]) s
  | Some RResolved => set_queue (pp_terminated s) (pp_micro s ++ [MAwaited w (Ok tt)]) (pp_ui s) s
  | Some (RRejected e) => set_queue (pp_terminated s) (pp_micro s ++ [MAwaited w (Throw e)]) (pp_ui s) s
  | None => s
  end.

Lemma await_ready_run w s : await_ready w s = (Ok tt, awaited w (launched s)).
Proof. unfold await_ready, startWorker, awaited, launched. by destruct (pp_ready s) as [[]|] eqn:E; unfold mbind, js_bind; cbn; rewrite ?E; cbn; rewrite ?E. Qed.

Lemma launched_ready s : is_Some (pp_ready (launched s)).
Proof. unfold launched. by destruct (pp_ready s) eqn:E; [rewrite E|]. Qed.

Lemma page_wf_launched answers held s : page_wf answers held s → page_wf answers held (launched s).
Proof.
  intros Hw. unfold launched. destruct (pp_ready s) eqn:E; [done|]. destruct Hw as [Hq Hp Hi Hn Hpe Hnd Hs Hr Hm Hre Hst Ht].
  unfold ready_wf in Hr. rewrite E in Hr. destruct Hr as (Hwk & Hres & Haw & Hpend). split; cbn; try done.
  - rewrite <- Hp. unfold open_requests. cbn. by rewrite Haw.
  - rewrite Hpend. by intros ?? ?%not_elem_of_nil.
  - intros w u Hin. apply Hm in Hin. congruence.
  - unfold current in *. cbn. rewrite Hwk in Hst. lia.
  - rewrite Ht. unfold current. cbn. rewrite Hwk. f_equal. lia.
Qed.

Definition held_by (w : awaiter) : list Z := match w with WRequest r => [r] | WActivate => [] end.

Lemma page_wf_awaited answers held w s : is_Some (pp_ready s) →
  page_wf answers (held_by w ++ held) s → page_wf answers held (awaited w s).
Proof.
  intros [rs Hrs] [Hq Hp Hi Hn Hpe Hnd Hs Hr Hm Hre Hst Ht]. unfold awaited. rewrite Hrs. unfold ready_wf in Hr. rewrite Hrs in Hr.
  assert (omap awaiter_request [w] = held_by w) as Hh by (by destruct w).
  assert (∀ ready, omap micro_request [MAwaited w ready] = held_by w) as Hh' by (by destruct w).
  assert (∀ m, omap micro_request (pp_micro s ++ [m]) = omap micro_request (pp_micro s) ++ omap micro_request [m]) as Hm'
    by (intros; apply omap_app).
  destruct rs; split; cbn; try done.
  all: try (by unfold ready_wf; cbn; rewrite Hrs).
  all: try (rewrite <- Hp; unfold open_requests; cbn -[omap]; rewrite ?Hm', ?omap_app, ?Hh, ?Hh'; solve_Permutation).
  - intros w' u Hin. rewrite <- Hrs. by eapply Hm.
  - intros r' o [Hin|Hin%list_elem_of_singleton]%elem_of_app; [by apply Hre|done].
  - intros w' u [Hin|Hin%list_elem_of_singleton]%elem_of_app; [by rewrite (Hm _ _ Hin) in Hrs|done].
  - intros r' o [Hin|Hin%list_elem_of_singleton]%elem_of_app; [by apply Hre|done].
Qed.

(** A new request is held until it waits. *)
Definition new_request (s : pstate) : Z := zlen (pp_requests s) + 1.
Definition numbered (o : owner) (kind text : string) (s : pstate) : pstate :=
  set_requests (mset (new_request s) (o, kind, text) (pp_requests s)) (pp_settled s) s.

Lemma request_run o kind text s :
  request o kind text s = (Ok tt, awaited (WRequest (new_request s)) (launched (numbered o kind text s))).
Proof. unfold request. do 2 erewrite bind_run by reflexivity. by rewrite await_ready_run. Qed.

Lemma new_request_fresh answers held s r : page_wf answers held s → r ∈ (pp_requests s).*1 → r ≠ new_request s.
Proof. intros Hw. rewrite (pw_requests _ _ _ Hw), elem_of_seqZ. unfold new_request. lia. Qed.

Lemma page_wf_numbered answers o kind text s : page_wf answers [] s → page_wf answers [new_request s] (numbered o kind text s).
Proof.
  intros Hw. pose proof (new_request_fresh _ _ _ (new_request s) Hw) as Hf.
  destruct Hw as [Hq Hp Hi Hn Hpe Hnd Hs Hr Hm Hre Hst Ht].
  assert (mset (new_request s) (o, kind, text) (pp_requests s) = pp_requests s ++ [(new_request s, (o, kind, text))]) as Hadd.
  { apply mset_absent, mget_None_keys. intros Hin. by apply Hf. }
  split; cbn; try done; rewrite Hadd.
  - rewrite fmap_app, zlen_app, Hq. symmetry. apply seqZ_last, zlen_nonneg.
  - rewrite fmap_app, <- Hp. unfold open_requests. cbn. solve_Permutation.
Qed.

Lemma page_wf_request answers o kind text s : page_wf answers [] s → page_wf answers [] (request o kind text s).2.
Proof.
  intros Hw. rewrite request_run. cbn [snd].
  apply page_wf_awaited; [apply launched_ready|]. by apply page_wf_launched, page_wf_numbered.
Qed.

(** ** Steps of one request *)

Lemma settle_request_run r o s : settle_request r o s =
  (Ok tt, set_queue (pp_terminated s) (pp_micro s ++ [MResult r o]) (pp_ui s) (set_requests (pp_requests s) (pp_settled s ++ [(r, o)]) s)).
Proof. reflexivity. Qed.

Lemma page_wf_settle answers held r o s : page_wf answers (r :: held) s → outcome_wf answers (pp_posted s) r o →
  page_wf answers held (settle_request r o s).2.
Proof.
  intros [Hq Hp Hi Hn Hpe Hnd Hs Hr Hm Hre Hst Ht] Ho. rewrite settle_request_run. split; cbn; try done.
  - rewrite <- Hp. unfold open_requests. cbn -[omap]. rewrite fmap_app, omap_app. cbn. solve_Permutation.
  - intros r' o' [Hin|[= -> ->]%list_elem_of_singleton]%elem_of_app; auto.
  - intros w u [Hin|Hin%list_elem_of_singleton]%elem_of_app; [by eapply Hm|done].
  - intros r' o' [Hin|[= -> ->]%list_elem_of_singleton]%elem_of_app; apply elem_of_app; [left; by apply Hre|right; by left].
Qed.

(** A request goes on once the Worker is ready: it is posted under the next id. *)
Lemma request_posted_run answers held opts r s : page_wf answers (r :: held) s → pp_ready s = Some RResolved →
  ∃ kind text, mget (pp_nextId s) (pp_pending s) = None ∧ pp_worker s = Some (pp_started s) ∧
  request_awaited opts r (Ok tt) s =
    (Ok tt, set_pending (pp_nextId s + 1) (pp_pending s ++ [(pp_nextId s, r)])
              (pp_posted s ++ [Posted (pp_started s) (pp_nextId s) r kind text opts]) s).
Proof.
  intros [Hq Hp Hi Hn Hpe Hnd Hs Hr Hm Hre Hst Ht] Hok.
  assert (pp_worker s = Some (pp_started s)) as Hwk by (unfold ready_wf in Hr; rewrite Hok in Hr; apply Hr).
  assert (r ∈ (pp_requests s).*1) as Hin by (rewrite <- Hp; set_solver).
  destruct (mget r (pp_requests s)) as [[[o kind] text]|] eqn:Em; [|by apply mget_None_keys in Em].
  assert (mget (pp_nextId s) (pp_pending s) = None) as Hfresh.
  { apply mget_None_keys. intros ([id r'] & Heq & Hin')%list_elem_of_fmap. apply Hpe in Hin' as (po & Hpo & <- & _).
    apply (list_elem_of_fmap_2 po_id) in Hpo. rewrite Hi, elem_of_seqZ in Hpo. cbn in Heq. lia. }
  exists kind, text. split_and!; [done..|].
  unfold request_awaited. do 2 erewrite bind_run by reflexivity. rewrite Hwk, Em. unfold modify. cbn.
  by rewrite mset_absent by done.
Qed.

Lemma page_wf_request_awaited answers opts r ready s :
  page_wf answers [r] s → (∀ u, ready = Ok u → pp_ready s = Some RResolved) →
  page_wf answers [] (request_awaited opts r ready s).2.
Proof.
  intros Hw Hok. destruct ready as [[]|e]; [|by apply (page_wf_settle answers [] r (RError e) s)].
  specialize (Hok tt eq_refl). destruct (request_posted_run answers [] opts r s Hw Hok) as (kind & text & Hfresh & Hwk & ->).
  destruct Hw as [Hq Hp Hi Hn Hpe Hnd Hs Hr Hm Hre Hst Ht]. split; cbn; try done.
  - rewrite <- Hp. unfold open_requests. cbn. rewrite fmap_app. cbn. solve_Permutation.
  - rewrite fmap_app, Hi, Z.add_simpl_r. cbn. pose proof (seqZ_last (pp_nextId s - 1)) as Hl.
    rewrite Z.sub_add in Hl. symmetry. apply Hl. lia.
  - lia.
  - intros id r' [Hin'|[= -> ->]%list_elem_of_singleton]%elem_of_app.
    + apply Hpe in Hin' as (po & ? & ?). exists po. split; [apply elem_of_app; by left|done].
    + exists (Posted (pp_started s) (pp_nextId s) r kind text opts). split; [apply elem_of_app; right; left|done].
  - rewrite fmap_app. apply NoDup_app. split_and!; [done| |apply NoDup_singleton].
    intros id Hid ->%list_elem_of_singleton. by apply mget_None_keys in Hfresh.
  - intros r' o' Ho. apply Hs in Ho. destruct o'; [|done..]. destruct Ho as (po & ? & ?). exists po.
    split; [apply elem_of_app; by left|done].
  - unfold ready_wf in *. cbn. by rewrite Hok in *.
Qed.

Lemma page_wf_pop answers m rest s : page_wf answers [] s → pp_micro s = m :: rest →
  page_wf answers (default [] (((λ r, [r]) <$> micro_request m))) (set_queue (pp_terminated s) rest (pp_ui s) s).
Proof.
  intros [Hq Hp Hi Hn Hpe Hnd Hs Hr Hm Hre Hst Ht] E. split; cbn; try done.
  - rewrite <- Hp. unfold open_requests. cbn. rewrite E. cbn. destruct (micro_request m); cbn; [|done]. solve_Permutation.
  - intros w u Hin. apply (Hm w u). rewrite E. by right.
  - intros r o Hin. apply Hre. rewrite E. by right.
Qed.

Lemma page_wf_answer answers held id reply s : page_wf answers held s →
  (∀ w, pp_worker s = Some w → (w, id, reply_outcome reply) ∈ answers) →
  page_wf answers held (onWorkerMessage (WAnswer id reply) s).2.
Proof.
  intros Hw Ha. cbn [onWorkerMessage]. erewrite bind_run by reflexivity.
  destruct (mget id (pp_pending s)) as [r|] eqn:Em; [|done]. erewrite bind_run by reflexivity.
  pose proof (mget_elem _ _ _ Em) as Hin. pose proof (pw_pending _ _ _ Hw _ _ Hin) as (po & Hpo & Hid & Hr & Hwk).
  apply page_wf_settle.
  - destruct Hw as [Hq Hp Hi Hn Hpe Hnd Hs Hrd Hm Hre Hst Ht]. split; cbn; try done.
    + rewrite <- Hp. unfold open_requests. cbn.
      rewrite (fmap_Permutation snd _ _ (mget_permutation id r (pp_pending s) Hnd Em)). cbn. solve_Permutation.
    + intros id' r' [? _]%elem_mdelete. by apply Hpe.
    + by apply NoDup_mdelete.
    + unfold ready_wf in *. cbn. destruct (pp_ready s) as [[]|]; naive_solver (by rewrite ?H2, ?H3).
  - destruct reply as [a|e]; [|done]. exists po. subst id r. split_and!; [done..|by apply Ha].
Qed.

Lemma page_wf_onmessage answers instance msg s : page_wf answers [] s → pp_micro s = [] →
  match msg with WAnswer id reply => (instance, id, reply_outcome reply) ∈ answers | _ => True end →
  page_wf answers [] (worker_onmessage instance msg s).2.
Proof.
  intros Hw E Ha. unfold worker_onmessage. erewrite bind_run by reflexivity.
  case_bool_decide as Hi; [|done]. cbn [when]. destruct msg as [m| |m|id reply]; cbn [onWorkerMessage].
  - by apply page_wf_show.
  - erewrite bind_run by reflexivity. rewrite settle_ready_run. by apply page_wf_readied, (page_wf_show _ _ _ s).
  - erewrite bind_run by reflexivity. rewrite settle_ready_run. by apply page_wf_readied, (page_wf_show _ _ _ s).
  - apply page_wf_answer; [done|]. intros w Hw'. congruence.
Qed.

Lemma page_wf_onerror answers instance message s : page_wf answers [] s → pp_micro s = [] →
  page_wf answers [] (worker_onerror instance message s).2.
Proof.
  intros Hw E. unfold worker_onerror. erewrite bind_run by reflexivity. case_bool_decide; [|done]. cbn [when].
  erewrite bind_run by reflexivity. erewrite closeCompiler_run by exact (page_wf_show _ _ _ s Hw).
  by apply page_wf_closed; [exact (page_wf_show _ _ _ s Hw)|apply idle_nil].
Qed.

(** ** What Run has under way *)

Definition weight (requests : jmap Z (owner * string * string)) (r : Z) : Z :=
  match mget r requests with Some (OCompile, _, _) => 1 | _ => 0 end.
Definition micro_weight (requests : jmap Z (owner * string * string)) (m : micro) : Z :=
  match m with MResult r _ => weight requests r | MRan _ _ => 1 | MAwaited _ _ => 0 end.

(** Compilations a page waits for, and programs that have ended and are still to be shown. *)
Definition load (s : pstate) : Z :=
  sumZ (weight (pp_requests s)) (open_requests s) + sumZ (micro_weight (pp_requests s)) (pp_micro s).

Lemma weight_awaited q ready (ws : list awaiter) : sumZ (micro_weight q) ((λ w, MAwaited w ready) <$> ws) = 0.
Proof. by induction ws. Qed.
Lemma weight_results q o (ps : jmap Z Z) : sumZ (micro_weight q) ((λ p, MResult p.2 o) <$> ps) = sumZ (weight q) ps.*2.
Proof. induction ps as [|p ps IH]; [done|]. exact (f_equal (Z.add (weight q p.2)) IH). Qed.
Lemma sumZ_nil {A} (f : A → Z) : sumZ f [] = 0.
Proof. done. Qed.
Lemma sumZ_cons {A} (f : A → Z) x l : sumZ f (x :: l) = f x + sumZ f l.
Proof. done. Qed.
#[local] Hint Rewrite @sumZ_app @sumZ_nil @sumZ_cons weight_awaited weight_results : page.

Ltac loads := unfold load, open_requests; cbn -[omap Z.add sumZ weight]; autorewrite with page; cbn -[Z.add sumZ weight]; autorewrite with page.

Lemma load_closed reason s : load (closed reason s) = load s.
Proof. loads. lia. Qed.

Lemma load_readied result s : load (readied result s) = load s.
Proof. unfold readied. destruct (pp_resolvers s); [|done]. loads. lia. Qed.

Lemma load_launched answers held s : page_wf answers held s → load (launched s) = load s.
Proof.
  intros Hw. unfold launched. destruct (pp_ready s) eqn:E; [done|]. apply pw_ready in Hw. unfold ready_wf in Hw.
  rewrite E in Hw. destruct Hw as (_ & _ & Ha & _). loads. by rewrite Ha.
Qed.

Lemma load_awaited w s : is_Some (pp_ready s) → load (awaited w s) = load s + sumZ (weight (pp_requests s)) (held_by w).
Proof. intros [r E]. unfold awaited. rewrite E. by destruct r, w; loads; cbn; lia. Qed.

Lemma load_settle r o s : load (settle_request r o s).2 = load s + weight (pp_requests s) r.
Proof. rewrite settle_request_run. loads. lia. Qed.

(** The requests a page knows of keep their weight when one is added. *)
Lemma load_numbered answers o kind text s : page_wf answers [] s → load (numbered o kind text s) = load s.
Proof.
  intros Hw. pose proof Hw as [_ Hp _ _ _ _ _ _ _ Hre _ _].
  assert (∀ r, r ∈ (pp_requests s).*1 → weight (pp_requests (numbered o kind text s)) r = weight (pp_requests s) r) as Hsame.
  { intros r Hr. unfold weight. cbn. rewrite mget_mset_ne; [done|]. intros <-. by eapply new_request_fresh. }
  unfold load. f_equal.
  - apply sumZ_ext. intros r Hr. apply Hsame. rewrite <- Hp, elem_of_app. by right.
  - apply sumZ_ext. intros m Hm. destruct m as [| |]; [done| |done]. apply Hsame. rewrite <- Hp, elem_of_app. left.
    apply (list_elem_of_fmap_2 fst _ _ (Hre _ _ Hm)).
Qed.

Lemma launched_requests s : pp_requests (launched s) = pp_requests s.
Proof. unfold launched. by destruct (pp_ready s). Qed.

Lemma load_request answers o kind text s : page_wf answers [] s →
  load (request o kind text s).2 = load s + match o with OCompile => 1 | _ => 0 end.
Proof.
  intros Hw. rewrite request_run. cbn [snd]. rewrite load_awaited by apply launched_ready.
  erewrite load_launched by by apply page_wf_numbered. erewrite load_numbered by done.
  rewrite launched_requests. cbn -[Z.add weight]. unfold weight. cbn. rewrite mget_mset_eq. destruct o; lia.
Qed.

Lemma load_request_awaited answers opts r ready s :
  page_wf answers [r] s → (∀ u, ready = Ok u → pp_ready s = Some RResolved) →
  load (request_awaited opts r ready s).2 = load s + weight (pp_requests s) r.
Proof.
  intros Hw Hok. destruct ready as [[]|e]; [|apply (load_settle r (RError e) s)].
  destruct (request_posted_run answers [] opts r s Hw (Hok tt eq_refl)) as (kind & text & _ & _ & ->). loads. lia.
Qed.

Lemma load_pop m rest s : pp_micro s = m :: rest →
  load s = load (set_queue (pp_terminated s) rest (pp_ui s) s) + micro_weight (pp_requests s) m +
           sumZ (weight (pp_requests s)) (default [] ((λ r, [r]) <$> micro_request m)).
Proof. intros E. loads. rewrite E. destruct m as [[]| |]; loads; cbn; lia. Qed.

Lemma sumZ_perm {A} (f : A → Z) l l' : l ≡ₚ l' → sumZ f l = sumZ f l'.
Proof. unfold sumZ. induction 1; cbn; lia. Qed.

Lemma load_onmessage answers held instance msg s : page_wf answers held s → load (worker_onmessage instance msg s).2 = load s.
Proof.
  intros Hw. unfold worker_onmessage. erewrite bind_run by reflexivity.
  case_bool_decide as Hi; [|done]. cbn [when]. destruct msg as [m| |m|id reply]; cbn [onWorkerMessage].
  - done.
  - erewrite bind_run by reflexivity. rewrite settle_ready_run. exact (load_readied _ (show _ s).2).
  - erewrite bind_run by reflexivity. rewrite settle_ready_run. exact (load_readied _ (show _ s).2).
  - erewrite bind_run by reflexivity. destruct (mget id (pp_pending s)) as [r|] eqn:Em; [|done].
    erewrite bind_run by reflexivity. rewrite load_settle. loads.
    rewrite (sumZ_perm _ _ _ (fmap_Permutation snd _ _ (mget_permutation id r _ (pw_pending_ids _ _ _ Hw) Em))). loads. lia.
Qed.

Lemma load_onerror answers held instance message s : page_wf answers held s → load (worker_onerror instance message s).2 = load s.
Proof.
  intros Hw. unfold worker_onerror. erewrite bind_run by reflexivity. case_bool_decide; [|done]. cbn [when].
  erewrite bind_run by reflexivity. erewrite closeCompiler_run by exact (page_wf_show _ _ _ s Hw).
  exact (load_closed _ (show _ s).2).
Qed.

(** ** The whole page *)

Definition running (p : ppage) : Z := match pp_cancelRun p with Some _ => 1 | None => 0 end.

(** [taken] is 1 while the running step goes on with the compilation or the program that Run waits
    for: whatever Run has under way is one thing, and it is there as long as the button says Stop. *)
Record reader_wf (answers : list (Z * Z * outcome)) (taken : Z) (p : ppage) : Prop := ReaderWf {
  rw_state : page_wf answers [] (pp_state p);
  rw_load : load (pp_state p) + running p + taken = Z.b2z (pp_compilePending p);
  rw_applications : (pp_applications p).*1 = seqZ 1 (zlen (pp_applications p));
  rw_running : ∀ k, k ∈ (pp_applications p).*1 → (k ∉ pp_stopped p) → pp_cancelRun p = Some k;
  rw_cancel : ∀ k, pp_cancelRun p = Some k → k ∈ (pp_applications p).*1 ∧ (k ∉ pp_stopped p);
  rw_stopped : NoDup (pp_stopped p);
  rw_stopped_applications : pp_stopped p ⊆ (pp_applications p).*1
}.

(** A computation that returns, from [P] to [Q]. *)
Definition carries {S A} (P Q : S → Prop) (m : js S A) : Prop := ∀ s, P s → ∃ a s', m s = (Ok a, s') ∧ Q s'.

Lemma carries_bind {S A B} (P Q R : S → Prop) (m : js S A) (k : A → js S B) :
  carries P Q m → (∀ a, carries Q R (k a)) → carries P R (m ≫= k).
Proof. intros Hm Hk s (a & s' & E & Hq)%Hm. destruct (Hk a s' Hq) as (b & s'' & E' & Hr). exists b, s''. by erewrite bind_run. Qed.

Lemma carries_modify {S} (P Q : S → Prop) f : (∀ s, P s → Q (f s)) → carries P Q (modify f).
Proof. intros H s Hs. exists tt, (f s). split; [done|by apply H]. Qed.

Lemma carries_2 {S A} (P Q : S → Prop) (m : js S A) s : carries P Q m → P s → Q (m s).2.
Proof. intros Hm (a & s' & -> & Hq)%Hm. done. Qed.

Section Answers.
Context (answers : list (Z * Z * outcome)).

Lemma load_nonneg s : 0 <= load s.
Proof.
  unfold load. assert (∀ q r, 0 <= weight q r) as Hw by (intros q r; unfold weight; repeat case_match; lia).
  assert (0 <= sumZ (weight (pp_requests s)) (open_requests s)) by (apply sumZ_nonneg; auto).
  assert (0 <= sumZ (micro_weight (pp_requests s)) (pp_micro s)); [|lia].
  apply sumZ_nonneg. intros [] _; cbn; auto; lia.
Qed.

(** A step on the Worker's part that adds [n] to what is under way. *)
Lemma reader_state t n p s' : reader_wf answers (t + n) p → page_wf answers [] s' → load s' = load (pp_state p) + n →
  reader_wf answers t (set_state s' p).
Proof. intros [] Hw Hl. split; try done. cbn. unfold running in *. cbn. lia. Qed.

Lemma on_state_run {A} (m : js pstate A) p : on_state m p = ((m (pp_state p)).1, set_state (m (pp_state p)).2 p).
Proof. unfold on_state, zoom. by destruct (m (pp_state p)). Qed.

Lemma carries_shows t us : carries (reader_wf answers t) (reader_wf answers t) (shows us).
Proof.
  intros p Hp. unfold shows. rewrite on_state_run. eexists _, _. split; [done|].
  apply (reader_state t 0); [by rewrite Z.add_0_r|by eapply page_wf_show, rw_state|]. by rewrite Z.add_0_r.
Qed.

Lemma carries_request t o kind text :
  carries (reader_wf answers (t + match o with OCompile => 1 | _ => 0 end)) (reader_wf answers t) (on_state (request o kind text)).
Proof.
  intros p Hp. exists tt, (set_state (request o kind text (pp_state p)).2 p).
  split; [by rewrite on_state_run, request_run|]. eapply reader_state; [exact Hp|by eapply page_wf_request, rw_state|]. by eapply load_request, rw_state.
Qed.

(** Changes of the page that are no part of the invariant. *)
Lemma carries_set_check t f g : carries (reader_wf answers t) (reader_wf answers t) (modify (λ p, set_check (f p) (g p) p)).
Proof. apply carries_modify. by intros p []. Qed.
Lemma carries_set_document t f g h i :
  carries (reader_wf answers t) (reader_wf answers t) (modify (λ p, set_document (f p) (g p) (h p) (i p) p)).
Proof. apply carries_modify. by intros p []. Qed.

Lemma carries_summary t diags extra : carries (reader_wf answers t) (reader_wf answers t) (setOutputSummary diags extra).
Proof. unfold setOutputSummary. destruct (summarize diags) as [[e w] text]. apply carries_shows. Qed.
Lemma carries_status t diags : carries (reader_wf answers t) (reader_wf answers t) (checked_status diags).
Proof. unfold checked_status. destruct (summarize diags) as [[e w] text]. apply carries_shows. Qed.
Lemma carries_gets {A} (P : ppage → Prop) (f : ppage → A) : carries P P (gets f).
Proof. intros p Hp. by exists (f p), p. Qed.
Lemma carries_ret {A} (P : ppage → Prop) (a : A) : carries P P (mret a).
Proof. intros p Hp. by exists a, p. Qed.
Lemma carries_diagnostics t diags : carries (reader_wf answers t) (reader_wf answers t) (applyDiagnostics diags).
Proof. unfold applyDiagnostics. eapply carries_bind; [apply carries_gets|]. intros ?. apply carries_shows. Qed.

(** Run ends. *)
Lemma carries_finally : carries (reader_wf answers 1) (reader_wf answers 0) compile_finally.
Proof.
  unfold compile_finally. eapply carries_bind; [apply carries_shows|]. intros _.
  eapply carries_bind; [|intros _; apply carries_shows]. apply carries_modify. intros p []. split; try done.
  cbn. unfold running in *. cbn. pose proof (load_nonneg (pp_state p)). destruct (pp_cancelRun p), (pp_compilePending p); cbn in *; lia.
Qed.

(** A program starts. *)
Lemma carries_generated diags : carries (reader_wf answers 1) (reader_wf answers 0) (runGenerated diags).
Proof.
  apply carries_modify. intros p [Hs Hl Ha Hr Hc Hnd Hsub]. set (k := zlen (pp_applications p) + 1).
  assert (k ∉ (pp_applications p).*1) as Hk by (rewrite Ha, elem_of_seqZ; subst k; lia).
  assert (mset k diags (pp_applications p) = pp_applications p ++ [(k, diags)]) as E by (by apply mset_absent, mget_None_keys).
  assert (pp_cancelRun p = None) as Hn.
  { unfold running in Hl. pose proof (load_nonneg (pp_state p)). destruct (pp_cancelRun p), (pp_compilePending p); cbn in *; (done || lia). }
  split; cbn; rewrite ?E, ?fmap_app; cbn.
  - done.
  - unfold running in *. rewrite Hn in Hl. cbn. lia.
  - rewrite zlen_app, Ha. symmetry. apply seqZ_last, zlen_nonneg.
  - intros k' [Hin|Hin%list_elem_of_singleton]%elem_of_app Hns; [|by subst]. rewrite (Hr _ Hin Hns) in Hn. done.
  - intros k' [= <-]. split; [apply elem_of_app; right; left|]. intros Hin. by apply Hsub in Hin.
  - done.
  - set_solver.
Qed.

(** A program ends, or is stopped: it is terminated and its result waits to be shown. *)
Lemma carries_finish t k result : carries (reader_wf answers t) (reader_wf answers t) (finish k result).
Proof.
  intros p Hp. unfold finish. erewrite bind_run by reflexivity.
  destruct (mget k (pp_applications p)) as [diags|] eqn:Ek; [|by eexists _, _].
  case_bool_decide as Hst; [by eexists _, _|]. erewrite bind_run by reflexivity. rewrite on_state_run. eexists _, _. split; [done|].
  destruct Hp as [Hs Hl Ha Hr Hc Hnd Hsub]. assert (k ∈ (pp_applications p).*1) as Hin.
  { apply mget_elem in Ek. by apply (list_elem_of_fmap_2 fst) in Ek. }
  pose proof (Hr _ Hin Hst) as Hk. split; cbn.
  - destruct Hs as [Hq Hp Hi Hn Hpe Hnd' Hse Hrd Hm Hre Hst' Ht]. split; cbn; try done.
    + rewrite <- Hp. unfold open_requests. cbn. autorewrite with page. done.
    + intros w u [Hin'|Hin'%list_elem_of_singleton]%elem_of_app; [by eapply Hm|done].
    + intros r o [Hin'|Hin'%list_elem_of_singleton]%elem_of_app; [by apply Hre|done].
  - unfold running in *. rewrite Hk in Hl. cbn. rewrite <- Hl. loads. lia.
  - done.
  - intros k' Hin' [Hns Hne]%not_elem_of_app. rewrite (Hr _ Hin' Hns) in Hk. injection Hk as ->. set_solver.
  - done.
  - apply NoDup_app. split_and!; [done| |apply NoDup_singleton]. intros k' Hk' Hks%list_elem_of_singleton. by subst.
  - intros k' [Hk'|Hk'%list_elem_of_singleton]%elem_of_app; [by apply Hsub|by subst].
Qed.

Lemma carries_checkNow t : carries (reader_wf answers t) (reader_wf answers t) checkNow.
Proof.
  intros p Hp. unfold checkNow. erewrite bind_run by reflexivity.
  refine (carries_bind _ _ _ _ _ (carries_set_check t _ _) _ p Hp). intros _.
  eapply carries_bind; [apply carries_shows|]. intros _.
  rewrite <- (Z.add_0_r t) at 1. apply (carries_request t (OCheck _)).
Qed.

Lemma carries_check_result t g o : match o with RThrown _ => False | _ => True end →
  carries (reader_wf answers t) (reader_wf answers t) (check_result g o).
Proof.
  intros Ho. unfold check_result. eapply carries_bind; [apply carries_gets|]. intros p.
  destruct o as [a|e|e]; [..|done]; (destruct (negb _); [apply carries_ret|]).
  - eapply carries_bind; [apply carries_diagnostics|]. intros _. eapply carries_bind; [apply carries_status|]. intros _.
    eapply carries_bind; [apply carries_summary|]. intros _. apply carries_shows.
  - apply carries_shows.
Qed.

Lemma carries_compile_result o : match o with RThrown _ => False | _ => True end →
  carries (reader_wf answers 1) (reader_wf answers 0) (compile_result o).
Proof.
  intros Ho. unfold compile_result. destruct o as [a|e|e]; [..|done].
  - eapply carries_bind; [apply carries_diagnostics|]. intros _. eapply carries_bind; [apply carries_status|]. intros _.
    destruct (truthy (an_code a)).
    + eapply carries_bind; [apply carries_summary|]. intros _. apply carries_generated.
    + eapply carries_bind; [apply carries_shows|]. intros _. eapply carries_bind; [apply carries_summary|]. intros _. apply carries_finally.
  - eapply carries_bind; [apply carries_shows|]. intros _. apply carries_finally.
Qed.

Lemma carries_ran diags result : carries (reader_wf answers 1) (reader_wf answers 0) (ran diags result).
Proof.
  unfold ran. eapply carries_bind; [|intros _; apply carries_finally].
  destruct result; (eapply carries_bind; [apply carries_shows|]; intros _; apply carries_summary).
Qed.

(** Closing the compiler. *)
Lemma carries_close t reason :
  carries (λ p, reader_wf answers t p ∧ idle (pp_state p)) (reader_wf answers t) (on_state (closeCompiler reason)).
Proof.
  intros p [Hp Hi]. exists tt, (set_state (closed reason (pp_state p)) p).
  split; [by rewrite on_state_run; erewrite closeCompiler_run by by eapply rw_state|].
  apply (reader_state t 0); [by rewrite Z.add_0_r|by eapply page_wf_closed; [eapply rw_state|]|].
  by rewrite load_closed, Z.add_0_r.
Qed.

Lemma reader_compileNow p : reader_wf answers 0 p → pp_micro (pp_state p) = [] → reader_wf answers 0 (compileNow p).2.
Proof.
  intros Hp Hm. unfold compileNow. erewrite bind_run by reflexivity. destruct (pp_compilePending p) eqn:Ec.
  - destruct (pp_cancelRun p) as [k|]; [by apply (carries_2 _ _ _ _ (carries_finish 0 k _))|].
    apply (carries_2 _ _ _ _ (carries_close 0 _)). by split; [|apply idle_nil].
  - erewrite bind_run by reflexivity. eapply (carries_2 (reader_wf answers 1)).
    + eapply carries_bind; [apply (carries_set_check 1 (λ _, _) (λ _, _))|]. intros _.
      eapply carries_bind; [apply carries_shows|]. intros _. eapply carries_bind; [apply carries_summary|]. intros _.
      eapply carries_bind; [apply carries_shows|]. intros _. apply (carries_request 0 OCompile).
    + destruct Hp as [? Hl]. split; try done. cbn. unfold running in *. cbn. rewrite Ec in Hl. cbn in Hl. lia.
Qed.

Lemma reader_pagehide p : reader_wf answers 0 p → pp_micro (pp_state p) = [] → reader_wf answers 0 (pagehide p).2.
Proof.
  intros Hp Hm. unfold pagehide. erewrite bind_run by reflexivity.
  destruct (pp_cancelRun p) as [k|] eqn:Ek.
  - destruct (carries_finish 0 k (Throw "Program stopped") p Hp) as ([] & p' & E & Hp'). erewrite bind_run by exact E.
    apply (carries_2 _ _ _ _ (carries_close 0 _)). split; [done|]. intros w u.
    replace p' with (finish k (Throw "Program stopped") p).2 by (by rewrite E). unfold finish. erewrite bind_run by reflexivity.
    destruct (mget k (pp_applications p)); [|cbn; rewrite Hm; apply not_elem_of_nil].
    case_bool_decide; [cbn; rewrite Hm; apply not_elem_of_nil|].
    erewrite bind_run by reflexivity. rewrite on_state_run. cbn. rewrite Hm. cbn. by intros ?%list_elem_of_singleton.
  - erewrite bind_run by reflexivity. apply (carries_2 _ _ _ _ (carries_close 0 _)). by split; [|apply idle_nil].
Qed.

(** The function that waits for a settled promise goes on. *)
Lemma reader_pop p m rest t : reader_wf answers t p → pp_micro (pp_state p) = m :: rest → micro_request m = None →
  reader_wf answers (t + micro_weight (pp_requests (pp_state p)) m)
    (set_state (set_queue (pp_terminated (pp_state p)) rest (pp_ui (pp_state p)) (pp_state p)) p).
Proof.
  intros Hp Hm Hn. pose proof (page_wf_pop _ _ _ _ (rw_state _ _ _ Hp) Hm) as Hw. rewrite Hn in Hw.
  eapply (reader_state _ (- micro_weight (pp_requests (pp_state p)) m)); [|exact Hw|].
  - by replace (t + _ + _) with t by lia.
  - pose proof (load_pop _ _ _ Hm) as Hl. rewrite Hn in Hl. cbn [from_option fmap option_fmap option_map sumZ foldr] in Hl. lia.
Qed.

Lemma reader_micro p : reader_wf answers 0 p → reader_wf answers 0 (run_micro p).2.
Proof.
  intros Hp. unfold run_micro. erewrite bind_run by reflexivity. destruct (pp_micro (pp_state p)) as [|m rest] eqn:Em; [done|].
  erewrite bind_run by (rewrite on_state_run; reflexivity). cbn [snd modify].
  destruct m as [[r|] ready|r o|diags result].
  - rewrite on_state_run. cbn [snd pp_state set_state].
    pose proof (page_wf_pop _ _ _ _ (rw_state _ _ _ Hp) Em) as Hw. cbn in Hw.
    assert (∀ u, ready = Ok u → pp_ready (pp_state p) = Some RResolved) as Hok.
    { intros u ->. eapply pw_micro; [by eapply rw_state|]. rewrite Em. left. }
    pose proof (load_pop _ _ _ Em) as Hl. cbn -[load Z.add weight] in Hl.
    match goal with |- reader_wf _ _ (set_state ?s _) => change (set_state s _) with (set_state s p) end.
    apply (reader_state 0 0); [done|by apply page_wf_request_awaited|].
    erewrite load_request_awaited by done. cbn -[load Z.add weight]. lia.
  - pose proof (reader_pop p _ _ 0 Hp Em eq_refl) as Hq. cbn -[set_queue] in Hq.
    destruct ready; [|done]. by apply (carries_2 _ _ _ _ (carries_checkNow 0)).
  - pose proof (reader_pop p _ _ 0 Hp Em eq_refl) as Hq. cbn [micro_weight] in Hq. unfold weight in Hq.
    assert (match o with RThrown _ => False | _ => True end) as Ho.
    { assert ((r, o) ∈ pp_settled (pp_state p)) as Hs by (eapply pw_results; [by eapply rw_state|]; rewrite Em; left).
      pose proof (pw_settled _ _ _ (rw_state _ _ _ Hp) _ _ Hs) as Hwf. by destruct o. }
    destruct (mget r (pp_requests (pp_state p))) as [[[[| |] kind] text]|]; [done| | |done].
    + by apply (carries_2 _ _ _ _ (carries_check_result 0 _ _ Ho)).
    + by apply (carries_2 _ _ _ _ (carries_compile_result _ Ho)).
  - pose proof (reader_pop p _ _ 0 Hp Em eq_refl) as Hq. by apply (carries_2 _ _ _ _ (carries_ran diags result)).
Qed.
End Answers.

(** ** Events *)

(** What the Workers answered, as (Worker, id, outcome). *)
Definition answers_of (evs : list page_event) : list (Z * Z * outcome) :=
  omap (λ ev, match ev with EMessage w (WAnswer id reply) => Some (w, id, reply_outcome reply) | _ => None end) evs.

Lemma reader_wf_mono answers answers' t p : answers ⊆ answers' → reader_wf answers t p → reader_wf answers' t p.
Proof. intros Hs []. split; try done. by eapply page_wf_mono. Qed.

Lemma reader_event answers ev p : answers_of [ev] ⊆ answers → reader_wf answers 0 p → reader_wf answers 0 (run_page_event ev p).
Proof.
  intros Ha Hp. unfold run_page_event. destruct ev; try (by apply reader_micro).
  all: destruct (pp_micro (pp_state p)) eqn:Em; [|done]; cbn [handle_event].
  - rewrite on_state_run. cbn [snd]. apply (reader_state answers 0 0); [done| |].
    + apply page_wf_onmessage; [by eapply rw_state|done|]. destruct msg; try done. apply Ha. left.
    + rewrite Z.add_0_r. by eapply load_onmessage, rw_state.
  - rewrite on_state_run. cbn [snd]. apply (reader_state answers 0 0); [done| |].
    + apply page_wf_onerror; [by eapply rw_state|done].
    + rewrite Z.add_0_r. by eapply load_onerror, rw_state.
  - eapply carries_2; [|exact Hp]. eapply carries_bind; [apply carries_set_document|]. intros _. apply (carries_set_check _ _ _ (λ _, _)).
  - eapply carries_2; [|exact Hp]. eapply carries_bind; [|intros _; apply carries_shows].
    eapply carries_bind; [apply carries_set_document|]. intros _. apply (carries_set_check _ _ _ (λ _, _)).
  - erewrite bind_run by reflexivity. destruct (pp_checkTimer p); [|done]. cbn [when]. eapply carries_2; [|exact Hp].
    eapply carries_bind; [apply (carries_set_check _ _ (λ _, _) (λ _, _))|]. intros _. apply carries_checkNow.
  - by apply reader_compileNow.
  - by apply (carries_2 _ _ _ _ (carries_request answers 0 OHover _ _)).
  - by apply (carries_2 _ _ _ _ (carries_finish answers 0 _ _)).
  - unfold activateCompiler. erewrite bind_run by reflexivity. destruct (pp_activated p); [done|]. cbn [negb when].
    erewrite bind_run by reflexivity. rewrite on_state_run, await_ready_run. cbn [snd].
    pose proof (rw_state _ _ _ Hp) as Hs.
    match goal with |- reader_wf _ _ (set_state ?s ?q) => apply (reader_state answers 0 0 q s) end.
    + by destruct Hp.
    + apply (page_wf_awaited _ _ WActivate); [apply launched_ready|]. by apply page_wf_launched.
    + cbn [pp_state set_document]. rewrite load_awaited by apply launched_ready. erewrite load_launched by done. done.
  - unfold toggle_compat, set_options. erewrite bind_run by reflexivity. eapply carries_2; [|exact Hp].
    eapply carries_bind; [apply (carries_set_document _ _ _ (λ _, _))|]. intros _. apply carries_checkNow.
  - unfold toggle_optimize, set_options. erewrite bind_run by reflexivity. eapply carries_2; [|exact Hp]. apply (carries_set_document _ _ _ (λ _, _)).
  - by apply reader_pagehide.
Qed.

Lemma reader_run answers evs p : answers_of evs ⊆ answers → reader_wf answers 0 p → reader_wf answers 0 (run_page evs p).
Proof.
  revert p. induction evs as [|ev evs IH]; intros p Ha Hp; [done|]. cbn [run_page foldl].
  assert (answers_of [ev] ⊆ answers ∧ answers_of evs ⊆ answers) as [H1 H2].
  { change (ev :: evs) with ([ev] ++ evs) in Ha. unfold answers_of in *. rewrite omap_app in Ha. set_solver. }
  apply IH; [done|by apply reader_event].
Qed.

Lemma reader_loaded answers opts source docLength : reader_wf answers 0 (page_loaded opts source docLength).
Proof.
  split; cbn; try done; try (by intros ? ?%not_elem_of_nil); try constructor; cbn; try done; try lia; try constructor.
  all: by intros ?? ?%not_elem_of_nil.
Qed.

Lemma reader_reached evs opts source docLength :
  reader_wf (answers_of evs) 0 (run_page evs (page_loaded opts source docLength)).
Proof. apply reader_run; [done|apply reader_loaded]. Qed.

(** C21 Every request the playground's page makes is settled at most once and never lost, whatever the
    reader does and the Workers post, fail or keep silent: settled requests and those that wait are
    together all requests, each once; a request that succeeded got the answer the Worker posted for
    the id under which it was sent to that Worker; ids are never reused; when there is no Worker
    nothing waits for one; and every Worker but the current one was terminated, in order. *)
Theorem playground_requests_settle evs opts source docLength :
  let s := pp_state (run_page evs (page_loaded opts source docLength)) in
  (pp_settled s).*1 ++ open_requests s ≡ₚ seqZ 1 (zlen (pp_requests s)) ∧
  (∀ r a, (r, ROk a) ∈ pp_settled s → ∃ po, po ∈ pp_posted s ∧ po_request po = r ∧ (po_worker po, po_id po, ROk a) ∈ answers_of evs) ∧
  po_id <$> pp_posted s = seqZ 1 (pp_nextId s - 1) ∧
  (pp_worker s = None → pp_pending s = [] ∧ pp_awaiters s = []) ∧
  pp_terminated s ++ match pp_worker s with Some w => [w] | None => [] end = seqZ 1 (pp_started s).
Proof.
  intros s. pose proof (rw_state _ _ _ (reader_reached evs opts source docLength)) as Hw. fold s in Hw.
  pose proof (terminated_all _ _ _ Hw) as Ht. destruct Hw as [Hq Hp Hi Hn Hpe Hnd Hs Hr Hm Hre Hst _].
  split_and!; [by rewrite <- Hq|intros r a Hin; by apply Hs in Hin|done| |done].
  unfold ready_wf in Hr. intros E. destruct (pp_ready s) as [[]|]; destruct Hr as (Hw & ? & Hr); try congruence. naive_solver.
Qed.

(** ** Stop *)

(** After the compiler was closed every promise left to run is one that failed. *)
Definition failing (m : micro) : Prop :=
  match m with MAwaited _ (Throw _) | MResult _ (RError _) => True | _ => False end.
Definition cost (m : micro) : nat := match m with MAwaited _ _ => 2 | _ => 1 end.
Definition micro_cost (ms : list micro) : nat := sum_list_with cost ms.

Record quiet (p : ppage) : Prop := Quiet {
  qu_failing : Forall failing (pp_micro (pp_state p));
  qu_ready : pp_ready (pp_state p) = None;
  qu_cancel : pp_cancelRun p = None
}.

(** One of them runs: nothing starts, and there is less to run. *)
Lemma quiet_micro p m rest : quiet p → pp_micro (pp_state p) = m :: rest →
  quiet (run_micro p).2 ∧ (micro_cost (pp_micro (pp_state (run_micro p).2)) < micro_cost (m :: rest))%nat.
Proof.
  intros [Hf Hr Hc] Em. rewrite Em in Hf. apply Forall_cons in Hf as [Hm Hrest].
  unfold run_micro. erewrite bind_run by reflexivity. rewrite Em.
  erewrite bind_run by (rewrite on_state_run; reflexivity). cbn [snd modify].
  destruct m as [[r|] [u|e]|r [a|e|e]|]; try done.
  - rewrite on_state_run. cbn [request_awaited snd]. rewrite settle_request_run. cbn. unfold micro_cost.
    rewrite sum_list_with_app. split; [split; cbn; [|done..]|cbn; lia].
    apply Forall_app. split; [done|by repeat constructor].
  - cbn. split; [by split|]. unfold micro_cost. cbn. lia.
  - destruct (mget r (pp_requests (pp_state p))) as [[[[| |] kind] text]|].
    all: try (cbn; split; [by split|]; unfold micro_cost; cbn; lia).
    + unfold check_result. erewrite bind_run by reflexivity.
      destruct (negb _); cbn; (split; [by split|]; unfold micro_cost; cbn; lia).
    + split; [by split|]. exact (Nat.lt_succ_diag_r _).
Qed.

Lemma quiet_drain n p : quiet p → (micro_cost (pp_micro (pp_state p)) <= n)%nat →
  let p' := run_page (replicate n EMicro) p in quiet p' ∧ pp_micro (pp_state p') = [].
Proof.
  revert p. induction n as [|n IH]; intros p Hq Hn; cbn [replicate run_page foldl].
  - split; [done|]. destruct (pp_micro (pp_state p)) as [|m rest]; [done|]. unfold micro_cost in Hn. cbn in Hn. destruct m; cbn in Hn; lia.
  - destruct (pp_micro (pp_state p)) as [|m rest] eqn:Em.
    + apply IH; unfold run_page_event; cbn [handle_event]; unfold run_micro; erewrite bind_run by reflexivity; rewrite Em; cbn; rewrite ?Em; (done || cbn; lia).
    + destruct (quiet_micro p m rest Hq Em) as [Hq' Hlt]. apply IH; unfold run_page_event; cbn [handle_event]; [done|lia].
Qed.

Lemma run_page_app evs evs' p : run_page (evs ++ evs') p = run_page evs' (run_page evs p).
Proof. apply foldl_app. Qed.

(** What [ran] leaves of the page. *)
Lemma ran_ends diags result p : let p' := (ran diags result p).2 in
  pp_compilePending p' = false ∧ pp_cancelRun p' = pp_cancelRun p ∧ pp_micro (pp_state p') = pp_micro (pp_state p).
Proof. unfold ran, setOutputSummary. by destruct result, (summarize diags) as [[? ?] ?]. Qed.

Lemma answers_micro n : answers_of (ERun :: replicate n EMicro) = [].
Proof. unfold answers_of. cbn. by induction n as [|n IH]. Qed.

Lemma reader_stop answers n p : reader_wf answers 0 p → reader_wf answers 0 (run_page (ERun :: replicate n EMicro) p).
Proof. intros Hp. apply reader_run; [|done]. rewrite answers_micro. set_solver. Qed.

(** A program that runs is stopped, and its end is shown next. *)
Lemma stop_program answers p k : reader_wf answers 0 p → pp_micro (pp_state p) = [] → pp_compilePending p = true →
  pp_cancelRun p = Some k → let p' := run_page [ERun; EMicro] p in
  pp_compilePending p' = false ∧ pp_cancelRun p' = None ∧ pp_micro (pp_state p') = [].
Proof.
  intros Hp Em Hc Ek. destruct (rw_cancel _ _ _ Hp k Ek) as [Hin Hns].
  destruct (mget k (pp_applications p)) as [diags|] eqn:Eg; [|by apply mget_None_keys in Eg].
  cbn [run_page foldl].
  assert (run_page_event ERun p = set_state (enqueue [MRan diags (Throw "Program stopped")] (pp_state p)).2
     (set_run true (pp_applications p) None (pp_stopped p ++ [k]) p)) as ->.
  { unfold run_page_event. rewrite Em. cbn [handle_event]. unfold compileNow. erewrite bind_run by reflexivity.
    rewrite Hc, Ek. unfold finish. erewrite bind_run by reflexivity. rewrite Eg, bool_decide_false by done.
    erewrite bind_run by reflexivity. rewrite on_state_run. by rewrite Hc. }
  unfold run_page_event. cbn [handle_event]. unfold run_micro. erewrite bind_run by reflexivity. cbn [pp_state set_state].
  replace (pp_micro _) with [MRan diags (Throw "Program stopped")] by (cbn; by rewrite Em).
  erewrite bind_run by (rewrite on_state_run; reflexivity).
  match goal with |- context [ran ?d ?r ?q] => destruct (ran_ends d r q) as (-> & -> & ->) end. done.
Qed.

(** A compilation is refused when the compiler is closed. *)
Lemma stop_compiler answers p : reader_wf answers 0 p → pp_micro (pp_state p) = [] → pp_compilePending p = true →
  pp_cancelRun p = None → ∃ n, let p' := run_page (ERun :: replicate n EMicro) p in
  pp_compilePending p' = false ∧ pp_cancelRun p' = None ∧ pp_micro (pp_state p') = [].
Proof.
  intros Hp Em Hc Ek. set (q := set_state (closed "Compiler stopped" (pp_state p)) p).
  assert (run_page_event ERun p = q) as E.
  { unfold run_page_event. rewrite Em. cbn [handle_event]. unfold compileNow. erewrite bind_run by reflexivity.
    rewrite Hc, Ek, on_state_run. by erewrite closeCompiler_run by by eapply rw_state. }
  assert (quiet q) as Hq.
  { split; [|done..]. cbn. rewrite Em. cbn [app]. apply Forall_app. split; apply Forall_fmap, Forall_true; done. }
  exists (micro_cost (pp_micro (pp_state q))). cbn zeta.
  pose proof (reader_stop answers (micro_cost (pp_micro (pp_state q))) p Hp) as Hw.
  cbn [run_page foldl] in Hw |- *. rewrite E in Hw |- *.
  destruct (quiet_drain (micro_cost (pp_micro (pp_state q))) q Hq (le_n _)) as [[_ Hr Hn] Hm]. unfold run_page in Hr, Hn, Hm.
  split_and!; [|done..]. destruct Hw as [Hs Hl _ _ _ _ _]. apply pw_ready in Hs. unfold ready_wf in Hs. rewrite Hr in Hs.
  destruct Hs as (_ & _ & Ha & Hpe). unfold load, open_requests, running in Hl. rewrite Ha, Hpe, Hm, Hn in Hl.
  apply not_true_is_false. intros Ht. by rewrite Ht in Hl.
Qed.

(** Stop always ends what Run began: at any moment of a session at which the button says Stop,
    pressing it and letting the settled promises run leaves the button at Run, with no program
    running, whether the compiler was still starting, was compiling, or the program was running. *)
Theorem stop_ends_run evs opts source docLength :
  let p := run_page evs (page_loaded opts source docLength) in
  pp_micro (pp_state p) = [] → pp_compilePending p = true →
  ∃ n, let p' := run_page (ERun :: replicate n EMicro) p in
    pp_compilePending p' = false ∧ pp_micro (pp_state p') = [] ∧ ∀ k, k ∈ (pp_applications p').*1 → k ∈ pp_stopped p'.
Proof.
  intros p Em Hc. pose proof (reader_reached evs opts source docLength) as Hp. fold p in Hp.
  assert (∃ n, let p' := run_page (ERun :: replicate n EMicro) p in
    pp_compilePending p' = false ∧ pp_cancelRun p' = None ∧ pp_micro (pp_state p') = []) as [n (H1 & H2 & H3)].
  { destruct (pp_cancelRun p) as [k|] eqn:Ek; [exists 1%nat; by eapply stop_program|by eapply stop_compiler]. }
  exists n. split_and!; [done..|]. intros k Hk. apply reader_stop with (n := n) in Hp. destruct Hp.
  destruct (decide (k ∈ pp_stopped (run_page (ERun :: replicate n EMicro) p))) as [|Hns]; [done|].
  by rewrite (rw_running0 k Hk Hns) in H2.
Qed.

(** A program is compiled, runs, and is stopped. *)
Definition demo_session : list page_event :=
  [EActivate; EMessage 1 WReady; EMicro; EMicro; ERun; EMicro;
   EMessage 1 (WAnswer 2 (Ok (Answer [] (Some "print(1)") ""))); EMicro].
Definition demo_page : ppage := run_page demo_session (page_loaded DEFAULT_OPTIONS "print(1)" 8).

Lemma stop_ends_run_witness : pp_cancelRun demo_page = Some 1 ∧
  ∃ n, let p' := run_page (ERun :: replicate n EMicro) demo_page in
    pp_compilePending p' = false ∧ pp_micro (pp_state p') = [] ∧ ∀ k, k ∈ (pp_applications p').*1 → k ∈ pp_stopped p'.
Proof. split; [vm_compute; reflexivity|]. apply (stop_ends_run demo_session DEFAULT_OPTIONS "print(1)" 8); vm_compute; reflexivity. Defined.

(** ** Markers *)

(** What a diagnostic marks, what a click on it selects and what a hover covers lie inside the document,
    whatever offsets and lengths the compiler reports: every range starts at or after the beginning,
    ends at or before the end, and does not end before it starts. *)
Theorem ranges_inside_document docLength d offset length :
  0 <= docLength →
  let inside '(from, to) := 0 <= from <= to ∧ to <= docLength in
  inside (clamp_range docLength offset length) ∧
  (∀ m, marker_of docLength d = Some m → inside (mk_range m)) ∧
  (∀ r, jumpTo docLength d = Some r → inside r).
Proof.
  intros Hd inside. assert (∀ o l, inside (clamp_range docLength o l)) as Hc.
  { intros o l. unfold inside, clamp_range, toCmPos. lia. }
  split_and!; [done|..]; unfold marker_of, jumpTo; destruct (dg_offset d); intros ? [= <-]; apply Hc.
Qed.
