(* ===== verification/PlaygroundPanes.v ===== *)
(** Panes of the playground, [src/editors/playground/src/app.js]: the output panel, the separators that size panes, the options menu,
    the list of diagnostics and the links to the program.

    A size is a whole number of the layout's units.  What the layout measures, the axis a pane lies along, its size and its parent's, comes with an
    event; a style is what the code sets on the element. *)

From S2P Require Import Prelude Wire Percent PlaygroundOptions PlaygroundPage.

(** ** Sizes *)

Inductive axis := AxisX | AxisY.
#[export] Instance axis_eq_dec : EqDecision axis.
Proof. solve_decision. Defined.

(** [PANE_MIN]. *)
Definition min_pane (a : axis) : Z := match a with AxisX => 200 | AxisY => 88 end.
Definition min_rest (a : axis) : Z := match a with AxisX => 280 | AxisY => 120 end.

(** [KEY_AXIS] and [KEY_SIGN], by the name of the key; a key they do not hold is along no axis. *)
Definition key_axis (key : string) : option axis :=
  if bool_decide (key = "ArrowUp" ∨ key = "ArrowDown") then Some AxisY
  else if bool_decide (key = "ArrowLeft" ∨ key = "ArrowRight") then Some AxisX else None.
Definition key_sign (key : string) : Z := if bool_decide (key = "ArrowUp" ∨ key = "ArrowLeft") then 1 else -1.

(** What the layout says of a pane: its axis, its size and its parent's along each axis, and the pointer's coordinates. *)
Record layout := Layout { ly_axis : axis; ly_size : axis → Z; ly_parent : axis → Z }.
Definition along (a : axis) (p : Z * Z) : Z := match a with AxisX => p.1 | AxisY => p.2 end.

(** A separator and its pane: the size it was given, the style set, the orientation told, and the [onMove] listeners
    of the pointers that are down, each with its axis, where it began and the size then. *)
Record resizer := Resizer { rz_size : option Z; rz_flex : option Z; rz_orientation : axis; rz_drags : list (axis * Z * Z) }.

Definition clamp (ly : layout) (px : Z) (a : axis) : Z :=
  let available := ly_parent ly a - min_rest a in
  Z.max (min_pane a) (Z.min px (Z.max (min_pane a) available)).

(** [apply()]; [sizable] is whether the pane shows anything. *)
Definition apply_size (ly : layout) (sizable : bool) (r : resizer) : resizer :=
  let a := ly_axis ly in
  match rz_size r with
  | Some size =>
      if sizable then let size := clamp ly size a in Resizer (Some size) (Some size) a (rz_drags r)
      else Resizer (Some size) None a (rz_drags r)
  | None => Resizer None None a (rz_drags r)
  end.

Definition setSize (ly : layout) (sizable : bool) (px : Z) (r : resizer) : resizer :=
  apply_size ly sizable (Resizer (Some (clamp ly px (ly_axis ly))) (rz_flex r) (rz_orientation r) (rz_drags r)).

(** The separator's events, each with the layout at that time. *)
Inductive pane_event :=
| PointerDown (button : Z) (client : Z * Z)
| PointerMove (client : Z * Z)
| PointerUp
| KeyDown (key : string) (shift : bool)
| DoubleClick
| Applied.

Definition set_drags (ds : list (axis * Z * Z)) (r : resizer) : resizer := Resizer (rz_size r) (rz_flex r) (rz_orientation r) ds.

(** One [onMove]. *)
Definition drag_move (ly : layout) (sizable : bool) (client : Z * Z) (r : resizer) (d : axis * Z * Z) : resizer :=
  let '(a, start, startSize) := d in setSize ly sizable (startSize - (along a client - start)) r.

(** Every listener of a move is called, in the order it was added; the end of a pointer calls every [onUp], and removes them all. *)
Definition resizer_step (ly : layout) (sizable : bool) (e : pane_event) (r : resizer) : resizer :=
  match e with
  | PointerDown button client =>
      if negb (button =? 0) then r else let a := ly_axis ly in set_drags (rz_drags r ++ [(a, along a client, ly_size ly a)]) r
  | PointerMove client => foldl (drag_move ly sizable client) r (rz_drags r)
  | PointerUp => set_drags [] r
  | KeyDown key shift =>
      let a := ly_axis ly in
      if bool_decide (key_axis key = Some a) then setSize ly sizable (ly_size ly a + (if shift then 48 else 16) * key_sign key) r else r
  | DoubleClick => apply_size ly sizable (Resizer None (rz_flex r) (rz_orientation r) (rz_drags r))
  | Applied => apply_size ly sizable r
  end.

(** The state [installResizer] leaves, and a run of events. *)
Definition installResizer (ly : layout) (sizable : bool) : resizer := apply_size ly sizable (Resizer None None AxisX []).
Definition resizer_run (events : list (layout * bool * pane_event)) (r : resizer) : resizer :=
  foldl (λ r e, resizer_step e.1.1 e.1.2 e.2 r) r events.

(** ** The output panel *)

(** What the panel shows: the class [is-open], the body, [aria-expanded], its separator, and the panes sized; the split of the panel is a part
    of the full playground only. *)
Record panel := Panel {
  pn_open : bool; pn_body_hidden : bool; pn_aria_expanded : bool; pn_resizer_hidden : bool;
  pn_output : resizer; pn_list : option resizer
}.

(** The layouts of the two panes, at one time. *)
Record layouts := Layouts { ls_output : layout; ls_list : layout }.

Definition isOutputExpanded (p : panel) : bool := pn_open p.

Definition set_output (r : resizer) (p : panel) : panel :=
  Panel (pn_open p) (pn_body_hidden p) (pn_aria_expanded p) (pn_resizer_hidden p) r (pn_list p).
Definition set_list (r : option resizer) (p : panel) : panel :=
  Panel (pn_open p) (pn_body_hidden p) (pn_aria_expanded p) (pn_resizer_hidden p) (pn_output p) r.

Definition applyPaneSizes (ls : layouts) (p : panel) : panel :=
  let p := set_output (apply_size (ls_output ls) (isOutputExpanded p) (pn_output p)) p in
  set_list (apply_size (ls_list ls) true <$> pn_list p) p.

Definition setOutputExpanded (ls : layouts) (expanded : bool) (p : panel) : panel :=
  applyPaneSizes ls (Panel expanded (negb expanded) expanded (negb expanded) (pn_output p) (pn_list p)).

(** The panel as the page loads, closed in the markup of both pages; [split] is whether the page has the second separator. *)
Definition start_panel (ls : layouts) (split : bool) : panel :=
  Panel false true false true (installResizer (ls_output ls) false)
    (if split then Some (installResizer (ls_list ls) true) else None).

Inductive panel_event :=
| ToggleClicked
| Expanded (expanded : bool)
| WindowResized
| OutputSeparator (e : pane_event)
| ListSeparator (e : pane_event).

Definition panel_step (p : panel) (lse : layouts * panel_event) : panel :=
  let '(ls, e) := lse in
  match e with
  | ToggleClicked => setOutputExpanded ls (negb (isOutputExpanded p)) p
  | Expanded expanded => setOutputExpanded ls expanded p
  | WindowResized => applyPaneSizes ls p
  | OutputSeparator e => set_output (resizer_step (ls_output ls) (isOutputExpanded p) e (pn_output p)) p
  | ListSeparator e => set_list (resizer_step (ls_list ls) true e <$> pn_list p) p
  end.
Definition panel_run (p : panel) (events : list (layouts * panel_event)) : panel := foldl panel_step p events.

(** ** The options menu *)

Record menu := Menu { mn_hidden : bool; mn_aria_expanded : bool; mn_active : bool }.

Definition setOptionsOpen (open : bool) (m : menu) : menu := Menu (negb open) open open.

(** A click is on the button, in the panel, or elsewhere; one on the button goes no further, unless it is [synthetic]. *)
Inductive click_target := OnButton | InMenu | Elsewhere.
Inductive menu_event := MenuClick (target : click_target) (synthetic : bool) | MenuKey (key : string).

Definition document_click (target : click_target) (m : menu) : menu :=
  if mn_hidden m then m else match target with InMenu | OnButton => m | Elsewhere => setOptionsOpen false m end.

Definition menu_step (m : menu) (e : menu_event) : menu :=
  match e with
  | MenuClick OnButton synthetic =>
      let m := setOptionsOpen (mn_hidden m) m in if synthetic then document_click OnButton m else m
  | MenuClick target _ => document_click target m
  | MenuKey key => if String.eqb key "Escape" then setOptionsOpen false m else m
  end.

(** ** The list of diagnostics *)

(** A row: its class, its place, code and message, its help, and the diagnostic a click jumps to. *)
Record row := Row { rw_class : string; rw_loc : string; rw_code : string; rw_msg : string; rw_help : option string; rw_jump : option diagnostic }.

Definition EMPTY_ROW : row := Row "diagnostic-empty" "" "" "No diagnostics." None None.

Definition diagnostic_row (d : diagnostic) : row :=
  Row ("diagnostic diagnostic-" +:+ or_else (dg_severity d) "error")
    (pretty (dg_line d) +:+ ":" +:+ pretty (dg_col d))
    (or_else (dg_code d) "") (or_else (dg_msg d) "") (truthy (dg_help d)) (Some d).

Definition renderDiagnostics (diags : list diagnostic) : list row :=
  match diags with [] => [EMPTY_ROW] | _ => diagnostic_row <$> diags end.

(** What a click on a row selects. *)
Definition row_clicked (docLength : Z) (r : row) : option (Z * Z) := d ← rw_jump r; jumpTo docLength d.

(** ** Links *)

Definition fragmentFor (opts : options) (source : string) : res string := sourceFragment source (GObject (options_fields opts)).

(** The [href] a click on Open gives the link, before the browser follows it. *)
Definition open_clicked (opts : options) (source : string) : res string :=
  fragment ← fragmentFor opts source; Ok ("/playground/" +:+ fragment).

(** What Share leaves: text on the clipboard, or a fragment in the address bar; and the status. [copied] is whether the clipboard took it. *)
Record shared := Shared { sh_clipboard : option string; sh_hash : option string; sh_status : string }.
Definition share_clicked (origin pathname : string) (copied : bool) (opts : options) (source : string) : res shared :=
  fragment ← fragmentFor opts source;
  if copied then Ok (Shared (Some (origin +:+ pathname +:+ fragment)) None "link copied")
  else Ok (Shared None (Some fragment) "link is in the address bar").

Definition HASH : Ascii.ascii := Ascii.ascii_of_nat 35.

(** [location.hash] of a page opened at an address. *)
Fixpoint hash_of (url : string) : string :=
  match url with
  | EmptyString => ""
  | String c rest => if Ascii.eqb c HASH then url else hash_of rest
  end.

(** ** What a pane may take *)

Lemma clamp_within ly px a : min_pane a <= clamp ly px a ∧ clamp ly px a <= Z.max (min_pane a) (ly_parent ly a - min_rest a).
Proof. unfold clamp. lia. Qed.
Lemma clamp_idempotent ly px a : clamp ly (clamp ly px a) a = clamp ly px a.
Proof. unfold clamp. lia. Qed.
Lemma clamp_inside ly px a : min_pane a <= px <= Z.max (min_pane a) (ly_parent ly a - min_rest a) → clamp ly px a = px.
Proof. unfold clamp. lia. Qed.

(** A style is the size that is kept. *)
Definition styled (r : resizer) : Prop := ∀ px, rz_flex r = Some px → rz_size r = Some px.

Lemma apply_styled ly sizable r : styled (apply_size ly sizable r).
Proof. unfold styled, apply_size. destruct (rz_size r), sizable; cbn; congruence. Qed.

Lemma drags_styled ly sizable client ds r : styled r → styled (foldl (drag_move ly sizable client) r ds).
Proof. revert r. induction ds as [|[[a start] size] ds IH]; intros r Hr; [done|]. apply IH, apply_styled. Qed.

Lemma resizer_styled events r : styled r → styled (resizer_run events r).
Proof.
  unfold resizer_run. revert r. induction events as [|[[ly sizable] e] events IH]; intros r Hr; [done|]. cbn [foldl]. apply IH.
  destruct e; cbn [resizer_step fst snd].
  - by destruct (negb _).
  - by apply drags_styled.
  - done.
  - case_bool_decide; [apply apply_styled|done].
  - apply apply_styled.
  - apply apply_styled.
Qed.

(** A pane keeps to its share. After any drags, keys and changes of the window, once the sizes are applied to a window: a pane the reader sized
    is at least its minimum and, in a window with room for both, leaves its neighbour at least its minimum; one that shows nothing, or was
    reset, has the stylesheet's size; a size within these bounds is kept as it is; and applying the sizes again changes nothing. *)
Theorem panes_keep_share events ly0 sizable0 ly sizable :
  let r := resizer_step ly sizable Applied (resizer_run events (installResizer ly0 sizable0)) in
  let a := ly_axis ly in
  (∀ px, rz_flex r = Some px → sizable = true ∧ min_pane a <= px ∧ (min_pane a + min_rest a <= ly_parent ly a → px + min_rest a <= ly_parent ly a)) ∧
  (sizable = false ∨ rz_size (resizer_run events (installResizer ly0 sizable0)) = None → rz_flex r = None) ∧
  (∀ px, rz_size (resizer_run events (installResizer ly0 sizable0)) = Some px → sizable = true →
     min_pane a <= px → px + min_rest a <= ly_parent ly a → rz_flex r = Some px) ∧
  resizer_step ly sizable Applied r = r ∧ styled r.
Proof.
  cbn zeta. set (r0 := resizer_run events _). cbn [resizer_step]. unfold apply_size. destruct (rz_size r0) as [px0|] eqn:Es.
  - destruct sizable; cbn.
    + pose proof (clamp_within ly px0 (ly_axis ly)) as Hc. split_and!.
      * intros px [= <-]. split_and!; [done|lia..].
      * by intros [?|?].
      * intros px [= <-] _ ??. f_equal. apply clamp_inside. lia.
      * by rewrite clamp_idempotent.
      * by intros px [= <-].
    + split_and!; [done..| |done]. done.
  - cbn. split_and!; done.
Qed.

(** ** The panel as a whole *)

Definition panel_consistent (p : panel) : Prop :=
  pn_body_hidden p = negb (pn_open p) ∧ pn_aria_expanded p = pn_open p ∧ pn_resizer_hidden p = negb (pn_open p) ∧
  (pn_open p = false → rz_flex (pn_output p) = None).

Lemma apply_again ly sizable r : apply_size ly true (apply_size ly sizable (apply_size ly true r)) = apply_size ly true r.
Proof. unfold apply_size. destruct (rz_size r), sizable; cbn; by rewrite ?clamp_idempotent. Qed.

Lemma apply_collapsed ly r : rz_flex (apply_size ly false r) = None.
Proof. unfold apply_size. by destruct (rz_size r). Qed.

Lemma drags_collapsed ly client ds r : rz_flex r = None → rz_flex (foldl (drag_move ly false client) r ds) = None.
Proof. revert r. induction ds as [|[[a start] size] ds IH]; intros r Hr; [done|]. apply IH, apply_collapsed. Qed.

Lemma step_collapsed ly e r : rz_flex r = None → rz_flex (resizer_step ly false e r) = None.
Proof.
  intros Hr. destruct e; cbn [resizer_step]; try apply apply_collapsed.
  - by destruct (negb _).
  - by apply drags_collapsed.
  - done.
  - case_bool_decide; [apply apply_collapsed|done].
Qed.

Lemma expanded_consistent ls expanded p : panel_consistent (setOutputExpanded ls expanded p).
Proof. repeat split; cbn. intros ->. apply apply_collapsed. Qed.

Lemma panel_step_consistent p lse : panel_consistent p → panel_consistent (panel_step p lse).
Proof.
  destruct lse as [ls e]. intros Hp. destruct e; cbn [panel_step]; [apply expanded_consistent..| | |].
  all: destruct Hp as (Hb & Ha & Hr & Hf); repeat split; [done..|]; cbn; unfold isOutputExpanded.
  - intros ->. apply apply_collapsed.
  - intros Ho. rewrite Ho. apply step_collapsed, Hf, Ho.
  - done.
Qed.

Lemma panel_run_consistent events p : panel_consistent p → panel_consistent (panel_run p events).
Proof. unfold panel_run. revert p. induction events as [|e events IH]; intros p Hp; [done|]. by apply IH, panel_step_consistent. Qed.

(** The output panel is shown as it says. After any clicks, drags, keys and changes of the window, its body and its separator are shown and
    it is announced as expanded exactly when it is open, and while it is closed it has no size of its own, only its bar; a panel closed and
    opened again in the same window has the state it had after its sizes were applied there. *)
Theorem panel_shows_state ls0 split events ls :
  let p := panel_run (start_panel ls0 split) events in
  panel_consistent p ∧
  (let back := setOutputExpanded ls true (setOutputExpanded ls false (setOutputExpanded ls true p)) in
   back = setOutputExpanded ls true p).
Proof.
  cbn zeta. split.
  - apply panel_run_consistent. by repeat split.
  - set (p := panel_run _ _). destruct p as [o b a h r l]. unfold setOutputExpanded, applyPaneSizes, set_list, set_output, isOutputExpanded.
    cbn. rewrite apply_again. destruct l as [l|]; cbn; [|done]. by rewrite apply_again.
Qed.

(** The menu: what it shows agrees after any event, a click on the button or [Escape] has the same effect however the event travels, and a click in
    it leaves it. *)
Theorem menu_follows events :
  let m := foldl menu_step (Menu true false false) events in
  mn_aria_expanded m = negb (mn_hidden m) ∧ mn_active m = negb (mn_hidden m) ∧
  (∀ synthetic, mn_hidden (menu_step m (MenuClick OnButton synthetic)) = negb (mn_hidden m)) ∧
  (∀ synthetic, menu_step m (MenuClick InMenu synthetic) = m) ∧
  mn_hidden (menu_step m (MenuKey "Escape")) = true ∧ (∀ synthetic, mn_hidden (menu_step m (MenuClick Elsewhere synthetic)) = true).
Proof.
  cbn zeta. set (ok := λ m, mn_aria_expanded m = negb (mn_hidden m) ∧ mn_active m = negb (mn_hidden m)).
  assert (Hm : ok (foldl menu_step (Menu true false false) events)).
  { assert (∀ m, ok m → ok (foldl menu_step m events)) as H; [|by apply H].
    induction events as [|e events IH]; intros m Hm; [done|]. cbn [foldl]. apply IH. clear -Hm. subst ok.
    destruct m as [h a v], e as [[] []|key]; destruct h; cbn in *; try done; by destruct (String.eqb key "Escape"). }
  destruct (foldl menu_step _ events) as [h a v]. destruct Hm as [Ha Hv]. cbn in Ha, Hv. subst. repeat split; cbn.
  - intros []; by destruct h.
  - intros []; by destruct h.
  - intros []; by destruct h.
Qed.

Lemma rows_of diags : diags ≠ [] → renderDiagnostics diags = diagnostic_row <$> diags.
Proof. by destruct diags. Qed.

(** Every diagnostic has its row, in order, and a click on the row selects what the diagnostic is about, within the document. *)
Theorem row_selects diags i d docLength :
  0 <= docLength → diags !! i = Some d →
  ∃ r, renderDiagnostics diags !! i = Some r ∧ row_clicked docLength r = jumpTo docLength d ∧
    ∀ from to, row_clicked docLength r = Some (from, to) → 0 <= from ∧ from <= to ∧ (0 <= default 0 (dg_length d) → to <= docLength).
Proof.
  intros Hl Hd. exists (diagnostic_row d). split_and!.
  - rewrite rows_of by (by intros ->). by rewrite list_lookup_fmap, Hd.
  - done.
  - intros from to. unfold row_clicked. cbn. unfold jumpTo, clamp_range. destruct (dg_offset d); cbn; [|done].
    intros [= <- <-]. split_and!; lia.
Qed.

(** ** Links reopen the program *)

Lemma text_app_assoc (a b c : string) : a +:+ (b +:+ c) = (a +:+ b) +:+ c.
Proof. induction a as [|x a IH]; [done|]. exact (f_equal (String x) IH). Qed.

Lemma hash_of_app prefix c rest : hash_of prefix = "" → c = HASH → hash_of (prefix +:+ String c rest) = String c rest.
Proof.
  intros Hp ->. induction prefix as [|b prefix IH]; [done|].
  change (String b prefix +:+ String HASH rest) with (String b (prefix +:+ String HASH rest)).
  cbn [hash_of] in Hp |- *. destruct (Ascii.eqb b HASH); [done|]. by apply IH.
Qed.

Lemma fragment_hash opts source fragment : fragmentFor opts source = Ok fragment → ∃ rest, fragment = String HASH rest.
Proof.
  unfold fragmentFor, sourceFragment. destruct (encodeURIComponent _) as [encoded|e]; [|done]. intros [= <-]. by eexists.
Qed.

(** A link, followed, is the program: whichever way Share gave it and through Open, the page it opens has the source and the options of the page it
    was made on, whatever options are stored there. *)
Theorem links_reopen origin pathname copied opts source saved :
  hash_of (origin +:+ pathname) = "" → isWellFormed source = true →
  ∃ href r, open_clicked opts source = Ok href ∧ share_clicked origin pathname copied opts source = Ok r ∧
    (∀ hash, hash = hash_of href ∨ (url ← sh_clipboard r; Some (hash_of url)) = Some hash ∨ sh_hash r = Some hash →
       inlined (fragmentParams hash) = Some source ∧
       restoreOptions (GObject (fragmentParams hash)) saved = restoreOptions (GObject []) (GObject (options_fields opts))).
Proof.
  intros Hu Hw. pose proof (shared_link_reopens source (GObject (options_fields opts)) saved) as Hs.
  unfold open_clicked, share_clicked. destruct (fragmentFor opts source) as [fragment|e] eqn:Ef.
  - pose proof (fragment_hash _ _ _ Ef) as [rest Hr]. unfold fragmentFor in Ef. rewrite Ef in Hs.
    assert (hash_of (origin +:+ pathname +:+ fragment) = fragment) as Hf.
    { rewrite Hr, text_app_assoc. by apply hash_of_app. }
    assert (hash_of ("/playground/" +:+ fragment) = fragment) as Ho by (rewrite Hr; by apply hash_of_app).
    destruct copied; do 2 eexists; (split; [done|]; split; [done|]); intros hash [->|[Hh|Hh]]; try (cbn in Hh); simplify_eq; rewrite ?Ho, ?Hf; done.
  - unfold fragmentFor in Ef. rewrite Ef in Hs. congruence.
Qed.
