(* ===== verification/NodePath.v ===== *)
(** [node:path] on POSIX and [startsWith], as the scripts of [src] use them: texts are lists of bytes,
    a path is split at its slashes. *)

From S2P Require Import Prelude Wire.

Definition SLASH : byte := x2f.
Definition DOT : list byte := [x2e].
Definition DOTDOT : list byte := [x2e; x2e].

(** [text.startsWith(prefix)] and [text.endsWith(suffix)]. *)
Definition startsWith (prefix text : list byte) : bool := bool_decide (prefix `prefix_of` text).
Definition endsWith (suffix text : list byte) : bool := bool_decide (suffix `suffix_of` text).

(** [parts.join("/")]. *)
Fixpoint join_slash (parts : list (list byte)) : list byte :=
  match parts with
  | [] => []
  | [p] => p
  | p :: parts' => p ++ SLASH :: join_slash parts'
  end.

(** One segment after the segments kept so far, the last of them first: an empty one and [.] change
    nothing, [..] takes back the last, or stays where the path may climb. *)
Definition step_segment (above : bool) (kept : list (list byte)) (s : list byte) : list (list byte) :=
  if bool_decide (s = []) || bool_decide (s = DOT) then kept
  else if bool_decide (s = DOTDOT) then
    match kept with
    | [] => if above then [DOTDOT] else []
    | k :: kept' => if bool_decide (k = DOTDOT) then DOTDOT :: kept else kept'
    end
  else s :: kept.

Definition normal_segments (above : bool) (segments : list (list byte)) : list (list byte) :=
  reverse (foldl (step_segment above) [] segments).

Definition normalizeString (path : list byte) (above : bool) : list byte :=
  join_slash (normal_segments above (split_on SLASH path)).

Definition isAbsolute (path : list byte) : bool := bool_decide (head path = Some SLASH).

Definition normalize (path : list byte) : list byte :=
  if bool_decide (path = []) then DOT else
  let absolute := isAbsolute path in
  let trailing := endsWith [SLASH] path in
  let p := normalizeString path (negb absolute) in
  if bool_decide (p = []) then (if absolute then [SLASH] else if trailing then DOT ++ [SLASH] else DOT)
  else (if absolute then [SLASH] else []) ++ p ++ (if trailing then [SLASH] else []).

(** [path.join(a, b)]. *)
Definition path_join (a b : list byte) : list byte :=
  let joined := join_slash (filter (λ p, p ≠ []) [a; b]) in
  if bool_decide (joined = []) then DOT else normalize joined.

(** [path.resolve(base, p)] for an absolute base. *)
Definition path_resolve (base p : list byte) : list byte :=
  let from := if isAbsolute p then p else base ++ SLASH :: p in
  [SLASH] ++ normalizeString from false.

(** [path.basename] and [path.dirname] of a path without a slash at its end. *)
Definition path_basename (path : list byte) : list byte := default [] (last (split_on SLASH path)).
Definition path_dirname (path : list byte) : list byte :=
  let parts := removelast (split_on SLASH path) in
  if bool_decide (parts = []) then DOT else if bool_decide (parts = [[]]) then [SLASH] else join_slash parts.

(** [path.extname(file)]: from the last dot of the name, unless the name starts there. *)
Fixpoint from_last_dot (name : list byte) : option (list byte) :=
  match name with
  | [] => None
  | b :: name' =>
      match from_last_dot name' with
      | Some e => Some e
      | None => if bool_decide (b = x2e) then Some name else None
      end
  end.
Definition path_extname (path : list byte) : list byte :=
  match path_basename path with
  | [] => []
  | _ :: name => if bool_decide (path_basename path = DOTDOT) then [] else default [] (from_last_dot name)
  end.

(** ** Segments *)

(** A name in a directory: not empty, and neither the directory nor the one above. *)
Definition proper (s : list byte) : Prop := s ≠ [] ∧ s ≠ DOT ∧ s ≠ DOTDOT ∧ (SLASH ∉ s).
#[export] Instance proper_dec s : Decision (proper s).
Proof. unfold proper. apply _. Defined.

Lemma split_on_ne {A} `{EqDecision A} (sep : A) l : split_on sep l ≠ [].
Proof. destruct l as [|x l]; [done|]. cbn [split_on foldr]. by case_bool_decide; [|destruct (foldr _ _ _)]. Qed.

Lemma split_on_app {A} `{EqDecision A} (sep : A) a b : split_on sep (a ++ sep :: b) = split_on sep a ++ split_on sep b.
Proof.
  induction a as [|x a IH]; cbn [app split_on foldr]; [by rewrite bool_decide_true|].
  fold (split_on sep (a ++ sep :: b)). rewrite IH. fold (split_on sep a). case_bool_decide; [done|].
  pose proof (split_on_ne sep a). by destruct (split_on sep a).
Qed.

Lemma split_on_no_sep {A} `{EqDecision A} (sep : A) l s : s ∈ split_on sep l → sep ∉ s.
Proof.
  revert s. induction l as [|x l IH]; intros s; cbn [split_on foldr].
  { intros ->%list_elem_of_singleton. apply not_elem_of_nil. }
  fold (split_on sep l). pose proof (split_on_ne sep l). destruct (split_on sep l) as [|t ts] eqn:E; [done|].
  case_bool_decide as Hx; intros [->|Hs]%elem_of_cons.
  - apply not_elem_of_nil.
  - by apply IH.
  - apply not_elem_of_cons. split; [done|]. apply IH. left.
  - apply IH. by right.
Qed.

Lemma split_join_slash parts : parts ≠ [] → Forall (λ s, SLASH ∉ s) parts → split_on SLASH (join_slash parts) = parts.
Proof.
  induction parts as [|p [|q parts] IH]; intros Hne Hp; [done|..]; apply Forall_cons in Hp as [Hp Hps].
  - by apply split_on_whole.
  - change (join_slash (p :: q :: parts)) with (p ++ SLASH :: join_slash (q :: parts)). by rewrite split_on_sep, IH.
Qed.

Lemma join_split_slash l : join_slash (split_on SLASH l) = l.
Proof.
  induction l as [|b l IH]; [done|]. cbn [split_on foldr]. fold (split_on SLASH l).
  pose proof (split_on_ne SLASH l). destruct (split_on SLASH l) as [|t ts] eqn:E; [done|].
  case_bool_decide as Hb; [subst b|].
  - change (join_slash ([] :: t :: ts)) with (SLASH :: join_slash (t :: ts)). by rewrite IH.
  - rewrite <- IH. by destruct ts.
Qed.

(** Below an absolute path every segment that is kept is a name. *)
Lemma kept_proper segs kept : Forall (λ s, SLASH ∉ s) segs → Forall proper kept → Forall proper (foldl (step_segment false) kept segs).
Proof.
  revert kept. induction segs as [|s segs IH]; intros kept Hs Hk; [done|]. apply Forall_cons in Hs as [Hs Hss].
  cbn [foldl]. apply IH; [done|]. unfold step_segment.
  case_bool_decide as H1; cbn; [done|]. case_bool_decide as H2; cbn; [done|]. case_bool_decide as H3.
  - destruct Hk as [|k kept [? ?] Hk]; [done|]. case_bool_decide; [naive_solver|done].
  - constructor; [by repeat split|done].
Qed.

Lemma normal_proper path : Forall proper (normal_segments false (split_on SLASH path)).
Proof.
  unfold normal_segments. apply Forall_reverse, kept_proper; [|done].
  apply Forall_forall. apply split_on_no_sep.
Qed.

(** Names are left as they are. *)
Lemma foldl_proper above segs kept : Forall proper segs → foldl (step_segment above) kept segs = reverse segs ++ kept.
Proof.
  revert kept. induction segs as [|s segs IH]; intros kept Hs; [done|]. apply Forall_cons in Hs as [(H1 & H2 & H3 & _) Hss].
  cbn [foldl]. unfold step_segment at 2. rewrite !bool_decide_false by done. cbn [orb].
  by rewrite IH, reverse_cons, <- app_assoc by done.
Qed.

(** ** Directories *)

(** A directory as [path.resolve] gives it, other than the root of the file system. *)
Definition directory (root : list byte) : Prop :=
  ∃ segments, segments ≠ [] ∧ Forall proper segments ∧ root = SLASH :: join_slash segments.

Lemma resolve_segments base p : ∃ segments, Forall proper segments ∧ path_resolve base p = SLASH :: join_slash segments.
Proof. eexists. split; [apply normal_proper|]. unfold path_resolve, normalizeString. done. Qed.

Lemma proper_no_slash segments : Forall proper segments → Forall (λ s, SLASH ∉ s) segments.
Proof. intros H. eapply Forall_impl; [exact H|]. by intros s (_ & _ & _ & ?). Qed.

Lemma join_slash_app a b : a ≠ [] → b ≠ [] → join_slash (a ++ b) = join_slash a ++ SLASH :: join_slash b.
Proof.
  intros Ha Hb. induction a as [|p [|q a] IH]; [done|by destruct b|].
  change (join_slash ((p :: q :: a) ++ b)) with (p ++ SLASH :: join_slash ((q :: a) ++ b)).
  change (join_slash (p :: q :: a)) with (p ++ SLASH :: join_slash (q :: a)). by rewrite IH, <- app_assoc.
Qed.

(** Names below a directory are kept as they are. *)
Lemma normalize_below root segments rest : directory root → Forall proper segments → segments ≠ [] →
  split_on SLASH rest = DOT :: segments ∨ split_on SLASH rest = segments →
  [SLASH] ++ normalizeString (root ++ SLASH :: rest) false = root ++ SLASH :: join_slash segments.
Proof.
  intros (rs & Hne & Hrs & ->) Hs Hse Hrest. unfold normalizeString.
  rewrite split_on_app. change (split_on SLASH (SLASH :: join_slash rs)) with (split_on SLASH ([] ++ SLASH :: join_slash rs)).
  rewrite split_on_sep, split_join_slash by (apply not_elem_of_nil || done || by apply proper_no_slash).
  unfold normal_segments. rewrite foldl_app. cbn [foldl step_segment bool_decide orb].
  change (step_segment false [] []) with (@nil (list byte)). rewrite (foldl_proper false rs) by done. rewrite app_nil_r.
  assert (foldl (step_segment false) (reverse rs) (split_on SLASH rest) = reverse (rs ++ segments)) as ->.
  { destruct Hrest as [-> | ->]; cbn [foldl]; [change (step_segment false (reverse rs) DOT) with (reverse rs)|];
      by rewrite foldl_proper, reverse_app. }
  by rewrite reverse_involutive, join_slash_app by done.
Qed.

Lemma join_slash_ne segments : Forall proper segments → segments ≠ [] → join_slash segments ≠ [].
Proof. intros Hs Hne. destruct Hs as [|s segs (H & _) _]; [done|]. destruct segs, s; done. Qed.

Lemma resolve_below root segments : directory root → Forall proper segments → segments ≠ [] →
  path_resolve root (DOT ++ SLASH :: join_slash segments) = root ++ SLASH :: join_slash segments.
Proof.
  intros Hr Hs Hne. unfold path_resolve. change (isAbsolute (DOT ++ _)) with false. cbn iota.
  apply normalize_below; [done..|]. left. rewrite split_on_sep by (by apply (bool_decide_unpack _)).
  by rewrite split_join_slash by (done || by apply proper_no_slash).
Qed.

(** [path.join] of a directory and names below it. *)
Lemma join_below root segments : directory root → Forall proper segments → segments ≠ [] →
  path_join root (join_slash segments) = root ++ SLASH :: join_slash segments.
Proof.
  intros Hr Hs Hse. pose proof (join_slash_ne _ Hs Hse) as Hne.
  pose proof (normalize_below root segments (join_slash segments) Hr Hs Hse) as Hb.
  specialize (Hb (or_intror (split_join_slash _ Hse (proper_no_slash _ Hs)))).
  destruct Hr as (rs & Hrne & Hrs & ->). unfold path_join.
  assert (filter (λ p, p ≠ []) [SLASH :: join_slash rs; join_slash segments] = [SLASH :: join_slash rs; join_slash segments]) as ->.
  { rewrite !filter_cons_True, filter_nil by done. done. }
  change (join_slash [SLASH :: join_slash rs; join_slash segments]) with ((SLASH :: join_slash rs) ++ SLASH :: join_slash segments).
  rewrite bool_decide_false by done. unfold normalize. rewrite bool_decide_false by done.
  change (isAbsolute _) with true. cbn [negb].
  assert (endsWith [SLASH] ((SLASH :: join_slash rs) ++ SLASH :: join_slash segments) = false) as ->.
  { apply bool_decide_eq_false. intros [l E].
    apply (f_equal (split_on SLASH)) in E. rewrite !split_on_app, (split_join_slash segments) in E by (done || by apply proper_no_slash).
    change (split_on SLASH []) with [@nil byte] in E. destruct segments as [|s segs] using rev_ind; [done|].
    rewrite app_assoc in E. apply app_inj_tail in E as [_ ->]. apply Forall_app in Hs as [_ Hs]. by apply Forall_singleton in Hs as (? & _). }
  cbn [app] in Hb |- *. injection Hb as Hb. rewrite Hb, bool_decide_false, app_nil_r; [done|]. by destruct (join_slash rs).
Qed.
