(* ===== verification/StaticServe.v ===== *)
(** The servers of files: [src/scripts/docs-serve.mjs], [src/editors/playground/serve.mjs],
    [src/templates/browser/scripts/serve.mjs] (and its copy in [browser-simd]), the one of
    [src/runtime/luajit/prepare-guest.mjs] and [src/bench/luajit-browser/serve.mjs].

    Each maps the path of a request to a file below a directory and refuses what leaves it.  The
    path is what the URL parser makes of the request, any text here; the file system answers whether
    a file exists and is a directory.  An exception of a handler that catches none ends the process. *)

From S2P Require Import Prelude Wire Percent NodePath.

(** What a request is answered. *)
Inductive response :=
| Forbidden
| NotFound
| Unavailable
| Served (file : list byte) (contentType : string).

#[export] Instance response_eq_dec : EqDecision response.
Proof. solve_decision. Defined.

Section Servers.
(** [existsSync(file)] and [statSync(file).isDirectory()]. *)
Context (exists_ isDirectory : list byte → bool).

Definition INDEX : list byte := text_bytes "index.html".

Definition content_type (types : jmap string string) (file : list byte) : string :=
  default "application/octet-stream" (mget (bytes_text (path_extname file)) types).

(** The end of every handler: a missing file and a directory are not found. *)
Definition send_file (types : jmap string string) (file : list byte) : response :=
  if negb (exists_ file) || isDirectory file then NotFound else Served file (content_type types file).

(** ** docs-serve.mjs *)

Definition DOCS_TYPES : jmap string string :=
  [(".html", "text/html; charset=utf-8"); (".js", "text/javascript; charset=utf-8"); (".css", "text/css; charset=utf-8");
   (".lua", "text/plain; charset=utf-8"); (".svg", "image/svg+xml"); (".png", "image/png"); (".ico", "image/x-icon");
   (".json", "application/json"); (".map", "application/json"); (".md", "text/markdown; charset=utf-8");
   (".txt", "text/plain; charset=utf-8")].

Definition serveFrom (base urlPath : list byte) : res response :=
  decoded ← decodeURIComponent urlPath;
  let file := path_join base decoded in
  let file := if bool_decide (urlPath = []) || endsWith [SLASH] urlPath then path_join file INDEX else file in
  Ok (if negb (startsWith base file) then Forbidden else send_file DOCS_TYPES file).

Definition PLAYGROUND_PREFIX : list byte := text_bytes "/playground".

Definition docs_handler (docsDir playgroundDist : list byte) (playgroundAvailable : bool) (pathname : list byte) : res response :=
  if bool_decide (pathname = PLAYGROUND_PREFIX) || startsWith (PLAYGROUND_PREFIX ++ [SLASH]) pathname then
    if negb playgroundAvailable then Ok Unavailable
    else serveFrom playgroundDist (drop (length PLAYGROUND_PREFIX) pathname)
  else serveFrom docsDir (drop 1 pathname).

(** ** serve.mjs of the playground *)

Definition PLAYGROUND_TYPES : jmap string string :=
  [(".html", "text/html; charset=utf-8"); (".js", "text/javascript; charset=utf-8"); (".mjs", "text/javascript; charset=utf-8");
   (".css", "text/css; charset=utf-8"); (".lua", "text/plain; charset=utf-8"); (".svg", "image/svg+xml");
   (".map", "application/json"); (".wasm", "application/wasm"); (".md", "text/markdown; charset=utf-8")].

Definition playground_handler (root pathname : list byte) : res response :=
  decoded ← decodeURIComponent pathname;
  let file := path_join root decoded in
  let file := if endsWith [SLASH] pathname then path_join file INDEX else file in
  Ok (if negb (startsWith root file) then Forbidden else send_file PLAYGROUND_TYPES file).

(** ** serve.mjs of the templates *)

Definition TEMPLATE_TYPES : jmap string string :=
  [(".html", "text/html; charset=utf-8"); (".js", "text/javascript; charset=utf-8"); (".mjs", "text/javascript; charset=utf-8");
   (".json", "application/json"); (".lua", "text/plain; charset=utf-8"); (".wasm", "application/wasm")].

Definition template_handler (root pathname : list byte) : res response :=
  decoded ← decodeURIComponent pathname;
  let file := path_resolve root (DOT ++ decoded) in
  let file := if bool_decide (pathname = [SLASH]) then path_join root INDEX else file in
  Ok (if negb (bool_decide (file = root)) && negb (startsWith (root ++ [SLASH]) file) then Forbidden
      else send_file TEMPLATE_TYPES file).

(** ** The server of prepare-guest.mjs *)

(** [(await stat(file)).isFile()], which fails for a missing file. *)
Definition guest_type (file : list byte) : string :=
  if endsWith (text_bytes ".mjs") file then "text/javascript"
  else if endsWith (text_bytes ".html") file then "text/html" else "application/octet-stream".

Definition guest_handler (destination pathname : list byte) : response :=
  match decodeURIComponent pathname with
  | Throw _ => NotFound
  | Ok decoded =>
      let file := path_resolve destination (DOT ++ decoded) in
      if negb (startsWith (destination ++ [SLASH]) file) || negb (exists_ file) || isDirectory file then NotFound
      else Served file (guest_type file)
  end.

(** ** serve.mjs of the benchmarks *)

Definition BENCH_TYPES : jmap string string :=
  [(".html", "text/html"); (".js", "text/javascript"); (".mjs", "text/javascript"); (".css", "text/css");
   (".svg", "image/svg+xml"); (".json", "application/json"); (".wasm", "application/wasm")].

Definition bench_handler (root pathname : list byte) : response :=
  match decodeURIComponent (if bool_decide (pathname = [SLASH]) then SLASH :: INDEX else pathname) with
  | Throw _ => NotFound
  | Ok name =>
      let file := path_resolve root (DOT ++ name) in
      if negb (startsWith (root ++ [SLASH]) file) || negb (exists_ file) || isDirectory file then NotFound
      else Served file (content_type BENCH_TYPES file)
  end.
End Servers.

(** ** What is served *)

(** [file] is below [root]: what follows the root is names, none of which climbs. *)
Definition inside (root file : list byte) : Prop :=
  ∃ segments, segments ≠ [] ∧ Forall proper segments ∧ file = root ++ SLASH :: join_slash segments.

(** A resolved path that starts with a directory and a slash is below it. *)
Lemma startsWith_inside root segments : root ≠ [] → Forall proper segments →
  startsWith (root ++ [SLASH]) (SLASH :: join_slash segments) = true → inside root (SLASH :: join_slash segments).
Proof.
  intros Hr Hs [tail E]%bool_decide_eq_true. rewrite <- app_assoc in E. cbn [app] in E.
  exists (split_on SLASH tail). split_and!; [apply split_on_ne| |by rewrite join_split_slash].
  destruct root as [|r root]; [done|]. injection E as <- E.
  assert (segments ≠ []) as Hne by (intros ->; cbn in E; destruct root; discriminate).
  apply (f_equal (split_on SLASH)) in E. rewrite split_join_slash, split_on_app in E by (done || by apply proper_no_slash).
  rewrite E in Hs. by apply Forall_app in Hs as [_ ?].
Qed.

Lemma index_proper : proper INDEX.
Proof. by apply (bool_decide_unpack _). Qed.

Lemma directory_ne root : directory root → root ≠ [].
Proof. by intros (? & _ & _ & ->). Qed.

Lemma resolved_inside root p : directory root → startsWith (root ++ [SLASH]) (path_resolve root p) = true →
  inside root (path_resolve root p).
Proof.
  intros Hr. destruct (resolve_segments root p) as (segments & Hs & ->). apply startsWith_inside; [by apply directory_ne|done].
Qed.

Lemma inside_starts root file : inside root file → startsWith (root ++ [SLASH]) file = true.
Proof. intros (segs & _ & _ & ->). apply bool_decide_eq_true. exists (join_slash segs). by rewrite <- app_assoc. Qed.

Lemma send_file_Served exists_ isDirectory types file f t :
  send_file exists_ isDirectory types file = Served f t → f = file.
Proof. unfold send_file. destruct (_ || _); [done|]. by intros [= -> _]. Qed.

(** A file below the directory is not the directory itself. *)
Lemma path_not_slash segments : segments ≠ [] → Forall proper segments → SLASH :: join_slash segments ≠ [SLASH].
Proof. intros Hne Hs [= E]. by eapply join_slash_ne. Qed.

Lemma template_inside exists_ isDirectory root pathname file t : directory root →
  template_handler exists_ isDirectory root pathname = Ok (Served file t) → file = root ∨ inside root file.
Proof.
  intros Hr. unfold template_handler. destruct (decodeURIComponent pathname) as [decoded|e]; [|done]. cbn [mbind res_bind].
  destruct (bool_decide_reflect (pathname = [SLASH])) as [Hp|Hp]; cbv zeta; intros [= E];
    (match goal with _ : (if ?b then Forbidden else _) = _ |- _ => destruct b eqn:Ec end; [done|]);
    apply send_file_Served in E; subst file.
  - right. exists [INDEX]. split_and!; [done|by apply Forall_singleton, index_proper|apply (join_below root [INDEX]); [done|by apply Forall_singleton, index_proper|done]].
  - apply andb_false_iff in Ec as [Ec|Ec]; apply negb_false_iff in Ec.
    + left. by apply bool_decide_eq_true in Ec.
    + right. by apply resolved_inside.
Qed.

Lemma guarded_inside exists_ (isDirectory : list byte → bool) root p file (t t' : string) : directory root →
  (if negb (startsWith (root ++ [SLASH]) (path_resolve root p)) || negb (exists_ (path_resolve root p)) || isDirectory (path_resolve root p)
   then NotFound else Served (path_resolve root p) t') = Served file t → inside root file.
Proof.
  intros Hr. destruct (startsWith (root ++ [SLASH]) (path_resolve root p)) eqn:E; cbn [negb orb]; [|done].
  destruct (_ || _); [done|]. intros [= <- _]. by apply resolved_inside.
Qed.

(** The servers that look at the separator serve only what is below their directory: whatever path
    a request has, percent-encoded or not, a file that the server of the templates, of the guest's
    preparation or of the benchmarks answers with is below the directory it was started in, never
    beside or above it; and a path that names a file below the directory reaches that file. *)
Theorem servers_stay_inside exists_ isDirectory root : directory root → ∀ pathname,
  let template := template_handler exists_ isDirectory root pathname in
  let guest := guest_handler exists_ isDirectory root pathname in
  let bench := bench_handler exists_ isDirectory root pathname in
  (∀ file t, template = Ok (Served file t) ∨ guest = Served file t ∨ bench = Served file t → file = root ∨ inside root file) ∧
  (∀ segments, segments ≠ [] → Forall proper segments → decodeURIComponent pathname = Ok (SLASH :: join_slash segments) →
     let file := root ++ SLASH :: join_slash segments in exists_ file = true → isDirectory file = false →
     template = Ok (Served file (content_type TEMPLATE_TYPES file)) ∧ guest = Served file (guest_type file) ∧
     bench = Served file (content_type BENCH_TYPES file)).
Proof.
  intros Hr pathname template guest bench. split.
  - intros file t [H|[H|H]]; [by eapply template_inside| |]; right; revert H.
    + unfold guest, guest_handler. destruct (decodeURIComponent pathname); [by apply guarded_inside|done].
    + unfold bench, bench_handler. destruct (decodeURIComponent _); [by apply guarded_inside|done].
  - intros segs Hne Hs Hd file He Hdir.
    assert (pathname ≠ [SLASH]) as Hp by (intros ->; injection Hd as Hd; by eapply join_slash_ne).
    assert (startsWith (root ++ [SLASH]) file = true) as Hst by (apply inside_starts; by exists segs).
    assert (path_resolve root (DOT ++ SLASH :: join_slash segs) = file) as Hres by (by apply resolve_below).
    unfold template, guest, bench, template_handler, guest_handler, bench_handler.
    rewrite !(bool_decide_false (pathname = [SLASH])) by done. rewrite Hd. cbn [mbind res_bind]. rewrite Hres, Hst, He, Hdir.
    rewrite andb_false_r. unfold send_file. by rewrite He, Hdir.
Qed.

(** A template's server at [/srv/dist] is asked for a file and for one beside its directory. *)
Definition demo_exists (file : list byte) : bool :=
  bool_decide (file ∈ [text_bytes "/srv/dist/a b.html"; text_bytes "/srv/dist-old/key"]).

Lemma servers_stay_inside_witness :
  template_handler demo_exists (λ _, false) (text_bytes "/srv/dist") (text_bytes "/a%20b.html") =
    Ok (Served (text_bytes "/srv/dist/a b.html") "text/html; charset=utf-8") ∧
  template_handler demo_exists (λ _, false) (text_bytes "/srv/dist") (text_bytes "/..%2fdist-old/key") = Ok Forbidden.
Proof.
  split; [|vm_compute; reflexivity].
  assert (directory (text_bytes "/srv/dist")) as Hr.
  { exists [text_bytes "srv"; text_bytes "dist"]. split_and!; [done| |reflexivity].
    repeat constructor; by apply (bool_decide_unpack _). }
  apply (servers_stay_inside demo_exists (λ _, false) (text_bytes "/srv/dist") Hr (text_bytes "/a%20b.html")) with (segments := [text_bytes "a b.html"]).
  - done.
  - repeat constructor; by apply (bool_decide_unpack _).
  - reflexivity.
  - reflexivity.
  - reflexivity.
Defined.

(** The servers that only compare a prefix serve a directory beside their own whose name begins
    with its name, and a path that is no percent-encoding raises an exception they do not catch. *)
Example sibling_served :
  playground_handler demo_exists (λ _, false) (text_bytes "/srv/dist") (text_bytes "/..%2fdist-old/key") =
    Ok (Served (text_bytes "/srv/dist-old/key") "application/octet-stream") ∧
  docs_handler demo_exists (λ _, false) (text_bytes "/srv/docs") (text_bytes "/srv/dist") true (text_bytes "/playground/..%2fdist-old/key") =
    Ok (Served (text_bytes "/srv/dist-old/key") "application/octet-stream").
Proof. split; vm_compute; reflexivity. Qed.

Example malformed_path_throws root :
  playground_handler demo_exists (λ _, false) root (text_bytes "/%") = Throw "URI malformed" ∧
  template_handler demo_exists (λ _, false) root (text_bytes "/%") = Throw "URI malformed".
Proof. done. Qed.
