(* ===== verification/Packaging.v ===== *)
(** Packaging a browser application: [src/runtime/luajit/package-assets.mjs] and
    [src/runtime/luajit/package-browser-app.mjs].

    The packager copies a guest and an application into a directory, with a manifest that names every
    file by its length and SHA-256, which [assets.mjs] (file [Assets]) checks when a browser loads it.
    The file system maps paths to contents; directories are made as they are needed.  The compiler,
    esbuild, gzip, the hash function and [JSON] are parameters. *)

From S2P Require Import Prelude Wire NodePath WorkerPool EffectCodec AppLimits Native Assets.

(** ** The file system *)

Abbreviation fs := (jmap (list byte) (list byte)).

Definition readFileSync (file : list byte) : js fs (list byte) :=
  f ← gets (λ f, f);
  match mget file f with Some bytes => mret bytes | None => throw "ENOENT: no such file or directory" end.
Definition writeFileSync (file bytes : list byte) : js fs () := modify (mset file bytes).
Definition copyFileSync (from to : list byte) : js fs () := bytes ← readFileSync from; writeFileSync to bytes.

Definition join_name (dir : list byte) (name : string) : list byte := path_join dir (text_bytes name).

(** ** Guests *)

Record snapshot := Snapshot {
  sn_buildKey : jsval; sn_guestAbi : jsval; sn_memoryMiB : jsval; sn_uncompressedBytes : jsval; sn_asset : string
}.

(** A guest's manifest; a record that is [null] is [None], an absent profile has no memory. *)
Record guest_dist := GuestDist {
  gd_developmentOverlay : bool;
  gd_schema : jsval; gd_guestAbi : jsval; gd_architecture : jsval; gd_buildKey : jsval;
  gd_assets : option (jmap string (option asset_record));
  gd_runner : option snapshot; gd_compiler : option snapshot;
  gd_runnerMiB : jsval; gd_compilerMiB : jsval;
  gd_inputs : jmap string jsval;
  gd_delivery : jmap string string
}.

Definition set_assets (assets : jmap string (option asset_record)) (delivery : jmap string string) (m : guest_dist) : guest_dist :=
  GuestDist (gd_developmentOverlay m) (gd_schema m) (gd_guestAbi m) (gd_architecture m) (gd_buildKey m) (Some assets)
    (gd_runner m) (gd_compiler m) (gd_runnerMiB m) (gd_compilerMiB m) (gd_inputs m) delivery.

Definition is_num (v : jsval) (n : Z) : bool := bool_decide (v = VNum (NInt n)).

(** [manifest.assets[name]] is a record. *)
Definition has_asset (assets : jmap string (option asset_record)) (name : string) : bool :=
  match mget name assets with Some (Some _) => true | _ => false end.

Definition MAX_SNAPSHOT : Z := 256 * 1024 * 1024.
Definition VERIFIED_INPUTS : list string :=
  ["runtime/luajit/bridge.lua"; "runtime/luajit/guest-init.c"; "runtime/luajit/linux.config"; "runtime/luajit/vm-worker.mjs";
   "runtime/luajit/assets.mjs"].

(** [name.split(/[\\/]/)]. *)
Definition split_slashes (name : list byte) : list (list byte) :=
  split_on SLASH ((λ b, if bool_decide (b = x5c) then SLASH else b) <$> name).

Definition escapes (name : string) : bool :=
  let l := text_bytes name in
  isAbsolute l || existsb (λ part, bool_decide (part = DOTDOT) || bool_decide (part = [])) (split_slashes l).

Section Packaging.
Context (JSON_guest : list byte → res guest_dist) (JSON_guest_text : guest_dist → list byte)
  (gzip : list byte → list byte) (digest : list byte → list byte)
  (** [readdirSync(host/notices)] and [process.env.NUPP_BROWSER_DEV === '1']. *)
  (notices : list string) (dev : bool).

Definition hexdigest (bytes : list byte) : string := sha256 digest bytes.

Definition verify_snapshot (m : guest_dist) (assets : jmap string (option asset_record)) (profile : string) (s : snapshot) (mib : Z) (profileMiB : jsval) : res () :=
  if negb (bool_decide (sn_buildKey s = gd_buildKey m)) || negb (bool_decide (sn_guestAbi s = gd_guestAbi m)) ||
     negb (is_num (sn_memoryMiB s) mib) || negb (bool_decide (sn_memoryMiB s = profileMiB)) ||
     negb (match to_safe (sn_uncompressedBytes s) with Some n => (0 <? n) && (n <=? MAX_SNAPSHOT) | None => false end) ||
     negb (has_asset assets (sn_asset s))
  then Throw ("Invalid guest snapshot: " +:+ profile) else Ok tt.

(** One asset of the guest: its record, its name and its bytes. *)
Definition verify_asset (source : list byte) (entry : string * option asset_record) : js fs () :=
  let '(name, record) := entry in
  guard_js (escapes name) "Guest asset path escapes its package" ;;
  match record with
  | None => throw ("Invalid guest asset record: " +:+ name)
  | Some r =>
      match to_safe (as_bytes r) with
      | Some n =>
          guard_js ((n <=? 0) || negb (is_digest (as_sha256 r))) ("Invalid guest asset record: " +:+ name) ;;
          bytes ← readFileSync (join_name source name);
          guard_js (negb (zlen bytes =? n) || negb (bool_decide (VStr (hexdigest bytes) = as_sha256 r))) ("Guest asset integrity failure: " +:+ name)
      | None => throw ("Invalid guest asset record: " +:+ name)
      end
  end.

Definition verifyGuest (repo source : list byte) : js fs guest_dist :=
  text ← readFileSync (join_name source "guest-manifest.json");
  m ← lift (JSON_guest text);
  guard_js (gd_developmentOverlay m && negb dev) "A development guest overlay is not a production package" ;;
  match gd_assets m with
  | None => throw "Unsupported guest manifest"
  | Some assets =>
      guard_js (negb (is_num (gd_schema m) 1) || negb (is_num (gd_guestAbi m) 1) ||
                negb (bool_decide (gd_architecture m = VStr "i386-linux-musl")) || negb (is_digest (gd_buildKey m)))
        "Unsupported guest manifest" ;;
      match gd_runner m, gd_compiler m with
      | Some runner, Some compiler =>
          lift (verify_snapshot m assets "runner" runner 64 (gd_runnerMiB m)) ;;
          lift (verify_snapshot m assets "compiler" compiler 128 (gd_compilerMiB m)) ;;
          for_each ("matching-source.tar.gz" :: ((λ name, "notices/" +:+ name) <$> notices))
            (λ name, guard_js (negb (has_asset assets name)) ("Guest distribution is missing " +:+ name)) ;;
          for_each VERIFIED_INPUTS (λ file,
            bytes ← readFileSync (join_name repo file);
            guard_js (negb (bool_decide (default VUndef (mget file (gd_inputs m)) = VStr (hexdigest bytes)))) ("The browser guest is stale: " +:+ file)) ;;
          for_each assets (verify_asset source) ;;
          mret m
      | _, _ => throw "The guest needs both verified snapshots; run scripts/browser-snapshot.mjs first"
      end
  end.

Definition record_of (bytes : list byte) : asset_record := AssetRecord (VStr (hexdigest bytes)) (VNum (NInt (zlen bytes))).

Definition ENCODED : list string := ["assets/v86.wasm"; "assets/v86-fallback.wasm"].

(** One of the two assets that are also delivered compressed. *)
Definition encode_asset (destination : list byte) (m : guest_dist) (name : string) : js fs guest_dist :=
  plain ← readFileSync (join_name destination name);
  let bytes := gzip plain in
  let encoded := name +:+ ".gz" in
  writeFileSync (join_name destination encoded) bytes ;;
  mret (set_assets (mset encoded (Some (record_of bytes)) (default [] (gd_assets m))) (mset name encoded (gd_delivery m)) m).

Fixpoint encode_assets (destination : list byte) (names : list string) (m : guest_dist) : js fs guest_dist :=
  match names with
  | [] => mret m
  | name :: names' => m' ← encode_asset destination m name; encode_assets destination names' m'
  end.

Definition copyGuest (repo source destination : list byte) : js fs guest_dist :=
  m ← verifyGuest repo source;
  for_each (default [] (gd_assets m)) (λ entry, copyFileSync (join_name source entry.1) (join_name destination entry.1)) ;;
  m' ← encode_assets destination ENCODED m;
  writeFileSync (join_name destination "guest-manifest.json") (JSON_guest_text m') ;;
  mret m'.

(** ** Applications *)

(** What [nupp build --json] reports. *)
Record build_result := BuildResult {
  br_ok : bool; br_artifact : option string; br_written : list string; br_aotManifest : option string
}.

(** A unit of the Wasm build: its file, the version of its bridge, and what the kernel's record takes
    over as it is. *)
Context {U : Type}.
Record wasm_unit := WasmUnit { un_wasm : option string; un_bridge : option jsval; un_rest : U }.
Record aot_manifest := AotManifest { ao_schemaVersion : jsval; ao_target : jsval; ao_units : list wasm_unit }.

(** The manifest of the application. *)
Record app_package := AppPackage {
  pk_app : string; pk_guest : string; pk_guestBuildKey : string;
  pk_assets : jmap string asset_record;
  pk_kernels : list (string * U);
  pk_native : list (string * string);
  pk_workers : bool;
  pk_limits : layer
}.

Context (JSON_aot : list byte → res aot_manifest) (JSON_package_text : app_package → list byte)
  (** The bundle esbuild makes of an entry point. *)
  (bundle : string → res (list byte)).

(** The file system with [assets]. *)
Record pack := Pack { pa_fs : fs; pa_assets : jmap string asset_record }.
Definition set_fs (f : fs) (p : pack) : pack := Pack f (pa_assets p).
Definition on_fs {A} (m : js fs A) : js pack A := zoom pa_fs set_fs m.

(** [record(name)]. *)
Definition record_asset (output : list byte) (name : string) : js pack () :=
  bytes ← on_fs (readFileSync (join_name output name));
  modify (λ p, Pack (pa_fs p) (mset name (record_of bytes) (pa_assets p))).

Definition slice16 (s : string) : string := bytes_text (take 16 (text_bytes s)).

Definition LIBRARY_SUFFIXES : list string := [".so"; ".dylib"; ".dll"].
Definition is_library (source : list byte) : bool := existsb (λ x, endsWith (text_bytes x) source) LIBRARY_SUFFIXES.

(** Libraries beside the artifact, in order; [total] is what they hold so far. *)
Fixpoint pack_libraries (project output libraryDirectory : list byte) (written : list string) (total : Z) : js pack (list (string * string)) :=
  match written with
  | [] => mret []
  | artifact :: written' =>
      let source := path_resolve project (text_bytes artifact) in
      if negb (bool_decide (path_dirname source = libraryDirectory)) || negb (is_library source)
      then pack_libraries project output libraryDirectory written' total
      else
        let name := path_basename source in
        bytes ← on_fs (readFileSync source);
        lift (validateNativeLibrary name bytes) ;;
        guard_js (1024 * 1024 <? total + zlen bytes) "Guest native libraries exceed one MiB in total" ;;
        let file := "native/" +:+ slice16 (hexdigest bytes) +:+ "/" +:+ bytes_text name in
        on_fs (copyFileSync source (join_name output file)) ;;
        record_asset output file ;;
        rest ← pack_libraries project output libraryDirectory written' (total + zlen bytes);
        mret ((file, bytes_text name) :: rest)
  end.

Definition unit_file (u : wasm_unit) : option string :=
  match un_wasm u, un_bridge u with
  | Some wasm, Some abi =>
      if negb (is_num abi 1) || String.eqb wasm "" || bool_decide (DOTDOT ∈ split_slashes (text_bytes wasm)) || isAbsolute (text_bytes wasm)
      then None else Some wasm
  | _, _ => None
  end.

Fixpoint pack_units (manifestDir output : list byte) (units : list wasm_unit) : js pack (list (string * U)) :=
  match units with
  | [] => mret []
  | u :: units' =>
      match unit_file u with
      | None => throw "Invalid independent Wasm unit"
      | Some wasm =>
          let name := "aot/" +:+ wasm in
          on_fs (copyFileSync (path_join manifestDir (text_bytes wasm)) (join_name output name)) ;;
          record_asset output name ;;
          rest ← pack_units manifestDir output units';
          mret ((name, un_rest u) :: rest)
      end
  end.

(** [`${value}`]; what other values print as is a parameter. *)
Context (print_value : jsval → string).
Definition key_text (v : jsval) : string := match v with VStr s => s | _ => print_value v end.

Definition pack_kernels (project output : list byte) (aotManifest : option string) : js pack (list (string * U)) :=
  match aotManifest with
  | None => mret []
  | Some file =>
      let manifestPath := path_resolve project (text_bytes file) in
      text ← on_fs (readFileSync manifestPath);
      built ← lift (JSON_aot text);
      guard_js (negb (is_num (ao_schemaVersion built) 3)) (bytes_text manifestPath +:+ " has schemaVersion " +:+ key_text (ao_schemaVersion built) +:+
        ", and this packager reads 3; rebuild it with the matching compiler") ;;
      guard_js (negb (bool_decide (ao_target built = VStr "wasm32-unknown-emscripten"))) "Unsupported Wasm build manifest" ;;
      pack_units (path_dirname manifestPath) output (ao_units built)
  end.

Definition BUNDLES : list string := ["app-runtime"; "worker-lane"; "browser-worker"].
Definition pack_bundle (output : list byte) (name : string) : js pack () :=
  bytes ← lift (bundle name);
  on_fs (writeFileSync (join_name output (name +:+ ".mjs")) bytes) ;;
  record_asset output (name +:+ ".mjs").

(** Files of the page, which are served and not checked. *)
Definition PAGE_FILES : list (string * string) :=
  [("runtime/wasm/browser-entry.mjs", "nupp-browser-app.mjs"); ("runtime/wasm/audio.mjs", "nupp-audio.mjs");
   ("runtime/wasm/audio-worklet.mjs", "nupp-audio-worklet.mjs")].

(** [/(?:^|[\/])nupp[\/]workers\.lua$/]. *)
Definition is_workers_facade (file : string) : bool :=
  match reverse (split_slashes (text_bytes file)) with
  | a :: b :: _ => bool_decide (a = text_bytes "workers.lua") && bool_decide (b = text_bytes "nupp")
  | _ => false
  end.

Definition package_limits (workers : bool) : layer :=
  let n z := VNum (NInt z) in
  LObject [("perTurn", SObject [("maxEffects", n (if workers then 262144 else 256));
    ("maxEffectBytes", n (if workers then 268435456 else 4194304));
    ("maxResponseBytes", n (if workers then 268435456 else 8388608)); ("computeMs", n 30000)])].

(** [packageWithService] from the compiler's report and the prepared guest on. *)
Definition packageWithService (repo project output guest : list byte) (result : build_result) : js pack app_package :=
  match br_artifact result with
  | Some artifact =>
      guard_js (negb (br_ok result) || negb (endsWith (text_bytes ".lua") (text_bytes artifact))) "A browser application must be a LuaJIT bundle target" ;;
      text ← on_fs (readFileSync (join_name guest "guest-manifest.json"));
      guestManifest ← lift (JSON_guest text);
      let guestName := "guest/" +:+ key_text (gd_buildKey guestManifest) +:+ "/guest-manifest.json" in
      on_fs (copyGuest repo guest (path_dirname (join_name output guestName))) ;;
      record_asset output guestName ;;
      let artifactPath := path_resolve project (text_bytes artifact) in
      bytes ← on_fs (readFileSync artifactPath);
      let app := "app-" +:+ slice16 (hexdigest bytes) +:+ ".lua" in
      on_fs (writeFileSync (join_name output app) bytes) ;;
      record_asset output app ;;
      native ← pack_libraries project output (join_name (path_dirname artifactPath) "lib") (br_written result) 0;
      kernels ← pack_kernels project output (br_aotManifest result);
      for_each BUNDLES (pack_bundle output) ;;
      for_each PAGE_FILES (λ p, on_fs (copyFileSync (join_name repo p.1) (join_name output p.2))) ;;
      let workers := existsb is_workers_facade (br_written result) in
      assets ← gets pa_assets;
      let manifest := AppPackage app guestName (key_text (gd_buildKey guestManifest)) assets kernels native workers (package_limits workers) in
      on_fs (writeFileSync (join_name output "nupp-browser-app.json") (JSON_package_text manifest)) ;;
      mret manifest
  | None => throw "A browser application must be a LuaJIT bundle target"
  end.
End Packaging.
