(* ===== verification/PackagingSpec.v ===== *)
(** What the packager writes is what the loader accepts: every file a manifest names is in the package
    with the length and the digest the manifest gives it, and [assets.mjs] returns its bytes. *)

From S2P Require Import Prelude Wire NodePath Percent WorkerPool EffectCodec AppLimits Native Assets Packaging.

(** ** Names *)

(** A name made of names: no empty part, no [.] and no [..]. *)
Definition plain_name (name : string) : Prop := Forall proper (split_on SLASH (text_bytes name)).
#[export] Instance plain_name_dec name : Decision (plain_name name).
Proof. unfold plain_name. apply _. Defined.

(** A plain name of letters, digits and marks that a URL has as they are: no scheme, no query, no fragment, no escape. *)
Definition url_name (name : string) : Prop :=
  plain_name name ∧ Forall (λ b, unreserved b = true ∨ b = SLASH) (text_bytes name).
#[export] Instance url_name_dec name : Decision (url_name name).
Proof. unfold url_name. apply _. Defined.

Lemma join_plain dir name : directory dir → plain_name name → join_name dir name = dir ++ SLASH :: text_bytes name.
Proof.
  intros Hd Hn. unfold join_name. rewrite <- (join_split_slash (text_bytes name)) at 1 2.
  apply join_below; [done|done|apply split_on_ne].
Qed.

Lemma text_bytes_inj s s' : text_bytes s = text_bytes s' → s = s'.
Proof. intros E. apply (f_equal bytes_text) in E. by rewrite !bytes_text_bytes in E. Qed.

Lemma join_plain_inj dir name name' : directory dir → plain_name name → plain_name name' →
  join_name dir name = join_name dir name' → name = name'.
Proof.
  intros Hd Hn Hn'. rewrite !join_plain by done. intros E. apply app_inj_1 in E as [_ [= E]]; [|done]. by apply text_bytes_inj.
Qed.

Lemma split_slash_on l part : split_slash l part = match split_on SLASH l with s :: ss => (part ++ s) :: ss | [] => [part] end.
Proof.
  revert part. induction l as [|b l IH]; intros part; cbn [split_slash split_on foldr]; [by rewrite app_nil_r|].
  fold (split_on SLASH l). change x2f with SLASH. pose proof (split_on_ne SLASH l).
  case_bool_decide; rewrite IH; destruct (split_on SLASH l); try done.
  - by rewrite app_nil_r.
  - by rewrite <- app_assoc.
Qed.

Lemma plain_relative name : plain_name name → relative_name name = true.
Proof.
  intros Hn. unfold relative_name. rewrite split_slash_on. unfold plain_name in Hn. apply andb_true_intro.
  destruct (split_on SLASH (text_bytes name)) as [|s ss] eqn:E; [by destruct (split_on_ne SLASH (text_bytes name))|].
  split; apply negb_true_iff, bool_decide_eq_false.
  - intros Hh. destruct (text_bytes name) as [|b l] eqn:Eb; [done|]. injection Hh as ->. cbn in E.
    apply Forall_cons in Hn as [(Hs & _) _]. by injection E as <- _.
  - cbn [app]. intros Hin. rewrite Forall_forall in Hn. by destruct (Hn _ Hin) as (_ & _ & ? & _).
Qed.

(** ** Files and records *)

Section Spec.
Context (digest : list byte → list byte).

(** The record gives the length and the digest of the bytes. *)
Record describes (r : asset_record) (bytes : list byte) : Prop := Describes {
  ds_bytes : as_bytes r = VNum (NInt (zlen bytes));
  ds_sha256 : as_sha256 r = VStr (hexdigest digest bytes)
}.

Lemma describes_record bytes : describes (record_of digest bytes) bytes.
Proof. done. Qed.

(** Every recorded name is a file of the directory, as recorded. *)
Definition packed (dir : list byte) (assets : jmap string asset_record) (f : fs) : Prop :=
  ∀ name r, mget name assets = Some r → plain_name name ∧ ∃ bytes, mget (join_name dir name) f = Some bytes ∧ describes r bytes.

Lemma packed_record dir assets f name bytes : directory dir → plain_name name → packed dir assets f →
  packed dir (mset name (record_of digest bytes) assets) (mset (join_name dir name) bytes f).
Proof.
  intros Hd Hn Hp name' r [[-> ->]|[Hne Hg]]%mget_mset_Some.
  - split; [done|]. exists bytes. by rewrite mget_mset_eq.
  - destruct (Hp _ _ Hg) as [Hn' (bytes' & Hf & Hds)]. split; [done|]. exists bytes'. split; [|done].
    rewrite mget_mset_ne; [done|]. intros E. by apply join_plain_inj in E.
Qed.

(** A file that is not recorded may be written. *)
Lemma packed_write dir assets f file bytes : (∀ name, is_Some (mget name assets) → join_name dir name ≠ file) →
  packed dir assets f → packed dir assets (mset file bytes f).
Proof.
  intros Hne Hp name r Hg. destruct (Hp _ _ Hg) as [Hn (b & Hf & Hds)]. split; [done|]. exists b. split; [|done].
  rewrite mget_mset_ne; [done|]. intros E. by eapply Hne.
Qed.

(** ** The loader *)

(** [new URL(name, base)]: the path below the base that the name leads to, or none where it leads elsewhere
    (another origin, a data URL, a path outside the base, a query).  The URL standard keeps a path of such characters as it is. *)
Context (resolve : string → option string).
Hypothesis resolve_url : ∀ name, url_name name → resolve name = Some name.

Definition same_origin (name : string) : bool := bool_decide (is_Some (resolve name)).

(** What a server that serves the package answers, a chunk a file. *)
Definition served (dir : list byte) (f : fs) (name : string) : res stream :=
  match resolve name with
  | Some path => match mget (join_name dir path) f with Some bytes => Ok (Stream [bytes] None) | None => Throw "404" end
  | None => Throw "Failed to fetch"
  end.

Lemma collect_one bytes : collect [bytes] (zlen bytes) = bytes.
Proof. pose proof (collect_concat [bytes]) as H. cbn in H. by rewrite app_nil_r in H. Qed.

Lemma same_origin_url name : url_name name → same_origin name = true.
Proof. intros H. unfold same_origin. rewrite resolve_url by done. by apply bool_decide_true. Qed.

Lemma download_served dir f name r bytes : url_name name → mget (join_name dir name) f = Some bytes → describes r bytes →
  download (served dir f) digest name r (zlen bytes) = Ok bytes.
Proof.
  intros Hu Hf [_ Hs]. unfold download, served. rewrite resolve_url, Hf by done. cbn [mbind res_bind sm_chunks sm_error read_bounded].
  rewrite Z.add_0_l, Z.ltb_irrefl. cbn [mbind res_bind mret res_ret]. rewrite Z.eqb_refl. cbn [negb]. rewrite collect_one, Hs.
  by rewrite bool_decide_true.
Qed.

Lemma checked_packed m name r bytes : mget name (am_assets m) = Some r → plain_name name → describes r bytes →
  0 < zlen bytes <= MAX_ASSET_BYTES → zlen (digest bytes) = 32 → checked_record m name = Ok (r, zlen bytes).
Proof.
  intros Hg Hn [Hb Hs] Hl Hd. unfold checked_record. rewrite Hg, Hb. unfold to_safe, MAX_ASSET_BYTES, MAX_SAFE_INTEGER in *.
  rewrite (proj2 (Z.leb_le _ _)) by lia. rewrite Hs. pose proof (hex_is_digest (digest bytes) Hd) as [Hx _].
  unfold hexdigest, sha256. rewrite Hx, plain_relative by done.
  rewrite (proj2 (Z.ltb_lt _ _)), (proj2 (Z.leb_le _ _)) by lia. done.
Qed.

(** Hash and compression as the platform documents them: 32 bytes of SHA-256, and a stream that gives
    back what was compressed. *)
Context (gunzip : list byte → stream) (gzip : list byte → list byte).
Hypothesis digest_length : ∀ bytes, zlen (digest bytes) = 32.
Hypothesis gunzip_gzip : ∀ bytes, sm_error (gunzip (gzip bytes)) = None ∧ concat (sm_chunks (gunzip (gzip bytes))) = bytes.

Lemma read_bounded_fits chunks max length tooLong : length + zlen (concat chunks) <= max →
  read_bounded chunks None max length tooLong = Ok (chunks, length + zlen (concat chunks)).
Proof.
  revert length. induction chunks as [|c chunks IH]; intros length; cbn [read_bounded concat].
  - intros _. by rewrite zlen_nil, Z.add_0_r.
  - rewrite zlen_app. intros Hm. pose proof (zlen_nonneg (concat chunks)).
    rewrite (proj2 (Z.ltb_ge _ _)) by lia. rewrite IH by lia. cbn. by rewrite Z.add_assoc.
Qed.

Lemma inflate_gzip bytes : 0 < zlen bytes <= MAX_ASSET_BYTES → inflateSnapshot (gunzip (gzip bytes)) (VNum (NInt (zlen bytes))) = Ok bytes.
Proof.
  intros Hl. destruct (gunzip_gzip bytes) as [He Hc]. unfold inflateSnapshot, to_safe, MAX_SAFE_INTEGER, MAX_ASSET_BYTES in *.
  rewrite (proj2 (Z.leb_le _ _)) by lia. rewrite (proj2 (Z.leb_gt _ _)), (proj2 (Z.ltb_ge _ _)) by lia. cbn [orb].
  rewrite He, read_bounded_fits by (rewrite Hc; lia). rewrite Hc. cbn [mbind res_bind]. rewrite Z.add_0_l, Z.eqb_refl. cbn [negb].
  pose proof (collect_concat (sm_chunks (gunzip (gzip bytes)))) as Hcc. rewrite Hc in Hcc. by f_equal.
Qed.

(** What the loader returns for an asset: its file, or what its compressed file holds. *)
Definition delivered (dir : list byte) (m : asset_manifest) (f : fs) (name : string) (bytes : list byte) : Prop :=
  match mget name (am_delivery m) with
  | None => mget (join_name dir name) f = Some bytes
  | Some encoded => encoded ≠ name ∧ mget encoded (am_delivery m) = None ∧ is_Some (mget encoded (am_assets m)) ∧
      mget (join_name dir encoded) f = Some (gzip bytes)
  end.

(** Sizes the loader accepts. *)
Definition sized (dir : list byte) (m : asset_manifest) (f : fs) : Prop :=
  ∀ name bytes, is_Some (mget name (am_assets m)) → mget (join_name dir name) f = Some bytes → 0 < zlen bytes <= MAX_ASSET_BYTES.

Lemma verify_plain dir m f name r bytes fuel p : url_name name → packed dir (am_assets m) f → sized dir m f →
  mget name (am_assets m) = Some r → mget name (am_delivery m) = None → mget (join_name dir name) f = Some bytes → mget name p = None →
  (verified m same_origin (served dir f) gunzip digest (S fuel) name p).1 = Ok bytes.
Proof.
  intros Hu Hp Hs Hg Hd Hf Hnone. destruct (Hp _ _ Hg) as [Hn (b & Hf' & Hds)]. rewrite Hf in Hf'. injection Hf' as <-.
  cbn [verified]. unfold verified_with. erewrite bind_run by reflexivity. rewrite Hnone.
  erewrite bind_run by (unfold lift; erewrite checked_packed; [reflexivity|done..|eapply (Hs name); eauto|apply digest_length]).
  cbv beta match. rewrite (same_origin_url name Hu). erewrite bind_run by reflexivity. rewrite Hd. unfold keep, lift. by erewrite download_served.
Qed.

Lemma verify_packed dir m f name r bytes : url_name name → (∀ encoded, mget name (am_delivery m) = Some encoded → url_name encoded) → packed dir (am_assets m) f → sized dir m f →
  mget name (am_assets m) = Some r → describes r bytes → mget (join_name dir name) f = Some bytes →
  delivered dir m f name bytes → (verify m same_origin (served dir f) gunzip digest name []).1 = Ok bytes.
Proof.
  intros Hu Hue Hp Hs Hg Hds Hf Hd. unfold delivered in Hd. unfold verify.
  destruct (mget name (am_delivery m)) as [encoded|] eqn:Ed; [|by eapply verify_plain].
  destruct Hd as (Hne & Hnd & [re Hre] & Hz). destruct (Hp _ _ Hg) as [Hn _].
  cbn [verified]. unfold verified_with at 1. erewrite bind_run by reflexivity. cbn [mget].
  erewrite bind_run by (unfold lift; erewrite checked_packed; [reflexivity|done..|eapply (Hs name); eauto|apply digest_length]).
  cbv beta match. rewrite (same_origin_url name Hu). erewrite bind_run by reflexivity. rewrite Ed. unfold keep.
  assert (is_Some (mget encoded (am_delivery m)) → False) as Hns by (rewrite Hnd; by intros [? [=]]).
  rewrite !bool_decide_false by done. erewrite bind_run by reflexivity.
  pose proof (verify_plain dir m f encoded re (gzip bytes) 0 [] (Hue _ eq_refl) Hp Hs Hre Hnd Hz eq_refl) as Hv. cbn [verified] in Hv.
  destruct (verified_with m _ _ gunzip digest _ encoded []) as [r' p'] eqn:E. cbn in Hv. subst r'.
  erewrite bind_run by exact E. rewrite (ds_bytes _ _ Hds), inflate_gzip by (eapply (Hs name); eauto).
  erewrite bind_run by reflexivity. rewrite (ds_sha256 _ _ Hds). unfold hexdigest. rewrite bool_decide_true by done. done.
Qed.
(** ** Copying a guest *)

(** The loader's view of a guest's manifest; it rejects a record that is [null] as one without fields. *)
Definition loaded (m : guest_dist) : asset_manifest :=
  AssetManifest (prod_map id (default (AssetRecord VUndef VUndef)) <$> default [] (gd_assets m)) (gd_delivery m).

Lemma loaded_get m name : mget name (am_assets (loaded m)) = default (AssetRecord VUndef VUndef) <$> mget name (default [] (gd_assets m)).
Proof. cbn. induction (default [] (gd_assets m)) as [|[k r] l IH]; cbn; [done|]. by case_decide. Qed.

Lemma read_Ok file f bytes f' : readFileSync file f = (Ok bytes, f') → f' = f ∧ mget file f = Some bytes.
Proof. unfold readFileSync, mbind, js_bind, gets. destruct (mget file f); [|done]. by intros [= -> ->]. Qed.

Lemma copy_Ok from to f f' u : copyFileSync from to f = (Ok u, f') → ∃ bytes, mget from f = Some bytes ∧ f' = mset to bytes f.
Proof. intros (bytes & f1 & [-> Hr]%read_Ok & [= _ <-])%bind_Ok. by exists bytes. Qed.

(** What one accepted asset is. *)
Definition accepted (source : list byte) (f : fs) (entry : string * option asset_record) : Prop :=
  ∃ r bytes, entry.2 = Some r ∧ mget (join_name source entry.1) f = Some bytes ∧ describes r bytes ∧ 0 < zlen bytes.

Lemma verify_asset_Ok source entry f u f' : verify_asset digest source entry f = (Ok u, f') → f' = f ∧ accepted source f entry.
Proof.
  destruct entry as [name [r|]]; unfold verify_asset; intros ([] & f1 & [_ ->]%guard_Ok & H)%bind_Ok; [|done].
  destruct (to_safe (as_bytes r)) as [n|] eqn:En; [|done]. apply to_safe_Some in En as [Eb _].
  apply bind_Ok in H as ([] & f1 & [Hn ->]%guard_Ok & (bytes & f2 & [-> Hr]%read_Ok & [Hg ->]%guard_Ok)%bind_Ok).
  apply orb_false_iff in Hn as [Hn _], Hg as [Hl Hd]. apply Z.leb_gt in Hn. apply negb_false_iff in Hl, Hd.
  apply Z.eqb_eq in Hl. apply bool_decide_eq_true in Hd. split; [done|]. exists r, bytes. cbn. subst n. repeat split; try done; lia.
Qed.

(** A loop that changes nothing and checks every element. *)
Lemma for_each_checks {S A} (P : S → A → Prop) (xs : list A) body :
  (∀ x s u s', body x s = (Ok u, s') → s' = s ∧ P s x) → ∀ s u s', for_each xs body s = (Ok u, s') → s' = s ∧ Forall (P s) xs.
Proof.
  intros Hb. induction xs as [|x xs IH]; intros s u s'; cbn [for_each].
  - intros [= _ ->]. by split.
  - intros (u1 & s1 & [-> Hx]%Hb & [-> Hxs]%IH)%bind_Ok. by split; [|constructor].
Qed.

Lemma verifyGuest_Ok JSON_guest notices dev repo source f m f' : verifyGuest JSON_guest digest notices dev repo source f = (Ok m, f') →
  f' = f ∧ (∃ text, mget (join_name source "guest-manifest.json") f = Some text ∧ JSON_guest text = Ok m) ∧
  Forall (accepted source f) (default [] (gd_assets m)) ∧ is_digest (gd_buildKey m) = true.
Proof.
  unfold verifyGuest. intros (text & f1 & [-> Ht]%read_Ok & H)%bind_Ok. apply bind_Ok in H as (m0 & f1 & [= Hm <-] & H).
  apply bind_Ok in H as ([] & f1 & [_ ->]%guard_Ok & H). destruct (gd_assets m0) as [assets|] eqn:Ea; [|done].
  apply bind_Ok in H as ([] & f1 & [[_ Hk%negb_false_iff]%orb_false_iff ->]%guard_Ok & H).
  destruct (gd_runner m0) as [runner|]; [|done]. destruct (gd_compiler m0) as [compiler|]; [|done].
  apply bind_Ok in H as ([] & f1 & [= _ <-] & H). apply bind_Ok in H as ([] & f1 & [= _ <-] & H).
  apply bind_Ok in H as ([] & f2 & [-> _]%(for_each_checks (λ _ _, True)) & H); [|by intros x s u s' [_ ->]%guard_Ok].
  apply bind_Ok in H as ([] & f2 & [-> _]%(for_each_checks (λ _ _, True)) & H);
    [|by intros x s u s' (b & s1 & [-> _]%read_Ok & [_ ->]%guard_Ok)%bind_Ok].
  apply bind_Ok in H as ([] & f2 & [-> Ha]%(for_each_checks (accepted source)) & [= <- <-]); [|apply verify_asset_Ok].
  rewrite Ea. split; [done|]. split; [by exists text|done].
Qed.
(** No file of the guest is a file of the package. *)
Definition apart (source destination : list byte) (names : list string) : Prop :=
  ∀ name name', name ∈ names → name' ∈ names → join_name source name ≠ join_name destination name'.

Definition copy_assets (source destination : list byte) (entries : jmap string (option asset_record)) : js fs () :=
  for_each entries (λ entry, copyFileSync (join_name source entry.1) (join_name destination entry.1)).

Lemma copies_Ok source destination entries all f u f' : directory destination → Forall plain_name all → apart source destination all →
  entries.*1 ⊆ all → copy_assets source destination entries f = (Ok u, f') →
  (∀ file, (∀ name, name ∈ all → file ≠ join_name destination name) → mget file f' = mget file f) ∧
  (∀ name, name ∈ all → mget (join_name destination name) f' =
     if decide (name ∈ entries.*1) then mget (join_name source name) f else mget (join_name destination name) f).
Proof.
  intros Hd Hall Hap. revert f. induction entries as [|[n r] entries IH]; intros f Hsub.
  { intros [= _ <-]. split; [done|]. intros name _. by rewrite decide_False by (cbn; set_solver). }
  unfold copy_assets. cbn [for_each]. intros ([] & f1 & (bytes & Hs & ->)%copy_Ok & H)%bind_Ok.
  apply IH in H as [Ho Hc]; [|cbn in Hsub; set_solver]. assert (n ∈ all) as Hin by (cbn in Hsub; set_solver).
  rewrite Forall_forall in Hall. cbn in Hs. split.
  - intros file Hf. rewrite Ho by done. rewrite mget_mset_ne; [done|]. intros <-. by apply (Hf n).
  - intros name Hname. rewrite Hc by done. cbn. destruct (decide (name = n)) as [->|Hne].
    + rewrite (decide_True (P := n ∈ n :: _)) by set_solver. rewrite mget_mset_eq. case_decide; [|done].
      by rewrite mget_mset_ne by (intros E; by eapply Hap).
    + destruct (decide (name ∈ entries.*1)) as [Hi|Hi].
      * rewrite (decide_True (P := name ∈ n :: _)) by (by right). rewrite mget_mset_ne; [done|]. intros E. by apply (Hap name n).
      * rewrite (decide_False (P := name ∈ n :: _)) by (rewrite elem_of_cons; tauto).
        rewrite mget_mset_ne; [done|]. intros E. apply join_plain_inj in E; auto.
Qed.

Lemma encode_Ok destination m name f m' f' : encode_asset gzip digest destination m name f = (Ok m', f') → ∃ plain,
  mget (join_name destination name) f = Some plain ∧ f' = mset (join_name destination (name +:+ ".gz")) (gzip plain) f ∧
  m' = set_assets (mset (name +:+ ".gz") (Some (record_of digest (gzip plain))) (default [] (gd_assets m))) (mset name (name +:+ ".gz") (gd_delivery m)) m.
Proof.
  unfold encode_asset. intros (plain & f1 & [-> Hr]%read_Ok & ([] & f2 & [= <-] & [= <- <-])%bind_Ok)%bind_Ok. by exists plain.
Qed.

Lemma loaded_mset m name bytes delivery :
  am_assets (loaded (set_assets (mset name (Some (record_of digest bytes)) (default [] (gd_assets m))) delivery m)) =
  mset name (record_of digest bytes) (am_assets (loaded m)).
Proof. cbn. induction (default [] (gd_assets m)) as [|[k r] l IH]; cbn; [done|]. case_decide; cbn; [done|by rewrite IH]. Qed.

(** One compressed asset joins the package. *)
Lemma encode_packed destination m name f m' f' : directory destination → plain_name (name +:+ ".gz") →
  packed destination (am_assets (loaded m)) f → encode_asset gzip digest destination m name f = (Ok m', f') →
  packed destination (am_assets (loaded m')) f' ∧ gd_delivery m' = mset name (name +:+ ".gz") (gd_delivery m) ∧
  (∀ n, mget n (am_assets (loaded m')) = if decide (n = name +:+ ".gz") then mget n (am_assets (loaded m')) else mget n (am_assets (loaded m))) ∧
  is_Some (mget (name +:+ ".gz") (am_assets (loaded m'))) ∧
  mget (join_name destination (name +:+ ".gz")) f' = gzip <$> mget (join_name destination name) f ∧
  (∀ n, plain_name n → n ≠ name +:+ ".gz" → mget (join_name destination n) f' = mget (join_name destination n) f).
Proof.
  intros Hd Hn Hp (plain & Hr & -> & ->)%encode_Ok. rewrite loaded_mset. split; [by apply packed_record|]. split; [done|].
  split; [intros n; case_decide; [done|by rewrite mget_mset_ne]|]. split; [rewrite mget_mset_eq; eauto|].
  split; [by rewrite mget_mset_eq, Hr|]. intros n Hpn Hne. rewrite mget_mset_ne; [done|]. intros E. by apply join_plain_inj in E.
Qed.
Lemma mget_key {V} k (v : V) (m : jmap string V) : mget k m = Some v → k ∈ m.*1.
Proof. intros Hg. destruct (decide (k ∈ m.*1)) as [|Hn]; [done|]. by rewrite (proj2 (mget_None_keys k m) Hn) in Hg. Qed.

(** The compressed assets of the package. *)
Definition COMPRESSED : list string := (λ name, name +:+ ".gz") <$> ENCODED.
Definition MANIFEST : string := "guest-manifest.json".

Lemma compressed_plain : Forall plain_name (MANIFEST :: ENCODED ++ COMPRESSED).
Proof. apply (bool_decide_unpack _). vm_compute. done. Qed.

Lemma compressed_url : Forall (λ p, url_name p.2) (zip ENCODED COMPRESSED).
Proof. apply (bool_decide_unpack _). vm_compute. done. Qed.

Lemma encoded_names : Forall (λ p, plain_name p.1 ∧ plain_name p.2 ∧ (p.1 ∉ COMPRESSED) ∧ (p.2 ∈ COMPRESSED) ∧ (p.2 ∉ ENCODED) ∧
  p.1 ≠ MANIFEST ∧ p.2 ≠ MANIFEST) (zip ENCODED COMPRESSED).
Proof. apply (bool_decide_unpack _). vm_compute. done. Qed.

Lemma encodes_packed destination m f m' f' : directory destination → packed destination (am_assets (loaded m)) f →
  encode_assets gzip digest destination ENCODED m f = (Ok m', f') → gd_delivery m = [] →
  packed destination (am_assets (loaded m')) f' ∧ gd_delivery m' = zip ENCODED COMPRESSED ∧
  (∀ n, n ∉ COMPRESSED → mget n (am_assets (loaded m')) = mget n (am_assets (loaded m))) ∧
  (∀ n, n ∈ COMPRESSED → is_Some (mget n (am_assets (loaded m')))) ∧
  (∀ n gz, (n, gz) ∈ zip ENCODED COMPRESSED → mget (join_name destination gz) f' = gzip <$> mget (join_name destination n) f) ∧
  (∀ n, plain_name n → n ∉ COMPRESSED → mget (join_name destination n) f' = mget (join_name destination n) f).
Proof.
  pose proof compressed_plain as Hpl. unfold MANIFEST, COMPRESSED, ENCODED in *. cbn [fmap list_fmap app] in *.
  rewrite !Forall_cons in Hpl. destruct Hpl as (_ & Ha & Hb & Hga & Hgb & _).
  intros Hd Hp H Hm. cbn [encode_assets] in H. apply bind_Ok in H as (m1 & f1 & H1 & (m2 & f2 & H2 & [= <- <-])%bind_Ok).
  apply encode_packed in H1 as (Hp1 & Hd1 & Ho1 & Hs1 & Hz1 & Hf1); [|done..].
  apply encode_packed in H2 as (Hp2 & Hd2 & Ho2 & Hs2 & Hz2 & Hf2); [|done..].
  split; [done|]. split; [by rewrite Hd2, Hd1, Hm|]. split; [|split; [|split]].
  - intros n Hn. rewrite !not_elem_of_cons in Hn. destruct Hn as (Hna & Hnb & _).
    rewrite Ho2, decide_False by done. by rewrite Ho1, decide_False.
  - intros n. rewrite !elem_of_cons, elem_of_nil. intros [->|[->|[]]]; [|done].
    by rewrite Ho2, decide_False.
  - intros n gz. cbn. rewrite !elem_of_cons, elem_of_nil. intros [[= -> ->]|[[= -> ->]|[]]].
    + by rewrite Hf2.
    + by rewrite Hz2, Hf1.
  - intros n Hn Hg. rewrite !not_elem_of_cons in Hg. destruct Hg as (Hna & Hnb & _). by rewrite Hf2, Hf1.
Qed.
Lemma copied_packed source destination m f f1 u : directory destination → Forall plain_name (default [] (gd_assets m)).*1 →
  apart source destination (default [] (gd_assets m)).*1 → Forall (accepted source f) (default [] (gd_assets m)) →
  copy_assets source destination (default [] (gd_assets m)) f = (Ok u, f1) →
  packed destination (am_assets (loaded m)) f1 ∧
  (∀ name, name ∈ (default [] (gd_assets m)).*1 → mget (join_name destination name) f1 = mget (join_name source name) f).
Proof.
  intros Hd Hpl Hap Hacc Hc. eapply copies_Ok in Hc as [_ Hc]; [|done..].
  assert (∀ name, name ∈ (default [] (gd_assets m)).*1 → mget (join_name destination name) f1 = mget (join_name source name) f) as Hcp.
  { intros name Hin. by rewrite Hc, decide_True. }
  split; [|done]. intros name r. rewrite loaded_get. destruct (mget name _) as [ro|] eqn:Hg; [|done]. cbn. intros [= <-].
  pose proof (mget_key _ _ _ Hg) as Hin. apply mget_elem in Hg. rewrite Forall_forall in Hpl. rewrite Forall_forall in Hacc.
  split; [by apply Hpl|]. destruct (Hacc _ Hg) as (r & bytes & Er & Hs & Hds & _). cbn in *. subst ro. exists bytes. by rewrite Hcp.
Qed.

(** The guest of a package, against the guest it was copied from. *)
Lemma copyGuest_Ok JSON_guest JSON_guest_text notices dev repo source destination f m f' text m0 : directory destination →
  mget (join_name source MANIFEST) f = Some text → JSON_guest text = Ok m0 → gd_delivery m0 = [] →
  Forall plain_name (default [] (gd_assets m0)).*1 → MANIFEST ∉ (default [] (gd_assets m0)).*1 →
  apart source destination (default [] (gd_assets m0)).*1 →
  copyGuest JSON_guest JSON_guest_text gzip digest notices dev repo source destination f = (Ok m, f') →
  packed destination (am_assets (loaded m)) f' ∧ gd_delivery m = zip ENCODED COMPRESSED ∧
  Forall (accepted source f) (default [] (gd_assets m0)) ∧ (∀ n, n ∈ COMPRESSED → is_Some (mget n (am_assets (loaded m)))) ∧
  (∀ n gz, (n, gz) ∈ zip ENCODED COMPRESSED → mget (join_name destination gz) f' = gzip <$> mget (join_name destination n) f') ∧
  (∀ n, n ∈ (default [] (gd_assets m0)).*1 → n ∉ COMPRESSED →
     mget n (am_assets (loaded m)) = mget n (am_assets (loaded m0)) ∧ mget (join_name destination n) f' = mget (join_name source n) f).
Proof.
  intros Hd Ht HJ Hm0 Hpl Hman Hap. unfold copyGuest. intros (m1 & f1 & (-> & (t & Ht' & HJ') & Hacc & _)%verifyGuest_Ok & H)%bind_Ok.
  unfold MANIFEST in Ht. rewrite Ht in Ht'. injection Ht' as <-. rewrite HJ in HJ'. injection HJ' as <-.
  apply bind_Ok in H as ([] & f1 & Hc & (m2 & f2 & He & ([] & f3 & [= <-] & [= -> <-])%bind_Ok)%bind_Ok).
  apply copied_packed in Hc as [Hp Hcp]; [|done..].
  apply encodes_packed in He as (Hp2 & Hdl & Ho & Hs & Hz & Hf); [|done..].
  pose proof compressed_plain as [Hmp Hcpl]%Forall_cons. rewrite Forall_forall in Hpl.
  assert (∀ n, plain_name n → n ≠ MANIFEST → mget (join_name destination n) (mset (join_name destination MANIFEST) (JSON_guest_text m) f2) =
    mget (join_name destination n) f2) as Hw.
  { intros n Hn Hne. rewrite mget_mset_ne; [done|]. intros E. apply Hne. symmetry. by apply join_plain_inj in E. }
  assert (∀ n, n ∈ (default [] (gd_assets m0)).*1 → n ≠ MANIFEST) as Hnm by (by intros n Hn ->).
  split; [|split; [done|split; [done|split; [done|split]]]].
  - apply packed_write; [|done]. intros n [r Hn] E. destruct (Hp2 _ _ Hn) as [Hpn _]. apply join_plain_inj in E; [|done..]. subst n.
    rewrite Ho in Hn by (apply (bool_decide_unpack _); vm_compute; done). rewrite loaded_get in Hn.
    destruct (mget _ (default [] (gd_assets m0))) eqn:Hg; [|done]. by apply mget_key in Hg.
  - intros n gz Hin. pose proof (proj1 (Forall_forall _ _) encoded_names _ Hin) as (Hpn & Hpg & Hnc & _ & _ & Hn & Hg). cbn in *.
    rewrite !Hw by done. by rewrite (Hf n), (Hz n gz).
  - intros n Hn Hnc. split; [by apply Ho|]. unfold MANIFEST in *. rewrite Hw by auto. by rewrite Hf, Hcp by auto.
Qed.
End Spec.

(** ** A package *)

Lemma sized_check dir m f :
  forallb (λ p, match mget (join_name dir p.1) f with Some bytes => (0 <? zlen bytes) && (zlen bytes <=? MAX_ASSET_BYTES) | None => true end)
    (am_assets m) = true → sized dir m f.
Proof.
  rewrite forallb_forall. intros H name bytes [r Hr%mget_elem] Hf. apply list_elem_of_In in Hr. pose proof (H _ Hr) as Hb. cbn [fst] in Hb.
  rewrite Hf in Hb. lia.
Qed.

Lemma apart_check source destination names :
  Forall (λ name, Forall (λ name', join_name source name ≠ join_name destination name') names) names → apart source destination names.
Proof.
  rewrite Forall_forall. intros H name name' Hn Hn'. pose proof (H _ Hn) as Hl. rewrite Forall_forall in Hl. by apply Hl.
Qed.

Module Example_guest.
Definition key : string := bytes_text (hex (replicate 32 x00)).
Definition rec (n : Z) : option asset_record := Some (AssetRecord (VStr key) (VNum (NInt n))).
Definition snap (mib : Z) : option snapshot := Some (Snapshot (VStr key) (VNum (NInt 1)) (VNum (NInt mib)) (VNum (NInt 9)) "assets/snapshot").
Definition manifest : guest_dist := GuestDist false (VNum (NInt 1)) (VNum (NInt 1)) (VStr "i386-linux-musl") (VStr key)
  (Some [("assets/v86.wasm", rec 2); ("assets/v86-fallback.wasm", rec 1); ("assets/snapshot", rec 3); ("matching-source.tar.gz", rec 1)])
  (snap 64) (snap 128) (VNum (NInt 64)) (VNum (NInt 128)) ((λ file, (file, VStr key)) <$> VERIFIED_INPUTS) [].
Definition files : fs :=
  (prod_map text_bytes id <$> [("/guest/guest-manifest.json", [x7b]); ("/guest/assets/v86.wasm", [x01; x02]); ("/guest/assets/v86-fallback.wasm", [x03]);
    ("/guest/assets/snapshot", [x04; x05; x06]); ("/guest/matching-source.tar.gz", [x07])]) ++
  ((λ file, (join_name (text_bytes "/repo") file, [x00])) <$> VERIFIED_INPUTS).
Definition JSON_guest (_ : list byte) : res guest_dist := Ok manifest.
Definition JSON_text (_ : guest_dist) : list byte := [x7b].
Definition digest (_ : list byte) : list byte := replicate 32 x00.
Definition gzip (bytes : list byte) : list byte := x1f :: bytes.
Definition gunzip (bytes : list byte) : stream := Stream [tail bytes] None.
(** A server of one origin that leads every other name elsewhere. *)
Definition resolve (name : string) : option string := if decide (url_name name) then Some name else None.
Lemma resolve_url name : url_name name → resolve name = Some name.
Proof. intros H. unfold resolve. by rewrite decide_True. Qed.
Definition run : res guest_dist * fs :=
  copyGuest JSON_guest JSON_text gzip digest [] false (text_bytes "/repo") (text_bytes "/guest") (text_bytes "/out") files.
Definition out : guest_dist := match run.1 with Ok m => m | Throw _ => manifest end.
End Example_guest.

