(* ===== verification/PackagingAppSpec.v ===== *)
(** An application's package is as its manifest says: the manifest [packageWithService] writes records every
    file it names, and each recorded file is in the package with that length and digest. *)

From S2P Require Import Prelude Wire NodePath WorkerPool EffectCodec AppLimits Native Assets Packaging PackagingSpec.

(** ** Names of the package *)

Lemma text_bytes_app s s' : text_bytes (s +:+ s') = text_bytes s ++ text_bytes s'.
Proof. induction s as [|c s IH]; [done|]. change (String c s +:+ s') with (String c (s +:+ s')).
  change (text_bytes (String c (s +:+ s'))) with (Ascii.byte_of_ascii c :: text_bytes (s +:+ s')). by rewrite IH. Qed.

Lemma plain_proper name : proper (text_bytes name) → plain_name name.
Proof. intros Hp. unfold plain_name. rewrite split_on_whole; [by constructor|]. by destruct Hp as (_ & _ & _ & ?). Qed.

Lemma plain_join a b : plain_name a → plain_name b → plain_name (a +:+ "/" +:+ b).
Proof. intros Ha Hb. unfold plain_name. rewrite !text_bytes_app. change (text_bytes "/") with [SLASH]. cbn [app]. rewrite split_on_app. by apply Forall_app. Qed.

(** A longer name without a slash names an entry of a directory. *)
Lemma proper_long l : (2 < length l)%nat → SLASH ∉ l → proper l.
Proof. intros Hl Hs. repeat split; [intros ->; cbn in Hl; lia..|done]. Qed.

Lemma hex_no_slash l : forallb is_hex_char l = true → SLASH ∉ l.
Proof. rewrite forallb_forall. intros H Hin. apply list_elem_of_In, H in Hin. done. Qed.

Lemma digest_plain v : is_digest v = true → ∃ s, v = VStr s ∧ plain_name s.
Proof.
  destruct v as [| | | |s|]; try done. cbn. rewrite andb_true_iff. intros [Hl%Z.eqb_eq Hh]. exists s. split; [done|].
  apply plain_proper, proper_long; [unfold zlen in Hl; change (String.list_byte_of_string s) with (text_bytes s) in Hl; lia|by apply hex_no_slash].
Qed.

Section App.
Context (digest : list byte → list byte).
Hypothesis digest_length : ∀ bytes, zlen (digest bytes) = 32.

Lemma slice16_plain bytes : ∃ h, slice16 (hexdigest digest bytes) = bytes_text h ∧ length h = 16%nat ∧ SLASH ∉ h.
Proof.
  pose proof (hex_is_digest (digest bytes) (digest_length bytes)) as [Hx _].
  unfold slice16, hexdigest, sha256. eexists. split; [reflexivity|]. cbn in Hx. rewrite andb_true_iff in Hx. destruct Hx as [Hl%Z.eqb_eq Hh%hex_no_slash].
  change (String.list_byte_of_string (bytes_text (hex (digest bytes)))) with (text_bytes (bytes_text (hex (digest bytes)))) in Hl, Hh.
  unfold zlen in Hl. split; [rewrite length_take; lia|]. intros Hin. apply Hh. rewrite text_bytes_text in *.
  rewrite <- (take_drop 16 (hex (digest bytes))). apply elem_of_app. by left.
Qed.
(** ** Files and records together *)

(** Files the package has and the manifest does not record. *)
Definition UNRECORDED : list string := "nupp-browser-app.json" :: PAGE_FILES.*2.

Record recorded (output : list byte) (p : pack) : Prop := Recorded {
  rc_packed : packed digest output (pa_assets p) (pa_fs p);
  rc_free : ∀ name, name ∈ UNRECORDED → mget name (pa_assets p) = None
}.

(** A step that stays [recorded] and forgets no record. *)
Definition extends (output : list byte) (p p' : pack) : Prop :=
  recorded output p' ∧ ∀ name, is_Some (mget name (pa_assets p)) → is_Some (mget name (pa_assets p')).

Lemma extends_refl output p : recorded output p → extends output p p.
Proof. by split. Qed.
Lemma extends_trans output p1 p2 p3 : extends output p1 p2 → extends output p2 p3 → extends output p1 p3.
Proof. intros [_ H1] [H2 H3]. split; auto. Qed.

Lemma on_fs_Ok {A} (m : js fs A) p a p' : on_fs m p = (Ok a, p') → ∃ f, m (pa_fs p) = (Ok a, f) ∧ p' = Pack f (pa_assets p).
Proof. unfold on_fs, zoom. destruct (m (pa_fs p)) as [r f]. intros [= -> <-]. by exists f. Qed.

Lemma record_Ok output name p u p' : record_asset digest output name p = (Ok u, p') → ∃ bytes,
  mget (join_name output name) (pa_fs p) = Some bytes ∧ p' = Pack (pa_fs p) (mset name (record_of digest bytes) (pa_assets p)).
Proof.
  unfold record_asset. intros (bytes & p1 & (f & [-> Hr]%read_Ok & ->)%on_fs_Ok & [= _ <-])%bind_Ok. by exists bytes.
Qed.

(** A plain name whose file is written, or was, and that is then recorded. *)
Lemma store_record output name p f bytes u p' : directory output → plain_name name → name ∉ UNRECORDED → recorded output p →
  mget (join_name output name) f = Some bytes → (∀ file, file ≠ join_name output name → mget file f = mget file (pa_fs p)) →
  record_asset digest output name (Pack f (pa_assets p)) = (Ok u, p') → extends output p p' ∧ is_Some (mget name (pa_assets p')).
Proof.
  intros Hd Hn Hu [Hp Hfree] Hf Ho (b & Hb & ->)%record_Ok. cbn in Hb. rewrite Hf in Hb. injection Hb as <-. cbn.
  split; [|rewrite mget_mset_eq; eauto]. split; [|intros n; apply is_Some_mget_mset]. constructor; cbn.
  - intros n r [[-> ->]|[Hne Hg]]%mget_mset_Some; [by split; [|exists bytes]|].
    destruct (Hp _ _ Hg) as [Hpn (b & Hb & Hds)]. split; [done|]. exists b. split; [|done]. rewrite Ho; [done|].
    intros E. by apply join_plain_inj in E.
  - intros n Hin. rewrite mget_mset_ne; [by apply Hfree|]. by intros ->.
Qed.

Lemma write_record output name bytes p u p' : directory output → plain_name name → name ∉ UNRECORDED → recorded output p →
  record_asset digest output name (Pack (mset (join_name output name) bytes (pa_fs p)) (pa_assets p)) = (Ok u, p') →
  extends output p p' ∧ is_Some (mget name (pa_assets p')).
Proof.
  intros Hd Hn Hu Hr. apply (store_record output name p _ bytes); try done; [apply mget_mset_eq|].
  intros file Hne. by rewrite mget_mset_ne by done.
Qed.

(** ** Libraries, kernels and bundles *)

Lemma library_plain source bytes : validateNativeLibrary (path_basename source) bytes = Ok tt →
  plain_name ("native/" +:+ slice16 (hexdigest digest bytes) +:+ "/" +:+ bytes_text (path_basename source)).
Proof.
  intros [Hname _]%validate_Ok. destruct (slice16_plain bytes) as (h & -> & Hh & Hs).
  apply (plain_join "native"); [apply (bool_decide_unpack _); vm_compute; done|]. apply plain_join; apply plain_proper; rewrite text_bytes_text; apply proper_long; try done.
  - lia.
  - unfold library_name in Hname. rewrite !andb_true_iff in Hname. destruct Hname as [[Hl%Z.leb_le _] _]. unfold zlen in Hl. lia.
  - apply library_name_chars in Hname. rewrite forallb_forall in Hname. intros Hin. by apply list_elem_of_In, Hname in Hin.
Qed.

Lemma free_slash name : SLASH ∈ text_bytes name → name ∉ UNRECORDED.
Proof.
  intros Hs. unfold UNRECORDED, PAGE_FILES. cbn. rewrite !not_elem_of_cons. repeat split; try (intros ->; revert Hs; apply (bool_decide_unpack _); vm_compute; done).
  apply not_elem_of_nil.
Qed.
Lemma slash_within a b : SLASH ∈ text_bytes a → SLASH ∈ text_bytes (a +:+ b).
Proof. rewrite text_bytes_app. intros H. apply elem_of_app. by left. Qed.

(** A file is written and recorded, and what follows extends the package. *)
Lemma copied_record output name from p u p1 u' p' : directory output → plain_name name → name ∉ UNRECORDED → recorded output p →
  on_fs (copyFileSync from (join_name output name)) p = (Ok u, p1) → record_asset digest output name p1 = (Ok u', p') →
  extends output p p' ∧ is_Some (mget name (pa_assets p')).
Proof. intros Hd Hn Hu Hr (f & (bytes & _ & ->)%copy_Ok & ->)%on_fs_Ok. by apply write_record. Qed.

Lemma pack_libraries_Ok project output dir written total p native p' : directory output → recorded output p →
  pack_libraries digest project output dir written total p = (Ok native, p') →
  extends output p p' ∧ Forall (λ entry, is_Some (mget entry.1 (pa_assets p'))) native.
Proof.
  intros Hd. revert total p native. induction written as [|artifact written IH]; intros total p native Hr; cbn [pack_libraries].
  { intros [= <- <-]. split; [by apply extends_refl|done]. }
  destruct (negb _ || negb _); [by apply IH|].
  intros (bytes & p1 & (f & [-> _]%read_Ok & ->)%on_fs_Ok & H)%bind_Ok. apply bind_Ok in H as ([] & p1 & [= Hv <-] & H).
  apply bind_Ok in H as ([] & p1 & [_ ->]%guard_Ok & H). apply bind_Ok in H as (u1 & p1 & Hc & (u2 & p2 & Hrec & H)%bind_Ok).
  apply bind_Ok in H as (rest & p3 & Hrest & [= <- <-]).
  eapply copied_record in Hrec as [He Hin]; [|done|by apply library_plain|by apply free_slash, slash_within, (bool_decide_unpack _)|by destruct p|done].
  destruct He as [Hr2 Hk]. apply IH in Hrest as [[Hr3 Hk3] Hrest]; [|done]. cbn in Hk.
  split; [split; [done|by intros n Hn%Hk%Hk3]|]. constructor; [by apply Hk3|done].
Qed.
Context {U : Type}.

(** The name of a kernel is plain when its unit's is. *)
Lemma plain_unit wasm : plain_name ("aot/" +:+ wasm) → plain_name wasm.
Proof.
  unfold plain_name. rewrite text_bytes_app. change (text_bytes "aot/") with (text_bytes "aot" ++ [SLASH]). rewrite <- app_assoc.
  change ([SLASH] ++ text_bytes wasm) with (SLASH :: text_bytes wasm). rewrite split_on_app. by intros [_ ?]%Forall_app.
Qed.

Lemma unit_file_Some (u : @wasm_unit U) wasm : unit_file u = Some wasm → un_wasm u = Some wasm.
Proof. unfold unit_file. destruct (un_wasm u), (un_bridge u); [|done..]. destruct (_ || _); [done|]. done. Qed.

Lemma pack_units_Ok manifestDir output (units : list (@wasm_unit U)) p kernels p' : directory output → recorded output p →
  pack_units digest manifestDir output units p = (Ok kernels, p') → Forall plain_name kernels.*1 →
  extends output p p' ∧ Forall (λ entry, is_Some (mget entry.1 (pa_assets p'))) kernels.
Proof.
  intros Hd. revert p kernels. induction units as [|u units IH]; intros p kernels Hr; cbn [pack_units].
  { intros [= <- <-] _. split; [by apply extends_refl|done]. }
  destruct (unit_file u) as [wasm|] eqn:Ew; [|done].
  intros (u1 & p1 & Hc & (u2 & p2 & Hrec & (rest & p3 & Hrest & [= <- <-])%bind_Ok)%bind_Ok)%bind_Ok [Hw Hws]%Forall_cons.
  apply plain_unit in Hw. eapply copied_record in Hrec as [He Hin];
    [|done|apply (plain_join "aot"); [apply (bool_decide_unpack _); vm_compute; done|done]|by apply free_slash, (slash_within "aot/"), (bool_decide_unpack _)|done|done].
  destruct He as [Hr2 Hk]. apply IH in Hrest as [[Hr3 Hk3] Hrest]; [|done..].
  split; [split; [done|by intros n Hn%Hk%Hk3]|]. constructor; [by apply Hk3|done].
Qed.

Lemma pack_kernels_Ok JSON_aot print_value project output aot p kernels p' : directory output →
  recorded output p →
  pack_kernels (U := U) digest JSON_aot print_value project output aot p = (Ok kernels, p') → Forall plain_name kernels.*1 →
  extends output p p' ∧ Forall (λ entry, is_Some (mget entry.1 (pa_assets p'))) kernels.
Proof.
  intros Hd Hr. unfold pack_kernels. destruct aot as [file|]; [|intros [= <- <-] _; split; [by apply extends_refl|done]].
  intros (text & p1 & (f & [-> _]%read_Ok & ->)%on_fs_Ok & H)%bind_Ok. apply bind_Ok in H as (built & p1 & [= HJ <-] & H).
  apply bind_Ok in H as ([] & p1 & [_ ->]%guard_Ok & H). apply bind_Ok in H as ([] & p1 & [_ ->]%guard_Ok & H).
  destruct p. intros HF. by eapply pack_units_Ok in H.
Qed.

Lemma for_each_extends {A} output (P : A → Prop) (xs : list A) body : Forall P xs →
  (∀ x p u p', P x → recorded output p → body x p = (Ok u, p') → extends output p p') →
  ∀ p u p', recorded output p → for_each xs body p = (Ok u, p') → extends output p p'.
Proof.
  intros HP Hb. induction HP as [|x xs Hx _ IH]; intros p u p' Hr; cbn [for_each].
  - intros [= _ <-]. by apply extends_refl.
  - intros (u1 & p1 & H1 & H2)%bind_Ok. apply Hb in H1; [|done..]. eapply extends_trans; [done|]. eapply IH; [by destruct H1|done].
Qed.

Lemma bundles_Ok bundle output p u p' : directory output → recorded output p →
  for_each BUNDLES (pack_bundle digest bundle output) p = (Ok u, p') →
  extends output p p' ∧ is_Some (mget "worker-lane.mjs" (pa_assets p')).
Proof.
  intros Hd Hr Hrun. split; [revert Hr Hrun|].
  { apply (for_each_extends _ (λ name, plain_name (name +:+ ".mjs") ∧ name +:+ ".mjs" ∉ UNRECORDED)).
  - apply (bool_decide_unpack _). vm_compute. done.
  - intros name p1 [] p2 [Hn Hu] Hr. unfold pack_bundle.
    intros (bytes & p3 & [= _ <-] & (u2 & p4 & (f & [= _ <-] & ->)%on_fs_Ok & H)%bind_Ok)%bind_Ok. by apply write_record in H as [? _]. }
  assert (∀ name q u q', pack_bundle digest bundle output name q = (Ok u, q') →
    ∃ r, pa_assets q' = mset (name +:+ ".mjs") r (pa_assets q)) as Hone.
  { intros name q v q' (bytes & q1 & [= _ <-] & (u2 & q2 & (f & [= _ <-] & ->)%on_fs_Ok & (b & _ & ->)%record_Ok)%bind_Ok)%bind_Ok. by eexists. }
  unfold BUNDLES in Hrun. cbn [for_each] in Hrun.
  apply bind_Ok in Hrun as (u1 & p1 & _ & (u2 & p2 & (r2 & E2)%Hone & (u3 & p3 & (r3 & E3)%Hone & [= _ <-])%bind_Ok)%bind_Ok).
  rewrite E3. apply is_Some_mget_mset. rewrite E2. change ("worker-lane" +:+ ".mjs") with "worker-lane.mjs". rewrite mget_mset_eq. by eexists.
Qed.

(** Files the manifest does not name may be written at the end. *)
Lemma unrecorded_write output name bytes p : directory output → plain_name name → name ∈ UNRECORDED → recorded output p →
  recorded output (Pack (mset (join_name output name) bytes (pa_fs p)) (pa_assets p)).
Proof.
  intros Hd Hn Hu [Hp Hf]. constructor; [|done]. cbn. apply packed_write; [|done]. intros n [r Hg] E.
  destruct (Hp _ _ Hg) as [Hpn _]. apply join_plain_inj in E; [|done..]. subst n. by rewrite Hf in Hg.
Qed.

Lemma pages_Ok repo output p u p' : directory output → recorded output p →
  for_each PAGE_FILES (λ q, on_fs (copyFileSync (join_name repo q.1) (join_name output q.2))) p = (Ok u, p') → extends output p p'.
Proof.
  intros Hd. apply (for_each_extends _ (λ q, plain_name q.2 ∧ q.2 ∈ UNRECORDED)).
  - apply (bool_decide_unpack _). vm_compute. done.
  - intros q p1 [] p2 [Hn Hu] Hr (f & (bytes & _ & ->)%copy_Ok & ->)%on_fs_Ok. split; [by apply unrecorded_write|done].
Qed.
(** ** The application *)

Lemma app_plain bytes : let name := "app-" +:+ slice16 (hexdigest digest bytes) +:+ ".lua" in plain_name name ∧ name ∉ UNRECORDED.
Proof.
  destruct (slice16_plain bytes) as (h & -> & Hh & Hs). cbn zeta. set (name := "app-" +:+ bytes_text h +:+ ".lua").
  assert (text_bytes name = text_bytes "app-" ++ h ++ text_bytes ".lua") as E by (unfold name; by rewrite !text_bytes_app, text_bytes_text).
  split.
  - apply plain_proper. rewrite E. apply proper_long; [rewrite length_app; cbn; lia|]. rewrite !elem_of_app. intros [H|[H|H]]; [|done|];
      revert H; apply (bool_decide_unpack _); vm_compute; done.
  - assert (Forall (λ n, take 4 (text_bytes n) ≠ text_bytes "app-") UNRECORDED) as HF by (apply (bool_decide_unpack _); vm_compute; done).
    rewrite Forall_forall in HF. intros Hin. apply (HF _ Hin). by rewrite E.
Qed.

Lemma guest_plain key : plain_name key → let name := "guest/" +:+ key +:+ "/guest-manifest.json" in plain_name name ∧ name ∉ UNRECORDED.
Proof.
  intros Hk. split; [|by apply free_slash, slash_within, (bool_decide_unpack _)].
  apply (plain_join "guest"); [apply (bool_decide_unpack _); vm_compute; done|]. apply plain_join; [done|]. apply (bool_decide_unpack _). vm_compute. done.
Qed.

Context (JSON_guest : list byte → res guest_dist) (JSON_guest_text : guest_dist → list byte) (gzip : list byte → list byte) (notices : list string) (dev : bool).

(** A guest that is copied has the key the manifest gives. *)
Lemma copied_key repo source destination f m f' text m0 : mget (join_name source "guest-manifest.json") f = Some text → JSON_guest text = Ok m0 →
  copyGuest JSON_guest JSON_guest_text gzip digest notices dev repo source destination f = (Ok m, f') → ∃ key, gd_buildKey m0 = VStr key ∧ plain_name key.
Proof.
  intros Ht HJ. unfold copyGuest. intros (m1 & f1 & (-> & (t & Ht' & HJ') & _ & Hk)%verifyGuest_Ok & _)%bind_Ok.
  rewrite Ht in Ht'. injection Ht' as <-. rewrite HJ in HJ'. injection HJ' as <-. by apply digest_plain.
Qed.

(** C25 The package of an application is as its manifest says.  When [packageWithService] succeeds into a directory given by its
    absolute path, and the names of the kernels in the manifest are plain (no empty part, no [.]; the code also accepts a unit
    named [./k.wasm], which is outside this statement), then [nupp-browser-app.json] holds the text of the manifest it returns; every
    record of that manifest gives the length and the SHA-256 of the file the package has under that name, whatever was written
    after it was recorded; and the application, the guest, every kernel, every native library and, where the application has
    workers, the program of their lanes is recorded.  The hash function gives 32 bytes. *)
Theorem package_as_recorded JSON_aot JSON_package_text bundle print_value repo project output guest result f manifest p' :
  directory output →
  packageWithService (U := U) JSON_guest JSON_guest_text gzip digest notices dev JSON_aot JSON_package_text bundle print_value
    repo project output guest result (Pack f []) = (Ok manifest, p') →
  Forall plain_name (pk_kernels manifest).*1 →
  mget (join_name output "nupp-browser-app.json") (pa_fs p') = Some (JSON_package_text manifest) ∧
  packed digest output (pk_assets manifest) (pa_fs p') ∧
  (∀ name, name ∈ pk_app manifest :: pk_guest manifest :: (pk_kernels manifest).*1 ++ (pk_native manifest).*1 →
    is_Some (mget name (pk_assets manifest))) ∧
  (pk_workers manifest = true → is_Some (mget "worker-lane.mjs" (pk_assets manifest))).
Proof.
  intros Hd. unfold packageWithService. destruct (br_artifact result) as [artifact|]; [|done].
  intros ([] & p1 & [_ ->]%guard_Ok & H)%bind_Ok. apply bind_Ok in H as (text & p1 & (f1 & [-> Ht]%read_Ok & ->)%on_fs_Ok & H).
  apply bind_Ok in H as (m0 & p1 & [= HJ <-] & H).
  apply bind_Ok in H as (m & p1 & (f1 & Hc & ->)%on_fs_Ok & H). cbn [pa_fs pa_assets] in *.
  eapply copied_key in Hc as (key & Ek & Hkey); [|done..]. rewrite Ek in H. cbn [key_text] in H.
  destruct (guest_plain key Hkey) as [Hgp Hgu]. set (guestName := "guest/" +:+ key +:+ "/guest-manifest.json") in *.
  assert (recorded output (Pack f1 [])) as Hr0 by done.
  apply bind_Ok in H as (u1 & p1 & Hg & H). pose proof Hg as (gb & Hgb & _)%record_Ok.
  eapply (store_record output guestName (Pack f1 [])) in Hg as [[Hr1 _] Hgs]; [|done..].
  apply bind_Ok in H as (bytes & p2 & (f2 & [-> _]%read_Ok & ->)%on_fs_Ok & H). destruct (app_plain bytes) as [Hap Hau].
  set (app := "app-" +:+ _) in *.
  apply bind_Ok in H as (u2 & p2 & (f2 & [= _ <-] & ->)%on_fs_Ok & (u3 & p3 & Ha & H)%bind_Ok).
  cbn [pa_assets pa_fs] in Ha. apply write_record in Ha as [[Hr2 Hk2] Has]; [|done..|by destruct p1]. cbn [pa_assets] in Hk2.
  apply bind_Ok in H as (native & p4 & [[Hr4 Hk4] Hnat]%pack_libraries_Ok & H); [|done..].
  apply bind_Ok in H as (kernels & p5 & Hkern & H). apply bind_Ok in H as (u6 & p6 & Hbun & H).
  apply bind_Ok in H as (u7 & p7 & Hpages & H).
  apply bind_Ok in H as (assets & p8 & [= <- <-] & (u9 & p9 & (f9 & [= _ <-] & ->)%on_fs_Ok & [= <- <-])%bind_Ok).
  cbn [pk_assets pk_app pk_guest pk_kernels pk_native pk_workers pa_fs]. intros Hplain.
  apply pack_kernels_Ok in Hkern as [[Hr5 Hk5] Hker]; [|done..]. apply bundles_Ok in Hbun as [[Hr6 Hk6] Hlane]; [|done..].
  apply pages_Ok in Hpages as [Hr7 Hk7]; [|done..]. split; [by rewrite mget_mset_eq|].
  split; [apply (unrecorded_write output "nupp-browser-app.json"); [done|apply (bool_decide_unpack _); vm_compute; done|left|done]|].
  split; [|by auto]. intros name. rewrite !elem_of_cons, elem_of_app, !list_elem_of_fmap. rewrite Forall_forall in Hnat. rewrite Forall_forall in Hker.
  intros [->|[->|[(e & -> & Hin%Hker)|(e & -> & Hin%Hnat)]]]; auto 9.
Qed.
End App.

(** ** A package *)

Module Example_app.
Definition elf : list byte := [x7f; x45; x4c; x46; x01; x01] ++ replicate 10 x00 ++ [x03; x00; x03; x00] ++ replicate 32 x00.
Definition files : fs := Example_guest.files ++
  (prod_map text_bytes id <$> [("/app/dist/app.lua", [x61]); ("/app/dist/lib/m.so", elf); ("/app/dist/aot/units.json", [x7b]); ("/app/dist/aot/k.wasm", [x00; x61]);
    ("/repo/runtime/wasm/browser-entry.mjs", [x62]); ("/repo/runtime/wasm/audio.mjs", [x63]); ("/repo/runtime/wasm/audio-worklet.mjs", [x64])]).
Definition JSON_aot (_ : list byte) : res (@aot_manifest ()) :=
  Ok (AotManifest (VNum (NInt 3)) (VStr "wasm32-unknown-emscripten") [WasmUnit (Some "k.wasm") (Some (VNum (NInt 1))) tt]).
Definition result : build_result := BuildResult true (Some "dist/app.lua") ["dist/lib/m.so"; "dist/nupp/workers.lua"] (Some "dist/aot/units.json").
Definition run := packageWithService Example_guest.JSON_guest Example_guest.JSON_text Example_guest.gzip Example_guest.digest [] false JSON_aot (λ _, [x7b])
  (λ _, Ok [x65]) (λ _, "") (text_bytes "/repo") (text_bytes "/app") (text_bytes "/out") (text_bytes "/guest") result (Pack files []).
Definition manifest : app_package := match run.1 with Ok m => m | Throw _ => AppPackage "" "" "" [] [] [] false (LObject []) end.
End Example_app.

Lemma package_as_recorded_witness :
  packed Example_guest.digest (text_bytes "/out") (pk_assets Example_app.manifest) (pa_fs Example_app.run.2) ∧
  length (pk_assets Example_app.manifest) = 7%nat ∧ is_Some (mget "aot/k.wasm" (pk_assets Example_app.manifest)).
Proof.
  destruct (package_as_recorded Example_guest.digest (λ _, eq_refl) Example_guest.JSON_guest Example_guest.JSON_text Example_guest.gzip [] false
    Example_app.JSON_aot (λ _, [x7b]) (λ _, Ok [x65]) (λ _, "") (text_bytes "/repo") (text_bytes "/app") (text_bytes "/out") (text_bytes "/guest")
    Example_app.result Example_app.files Example_app.manifest Example_app.run.2) as (_ & Hp & Hn & _).
  - exists [text_bytes "out"]. split; [done|]. split; [apply (bool_decide_unpack _); vm_compute; done|done].
  - vm_compute. done.
  - apply (bool_decide_unpack _). vm_compute. done.
  - split; [exact Hp|]. split; [vm_compute; done|]. apply Hn, (bool_decide_unpack _). vm_compute. done.
Defined.
