(* ===== verification/ExtensionSettings.v ===== *)
(** How the editor's extension launches a language server: [expandSetting], [serverLaunch] and
    [registerCommands] of [src/editors/vscode/extension.js].

    Texts are lists of bytes.  A replacement text of [replaceAll] is itself a template, as the language
    has it: [$$], [$&], [$`] and [$'] stand for a dollar, the match, what is before it and what is after. *)

From S2P Require Import Prelude Wire NodePath TestReports.

Definition DOLLAR : byte := x24.

(** ** Templates *)

(** [GetSubstitution] for a search text: no captures, so [$1] and [$<] stay as they are. *)
Fixpoint substitution (matched before after template : list byte) : list byte :=
  match template with
  | x24 :: x24 :: t => DOLLAR :: substitution matched before after t
  | x24 :: x26 :: t => matched ++ substitution matched before after t
  | x24 :: x60 :: t => before ++ substitution matched before after t
  | x24 :: x27 :: t => after ++ substitution matched before after t
  | b :: t => b :: substitution matched before after t
  | [] => []
  end.

(** [text.replaceAll(search, template)] for a search text that is not empty: [before] is the text already
    passed, [skip] counts the bytes of a match still to pass. *)
Fixpoint replace_from (search template : list byte) (skip : nat) (before text : list byte) : list byte :=
  match text with
  | [] => []
  | b :: text' =>
      match skip with
      | S k => replace_from search template k (before ++ [b]) text'
      | O =>
          if startsWith search text
          then substitution search before (drop (length search) text) template ++ replace_from search template (length search - 1) (before ++ [b]) text'
          else b :: replace_from search template 0 (before ++ [b]) text'
      end
  end.
Definition replaceAll (search template text : list byte) : list byte := replace_from search template 0 [] text.

(** ** Settings *)

Definition WORKSPACE : list byte := text_bytes "${workspaceFolder}".
Definition ENV : list byte := text_bytes "${env:".
Definition CLOSE : byte := x7d.

(** The text up to the first closing brace, if there is one. *)
Fixpoint before_brace (text : list byte) : option (list byte) :=
  match text with
  | [] => None
  | b :: text' => if bool_decide (b = CLOSE) then Some [] else (b ::.) <$> before_brace text'
  end.

(** [/\$\{env:([^}]+)\}/] at the start of the text: the name. *)
Definition env_match (text : list byte) : option (list byte) :=
  if startsWith ENV text then
    match before_brace (drop (length ENV) text) with
    | Some (b :: name) => Some (b :: name)
    | _ => None
    end
  else None.

Section Settings.
(** [process.env]. *)
Context (environment : jmap (list byte) (list byte)).

Fixpoint expand_env (skip : nat) (text : list byte) : list byte :=
  match text with
  | [] => []
  | b :: text' =>
      match skip with
      | S k => expand_env k text'
      | O =>
          match env_match text with
          | Some name => default [] (mget name environment) ++ expand_env (length ENV + length name) text'
          | None => b :: expand_env 0 text'
          end
      end
  end.

Definition expandSetting (value root : list byte) : list byte := expand_env 0 (replaceAll WORKSPACE root value).

(** The settings; an array of arguments that is not one is [None], an environment that is no object has no entries. *)
Record settings := Settings {
  st_serverPath : list byte;
  st_serverArgs : option (list (list byte));
  st_serverCwd : list byte;
  st_serverEnvironment : jmap (list byte) (list byte)
}.

Record launch := Launch {
  la_command : list byte; la_args : list (list byte); la_cwd : list byte; la_env : jmap (list byte) (list byte)
}.

Definition has_separator (text : list byte) : bool := bool_decide (SLASH ∈ text) || bool_decide (x5c ∈ text).

Definition serverLaunch (existsSync : list byte → bool) (extensionPath root : list byte) (config : settings) : launch :=
  let configuredPath := trim (st_serverPath config) in
  let command :=
    if bool_decide (configuredPath = []) then
      let checkoutCommand := path_resolve extensionPath (text_bytes "../../bin/nupp") in
      if existsSync checkoutCommand then checkoutCommand else text_bytes "nupp"
    else
      let command := expandSetting configuredPath root in
      if negb (isAbsolute command) && has_separator command then path_resolve root command else command in
  let args := (λ arg, expandSetting arg root) <$> default [] (st_serverArgs config) in
  let configuredCwd := expandSetting (st_serverCwd config) root in
  let cwd := if isAbsolute configuredCwd then configuredCwd else path_resolve root configuredCwd in
  let env := foldl (λ env entry, mset entry.1 (expandSetting entry.2 root) env) environment (st_serverEnvironment config) in
  Launch command args cwd env.
End Settings.

(** ** Commands *)

(** [vscode.commands.registerCommand] throws for an identifier that has a command: what is registered,
    what this extension registered, and what clashed. *)
Fixpoint registerCommands (ids : list string) (registry : list string) : list string * list string * list string :=
  match ids with
  | [] => (registry, [], [])
  | id :: ids' =>
      if bool_decide (id ∈ registry)
      then let '(registry', subscriptions, clashed) := registerCommands ids' registry in (registry', subscriptions, id :: clashed)
      else let '(registry', subscriptions, clashed) := registerCommands ids' (registry ++ [id]) in (registry', id :: subscriptions, clashed)
  end.

(** The warning shown for the clashes, if there are any. *)
Definition clash_warning (clashed : list string) : option string :=
  match clashed with
  | [] => None
  | _ => Some ("Another installed extension already provides " +:+ String.concat ", " clashed +:+
      ". Uninstall the other Nupp extension so both are not competing for the same files.")
  end.

(** ** Templates without a dollar *)

Lemma substitution_cons matched before after b t : b ≠ DOLLAR →
  substitution matched before after (b :: t) = b :: substitution matched before after t.
Proof. unfold DOLLAR. destruct b; intros Hb; first [reflexivity|done]. Qed.

Lemma substitution_plain matched before after t : DOLLAR ∉ t → substitution matched before after t = t.
Proof.
  induction t as [|b t IH]; [done|]. rewrite not_elem_of_cons. intros [Hb Ht]. rewrite substitution_cons by done. by rewrite IH.
Qed.

Lemma startsWith_app search rest : startsWith search (search ++ rest) = true.
Proof. apply bool_decide_true. by exists rest. Qed.

Lemma startsWith_head search b text : head search = Some DOLLAR → b ≠ DOLLAR → startsWith search (b :: text) = false.
Proof. destruct search as [|s search]; [done|]. intros [= ->] Hb. apply bool_decide_false. intros [k [= E _]]. done. Qed.

Section Replace.
Context (search template : list byte).
Hypothesis search_dollar : head search = Some DOLLAR.
Hypothesis template_plain : DOLLAR ∉ template.

Lemma replace_text t before rest : DOLLAR ∉ t →
  replace_from search template 0 before (t ++ rest) = t ++ replace_from search template 0 (before ++ t) rest.
Proof.
  revert before. induction t as [|b t IH]; intros before; [by rewrite app_nil_r|]. rewrite not_elem_of_cons. intros [Hb Ht].
  cbn [app replace_from]. rewrite startsWith_head by done. rewrite IH by done. by rewrite <- app_assoc.
Qed.

Lemma replace_skip n t before rest : length t = n →
  replace_from search template n before (t ++ rest) = replace_from search template 0 (before ++ t) rest.
Proof.
  revert t before. induction n as [|n IH]; intros [|b t] before; try done; [by rewrite app_nil_r|]. intros [= Hl].
  cbn [app replace_from]. rewrite IH by done. by rewrite <- app_assoc.
Qed.

Lemma replace_match before rest :
  replace_from search template 0 before (search ++ rest) = template ++ replace_from search template 0 (before ++ search) rest.
Proof.
  assert (∃ s t, search = s :: t) as (s & t & Es) by (destruct search; [done|eauto]).
  assert (search ++ rest = s :: (t ++ rest)) as E by (by rewrite Es). rewrite E. cbn [replace_from]. rewrite <- E.
  rewrite startsWith_app, substitution_plain by done. f_equal.
  assert (length search - 1 = length t)%nat as -> by (rewrite Es; cbn; lia). rewrite replace_skip by done.
  by rewrite <- app_assoc, Es.
Qed.

Lemma replace_no_match b before rest : startsWith search (b :: rest) = false →
  replace_from search template 0 before (b :: rest) = b :: replace_from search template 0 (before ++ [b]) rest.
Proof. cbn [replace_from]. by intros ->. Qed.
End Replace.

(** ** Settings by pieces *)

Inductive piece := PText (text : list byte) | PRoot | PEnv (name : list byte).

Definition piece_text (p : piece) : list byte :=
  match p with PText t => t | PRoot => WORKSPACE | PEnv name => ENV ++ name ++ [CLOSE] end.
Definition piece_value (environment : jmap (list byte) (list byte)) (root : list byte) (p : piece) : list byte :=
  match p with PText t => t | PRoot => root | PEnv name => default [] (mget name environment) end.
Definition piece_ok (p : piece) : Prop :=
  match p with PText t => DOLLAR ∉ t | PRoot => True | PEnv name => name ≠ [] ∧ (DOLLAR ∉ name) ∧ (CLOSE ∉ name) end.

(** The pieces after the first pass. *)
Definition half (root : list byte) (p : piece) : list byte := match p with PRoot => root | _ => piece_text p end.

Lemma replace_pieces root pieces before : DOLLAR ∉ root → Forall piece_ok pieces →
  replace_from WORKSPACE root 0 before (concat (piece_text <$> pieces)) = concat (half root <$> pieces).
Proof.
  intros Hr Hp. revert before. induction Hp as [|p pieces Hp _ IH]; intros before; [done|]. cbn [fmap list_fmap concat].
  destruct p as [t| |name]; cbn [piece_text half].
  - by rewrite replace_text, IH.
  - by rewrite replace_match, IH.
  - destruct Hp as (_ & Hd & _). change ENV with (DOLLAR :: text_bytes "{env:"). rewrite <- !app_comm_cons.
    rewrite replace_no_match by (apply bool_decide_false; intros [k [=]]). f_equal.
    rewrite replace_text; [by rewrite IH|done|].
    rewrite !elem_of_app. intros [H|[H|H]]; [|done|]; revert H; apply (bool_decide_unpack _); vm_compute; done.
Qed.

Section Env.
Context (environment : jmap (list byte) (list byte)).

Lemma env_match_head b text : b ≠ DOLLAR → env_match (b :: text) = None.
Proof. intros Hb. unfold env_match. by rewrite startsWith_head. Qed.

Lemma expand_text t rest : DOLLAR ∉ t → expand_env environment 0 (t ++ rest) = t ++ expand_env environment 0 rest.
Proof.
  induction t as [|b t IH]; [done|]. rewrite not_elem_of_cons. intros [Hb Ht]. cbn [app expand_env].
  rewrite env_match_head by done. by rewrite IH.
Qed.

Lemma expand_skip n t rest : length t = n → expand_env environment n (t ++ rest) = expand_env environment 0 rest.
Proof. revert t. induction n as [|n IH]; intros [|b t]; try done. intros [= Hl]. by apply IH. Qed.

Lemma before_brace_app name rest : CLOSE ∉ name → before_brace (name ++ CLOSE :: rest) = Some name.
Proof.
  induction name as [|b name IH]; cbn [app before_brace]; [by rewrite bool_decide_true|]. rewrite not_elem_of_cons. intros [Hb Hn].
  rewrite bool_decide_false by done. by rewrite IH.
Qed.

Lemma expand_match name rest : name ≠ [] → CLOSE ∉ name →
  expand_env environment 0 ((ENV ++ name ++ [CLOSE]) ++ rest) = default [] (mget name environment) ++ expand_env environment 0 rest.
Proof.
  intros Hne Hc. assert (env_match ((ENV ++ name ++ [CLOSE]) ++ rest) = Some name) as Hm.
  { unfold env_match. rewrite <- app_assoc, startsWith_app, drop_app_length, <- app_assoc. cbn [app].
    rewrite before_brace_app by done. by destruct name. }
  change ENV with (DOLLAR :: text_bytes "{env:") in *. rewrite <- !app_comm_cons in *. cbn [expand_env]. rewrite Hm. f_equal.
  apply expand_skip. rewrite !length_app. cbn. lia.
Qed.

(** A setting means what its parts mean: in a text made of plain parts, [${workspaceFolder}] and [${env:NAME}], [expandSetting] puts the
    folder for every one, the value of the variable for every name, and nothing for a variable that
    is not set, and leaves the rest, as long as the folder's path has no dollar sign. *)
Theorem setting_expands root pieces : DOLLAR ∉ root → Forall piece_ok pieces →
  expandSetting environment (concat (piece_text <$> pieces)) root = concat (piece_value environment root <$> pieces).
Proof.
  intros Hr Hp. unfold expandSetting, replaceAll. rewrite replace_pieces by done.
  induction Hp as [|p pieces Hp _ IH]; [done|]. cbn [fmap list_fmap concat]. destruct p as [t| |name]; cbn [half piece_text piece_value].
  - by rewrite expand_text, IH.
  - by rewrite expand_text, IH.
  - destruct Hp as (Hne & _ & Hc). by rewrite expand_match, IH.
Qed.

(** C40 A language server is launched from a known place: the command is an absolute path or a bare name, which the system
    looks up, the directory is an absolute path, and a variable has the configured value, expanded, or the one the editor has. *)
Theorem launch_well_formed existsSync extensionPath root config : NoDup (st_serverEnvironment config).*1 →
  let l := serverLaunch environment existsSync extensionPath root config in
  (isAbsolute (la_command l) = true ∨ has_separator (la_command l) = false) ∧ isAbsolute (la_cwd l) = true ∧
  ∀ name, mget name (la_env l) =
    match mget name (st_serverEnvironment config) with Some value => Some (expandSetting environment value root) | None => mget name environment end.
Proof.
  intros Hnd. cbn zeta. unfold serverLaunch. cbn [la_command la_cwd la_env]. split; [|split].
  - case_bool_decide; [destruct (existsSync _); [by left|by right]|]. set (command := expandSetting _ _ _).
    destruct (isAbsolute command) eqn:Ha; cbn [negb andb]; [by left|]. destruct (has_separator command) eqn:Hs; [by left|by right].
  - destruct (isAbsolute (expandSetting _ _ _)) eqn:Ha; [done|]. done.
  - intros name. generalize environment at 2 4 as env. induction (st_serverEnvironment config) as [|[k v] l IH]; intros env; [done|].
    cbn [foldl fst snd mget]. apply NoDup_cons in Hnd as [Hk Hnd]. rewrite IH by done. case_decide as E.
    + subst name. by rewrite (proj2 (mget_None_keys k l) Hk), mget_mset_eq.
    + by rewrite mget_mset_ne by done.
Qed.
End Env.

Definition example_env : jmap (list byte) (list byte) := [(text_bytes "HOME", text_bytes "/home/me")].

Lemma setting_expands_witness :
  expandSetting example_env (text_bytes "${env:HOME}/bin:${workspaceFolder}/bin${env:NONE}") (text_bytes "/w") = text_bytes "/home/me/bin:/w/bin".
Proof.
  pose proof (setting_expands example_env (text_bytes "/w")
    [PEnv (text_bytes "HOME"); PText (text_bytes "/bin:"); PRoot; PText (text_bytes "/bin"); PEnv (text_bytes "NONE")]) as H.
  apply H; [apply (bool_decide_unpack _); vm_compute; done|].
  repeat constructor; try done; apply (bool_decide_unpack _); vm_compute; done.
Defined.

Lemma launch_well_formed_witness :
  let l := serverLaunch example_env (λ _, false) (text_bytes "/x/y/z") (text_bytes "/w")
    (Settings (text_bytes " bin/nupp ") None (text_bytes "sub/../here") [(text_bytes "NUPP", WORKSPACE)]) in
  (isAbsolute (la_command l) = true ∨ has_separator (la_command l) = false) ∧ la_command l = text_bytes "/w/bin/nupp" ∧ la_cwd l = text_bytes "/w/here" ∧
  mget (text_bytes "NUPP") (la_env l) = Some (text_bytes "/w").
Proof.
  destruct (launch_well_formed example_env (λ _, false) (text_bytes "/x/y/z") (text_bytes "/w")
    (Settings (text_bytes " bin/nupp ") None (text_bytes "sub/../here") [(text_bytes "NUPP", WORKSPACE)])) as (H1 & _ & H3).
  - apply (bool_decide_unpack _). vm_compute. done.
  - split; [exact H1|]. split; [vm_compute; done|]. split; [vm_compute; done|]. rewrite H3. vm_compute. done.
Defined.

(** A folder whose path has a dollar sign is not put as it is: the replacement is a template. *)
Example dollar_folder :
  expandSetting [] WORKSPACE (text_bytes "/w/a$$b") = text_bytes "/w/a$b" ∧
  expandSetting [] WORKSPACE (text_bytes "/w/a$&") = text_bytes "/w/a${workspaceFolder}".
Proof. split; vm_compute; done. Qed.

(** ** Commands *)

Lemma filter_same {A} (P Q : A → Prop) `{∀ x, Decision (P x), ∀ x, Decision (Q x)} (l : list A) : (∀ x, x ∈ l → P x ↔ Q x) → filter P l = filter Q l.
Proof.
  induction l as [|x l IH]; intros H'; [done|]. rewrite !filter_cons, IH by (intros y Hy; apply H'; by right).
  pose proof (H' x ltac:(left)) as Hx. repeat case_decide; tauto.
Qed.

(** Another extension that has some of the commands costs those and no others: every command of the list ends up
    registered, the ones nobody had are this extension's, in order, the others keep the handler they had, and exactly
    these are named in a warning. *)
Theorem commands_survive_clash ids registry : NoDup ids →
  registerCommands ids registry = (registry ++ filter (λ id, id ∉ registry) ids, filter (λ id, id ∉ registry) ids, filter (λ id, id ∈ registry) ids) ∧
  (is_Some (clash_warning (registerCommands ids registry).2) ↔ ∃ id, id ∈ ids ∧ id ∈ registry).
Proof.
  intros Hnd. assert (registerCommands ids registry =
    (registry ++ filter (λ id, id ∉ registry) ids, filter (λ id, id ∉ registry) ids, filter (λ id, id ∈ registry) ids)) as E.
  { revert registry. induction Hnd as [|id ids Hid Hnd IH]; intros registry; cbn [registerCommands]; [by rewrite app_nil_r|].
    case_bool_decide as Hin; rewrite IH, !filter_cons.
    - by rewrite decide_False, decide_True by tauto.
    - rewrite decide_True, decide_False, <- app_assoc by done.
      assert (∀ x, x ∈ ids → x ∈ registry ++ [id] ↔ x ∈ registry) as Hx.
      { intros x Hx. rewrite elem_of_app, list_elem_of_singleton. split; [|tauto]. intros [?| ->]; done. }
      rewrite (filter_same (λ x, x ∉ registry ++ [id]) (λ x, x ∉ registry)) by (intros x Hi; by rewrite Hx).
      by rewrite (filter_same (λ x, x ∈ registry ++ [id]) (λ x, x ∈ registry)). }
  split; [done|]. rewrite E. cbn [snd]. setoid_rewrite <- (λ x, and_comm (x ∈ registry) (x ∈ ids)).
  setoid_rewrite <- (list_elem_of_filter (λ x, x ∈ registry)). set (l := filter (λ id, id ∈ registry) ids). destruct l as [|id l].
  - split; [intros [w Hw]; discriminate Hw|]. intros (id & H). by apply elem_of_nil in H.
  - split; [|by eexists]. intros _. exists id. left.
Qed.

Lemma commands_survive_clash_witness :
  registerCommands ["nupp.openBytecode"; "nupp.openGeneratedLua"] ["nupp.openBytecode"] =
    (["nupp.openBytecode"; "nupp.openGeneratedLua"], ["nupp.openGeneratedLua"], ["nupp.openBytecode"]).
Proof. apply (commands_survive_clash ["nupp.openBytecode"; "nupp.openGeneratedLua"] ["nupp.openBytecode"]). apply (bool_decide_unpack _). vm_compute. done. Defined.
