(* ===== verification/ExtensionClients.v ===== *)
(** The language servers of the editor's extension: [startClient], [stopClient], [restartClients], [deactivate] and the
    handlers of [activate] for workspace folders and settings, in [src/editors/vscode/extension.js].

    A client is a [LanguageClient] with its file watchers.  [start], [stop] and [dispose] are promises of a
    library: when and how each settles is an event, so is the resumption of a handler that awaits several.
    [serverLaunch] throws for settings it cannot read, so an event that starts clients says which folders have settings
    that can be read then.  A run is a sequence of events, each enabled where the code can take it. *)

From S2P Require Import Prelude.

(** ** State *)

Record folder := Folder { fo_uri : string; fo_file : bool }.

Inductive settled := Waiting | Fulfilled | Rejected.
#[export] Instance settled_eq_dec : EqDecision settled.
Proof. solve_decision. Defined.

(** A call of [stop], by [stopClient] ([own]) or with others. *)
Record stopping := Stopping { sp_own : bool; sp_outcome : settled }.

(** A client, with what its promises did and whether its watchers are live. *)
Record client := Client {
  cl_key : string;
  cl_start : settled;
  cl_stop : option stopping;
  cl_dispose : option settled;
  cl_watching : bool
}.

(** Handlers that await the stops of some clients. *)
Inductive wait :=
| WRestart (stopped : list nat)
| WDeactivate (stopped : list nat)
| WFolders (stopped : list nat) (added : list folder).

(** How far [activate] came: it waits for the clients it started, or it was rejected by one it could not start. *)
Inductive activation := NotActivated | Activating (started : nat) | ActivationFailed.
#[export] Instance activation_eq_dec : EqDecision activation.
Proof. solve_decision. Defined.

(** The module's [clients], every client made so far by its number, the handlers that wait, the folders of the workspace, and
    [activate]. *)
Record extension := Extension {
  ex_clients : jmap string nat;
  ex_all : list client;
  ex_waits : list wait;
  ex_folders : list folder;
  ex_activated : activation
}.

Definition with_clients (m : jmap string nat) (s : extension) : extension := Extension m (ex_all s) (ex_waits s) (ex_folders s) (ex_activated s).
Definition with_all (l : list client) (s : extension) : extension := Extension (ex_clients s) l (ex_waits s) (ex_folders s) (ex_activated s).
Definition with_waits (w : list wait) (s : extension) : extension := Extension (ex_clients s) (ex_all s) w (ex_folders s) (ex_activated s).
Definition with_folders (l : list folder) (s : extension) : extension := Extension (ex_clients s) (ex_all s) (ex_waits s) l (ex_activated s).

Definition update (id : nat) (f : client → client) (s : extension) : extension := with_all (alter f id (ex_all s)) s.

Definition set_start (o : settled) (c : client) : client := Client (cl_key c) o (cl_stop c) (cl_dispose c) (cl_watching c).
Definition set_stop (p : stopping) (c : client) : client := Client (cl_key c) (cl_start c) (Some p) (cl_dispose c) (cl_watching c).
Definition set_dispose (o : settled) (c : client) : client := Client (cl_key c) (cl_start c) (cl_stop c) (Some o) (cl_watching c).
Definition unwatch (c : client) : client := Client (cl_key c) (cl_start c) (cl_stop c) (cl_dispose c) false.

(** ** Operations *)

(** The folders whose settings [serverLaunch] can read. *)
Abbreviation settings := (string → bool).

(** [startClient(context, folder)] up to its [await]; it throws where [serverLaunch] does. *)
Definition startClient (launches : settings) (s : extension) (f : folder) : extension :=
  if mhas (fo_uri f) (ex_clients s) || negb (fo_file f) then s
  else if negb (launches (fo_uri f)) then s
  else with_clients (mset (fo_uri f) (length (ex_all s)) (ex_clients s)) (with_all (ex_all s ++ [Client (fo_uri f) Waiting None None true]) s).
Definition start_throws (launches : settings) (s : extension) (f : folder) : bool :=
  negb (mhas (fo_uri f) (ex_clients s) || negb (fo_file f)) && negb (launches (fo_uri f)).

(** The [map] over folders, and whether its [Promise.all] is rejected at once. *)
Definition start_all (launches : settings) (folders : list folder) (s : extension) : extension := foldl (startClient launches) s folders.
Fixpoint start_rejected (launches : settings) (folders : list folder) (s : extension) : bool :=
  match folders with
  | [] => false
  | f :: folders' => start_throws launches s f || start_rejected launches folders' (startClient launches s f)
  end.

(** How [await client.start()] ends: the [catch] removes the folder's entry and disposes of the client. *)
Definition start_settled (id : nat) (ok : bool) (s : extension) : option extension :=
  match ex_all s !! id with
  | Some c =>
      if bool_decide (cl_start c = Waiting)
      then Some (if ok then update id (set_start Fulfilled) s
                 else update id (λ c, set_dispose Waiting (set_start Rejected c)) (with_clients (mdelete (cl_key c) (ex_clients s)) s))
      else None
  | None => None
  end.

(** How [await client.dispose()] ends; the watchers go after it. *)
Definition dispose_settled (id : nat) (ok : bool) (s : extension) : option extension :=
  match ex_all s !! id with
  | Some c =>
      if bool_decide (cl_dispose c = Some Waiting)
      then Some (update id (λ c, if ok then unwatch (set_dispose Fulfilled c) else set_dispose Rejected c) s)
      else None
  | None => None
  end.

(** [stopClient(folder)] up to its [await], with the client it stops. *)
Definition stopClient (s : extension) (f : folder) : option nat * extension :=
  match mget (fo_uri f) (ex_clients s) with
  | None => (None, s)
  | Some id => (Some id, update id (set_stop (Stopping true Waiting)) (with_clients (mdelete (fo_uri f) (ex_clients s)) s))
  end.
Fixpoint stop_folders (folders : list folder) (s : extension) : list nat * extension :=
  match folders with
  | [] => ([], s)
  | f :: folders' =>
      let '(id, s1) := stopClient s f in
      let '(ids, s2) := stop_folders folders' s1 in
      (match id with Some id => id :: ids | None => ids end, s2)
  end.

(** How a [stop] ends: [stopClient] then disposes of the watchers, unless it was rejected. *)
Definition stop_settled (id : nat) (ok : bool) (s : extension) : option extension :=
  match ex_all s !! id with
  | Some c =>
      match cl_stop c with
      | Some (Stopping own Waiting) =>
          Some (update id (λ c,
            let c' := set_stop (Stopping own (if ok then Fulfilled else Rejected)) c in
            if own && ok then unwatch c' else c') s)
      | _ => None
      end
  | None => None
  end.

(** [clients.clear()] and the [stop] of each, together. *)
Definition stop_running (s : extension) : list nat * extension :=
  let running := (ex_clients s).*2 in
  (running, foldl (λ s id, update id (set_stop (Stopping false Waiting)) s) (with_clients [] s) running).

(** [restartClients(context)] and [deactivate()] up to their first [await]. *)
Definition restartClients (s : extension) : extension :=
  let '(running, s') := stop_running s in with_waits (ex_waits s' ++ [WRestart running]) s'.
Definition deactivate (s : extension) : extension :=
  let '(running, s') := stop_running s in with_waits (ex_waits s' ++ [WDeactivate running]) s'.

(** The editor's folders change. *)
Definition change_folders (removed added : list folder) (s : extension) : extension :=
  with_folders (filter (λ f, fo_uri f ∉ fo_uri <$> removed) (ex_folders s) ++ added) s.

(** The handler of [onDidChangeWorkspaceFolders] up to its first [await]. *)
Definition folders_changed (removed added : list folder) (s : extension) : extension :=
  let s := change_folders removed added s in
  let '(stopped, s') := stop_folders removed s in
  with_waits (ex_waits s' ++ [WFolders stopped added]) s'.

(** The handler of [onDidChangeConfiguration]. *)
Definition LAUNCH_SETTINGS : list string := ["nupp.serverPath"; "nupp.serverArgs"; "nupp.serverCwd"; "nupp.serverEnvironment"].
Definition configuration_changed (affects : string → bool) (s : extension) : extension :=
  if existsb affects LAUNCH_SETTINGS then restartClients s else s.

Definition stop_done (s : extension) (id : nat) : bool :=
  match ex_all s !! id with
  | Some c => match cl_stop c with Some (Stopping _ Waiting) => false | _ => true end
  | None => true
  end.

Definition wait_stopped (w : wait) : list nat :=
  match w with WRestart ids => ids | WDeactivate ids => ids | WFolders ids _ => ids end.

Definition unwatch_all (ids : list nat) (s : extension) : extension := foldl (λ s id, update id unwatch s) s ids.

(** A handler goes on when every stop it awaits has settled. *)
Definition resume (k : nat) (launches : settings) (s : extension) : option extension :=
  match ex_waits s !! k with
  | Some w =>
      if forallb (stop_done s) (wait_stopped w) then
        let s := with_waits (delete k (ex_waits s)) s in
        Some match w with
             | WRestart ids => start_all launches (ex_folders s) (unwatch_all ids s)
             | WDeactivate ids => unwatch_all ids s
             | WFolders _ added => start_all launches added s
             end
      else None
  | None => None
  end.

(** [activate] up to its [await]: the clients of the folders there are; it ends there when one could not be started. *)
Definition activate (launches : settings) (s : extension) : extension :=
  let s' := start_all launches (ex_folders s) s in
  Extension (ex_clients s') (ex_all s') (ex_waits s') (ex_folders s')
    (if start_rejected launches (ex_folders s) s then ActivationFailed else Activating (length (ex_all s'))).

(** [activate] goes on when those have started, or failed and been disposed of; only then does it register the handlers of folders and settings. *)
Definition start_over (s : extension) (id : nat) : bool :=
  match ex_all s !! id with
  | Some c => match cl_start c with Waiting => false | Fulfilled => true | Rejected => bool_decide (cl_dispose c = Some Fulfilled) end
  | None => false
  end.
Definition handlers_registered (s : extension) : bool :=
  match ex_activated s with Activating n => forallb (start_over s) (seq 0 n) | _ => false end.

(** ** Runs *)

Inductive event :=
| Activated (launches : settings)
| FoldersChanged (removed added : list folder)
| ConfigurationChanged (affects : string → bool)
| RestartCommand
| Deactivated
| StartSettled (id : nat) (ok : bool)
| DisposeSettled (id : nat) (ok : bool)
| StopSettled (id : nat) (ok : bool)
| Resumed (k : nat) (launches : settings).

Definition step (s : extension) (e : event) : option extension :=
  match e with
  | Activated launches => if bool_decide (ex_activated s = NotActivated) then Some (activate launches s) else None
  | FoldersChanged removed added => Some (if handlers_registered s then folders_changed removed added s else change_folders removed added s)
  | ConfigurationChanged affects => if handlers_registered s then Some (configuration_changed affects s) else None
  | RestartCommand => if bool_decide (ex_activated s = NotActivated) then None else Some (restartClients s)
  | Deactivated => if bool_decide (ex_activated s = NotActivated) then None else Some (deactivate s)
  | StartSettled id ok => start_settled id ok s
  | DisposeSettled id ok => dispose_settled id ok s
  | StopSettled id ok => stop_settled id ok s
  | Resumed k launches => resume k launches s
  end.

Fixpoint run (events : list event) (s : extension) : option extension :=
  match events with
  | [] => Some s
  | e :: events' => s' ← step s e; run events' s'
  end.

Definition initial (folders : list folder) : extension := Extension [] [] [] folders NotActivated.

(** ** What becomes of a client *)

(** An older client of the same folder failed to start. *)
Definition displaced (l : list client) (id : nat) (c : client) : Prop :=
  ∃ id' c', (id' < id)%nat ∧ l !! id' = Some c' ∧ cl_key c' = cl_key c ∧ cl_start c' = Rejected.

(** The clients whose watchers a handler disposes of. *)
Definition unwatched_by (w : wait) : list nat := match w with WRestart ids => ids | WDeactivate ids => ids | WFolders _ _ => [] end.
Definition collected (waits : list wait) (id : nat) : Prop := ∃ w, w ∈ waits ∧ id ∈ unwatched_by w.

(** The watchers of a client that is stopped may be live: its [stop] has not settled, or was rejected, or the handler that stopped
    it with others has still to go on. *)
Definition open_stop (waits : list wait) (id : nat) (c : client) : Prop :=
  match cl_stop c with
  | Some (Stopping true o) => o ≠ Fulfilled
  | Some (Stopping false _) => collected waits id
  | None => False
  end.

Inductive fate (m : jmap string nat) (l : list client) (waits : list wait) (id : nat) (c : client) : Prop :=
| Listed : mget (cl_key c) m = Some id → cl_watching c = true → fate m l waits id c
| Stopped : is_Some (cl_stop c) → (cl_watching c = true → open_stop waits id c) → fate m l waits id c
| Failed : cl_start c = Rejected → (cl_watching c = true → is_Some (cl_dispose c) ∧ cl_dispose c ≠ Some Fulfilled) → fate m l waits id c
| Displaced : displaced l id c → fate m l waits id c.

(** A folder's entry: its latest client, not stopped and not failed. *)
Record entry_ok (l : list client) (key : string) (id : nat) : Prop := EntryOk {
  en_client : ∃ c, l !! id = Some c ∧ cl_key c = key ∧ cl_stop c = None ∧ cl_start c ≠ Rejected;
  en_latest : ∀ id' c', l !! id' = Some c' → cl_key c' = key → (id' <= id)%nat
}.

Record clients_inv (s : extension) : Prop := ClientsInv {
  iv_keys : NoDup (ex_clients s).*1;
  iv_entry : ∀ key id, mget key (ex_clients s) = Some id → entry_ok (ex_all s) key id;
  iv_dispose : ∀ id c, ex_all s !! id = Some c → is_Some (cl_dispose c) → cl_start c = Rejected;
  iv_waits : ∀ id, collected (ex_waits s) id → ∃ c, ex_all s !! id = Some c ∧ is_Some (cl_stop c);
  iv_fate : ∀ id c, ex_all s !! id = Some c → fate (ex_clients s) (ex_all s) (ex_waits s) id c
}.

Lemma fate_mono m m' l l' waits waits' id c : (mget (cl_key c) m = Some id → mget (cl_key c) m' = Some id) →
  (displaced l id c → displaced l' id c) → (collected waits id → collected waits' id) → fate m l waits id c → fate m' l' waits' id c.
Proof.
  intros Hm Hl Hw [Hi Hwt|Hs Ho|Hf Hd|Hd]; [by apply Listed; auto|apply Stopped|by apply Failed|by apply Displaced, Hl]; [done|].
  intros Hwt. specialize (Ho Hwt). unfold open_stop in *. destruct (cl_stop c) as [[[] o]|]; [done|by apply Hw|done].
Qed.

(** A client that changes its promises keeps its folder, and a failure stays one. *)
Definition grows (c c' : client) : Prop := cl_key c' = cl_key c ∧ (cl_start c = Rejected → cl_start c' = Rejected) ∧
  ((is_Some (cl_dispose c) → cl_start c = Rejected) → is_Some (cl_dispose c') → cl_start c' = Rejected) ∧
  (is_Some (cl_stop c) → is_Some (cl_stop c')).

Lemma displaced_alter l i f id c : (∀ c, l !! i = Some c → grows c (f c)) → displaced l id c → displaced (alter f i l) id c.
Proof.
  intros Hf (id' & c' & Hlt & Hl & Hk & Hr). destruct (decide (i = id')) as [->|Hne].
  - exists id', (f c'). rewrite list_lookup_alter_eq, Hl. destruct (Hf _ Hl) as (Hk' & Hr' & _). cbn. repeat split; auto; congruence.
  - exists id', c'. by rewrite list_lookup_alter_ne.
Qed.

Lemma entry_alter l i f key id : (∀ c, l !! i = Some c → cl_key (f c) = cl_key c) →
  (id = i → ∀ c, l !! i = Some c → cl_stop (f c) = cl_stop c ∧ (cl_start (f c) = Rejected → cl_start c = Rejected)) →
  entry_ok l key id → entry_ok (alter f i l) key id.
Proof.
  intros Hk Hi [(c & Hc & Ek & Es & Er) Hlat]. constructor.
  - destruct (decide (i = id)) as [->|Hne].
    + destruct (Hi eq_refl c Hc) as [H1 H2]. exists (f c). rewrite list_lookup_alter_eq, Hc, H1, Hk by done. cbn. repeat split; auto.
    + exists c. by rewrite list_lookup_alter_ne.
  - intros id' c'. destruct (decide (i = id')) as [->|Hne]; [|rewrite list_lookup_alter_ne by done; apply Hlat].
    rewrite list_lookup_alter_eq. destruct (l !! id') as [c0|] eqn:E; [|done]. cbn. intros [= <-] Hke. apply (Hlat id' c0); [done|].
    by rewrite <- Hke, Hk.
Qed.

(** The invariant after one client changed, and entries were perhaps removed. *)
Lemma update_inv s i f m : clients_inv s → NoDup m.*1 → (∀ key id, mget key m = Some id → mget key (ex_clients s) = Some id) →
  (∀ c, ex_all s !! i = Some c → grows c (f c)) →
  (∀ key, mget key m = Some i → ∀ c, ex_all s !! i = Some c → cl_stop (f c) = cl_stop c ∧ (cl_start (f c) = Rejected → cl_start c = Rejected)) →
  (∀ c, ex_all s !! i = Some c → fate m (alter f i (ex_all s)) (ex_waits s) i (f c)) →
  (∀ id c, id ≠ i → ex_all s !! id = Some c → mget (cl_key c) (ex_clients s) = Some id → fate m (alter f i (ex_all s)) (ex_waits s) id c) →
  clients_inv (update i f (with_clients m s)).
Proof.
  intros [Hn He Hdp Hwt Hf] Hm Hsub Hg Hi Hfi Hlost. constructor; cbn; [done|..].
  - intros key id Hmg. apply entry_alter; [by intros c Hc; apply Hg|intros ->; by eapply Hi|by apply He, Hsub].
  - intros id c. destruct (decide (i = id)) as [->|Hne]; [|rewrite list_lookup_alter_ne by done; apply Hdp].
    rewrite list_lookup_alter_eq. destruct (ex_all s !! id) as [c0|] eqn:E; [|done]. intros [= <-]. apply (Hg c0 eq_refl), (Hdp _ _ E).
  - intros id (c & Hc & Hs)%Hwt. destruct (decide (i = id)) as [->|Hne]; [|exists c; by rewrite list_lookup_alter_ne].
    exists (f c). rewrite list_lookup_alter_eq, Hc. split; [done|]. by apply (Hg c Hc).
  - intros id c. destruct (decide (i = id)) as [->|Hne].
    + rewrite list_lookup_alter_eq. destruct (ex_all s !! id) as [c0|] eqn:E; [|done]. intros [= <-]. by apply Hfi.
    + rewrite list_lookup_alter_ne by done. intros Hc. destruct (Hf _ _ Hc) as [Hl Hw|Hs Ho|Hs Ho|Hd].
      * by apply Hlost.
      * by apply Stopped.
      * by apply Failed.
      * by apply Displaced, displaced_alter.
Qed.

(** One client changed and no entry did. *)
Lemma update_same_inv s i f : clients_inv s →
  (∀ c, ex_all s !! i = Some c → grows c (f c)) →
  (∀ c, ex_all s !! i = Some c → mget (cl_key c) (ex_clients s) = Some i → cl_stop (f c) = cl_stop c ∧ (cl_start (f c) = Rejected → cl_start c = Rejected)) →
  (∀ c, ex_all s !! i = Some c → fate (ex_clients s) (alter f i (ex_all s)) (ex_waits s) i (f c)) → clients_inv (update i f s).
Proof.
  intros Hinv Hg Hi Hf. pose proof (update_inv s i f (ex_clients s)) as H. destruct s as [m l w fs ac]. apply H; try done; cbn in *.
  - by destruct Hinv.
  - intros key Hk c Hc. destruct Hinv as [_ He _ _ _]. destruct (He _ _ Hk) as [(c0 & Hc0 & Ek & _) _]. cbn in Hc0.
    rewrite Hc in Hc0. injection Hc0 as <-. subst key. by apply Hi.
  - intros id c Hne Hc Hl. destruct Hinv as [_ _ _ _ Hfa]. specialize (Hfa _ _ Hc). cbn in Hfa.
    eapply fate_mono; [done| |done|done]. by apply displaced_alter.
Qed.

Lemma startClient_inv launches s f : clients_inv s → clients_inv (startClient launches s f).
Proof.
  intros [Hn He Hdp Hwt Hf]. unfold startClient. unfold mhas. destruct (mget (fo_uri f) (ex_clients s)) eqn:Eg; [done|].
  destruct (fo_file f); [|done]. cbn [negb orb]. destruct (launches (fo_uri f)); [|done]. constructor; cbn; [by apply NoDup_mset|..].
  - intros key id [[-> ->]|[Hne Hg]]%mget_mset_Some.
    + constructor; [eexists; split; [by rewrite lookup_app_r, Nat.sub_diag by done|done]|].
      intros id' c' Hl%lookup_lt_Some _. rewrite length_app in Hl. cbn in Hl. lia.
    + destruct (He _ _ Hg) as [(c & Hc & Hr) Hlat]. constructor; [exists c; split; [by apply lookup_app_l_Some|done]|].
      intros id' c' [Hl|[Hge Hl]]%lookup_app_Some Hk; [by eapply Hlat|]. destruct (id' - _)%nat; [|done]. by injection Hl as <-.
  - intros id c [Hl|[Hge Hl]]%lookup_app_Some; [by eapply Hdp|]. destruct (id - length _)%nat; [|done]. injection Hl as <-. by intros [? [=]].
  - intros id (c & Hc & Hs)%Hwt. exists c. split; [by apply lookup_app_l_Some|done].
  - intros id c [Hl|[Hge Hl]]%lookup_app_Some.
    + eapply fate_mono; [| |done|by apply Hf].
      * intros Hm. rewrite mget_mset_ne; [done|]. intros E. by rewrite <- E, Eg in Hm.
      * intros (id' & c' & Hlt & Hc' & Hr). exists id', c'. split; [done|]. split; [by apply lookup_app_l_Some|done].
    + destruct (id - length _)%nat eqn:Ei; [|done]. injection Hl as <-. assert (id = length (ex_all s)) as -> by lia.
      apply Listed; [by rewrite mget_mset_eq|done].
Qed.

Lemma start_all_inv launches folders s : clients_inv s → clients_inv (start_all launches folders s).
Proof. unfold start_all. revert s. induction folders as [|f folders IH]; intros s Hs; [done|]. by apply IH, startClient_inv. Qed.

Lemma entry_of s id c : clients_inv s → ex_all s !! id = Some c → mget (cl_key c) (ex_clients s) = Some id → cl_stop c = None ∧ cl_start c ≠ Rejected.
Proof. intros [_ He _ _ _] Hc Hg. destruct (He _ _ Hg) as [(c' & Hc' & _ & Hs & Hr) _]. rewrite Hc in Hc'. by injection Hc' as <-. Qed.

Lemma start_settled_inv id ok s s' : clients_inv s → start_settled id ok s = Some s' → clients_inv s'.
Proof.
  intros Hinv. unfold start_settled. destruct (ex_all s !! id) as [c|] eqn:Ec; [|done]. case_bool_decide as Hw; [|done]. intros [= <-].
  destruct ok.
  - apply update_same_inv; [done|intros c0 Hc0..]; rewrite Ec in Hc0; injection Hc0 as <-; [|done|].
    { split; [done|]. rewrite Hw. split; [done|]. split; [|done]. intros Hd Hs. by apply Hd in Hs. }
    pose proof (iv_fate _ Hinv _ _ Ec) as [Hl Hwt|Hs Ho|Hr|Hd]; [by apply Listed|by apply Stopped|by rewrite Hw in Hr|].
    apply Displaced, displaced_alter; [intros c1 Hc1; rewrite Ec in Hc1; injection Hc1 as <-; split; [done|]; rewrite Hw; split; [done|]; split; [intros Hd' Hs; by apply Hd' in Hs|done]|done].
  - apply update_inv; [done|apply NoDup_mdelete, Hinv|..].
    + intros key k Hg. destruct (decide (cl_key c = key)) as [<-|Hne]; [by rewrite mget_mdelete_eq in Hg|by rewrite mget_mdelete_ne in Hg].
    + by intros c0 Hc0.
    + intros key Hg c0 Hc0. exfalso. destruct (decide (cl_key c = key)) as [<-|Hne]; [by rewrite mget_mdelete_eq in Hg|].
      rewrite mget_mdelete_ne in Hg by done. destruct (iv_entry _ Hinv _ _ Hg) as [(c1 & Hc1 & Hk & _) _]. congruence.
    + intros c0 Hc0. apply Failed; [done|]. by intros _.
    + intros id' c' Hne Hc' Hl. destruct (decide (cl_key c = cl_key c')) as [Ek|Hk].
      * apply Displaced. exists id, (set_dispose Waiting (set_start Rejected c)).
        rewrite list_lookup_alter_eq, Ec. pose proof (en_latest _ _ _ (iv_entry _ Hinv _ _ Hl) id c Ec Ek). repeat split; [lia|done].
      * eapply (fate_mono (ex_clients s)); [by rewrite mget_mdelete_ne|by apply displaced_alter|done|by apply (iv_fate _ Hinv)].
Qed.

Lemma dispose_settled_inv id ok s s' : clients_inv s → dispose_settled id ok s = Some s' → clients_inv s'.
Proof.
  intros Hinv. unfold dispose_settled. destruct (ex_all s !! id) as [c|] eqn:Ec; [|done]. case_bool_decide as Hw; [|done]. intros [= <-].
  assert (∀ c0, ex_all s !! id = Some c0 → grows c0 (if ok then unwatch (set_dispose Fulfilled c0) else set_dispose Rejected c0)) as Hg.
  { intros c0 Hc0. rewrite Ec in Hc0. injection Hc0 as <-. destruct ok; (split; [done|split; [done|split; [|done]]]; intros Hd _; apply Hd; by rewrite Hw). }
  apply update_same_inv; [done|done|by destruct ok|]. intros c0 Hc0. rewrite Ec in Hc0. injection Hc0 as <-.
  assert (fate (ex_clients s) (alter (λ c, if ok then unwatch (set_dispose Fulfilled c) else set_dispose Rejected c) id (ex_all s)) (ex_waits s) id c) as Hf.
  { eapply fate_mono; [done|by apply displaced_alter|done|by apply (iv_fate _ Hinv)]. }
  destruct Hf as [Hl Hwt|Hs Ho|Hr _|Hd].
  - destruct (entry_of _ _ _ Hinv Ec Hl) as [_ Hr]. destruct Hr. apply (iv_dispose _ Hinv _ _ Ec). by rewrite Hw.
  - apply Stopped; by destruct ok.
  - apply Failed; by destruct ok.
  - apply Displaced. by destruct ok.
Qed.

Lemma stopClient_inv s f : clients_inv s → clients_inv (stopClient s f).2.
Proof.
  intros Hinv. unfold stopClient. destruct (mget (fo_uri f) (ex_clients s)) as [id|] eqn:Eg; [|done]. cbn [snd].
  destruct (iv_entry _ Hinv _ _ Eg) as [(c & Hc & Hk & Hs & Hr) Hlat].
  apply update_inv; [done|apply NoDup_mdelete, Hinv|..].
  - intros key k Hg. destruct (decide (fo_uri f = key)) as [<-|Hne]; [by rewrite mget_mdelete_eq in Hg|by rewrite mget_mdelete_ne in Hg].
  - by intros c0 Hc0.
  - intros key Hg c0 Hc0. exfalso. destruct (decide (fo_uri f = key)) as [<-|Hne]; [by rewrite mget_mdelete_eq in Hg|].
    rewrite mget_mdelete_ne in Hg by done. destruct (iv_entry _ Hinv _ _ Hg) as [(c1 & Hc1 & Hk1 & _) _]. congruence.
  - intros c0 Hc0. apply Stopped; [by eexists|]. by intros _.
  - intros id' c' Hne Hc' Hl. eapply (fate_mono (ex_clients s)); [|by apply displaced_alter|done|by apply (iv_fate _ Hinv)].
    intros _. rewrite mget_mdelete_ne; [done|]. intros E. rewrite <- E, Eg in Hl. by injection Hl as <-.
Qed.

Lemma stop_folders_inv folders s : clients_inv s → clients_inv (stop_folders folders s).2.
Proof.
  revert s. induction folders as [|f folders IH]; intros s Hs; [done|]. cbn [stop_folders].
  pose proof (stopClient_inv s f Hs) as H1. destruct (stopClient s f) as [id s1]. pose proof (IH s1 H1) as H2.
  by destruct (stop_folders folders s1) as [ids s2].
Qed.

Lemma stop_settled_inv id ok s s' : clients_inv s → stop_settled id ok s = Some s' → clients_inv s'.
Proof.
  intros Hinv. unfold stop_settled. destruct (ex_all s !! id) as [c|] eqn:Ec; [|done].
  destruct (cl_stop c) as [[own []]|] eqn:Es; [|done..]. intros [= <-].
  apply update_same_inv; [done|intros c0 Hc0; by destruct (own && ok)|..]; intros c0 Hc0; rewrite Ec in Hc0; injection Hc0 as <-.
  - intros Hl. destruct (entry_of _ _ _ Hinv Ec Hl) as [Hs _]. congruence.
  - assert (∀ waits, cl_watching c = true → open_stop waits id c → fate (ex_clients s) (alter (λ c0,
      let c' := set_stop (Stopping own (if ok then Fulfilled else Rejected)) c0 in if own && ok then unwatch c' else c') id (ex_all s)) waits id
      (let c' := set_stop (Stopping own (if ok then Fulfilled else Rejected)) c in if own && ok then unwatch c' else c')) as Hopen.
    { intros waits _. unfold open_stop. rewrite Es. destruct own, ok; cbn [andb]; intros Ho; (apply Stopped; [by eexists|done]). }
    destruct (iv_fate _ Hinv _ _ Ec) as [Hl _|_ Ho|Hr Hd|Hd].
    + destruct (entry_of _ _ _ Hinv Ec Hl) as [Hs _]. congruence.
    + destruct (cl_watching c) eqn:Hw; [by apply Hopen; auto|]. apply Stopped; [destruct (own && ok); by eexists|]. destruct (own && ok); cbn; congruence.
    + apply Failed; destruct (own && ok); cbn; done.
    + apply Displaced. assert (displaced (ex_all s) id (let c' := set_stop (Stopping own (if ok then Fulfilled else Rejected)) c in if own && ok then unwatch c' else c')) as Hd'.
      { by destruct (own && ok). }
      apply displaced_alter; [intros c1 Hc1; by destruct (own && ok)|done].
Qed.

(** ** Several clients at once *)

Lemma update_all_lookup f ids s : (∀ c, f (f c) = f c) → let s' := foldl (λ s id, update id f s) s ids in
  ex_clients s' = ex_clients s ∧ ex_waits s' = ex_waits s ∧ ex_folders s' = ex_folders s ∧
  ∀ i, ex_all s' !! i = if decide (i ∈ ids) then f <$> ex_all s !! i else ex_all s !! i.
Proof.
  intros Hf. revert s. induction ids as [|id ids IH]; intros s; cbn [foldl].
  { split; [done|]. split; [done|]. split; [done|]. intros i. by rewrite decide_False by apply not_elem_of_nil. }
  destruct (IH (update id f s)) as (E1 & E2 & E3 & E4). split; [done|]. split; [done|]. split; [done|]. intros i. rewrite E4. cbn [update with_all ex_all].
  destruct (decide (id = i)) as [->|Hne].
  - rewrite list_lookup_alter_eq, (decide_True (P := i ∈ i :: ids)) by left. case_decide; [|done]. destruct (ex_all s !! i); [|done]. cbn. by rewrite Hf.
  - rewrite list_lookup_alter_ne by done. destruct (decide (i ∈ ids)) as [Hi|Hi].
    + by rewrite decide_True by (by right).
    + by rewrite decide_False by (rewrite elem_of_cons; intros [->|?]; done).
Qed.

(** A state that has, at some numbers, clients that only grew. *)
Lemma displaced_grows l l' id c : (∀ i c, l !! i = Some c → ∃ c', l' !! i = Some c' ∧ grows c c') → displaced l id c → displaced l' id c.
Proof.
  intros Hg (id' & c' & Hlt & Hl & Hk & Hr). destruct (Hg _ _ Hl) as (c1 & Hc1 & Hk1 & Hr1 & _). exists id', c1. repeat split; auto; congruence.
Qed.

Lemma stop_running_inv s w : clients_inv s → unwatched_by w = (ex_clients s).*2 →
  clients_inv (with_waits (ex_waits s ++ [w]) (stop_running s).2).
Proof.
  intros Hinv Hw. unfold stop_running. cbn [snd].
  destruct (update_all_lookup (set_stop (Stopping false Waiting)) (ex_clients s).*2 (with_clients [] s)) as (E1 & _ & _ & E4); [done|].
  cbn [with_clients ex_clients ex_all] in E1, E4. set (s' := foldl _ _ _) in *. constructor; cbn [with_waits ex_clients ex_all ex_waits]; rewrite ?E1; [constructor|done|..].
  - intros id c. rewrite E4. case_decide; [|by apply iv_dispose]. destruct (ex_all s !! id) as [c0|] eqn:E; [|done]. intros [= <-].
    by apply (iv_dispose _ Hinv _ _ E).
  - intros id (w' & [Hin|Hin%list_elem_of_singleton]%elem_of_app & Hid).
    + destruct (iv_waits _ Hinv id) as (c & Hc & Hs); [by exists w'|]. rewrite E4, Hc. case_decide; eexists; (split; [done|]); [by eexists|done].
    + subst w'. rewrite Hw in Hid. rewrite E4, decide_True by done. apply list_elem_of_fmap in Hid as ([key id'] & -> & Hin).
      destruct (iv_entry _ Hinv key id') as [(c & Hc & _) _]; [apply elem_mget; [apply Hinv|done]|]. cbn. rewrite Hc. eexists. split; [done|]. by eexists.
  - intros id c. rewrite E4. case_decide as Hi.
    + destruct (ex_all s !! id) as [c0|] eqn:E; [|done]. intros [= <-]. apply Stopped; [by eexists|]. intros _. cbn.
      exists w. rewrite Hw. split; [apply elem_of_app; right; left|done].
    + intros Hc. eapply (fate_mono (ex_clients s)); [| | |by apply (iv_fate _ Hinv)].
      * intros Hg%mget_elem. destruct Hi. by apply (list_elem_of_fmap_2 snd) in Hg.
      * apply displaced_grows. intros i c0 Hc0. rewrite E4, Hc0. case_decide; by eexists.
      * intros (w' & Hin & Hid). exists w'. split; [apply elem_of_app; by left|done].
Qed.

(** A handler that disposes of no watchers waits. *)
Lemma wait_inv s w : clients_inv s → unwatched_by w = [] → clients_inv (with_waits (ex_waits s ++ [w]) s).
Proof.
  intros [Hn He Hd Hwt Hf] Hw. constructor; [done..| |]; cbn.
  - intros id (w' & [Hin|Hin%list_elem_of_singleton]%elem_of_app & Hid); [apply Hwt; by exists w'|]. subst w'. rewrite Hw in Hid. by apply elem_of_nil in Hid.
  - intros id c Hc. eapply fate_mono; [done|done| |by apply Hf]. intros (w' & Hin & Hid). exists w'. split; [apply elem_of_app; by left|done].
Qed.

Lemma folders_inv s l : clients_inv s → clients_inv (with_folders l s).
Proof. by intros []. Qed.

(** A handler ends: the watchers it disposes of are those of clients that were stopped. *)
Lemma collect_inv s k w : clients_inv s → ex_waits s !! k = Some w →
  clients_inv (unwatch_all (unwatched_by w) (with_waits (delete k (ex_waits s)) s)).
Proof.
  intros [Hn He Hd Hwt Hf] Hk. unfold unwatch_all.
  destruct (update_all_lookup unwatch (unwatched_by w) (with_waits (delete k (ex_waits s)) s)) as (E1 & E2 & _ & E4); [done|].
  cbn [with_waits ex_clients ex_all ex_waits] in E1, E2, E4. set (s' := foldl _ _ _) in *.
  assert (∀ i c, ex_all s' !! i = Some c → ∃ c0, ex_all s !! i = Some c0 ∧ cl_key c = cl_key c0 ∧ cl_start c = cl_start c0 ∧ cl_stop c = cl_stop c0 ∧
    cl_dispose c = cl_dispose c0 ∧ (cl_watching c = true → c = c0 ∧ i ∉ unwatched_by w)) as Hback.
  { intros i c. rewrite E4. case_decide; [|intros Hc; by exists c]. destruct (ex_all s !! i) as [c0|]; [|done]. intros [= <-]. by exists c0. }
  assert (∀ i c, ex_all s !! i = Some c → ∃ c', ex_all s' !! i = Some c' ∧ grows c c' ∧ cl_stop c' = cl_stop c) as Hfwd.
  { intros i c Hc. rewrite E4, Hc. case_decide; eexists; by repeat split. }
  constructor; rewrite ?E1, ?E2; [done|..].
  - intros key id Hg. destruct (He _ _ Hg) as [(c & Hc & H1 & H2 & H3) Hlat]. constructor.
    + destruct (Hfwd _ _ Hc) as (c' & Hc' & (Hk' & _) & Hs'). exists c'. split; [done|]. rewrite Hk', Hs'. split; [done|]. split; [done|].
      destruct (Hback _ _ Hc') as (c0 & Hc0 & _ & -> & _). rewrite Hc in Hc0. by injection Hc0 as <-.
    + intros id' c' (c0 & Hc0 & Hk0 & _)%Hback Hkey. apply (Hlat id' c0); [done|]. congruence.
  - intros id c (c0 & Hc0 & _ & -> & _ & -> & _)%Hback. by eapply Hd.
  - intros id (w' & Hin & Hid). destruct (Hwt id) as (c & Hc & Hs).
    { exists w'. split; [by eapply list_elem_of_delete_inv|done]. }
    destruct (Hfwd _ _ Hc) as (c' & Hc' & _ & Hs'). exists c'. by rewrite Hs'.
  - intros id c Hc. destruct (Hback _ _ Hc) as (c0 & Hc0 & Ek & Er & Es & Ed & Hwc).
    destruct (Hf _ _ Hc0) as [Hl Hw|Hs Ho|Hr Ho|Hdis].
    + apply Listed; [by rewrite Ek|]. rewrite E4 in Hc. rewrite decide_False in Hc; [congruence|]. intros Hin.
      destruct (Hwt id) as (c1 & Hc1 & [st Hst]); [exists w; split; [by eapply list_elem_of_lookup_2|done]|].
      destruct (He _ _ Hl) as [(c2 & Hc2 & _ & Hs2 & _) _]. congruence.
    + apply Stopped; [by rewrite Es|]. intros Hw. destruct (Hwc Hw) as [-> Hni]. specialize (Ho Hw). unfold open_stop in *.
      destruct (cl_stop c0) as [[[] o]|]; [done| |done]. destruct Ho as (w' & Hin & Hid). exists w'. split; [|done].
      rewrite (delete_Permutation _ _ _ Hk), elem_of_cons in Hin. destruct Hin as [->|Hin]; done.
    + apply Failed; [by rewrite Er|]. intros Hw. destruct (Hwc Hw) as [-> _]. by apply Ho.
    + apply Displaced. eapply displaced_grows; [intros i c1 (c' & Hc' & Hg & _)%Hfwd; by exists c'|].
      destruct Hdis as (id' & c' & Hd'). exists id', c'. by rewrite Ek.
Qed.

Lemma resume_inv k launches s s' : clients_inv s → resume k launches s = Some s' → clients_inv s'.
Proof.
  intros Hinv. unfold resume. destruct (ex_waits s !! k) as [w|] eqn:Ek; [|done]. destruct (forallb _ _); [|done]. intros [= <-].
  pose proof (collect_inv s k w Hinv Ek) as Hc. destruct w as [ids|ids|ids added]; cbn [unwatched_by] in Hc; [by apply start_all_inv|done|by apply start_all_inv].
Qed.

Lemma group_inv s : clients_inv s → clients_inv (restartClients s) ∧ clients_inv (deactivate s).
Proof.
  intros Hinv. unfold restartClients, deactivate. destruct (stop_running s) as [running s'] eqn:E.
  assert (running = (ex_clients s).*2 ∧ ex_waits s' = ex_waits s) as [-> Hw].
  { unfold stop_running in E. injection E as <- <-. split; [done|].
    destruct (update_all_lookup (set_stop (Stopping false Waiting)) (ex_clients s).*2 (with_clients [] s)) as (_ & H & _); [done|exact H]. }
  rewrite Hw. change s' with ((ex_clients s).*2, s').2. rewrite <- E. split; by apply stop_running_inv.
Qed.

Lemma clients_step_inv s e s' : clients_inv s → step s e = Some s' → clients_inv s'.
Proof.
  intros Hinv. destruct e as [launches|removed added|affects| | |id ok|id ok|id ok|k launches]; cbn [step].
  - case_bool_decide; [|done]. intros [= <-]. unfold activate. pose proof (start_all_inv launches (ex_folders s) s Hinv) as []. by constructor.
  - intros [= <-]. destruct (handlers_registered s); [|by apply folders_inv]. unfold folders_changed. set (s1 := change_folders _ _ s).
    pose proof (stop_folders_inv removed s1 (folders_inv _ _ Hinv)) as H. destruct (stop_folders removed s1) as [stopped s2]. by apply wait_inv.
  - destruct (handlers_registered s); [|done]. intros [= <-]. unfold configuration_changed. destruct (existsb _ _); [by apply group_inv|done].
  - case_bool_decide; [done|]. intros [= <-]. by apply group_inv.
  - case_bool_decide; [done|]. intros [= <-]. by apply group_inv.
  - by apply start_settled_inv.
  - by apply dispose_settled_inv.
  - by apply stop_settled_inv.
  - by apply resume_inv.
Qed.

Lemma clients_run_inv events s s' : clients_inv s → run events s = Some s' → clients_inv s'.
Proof.
  revert s. induction events as [|e events IH]; intros s Hinv; cbn [run]; [by intros [= <-]|].
  destruct (step s e) as [s1|] eqn:E; [|done]. apply IH. by eapply clients_step_inv.
Qed.

Lemma initial_inv folders : clients_inv (initial folders).
Proof. constructor; cbn; [constructor|done|done|intros id (w & Hin & _); by apply elem_of_nil in Hin|done]. Qed.

(** C22 No language server is lost track of, in whatever order starts, stops, restarts and changes of folders settle.  A client is its folder's
    entry; or its [stop] was called, and its watchers are live only until that settles, unless it is rejected,
    or until the handler that stopped it goes on; or its start failed, and its watchers are live only until it is
    disposed of; or an older client of the same folder failed to start, which is the one way to lose an entry. A folder's entry is
    its newest client, one that was not stopped and did not fail. *)
Theorem clients_accounted folders events s : run events (initial folders) = Some s →
  (∀ id c, ex_all s !! id = Some c → fate (ex_clients s) (ex_all s) (ex_waits s) id c) ∧
  (∀ key id, mget key (ex_clients s) = Some id → entry_ok (ex_all s) key id).
Proof. intros H. apply clients_run_inv in H as [_ He _ _ Hf]; [done|apply initial_inv]. Qed.

(** A restart is asked for while a server of a folder starts: its start fails after the restart made another. *)
Definition example_folder : folder := Folder "file:///w" true.
Definition example_events : list event :=
  [Activated (λ _, true); RestartCommand; StopSettled 0 false; Resumed 0 (λ _, true); StartSettled 1 true; StartSettled 0 false; DisposeSettled 0 true].
Definition example_state : extension :=
  Extension [] [Client "file:///w" Rejected (Some (Stopping false Rejected)) (Some Fulfilled) false; Client "file:///w" Fulfilled None None true] [] [example_folder] (Activating 1).

Lemma clients_accounted_witness : fate [] (ex_all example_state) [] 1 (Client "file:///w" Fulfilled None None true).
Proof.
  destruct (clients_accounted [example_folder] example_events example_state) as [H _]; [vm_compute; done|].
  exact (H 1%nat (Client "file:///w" Fulfilled None None true) eq_refl).
Defined.

(** The running server of the folder has no entry then, nobody will stop it, and a second one is started beside it. *)
Example restart_orphans_server :
  run example_events (initial [example_folder]) = Some example_state ∧
  ∃ s, run [FoldersChanged [] [example_folder]; Resumed 0 (λ _, true)] example_state = Some s ∧
    mget "file:///w" (ex_clients s) = Some 2%nat ∧ ex_all s !! 1%nat = Some (Client "file:///w" Fulfilled None None true).
Proof. split; [vm_compute; done|]. eexists. split; [vm_compute; done|]. by vm_compute. Qed.

(** [stopClient] leaves the watchers of a client whose [stop] is rejected, which a restart disposes of. *)
Example rejected_stop_keeps_watchers :
  (∃ s, run [Activated (λ _, true); StartSettled 0 true; FoldersChanged [example_folder] []; StopSettled 0 false; Resumed 0 (λ _, true)] (initial [example_folder]) = Some s ∧
    cl_watching <$> ex_all s !! 0%nat = Some true ∧ ex_waits s = []) ∧
  (∃ s, run [Activated (λ _, true); StartSettled 0 true; RestartCommand; StopSettled 0 false; Resumed 0 (λ _, true)] (initial [example_folder]) = Some s ∧
    cl_watching <$> ex_all s !! 0%nat = Some false).
Proof. split; eexists; (split; [vm_compute; done|]); by vm_compute. Qed.

(** Settings of one folder that cannot be read: the other folder's server is started, and activation fails, so that no change of
    folders or settings is handled any more. *)
Example unreadable_settings_reject :
  ∃ s, run [Activated (λ uri, negb (String.eqb uri "file:///b")); StartSettled 0 true; FoldersChanged [] [Folder "file:///c" true]]
      (initial [example_folder; Folder "file:///b" true]) = Some s ∧
    ex_activated s = ActivationFailed ∧ ex_clients s = [("file:///w", 0%nat)] ∧ handlers_registered s = false ∧ length (ex_all s) = 1%nat.
Proof. eexists. split; [vm_compute; done|]. by vm_compute. Qed.
