(* ===== verification/ExtensionCommands.v ===== *)
(** Two commands of the editor's extension, [checkFunctionForTraceBlockers] and [migrateAnnotatedLua] of
    [src/editors/vscode/extension.js].

    A command asks the editor, a language server and the user, and has the editor do things.  What each of them
    answers is a parameter; what the command has done is a log of calls, kept when it throws. *)

From S2P Require Import Prelude Wire NodePath.

(** ** Documents *)

Record position := Position { po_line : Z; po_character : Z }.
Record range := Range { rg_start : position; rg_end : position }.

(** A document: its URI as text, its scheme, its path, its language and its text. *)
Record document := Document { d_uri : string; d_scheme : string; d_fsPath : list byte; d_languageId : string; d_text : string }.

(** What a command is called with, and the active editor. *)
Record target := Target { tg_uri : option string; tg_position : option position }.
Record editor := Editor { ed_document : document; ed_active : position }.

Inductive severity := SError | SWarning | SInformation.
Record diagnostic := Diagnostic { dg_range : range; dg_message : string; dg_severity : severity; dg_code : string }.

Inductive edit :=
| CreateFile (uri : string)
| Insert (uri : string) (at_ : position) (text : string)
| DeleteFile (uri : string).

Inductive call :=
| ShowInformation (text : string) (items : list string)
| ShowWarning (text : string) (items : list string)
| ShowError (text : string)
| ClearDiagnostics (uri : string)
| SetDiagnostics (uri : string) (diagnostics : list diagnostic)
| ApplyEdit (edits : list edit)
| ShowDocument (uri : string).

Definition say (c : call) : js (list call) () := modify (λ log, log ++ [c]).

(** [a || b] for a text that may be missing. *)
Definition or_else (a : option string) (b : string) : string :=
  match a with Some s => if String.eqb s "" then b else s | None => b end.

(** The document of a command: the one it names, or the active editor's. *)
Definition target_document (open_ : string → res document) (t : option target) (e : option editor) : js (list call) (option document) :=
  match t ≫= tg_uri with
  | Some uri => d ← lift (open_ uri); mret (Some d)
  | None => mret (ed_document <$> e)
  end.

(** ** The trace check *)

Record finding := Finding {
  fi_class : string; fi_reason : string; fi_message : option string; fi_range : option range; fi_callPath : option (list string)
}.
Record trace_result := TraceResult {
  tr_name : string; tr_range : range; tr_findings : option (list finding); tr_addContract : option (range * string)
}.

Definition severity_of (f : finding) : severity :=
  if String.eqb (fi_class f) "blocker" then SError else if String.eqb (fi_class f) "risk" then SWarning else SInformation.

Definition finding_path (f : finding) : string :=
  match fi_callPath f with
  | Some (a :: b :: path) => " via " +:+ String.concat " → " (a :: b :: path)
  | _ => ""
  end.

Definition finding_diagnostic (r : trace_result) (f : finding) : diagnostic :=
  Diagnostic (default (tr_range r) (fi_range f)) (fi_reason f +:+ finding_path f +:+ ": " +:+ or_else (fi_message f) (fi_class f))
    (severity_of f) (fi_reason f).

Definition trace_summary (r : trace_result) (n : nat) : string :=
  match n with
  | O => tr_name r +:+ ": no catalogued unconditional trace blockers or conditional risks."
  | S m => tr_name r +:+ ": " +:+ pretty n +:+ " JIT trace finding" +:+ (match m with O => "" | _ => "s" end) +:+ "."
  end.

Definition ADD_CONTRACT : string := "Add @jit contract".

Section Trace.
Context (open_ : string → res document) (running : document → bool) (traceCheck : document → position → res (option trace_result)).
(** What the user picks of the items of a message. *)
Context (pick : list string → option string).

Definition checkFunctionForTraceBlockers (t : option target) (e : option editor) : js (list call) () :=
  d ← target_document open_ t e;
  let at_ := match t ≫= tg_position with Some p => Some p | None => ed_active <$> e end in
  match d, at_ with
  | Some d, Some at_ =>
      if negb (String.eqb (d_languageId d) "nupp") then say (ShowInformation "Open a Nupp function to check it for JIT trace blockers." [])
      else if negb (running d) then say (ShowError "No Nupp language server is running for this file.")
      else
        say (ClearDiagnostics (d_uri d)) ;;
        match traceCheck d at_ with
        | Throw detail => say (ShowError ("JIT trace check failed: " +:+ detail))
        | Ok None => say (ShowInformation "No checked Nupp function contains the cursor." [])
        | Ok (Some r) =>
            let diagnostics := finding_diagnostic r <$> default [] (tr_findings r) in
            say (SetDiagnostics (d_uri d) diagnostics) ;;
            let summary := trace_summary r (length diagnostics) in
            let add := match tr_addContract r with Some _ => Some ADD_CONTRACT | None => None end in
            let items := match add with Some a => [a] | None => [] end in
            say (ShowInformation summary items) ;;
            let choice := pick items in
            if bool_decide (choice = add) then
              match tr_addContract r with
              | Some (range, text) => say (ApplyEdit [Insert (d_uri d) (rg_start range) text])
              | None => throw "Cannot read properties of undefined (reading 'range')"
              end
            else mret tt
        end
  | _, _ => say (ShowInformation "Open a Nupp function to check it for JIT trace blockers." [])
  end.
End Trace.

(** ** Migration *)

Record migration_plan := MigrationPlan {
  pl_ok : bool; pl_error : option string; pl_destinationUri : string; pl_warnings : option nat; pl_text : string
}.

Section Migrate.
Context (open_ : string → res document) (running : document → bool) (migrate : document → res (option migration_plan)).
(** [vscode.Uri.parse(...).toString()] and [fsPath], whether [fs.stat] finds a file, the user's answer, and whether the editor applies an edit. *)
Context (parse : string → string) (fsPath : string → list byte) (stat : string → bool) (pick : list string → option string) (apply_ : list edit → bool).

Definition LUA : list byte := text_bytes ".lua".

Definition warnings_text (n : nat) : string :=
  match n with
  | O => "?"
  | S m => " (" +:+ pretty n +:+ " recoverable warning" +:+ (match m with O => "" | _ => "s" end) +:+ ")?"
  end.

Definition migration_edit (destination : string) (plan : migration_plan) (d : document) : list edit :=
  [CreateFile destination; Insert destination (Position 0 0) (pl_text plan); DeleteFile (d_uri d)].

Definition migrateAnnotatedLua (t : option target) (e : option editor) : js (list call) () :=
  d ← target_document open_ t e;
  match d with
  | Some d =>
      if negb (String.eqb (d_scheme d) "file") || negb (endsWith LUA (d_fsPath d))
      then say (ShowInformation "Open an annotated .lua file to migrate it to Nupp." [])
      else if negb (running d) then say (ShowError "No Nupp migration service is running for this file.")
      else
        match migrate d with
        | Throw detail => say (ShowError ("Annotated Lua migration failed: " +:+ detail))
        | Ok None => say (ShowError "Annotated Lua migration failed: no migration plan was returned")
        | Ok (Some plan) =>
            if negb (pl_ok plan)
            then say (ShowError ("Annotated Lua migration failed: " +:+ or_else (pl_error plan) "no migration plan was returned"))
            else
              let destination := parse (pl_destinationUri plan) in
              if stat destination then say (ShowError ("Migration destination already exists: " +:+ bytes_text (fsPath destination)))
              else
                say (ShowWarning ("Create " +:+ bytes_text (path_basename (fsPath destination)) +:+ " and remove " +:+
                  bytes_text (path_basename (d_fsPath d)) +:+ warnings_text (default O (pl_warnings plan))) ["Migrate"]) ;;
                if negb (bool_decide (pick ["Migrate"] = Some "Migrate")) then mret tt
                else
                  say (ApplyEdit (migration_edit destination plan d)) ;;
                  if negb (apply_ (migration_edit destination plan d))
                  then say (ShowError "VS Code could not apply the annotated Lua migration.")
                  else lift (open_ destination) ;; say (ShowDocument destination)
        end
  | None => say (ShowInformation "Open an annotated .lua file to migrate it to Nupp." [])
  end.
End Migrate.

(** ** What the commands edit *)

Definition edits_of (log : list call) : list (list edit) := omap (λ c, match c with ApplyEdit edits => Some edits | _ => None end) log.

(** The document a command is about: none where opening the one it names fails, or where there is no editor. *)
Definition document_of (open_ : string → res document) (t : option target) (e : option editor) : option document :=
  match t ≫= tg_uri with
  | Some uri => match open_ uri with Ok d => Some d | Throw _ => None end
  | None => ed_document <$> e
  end.

(** Everything agrees on migrating this document by this plan. *)
Definition agreed (running : document → bool) (migrate : document → res (option migration_plan)) (parse : string → string)
    (stat : string → bool) (pick : list string → option string) (d : document) (plan : migration_plan) : Prop :=
  d_scheme d = "file" ∧ endsWith LUA (d_fsPath d) = true ∧ running d = true ∧ migrate d = Ok (Some plan) ∧ pl_ok plan = true ∧
  stat (parse (pl_destinationUri plan)) = false ∧ pick ["Migrate"] = Some "Migrate".

(** No edit in this case. *)
Ltac no_edit := exists []; unfold edits_of; cbn [say modify snd mret js_ret]; rewrite ?omap_app; cbn [omap list_omap app]; rewrite ?app_nil_r;
  split; [done|]; split; [by left|]; intros edits; split; [done|intros (? & p & [= <-] & (? & ? & ? & ? & ? & ? & ?) & ?); congruence].

(** C37 A migration replaces a file once and only when everything agrees: one run of the command has the editor apply at most one edit, and
    it applies the edit that creates the destination with the plan's text and deletes the source exactly when there is a document
    (the one the command names opens, or an editor is active), it is a [.lua] file on disk, a server is running for it and returned
    a plan it calls good, nothing is at the destination, and the user confirmed; in every other case, no document and one that does not
    open included, no edit is applied. *)
Theorem migration_guarded open_ running migrate parse fsPath stat pick apply_ t e log :
  ∃ made, edits_of (migrateAnnotatedLua open_ running migrate parse fsPath stat pick apply_ t e log).2 = edits_of log ++ made ∧
    (made = [] ∨ ∃ edits, made = [edits]) ∧
    ∀ edits, made = [edits] ↔ ∃ d plan, document_of open_ t e = Some d ∧ agreed running migrate parse stat pick d plan ∧
      edits = migration_edit (parse (pl_destinationUri plan)) plan d.
Proof.
  unfold migrateAnnotatedLua, document_of.
  assert (target_document open_ t e log = match t ≫= tg_uri with
    | Some uri => (match open_ uri with Ok d => Ok (Some d) | Throw x => Throw x end, log) | None => (Ok (ed_document <$> e), log) end) as Ht.
  { unfold target_document. destruct (t ≫= tg_uri) as [uri|]; [|done]. unfold mbind, js_bind, lift. by destruct (open_ uri). }
  set (found := match t ≫= tg_uri with Some uri => match open_ uri with Ok d => Some d | Throw _ => None end | None => ed_document <$> e end).
  assert (target_document open_ t e log = (Ok found, log) ∨ found = None ∧ ∃ x, target_document open_ t e log = (Throw x, log)) as [Hd|[Hd (x & Hx)]].
  { rewrite Ht. unfold found. destruct (t ≫= tg_uri) as [uri|]; [|by left]. destruct (open_ uri) as [d|x]; [by left|right; split; [done|by exists x]]. }
  2:{ unfold mbind, js_bind. rewrite Hx, Hd. exists []. rewrite app_nil_r. split; [done|]. split; [by left|].
      intros edits. split; [done|]. by intros (? & ? & ? & _). }
  erewrite bind_run by exact Hd. clearbody found. clear Ht Hd. destruct found as [d|].
  2:{ exists []. unfold edits_of. cbn [say modify snd]. rewrite omap_app. cbn. rewrite ?app_nil_r. split; [done|]. split; [by left|].
      intros edits. split; [done|]. by intros (? & ? & ? & _). }
  destruct (String.eqb_spec (d_scheme d) "file") as [Hf|Hf]; cbn [negb orb]; [|no_edit].
  destruct (endsWith LUA (d_fsPath d)) eqn:Hl; cbn [negb]; [|no_edit].
  destruct (running d) eqn:Hr; cbn [negb]; [|no_edit].
  destruct (migrate d) as [[plan|]|detail] eqn:Hm; [|no_edit..].
  destruct (pl_ok plan) eqn:Hok; cbn [negb]; [|no_edit].
  destruct (stat (parse (pl_destinationUri plan))) eqn:Hs; [no_edit|].
  erewrite bind_run by reflexivity. case_bool_decide as Hp; cbn [negb]; [|no_edit].
  erewrite bind_run by reflexivity. exists [migration_edit (parse (pl_destinationUri plan)) plan d]. split; [|split].
  - match goal with |- context [apply_ ?m] => destruct (apply_ m) end; cbn [negb]; [destruct (open_ _) eqn:Ho|];
      unfold mbind, js_bind, lift; rewrite ?Ho; cbn [snd say modify]; unfold edits_of in *; rewrite !omap_app; cbn; by rewrite ?app_nil_r.
  - right. by eexists.
  - intros edits. split.
    + intros [= <-]. exists d, plan. by repeat split.
    + intros (d' & p & [= <-] & (_ & _ & _ & Hm' & _) & ->). by rewrite Hm' in Hm; injection Hm as ->.
Qed.

Definition example_document : document := Document "file:///w/a.lua" "file" (text_bytes "/w/a.lua") "lua" "-- x".
Definition example_plan : migration_plan := MigrationPlan true None "file:///w/a.nupp" (Some 1%nat) "x".

Example migration_applied : edits_of (migrateAnnotatedLua (λ _, Ok example_document) (λ _, true) (λ _, Ok (Some example_plan)) id text_bytes (λ _, false)
    (λ _, Some "Migrate") (λ _, true) None (Some (Editor example_document (Position 0 0))) []).2 =
  [migration_edit "file:///w/a.nupp" example_plan example_document].
Proof. vm_compute. done. Qed.

(** ** The trace check *)

(** A check that reaches its result: the diagnostics shown are those of the findings, in order, and the contract is inserted
    where the server says, exactly when the user asks for it. *)
Lemma trace_check_shown open_ running traceCheck pick t e log d p r range text :
  target_document open_ t e log = (Ok (Some d), log) → match t ≫= tg_position with Some p => Some p | None => ed_active <$> e end = Some p →
  d_languageId d = "nupp" → running d = true → traceCheck d p = Ok (Some r) → tr_addContract r = Some (range, text) →
  let diagnostics := finding_diagnostic r <$> default [] (tr_findings r) in
  checkFunctionForTraceBlockers open_ running traceCheck pick t e log =
    (Ok tt, log ++ [ClearDiagnostics (d_uri d); SetDiagnostics (d_uri d) diagnostics; ShowInformation (trace_summary r (length diagnostics)) [ADD_CONTRACT]] ++
      if bool_decide (pick [ADD_CONTRACT] = Some ADD_CONTRACT) then [ApplyEdit [Insert (d_uri d) (rg_start range) text]] else []).
Proof.
  intros Ht Hp Hl Hr Htc Ha. cbn zeta. unfold checkFunctionForTraceBlockers. rewrite (bind_run _ _ _ _ _ Ht), Hp, Hl, Hr, Htc, Ha.
  cbn [String.eqb Ascii.eqb Bool.eqb negb]. repeat erewrite bind_run by reflexivity. case_bool_decide; cbn [say modify mret js_ret]; unfold mret, js_ret, say, modify;
    by rewrite <- !app_assoc.
Qed.

(** A function without a contract to add: the message has no items, so its answer is [undefined] as [add] is, and the command goes on to
    read a contract that is not there. *)
Lemma check_without_contract_throws open_ running traceCheck pick t e log d p r :
  target_document open_ t e log = (Ok (Some d), log) → match t ≫= tg_position with Some p => Some p | None => ed_active <$> e end = Some p →
  d_languageId d = "nupp" → running d = true → traceCheck d p = Ok (Some r) → tr_addContract r = None → pick [] = None →
  ∃ e', (checkFunctionForTraceBlockers open_ running traceCheck pick t e log).1 = Throw e'.
Proof.
  intros Ht Hp Hl Hr Htc Ha Hpick. unfold checkFunctionForTraceBlockers. rewrite (bind_run _ _ _ _ _ Ht), Hp, Hl, Hr, Htc, Ha.
  cbn [String.eqb Ascii.eqb Bool.eqb negb]. repeat erewrite bind_run by reflexivity. rewrite Hpick, bool_decide_true by done. by eexists.
Qed.
