(* ===== verification/ExtensionArtifacts.v ===== *)
(** Generated documents of the editor's extension: the commands that open them, the cache behind them and their providers, in
    [src/editors/vscode/extension.js].

    A document's URI is its path with what its query carries; what it prints as is a parameter, as is what the language server
    answers.  The state is the module's cache with the calls made of the editor, in order. *)

From S2P Require Import Prelude Wire NodePath ArtifactViews.

(** ** Data *)

(** The server's answer, as the cache keeps it: [stale] is set by an edit of its source. *)
Record cached := Cached {
  ca_uri : string; ca_available : bool; ca_text : string; ca_languageId : option string; ca_unavailable : string;
  ca_mapping : option mapping; ca_stale : bool
}.

(** A source: the text of its URI and its path. *)
Record source := Source { so_text : string; so_fsPath : list byte }.

(** A generated document's URI. *)
Record gen_uri := GenUri { gu_path : string; gu_source : source; gu_kind : string; gu_optLevel : Z }.

Inductive view_call :=
| VInformation (text : string)
| VWarning (text : string)
| VError (text : string)
| VChanged (key : string)
| VSetLanguage (key : string) (language : string)
| VShow (key : string) (preserveFocus : bool)
| VFoldAll
| VShowSource (text : string)
| VReveal (key : string) (line : Z)
| VDiff (left right : string) (title : string).

Record artifacts := Artifacts { at_generated : jmap string cached; at_log : list view_call }.
Definition tell (c : view_call) : js artifacts () := modify (λ s, Artifacts (at_generated s) (at_log s ++ [c])).

Definition label_of (kind : string) : string :=
  if String.eqb kind "lua" then "Generated Lua" else if String.eqb kind "bytecode" then "Bytecode" else kind.

Definition generatedUri (s : source) (kind : string) (optLevel : Z) : gen_uri :=
  GenUri (bytes_text (path_basename (so_fsPath s)) +:+ ".O" +:+ pretty optLevel +:+ (if String.eqb kind "lua" then ".lua" else ".bc")) s kind optLevel.

Section Artifacts.
Context (key : gen_uri → string).
(** Whether a server runs for a source, and its answers. *)
Context (running : source → bool) (artifact_of : source → string → Z → res cached).
(** The editors that are visible, by the text of their document's URI. *)
Context (visible : list string).

Definition resolveArtifact (s : source) (kind : string) (optLevel : Z) : res cached :=
  if negb (running s) then Throw "No Nupp language server is running for this file." else artifact_of s kind optLevel.

Definition refreshArtifact (u : gen_uri) : js artifacts cached :=
  a ← lift (resolveArtifact (gu_source u) (gu_kind u) (gu_optLevel u));
  modify (λ s, Artifacts (mset (key u) a (at_generated s)) (at_log s)) ;;
  tell (VChanged (key u)) ;;
  mret a.

Definition is_collapsible (a : cached) : bool := match ca_mapping a with Some m => String.eqb (ma_kind m) "lines-collapsible" | None => false end.

Definition openArtifact (s : source) (kind : string) (optLevel : Z) : js artifacts (option gen_uri) :=
  let u := generatedUri s kind optLevel in
  r ← try_catch (a ← refreshArtifact u; mret (Some a)) (λ detail, tell (VError ("Could not resolve the artifact: " +:+ detail)) ;; mret None);
  match r with
  | None => mret None
  | Some a =>
      if negb (ca_available a) then tell (VWarning (label_of kind +:+ " is not available: " +:+ ca_unavailable a)) ;; mret None
      else
        match ca_languageId a with Some l => tell (VSetLanguage (key u) l) | None => mret tt end ;;
        let collapse := is_collapsible a in
        tell (VShow (key u) (negb collapse)) ;;
        when collapse (tell VFoldAll ;; when (bool_decide (so_text s ∈ visible)) (tell (VShowSource (so_text s)))) ;;
        mret (Some u)
  end.

(** [openGeneratedArtifact(kind, target)] for the source a command is about, if there is one; [optLevel] is the setting. *)
Definition openGeneratedArtifact (optLevel : source → Z) (s : option source) (kind : string) : js artifacts () :=
  match s with
  | None => tell (VInformation "Open a Nupp file to inspect what it compiles to.")
  | Some s => openArtifact s kind (optLevel s) ;; mret tt
  end.

(** [inspectCompiledFunction(target)]: the kinds the server lists, the one that is picked, and the line of the function, if a lens gave one. *)
Definition inspectCompiledFunction (optLevel : source → Z) (s : option source) (available : source → res (list string)) (pick : list string → option string) (line : option Z) : js artifacts () :=
  match s with
  | None => tell (VInformation "Open a Nupp file to inspect what it compiles to.")
  | Some s =>
      if negb (running s) then tell (VError "No Nupp language server is running for this file.")
      else
        match available s with
        | Throw detail => tell (VError ("Could not list compiled artifacts: " +:+ detail))
        | Ok [] => tell (VInformation "This server produces no artifacts for this file.")
        | Ok kinds =>
            match pick kinds with
            | None => mret tt
            | Some kind =>
                opened ← openArtifact s kind (optLevel s);
                match opened, line with
                | Some u, Some line =>
                    g ← gets at_generated;
                    match generatedLineFor ((λ a, Artifact (ca_mapping a)) <$> mget (key u) g) (line + 1) with
                    | Some l => when (bool_decide (key u ∈ visible)) (tell (VReveal (key u) l))
                    | None => mret tt
                    end
                | _, _ => mret tt
                end
            end
        end
  end.

(** [compareGeneratedArtifacts(target)]: a kind and two levels are picked, the second of those that are left. *)
Definition LEVELS : list Z := [0; 1; 2].
Definition compareGeneratedArtifacts (s : option source) (pick_kind : option string) (pick : list Z → option Z) : js artifacts () :=
  match s with
  | None => tell (VInformation "Open a Nupp file to compare what it compiles to.")
  | Some s =>
      match pick_kind with
      | None => mret tt
      | Some kind =>
          match pick LEVELS with
          | None => mret tt
          | Some from =>
              match pick (filter (λ l, l ≠ from) LEVELS) with
              | None => mret tt
              | Some to =>
                  let leftUri := generatedUri s kind from in
                  let rightUri := generatedUri s kind to in
                  r ← try_catch (refreshArtifact leftUri ;; refreshArtifact rightUri ;; mret true)
                    (λ detail, tell (VError ("Could not resolve the artifacts: " +:+ detail)) ;; mret false);
                  when r (tell (VDiff (key leftUri) (key rightUri) (label_of kind +:+ ": -O" +:+ pretty from +:+ " ↔ -O" +:+ pretty to)))
              end
          end
      end
  end.

(** The content provider. *)
Definition provideTextDocumentContent (k : string) (s : artifacts) : string :=
  match mget k (at_generated s) with Some a => if ca_available a then ca_text a else "" | None => "" end.

(** The handler of an edit: every artifact of the edited file is marked. *)
Definition mark_stale (a : cached) : cached :=
  Cached (ca_uri a) (ca_available a) (ca_text a) (ca_languageId a) (ca_unavailable a) (ca_mapping a) true.
Definition document_edited (text : string) : js artifacts () :=
  modify (λ s, Artifacts ((λ p, if String.eqb (ca_uri p.2) text then (p.1, mark_stale p.2) else p) <$> at_generated s) (at_log s)).

(** The folding provider of a generated Lua document of [lineCount] lines; [ranges] is the server's answer for its source. *)
Definition provideFoldingRanges (k : string) (sourceRunning : bool) (ranges : res (option (list (Z * Z)))) (lineCount : Z) (s : artifacts) : list (Z * Z) :=
  match mget k (at_generated s) with
  | Some a =>
      match ca_mapping a with
      | Some m =>
          if negb (String.eqb (ma_kind m) "line-identity") || negb sourceRunning then []
          else
            match ranges with
            | Throw _ => []
            | Ok ranges =>
                let last := Z.max 0 (lineCount - 1) in
                (λ r, (Z.min r.1 last, Z.min r.2 last)) <$> filter (λ r, r.1 < last) (default [] ranges)
            end
      | None => []
      end
  | None => []
  end.
End Artifacts.

(** ** Opened documents *)

Section Opened.
Context (key : gen_uri → string) (running : source → bool) (artifact_of : source → string → Z → res cached) (visible : list string).

Lemma refresh_Ok u s a s' : refreshArtifact key running artifact_of u s = (Ok a, s') →
  running (gu_source u) = true ∧ artifact_of (gu_source u) (gu_kind u) (gu_optLevel u) = Ok a ∧
  s' = Artifacts (mset (key u) a (at_generated s)) (at_log s ++ [VChanged (key u)]).
Proof.
  unfold refreshArtifact, resolveArtifact. destruct (running (gu_source u)); cbn [negb]; [|done].
  intros (a' & s1 & [= Ha <-] & H)%bind_Ok. by injection H as -> <-.
Qed.

Lemma refresh_Throw u s e s' : refreshArtifact key running artifact_of u s = (Throw e, s') → s' = s.
Proof.
  unfold refreshArtifact, resolveArtifact, mbind, js_bind, lift. destruct (negb _); [by intros [= _ <-]|]. by destruct (artifact_of _ _ _); intros [= _ <-].
Qed.

(** What changes the log and not the cache. *)
Definition logs (m : js artifacts ()) : Prop := ∀ s, ∃ l, m s = (Ok tt, Artifacts (at_generated s) (at_log s ++ l)).
Lemma logs_tell c : logs (tell c).
Proof. intros s. by exists [c]. Qed.
Lemma logs_ret : logs (mret tt).
Proof. intros [g l]. exists []. by rewrite app_nil_r. Qed.
Lemma logs_seq m m' : logs m → logs m' → logs (m ;; m').
Proof.
  intros H H' s. destruct (H s) as [l E]. rewrite (bind_run _ _ _ _ _ E). destruct (H' (Artifacts (at_generated s) (at_log s ++ l))) as [l' E'].
  rewrite E'. exists (l ++ l'). by rewrite app_assoc.
Qed.
Lemma logs_when b m : logs m → logs (when b m).
Proof. destruct b; [done|]. intros _. apply logs_ret. Qed.

(** A generated document shows what the server made of its source. When [openArtifact] opens one, the server runs, its answer for that source,
    kind and level is available, the editor was told to read the document again before it was shown, and what the content provider
    gives it is the text of that answer; and when it opens none, a message says why and a document
    that failed to resolve keeps what it showed. *)
Theorem opened_document_shows src kind level s r s' : openArtifact key running artifact_of visible src kind level s = (Ok r, s') →
  match r with
  | Some u => u = generatedUri src kind level ∧ running src = true ∧
      (∃ a before after focus, artifact_of src kind level = Ok a ∧ ca_available a = true ∧ provideTextDocumentContent (key u) s' = ca_text a ∧
        at_log s' = at_log s ++ VChanged (key u) :: before ++ VShow (key u) focus :: after)
  | None => (∃ c, at_log s' = at_log s ++ [VError c] ∧ at_generated s' = at_generated s) ∨
      (∃ a c, artifact_of src kind level = Ok a ∧ ca_available a = false ∧ at_log s' = at_log s ++ [VChanged (key (generatedUri src kind level)); VWarning c])
  end.
Proof.
  unfold openArtifact. set (u := generatedUri src kind level). intros (ro & s1 & Htry & H)%bind_Ok. unfold try_catch in Htry.
  destruct ((a ← refreshArtifact key running artifact_of u; mret (Some a)) s) as [[ro'|e] s0] eqn:Er.
  - injection Htry as -> ->. apply bind_Ok in Er as (a & s2 & (Hrun & Ha & ->)%refresh_Ok & [= <- <-]).
    destruct (ca_available a) eqn:Hav; cbn [negb] in H.
    + assert (logs (match ca_languageId a with Some l => tell (VSetLanguage (key u) l) | None => mret tt end)) as Hlang
        by (destruct (ca_languageId a); [apply logs_tell|apply logs_ret]).
      apply bind_Ok in H as ([] & s3 & Hl3 & H). destruct (Hlang (Artifacts (mset (key u) a (at_generated s)) (at_log s ++ [VChanged (key u)]))) as [before Eb].
      rewrite Eb in Hl3. injection Hl3 as <-. apply bind_Ok in H as ([] & s4 & [= <-] & H). apply bind_Ok in H as ([] & s5 & Hc & [= <- <-]).
      match type of Hc with when ?b ?m ?st = _ => destruct (logs_when b m (logs_seq _ _ (logs_tell _) (logs_when _ _ (logs_tell _))) st) as [after Ea] end.
      rewrite Ea in Hc. injection Hc as <-. split; [done|]. split; [done|]. exists a, before, after, (negb (is_collapsible a)).
      split; [done|]. split; [done|]. split; [unfold provideTextDocumentContent; cbn; by rewrite mget_mset_eq, Hav|]. cbn. by rewrite <- !app_assoc.
    + apply bind_Ok in H as ([] & s3 & [= <-] & [= <- <-]). right. exists a. eexists. cbn. rewrite <- app_assoc. by repeat split.
  - apply bind_Ok in Htry as ([] & s2 & [= <-] & [= <- <-]). injection H as <- <-. left. eexists. cbn.
    unfold mbind, js_bind in Er. destruct (refreshArtifact key running artifact_of u s) as [[a|e'] s3] eqn:E; [done|].
    apply refresh_Throw in E as ->. injection Er as _ <-. done.
Qed.

(** An edit changes nothing a reader sees: [stale] is set and not read. *)
Lemma edit_keeps_content text k s s' : document_edited text s = (Ok tt, s') → provideTextDocumentContent k s' = provideTextDocumentContent k s.
Proof.
  intros [= <-]. unfold provideTextDocumentContent. cbn. induction (at_generated s) as [|[k' a] l IH]; cbn; [done|].
  destruct (String.eqb (ca_uri a) text); cbn; by case_decide.
Qed.

(** Folds of a generated document lie in it: every range the provider answers starts before the document's last line and ends on or before it, a range
    the server ordered stays ordered, and a document that does not stand line for line with its source, or whose
    source has no server, has none. *)
Theorem folds_in_document k sourceRunning ranges lineCount s : 1 <= lineCount →
  (∀ r, r ∈ provideFoldingRanges k sourceRunning ranges lineCount s → r.1 < lineCount - 1 ∧ r.2 <= lineCount - 1 ∧
     ∃ r0 l, ranges = Ok (Some l) ∧ r0 ∈ l ∧ r.1 = r0.1 ∧ (r0.1 <= r0.2 → r.1 <= r.2)) ∧
  (provideFoldingRanges k sourceRunning ranges lineCount s ≠ [] → sourceRunning = true ∧
     ∃ a m, mget k (at_generated s) = Some a ∧ ca_mapping a = Some m ∧ ma_kind m = "line-identity").
Proof.
  intros Hc. unfold provideFoldingRanges. destruct (mget k (at_generated s)) as [a|] eqn:Eg; [|by split; [intros r ?%elem_of_nil|]].
  destruct (ca_mapping a) as [m|] eqn:Em; [|by split; [intros r ?%elem_of_nil|]].
  destruct (String.eqb_spec (ma_kind m) "line-identity") as [Hk|Hk]; cbn [negb orb]; [|by split; [intros r ?%elem_of_nil|]].
  destruct sourceRunning; cbn [negb]; [|by split; [intros r ?%elem_of_nil|]].
  destruct ranges as [[l|]|]; [|by split; [intros r ?%elem_of_nil|]..].
  split; [|intros _; split; [done|]; by exists a, m].
  intros r ([a0 b0] & -> & [Hlt Hin]%list_elem_of_filter)%list_elem_of_fmap. cbn [fst snd default] in *.
  rewrite Z.max_r in * by lia. split; [lia|]. split; [lia|]. exists (a0, b0), l. cbn. repeat split; [done|lia|lia].
Qed.
End Opened.

Definition example_source : source := Source "file:///w/a.nupp" (text_bytes "/w/a.nupp").
Definition example_answer : cached := Cached "file:///w/a.nupp" true "return 1" (Some "lua") "" (Some (Mapping "line-identity" [])) false.
Definition example_key (u : gen_uri) : string := gu_path u.
Definition example_opened : res (option gen_uri) * artifacts :=
  openArtifact example_key (λ _, true) (λ _ _ _, Ok example_answer) [] example_source "lua" 2 (Artifacts [] []).

Lemma opened_document_shows_witness :
  provideTextDocumentContent "a.nupp.O2.lua" example_opened.2 = "return 1".
Proof.
  destruct (opened_document_shows example_key (λ _, true) (λ _ _ _, Ok example_answer) [] example_source "lua" 2 (Artifacts [] [])
    (Some (generatedUri example_source "lua" 2)) example_opened.2) as (_ & _ & a & _ & _ & _ & [= <-] & _ & H & _); [vm_compute; done|exact H].
Defined.

Lemma folds_in_document_witness : (2, 4).1 < 5 - 1 ∧ (2, 4).2 <= 5 - 1.
Proof.
  destruct (folds_in_document "a.nupp.O2.lua" true (Ok (Some [(2, 9); (4, 5)])) 5 example_opened.2) as [H _]; [lia|].
  destruct (H (2, 4)) as (H1 & H2 & _); [vm_compute; left|]. by split.
Defined.
