(* ===== verification/DocCompiler.v ===== *)
(** The compiler of a documentation page: [CompilerClient] of [src/editors/playground/src/doc-app.js].

    One Worker serves every editor of a page.  Requests are queued and one runs at a time; a hover may take two messages, a check
    and the hover, which no other request comes between.  An event is a request, a message of a Worker, or [close]; the
    promise reactions an event sets off run before the next event, as they do in a browser.  The log of the traffic with the Workers
    and the outcomes of the requests are kept for the specification. *)

From S2P Require Import Prelude.

(** ** State *)

Inductive operation := OCheck (source : string) | OCompile (source : string) | OHover (source : string) (offset : Z).
Inductive message := MCheck (source : string) | MCompile (source : string) | MHover (offset : Z).
Record reply := Reply { rp_ok : bool; rp_error : string }.

Inductive outcome := Resolved (r : reply) | Rejected (e : string).

(** What goes to a Worker and comes from it. *)
Inductive traffic :=
| Created (w : nat)
| Booted (w : nat)
| Posted (w : nat) (id : Z) (n : nat) (m : message)
| Answered (w : nat) (id : Z) (ok : bool)
| Terminated (w : nat).

(** The request that runs: it waits for the Worker, to post a message, or for the answer to one. *)
Inductive stage := Boot (m : message) | Await (id : Z) (m : message).
Record running := Running { rn_request : nat; rn_op : operation; rn_stage : stage }.

Record compiler := Compiler {
  cp_worker : option nat; cp_isReady : bool;
  cp_nextId : Z; cp_pending : list Z;
  cp_queue : list (nat * Z * operation); cp_running : option running;
  cp_lastSource : option string; cp_generation : Z;
  (** every request made, the Workers made, the traffic, and how requests ended *)
  cp_requests : list operation; cp_workers : nat; cp_log : list traffic; cp_results : list (nat * outcome)
}.

Definition new_compiler : compiler := Compiler None false 1 [] [] None None 0 [] 0 [] [].

Definition set_worker (w : option nat) (ready : bool) (c : compiler) : compiler :=
  Compiler w ready (cp_nextId c) (cp_pending c) (cp_queue c) (cp_running c) (cp_lastSource c) (cp_generation c) (cp_requests c) (cp_workers c) (cp_log c) (cp_results c).
Definition set_pending (next : Z) (pending : list Z) (c : compiler) : compiler :=
  Compiler (cp_worker c) (cp_isReady c) next pending (cp_queue c) (cp_running c) (cp_lastSource c) (cp_generation c) (cp_requests c) (cp_workers c) (cp_log c) (cp_results c).
Definition set_queue (q : list (nat * Z * operation)) (c : compiler) : compiler :=
  Compiler (cp_worker c) (cp_isReady c) (cp_nextId c) (cp_pending c) q (cp_running c) (cp_lastSource c) (cp_generation c) (cp_requests c) (cp_workers c) (cp_log c) (cp_results c).
Definition set_running (r : option running) (c : compiler) : compiler :=
  Compiler (cp_worker c) (cp_isReady c) (cp_nextId c) (cp_pending c) (cp_queue c) r (cp_lastSource c) (cp_generation c) (cp_requests c) (cp_workers c) (cp_log c) (cp_results c).
Definition set_lastSource (s : option string) (c : compiler) : compiler :=
  Compiler (cp_worker c) (cp_isReady c) (cp_nextId c) (cp_pending c) (cp_queue c) (cp_running c) s (cp_generation c) (cp_requests c) (cp_workers c) (cp_log c) (cp_results c).
Definition bump_generation (c : compiler) : compiler :=
  Compiler (cp_worker c) (cp_isReady c) (cp_nextId c) (cp_pending c) (cp_queue c) (cp_running c) (cp_lastSource c) (cp_generation c + 1) (cp_requests c) (cp_workers c) (cp_log c) (cp_results c).
Definition add_request (op : operation) (c : compiler) : compiler :=
  Compiler (cp_worker c) (cp_isReady c) (cp_nextId c) (cp_pending c) (cp_queue c) (cp_running c) (cp_lastSource c) (cp_generation c) (cp_requests c ++ [op]) (cp_workers c) (cp_log c) (cp_results c).
Definition add_worker (c : compiler) : compiler :=
  Compiler (cp_worker c) (cp_isReady c) (cp_nextId c) (cp_pending c) (cp_queue c) (cp_running c) (cp_lastSource c) (cp_generation c) (cp_requests c) (S (cp_workers c)) (cp_log c) (cp_results c).
Definition add_log (t : traffic) (c : compiler) : compiler :=
  Compiler (cp_worker c) (cp_isReady c) (cp_nextId c) (cp_pending c) (cp_queue c) (cp_running c) (cp_lastSource c) (cp_generation c) (cp_requests c) (cp_workers c) (cp_log c ++ [t]) (cp_results c).
Definition add_result (n : nat) (o : outcome) (c : compiler) : compiler :=
  Compiler (cp_worker c) (cp_isReady c) (cp_nextId c) (cp_pending c) (cp_queue c) (cp_running c) (cp_lastSource c) (cp_generation c) (cp_requests c) (cp_workers c) (cp_log c) (cp_results c ++ [(n, o)]).

(** ** Operations *)

(** [start()]: the Worker there is, or a new one. *)
Definition start (c : compiler) : compiler :=
  match cp_worker c with
  | Some _ => c
  | None => add_log (Created (cp_workers c)) (add_worker (set_worker (Some (cp_workers c)) false c))
  end.

(** The part of [raw] after its [await], for the request that runs. *)
Definition post (n : nat) (op : operation) (m : message) (c : compiler) : compiler :=
  match cp_worker c with
  | Some w =>
      let id := cp_nextId c in
      add_log (Posted w id n m) (set_running (Some (Running n op (Await id m))) (set_pending (id + 1) (cp_pending c ++ [id]) c))
  | None => c
  end.

(** [raw(kind, payload)]. *)
Definition raw (n : nat) (op : operation) (m : message) (c : compiler) : compiler :=
  let c := start c in
  if cp_isReady c then post n op m c else set_running (Some (Running n op (Boot m))) c.

(** The first message of an operation. *)
Definition begin_operation (n : nat) (op : operation) (c : compiler) : compiler :=
  match op with
  | OCheck source => raw n op (MCheck source) c
  | OCompile source => raw n op (MCompile source) c
  | OHover source offset => if bool_decide (cp_lastSource c = Some source) then raw n op (MHover offset) c else raw n op (MCheck source) c
  end.

(** The queue goes on: requests of an earlier generation are cancelled, the next one starts. *)
Fixpoint advance (queue : list (nat * Z * operation)) (c : compiler) : compiler :=
  match queue with
  | [] => set_queue [] c
  | (n, generation, op) :: queue' =>
      if negb (generation =? cp_generation c) then advance queue' (add_result n (Rejected "Compiler request cancelled") c)
      else begin_operation n op (set_queue queue' c)
  end.

Definition settle (n : nat) (o : outcome) (c : compiler) : compiler :=
  advance (cp_queue c) (add_result n o (set_running None c)).

(** What a request does with an answer. *)
Definition answered (n : nat) (op : operation) (m : message) (r : reply) (c : compiler) : compiler :=
  match op, m with
  | OCheck source, _ => settle n (Resolved r) (if rp_ok r then set_lastSource (Some source) c else c)
  | OHover source offset, MCheck _ =>
      if rp_ok r then raw n op (MHover offset) (set_lastSource (Some source) c) else settle n (Resolved r) c
  | _, _ => settle n (Resolved r) c
  end.

(** [close(reason)], with the reactions to what it settles. *)
Definition close (reason : string) (c : compiler) : compiler :=
  let c := bump_generation c in
  let c := match cp_worker c with Some w => add_log (Terminated w) c | None => c end in
  let c := set_lastSource None (set_worker None false (set_pending (cp_nextId c) [] c)) in
  match cp_running c with
  | None => c
  | Some (Running n op (Boot m)) => settle n (Rejected reason) c
  | Some (Running n op (Await id m)) => answered n op m (Reply false reason) c
  end.

(** [run(operation)]. *)
Definition request (op : operation) (c : compiler) : compiler :=
  let n := length (cp_requests c) in
  let c := set_queue (cp_queue c ++ [(n, cp_generation c, op)]) (add_request op c) in
  match cp_running c with None => advance (cp_queue c) c | Some _ => c end.

(** The messages of a Worker; those of one that is not the current one are ignored. *)
Definition ready (w : nat) (c : compiler) : compiler :=
  if negb (bool_decide (cp_worker c = Some w)) || cp_isReady c then c
  else
    let c := add_log (Booted w) (set_worker (Some w) true c) in
    match cp_running c with
    | Some (Running n op (Boot m)) => post n op m c
    | _ => c
    end.

Definition boot_error (w : nat) (reason : string) (c : compiler) : compiler :=
  if bool_decide (cp_worker c = Some w) then close reason c else c.

Definition answer (w : nat) (id : Z) (r : reply) (c : compiler) : compiler :=
  if negb (bool_decide (cp_worker c = Some w)) || negb (bool_decide (id ∈ cp_pending c)) then c
  else
    let c := add_log (Answered w id (rp_ok r)) (set_pending (cp_nextId c) (filter (λ i, i ≠ id) (cp_pending c)) c) in
    match cp_running c with
    | Some (Running n op (Await id' m)) => if id =? id' then answered n op m r c else c
    | _ => c
    end.

Inductive event :=
| Request (op : operation)
| Ready (w : nat)
| BootError (w : nat) (reason : string)
| Answer (w : nat) (id : Z) (r : reply)
| Close (reason : string).

Definition step (c : compiler) (e : event) : compiler :=
  match e with
  | Request op => request op c
  | Ready w => ready w c
  | BootError w reason => boot_error w reason c
  | Answer w id r => answer w id r c
  | Close reason => close reason c
  end.
Definition run (events : list event) (c : compiler) : compiler := foldl step c events.

(** ** What a Worker sees *)

(** A compiler Worker: it takes a message once it is ready and has answered the last one, and a hover reads the parse of
    the latest check it answered. *)
Record server := Server { sv_worker : nat; sv_ready : bool; sv_parse : option string; sv_outstanding : option (Z * message) }.

(** A message of a request: its own, or the check before its hover; a hover is for the source that is parsed. *)
Definition fits (op : operation) (m : message) (parse : option string) : bool :=
  match op, m with
  | OCheck a, MCheck b => bool_decide (a = b)
  | OCompile a, MCompile b => bool_decide (a = b)
  | OHover a _, MCheck b => bool_decide (a = b)
  | OHover a o, MHover o' => bool_decide (o = o') && bool_decide (parse = Some a)
  | _, _ => false
  end.

Definition parse_after (s : server) (m : message) (ok : bool) : option string :=
  match m with MCheck source => if ok then Some source else sv_parse s | _ => sv_parse s end.

(** One Worker at a time, used as it wants to be. *)
Definition spec_step (requests : list operation) (s : option server) (t : traffic) : option (option server) :=
  match s, t with
  | None, Created w => Some (Some (Server w false None None))
  | Some v, Booted w => if bool_decide (w = sv_worker v) && negb (sv_ready v) then Some (Some (Server w true (sv_parse v) (sv_outstanding v))) else None
  | Some v, Posted w id n m =>
      match requests !! n, sv_outstanding v with
      | Some op, None => if bool_decide (w = sv_worker v) && sv_ready v && fits op m (sv_parse v) then Some (Some (Server w true (sv_parse v) (Some (id, m)))) else None
      | _, _ => None
      end
  | Some v, Answered w id ok =>
      match sv_outstanding v with
      | Some (id', m) => if bool_decide (w = sv_worker v) && (id =? id') then Some (Some (Server w (sv_ready v) (parse_after v m ok) None)) else None
      | None => None
      end
  | Some v, Terminated w => if bool_decide (w = sv_worker v) then Some None else None
  | _, _ => None
  end.

Definition spec_run (requests : list operation) (log : list traffic) : option (option server) :=
  foldl (λ s t, s ≫= λ v, spec_step requests v t) (Some None) log.

(** The Worker as the client has it. *)
Definition outstanding (c : compiler) : option (Z * message) :=
  match cp_running c with Some (Running _ _ (Await id m)) => Some (id, m) | _ => None end.
Definition worker_view (c : compiler) (o : option (Z * message)) : option server :=
  (λ w, Server w (cp_isReady c) (cp_lastSource c) o) <$> cp_worker c.

Lemma spec_run_snoc requests log t : spec_run requests (log ++ [t]) = spec_run requests log ≫= λ v, spec_step requests v t.
Proof. unfold spec_run. by rewrite foldl_app. Qed.

Lemma spec_step_more requests op s t s' : spec_step requests s t = Some s' → spec_step (requests ++ [op]) s t = Some s'.
Proof.
  destruct s as [v|], t; cbn; try done. destruct (requests !! n) as [op'|] eqn:E; [|done]. by rewrite (lookup_app_l_Some _ _ _ _ E).
Qed.

Lemma spec_run_more requests op log s : spec_run requests log = Some s → spec_run (requests ++ [op]) log = Some s.
Proof.
  revert s. induction log as [|t log IH] using rev_ind; intros s; [done|]. rewrite !spec_run_snoc.
  destruct (spec_run requests log) as [v|]; [|done]. rewrite (IH v eq_refl). apply spec_step_more.
Qed.

(** ** The invariant *)

Definition queue_ok (c : compiler) (q : list (nat * Z * operation)) : Prop :=
  Forall (λ e, cp_requests c !! e.1.1 = Some e.2 ∧ e.1.2 <= cp_generation c) q.
Definition order_ok (c : compiler) (rest : list nat) : Prop := (cp_results c).*1 ++ rest = seq 0 (length (cp_requests c)).

(** Between messages: the request [n] is the one that runs. *)
Record resting (ns : list nat) (q : list (nat * Z * operation)) (c : compiler) : Prop := Resting {
  rs_spec : spec_run (cp_requests c) (cp_log c) = Some (worker_view c None);
  rs_pending : cp_pending c = [];
  rs_ready : cp_isReady c = true → is_Some (cp_worker c);
  rs_last : is_Some (cp_lastSource c) → cp_isReady c = true;
  rs_queue : queue_ok c q;
  rs_order : order_ok c (ns ++ q.*1.*1)
}.

Record running_ok (c : compiler) (r : running) : Prop := RunningOk {
  ro_request : cp_requests c !! rn_request r = Some (rn_op r);
  ro_stage : match rn_stage r with
             | Boot m => is_Some (cp_worker c) ∧ cp_isReady c = false ∧ fits (rn_op r) m (cp_lastSource c) = true
             | Await id m => is_Some (cp_worker c) ∧ cp_isReady c = true ∧ fits (rn_op r) m (cp_lastSource c) = true
             end
}.

Record compiler_inv (c : compiler) : Prop := CompilerInv {
  ci_spec : spec_run (cp_requests c) (cp_log c) = Some (worker_view c (outstanding c));
  ci_pending : cp_pending c = match outstanding c with Some (id, _) => [id] | None => [] end;
  ci_ready : cp_isReady c = true → is_Some (cp_worker c);
  ci_last : is_Some (cp_lastSource c) → cp_isReady c = true;
  ci_queue : queue_ok c (cp_queue c);
  ci_running : match cp_running c with Some r => running_ok c r | None => cp_queue c = [] end;
  ci_order : order_ok c (match cp_running c with Some r => [rn_request r] | None => [] end ++ (cp_queue c).*1.*1)
}.

(** The fields of a state after its updates. *)
Ltac fields := cbn [add_log add_result add_request add_worker bump_generation set_running set_pending set_queue set_worker set_lastSource
  cp_worker cp_isReady cp_nextId cp_pending cp_queue cp_running cp_lastSource cp_generation cp_requests cp_workers cp_log cp_results rn_request rn_op rn_stage].

Lemma post_inv n op m c : resting [n] (cp_queue c) c → cp_requests c !! n = Some op → fits op m (cp_lastSource c) = true → cp_isReady c = true →
  compiler_inv (post n op m c).
Proof.
  intros [Hs Hp Hr Hl Hq Ho] Hn Hf Hrd. destruct (Hr Hrd) as [w Hw]. unfold post. rewrite Hw.
  constructor; fields; try done.
  - rewrite spec_run_snoc, Hs. unfold worker_view, outstanding. cbn. rewrite Hw. cbn. rewrite Hn, Hrd, bool_decide_true, Hf by done. done.
  - by rewrite Hp.
Qed.

Lemma start_resting ns q c : resting ns q c → resting ns q (start c) ∧ is_Some (cp_worker (start c)) ∧ cp_lastSource (start c) = cp_lastSource c ∧
  cp_requests (start c) = cp_requests c ∧ cp_queue (start c) = cp_queue c.
Proof.
  intros Hc. pose proof Hc as [Hs Hp Hr Hl Hq Ho]. unfold start. destruct (cp_worker c) as [w|] eqn:Hw; [by rewrite Hw; eauto|].
  assert (cp_isReady c = false) as Hrd by (destruct (cp_isReady c); [by destruct (Hr eq_refl)|done]).
  assert (cp_lastSource c = None) as Hln by (destruct (cp_lastSource c) as [s|]; [by rewrite Hl in Hrd by eauto|done]).
  split; [|by eauto]. constructor; fields; try done; [|by rewrite Hln; intros [? [=]]].
  rewrite spec_run_snoc, Hs. unfold worker_view. cbn. by rewrite Hw, Hln.
Qed.

Lemma raw_inv n op m c : resting [n] (cp_queue c) c → cp_requests c !! n = Some op → fits op m (cp_lastSource c) = true → compiler_inv (raw n op m c).
Proof.
  intros Hc Hn Hf. destruct (start_resting _ _ _ Hc) as (Hc' & Hw & El & Er & Eq). unfold raw. rewrite <- Eq in Hc'. rewrite <- El in Hf. rewrite <- Er in Hn.
  destruct (cp_isReady (start c)) eqn:Hrd; [by apply post_inv|]. destruct Hc' as [Hs Hp Hr Hl Hq Ho]. by constructor; fields; try done; constructor.
Qed.

Lemma begin_inv n op c : resting [n] (cp_queue c) c → cp_requests c !! n = Some op → compiler_inv (begin_operation n op c).
Proof.
  intros Hc Hn. destruct op as [a|a|a o]; cbn [begin_operation]; [apply raw_inv; try done; cbn; by rewrite bool_decide_true..|].
  case_bool_decide as Hl; apply raw_inv; try done; cbn; [by rewrite !bool_decide_true|by rewrite bool_decide_true].
Qed.

Lemma advance_inv q c : resting [] q c → cp_running c = None → compiler_inv (advance q c).
Proof.
  revert c. induction q as [|[[n g] op] q IH]; intros c [Hs Hp Hr Hl Hq Ho] Hn; cbn [advance].
  - constructor; unfold outstanding; fields; rewrite ?Hn; done.
  - apply Forall_cons in Hq as [[Hreq Hg] Hq]. destruct (negb _).
    + apply IH; [|done]. constructor; try done. unfold order_ok in *. cbn in *. by rewrite fmap_app, <- app_assoc.
    + by apply begin_inv.
Qed.

Lemma doc_settle_inv n o c : resting [n] (cp_queue c) c → compiler_inv (settle n o c).
Proof.
  intros [Hs Hp Hr Hl Hq Ho]. apply advance_inv; [|done]. constructor; try done. unfold order_ok in *. cbn in *. by rewrite fmap_app, <- app_assoc.
Qed.

(** The parse of the Worker after an answer. *)
Definition parsed (m : message) (ok : bool) (parse : option string) : option string :=
  match m with MCheck source => if ok then Some source else parse | _ => parse end.

(** A request that has its answer. *)
Lemma answered_inv n op m r c : (∀ p, p = parsed m (rp_ok r) (cp_lastSource c) → resting [n] (cp_queue c) (set_lastSource p c)) → cp_requests c !! n = Some op →
  fits op m (cp_lastSource c) = true → compiler_inv (answered n op m r c).
Proof.
  intros Hm Hn Hf. assert (parsed m (rp_ok r) (cp_lastSource c) = cp_lastSource c → resting [n] (cp_queue c) c) as Hsame.
  { intros E. specialize (Hm _ eq_refl). rewrite E in Hm. by destruct c. }
  destruct op as [a|a|a o], m as [b|b|o']; try done; cbn [answered]; cbn in Hf.
  - apply bool_decide_eq_true in Hf as <-. destruct (rp_ok r) eqn:Hok; apply doc_settle_inv; cbn [parsed] in *; [by apply Hm|by apply Hsame].
  - apply doc_settle_inv. by apply Hsame.
  - apply bool_decide_eq_true in Hf as <-. destruct (rp_ok r) eqn:Hok; cbn [parsed] in *; [|apply doc_settle_inv; by apply Hsame].
    apply raw_inv; [by apply Hm|done|]. cbn. by rewrite !bool_decide_true.
  - apply doc_settle_inv. by apply Hsame.
Qed.

Lemma advance_cancels q c : Forall (λ e, e.1.2 < cp_generation c) q → cp_running c = None → cp_running (advance q c) = None ∧ cp_queue (advance q c) = [].
Proof.
  intros Hq. revert c Hq. induction q as [|[[n g] op] q IH]; intros c Hq Hn; cbn [advance]; [done|].
  apply Forall_cons in Hq as [Hg Hq]. cbn in Hg. rewrite (proj2 (Z.eqb_neq _ _)) by lia. by apply IH.
Qed.

(** [close] up to what it settles. *)
Definition closed (c : compiler) : compiler :=
  let c := bump_generation c in
  let c := match cp_worker c with Some w => add_log (Terminated w) c | None => c end in
  set_lastSource None (set_worker None false (set_pending (cp_nextId c) [] c)).

Lemma closed_fields c : cp_running (closed c) = cp_running c ∧ cp_queue (closed c) = cp_queue c ∧ cp_requests (closed c) = cp_requests c ∧
  cp_generation (closed c) = cp_generation c + 1 ∧ cp_results (closed c) = cp_results c.
Proof. unfold closed. cbn [bump_generation cp_worker]. by destruct (cp_worker c). Qed.

Lemma closed_resting c : compiler_inv c →
  resting (match cp_running c with Some r => [rn_request r] | None => [] end) (cp_queue c) (closed c).
Proof.
  intros [Hs _ _ _ Hq _ Ho]. destruct (closed_fields c) as (E1 & E2 & E3 & E4 & E5). constructor; try done.
  - unfold closed. fields. destruct (cp_worker c) as [w|] eqn:Hw; fields; unfold worker_view in *; rewrite Hw in Hs; fields; [|done].
    rewrite spec_run_snoc, Hs. cbn. by rewrite bool_decide_true.
  - unfold closed. fields. by intros [? [=]].
  - unfold queue_ok in *. rewrite E3, E4. eapply Forall_impl; [exact Hq|]. cbn. intros e [? ?]. split; [done|lia].
  - unfold order_ok in *. by rewrite E3, E5.
Qed.

Lemma close_closed reason c : close reason c = match cp_running c with
  | None => closed c
  | Some (Running n op (Boot m)) => settle n (Rejected reason) (closed c)
  | Some (Running n op (Await id m)) => answered n op m (Reply false reason) (closed c)
  end.
Proof. unfold close, closed. cbn [bump_generation cp_worker]. by destruct (cp_worker c). Qed.

Lemma answered_fails n op m e c : answered n op m (Reply false e) c = settle n (Resolved (Reply false e)) c.
Proof. by destruct op, m. Qed.

Lemma close_inv reason c : compiler_inv c → compiler_inv (close reason c) ∧ cp_running (close reason c) = None.
Proof.
  intros Hc. pose proof (closed_resting c Hc) as Hr. destruct (closed_fields c) as (E1 & E2 & E3 & E4 & E5). rewrite close_closed.
  assert (∀ n o, resting [n] (cp_queue c) (closed c) → compiler_inv (settle n o (closed c)) ∧ cp_running (settle n o (closed c)) = None) as Hsettle.
  { intros n o Hn. split; [apply doc_settle_inv; by rewrite E2|]. unfold settle. rewrite E2. apply advance_cancels; [|done]. fields. rewrite E4.
    eapply Forall_impl; [exact (ci_queue _ Hc)|]. cbn. intros e [_ ?]. lia. }
  destruct (cp_running c) as [[n op [m|id m]]|] eqn:Er; [by apply Hsettle|rewrite answered_fails; by apply Hsettle|].
  split; [|by rewrite E1]. pose proof (ci_running _ Hc) as Hq. rewrite Er in Hq. rewrite Hq in Hr, E2.
  destruct Hr as [Hs Hp Hr Hl Hqq Ho]. constructor; unfold outstanding; rewrite ?E1, ?E2; done.
Qed.

Lemma ready_inv w c : compiler_inv c → compiler_inv (ready w c).
Proof.
  intros Hc. unfold ready. case_bool_decide as Hw; cbn [negb orb]; [|done]. destruct (cp_isReady c) eqn:Hrd; [done|].
  destruct Hc as [Hs Hp Hr Hl Hq Hrun Ho]. unfold outstanding in *.
  assert (cp_lastSource c = None) as Hln by (destruct (cp_lastSource c) as [s|]; [by rewrite Hl in Hrd by eauto|done]).
  assert (∀ o, spec_run (cp_requests c) (cp_log c) = Some (worker_view c o) →
    spec_run (cp_requests c) (cp_log c ++ [Booted w]) = Some (worker_view (set_worker (Some w) true c) o)) as Hboot.
  { intros o E. rewrite spec_run_snoc, E. unfold worker_view. rewrite Hw. cbn. rewrite bool_decide_true, Hrd by done. by rewrite Hln. }
  fields. destruct (cp_running c) as [[n op [m|id m]]|] eqn:Er.
  - apply post_inv; [|apply Hrun|apply Hrun|done]. constructor; fields; try done; by apply Hboot.
  - destruct Hrun as [_ (_ & Hx & _)]. by rewrite Hx in Hrd.
  - constructor; unfold outstanding; fields; rewrite ?Er; try done; by apply Hboot.
Qed.

Lemma answer_inv w id r c : compiler_inv c → compiler_inv (answer w id r c).
Proof.
  intros Hc. unfold answer. case_bool_decide as Hw; cbn [negb orb]; [|done]. case_bool_decide as Hid; cbn [negb]; [|done].
  destruct Hc as [Hs Hp Hr Hl Hq Hrun Ho]. unfold outstanding in *. fields.
  destruct (cp_running c) as [[n op [m|id' m]]|] eqn:Er; rewrite Hp in Hid; [by apply elem_of_nil in Hid| |by apply elem_of_nil in Hid].
  apply list_elem_of_singleton in Hid as ->. rewrite Z.eqb_refl. destruct Hrun as [Hreq (_ & Hrd & Hf)]. cbn in Hreq, Hf.
  set (c1 := add_log _ _).
  apply answered_inv; [|done|done]. intros parse ->. constructor; unfold c1; fields; try done.
  - rewrite spec_run_snoc, Hs. unfold worker_view. fields. rewrite Hw. cbn. rewrite bool_decide_true, Z.eqb_refl by done. by destruct m.
  - rewrite Hp. by rewrite filter_cons_False by (by intros []).
Qed.

Lemma request_inv op c : compiler_inv c → compiler_inv (request op c).
Proof.
  intros [Hs Hp Hr Hl Hq Hrun Ho]. unfold request. set (n := length (cp_requests c)). fields.
  assert ((cp_requests c ++ [op]) !! n = Some op) as Hn by (unfold n; by rewrite lookup_app_r, Nat.sub_diag by done).
  assert (∀ q, queue_ok c q → Forall (λ e, (cp_requests c ++ [op]) !! e.1.1 = Some e.2 ∧ e.1.2 <= cp_generation c) (q ++ [(n, cp_generation c, op)])) as Hqq.
  { intros q H. apply Forall_app. split; [|constructor; [split; [done|cbn; lia]|done]]. eapply Forall_impl; [exact H|]. cbn.
    intros e [He ?]. split; [by apply lookup_app_l_Some|done]. }
  assert (∀ rest, order_ok c rest → (cp_results c).*1 ++ rest ++ [n] = seq 0 (length (cp_requests c ++ [op]))) as Hoo.
  { intros rest H. unfold order_ok in H. rewrite app_assoc, H, length_app, Nat.add_1_r, seq_S. done. }
  destruct (cp_running c) as [r|] eqn:Er.
  - unfold outstanding in *. rewrite Er in Hs, Hp.
    constructor; unfold outstanding, queue_ok, order_ok in *; fields; rewrite ?Er; try done; [by apply spec_run_more|by apply Hqq| |].
    + destruct Hrun as [Hreq Hst]. constructor; [by apply lookup_app_l_Some|done].
    + rewrite !fmap_app, <- (Hoo _ Ho). by rewrite <- !app_assoc.
  - unfold outstanding in *. rewrite Er in Hs, Hp. rewrite Hrun in *. apply advance_inv; [|done]. constructor; unfold queue_ok, order_ok in *; fields; try done.
    + by apply spec_run_more.
    + by apply Hqq.
    + cbn. by apply (Hoo []).
Qed.

Lemma doc_step_inv c e : compiler_inv c → compiler_inv (step c e).
Proof.
  destruct e as [op|w|w reason|w id r|reason]; cbn [step]; intros Hc.
  - by apply request_inv.
  - by apply ready_inv.
  - unfold boot_error. case_bool_decide; [by apply close_inv|done].
  - by apply answer_inv.
  - by apply close_inv.
Qed.

Lemma doc_run_inv events c : compiler_inv c → compiler_inv (run events c).
Proof. unfold run. revert c. induction events as [|e events IH]; intros c Hc; [done|]. by apply IH, doc_step_inv. Qed.

Lemma new_inv : compiler_inv new_compiler.
Proof. constructor; cbn; try done; first [by intros [? [=]]|constructor]. Qed.

Lemma advance_requests q c : cp_requests (advance q c) = cp_requests c.
Proof.
  assert (∀ n op m c, cp_requests (raw n op m c) = cp_requests c) as Hraw.
  { intros n op m c0. unfold raw, start. destruct (cp_worker c0) as [w|] eqn:Hw; fields; [|done].
    destruct (cp_isReady c0); [|done]. unfold post. by rewrite Hw. }
  revert c. induction q as [|[[n g] op] q IH]; intros c; cbn [advance]; [done|]. destruct (negb _); [by rewrite IH|].
  destruct op; cbn [begin_operation]; [by rewrite Hraw..|]. by case_bool_decide; rewrite Hraw.
Qed.

Lemma close_requests reason c : cp_requests (close reason c) = cp_requests c.
Proof.
  destruct (closed_fields c) as (_ & _ & E3 & _). rewrite close_closed.
  destruct (cp_running c) as [[n op [m|id m]]|]; rewrite ?answered_fails; [unfold settle; by rewrite advance_requests..|done].
Qed.

(** C16 The Workers of a documentation page are used as they want to be, whatever the editors ask and the Workers do: there is one at a time, it gets
    a message only when it is ready and has answered the last one, each message is of a request that was made, and a
    hover is posted only when the latest check that Worker answered with success was of the very source the hover is about.
    What the client remembers of its Worker is how the Worker is. *)
Theorem doc_compiler_refines events : let c := run events new_compiler in
  spec_run (cp_requests c) (cp_log c) = Some (worker_view c (outstanding c)).
Proof. apply doc_run_inv, new_inv. Qed.

(** C32 Requests of a documentation page end in the order they were made, each once; and closing the compiler ends every one that was
    made, so nothing an editor awaits is left behind. *)
Theorem doc_requests_settle events reason : let c := run events new_compiler in
  (∃ waiting, (cp_results c).*1 ++ waiting = seq 0 (length (cp_requests c))) ∧
  (cp_results (close reason c)).*1 = seq 0 (length (cp_requests c)).
Proof.
  cbn zeta. pose proof (doc_run_inv events _ new_inv) as Hc. split; [eexists; exact (ci_order _ Hc)|].
  destruct (close_inv reason _ Hc) as [Hcl Hn]. destruct Hcl as [_ _ _ _ _ Hrun Ho]. rewrite Hn in *. rewrite Hrun in Ho. unfold order_ok in Ho.
  cbn in Ho. rewrite app_nil_r in Ho. by rewrite Ho, close_requests.
Qed.

(** Two editors: a hover after another editor's check checks its own source again, in one request. *)
Example hover_rechecks :
  let c := run [Request (OCheck "a"); Ready 0; Answer 0 1 (Reply true ""); Request (OHover "a" 4); Answer 0 2 (Reply true "");
                Request (OCheck "b"); Request (OHover "a" 5); Answer 0 3 (Reply true ""); Answer 0 4 (Reply true "")] new_compiler in
  cp_log c = [Created 0; Booted 0; Posted 0 1 0 (MCheck "a"); Answered 0 1 true; Posted 0 2 1 (MHover 4); Answered 0 2 true;
              Posted 0 3 2 (MCheck "b"); Answered 0 3 true; Posted 0 4 3 (MCheck "a"); Answered 0 4 true; Posted 0 5 3 (MHover 5)].
Proof. vm_compute. done. Qed.
