(* ===== verification/DocWidget.v ===== *)
(** A documentation page's editor: [NuppDocPlayground] and [runGenerated] of [src/editors/playground/src/doc-app.js].

    The state is what the element keeps, with what its panels show; the awaits of its methods are tasks, and an event settles one
    with what the compiler or the program's Worker answered.  A panel records of which source it shows the Lua. *)

From S2P Require Import Prelude.

(** ** Diagnostics *)

Record diagnostic := Diagnostic {
  di_code : option string; di_severity : option string; di_msg : option string; di_help : option string;
  di_line : Z; di_col : Z; di_offset : option Z; di_length : option Z
}.
Inductive lint := LError | LWarning | LInfo.
Record marker := Marker { mk_from : Z; mk_to : Z; mk_severity : lint; mk_message : option string; mk_source : option string }.

Definition IGNORED_DOC_DIAGNOSTICS : list string := ["NUPP2507"].
Definition ignored (d : diagnostic) : bool := match di_code d with Some c => bool_decide (c ∈ IGNORED_DOC_DIAGNOSTICS) | None => false end.
Definition visibleDiagnostics (l : list diagnostic) : list diagnostic := filter (λ d, ignored d = false) l.

Definition toCmPos (offset : Z) : Z := offset - 1.
Definition toNuppOffset (position : Z) : Z := position + 1.

Definition severityToLint (severity : option string) : lint :=
  match severity with
  | Some s => if String.eqb s "warning" then LWarning else if String.eqb s "info" then LInfo else LError
  | None => LError
  end.

(** [a || b] for a text. *)
Definition or_text (a : option string) (b : string) : string := match a with Some s => if String.eqb s "" then b else s | None => b end.
Definition given (a : option string) : bool := match a with Some s => negb (String.eqb s "") | None => false end.

Definition NEWLINE : string := String (Ascii.ascii_of_nat 10) "".
Definition diagnosticText (d : diagnostic) : string :=
  let code := if given (di_code d) then default "" (di_code d) +:+ ": " else "" in
  let help := if given (di_help d) then NEWLINE +:+ "  help: " +:+ default "" (di_help d) else "" in
  pretty (di_line d) +:+ ":" +:+ pretty (di_col d) +:+ ": " +:+ or_text (di_severity d) "error" +:+ ": " +:+ code +:+ default "" (di_msg d) +:+ help.
Definition diagnostics_text (l : list diagnostic) : string := String.concat (NEWLINE +:+ NEWLINE) (diagnosticText <$> l).

(** [diagnostic.length || 1]. *)
Definition or_one (n : option Z) : Z := match n with Some 0 => 1 | Some n => n | None => 1 end.

(** A marker's message; a message that is missing prints as the language prints it. *)
Definition marker_message (d : diagnostic) : option string :=
  if given (di_help d) then Some (default "undefined" (di_msg d) +:+ NEWLINE +:+ default "" (di_help d)) else di_msg d.

(** A diagnostic with an offset, in a document of [length] characters. *)
Definition marker_of (length : Z) (d : diagnostic) (offset : Z) : marker :=
  let from := Z.max 0 (Z.min length (toCmPos offset)) in
  Marker from (Z.max from (Z.min length (from + Z.max 1 (or_one (di_length d))))) (severityToLint (di_severity d)) (marker_message d) (di_code d).
Definition markers_of (length : Z) (l : list diagnostic) : list marker :=
  omap (λ d, marker_of length d <$> di_offset d) (visibleDiagnostics l).

(** The range of a hover's tooltip. *)
Definition hover_range (length offset size : Z) : Z * Z :=
  let from := Z.max 0 (Z.min length (toCmPos offset)) in (from, Z.max from (Z.min length (from + size))).

Lemma marker_in_document length d offset : 0 <= length → 0 <= mk_from (marker_of length d offset) <= mk_to (marker_of length d offset) ∧ mk_to (marker_of length d offset) <= length.
Proof. cbn. unfold toCmPos. lia. Qed.
Lemma hover_in_document length offset size : 0 <= length → 0 <= (hover_range length offset size).1 <= (hover_range length offset size).2 ∧ (hover_range length offset size).2 <= length.
Proof. cbn. unfold toCmPos. lia. Qed.

(** ** The element *)

(** An answer of the compiler to a check or a compilation. *)
Record result := Result { rs_ok : bool; rs_error : string; rs_code : option string; rs_reason : option string; rs_diagnostics : list diagnostic }.

(** What the Lua panel shows, and of which source: its code, its diagnostics, or how its compilation failed. *)
Inductive panel := Blank | Compiling | Lua (source code : string) | Report (source text : string) | Failure (source text : string).

(** What a method awaits. *)
Inductive task :=
| TCheck (generation : Z) (source : string)
| TLua (generation : Z) (source : string)
| TRun (controller : nat) (source : string)
| TExecute (controller : nat).

Record widget := Widget {
  wd_doc : string; wd_connected : bool;
  wd_lua : bool; wd_panel : panel; wd_compiled : option (string * string);
  wd_checkGeneration : Z; wd_luaGeneration : Z;
  wd_run : option nat; wd_controllers : nat; wd_aborted : list nat;
  wd_outputHidden : bool; wd_summary : string; wd_main : string; wd_button : string;
  wd_markers : list marker; wd_tasks : list task
}.

Definition new_widget (source : string) : widget := Widget source true false Blank None 0 0 None 0 [] true "" "" "Run" [] [].

Definition set_tab (lua : bool) (s : widget) : widget := Widget (wd_doc s) (wd_connected s) lua (wd_panel s) (wd_compiled s) (wd_checkGeneration s) (wd_luaGeneration s)
  (wd_run s) (wd_controllers s) (wd_aborted s) (wd_outputHidden s) (wd_summary s) (wd_main s) (wd_button s) (wd_markers s) (wd_tasks s).
Definition set_panel (p : panel) (s : widget) : widget := Widget (wd_doc s) (wd_connected s) (wd_lua s) p (wd_compiled s) (wd_checkGeneration s) (wd_luaGeneration s)
  (wd_run s) (wd_controllers s) (wd_aborted s) (wd_outputHidden s) (wd_summary s) (wd_main s) (wd_button s) (wd_markers s) (wd_tasks s).
Definition set_compiled (c : option (string * string)) (s : widget) : widget := Widget (wd_doc s) (wd_connected s) (wd_lua s) (wd_panel s) c (wd_checkGeneration s) (wd_luaGeneration s)
  (wd_run s) (wd_controllers s) (wd_aborted s) (wd_outputHidden s) (wd_summary s) (wd_main s) (wd_button s) (wd_markers s) (wd_tasks s).
Definition set_doc (doc : string) (s : widget) : widget := Widget doc (wd_connected s) (wd_lua s) (wd_panel s) (wd_compiled s) (wd_checkGeneration s) (wd_luaGeneration s)
  (wd_run s) (wd_controllers s) (wd_aborted s) (wd_outputHidden s) (wd_summary s) (wd_main s) (wd_button s) (wd_markers s) (wd_tasks s).
Definition set_generations (check lua : Z) (s : widget) : widget := Widget (wd_doc s) (wd_connected s) (wd_lua s) (wd_panel s) (wd_compiled s) check lua
  (wd_run s) (wd_controllers s) (wd_aborted s) (wd_outputHidden s) (wd_summary s) (wd_main s) (wd_button s) (wd_markers s) (wd_tasks s).
Definition set_run (r : option nat) (n : nat) (aborted : list nat) (button : string) (s : widget) : widget := Widget (wd_doc s) (wd_connected s) (wd_lua s) (wd_panel s) (wd_compiled s)
  (wd_checkGeneration s) (wd_luaGeneration s) r n aborted (wd_outputHidden s) (wd_summary s) (wd_main s) button (wd_markers s) (wd_tasks s).
Definition set_output (hidden : bool) (summary main : string) (s : widget) : widget := Widget (wd_doc s) (wd_connected s) (wd_lua s) (wd_panel s) (wd_compiled s)
  (wd_checkGeneration s) (wd_luaGeneration s) (wd_run s) (wd_controllers s) (wd_aborted s) hidden summary main (wd_button s) (wd_markers s) (wd_tasks s).
Definition set_markers (m : list marker) (s : widget) : widget := Widget (wd_doc s) (wd_connected s) (wd_lua s) (wd_panel s) (wd_compiled s)
  (wd_checkGeneration s) (wd_luaGeneration s) (wd_run s) (wd_controllers s) (wd_aborted s) (wd_outputHidden s) (wd_summary s) (wd_main s) (wd_button s) m (wd_tasks s).
Definition set_tasks (t : list task) (s : widget) : widget := Widget (wd_doc s) (wd_connected s) (wd_lua s) (wd_panel s) (wd_compiled s)
  (wd_checkGeneration s) (wd_luaGeneration s) (wd_run s) (wd_controllers s) (wd_aborted s) (wd_outputHidden s) (wd_summary s) (wd_main s) (wd_button s) (wd_markers s) t.
Definition disconnect (s : widget) : widget := Widget (wd_doc s) false (wd_lua s) (wd_panel s) (wd_compiled s)
  (wd_checkGeneration s) (wd_luaGeneration s) (wd_run s) (wd_controllers s) (wd_aborted s) (wd_outputHidden s) (wd_summary s) (wd_main s) (wd_button s) (wd_markers s) (wd_tasks s).
Definition await_task (t : task) (s : widget) : widget := set_tasks (wd_tasks s ++ [t]) s.

Section Element.
(** The length of a document, in the units of the editor. *)
Context (doc_length : string → Z).
Definition applyDiagnostics (l : list diagnostic) (s : widget) : widget := set_markers (markers_of (doc_length (wd_doc s)) l) s.

(** [activateTab(name)] and [invalidateCompiled()]. *)
Definition activateTab (lua : bool) (s : widget) : widget := if Bool.eqb (wd_lua s) lua then s else set_tab lua s.
Definition invalidateCompiled (s : widget) : widget := activateTab false (set_panel Blank (set_compiled None s)).

(** [check()] up to its [await]. *)
Definition check (s : widget) : widget :=
  let generation := wd_checkGeneration s + 1 in
  await_task (TCheck generation (wd_doc s)) (set_generations generation (wd_luaGeneration s) s).

(** The compiled source is the document's. *)
Definition cached_code (s : widget) : option string :=
  match wd_compiled s with Some (source, code) => if String.eqb source (wd_doc s) then Some code else None | None => None end.

(** [showLua()] up to its [await]. *)
Definition showLua (s : widget) : widget :=
  let s := activateTab true s in
  match cached_code s with
  | Some _ => s
  | None =>
      let generation := wd_luaGeneration s + 1 in
      await_task (TLua generation (wd_doc s)) (set_panel Compiling (set_generations (wd_checkGeneration s) generation s))
  end.

(** [run()] up to its first [await]; a click while a program runs stops it, and the compiler, whose requests then fail. *)
Definition run_click (s : widget) : widget :=
  match wd_run s with
  | Some controller => set_run (Some controller) (wd_controllers s) (wd_aborted s ++ [controller]) (wd_button s) s
  | None =>
      let controller := wd_controllers s in
      let s := set_output false "compiling…" "" (set_run (Some controller) (S controller) (wd_aborted s) "Stop" s) in
      match cached_code s with
      | Some _ => await_task (TExecute controller) (set_output false "running…" (wd_main s) s)
      | None => await_task (TRun controller (wd_doc s)) s
      end
  end.

(** [finally] of [run()]. *)
Definition run_ends (controller : nat) (s : widget) : widget :=
  if bool_decide (wd_run s = Some controller) then set_run None (wd_controllers s) (wd_aborted s) "Run" s else s.
(** [catch] and [finally] of [run()]. *)
Definition run_fails (controller : nat) (error : string) (s : widget) : widget :=
  run_ends controller (if bool_decide (wd_run s = Some controller) then set_output (wd_outputHidden s) "failed" ("-- " +:+ error) s else s).

(** The rest of each method once what it awaits has settled. *)
Definition check_settled (generation : Z) (r : res result) (s : widget) : widget :=
  match r with
  | Throw _ => s
  | Ok r => if negb (generation =? wd_checkGeneration s) || negb (rs_ok r) || negb (wd_connected s) then s else applyDiagnostics (rs_diagnostics r) s
  end.

Definition lua_fails (generation : Z) (source error : string) (s : widget) : widget :=
  if negb (generation =? wd_luaGeneration s) then s else set_panel (Failure source ("-- " +:+ error)) s.

Definition lua_settled (generation : Z) (source : string) (r : res result) (s : widget) : widget :=
  match r with
  | Throw e => lua_fails generation source e s
  | Ok r =>
      if negb (generation =? wd_luaGeneration s) || negb (wd_connected s) then s
      else if negb (rs_ok r) then lua_fails generation source (rs_error r) s
      else
        let s := applyDiagnostics (rs_diagnostics r) s in
        if given (rs_code r) then
          let code := default "" (rs_code r) in set_panel (Lua source code) (set_compiled (Some (source, code)) s)
        else
          let visible := visibleDiagnostics (rs_diagnostics r) in
          set_panel (Report source (match visible with [] => or_text (rs_reason r) "no output" | _ => diagnostics_text visible end)) s
  end.

Definition run_settled (controller : nat) (source : string) (r : res result) (s : widget) : widget :=
  match r with
  | Throw e => run_fails controller e s
  | Ok r =>
      if bool_decide (controller ∈ wd_aborted s) || negb (wd_connected s) then run_ends controller s
      else if negb (rs_ok r) then run_fails controller (rs_error r) s
      else
        let s := applyDiagnostics (rs_diagnostics r) s in
        if negb (given (rs_code r)) then
          run_ends controller (set_output (wd_outputHidden s) (or_text (rs_reason r) "failed") (diagnostics_text (visibleDiagnostics (rs_diagnostics r))) s)
        else
          let code := default "" (rs_code r) in
          await_task (TExecute controller) (set_output (wd_outputHidden s) "running…" (wd_main s) (set_compiled (Some (source, code)) s))
  end.

Definition execute_settled (controller : nat) (r : res string) (s : widget) : widget :=
  match r with
  | Throw e => run_fails controller e s
  | Ok stdout =>
      if bool_decide (controller ∈ wd_aborted s) || negb (wd_connected s) then run_ends controller s
      else run_ends controller (set_output (wd_outputHidden s) "ran" stdout s)
  end.

(** [disconnectedCallback()]. *)
Definition disconnectedCallback (s : widget) : widget :=
  let s := match wd_run s with Some c => set_run None (wd_controllers s) (wd_aborted s ++ [c]) (wd_button s) s | None => s end in
  disconnect (set_generations (wd_checkGeneration s + 1) (wd_luaGeneration s + 1) s).

Inductive event :=
| Edit (doc : string)
| CheckTimer
| ClickNupp
| ClickLua
| ClickRun
| CloseOutput
| Settle (k : nat) (r : res result)
| Executed (k : nat) (r : res string)
| Disconnect.

Definition settle (k : nat) (r : res result) (s : widget) : widget :=
  let s' := set_tasks (delete k (wd_tasks s)) s in
  match wd_tasks s !! k with
  | Some (TCheck g _) => check_settled g r s'
  | Some (TLua g source) => lua_settled g source r s'
  | Some (TRun c source) => run_settled c source r s'
  | _ => s
  end.
Definition executed (k : nat) (r : res string) (s : widget) : widget :=
  match wd_tasks s !! k with Some (TExecute c) => execute_settled c r (set_tasks (delete k (wd_tasks s)) s) | _ => s end.

(** An element that is not in the page has no editor and gets no clicks. *)
Definition step (s : widget) (e : event) : widget :=
  match e with
  | Settle k r => settle k r s
  | Executed k r => executed k r s
  | _ =>
      if negb (wd_connected s) then s
      else
        match e with
        | Edit doc => invalidateCompiled (set_doc doc s)
        | CheckTimer => check s
        | ClickNupp => activateTab false s
        | ClickLua => showLua s
        | ClickRun => run_click s
        | CloseOutput => set_output true (wd_summary s) (wd_main s) s
        | Disconnect => disconnectedCallback s
        | _ => s
        end
  end.
Definition run (events : list event) (s : widget) : widget := foldl step s events.
End Element.

(** ** The Lua of the current source *)

Ltac fields := cbn [set_tab set_panel set_compiled set_doc set_generations set_run set_output set_markers set_tasks disconnect await_task applyDiagnostics
  wd_doc wd_connected wd_lua wd_panel wd_compiled wd_checkGeneration wd_luaGeneration wd_run wd_controllers wd_aborted wd_outputHidden wd_summary wd_main wd_button wd_markers wd_tasks].

(** The Lua panel is of the source in the editor: it shows its code, or why there is none, or that it is being compiled, which is awaited. *)
Definition panel_current (s : widget) : Prop :=
  match wd_panel s with
  | Blank => False
  | Compiling => TLua (wd_luaGeneration s) (wd_doc s) ∈ wd_tasks s
  | Lua source _ => source = wd_doc s
  | Report source _ => source = wd_doc s
  | Failure source _ => source = wd_doc s
  end.

Definition lua_generation (t : task) : option Z := match t with TLua g _ => Some g | _ => None end.
Definition no_run (t : task) : Prop := match t with TRun _ _ => False | TExecute _ => False | _ => True end.

Record widget_inv (s : widget) : Prop := WidgetInv {
  wi_shown : wd_lua s = true → wd_connected s = true → panel_current s ∧ ∀ source, TLua (wd_luaGeneration s) source ∈ wd_tasks s → source = wd_doc s;
  wi_cached : ∀ code, wd_compiled s = Some (wd_doc s, code) → wd_panel s = Lua (wd_doc s) code ∧ ∀ source, TLua (wd_luaGeneration s) source ∉ wd_tasks s;
  wi_generations : NoDup (omap lua_generation (wd_tasks s)) ∧ Forall (λ g, g <= wd_luaGeneration s) (omap lua_generation (wd_tasks s));
  wi_no_run : Forall no_run (wd_tasks s) ∧ wd_run s = None
}.

Lemma task_generation g source (l : list task) : TLua g source ∈ l → g ∈ omap lua_generation l.
Proof. intros H. apply list_elem_of_omap. by exists (TLua g source). Qed.

Lemma new_widget_inv source : widget_inv (new_widget source).
Proof. constructor; cbn; try done. split; constructor. Qed.

Lemma hide_inv s : widget_inv s → widget_inv (activateTab false s).
Proof. intros [Hs Hc Hg Hn]. unfold activateTab. by destruct (Bool.eqb (wd_lua s) false). Qed.

Lemma edit_inv doc s : widget_inv s → widget_inv (invalidateCompiled (set_doc doc s)).
Proof.
  intros [Hs Hc Hg Hn]. unfold invalidateCompiled, activateTab. fields. destruct (Bool.eqb (wd_lua s) false) eqn:E; constructor; fields; try done.
  apply eqb_prop in E. by rewrite E.
Qed.

Lemma cached_code_Some s code : cached_code s = Some code → wd_compiled s = Some (wd_doc s, code).
Proof. unfold cached_code. destruct (wd_compiled s) as [[a b]|]; [|done]. destruct (String.eqb_spec a (wd_doc s)) as [->|]; [|done]. by intros [= ->]. Qed.
Lemma cached_code_None s code : cached_code s = None → wd_compiled s ≠ Some (wd_doc s, code).
Proof. unfold cached_code. intros H E. rewrite E, String.eqb_refl in H. done. Qed.

Lemma activate_fields lua s : wd_doc (activateTab lua s) = wd_doc s ∧ wd_compiled (activateTab lua s) = wd_compiled s ∧ wd_panel (activateTab lua s) = wd_panel s ∧
  wd_tasks (activateTab lua s) = wd_tasks s ∧ wd_luaGeneration (activateTab lua s) = wd_luaGeneration s ∧ wd_run (activateTab lua s) = wd_run s ∧
  wd_checkGeneration (activateTab lua s) = wd_checkGeneration s.
Proof. unfold activateTab. by destruct (Bool.eqb _ _). Qed.

Lemma show_inv s : widget_inv s → widget_inv (showLua s).
Proof.
  intros [Hs Hc [Hg1 Hg2] [Hn1 Hn2]]. unfold showLua. destruct (activate_fields true s) as (E1 & E2 & E3 & E4 & E5 & E6 & E7).
  set (s1 := activateTab true s) in *. destruct (cached_code s1) as [code|] eqn:Ec.
  - apply cached_code_Some in Ec. rewrite E1, E2 in Ec. destruct (Hc _ Ec) as [Hp Ht].
    constructor; rewrite ?E1, ?E2, ?E3, ?E4, ?E5, ?E6; try done. intros _ _. unfold panel_current. rewrite E1, E3, Hp. split; [done|].
    intros source Hin. by apply Ht in Hin.
  - constructor; fields; rewrite ?E1, ?E2, ?E3, ?E4, ?E5, ?E6.
    + intros _ _. unfold panel_current. fields. rewrite ?E1, ?E4, ?E5. split; [apply elem_of_app; right; left|].
      intros source [Hin%task_generation|Hin%list_elem_of_singleton]%elem_of_app; [|by injection Hin].
      rewrite Forall_forall in Hg2. apply Hg2 in Hin. lia.
    + intros code Hcode. exfalso. eapply (cached_code_None s1); [done|]. by rewrite E1, E2.
    + rewrite omap_app. cbn. rewrite Forall_forall in Hg2. split.
      * apply NoDup_app. split; [done|]. split; [|apply NoDup_singleton]. intros g Hin ->%list_elem_of_singleton. apply Hg2 in Hin. lia.
      * apply Forall_app. split; [|by repeat constructor; lia]. apply Forall_forall. intros g Hin%Hg2. lia.
    + split; [|done]. apply Forall_app. split; [done|]. by repeat constructor.
Qed.

Lemma check_inv s : widget_inv s → widget_inv (check s).
Proof.
  intros [Hs Hc [Hg1 Hg2] [Hn1 Hn2]]. constructor; unfold check; fields.
  - intros Hl Hcon. destruct (Hs Hl Hcon) as [Hp Ht]. split.
    + unfold panel_current in *. fields. destruct (wd_panel s); try done. apply elem_of_app. by left.
    + intros source [Hin|Hin%list_elem_of_singleton]%elem_of_app; [by apply Ht|done].
  - intros code Hcode. destruct (Hc _ Hcode) as [Hp Ht]. split; [done|]. intros source [Hin|Hin%list_elem_of_singleton]%elem_of_app; [by eapply Ht|done].
  - rewrite omap_app. cbn. by rewrite app_nil_r.
  - split; [|done]. apply Forall_app. split; [done|]. by repeat constructor.
Qed.

(** Markers are of no account here. *)
Lemma markers_inv l s : widget_inv s → widget_inv (set_markers l s).
Proof. by intros []. Qed.

(** A task that settles: the other tasks, and what is known of its generation. *)
Lemma delete_task k t s : widget_inv s → wd_tasks s !! k = Some t →
  (∀ t', t' ∈ delete k (wd_tasks s) → t' ∈ wd_tasks s) ∧ (∀ t', t' ∈ wd_tasks s → t' = t ∨ t' ∈ delete k (wd_tasks s)) ∧
  (∀ g source source', t = TLua g source → TLua g source' ∉ delete k (wd_tasks s)) ∧
  NoDup (omap lua_generation (delete k (wd_tasks s))) ∧ Forall (λ g, g <= wd_luaGeneration s) (omap lua_generation (delete k (wd_tasks s))) ∧
  Forall no_run (delete k (wd_tasks s)).
Proof.
  intros [_ _ [Hg1 Hg2] [Hn _]] Hk. pose proof (delete_Permutation _ _ _ Hk) as Hp.
  assert (omap lua_generation (wd_tasks s) ≡ₚ omap lua_generation (t :: delete k (wd_tasks s))) as Ho by (by rewrite Hp at 1).
  rewrite Ho in Hg1, Hg2. rewrite Hp in Hn. apply Forall_cons in Hn as [_ Hn]. split; [intros t'; by apply list_elem_of_delete_inv|].
  split; [intros t'; rewrite Hp at 1; by rewrite elem_of_cons|].
  cbn in Hg1, Hg2. destruct (lua_generation t) as [g|] eqn:Eg.
  - apply NoDup_cons in Hg1 as [Hni Hg1]. apply Forall_cons in Hg2 as [_ Hg2]. split; [|done].
    intros g' source source' -> Hin%task_generation. by injection Eg as ->.
  - split; [|done]. by intros g source source' ->.
Qed.

(** A settled task that changes nothing, or a check. *)
Lemma dropped_inv k t s : widget_inv s → wd_tasks s !! k = Some t → (∀ source, t ≠ TLua (wd_luaGeneration s) source) → widget_inv (set_tasks (delete k (wd_tasks s)) s).
Proof.
  intros Hinv Hk Ht. destruct (delete_task k t s Hinv Hk) as (Hd1 & Hd2 & _ & Hg1 & Hg2 & Hn). destruct Hinv as [Hs Hc _ [_ Hr]]. constructor; fields; try done.
  - intros Hl Hcon. destruct (Hs Hl Hcon) as [Hp Hcur]. split; [|intros source Hin%Hd1; by apply Hcur].
    unfold panel_current in *. fields. destruct (wd_panel s); try done. destruct (Hd2 _ Hp) as [E|]; [by destruct (Ht (wd_doc s))|done].
  - intros code Hcode. destruct (Hc _ Hcode) as [Hp Hcur]. split; [done|]. intros source Hin%Hd1. by eapply Hcur.
Qed.

(** The compilation the panel waits for settles. *)
Lemma current_inv k source p c s : widget_inv s → wd_tasks s !! k = Some (TLua (wd_luaGeneration s) source) →
  (c = wd_compiled s ∧ (wd_doc s = source → panel_current (set_panel p s)) ∨ ∃ code, c = Some (source, code) ∧ p = Lua source code) →
  (∀ t, p ≠ Compiling ∨ t ∉ wd_tasks s) →
  widget_inv (set_panel p (set_compiled c (set_tasks (delete k (wd_tasks s)) s))).
Proof.
  intros Hinv Hk Hp Hnc. destruct (delete_task k _ s Hinv Hk) as (Hd1 & Hd2 & Hlast & Hg1 & Hg2 & Hn). pose proof Hinv as [Hs Hc _ [_ Hr]].
  assert (TLua (wd_luaGeneration s) source ∈ wd_tasks s) as Hin by (by eapply list_elem_of_lookup_2).
  constructor; fields; try done.
  - intros Hl Hcon. destruct (Hs Hl Hcon) as [_ Hcur]. pose proof (Hcur _ Hin) as Hsrc. split; [|intros source' Hin'; by destruct (Hlast _ _ source' eq_refl)].
    destruct Hp as [[_ Hp]|(code & _ & ->)]; [|done]. specialize (Hp (eq_sym Hsrc)). unfold panel_current in *. cbn in *. destruct p; try done.
    by destruct (Hnc (TLua (wd_luaGeneration s) (wd_doc s))).
  - intros code Hcode. destruct Hp as [[-> _]|(code' & -> & ->)].
    + destruct (Hc _ Hcode) as [_ Hnone]. by apply Hnone in Hin.
    + injection Hcode as -> ->. split; [done|]. intros source' Hin'. by destruct (Hlast _ _ source' eq_refl).
Qed.

Lemma widget_settle_inv doc_length k r s : widget_inv s → widget_inv (settle doc_length k r s).
Proof.
  intros Hinv. unfold settle. destruct (wd_tasks s !! k) as [[g source|g source|c source|c]|] eqn:Hk; [| | |done|done].
  - assert (widget_inv (set_tasks (delete k (wd_tasks s)) s)) as Hd by (by eapply dropped_inv). unfold check_settled. destruct r as [r|]; [|done].
    destruct (_ || _); [done|]. by apply markers_inv.
  - destruct (decide (g = wd_luaGeneration s)) as [->|Hne].
    + unfold lua_settled, lua_fails. fields. rewrite Z.eqb_refl. cbn [negb orb].
      assert (∀ e, widget_inv (set_panel (Failure source e) (set_tasks (delete k (wd_tasks s)) s))) as Hfail.
      { intros e. apply (current_inv k source (Failure source e) (wd_compiled s)); try done; [left; by split|by left]. }
      destruct r as [r|e]; [|apply Hfail]. destruct (wd_connected s) eqn:Hcon; cbn [negb].
      * destruct (rs_ok r); cbn [negb]; [|apply Hfail]. destruct (given (rs_code r)).
        -- set (code := default "" (rs_code r)).
           change (widget_inv (set_markers (markers_of (doc_length (wd_doc s)) (rs_diagnostics r))
             (set_panel (Lua source code) (set_compiled (Some (source, code)) (set_tasks (delete k (wd_tasks s)) s))))).
           apply markers_inv, (current_inv k source); try done; [right; by eexists|by left].
        -- set (p := Report source _).
           change (widget_inv (set_markers (markers_of (doc_length (wd_doc s)) (rs_diagnostics r))
             (set_panel p (set_compiled (wd_compiled s) (set_tasks (delete k (wd_tasks s)) s))))).
           apply markers_inv, (current_inv k source); try done; [left; by split|by left].
      * destruct (delete_task k _ s Hinv Hk) as (_ & _ & _ & Hg1 & Hg2 & Hn). destruct Hinv as [_ Hc _ [_ Hr]]. constructor; fields; try done; [by rewrite Hcon|].
        intros code Hcode. destruct (Hc _ Hcode) as [_ Hnone]. by destruct (Hnone source (list_elem_of_lookup_2 _ _ _ Hk)).
    + unfold lua_settled, lua_fails. fields. rewrite (proj2 (Z.eqb_neq _ _)) by done. cbn [negb orb].
      assert (widget_inv (set_tasks (delete k (wd_tasks s)) s)) as Hd by (eapply dropped_inv; [done..|]; intros source' [= ?]; done).
      by destruct r.
  - destruct Hinv as [_ _ _ [Hn _]]. rewrite Forall_forall in Hn. by destruct (Hn (TRun c source) (list_elem_of_lookup_2 _ _ _ Hk)).
Qed.

Lemma disconnected_inv s : widget_inv s → widget_inv (disconnectedCallback s).
Proof.
  intros [Hs Hc [Hg1 Hg2] [Hn Hr]]. unfold disconnectedCallback. rewrite Hr. constructor; fields; try done.
  - intros code Hcode. destruct (Hc _ Hcode) as [Hp _]. split; [done|]. intros source Hin%task_generation. rewrite Forall_forall in Hg2. apply Hg2 in Hin. lia.
  - split; [done|]. eapply Forall_impl; [exact Hg2|]. cbn. intros. lia.
Qed.

Lemma widget_step_inv doc_length s e : e ≠ ClickRun → widget_inv s → widget_inv (step doc_length s e).
Proof.
  intros He Hs. destruct e as [doc| | | | | |k r|k r|]; cbn [step]; try (destruct (negb (wd_connected s)); [done|]).
  - by apply edit_inv.
  - by apply check_inv.
  - by apply hide_inv.
  - by apply show_inv.
  - done.
  - by destruct Hs.
  - by apply widget_settle_inv.
  - unfold executed. destruct (wd_tasks s !! k) as [[| | |c]|] eqn:Hk; try done. destruct Hs as [_ _ _ [Hn _]]. rewrite Forall_forall in Hn.
    by destruct (Hn (TExecute c) (list_elem_of_lookup_2 _ _ _ Hk)).
  - by apply disconnected_inv.
Qed.

(** C33 The Lua tab shows the source that is in the editor. In an editor whose program is not run, whatever is edited and clicked and in whatever
    order compilations answer, an open Lua tab is never blank and what it shows, the Lua, the diagnostics or the failure of a compilation, is never of an
    earlier text; and while it says it is compiling, a compilation of the current text is awaited. *)
Theorem doc_lua_current doc_length source events : ClickRun ∉ events →
  let s := run doc_length events (new_widget source) in wd_connected s = true → wd_lua s = true → panel_current s.
Proof.
  intros He. cbn zeta. assert (widget_inv (run doc_length events (new_widget source))) as Hs.
  { unfold run. pose proof (new_widget_inv source) as Hw. revert Hw. generalize (new_widget source). induction events as [|e events IH]; intros s Hs; [done|].
    apply not_elem_of_cons in He as [He Hes]. cbn. apply IH; [done|]. apply widget_step_inv; [congruence|done]. }
  intros Hcon Hl. by apply Hs.
Qed.

Definition compiled_as (code : string) : res result := Ok (Result true "" (Some code) None []).

Lemma doc_lua_current_witness :
  wd_panel (run (λ _, 9) [ClickLua; Edit "b"; ClickLua; Settle 0 (compiled_as "A"); Settle 0 (compiled_as "B")] (new_widget "a")) = Lua "b" "B" ∧
  panel_current (run (λ _, 9) [ClickLua; Edit "b"; ClickLua; Settle 0 (compiled_as "A"); Settle 0 (compiled_as "B")] (new_widget "a")).
Proof.
  split; [vm_compute; done|]. apply doc_lua_current; [|vm_compute; done..]. rewrite !not_elem_of_cons. repeat split; try done. apply not_elem_of_nil.
Defined.

(** After a program was run its Lua tab is blank: [run] keeps the code and does not show it, and [showLua] sees it is there. *)
Example lua_blank_after_run :
  let s := run (λ _, 9) [ClickRun; Settle 0 (compiled_as "A"); Executed 0 (Ok "out"); ClickLua] (new_widget "a") in
  wd_lua s = true ∧ wd_panel s = Blank ∧ wd_tasks s = [] ∧ wd_main s = "out".
Proof. vm_compute. done. Qed.

(** A program is run, the text changed and the Lua tab opened, and the change undone before the compiler answers: the tab
    shows the Lua of the text that was undone. *)
Example lua_stale_after_run :
  let s := run (λ _, 9) [ClickRun; Edit "b"; ClickLua; Edit "a"; Settle 0 (compiled_as "A"); ClickLua; Settle 0 (compiled_as "B")] (new_widget "a") in
  wd_lua s = true ∧ wd_doc s = "a" ∧ wd_panel s = Lua "b" "B".
Proof. vm_compute. done. Qed.

(** ** Running a program *)

(** What a program's Worker, the clock and the Stop button do. *)
Inductive run_event := WorkerMessage (ok : bool) (result error : string) | WorkerError (message : string) | Deadline | Abort.

Record execution := Execution {
  xc_settled : option (res string); xc_posted : bool; xc_terminated : bool; xc_timer : bool; xc_listening : bool
}.

(** [finish(body)]. *)
Definition finish (body : res string) (x : execution) : execution :=
  match xc_settled x with
  | Some _ => x
  | None => Execution (Some body) (xc_posted x) true false false
  end.

Definition message_or (error fallback : string) : string := if String.eqb error "" then fallback else error.

(** A handler of [runGenerated]. *)
Definition run_handler (x : execution) (e : run_event) : execution :=
  match e with
  | WorkerMessage ok result error => finish (if ok then Ok result else Throw (message_or error "the application Worker failed")) x
  | WorkerError message => finish (Throw (message_or message "the application Worker failed")) x
  | Deadline => if xc_timer x then finish (Throw "the program exceeded the playground's 10 second hard deadline") x else x
  | Abort => if xc_listening x then finish (Throw "Program stopped") x else x
  end.

(** [runGenerated(code, signal)]: a signal that has aborted stops it before the program is sent. *)
Definition runGenerated (aborted : bool) : execution :=
  let x := Execution None false false true false in
  if aborted then finish (Throw "Program stopped") x else Execution None true false true true.

(** A program's Worker ends with its promise: until the first event it runs under a deadline and can be stopped; then the
    promise is settled by that event, the Worker is terminated, the clock is stopped, and what happens later changes nothing. *)
Lemma run_generated_once events : let x := foldl run_handler (runGenerated false) events in
  (events = [] → xc_settled x = None ∧ xc_timer x = true ∧ xc_listening x = true) ∧
  (∀ e rest, events = e :: rest → x = run_handler (runGenerated false) e ∧ is_Some (xc_settled x) ∧ xc_terminated x = true ∧ xc_timer x = false).
Proof.
  cbn zeta. split; [by intros ->|]. intros e rest ->. cbn [foldl].
  assert (∃ r, run_handler (runGenerated false) e = Execution (Some r) true true false false) as (r & ->) by (destruct e as [[] ? ?| | |]; by eexists).
  induction rest as [|e' rest IH]; [by split; [|split; [eexists|]]|]. by destruct e'.
Qed.
