(* ===== verification/TestCoverage.v ===== *)
(** Suites and coverage in the editor: [discoverSuites], [publishCoverage] and what they keep, [src/editors/vscode/extension.js].

    The module holds the detail of the last report by file, which VS Code asks for later, and whether it offered to show it.
    [JSON.parse] and [vscode.Uri.joinPath(...).toString()] are parameters. *)

From S2P Require Import Prelude Wire TestReports.

(** ** Suites *)

Definition has_space (line : list byte) : bool := bool_decide (x20 ∈ line).

(** The suites a listing names, one a line. *)
Definition listed_suites (stdout : list byte) : list (list byte) :=
  filter (λ line, line ≠ [] ∧ has_space line = false) (trim <$> split_on x0a stdout).

(** A controller's items, by identifier. *)
Definition set_item (i : item) (items : list item) : list item :=
  if existsb (λ j, String.eqb (it_id j) (it_id i)) items then (λ j, if String.eqb (it_id j) (it_id i) then i else j) <$> items else items ++ [i].

(** [discoverSuites]: the folder's item with the suites of the listing as its children; a command that fails changes nothing. *)
Definition discoverSuites (uri name : string) (c : command) (items : list item) : list item :=
  if co_error c then items
  else
    let label := match find (λ j, String.eqb (it_id j) uri) items with Some j => it_label j | None => name end in
    set_item (Item uri label ((λ suite, Item (uri +:+ "/" +:+ bytes_text suite) (bytes_text suite) []) <$> listed_suites (co_stdout c))) items.

(** ** Coverage *)

Record counts := Counts { cn_covered : Z; cn_total : Z }.
Record file_report := FileReport {
  fr_path : string; fr_status : string; fr_lines : counts; fr_branches : counts; fr_functions : counts; fr_sites : list site
}.
Record file_coverage := FileCoverage { fc_uri : string; fc_statements : counts; fc_branches : counts; fc_declarations : counts }.

(** What the run and the editor are told. *)
Inductive coverage_call :=
| COutput (text : string)
| COffered
| CAdded (coverage : file_coverage).

Record coverage := Coverage { cv_detail : jmap string file_report; cv_offered : bool; cv_calls : list coverage_call }.
Definition told (c : coverage_call) : js coverage () := modify (λ s, Coverage (cv_detail s) (cv_offered s) (cv_calls s ++ [c])).

Section Publish.
Context (joinPath : string → string) (JSON_report : list byte → option (list file_report)).

Definition fileCoverageFor (file : file_report) : file_coverage :=
  FileCoverage (joinPath (fr_path file)) (fr_lines file) (fr_branches file) (fr_functions file).

(** Once a session. *)
Definition offerInlineCoverage : js coverage () :=
  offered ← gets cv_offered;
  if offered : bool then mret tt
  else modify (λ s, Coverage (cv_detail s) true (cv_calls s)) ;; told COffered.

Definition CRLF : string := String (Ascii.ascii_of_nat 13) (String (Ascii.ascii_of_nat 10) "").

Definition publish_file (file : file_report) : js coverage () :=
  if String.eqb (fr_status file) "non-executable" then mret tt
  else
    let c := fileCoverageFor file in
    modify (λ s, Coverage (mset (fc_uri c) file (cv_detail s)) (cv_offered s) (cv_calls s)) ;;
    told (CAdded c).

Definition publishCoverage (c : command) : js coverage () :=
  if co_error c then told (COutput ("Nupp: the coverage report could not be read" +:+ CRLF))
  else
    match JSON_report (co_stdout c) with
    | None => told (COutput ("Nupp: the coverage report was not valid JSON" +:+ CRLF))
    | Some files =>
        modify (λ s, Coverage [] (cv_offered s) (cv_calls s)) ;;
        offerInlineCoverage ;;
        for_each files publish_file
    end.

(** [loadDetailedCoverage]. *)
Definition loadDetailedCoverage (uri : string) (s : coverage) : list detail :=
  detailedCoverageFor (match mget uri (cv_detail s) with Some file => fr_sites file | None => [] end).

(** ** What is shown *)

Definition executable (files : list file_report) : list file_report := filter (λ f, fr_status f ≠ "non-executable") files.

Lemma publish_files files s : ∃ s', for_each files publish_file s = (Ok tt, s') ∧ cv_offered s' = cv_offered s ∧
  cv_calls s' = cv_calls s ++ ((λ f, CAdded (fileCoverageFor f)) <$> executable files) ∧
  (∀ uri, uri ∉ (joinPath ∘ fr_path) <$> executable files → mget uri (cv_detail s') = mget uri (cv_detail s)) ∧
  (NoDup ((joinPath ∘ fr_path) <$> executable files) → ∀ f, f ∈ executable files → mget (joinPath (fr_path f)) (cv_detail s') = Some f).
Proof.
  revert s. induction files as [|f files IH]; intros s; cbn [for_each].
  { exists s. split; [done|]. split; [done|]. cbn. rewrite app_nil_r. split; [done|]. split; [done|]. intros _ f H. by apply elem_of_nil in H. }
  unfold executable. rewrite filter_cons. destruct (decide (fr_status f ≠ "non-executable")) as [E|E].
  2:{ apply dec_stable in E. rewrite (bind_run _ _ _ tt s); [apply IH|]. unfold publish_file. by rewrite E. }
  - set (s1 := Coverage (mset (fc_uri (fileCoverageFor f)) f (cv_detail s)) (cv_offered s) (cv_calls s ++ [CAdded (fileCoverageFor f)])).
    rewrite (bind_run _ _ _ tt s1) by (unfold publish_file; by rewrite (proj2 (String.eqb_neq _ _))). fold (executable files).
    destruct (IH s1) as (s' & Hrun & Ho & Hc & Hout & Hin). exists s'. split; [exact Hrun|]. split; [exact Ho|]. split; [rewrite Hc; cbn; by rewrite <- app_assoc|].
    cbn [fmap list_fmap]. split.
    + intros uri Hni. apply not_elem_of_cons in Hni as [Hne Hni]. rewrite Hout by done. cbn. by rewrite mget_mset_ne by (by intros <-).
    + intros Hnd f' Hf'. apply NoDup_cons in Hnd as [Hni Hnd]. apply elem_of_cons in Hf' as [->|Hf']; [|by apply Hin].
      rewrite Hout by done. cbn. by rewrite mget_mset_eq.
Qed.

(** A coverage run replaces what the editor shows. When the report can be read, each of its files that can run is added to the run, in the report's
    order; the detail VS Code loads for such a file is what the report says of its sites, and for
    every other file nothing is left of an earlier report; the offer to show it inline is made in a session's first report only.
    A report that cannot be read changes none of it. *)
Theorem coverage_replaced c s : NoDup ((joinPath ∘ fr_path) <$> executable (default [] (JSON_report (co_stdout c)))) → ∃ s', publishCoverage c s = (Ok tt, s') ∧
  match (if co_error c then None else JSON_report (co_stdout c)) with
  | None => cv_detail s' = cv_detail s ∧ cv_offered s' = cv_offered s ∧ ∃ text, cv_calls s' = cv_calls s ++ [COutput text]
  | Some files =>
      cv_offered s' = true ∧
      cv_calls s' = cv_calls s ++ (if cv_offered s then [] else [COffered]) ++ ((λ f, CAdded (fileCoverageFor f)) <$> executable files) ∧
      (∀ f, f ∈ executable files → loadDetailedCoverage (joinPath (fr_path f)) s' = detailedCoverageFor (fr_sites f)) ∧
      (∀ uri, uri ∉ (joinPath ∘ fr_path) <$> executable files → loadDetailedCoverage uri s' = [])
  end.
Proof.
  intros Hnd. unfold publishCoverage. destruct (co_error c); [eexists; split; [reflexivity|]; by repeat split; [..|eexists]|].
  destruct (JSON_report (co_stdout c)) as [files|] eqn:E; [|eexists; split; [reflexivity|]; by repeat split; [..|eexists]].
  cbn [default] in Hnd. erewrite bind_run by reflexivity.
  assert (∃ s1, offerInlineCoverage (Coverage [] (cv_offered s) (cv_calls s)) = (Ok tt, s1) ∧ cv_detail s1 = [] ∧ cv_offered s1 = true ∧
    cv_calls s1 = cv_calls s ++ (if cv_offered s then [] else [COffered])) as (s1 & E1 & Hd1 & Ho1 & Hc1).
  { unfold offerInlineCoverage. erewrite bind_run by reflexivity. cbn [cv_offered]. destruct (cv_offered s); eexists; (split; [reflexivity|]); cbn; by rewrite ?app_nil_r. }
  rewrite (bind_run _ _ _ _ _ E1). destruct (publish_files files s1) as (s' & Hrun & Ho & Hc & Hout & Hin). exists s'. split; [exact Hrun|].
  split; [by rewrite Ho|]. split; [by rewrite Hc, Hc1, <- app_assoc|]. unfold loadDetailedCoverage. split.
  - intros f Hf. by rewrite (Hin Hnd f Hf).
  - intros uri Hni. by rewrite (Hout uri Hni), Hd1.
Qed.
End Publish.

Lemma coverage_replaced_witness :
  let file := FileReport "a.nupp" "covered" (Counts 1 2) (Counts 0 0) (Counts 1 1) [Site "statement" (Some 3) None 7 None None None] in
  let old := FileReport "b.nupp" "covered" (Counts 1 2) (Counts 0 0) (Counts 1 1) [] in
  ∃ s', publishCoverage (λ p, p) (λ _, Some [file]) (Command false [] []) (Coverage [("b.nupp", old)] true []) = (Ok tt, s') ∧
    loadDetailedCoverage "a.nupp" s' = detailedCoverageFor (fr_sites file) ∧ loadDetailedCoverage "b.nupp" s' = [].
Proof.
  cbn zeta. set (file := FileReport "a.nupp" _ _ _ _ _). set (old := FileReport "b.nupp" _ _ _ _ _).
  destruct (coverage_replaced (λ p, p) (λ _, Some [file]) (Command false [] []) (Coverage [("b.nupp", old)] true [])) as (s' & Hs & _ & _ & H1 & H2);
    [apply (bool_decide_unpack _); vm_compute; done|]. exists s'. split; [exact Hs|]. split.
  - apply (H1 file). vm_compute. left.
  - apply H2, (bool_decide_unpack _). vm_compute. done.
Defined.

(** ** Suites *)

(** A discovery leaves the other folders' items as they are, and the folder's suites are those of the listing. *)
Lemma discover_suites uri name c items : co_error c = false →
  (∀ i, it_id i ≠ uri → i ∈ discoverSuites uri name c items ↔ i ∈ items) ∧
  ∃ label, Item uri label ((λ suite, Item (uri +:+ "/" +:+ bytes_text suite) (bytes_text suite) []) <$> listed_suites (co_stdout c)) ∈ discoverSuites uri name c items.
Proof.
  intros He. unfold discoverSuites. rewrite He. set (label := match find (λ j, String.eqb (it_id j) uri) items with Some j => it_label j | None => name end). set (mine := Item uri label _). unfold set_item.
  destruct (existsb _ items) eqn:Ex; cbn [it_id] in *.
  - apply existsb_exists in Ex as (j & Hj & Ej%String.eqb_eq). apply list_elem_of_In in Hj. split.
    + intros i Hi. rewrite list_elem_of_fmap. split.
      * intros (j' & -> & Hin). destruct (String.eqb_spec (it_id j') (it_id mine)); done.
      * intros Hin. exists i. split; [|done]. destruct (String.eqb_spec (it_id i) (it_id mine)); done.
    + exists label. apply list_elem_of_fmap. exists j. split; [|done]. by destruct (String.eqb_spec (it_id j) (it_id mine)).
  - split; [|exists label; apply elem_of_app; right; left]. intros i Hi. rewrite elem_of_app, list_elem_of_singleton. split; [|by left].
    intros [?| ->]; [done|]. by destruct Hi.
Qed.
