(* ===== verification/LuaOutput.v ===== *)
(** Generated Lua in the playground, [src/editors/playground/src/lua-output.js]: the highlighter's segments are laid out in numbered
    lines.  The highlighter is a library's; its segments are a parameter. *)

From S2P Require Import Prelude NodePath.

Definition NL : byte := x0a.

Record segment := Segment { sg_text : list byte; sg_classes : string }.

(** [lines.at(-1).push(segment)]; there is always a line. *)
Definition push_last (s : segment) (lines : list (list segment)) : list (list segment) :=
  match reverse lines with
  | l :: ls => reverse ls ++ [l ++ [s]]
  | [] => [[s]]
  end.

(** The loop over the parts of one segment. *)
Fixpoint push_parts (classes : string) (parts : list (list byte)) (lines : list (list segment)) : list (list segment) :=
  match parts with
  | [] => lines
  | part :: parts' =>
      let lines := if bool_decide (part = []) then lines else push_last (Segment part classes) lines in
      let lines := if bool_decide (parts' = []) then lines else lines ++ [[]] in
      push_parts classes parts' lines
  end.

Definition luaHighlightLines (segments : list segment) : list (list segment) :=
  foldl (λ lines s, push_parts (sg_classes s) (split_on NL (sg_text s)) lines) [[]] segments.

(** The rendered lines: a number and what is in the line, a text node or a span. *)
Inductive node := TextNode (text : list byte) | Span (classes : string) (text : list byte).
Record line := Line { ln_number : Z; ln_code : list node }.
Definition render_segment (s : segment) : node := if String.eqb (sg_classes s) "" then TextNode (sg_text s) else Span (sg_classes s) (sg_text s).
Definition renderLuaOutput (segments : list segment) : list line :=
  imap (λ index l, Line (Z.of_nat index + 1) (render_segment <$> l)) (luaHighlightLines segments).

(** ** The text of the lines *)

Definition node_text (n : node) : list byte := match n with TextNode t => t | Span _ t => t end.
Definition line_text (l : list segment) : list byte := concat (sg_text <$> l).

(** [lines.join("\n")]. *)
Fixpoint join_lines (lines : list (list byte)) : list byte :=
  match lines with
  | [] => []
  | [l] => l
  | l :: lines' => l ++ NL :: join_lines lines'
  end.

Lemma join_lines_snoc lines l : lines ≠ [] → join_lines (lines ++ [l]) = join_lines lines ++ NL :: l.
Proof.
  induction lines as [|a [|b lines] IH]; intros Hne; [done|done|]. change (join_lines ((a :: b :: lines) ++ [l])) with (a ++ NL :: join_lines ((b :: lines) ++ [l])).
  rewrite IH by done. cbn [join_lines]. by rewrite <- app_assoc.
Qed.

Lemma join_lines_last lines l t : join_lines (lines ++ [l ++ t]) = join_lines (lines ++ [l]) ++ t.
Proof. destruct lines as [|a lines]; [done|]. rewrite !join_lines_snoc by done. by rewrite <- app_assoc. Qed.

(** What is laid out so far, as text; a list of lines is never empty. *)
Definition lines_text (lines : list (list segment)) : list byte := join_lines (line_text <$> lines).

Lemma push_last_text s lines : lines ≠ [] → push_last s lines ≠ [] ∧ lines_text (push_last s lines) = lines_text lines ++ sg_text s ∧ length (push_last s lines) = length lines.
Proof.
  intros Hne. unfold push_last. destruct (reverse lines) as [|l ls] eqn:E; [apply (f_equal reverse) in E; by rewrite reverse_involutive in E|].
  apply (f_equal reverse) in E. rewrite reverse_involutive, reverse_cons in E. subst lines. split; [intros H; by apply app_eq_nil in H as [_ ?]|].
  split; [|by rewrite !length_app]. unfold lines_text. rewrite !fmap_app. cbn [fmap list_fmap]. rewrite <- join_lines_last. f_equal. f_equal. f_equal.
  unfold line_text. rewrite fmap_app, concat_app. cbn. by rewrite app_nil_r.
Qed.

Lemma break_text lines : lines ≠ [] → lines_text (lines ++ [[]]) = lines_text lines ++ [NL].
Proof. intros Hne. unfold lines_text. rewrite fmap_app. cbn. rewrite join_lines_snoc; [done|]. by destruct lines. Qed.

Lemma push_parts_text classes parts lines : lines ≠ [] → parts ≠ [] →
  push_parts classes parts lines ≠ [] ∧ lines_text (push_parts classes parts lines) = lines_text lines ++ join_lines parts ∧
  length (push_parts classes parts lines) = (length lines + (length parts - 1))%nat.
Proof.
  revert lines. induction parts as [|p parts IH]; intros lines Hl Hp; [done|]. cbn [push_parts].
  set (l1 := if bool_decide (p = []) then lines else push_last (Segment p classes) lines).
  assert (l1 ≠ [] ∧ lines_text l1 = lines_text lines ++ p ∧ length l1 = length lines) as (Hl1 & Ht1 & Hn1).
  { unfold l1. case_bool_decide as E; [subst p; by rewrite app_nil_r|by apply push_last_text]. }
  destruct parts as [|q parts].
  - rewrite bool_decide_true by done. cbn [push_parts length join_lines]. split; [done|]. split; [done|lia].
  - rewrite bool_decide_false by done. assert (l1 ++ [[]] ≠ []) as Hne by (intros H; by apply app_eq_nil in H as [_ ?]).
    destruct (IH (l1 ++ [[]]) Hne ltac:(done)) as (H1 & H2 & H3). split; [done|]. split.
    + rewrite H2, break_text, Ht1 by done. change (join_lines (p :: q :: parts)) with (p ++ NL :: join_lines (q :: parts)). by rewrite <- !app_assoc.
    + rewrite H3, length_app, Hn1. cbn [length]. lia.
Qed.

Lemma join_lines_split text : join_lines (split_on NL text) = text.
Proof.
  induction text as [|b l IH]; [done|]. cbn [split_on foldr]. fold (split_on NL l). pose proof (split_on_ne NL l). destruct (split_on NL l) as [|t ts] eqn:E; [done|].
  case_bool_decide as Hb; [subst b|].
  - change (join_lines ([] :: t :: ts)) with (NL :: join_lines (t :: ts)). by rewrite IH.
  - rewrite <- IH. by destruct ts.
Qed.

Lemma highlight_text segments lines : lines ≠ [] → let out := foldl (λ lines s, push_parts (sg_classes s) (split_on NL (sg_text s)) lines) lines segments in
  out ≠ [] ∧ lines_text out = lines_text lines ++ concat (sg_text <$> segments).
Proof.
  revert lines. induction segments as [|s segments IH]; intros lines Hl; cbn zeta; [split; [done|]; by rewrite app_nil_r|]. cbn [foldl fmap list_fmap concat].
  destruct (push_parts_text (sg_classes s) (split_on NL (sg_text s)) lines Hl (split_on_ne _ _)) as (H1 & H2 & _).
  destruct (IH _ H1) as [H3 H4]. split; [done|]. rewrite H4, H2, join_lines_split. by rewrite app_assoc.
Qed.

(** ** Breaks *)

Definition unbroken (lines : list (list segment)) : Prop := Forall (Forall (λ s, NL ∉ sg_text s)) lines.

Lemma push_parts_unbroken classes parts lines : Forall (λ p, NL ∉ p) parts → unbroken lines → unbroken (push_parts classes parts lines).
Proof.
  intros Hp. revert lines. induction Hp as [|p parts Hp _ IH]; intros lines Hl; cbn [push_parts]; [done|]. apply IH.
  assert (unbroken (if bool_decide (p = []) then lines else push_last (Segment p classes) lines)) as H1.
  { case_bool_decide; [done|]. unfold push_last. destruct (reverse lines) as [|l ls] eqn:E; [by apply Forall_singleton, Forall_singleton|].
    apply (f_equal reverse) in E. rewrite reverse_involutive, reverse_cons in E. subst lines. unfold unbroken in *. apply Forall_app in Hl as [Hls Hl].
    apply Forall_app. split; [done|]. apply Forall_cons in Hl as [Hl _]. constructor; [|done]. apply Forall_app. split; [done|]. by apply Forall_singleton. }
  destruct (bool_decide (parts = [])); [done|]. apply Forall_app. split; [done|]. by repeat constructor.
Qed.

Lemma highlight_unbroken segments lines : unbroken lines →
  unbroken (foldl (λ lines s, push_parts (sg_classes s) (split_on NL (sg_text s)) lines) lines segments).
Proof.
  revert lines. induction segments as [|s segments IH]; intros lines Hl; [done|]. cbn [foldl]. apply IH, push_parts_unbroken; [|done].
  apply Forall_forall. intros p. apply split_on_no_sep.
Qed.

Lemma render_node s : node_text (render_segment s) = sg_text s.
Proof. unfold render_segment. by destruct (String.eqb _ _). Qed.

(** The Lua panel shows the whole program: whatever segments the highlighter cuts it into, and wherever their line breaks fall, the
    lines shown, joined again, are the text of the segments in order, no line has a line break in it, and the lines are
    numbered from one without a gap. *)
Theorem lua_lines_roundtrip segments :
  join_lines ((λ l, concat (node_text <$> ln_code l)) <$> renderLuaOutput segments) = concat (sg_text <$> segments) ∧
  (∀ l n, l ∈ renderLuaOutput segments → n ∈ ln_code l → NL ∉ node_text n) ∧
  ln_number <$> renderLuaOutput segments = (λ i, Z.of_nat i + 1) <$> seq 0 (length (renderLuaOutput segments)).
Proof.
  unfold renderLuaOutput. split; [|split].
  - destruct (highlight_text segments [[]]) as [_ Ht]; [done|]. change (lines_text (luaHighlightLines segments) = concat (sg_text <$> segments)) in Ht. rewrite <- Ht.
    unfold lines_text. f_equal. apply list_eq. intros i. rewrite !list_lookup_fmap, list_lookup_imap. destruct (luaHighlightLines segments !! i) as [l|]; [|done]. cbn.
    unfold line_text. rewrite <- list_fmap_compose. f_equal. f_equal. apply list_fmap_ext. intros _ s _. apply render_node.
  - intros l n (i & l0 & -> & Hl)%elem_of_lookup_imap_1 Hn. cbn in Hn. apply list_elem_of_fmap in Hn as (s & -> & Hs). rewrite render_node.
    assert (unbroken (luaHighlightLines segments)) as Hu by (apply highlight_unbroken; by repeat constructor). unfold unbroken in Hu. rewrite Forall_forall in Hu.
    specialize (Hu l0 (list_elem_of_lookup_2 _ _ _ Hl)). rewrite Forall_forall in Hu. by apply Hu.
  - rewrite length_imap. apply list_eq. intros i. rewrite !list_lookup_fmap, list_lookup_imap. destruct (luaHighlightLines segments !! i) as [l|] eqn:E; cbn.
    + pose proof (lookup_lt_Some _ _ _ E). by rewrite lookup_seq_lt by done.
    + apply lookup_ge_None in E. by rewrite (proj2 (lookup_ge_None _ _)) by (by rewrite length_seq).
Qed.

(** A comment over two lines, as one segment. *)
Example lua_lines_example :
  (λ l, length (ln_code l)) <$> renderLuaOutput [Segment [x2d; x0a; x2d] "lua-comment"; Segment [x0a] ""; Segment [x0a; x78] ""] = [1; 1; 0; 1]%nat.
Proof. vm_compute. done. Qed.
