(* ===== verification/NuppLang.v ===== *)
(** The editor's language mode, [src/editors/playground/src/nupp-lang.js]: one token of a line.

    A stream is the rest of its line; a token is a style and how many characters it takes.  The mode for Lua that this one extends is a
    library's, so its token function is a parameter, with the state it keeps for itself. *)

From S2P Require Import Prelude Wire NodePath.

Definition words (l : list string) : list (list byte) := text_bytes <$> l.

Definition NUPP_KEYWORDS : list (list byte) := words
  ["as"; "associated"; "borrows"; "cdef"; "const"; "constructor"; "continue"; "each"; "exclusive"; "from"; "global"; "infer"; "interface"; "is";
   "keyof"; "match"; "matches"; "metamethod"; "new"; "out"; "preserves"; "record"; "releases"; "resumes"; "retains"; "scoped"; "struct";
   "takes"; "type"; "typeerror"; "unpackof"; "when"; "where"; "writekeyof"; "writeof"; "yields"].
Definition LUA_KEYWORDS : list (list byte) := words
  ["and"; "break"; "do"; "else"; "elseif"; "end"; "for"; "function"; "goto"; "if"; "in"; "local"; "not"; "or"; "repeat"; "return"; "then"; "until"; "while"].
Definition LITERAL_KEYWORDS : list (list byte) := words ["false"; "nil"; "true"].
Definition DIRECTIVE_KEYWORDS : list (list byte) := words ["comptime"].
Definition TYPE_DECLARATIONS : list (list byte) := words ["interface"; "record"; "struct"; "type"].
Definition BUILTIN_FUNCTIONS : list (list byte) := words
  ["assert"; "collectgarbage"; "dofile"; "error"; "getfenv"; "getmetatable"; "ipairs"; "load"; "loadfile"; "loadstring"; "next"; "pairs"; "pcall"; "print";
   "rawequal"; "rawget"; "rawset"; "require"; "select"; "setfenv"; "setmetatable"; "tonumber"; "tostring"; "type"; "unpack"; "xpcall"].
Definition NUPP_TYPES : list (list byte) := words
  ["any"; "boolean"; "borrowed"; "cdata"; "cstring"; "ctype"; "float"; "int8"; "int16"; "int32"; "int64"; "integer"; "metatable"; "never";
   "number"; "owned"; "pinned"; "string"; "table"; "thread"; "uint8"; "uint16"; "uint32"; "uint64"; "unknown"; "userdata"; "voidptr"].

(** The alternatives of [NUPP_OPERATOR], in order; the last line is its class of characters. *)
Definition COMPOUND : list (list byte) := words
  ["~>>="; "..."; "<<="; ">>="; "//="; "..="; "??="; "~>>"; "<<"; ">>"; "=="; "~="; "<="; ">="; "!="; "&&"; "||"; "??"; "?."; "::"; "//"; ".."; "->";
   "+="; "-="; "*="; "/="; "%="; "&="; "|="].
Definition SINGLE : list (list byte) := words ["+"; "-"; "*"; "/"; "%"; "^"; "#"; "&"; "~"; "|"; "<"; ">"; "="; "?"; ":"; "!"; "@"].
Definition OPERATORS : list (list byte) := COMPOUND ++ SINGLE.
Definition operator_match (rest : list byte) : option (list byte) := find (λ op, startsWith op rest) OPERATORS.

Definition PUNCTUATION : list byte := text_bytes "()[]{},;.:".

(** Letters, digits and the underscore. *)
Definition in_chars (a b : Z) (c : byte) : bool := (a <=? Z_of_byte c) && (Z_of_byte c <=? b).
Definition is_upper (c : byte) : bool := in_chars 65 90 c.
Definition is_start (c : byte) : bool := is_upper c || in_chars 97 122 c || bool_decide (c = x5f).
Definition is_part (c : byte) : bool := is_start c || in_chars 48 57 c.

Fixpoint take_while (p : byte → bool) (l : list byte) : list byte :=
  match l with b :: l' => if p b then b :: take_while p l' else [] | [] => [] end.

(** [IDENTIFIER]. *)
Definition identifier_match (rest : list byte) : option (list byte) :=
  match rest with b :: _ => if is_start b then Some (take_while is_part rest) else None | [] => None end.

(** [/^@!?[A-Za-z_][A-Za-z0-9_]*/]. *)
Definition annotation_match (rest : list byte) : option (list byte) :=
  match rest with
  | x40 :: x21 :: rest' => ([x40; x21] ++.) <$> identifier_match rest'
  | x40 :: rest' => (x40 ::.) <$> identifier_match rest'
  | _ => None
  end.

(** ** State *)

Inductive tokenizer := Normal | Backtick | Nested.
#[export] Instance tokenizer_eq_dec : EqDecision tokenizer.
Proof. solve_decision. Defined.

Record mode := Mode { md_cur : tokenizer; md_indentDepth : Z; md_previous : list byte }.
Definition set_cur (c : tokenizer) (m : mode) : mode := Mode c (md_indentDepth m) (md_previous m).
Definition set_previous (p : list byte) (m : mode) : mode := Mode (md_cur m) (md_indentDepth m) p.

Definition updateIndent (token : list byte) (m : mode) : mode :=
  if bool_decide (token ∈ words ["function"; "if"; "repeat"; "do"; "("; "{"]) then Mode (md_cur m) (md_indentDepth m + 1) (md_previous m)
  else if bool_decide (token ∈ words ["end"; "until"; ")"; "}"]) then Mode (md_cur m) (md_indentDepth m - 1) (md_previous m)
  else m.

(** The loop of [backtickString]: how much it takes, and whether the string ended. *)
Fixpoint backtick_scan (escaped : bool) (rest : list byte) : nat * bool :=
  match rest with
  | [] => (O, false)
  | ch :: rest' =>
      if bool_decide (ch = x60) && negb escaped then (1%nat, true)
      else let '(n, ended) := backtick_scan (negb escaped && bool_decide (ch = x5c)) rest' in (S n, ended)
  end.
Definition backtickString (rest : list byte) (m : mode) : string * nat * mode :=
  let '(n, ended) := backtick_scan false rest in ("string", n, if ended then set_cur Normal m else m).

(** [/^\s*\(/], for a line. *)
Definition is_space (c : byte) : bool := bool_decide (c ∈ [x20; x09; x0b; x0c; x0d]).
Definition call_follows (rest : list byte) : bool := bool_decide (head (drop (length (take_while is_space rest)) rest) = Some x28).

(** The style of a word, from the one before it and what follows. *)
Definition word_style (word previous rest : list byte) : string :=
  if bool_decide (word ∈ LITERAL_KEYWORDS) then "bool"
  else if bool_decide (previous = text_bytes "@unsafe") && bool_decide (word ∈ words ["adopt"; "release"]) then "keyword"
  else if bool_decide (word ∈ DIRECTIVE_KEYWORDS) then "meta"
  else if bool_decide (word ∈ LUA_KEYWORDS) || bool_decide (word ∈ NUPP_KEYWORDS) then "keyword"
  else if bool_decide (word ∈ NUPP_TYPES) || (match word with b :: _ => is_upper b | [] => false end) || bool_decide (previous ∈ TYPE_DECLARATIONS) then "type"
  else if bool_decide (previous ∈ words ["function"; "metamethod"]) || bool_decide (word ∈ BUILTIN_FUNCTIONS) || call_follows rest then "builtin"
  else if bool_decide (previous ∈ words ["."; ":"]) then "property"
  else "variable".

Section Token.
Context (baseToken : list byte → mode → option string * nat * mode).

Definition token (rest : list byte) (m : mode) : option string * nat * mode :=
  if negb (bool_decide (md_cur m = Normal)) || startsWith (text_bytes "--") rest || startsWith (text_bytes "[[") rest || startsWith (text_bytes "[=") rest
  then baseToken rest m
  else if bool_decide (head rest = Some x60) then
    let '(style, n, m') := backtickString (tail rest) (set_cur Backtick m) in (Some style, S n, m')
  else
    match annotation_match rest with
    | Some word => (Some "meta", length word, set_previous word m)
    | None =>
        match operator_match rest with
        | Some op =>
            if (1 <? zlen op) then (Some "operator", length op, set_previous op m)
            else match rest with
                 | b :: _ => if bool_decide (b ∈ PUNCTUATION) then (Some "punctuation", 1%nat, set_previous [b] (updateIndent [b] m))
                             else (Some "operator", length op, set_previous op m)
                 | [] => (Some "operator", length op, set_previous op m)
                 end
        | None =>
            match rest with
            | b :: _ =>
                if bool_decide (b ∈ PUNCTUATION) then (Some "punctuation", 1%nat, set_previous [b] (updateIndent [b] m))
                else
                  match identifier_match rest with
                  | Some word => (Some (word_style word (md_previous m) (drop (length word) rest)), length word, set_previous word (updateIndent word m))
                  | None =>
                      let '(style, n, m') := baseToken rest m in
                      (style, n, match style with Some _ => set_previous (take n rest) m' | None => m' end)
                  end
            | [] => baseToken rest m
            end
        end
    end.
End Token.

(** ** Operators *)

(** No alternative hides a longer one that comes after it. *)
Fixpoint unhidden (l : list (list byte)) : bool :=
  match l with [] => true | op :: l' => forallb (λ op', negb (startsWith op op')) l' && unhidden l' end.

Lemma operators_unhidden : unhidden OPERATORS = true.
Proof. vm_compute. done. Qed.

Lemma find_unhidden l rest op : unhidden l = true → find (λ op, startsWith op rest) l = Some op →
  startsWith op rest = true ∧ op ∈ l ∧ ∀ op', op' ∈ l → startsWith op' rest = true → (length op' <= length op)%nat.
Proof.
  induction l as [|a l IH]; [done|]. cbn [unhidden find]. rewrite andb_true_iff, forallb_forall. intros [Ha Hl]. destruct (startsWith a rest) eqn:Es.
  - intros [= <-]. split; [done|]. split; [left|]. intros op' [->|Hin]%elem_of_cons Hs; [done|]. apply list_elem_of_In, Ha, negb_true_iff, bool_decide_eq_false in Hin.
    apply bool_decide_eq_true in Es, Hs. destruct (prefix_weak_total _ _ _ Es Hs) as [?|Hp]; [done|]. by apply prefix_length.
  - intros Hf. destruct (IH Hl Hf) as (H1 & H2 & H3). split; [done|]. split; [by right|]. intros op' [->|Hin]%elem_of_cons Hs; [congruence|by apply H3].
Qed.

(** An operator is read whole: where an operator starts, the token is the longest of the language's operators the text begins with,
    although the expression that finds it takes its first alternative that fits. *)
Theorem operator_longest rest op : operator_match rest = Some op →
  startsWith op rest = true ∧ op ∈ OPERATORS ∧ ∀ op', op' ∈ OPERATORS → startsWith op' rest = true → (length op' <= length op)%nat.
Proof. apply find_unhidden, operators_unhidden. Qed.

Lemma operator_longest_witness : operator_match (text_bytes "~>>=x") = Some (text_bytes "~>>=") ∧
  ∀ op', op' ∈ OPERATORS → startsWith op' (text_bytes "~>>=x") = true → (length op' <= 4)%nat.
Proof. split; [vm_compute; done|]. apply (operator_longest (text_bytes "~>>=x") (text_bytes "~>>=")). vm_compute. done. Defined.

(** ** Lines *)

(** A line, token by token; [fuel] counts them. *)
Fixpoint tokenize (baseToken : list byte → mode → option string * nat * mode) (fuel : nat) (rest : list byte) (m : mode) : option (list (option string * list byte) * mode) :=
  match rest, fuel with
  | [], _ => Some ([], m)
  | _, O => None
  | _, S fuel =>
      let '(style, n, m1) := token baseToken rest m in
      '(ts, m2) ← tokenize baseToken fuel (drop n rest) m1;
      Some ((style, take n rest) :: ts, m2)
  end.

Definition advances (f : list byte → mode → option string * nat * mode) : Prop := ∀ rest m, rest ≠ [] → (1 <= (f rest m).1.2 <= length rest)%nat.

Lemma backtick_scan_fits escaped rest : ((backtick_scan escaped rest).1 <= length rest)%nat.
Proof.
  revert escaped. induction rest as [|ch rest IH]; intros escaped; cbn [backtick_scan]; [done|]. destruct (_ && negb escaped); [cbn; lia|].
  specialize (IH (negb escaped && bool_decide (ch = x5c))). destruct (backtick_scan _ rest). cbn in *. lia.
Qed.

Lemma take_while_fits p l : (length (take_while p l) <= length l)%nat.
Proof. induction l as [|b l IH]; cbn; [done|]. destruct (p b); cbn; lia. Qed.

Lemma identifier_fits rest word : identifier_match rest = Some word → (1 <= length word <= length rest)%nat.
Proof.
  unfold identifier_match. destruct rest as [|b rest]; [done|]. destruct (is_start b) eqn:Hb; [|done]. intros [= <-].
  assert (is_part b = true) as Hp by (unfold is_part; by rewrite Hb). cbn [take_while]. rewrite Hp. cbn [length].
  pose proof (take_while_fits is_part rest). lia.
Qed.

Lemma annotation_fits rest word : annotation_match rest = Some word → (1 <= length word <= length rest)%nat.
Proof.
  destruct rest as [|b rest]; [done|]. unfold annotation_match. destruct (decide (b = x40)) as [->|Hb]; [|by destruct b].
  destruct rest as [|c rest]; [done|]. destruct (decide (c = x21)) as [->|Hc].
  - destruct (identifier_match rest) as [w|] eqn:E; [|done]. intros [= <-]. apply identifier_fits in E. cbn. lia.
  - assert (annotation_match (x40 :: c :: rest) = (x40 ::.) <$> identifier_match (c :: rest)) as Ha by (by destruct c). unfold annotation_match in Ha. rewrite Ha.
    destruct (identifier_match (c :: rest)) as [w|] eqn:E; [|done]. intros [= <-]. apply identifier_fits in E. cbn in *. lia.
Qed.

Lemma operator_fits rest op : operator_match rest = Some op → (1 <= length op <= length rest)%nat.
Proof.
  intros H. destruct (find_unhidden _ _ _ operators_unhidden H) as (Hp & Hin & _). apply bool_decide_eq_true, prefix_length in Hp.
  split; [|done]. revert op Hin Hp H. assert (Forall (λ op, (1 <= length op)%nat) OPERATORS) as HF by (apply (bool_decide_unpack _); vm_compute; done).
  intros op Hin _ _. rewrite Forall_forall in HF. by apply HF.
Qed.

Lemma token_advances baseToken : advances baseToken → advances (token baseToken).
Proof.
  intros Hb rest m Hne. unfold token. destruct (negb _ || _ || _ || _); [by apply Hb|]. destruct rest as [|b rest]; [done|]. clear Hne.
  destruct (bool_decide (head _ = _)).
  { unfold backtickString. pose proof (backtick_scan_fits false (tail (b :: rest))) as Hf. destruct (backtick_scan false _) as [n ended]. cbn in *. lia. }
  destruct (annotation_match (b :: rest)) as [w|] eqn:Ea; [by apply annotation_fits in Ea|].
  destruct (operator_match (b :: rest)) as [op|] eqn:Eo.
  { apply operator_fits in Eo. destruct (1 <? zlen op); [done|]. destruct (bool_decide _); [cbn; lia|done]. }
  destruct (bool_decide (b ∈ PUNCTUATION)); [cbn; lia|]. destruct (identifier_match (b :: rest)) as [w|] eqn:Ei; [by apply identifier_fits in Ei|].
  specialize (Hb (b :: rest) m ltac:(done)). by destruct (baseToken (b :: rest) m) as [[style n] m'].
Qed.

(** Every line is tokenized to its end: as long as the Lua mode under it takes at least a character where there is one, so does this one, so
    no line needs more tokens than it has characters, and the tokens, none of them empty, are the line
    in order. *)
Theorem line_tokenized baseToken rest m : advances baseToken → ∃ ts m',
  tokenize baseToken (length rest) rest m = Some (ts, m') ∧ concat (snd <$> ts) = rest ∧ Forall (λ t, t.2 ≠ []) ts.
Proof.
  intros Hb%token_advances. remember (length rest) as fuel eqn:Ef. assert (length rest <= fuel)%nat as Hl by lia. clear Ef.
  revert rest m Hl. induction fuel as [|fuel IH]; intros [|b rest] m Hl; cbn [length tokenize] in *; [by exists [], m|lia|by exists [], m|].
  specialize (Hb (b :: rest) m ltac:(done)). destruct (token baseToken (b :: rest) m) as [[style n] m1]. cbn [fst snd] in Hb.
  destruct (IH (drop n (b :: rest)) m1) as (ts & m' & -> & Hc & Hf); [rewrite length_drop; cbn [length] in *; lia|]. cbn [mbind option_bind].
  eexists _, m'. split; [done|]. split; [cbn; rewrite Hc; apply take_drop|]. constructor; [|done]. cbn [snd]. intros E%(f_equal length). rewrite length_take in E. cbn in *. lia.
Qed.

Lemma line_tokenized_witness : ∃ ts m',
  tokenize (λ _ m, (None, 1%nat, m)) 13 (text_bytes "local x ??= y") (Mode Normal 0 []) = Some (ts, m') ∧
  ts = [(Some "keyword", text_bytes "local"); (None, text_bytes " "); (Some "variable", text_bytes "x"); (None, text_bytes " ");
        (Some "operator", text_bytes "??="); (None, text_bytes " "); (Some "variable", text_bytes "y")].
Proof.
  destruct (line_tokenized (λ _ m, (None, 1%nat, m)) (text_bytes "local x ??= y") (Mode Normal 0 [])) as (ts & m' & H & _ & _).
  - intros [|b rest] m Hne; [done|]. cbn. lia.
  - exists ts, m'. split; [exact H|]. vm_compute in H. by injection H.
Defined.
