(* ===== verification/ExtensionSession.v ===== *)
(** The rest of a session of the editor's extension, [src/editors/vscode/extension.js]: the test controllers of workspace folders
    ([registerTestController], and the loops of [activate] over folders), which source a command is about ([activeNuppUri]), the code
    action for Lua files, and the diagnostics of the trace check while documents are edited and closed.

    [vscode.tests.createTestController] is given: it is told the identifiers this extension has in use and may throw, for one of them
    or for one another extension holds.  Settings may be unreadable, so [serverLaunch] may throw too: it is called when a
    folder's client is started, outside any [try], and again when its controller is registered, after an [await] in which
    the settings may have changed. *)

From S2P Require Import Prelude Wire NodePath ArtifactViews ExtensionCommands.

(** ** State *)

Record workspace_folder := WorkspaceFolder { wf_uri : string; wf_name : string; wf_file : bool }.

(** A run profile: its label and whether it runs with coverage. *)
Record run_profile := RunProfile { rp_label : string; rp_coverage : bool }.
Record controller := Controller { ct_id : string; ct_label : string; ct_profiles : list run_profile }.

(** The controllers of the editor, those [context.subscriptions] will dispose of, the folders whose suites are being discovered, what
    was warned of, and whether changes of folders are handled. *)
Record test_session := TestSession {
  ts_controllers : list controller;
  ts_subscriptions : list string;
  ts_discovering : list string;
  ts_warnings : list string;
  ts_listening : bool
}.

Definition controller_id (f : workspace_folder) : string := "nupp-tests-" +:+ wf_uri f.
Definition new_controller (f : workspace_folder) : controller :=
  Controller (controller_id f) ("Nupp (" +:+ wf_name f +:+ ")") [RunProfile "Run" false; RunProfile "Coverage" true].
Definition controller_ids (s : test_session) : list string := ct_id <$> ts_controllers s.

Definition with_controller (f : workspace_folder) (s : test_session) : test_session :=
  TestSession (ts_controllers s ++ [new_controller f]) (ts_subscriptions s ++ [controller_id f]) (ts_discovering s ++ [wf_uri f]) (ts_warnings s)
    (ts_listening s).

(** ** Test controllers *)

Section Tests.
Context {launch : Type} (createTestController : list string → string → res ()).

(** What [serverLaunch] gives for each folder at some moment, and how starting a folder's client ends: it is rejected only when the client
    did not start and could not be disposed of. *)
Local Abbreviation settings := (workspace_folder → res launch).
Local Abbreviation starts := (workspace_folder → res ()).

(** How [startClient] of a folder ends. *)
Definition client_started (first : settings) (start : starts) (f : workspace_folder) : res () :=
  if wf_file f then first f ;; start f else Ok tt.
(** [await Promise.all(folders.map(startClient))]. *)
Fixpoint clients_started (first : settings) (start : starts) (folders : list workspace_folder) : res () :=
  match folders with
  | [] => Ok tt
  | f :: folders' => client_started first start f ;; clients_started first start folders'
  end.

(** [registerTestController(context, folder, launch)]. *)
Definition registerTestController (f : workspace_folder) (_ : launch) : js test_session () :=
  s ← gets (λ s, s);
  lift (createTestController (controller_ids s) (controller_id f)) ;;
  modify (with_controller f).

Definition register_folder (serverLaunch : settings) (f : workspace_folder) : js test_session () :=
  if wf_file f then l ← lift (serverLaunch f); registerTestController f l else mret tt.

Definition registration_warning (f : workspace_folder) (detail : string) : string :=
  "Nupp could not register tests for " +:+ wf_name f +:+ ": " +:+ detail.
Definition warn (text : string) : js test_session () :=
  modify (λ s, TestSession (ts_controllers s) (ts_subscriptions s) (ts_discovering s) (ts_warnings s ++ [text]) (ts_listening s)).
Definition listen : js test_session () :=
  modify (λ s, TestSession (ts_controllers s) (ts_subscriptions s) (ts_discovering s) (ts_warnings s) true).

(** The loop of [activate] over the folders there are. *)
Fixpoint register_activated (serverLaunch : settings) (folders : list workspace_folder) : js test_session () :=
  match folders with
  | [] => mret tt
  | f :: folders' =>
      try_catch (register_folder serverLaunch f) (λ detail, warn (registration_warning f detail)) ;; register_activated serverLaunch folders'
  end.

(** [activate] from its [await] on: the clients, the controllers, and the handlers. *)
Definition activate_tests (first : settings) (start : starts) (now : settings) (folders : list workspace_folder) : js test_session () :=
  lift (clients_started first start folders) ;;
  register_activated now folders ;;
  listen.

(** The loop of [onDidChangeWorkspaceFolders] over the added ones; those removed keep their controllers. *)
Fixpoint register_added (serverLaunch : settings) (added : list workspace_folder) : js test_session () :=
  match added with
  | [] => mret tt
  | f :: added' => register_folder serverLaunch f ;; register_added serverLaunch added'
  end.
Definition folders_added (first : settings) (start : starts) (now : settings) (added : list workspace_folder) : js test_session () :=
  lift (clients_started first start added) ;;
  register_added now added.

Inductive test_event :=
| TestActivate (first : settings) (start : starts) (now : settings) (folders : list workspace_folder)
| TestFolders (first : settings) (start : starts) (now : settings) (removed added : list workspace_folder).
Definition run_test_event (s : test_session) (ev : test_event) : test_session :=
  match ev with
  | TestActivate first start now folders => (activate_tests first start now folders s).2
  | TestFolders first start now _ added => if ts_listening s then (folders_added first start now added s).2 else s
  end.
End Tests.

Definition start_tests : test_session := TestSession [] [] [] [] false.

(** ** Sources and actions *)

Definition NUPP_SUFFIX : list byte := text_bytes ".nupp".

(** [activeNuppUri(target)]: [parse] is [Uri.parse(...).toString()] and [fsPath] the path of a URI. *)
Definition activeNuppUri (parse : string → string) (fsPath : string → list byte) (t : option target) (active : option uri) : option string :=
  match t ≫= tg_uri with
  | Some u => Some u
  | None =>
      match active with
      | None => None
      | Some u => if endsWith NUPP_SUFFIX (fsPath (originOf parse u)) then Some (originOf parse u) else None
      end
  end.

Record code_action := CodeAction { ca_title : string; ca_command : string; ca_argument : target }.

(** [provideCodeActions(document)]; the editor asks for documents of its selector. *)
Definition action_selector (d : document) : bool := String.eqb (d_languageId d) "lua" && String.eqb (d_scheme d) "file".
Definition provideCodeActions (d : document) : list code_action :=
  if negb (endsWith LUA (d_fsPath d)) then []
  else [CodeAction "Migrate annotated Lua to Nupp" "nupp.migrateAnnotatedLua" (Target (Some (d_uri d)) None)].

(** ** Diagnostics of the trace check *)

(** The collection, and for each document how often its text changed; a check that awaits the server was sent the text of its time, and
    the diagnostics it leaves are of that text. *)
Record trace_session := TraceSession {
  tc_diagnostics : jmap string (nat * list diagnostic);
  tc_version : string → nat;
  tc_pending : list (string * nat)
}.

Inductive trace_event :=
| TraceCheck (uri : string)
| TraceAnswered (k : nat) (answer : option (list diagnostic))
| TextChanged (uri : string)
| DocumentClosed (uri : string).

Definition trace_step (s : trace_session) (ev : trace_event) : trace_session :=
  match ev with
  | TraceCheck uri => TraceSession (mdelete uri (tc_diagnostics s)) (tc_version s) (tc_pending s ++ [(uri, tc_version s uri)])
  | TraceAnswered k answer =>
      match tc_pending s !! k with
      | Some (uri, version) =>
          TraceSession (match answer with Some found => mset uri (version, found) (tc_diagnostics s) | None => tc_diagnostics s end)
            (tc_version s) (delete k (tc_pending s))
      | None => s
      end
  | TextChanged uri =>
      TraceSession (mdelete uri (tc_diagnostics s)) (λ u, if String.eqb u uri then S (tc_version s u) else tc_version s u) (tc_pending s)
  | DocumentClosed uri => TraceSession (mdelete uri (tc_diagnostics s)) (tc_version s) (tc_pending s)
  end.
Definition trace_run (evs : list trace_event) (s : trace_session) : trace_session := foldl trace_step s evs.
Definition start_trace : trace_session := TraceSession [] (λ _, 0%nat) [].

(** ** Properties *)

Section Registered.
Context {launch : Type} (createTestController : list string → string → res ()).
(** Identifiers of controllers are unique: one that this extension has in use is refused, and others may be. *)
Hypothesis unique_ids : ∀ ids id, createTestController ids id = Ok tt → (id ∉ ids).
Local Abbreviation settings := (workspace_folder → res launch).
Implicit Types serverLaunch first now : settings.
Local Abbreviation register_folder := (register_folder createTestController).
Local Abbreviation register_activated := (register_activated createTestController).
Local Abbreviation register_added := (register_added createTestController).

(** Why a folder may get no controller. *)
Definition refused serverLaunch (f : workspace_folder) (detail : string) : Prop :=
  serverLaunch f = Throw detail ∨ ∃ ids, createTestController ids (controller_id f) = Throw detail.

(** What registering a folder does. *)
Lemma register_folder_cases serverLaunch f s :
  wf_file f = false ∧ register_folder serverLaunch f s = (Ok tt, s) ∨
  wf_file f = true ∧ (∃ detail, refused serverLaunch f detail ∧ register_folder serverLaunch f s = (Throw detail, s)) ∨
  wf_file f = true ∧ (controller_id f ∉ controller_ids s) ∧ register_folder serverLaunch f s = (Ok tt, with_controller f s).
Proof.
  unfold ExtensionSession.register_folder. destruct (wf_file f); [|by left]. right. destruct (serverLaunch f) as [l|detail] eqn:El.
  2: { left. split; [done|]. exists detail. split; [by left|done]. }
  unfold registerTestController, mbind, js_bind, lift. cbn. destruct (createTestController _ _) as [[]|detail] eqn:E; cbn.
  - right. split_and!; try done. by apply unique_ids in E.
  - left. split; [done|]. exists detail. split; [right; by eexists|done].
Qed.

Definition tests_wf (s : test_session) : Prop := NoDup (controller_ids s) ∧ ts_subscriptions s = controller_ids s.
(** A session that went on: nothing registered or said is taken back. *)
Definition tests_later (s s' : test_session) : Prop := controller_ids s `prefix_of` controller_ids s' ∧ ts_warnings s `prefix_of` ts_warnings s'.

Lemma with_controller_ids f s : controller_ids (with_controller f s) = controller_ids s ++ [controller_id f].
Proof. unfold controller_ids. cbn. by rewrite fmap_app. Qed.

Lemma with_controller_wf f s : controller_id f ∉ controller_ids s → tests_wf s → tests_wf (with_controller f s).
Proof.
  intros Hf [Hn Hs]. split; [|by rewrite with_controller_ids; cbn; rewrite Hs].
  rewrite with_controller_ids. apply NoDup_app. split_and!; [done|set_solver|apply NoDup_singleton].
Qed.

Lemma with_controller_later f s : tests_later s (with_controller f s).
Proof. split; [rewrite with_controller_ids; by eexists|done]. Qed.

#[export] Instance tests_later_preorder : PreOrder tests_later.
Proof. split; [by intros s; split|]. intros s1 s2 s3 [H1 H2] [H3 H4]. split; by etrans. Qed.

Lemma register_folder_wf serverLaunch f s : tests_wf s → tests_wf (register_folder serverLaunch f s).2.
Proof.
  intros Hs. destruct (register_folder_cases serverLaunch f s) as [(_ & ->)|[(_ & d & _ & ->)|(_ & Hf & ->)]]; [done..|].
  by apply with_controller_wf.
Qed.

(** One round of the loop of [activate]. *)
Lemma activated_round serverLaunch f s :
  let s' := (try_catch (register_folder serverLaunch f) (λ detail, warn (registration_warning f detail)) s).2 in
  try_catch (register_folder serverLaunch f) (λ detail, warn (registration_warning f detail)) s = (Ok tt, s') ∧
  (tests_wf s → tests_wf s') ∧ tests_later s s' ∧
  (wf_file f = true → controller_id f ∈ controller_ids s' ∨ ∃ detail, refused serverLaunch f detail ∧ registration_warning f detail ∈ ts_warnings s').
Proof.
  unfold try_catch. destruct (register_folder_cases serverLaunch f s) as [(Hf & ->)|[(Hf & d & Hd & ->)|(Hf & Hin & ->)]]; cbn; split_and!; try done.
  - by rewrite Hf.
  - split; [done|by eexists].
  - intros _. right. exists d. split; [done|]. set_solver.
  - by apply with_controller_wf.
  - apply with_controller_later.
  - intros _. left. change (controller_id f ∈ controller_ids (with_controller f s)). rewrite with_controller_ids. set_solver.
Qed.

Lemma register_activated_run serverLaunch folders s :
  let s' := (register_activated serverLaunch folders s).2 in
  register_activated serverLaunch folders s = (Ok tt, s') ∧ (tests_wf s → tests_wf s') ∧ tests_later s s' ∧
  ∀ f, f ∈ folders → wf_file f = true →
    controller_id f ∈ controller_ids s' ∨ ∃ detail, refused serverLaunch f detail ∧ registration_warning f detail ∈ ts_warnings s'.
Proof.
  revert s. induction folders as [|f folders IH]; intros s; cbn [ExtensionSession.register_activated].
  { split_and!; [done..|]. by intros f ?%not_elem_of_nil. }
  destruct (activated_round serverLaunch f s) as (E & Hw & Hl & Hf). erewrite bind_run by exact E. set (s1 := (try_catch _ _ s).2) in *. clearbody s1. clear E.
  destruct (IH s1) as (E' & Hw' & Hl' & Hall). cbn zeta in *. set (s2 := (register_activated serverLaunch folders s1).2) in *. clearbody s2.
  split_and!; [done|auto|by etrans|]. intros g [->|Hg]%elem_of_cons Hfile; [|by apply Hall].
  destruct Hl' as [Hc' Hm']. destruct (Hf Hfile) as [Hin|(detail & Hd & Hin)]; [left|right; exists detail; split; [done|]].
  - by eapply elem_of_prefix.
  - by eapply elem_of_prefix.
Qed.

Lemma register_added_wf serverLaunch added s : tests_wf s → tests_wf (register_added serverLaunch added s).2.
Proof.
  revert s. induction added as [|f added IH]; intros s Hs; [done|]. cbn [ExtensionSession.register_added]. unfold mbind, js_bind.
  pose proof (register_folder_wf serverLaunch f s Hs) as Hs'. destruct (register_folder serverLaunch f s) as [[[]|d] s']; [by apply IH|done].
Qed.

(** The clients of all folders start, or one ends the wait. *)
Lemma clients_started_cases first start folders :
  if forallb (λ f, is_ok (client_started first start f)) folders then clients_started first start folders = Ok tt
  else ∃ detail, clients_started first start folders = Throw detail.
Proof.
  induction folders as [|f folders IH]; cbn; [done|]. destruct (client_started first start f) as [[]|e]; cbn; [done|by eexists].
Qed.

Lemma activate_tests_wf first start now folders s : tests_wf s → tests_wf (activate_tests createTestController first start now folders s).2.
Proof.
  intros Hs. unfold activate_tests. pose proof (clients_started_cases first start folders) as Hc. destruct (forallb _ _).
  - erewrite bind_run by (unfold lift; by rewrite Hc). destruct (register_activated_run now folders s) as (E & Hw & _).
    erewrite bind_run by exact E. exact (Hw Hs).
  - destruct Hc as [d Hc]. unfold mbind, js_bind, lift. by rewrite Hc.
Qed.

Lemma test_event_wf s ev : tests_wf s → tests_wf (run_test_event (launch:=launch) createTestController s ev).
Proof.
  intros Hs. destruct ev as [first start now folders|first start now removed added]; cbn; [by apply activate_tests_wf|].
  destruct (ts_listening s); [|done]. unfold folders_added. pose proof (clients_started_cases first start added) as Hc. destruct (forallb _ _).
  - erewrite bind_run by (unfold lift; by rewrite Hc). by apply register_added_wf.
  - destruct Hc as [d Hc]. unfold mbind, js_bind, lift. by rewrite Hc.
Qed.

(** C35 Test integration of workspace folders.  Whatever folders come and go, every folder has at most one controller, and every controller is
    disposed of with the extension.  When activation could start the client of every folder of files (its settings could be read, and a
    client that failed to start could be disposed of), it succeeds, handles later changes of folders, and every folder of files has
    its controller, or a warning says why it has none: its settings cannot be read any more, or its identifier was refused, as one
    another extension holds is.  When the settings of some folder cannot be read, or a client that failed could not be
    disposed of, activation is rejected: no folder gets a controller or a warning, and no later change of folders is handled. *)
Theorem test_controllers_registered evs first start now folders :
  let s := foldl (run_test_event (launch:=launch) createTestController) start_tests evs in
  NoDup (controller_ids s) ∧ ts_subscriptions s = controller_ids s ∧
  let '(r, s') := activate_tests createTestController first start now folders start_tests in
  if forallb (λ f, is_ok (client_started first start f)) folders then
    r = Ok tt ∧ ts_listening s' = true ∧
    ∀ f, f ∈ folders → wf_file f = true →
      controller_id f ∈ controller_ids s' ∨ ∃ detail, refused now f detail ∧ registration_warning f detail ∈ ts_warnings s'
  else (∃ detail, r = Throw detail) ∧ s' = start_tests.
Proof.
  cbn zeta. assert (∀ s, tests_wf s → tests_wf (foldl (run_test_event (launch:=launch) createTestController) s evs)) as Hrun.
  { induction evs as [|ev evs IH]; intros s Hs; [done|]. by apply IH, test_event_wf. }
  destruct (Hrun start_tests) as [Hn Hs]; [split; [constructor|done]|]. split; [done|]. split; [done|].
  unfold activate_tests. pose proof (clients_started_cases first start folders) as Hc. destruct (forallb _ _).
  - erewrite bind_run by (unfold lift; by rewrite Hc). destruct (register_activated_run now folders start_tests) as (E & _ & _ & H).
    erewrite bind_run by exact E. done.
  - destruct Hc as [d Hc]. unfold mbind, js_bind, lift. rewrite Hc. split; [by exists d|done].
Qed.

(** A folder that is added again still has the controller of its first time: the handler throws there, and the folders after it get none. *)
Theorem added_again_stops serverLaunch f added s :
  wf_file f = true → is_ok (serverLaunch f) = true → controller_id f ∈ controller_ids s →
  ∃ detail, register_added serverLaunch (f :: added) s = (Throw detail, s).
Proof.
  intros Hf Hl Hin. destruct (register_folder_cases serverLaunch f s) as [(? & _)|[(_ & d & _ & E)|(_ & ? & _)]]; [congruence| |done].
  exists d. cbn [ExtensionSession.register_added]. unfold mbind, js_bind. by rewrite E.
Qed.
End Registered.

(** An editor in which another extension holds the identifier of folder [c], and the settings of [b] cannot be read any more when the
    controllers are registered. *)
Definition demo_creates (ids : list string) (id : string) : res () :=
  if bool_decide (id ∈ ids) || String.eqb id "nupp-tests-file:///c" then Throw "duplicate controller" else Ok tt.
Definition demo_launches (f : workspace_folder) : res () := if String.eqb (wf_uri f) "file:///b" then Throw "bad setting" else Ok tt.
Definition demo_starts (f : workspace_folder) : res () := Ok tt.
Definition demo_folders : list workspace_folder := [WorkspaceFolder "file:///a" "a" true; WorkspaceFolder "file:///b" "b" true; WorkspaceFolder "file:///c" "c" true].

Lemma demo_creates_unique ids id : demo_creates ids id = Ok tt → (id ∉ ids).
Proof. unfold demo_creates. by case_bool_decide. Qed.

Lemma test_controllers_registered_witness :
  let '(r, s') := activate_tests demo_creates demo_starts demo_starts demo_launches demo_folders start_tests in
  r = Ok tt ∧ controller_ids s' = ["nupp-tests-file:///a"] ∧
  ts_warnings s' = ["Nupp could not register tests for b: bad setting"; "Nupp could not register tests for c: duplicate controller"].
Proof.
  split; [|split; vm_compute; reflexivity].
  exact (proj1 (proj2 (proj2 (test_controllers_registered demo_creates demo_creates_unique [] demo_starts demo_starts demo_launches demo_folders)))).
Defined.

(** Settings of one folder that [startClient] cannot read: activation is rejected and no folder gets its tests. *)
Example unreadable_settings_no_tests :
  activate_tests demo_creates demo_launches demo_starts demo_launches demo_folders start_tests = (Throw "bad setting", start_tests).
Proof. vm_compute. reflexivity. Qed.

(** The folder [a] is removed and added again, together with [d]: [d] gets no controller. *)
Example added_again_loses_next :
  let a := WorkspaceFolder "file:///a" "a" true in let d := WorkspaceFolder "file:///d" "d" true in
  controller_ids (foldl (run_test_event demo_creates) start_tests
    [TestActivate demo_starts demo_starts demo_starts [a]; TestFolders demo_starts demo_starts demo_starts [a] [];
     TestFolders demo_starts demo_starts demo_starts [] [a; d]]) =
    ["nupp-tests-file:///a"].
Proof. vm_compute. reflexivity. Qed.

(** ** The code action *)

(** The action that is offered for a document is one the command accepts: the command finds that document, in a file and a [.lua] one. *)
Lemma offered_migration_accepted open_ d a e log :
  action_selector d = true → a ∈ provideCodeActions d → open_ (d_uri d) = Ok d →
  ca_command a = "nupp.migrateAnnotatedLua" ∧ target_document open_ (Some (ca_argument a)) e log = (Ok (Some d), log) ∧
  d_scheme d = "file" ∧ endsWith LUA (d_fsPath d) = true.
Proof.
  unfold action_selector, provideCodeActions. intros [_ Hs%String.eqb_eq]%andb_prop Ha Ho. destruct (endsWith LUA (d_fsPath d)); [|by apply elem_of_nil in Ha].
  apply list_elem_of_singleton in Ha as ->. split_and!; try done. cbn. unfold mbind, js_bind, lift. by rewrite Ho.
Qed.

(** ** Diagnostics *)

(** No check of a document awaits its answer. *)
Definition unchecked (uri : string) (s : trace_session) : bool := negb (existsb (λ p, String.eqb p.1 uri) (tc_pending s)).

(** Runs in which a document is edited only while no check of it awaits its answer. *)
Fixpoint patient (evs : list trace_event) (s : trace_session) : bool :=
  match evs with
  | [] => true
  | ev :: evs' => (match ev with TextChanged uri => unchecked uri s | _ => true end) && patient evs' (trace_step s ev)
  end.

Definition trace_current (s : trace_session) : Prop :=
  (∀ uri version found, mget uri (tc_diagnostics s) = Some (version, found) → version = tc_version s uri) ∧
  (∀ uri version, (uri, version) ∈ tc_pending s → version = tc_version s uri).

Lemma mget_mdelete_Some {A} (k k' : string) (v : A) (m : jmap string A) : mget k' (mdelete k m) = Some v → k ≠ k' ∧ mget k' m = Some v.
Proof.
  destruct (decide (k = k')) as [->|Hne]; [by rewrite mget_mdelete_eq|]. by rewrite mget_mdelete_ne.
Qed.

Lemma trace_step_current ev s :
  (match ev with TextChanged uri => unchecked uri s | _ => true end) = true → trace_current s → trace_current (trace_step s ev).
Proof.
  intros Hp [Hd Hq]. destruct ev as [uri|k answer|uri|uri]; cbn [trace_step].
  - split; cbn; [by intros u v f [_ H]%mget_mdelete_Some; eapply Hd|]. intros u v Hu. apply elem_of_app in Hu as [Hu|Hu]; [by apply Hq|].
    apply list_elem_of_singleton in Hu. by injection Hu as -> ->.
  - destruct (tc_pending s !! k) as [[uri version]|] eqn:Ek; [|done]. split; cbn.
    + intros u v f. destruct answer as [found|]; [|apply Hd]. intros [[-> [= -> ->]]|[_ H]]%mget_mset_Some; [|by eapply Hd].
      by eapply Hq, list_elem_of_lookup_2.
    + intros u v Hu. apply Hq. by eapply elem_of_submseteq, submseteq_delete.
  - split; cbn.
    + intros u v f [Hne H]%mget_mdelete_Some. destruct (String.eqb_spec u uri) as [->|_]; [done|]. by eapply Hd.
    + intros u v Hu. destruct (String.eqb_spec u uri) as [->|_]; [|by apply Hq]. unfold unchecked in Hp. apply negb_true_iff in Hp.
      assert (existsb (λ p, String.eqb p.1 uri) (tc_pending s) = true) as H; [|congruence]. apply existsb_exists. exists (uri, v).
      split; [by apply list_elem_of_In|apply String.eqb_refl].
  - split; cbn; [by intros u v f [_ H]%mget_mdelete_Some; eapply Hd|done].
Qed.

(** The diagnostics shown are of the text in the editor, where no document is edited while its check awaits the answer. *)
Lemma diagnostics_current evs uri version found :
  let s := trace_run evs start_trace in
  patient evs start_trace = true → mget uri (tc_diagnostics s) = Some (version, found) → version = tc_version s uri.
Proof.
  cbn zeta. intros Hp. assert (trace_current start_trace) as Hs by (split; cbn; [done|by intros ? ? ?%elem_of_nil]).
  revert Hp Hs. generalize start_trace as s. induction evs as [|ev evs IH]; intros s Hp Hs; [apply Hs|]. cbn in Hp.
  apply andb_prop in Hp as [He Hp]. apply (IH (trace_step s ev)); [done|]. by apply trace_step_current.
Qed.

(** A check that is answered after its document was edited leaves the diagnostics of the old text. *)
Example answered_after_edit :
  let s := trace_run [TraceCheck "file:///a"; TextChanged "file:///a"; TraceAnswered 0 (Some [])] start_trace in
  mget "file:///a" (tc_diagnostics s) = Some (0%nat, []) ∧ tc_version s "file:///a" = 1%nat.
Proof. vm_compute. split; reflexivity. Qed.
